(* ===== verification/_CoqProject ===== *)
-Q . S2P
Prelude.v
HeapTheory.v
Bitmapset.v
BitmapsetTheory.v
BinaryHeap.v
PairingHeap.v
SortSupport.v
RangeSpec.v
TuplesortHeap.v
LogTape.v
LogTapeBlocks.v
LogTapeFree.v
LogTapeRep.v
LogTapeWrite.v
LogTapeRead.v
LogTapeFrozen.v
LogTapeSet.v
LogTapeSpec.v
LogTapeCells.v
TuplesortState.v
Tuplesort.v
TapeRuns.v
TuplesortMem.v
RunMerge.v
Polyphase.v
MergeRuns.v
ExternalMerge.v
Distribution.v
RunBuild.v
TuplesortCursor.v
TuplesortExternal.v
TapeCursor.v
Executor.v
NodeSort.v
NodeLimit.v
SortCursor.v
MergeAppend.v
IndexAm.v
NodeIndexscan.v
HnswScan.v
HnswRange.v
SptagScan.v
HnswGraph.v
HnswTraversal.v
HnswKnn.v
HnswInsert.v
HnswInsertTheory.v
HnswUpdate.v
Double.v
IndexBuild.v
HnswFile.v
PaseScan.v
TopkScan.v
Pipeline.v
RangeQuery.v
SptagQuery.v
HnswQuery.v
VectorSearch.v
TopkHnsw.v
