(* ===== verification/Prelude.v ===== *)
(** * Verification of the VBASE query path

    VBASE is a PostgreSQL 13.4 whose executor answers
    [SELECT ... ORDER BY distance LIMIT k] over a vector index without a
    fixed-size candidate list: the index scan delivers rows in roughly
    ascending distance, tells the executor when the traversal has become
    monotone, and the Sort above it stops reading as soon as its bounded heap
    is full.  This library models that path of the server, from the access
    method to the Limit node, and the data structures it runs on.  Source paths
    below are relative to src/vectordb/Postgres/src unless they name
    src/vectordb/src.

    ** The parts and how they interact

    A plan is Limit over Sort over Index Scan.  [ExecLimit] (nodeLimit.c)
    evaluates OFFSET and COUNT, passes their sum as a bound to the Sort and
    fetches from it.  [ExecSort] (nodeSort.c) feeds a tuplesort from its child
    and, in VBASE, stops when the child scan is in order and
    [tuplesort_heapfull]; then it delivers the sorted rows.  The index scan
    ([IndexNext], [IndexNextWithReorder] of nodeIndexscan.c) asks the access
    method for tuple identifiers, fetches the visible tuples, rechecks and
    reorders them and copies the in-order flag of the scan descriptor to the
    executor state.  The HNSW access method (src/vectordb/src/hnswindex.cpp,
    hnswindex_scan.cpp) draws results from the hnswlib iterator and decides
    the flag from a queue of the smallest distances.

    Over a partitioned table a MergeAppend node (nodeMergeAppend.c) merges one
    such Sort per partition with a binary heap and passes the bound on to them.
    The SQL functions [topk] and [multicol_topk] (src/vectordb/src/topk.cpp,
    multicol_topk.cpp) bypass the Sort: they read several index scans in turn
    and keep the best rows themselves.

    The HNSW index itself is the vendored hnswlib
    (src/vectordb/thirdparty/hnsw/hnswlib): a graph of elements with links on
    several levels.  [CREATE INDEX] (hnswindex_builder.cpp) scans the table and
    inserts its vectors; the index is saved to a file, and a scan loads it and
    walks the graph best first.  Two other access methods share the interface:
    SPTAG (index.cpp, index_builder.cpp, over a library that is not part of the
    repository) and PASE (pase_hnswindex.cpp, over hnswlib's bounded search).

    ** Files

    - Prelude: outcomes of C code ([res]: normal return, error, undefined
      behaviour, unrolled loop), fixed-width integers, arrays indexed by [Z],
      comparators, top-N answers.
    - HeapTheory, BinaryHeap (lib/binaryheap.c), PairingHeap
      (lib/pairingheap.c, on a store of linked nodes): the heaps.
    - SortSupport (utils/sortsupport.h, [comparetup_heap]): comparisons with
      direction, NULL placement and abbreviated keys.
    - Bitmapset, BitmapsetTheory: nodes/bitmapset.c, sets of integers as arrays
      of 64-bit words, which MergeAppend uses for the subplans that take part.
    - TuplesortHeap, TuplesortState, Tuplesort: utils/sort/tuplesort.c for
      heap tuples; the state record has the fields of [Tuplesortstate], the
      operations have the names of the C functions.  LogTape is the contract
      of utils/sort/logtape.c the sort is written against; a position on a tape
      is, as there, a block number of the file and an offset.
    - LogTapeBlocks: logtape.c itself, tapes as chains of blocks in one file
      with buffers, a heap of free blocks and preallocation.  LogTapeFree (the
      pool of blocks), LogTapeRep (what blocks stand for), LogTapeWrite,
      LogTapeRead, LogTapeFrozen (the operations on one tape), LogTapeSet (the
      set and its abstract machine), LogTapeSpec (the theorems) and
      LogTapeCells (logtape.c implements LogTape).
    - TuplesortMem, TuplesortCursor: the in-memory and bounded regimes, and
      the scrollable cursor over a result in memory.
    - TapeRuns, RunMerge, Polyphase, MergeRuns, ExternalMerge, Distribution,
      RunBuild, TuplesortExternal, TapeCursor: the external regime, from the
      layout of a tuple on tape to the whole sort; see below.
    - Executor (sdir.h, execnodes.h: what a plan node promises its parent, as
      a record of operations with laws), NodeSort (nodeSort.c), NodeLimit
      (nodeLimit.c), IndexAm (indexam.c, genam.c), NodeIndexscan
      (nodeIndexscan.c, execScan.c), HnswScan (hnswindex*.cpp).
    - SortCursor: the Sort node under every sequence of fetches, mark, restore
      and rescan.  MergeAppend: nodeMergeAppend.c over BinaryHeap.
    - TopkScan: the loop of topk.cpp and multicol_topk.cpp over any index
      scans.
    - Pipeline: the nodes composed as the planner composes them.  TopkHnsw:
      the top-k functions over HNSW index scans.
    - HnswGraph: the graph, the greedy descent, the iterator and the visited
      lists of hnswlib; HnswTraversal: what the iterator enumerates; HnswKnn:
      the bounded search; HnswInsert: neighbour selection, insertion,
      update and deletion marks, with their theory in HnswInsertTheory
      (insertion) and HnswUpdate (update); HnswFile: the layout in memory,
      saving and loading.
    - Double, IndexBuild: the builders of the HNSW and SPTAG access methods
      (PASE's is a copy of the former), with the [double] the HNSW builder
      counts in.  SptagScan, PaseScan: the scans of the other two
      access methods.
    - RangeSpec, HnswRange, RangeQuery: range filters, for HNSW and SPTAG
      alike through the class [RangeAm].  SptagQuery: top-k plans over SPTAG.
    - HnswQuery: top-k plans over the graph.  VectorSearch: from the table to
      the answer of a query.

    ** What the theorems show

    - The heaps: each operation refines the priority-queue operation and keeps
      the representation; heap sort sorts; C [int] offsets do not overflow.
    - The sort: in memory, bounded or external, it succeeds and delivers a
      sorted permutation (or the top N) of its input, every row and then the
      end; with random access it is a scrollable cursor, in memory and on tape
      alike, as long as on tape no restore is asked for without a mark (or after
      a rescan, which drops it): the code then seeks block 0 of the file,
      whatever lies there.  The external part follows the code's own phases: a run written
      and read back is the run ([tape_runs_roundtrip]); merging one run from
      each tape gives one sorted run; real and dummy runs form a perfect
      Fibonacci distribution at every put ([run_distribution_invariant]); the
      polyphase merge ends with one run or a final merge
      ([performsort_terminates]).  Memory accounting never raises its own
      out-of-memory error.
    - The tapes: in every state that calls on a tape set can reach, the set
      stands for independent byte tapes, and every call these allow succeeds
      and returns what they say ([logtape_refines_byte_tapes]); no block is
      shared or lost to two owners ([tapes_share_no_block]); told positions stay
      good ([tell_seek_roundtrip]); every run of calls on the contract tapes in
      which no tape is frozen empty and no frozen tape is read past its end is a
      run of logtape.c with the same results ([logtape_implements_sort_tapes]).
      That the sort's own runs are such runs is a hypothesis there.
    - The integer sets: every computation with the operations of bitmapset.c
      builds the mathematical set, the questions decide its relations whatever
      the lengths of the arrays, iteration visits every member once in order,
      and equal sets hash equally.  [bms_range_loop] justifies the list of
      subplans MergeAppend works with.
    - The nodes: the Limit node is a cursor over the window of its child under
      every sequence of forward and backward fetches; the reorder queue makes
      an index scan exact; the early stop of the Sort is exact whenever the
      scan keeps relaxed monotonicity and the bounded heap fits ([topn_budget]:
      at most 510 rows, within work_mem); the Sort node with random access is a
      scrollable cursor over its child's rows, and a rescan that cannot rewind
      sorts again; a MergeAppend returns the merge of the subplans that take
      part, and the exact top rows when a bound is pushed down; the label of a
      heap position decodes to that position.
    - The top-k functions: [multicol_topk] returns the best of the rows it has
      read and says when it stops; [topk] is exact over scans that settle,
      and over HNSW index scans whose traversals settle ([topk_hnsw_exact]).
    - The graph: inserting a point into an index without deleted elements, with
      [M] at most 32767 (link counts are kept in 16 bits), keeps the links within
      their level and bound, without duplicates or self links, and every point stays reachable
      by its label, and so does moving a known point ([hnsw_add_point]);
      deletion marks are counted and can be undone, the integrity check
      refuses every intact index of two points; the neighbour selection is
      characterized ([neighbor_selection]); the iterator returns every
      reachable live element once, best first, and ends
      ([hnsw_iterator_best_first]); the bounded search returns the closest of
      the elements its visited array marks; visited lists are clean although their tags wrap around;
      saving and loading is the identity on the graph, and files of another
      length are refused ([hnsw_file_roundtrip]).
    - The builders: the HNSW build refuses arrays of different lengths, runs out
      of room if the counter it never initialises gives too small a capacity, and
      otherwise holds the table ([hnsw_build_holds_table]); what the SPTAG builder
      hands to its library is described for every table.
    - The other access methods: range queries of HNSW and SPTAG return rows in
      range only, and all of them over a focused traversal; the calls of an
      SPTAG scan are typed by a protocol, in which key space that no rescan has
      filled must not be read; a PASE scan delivers the at most 188 rows of one
      bounded search.
    - The composition: Limit over bounded Sort over HNSW scan returns exactly
      the nearest rows when OFFSET + COUNT is at most 86, these rows fit in
      memory, every live element is a visible row and the traversal settles,
      over any graph ([vbase_graph_topk]) and over the graph that
      CREATE INDEX built, saved and loaded ([create_index_then_search]).
    - Where the code does not do what it means to, a theorem or an example
      exhibits it: an
      unbounded Sort over an in-order scan is cut to one row, the in-order flag
      of other access methods is read uninitialised ([sptag_topk_answer]), rows
      on the boundary of a range depend on a flag nobody sets, ending an SPTAG
      scan that was not fetched from crashes, an SPTAG build over empty arrays
      divides by zero or mixes up rows, a counter and the number of deletions
      are not initialised, a limit above 86 and a
      filter make the early stop inexact, an in-order flag left up by one
      partition cuts the Sort of the next one short, a NULL query crashes,
      [topk] over a scan with a reorder queue loses rows, a seek to the last
      block of a tape loses the end of the tape, and freezing an empty tape
      fails.

    ** Fuel

    Loops whose bound the code does not state are unrolled with fuel computed
    from the state: array loops with their index range, the merge of one run
    with the number of items on tape, a pass of the polyphase merge with the
    run count of the last input unit, the passes with the level; the loops of
    logtape.c with the bytes asked for, the buffer size or the blocks written.
    The walk on a level of the graph is unrolled once per element, since the
    distance falls with each turn, and so are the searches, since an element
    is expanded once.  Iterations over an integer set are unrolled once per bit, the rounds of the
    top-k functions once per row of the first scan and once more.  The totality
    theorems show that this fuel is never used up.

    ** Parameters

    Code outside the repository's sources is a parameter with named laws:
    [qsort] (the generated qsort_tuple.c) and the floating-point growth factor
    are the fields of [SortEnv] with [SortEnvOk], and so is the place in the file
    of each block of a result tape, which is left open; the data types' comparators
    are fields of [SortSupportData] with [ssup_ok]; the iterator of the SPTAG
    library is a stream of results.  In Pipeline, HnswRange and TopkHnsw the
    iterator of hnswlib is a parameter too, which HnswTraversal discharges.
    The distance function of hnswlib, the levels drawn for new elements, the
    visited lists of the pool, the order in which an unordered set is iterated
    ([UnorderedSet]) and [1 - distance] of PASE are parameters; distances are
    integers of which only the order is used, so NaN distances are left out.  The
    priority queue of the C++ library ([PriorityQueue],
    [PriorityQueueOk]: which of several greatest items is on top is open), the
    conversions to [float] of the top-k functions and [hash_any] of the integer
    sets are parameters; the decisions of partition pruning are data.  The
    temporary file below logtape.c (buffile.c) is a
    list of blocks that can be overwritten and extended; uninitialised memory
    and the memory image of a tuple are arbitrary.  Witnesses instantiate them.

    ** Not modelled

    Worker tapes (ltsConcatWorkerTapes) and closing of tape sets; the cluster,
    index and datum variants of tuplesort.c and parallel sorts; EvalPlanQual,
    bitmap and parallel index scans; in hnswlib the locks and the distance
    kernels; the SPTAG library (a git
    submodule, not in the repository); cost estimates, options and vacuum of
    the access methods; how the top-k functions build and plan their queries;
    memory management (freeing, shutdown of nodes); the planner; and the
    unmodified rest of PostgreSQL, which is outside the vector query path. *)

From Stdlib Require Import ZArith Lia Permutation.
From Stdlib Require Import Sorted.
From stdpp Require Import base list strings.
From stdpp Require Import sorting.

Open Scope Z_scope.

(** Hint databases: [heapdb] for the heap lemmas, [sortdb] for orders and
    permutations, [plandb] for plan-node invariants. *)
Create HintDb heapdb.
Create HintDb sortdb.
Create HintDb plandb.

(** ** The outcome of running a piece of C code

    [Ok a] is a normal return.  [Error m] is [elog(ERROR, m)] or [ereport]:
    control leaves the function and the statement is aborted.  [Crash] is
    undefined behaviour of the C program (an access outside an array, a null
    pointer dereference).  [NoFuel] marks a loop the model stopped
    unrolling; every totality theorem shows it is not reached. *)
Inductive res (A : Type) : Type :=
| Ok (a : A)
| Error (m : string)
| Crash
| NoFuel.
Arguments Ok {A} a.
Arguments Error {A} m%_string.
Arguments Crash {A}.
Arguments NoFuel {A}.

Definition rbind {A B} (c : res A) (k : A -> res B) : res B :=
  match c with
  | Ok a => k a
  | Error m => Error m
  | Crash => Crash
  | NoFuel => NoFuel
  end.

(** Conversion looks inside the two computations before it runs them. *)
Strategy 10 [rbind].

Declare Scope c_scope.
Delimit Scope c_scope with C.
Notation "'do!' x <- c ;; k" := (rbind c (fun x => k))
  (at level 10, x name, c at level 99, k at level 200) : c_scope.
Notation "'do!' ' p <- c ;; k" := (rbind c (fun x => match x with p => k end))
  (at level 10, p pattern, c at level 99, k at level 200) : c_scope.
Open Scope c_scope.

Lemma rbind_Ok {A B} (c : res A) (k : A -> res B) b :
  rbind c k = Ok b <-> exists a, c = Ok a /\ k a = Ok b.
Proof. destruct c; cbn; naive_solver. Qed.

Lemma rbind_ret {A B} (a : A) (k : A -> res B) : rbind (Ok a) k = k a.
Proof. done. Qed.

Lemma rbind_assoc {A B D} (c : res A) (k : A -> res B) (h : B -> res D) :
  rbind (rbind c k) h = rbind c (fun a => rbind (k a) h).
Proof. by destruct c. Qed.

(** A result that is neither undefined behaviour nor an exhausted fuel. *)
Definition safe {A} (c : res A) : Prop :=
  match c with Ok _ | Error _ => True | Crash | NoFuel => False end.

(** ** Machine integers *)

Definition INT_MAX : Z := 2147483647.
Definition INT_MIN : Z := -2147483648.
Definition INT64_MAX : Z := 9223372036854775807.
Definition INT64_MIN : Z := -9223372036854775808.

(** Signed arithmetic wraps (the server is built with -fwrapv). *)
Definition int32 (z : Z) : Z := (z + 2147483648) mod 4294967296 - 2147483648.
Definition int64 (z : Z) : Z :=
  (z + 9223372036854775808) mod 18446744073709551616 - 9223372036854775808.
Definition uint16 (z : Z) : Z := z mod 65536.
Definition uint32 (z : Z) : Z := z mod 4294967296.
Definition uint64 (z : Z) : Z := z mod 18446744073709551616.

Definition is_int32 (z : Z) : Prop := INT_MIN <= z <= INT_MAX.
Definition is_int64 (z : Z) : Prop := INT64_MIN <= z <= INT64_MAX.

Lemma int32_id z : is_int32 z -> int32 z = z.
Proof. unfold is_int32, int32, INT_MIN, INT_MAX. intros. rewrite Z.mod_small; lia. Qed.

Lemma int64_id z : is_int64 z -> int64 z = z.
Proof. unfold is_int64, int64, INT64_MIN, INT64_MAX. intros. rewrite Z.mod_small; lia. Qed.

Lemma int64_range z : is_int64 (int64 z).
Proof.
  unfold is_int64, int64, INT64_MIN, INT64_MAX.
  pose proof (Z.mod_pos_bound (z + 9223372036854775808) 18446744073709551616). lia.
Qed.

Lemma uint32_id z : 0 <= z < 4294967296 -> uint32 z = z.
Proof. unfold uint32. intros. by rewrite Z.mod_small. Qed.

(** ** Arrays indexed by a C integer *)

Definition zlen {A} (l : list A) : Z := Z.of_nat (length l).

Definition zget {A} (l : list A) (i : Z) : option A :=
  if Z.leb 0 i then l !! Z.to_nat i else None.

Definition zset {A} (l : list A) (i : Z) (x : A) : list A :=
  if Z.leb 0 i then <[Z.to_nat i := x]> l else l.

(** [l[i]] and [l[i] = x] with the bounds of the allocation checked. *)
Definition aget {A} (l : list A) (i : Z) : res A :=
  match zget l i with Some x => Ok x | None => Crash end.

Definition aset {A} (l : list A) (i : Z) (x : A) : res (list A) :=
  if Z.leb 0 i && Z.ltb i (zlen l) then Ok (zset l i x) else Crash.

Section arrays.
Context {A : Type}.
Implicit Types (l : list A) (i j : Z) (x y : A).

Lemma zget_bounds l i x : zget l i = Some x -> 0 <= i < zlen l.
Proof.
  unfold zget, zlen. destruct (Z.leb_spec 0 i); [|done].
  intros Hl%lookup_lt_Some. lia.
Qed.

Lemma zget_is_Some l i : 0 <= i < zlen l -> exists x, zget l i = Some x.
Proof.
  unfold zget, zlen. intros Hi. destruct (Z.leb_spec 0 i); [|lia].
  apply lookup_lt_is_Some. lia.
Qed.

Lemma zget_None l i : ~ (0 <= i < zlen l) -> zget l i = None.
Proof.
  unfold zget, zlen. intros Hi. destruct (Z.leb_spec 0 i); [|done].
  apply lookup_ge_None. lia.
Qed.

Lemma zlen_zset l i x : zlen (zset l i x) = zlen l.
Proof. unfold zset, zlen. destruct (Z.leb_spec 0 i); [|done]. by rewrite length_insert. Qed.

Lemma zlen_nonneg l : 0 <= zlen l.
Proof. unfold zlen. lia. Qed.

Lemma zlen_0_inv l : zlen l <= 0 -> l = [].
Proof. destruct l; [done|]. unfold zlen. cbn [length]. lia. Qed.

Lemma zlen_app l l' : zlen (l ++ l') = zlen l + zlen l'.
Proof. unfold zlen. rewrite length_app. lia. Qed.

Lemma zlen_cons x l : zlen (x :: l) = 1 + zlen l.
Proof. unfold zlen. cbn [length]. lia. Qed.

Lemma zget_zset_eq l i x : 0 <= i < zlen l -> zget (zset l i x) i = Some x.
Proof.
  unfold zget, zset, zlen. intros Hi. destruct (Z.leb_spec 0 i); [|lia].
  apply list_lookup_insert_eq. lia.
Qed.

Lemma zget_zset_ne l i j x : i <> j -> zget (zset l i x) j = zget l j.
Proof.
  unfold zget, zset. intros Hij.
  destruct (Z.leb_spec 0 i), (Z.leb_spec 0 j); try done.
  apply list_lookup_insert_ne. lia.
Qed.

Lemma zget_zset l i j x :
  0 <= i < zlen l -> zget (zset l i x) j = if Z.eqb i j then Some x else zget l j.
Proof.
  intros Hi. destruct (Z.eqb_spec i j) as [->|Hne].
  - by apply zget_zset_eq.
  - by apply zget_zset_ne.
Qed.

Lemma aget_Ok l i x : zget l i = Some x -> aget l i = Ok x.
Proof. unfold aget. by intros ->. Qed.

Lemma aset_Ok l i x : 0 <= i < zlen l -> aset l i x = Ok (zset l i x).
Proof.
  unfold aset. intros Hi.
  destruct (Z.leb_spec 0 i), (Z.ltb_spec i (zlen l)); cbn; lia || done.
Qed.

Lemma zset_zset_eq l i x y : zset (zset l i x) i y = zset l i y.
Proof. unfold zset. destruct (Z.leb 0 i); [|done]. apply list_insert_insert_eq. Qed.

Lemma zset_id l i x : zget l i = Some x -> zset l i x = l.
Proof.
  unfold zget, zset. destruct (Z.leb 0 i); [|done]. apply list_insert_id.
Qed.

Lemma zset_comm l i j x y : i <> j -> zset (zset l i x) j y = zset (zset l j y) i x.
Proof.
  unfold zset. intros Hij. destruct (Z.leb_spec 0 i), (Z.leb_spec 0 j); try done.
  apply list_insert_insert_ne. lia.
Qed.

(** Exchanging two entries permutes the array. *)
Lemma zset_swap_perm l i j x y :
  zget l i = Some x -> zget l j = Some y -> zset (zset l i y) j x ≡ₚ l.
Proof.
  intros Hx Hy. pose proof (zget_bounds _ _ _ Hx). pose proof (zget_bounds _ _ _ Hy).
  unfold zget, zset in *.
  destruct (Z.leb_spec 0 i), (Z.leb_spec 0 j); try lia.
  by apply Permutation_insert_swap.
Qed.

Lemma zget_app_l l l' i : i < zlen l -> zget (l ++ l') i = zget l i.
Proof.
  unfold zget, zlen. intros Hi. destruct (Z.leb_spec 0 i); [|done].
  apply lookup_app_l. lia.
Qed.

Lemma zget_app_r l l' i : zlen l <= i -> zget (l ++ l') i = zget l' (i - zlen l).
Proof.
  unfold zget, zlen. intros Hi. destruct (Z.leb_spec 0 i), (Z.leb_spec 0 (i - Z.of_nat (length l)));
    try lia.
  rewrite lookup_app_r by lia. f_equal. lia.
Qed.

Lemma zget_elem l i x : zget l i = Some x -> x ∈ l.
Proof.
  unfold zget. destruct (Z.leb 0 i); [|done]. intros Hl.
  apply list_elem_of_lookup. eauto.
Qed.

Lemma elem_zget l x : x ∈ l -> exists i, zget l i = Some x /\ 0 <= i < zlen l.
Proof.
  intros [n Hn]%list_elem_of_lookup. exists (Z.of_nat n). unfold zget, zlen.
  pose proof (lookup_lt_Some _ _ _ Hn).
  destruct (Z.leb_spec 0 (Z.of_nat n)); [|lia]. rewrite Nat2Z.id. split; [done|lia].
Qed.

Lemma zget_cons_pos x l i : 0 < i -> zget (x :: l) i = zget l (i - 1).
Proof.
  intros Hi. unfold zget. destruct (Z.leb_spec 0 i); [|lia]. destruct (Z.leb_spec 0 (i - 1)); [|lia].
  by replace (Z.to_nat i) with (S (Z.to_nat (i - 1))) by lia.
Qed.

Lemma zget_0_cons x l : zget (x :: l) 0 = Some x.
Proof. done. Qed.

Lemma zset_0_cons x y l : zset (x :: l) 0 y = y :: l.
Proof. done. Qed.

(** The live prefix of an array of which only [n] entries are in use. *)
Definition ztake (n : Z) l : list A := take (Z.to_nat n) l.

Lemma zlen_ztake n l : 0 <= n <= zlen l -> zlen (ztake n l) = n.
Proof. unfold zlen, ztake. rewrite length_take. lia. Qed.

Lemma zget_ztake n l i : i < n -> zget (ztake n l) i = zget l i.
Proof.
  unfold zget, ztake. intros. destruct (Z.leb_spec 0 i); [|done].
  apply lookup_take_lt. lia.
Qed.

Lemma ztake_zset_lt n l i x : i < n -> ztake n (zset l i x) = zset (ztake n l) i x.
Proof.
  unfold ztake, zset. intros. destruct (Z.leb_spec 0 i); [|done].
  apply take_insert_lt. lia.
Qed.

Lemma ztake_zset_ge n l i x : n <= i -> ztake n (zset l i x) = ztake n l.
Proof.
  unfold ztake, zset. intros. destruct (Z.leb_spec 0 i); [|done].
  apply take_insert_ge. lia.
Qed.

Lemma ztake_succ n l x : zget l n = Some x -> ztake (n + 1) l = ztake n l ++ [x].
Proof.
  intros Hx. pose proof (zget_bounds _ _ _ Hx). unfold zget, ztake in *.
  destruct (Z.leb_spec 0 n); [|lia].
  replace (Z.to_nat (n + 1)) with (S (Z.to_nat n)) by lia.
  by apply take_S_r.
Qed.

Lemma ztake_all n l : zlen l <= n -> ztake n l = l.
Proof. unfold zlen, ztake. intros. apply take_ge. lia. Qed.

Lemma ztake_nonpos n l : n <= 0 -> ztake n l = [].
Proof. unfold ztake. intros. by replace (Z.to_nat n) with 0%nat by lia. Qed.

(** The entries from [n] on. *)
Definition zdrop (n : Z) l : list A := drop (Z.to_nat n) l.

Lemma ztake_zdrop n l : ztake n l ++ zdrop n l = l.
Proof. apply take_drop. Qed.

Lemma zset_split l k x :
  0 <= k < zlen l -> zset l k x = ztake k l ++ x :: zdrop (k + 1) l.
Proof.
  unfold zlen, zset, ztake, zdrop. intros Hk. destruct (Z.leb_spec 0 k); [|lia].
  replace (Z.to_nat (k + 1)) with (S (Z.to_nat k)) by lia.
  apply insert_take_drop. lia.
Qed.

Lemma zget_zdrop n l i : 0 <= n -> 0 <= i -> zget (zdrop n l) i = zget l (n + i).
Proof.
  unfold zget, zdrop. intros Hn Hi.
  destruct (Z.leb_spec 0 i), (Z.leb_spec 0 (n + i)); try lia.
  rewrite lookup_drop. f_equal. lia.
Qed.

Lemma zlist_eq l l' :
  (forall i, 0 <= i -> zget l i = zget l' i) -> l = l'.
Proof.
  intros H. apply list_eq. intros i. specialize (H (Z.of_nat i)). unfold zget in H.
  destruct (Z.leb_spec 0 (Z.of_nat i)); [|lia]. rewrite Nat2Z.id in H. apply H. lia.
Qed.

Lemma zget_ztake_ge n l i : n <= i -> zget (ztake n l) i = None.
Proof.
  unfold zget, ztake. intros. destruct (Z.leb_spec 0 i); [|done].
  apply lookup_take_ge. lia.
Qed.

(** Slices agree when the arrays agree on the range. *)
Lemma slice_ext a b l l' :
  0 <= a -> (forall i, a <= i < b -> zget l i = zget l' i) ->
  zdrop a (ztake b l) = zdrop a (ztake b l').
Proof.
  intros Ha H. apply zlist_eq. intros i Hi. rewrite !zget_zdrop by lia.
  destruct (Z.lt_ge_cases (a + i) b).
  - rewrite !zget_ztake by lia. apply H. lia.
  - by rewrite !zget_ztake_ge by lia.
Qed.

Lemma ztake_ext n l l' :
  (forall i, 0 <= i < n -> zget l i = zget l' i) -> ztake n l = ztake n l'.
Proof.
  intros H. apply (slice_ext 0 n l l'); [lia|]. intros; apply H; lia.
Qed.

Lemma ztake_app_l n l l' : n <= zlen l -> ztake n (l ++ l') = ztake n l.
Proof. unfold zlen, ztake. intros. apply take_app_le. lia. Qed.

Lemma ztake_app_all l l' : ztake (zlen l) (l ++ l') = l.
Proof. unfold zlen, ztake. rewrite Nat2Z.id. apply take_app_length. Qed.

Lemma ztake_ztake m n l : m <= n -> ztake m (ztake n l) = ztake m l.
Proof. unfold ztake. intros. rewrite take_take. f_equal. lia. Qed.
End arrays.

Arguments zget : simpl never.
Arguments zset : simpl never.
Arguments ztake : simpl never.
Arguments zdrop : simpl never.
Arguments zlen : simpl never.
Arguments aget : simpl never.
Arguments aset : simpl never.

(** Symbolic execution of the array accesses of a loop body: the reads that a
    hypothesis [zget _ _ = Some _] answers and the writes that arithmetic
    shows in range. *)
Ltac arr :=
  repeat first
    [ progress cbn [rbind]
    | match goal with
      | H : zget ?l ?i = Some ?x |- context [aget ?l ?i] =>
          rewrite (aget_Ok l i x H)
      | |- context [aset ?l ?i ?x] =>
          rewrite (aset_Ok l i x) by (rewrite ?zlen_zset; lia)
      end ].

(** Pose the bounds of every array read of the context. *)
Ltac zbounds :=
  repeat match goal with
    | H : zget ?l ?i = Some ?x |- _ =>
        lazymatch goal with
        | _ : 0 <= i < zlen l |- _ => fail
        | _ => pose proof (zget_bounds l i x H)
        end
    end.

(** ** Three-way comparators

    A C comparator returns a negative, zero or positive [int].  [Comparator]
    states that it orders its arguments: exchanging the arguments exchanges
    the sign, and "not greater" is transitive. *)
Class Comparator {A : Type} (cmp : A -> A -> Z) : Prop := {
  cmp_flip : forall a b, cmp a b < 0 <-> 0 < cmp b a;
  cmp_le_trans : forall a b c, cmp a b <= 0 -> cmp b c <= 0 -> cmp a c <= 0
}.

Definition cle {A} (cmp : A -> A -> Z) (a b : A) : Prop := cmp a b <= 0.

Section comparator.
Context {A : Type} (cmp : A -> A -> Z) `{!Comparator cmp}.

Lemma cle_refl a : cle cmp a a.
Proof. unfold cle. pose proof (cmp_flip a a). lia. Qed.

Lemma cle_total a b : cle cmp a b \/ cle cmp b a.
Proof. unfold cle. pose proof (cmp_flip a b). pose proof (cmp_flip b a). lia. Qed.

Lemma cle_trans a b c : cle cmp a b -> cle cmp b c -> cle cmp a c.
Proof. apply cmp_le_trans. Qed.

Lemma cle_lt a b : cmp a b < 0 -> cle cmp a b.
Proof. unfold cle. lia. Qed.

Lemma cle_gt a b : 0 < cmp a b -> cle cmp b a.
Proof. unfold cle. pose proof (cmp_flip b a). lia. Qed.

Lemma cle_ge a b : 0 <= cmp a b -> cle cmp b a.
Proof. unfold cle. pose proof (cmp_flip a b). lia. Qed.

Lemma cle_lt_gt a b : cmp a b < 0 <-> ~ cle cmp b a.
Proof. unfold cle. pose proof (cmp_flip a b). lia. Qed.

#[global] Instance cle_preorder : PreOrder (cle cmp).
Proof. split; [exact cle_refl|exact cle_trans]. Qed.

#[global] Instance cle_Total : Total (cle cmp).
Proof. exact cle_total. Qed.

#[global] Instance cle_Transitive : Transitive (cle cmp).
Proof. exact cle_trans. Qed.

#[global] Instance cle_dec a b : Decision (cle cmp a b).
Proof. unfold cle. apply _. Defined.

(** The comparator with its arguments exchanged orders the other way. *)
#[global] Instance flip_comparator : Comparator (fun a b => cmp b a).
Proof.
  split; intros *; [apply cmp_flip|].
  intros H1 H2. apply (cle_trans c b a); [exact H2|exact H1].
Qed.
End comparator.

(** Subtraction compares integers. *)
#[global] Instance Zsub_comparator : Comparator Z.sub.
Proof. split; lia. Qed.

(** [smallest_of cmp out l]: [out] is a selection of [l] and nothing left
    behind sorts before anything selected. *)
Definition smallest_of {A} (cmp : A -> A -> Z) (out l : list A) : Prop :=
  exists rest, l ≡ₚ out ++ rest /\
    forall x y, x ∈ out -> y ∈ rest -> cle cmp x y.

(** [topn cmp n l out]: [out] is the answer of "ORDER BY ... LIMIT n" over [l]. *)
Definition topn {A} (cmp : A -> A -> Z) (n : Z) (l out : list A) : Prop :=
  StronglySorted (cle cmp) out /\ zlen out = Z.min n (zlen l) /\ smallest_of cmp out l.

Lemma topn_perm {A} (cmp : A -> A -> Z) k l l' out : l ≡ₚ l' -> topn cmp k l out -> topn cmp k l' out.
Proof.
  intros Hp (Hs & Hl & rest & HD & Hle). split; [done|]. split; [unfold zlen in *; by rewrite <- Hp|].
  exists rest. by rewrite <- Hp.
Qed.


(** ** Lists related entry by entry *)

Section forall2.
Context {A B : Type} (R : A -> B -> Prop).

Lemma Forall2_perm_l (la la' : list A) (lb : list B) :
  la ≡ₚ la' -> Forall2 R la lb -> exists lb', lb ≡ₚ lb' /\ Forall2 R la' lb'.
Proof.
  intros Hp. revert lb. induction Hp as [|a la la' Hp IH|a b la|la1 la2 la3 _ IH1 _ IH2];
    intros lb H.
  - by exists lb.
  - inversion H as [|? y ? lb0 Hy H0]; subst. destruct (IH _ H0) as (lb' & Hp' & H').
    exists (y :: lb'). split; [by constructor|by constructor].
  - inversion H as [|? y ? lb0 Hy H0]; subst. inversion H0 as [|? z ? lb1 Hz H1]; subst.
    exists (z :: y :: lb1). split; [apply Permutation_swap|by repeat constructor].
  - destruct (IH1 _ H) as (lb2 & Hp2 & H2). destruct (IH2 _ H2) as (lb3 & Hp3 & H3).
    exists lb3. split; [by etrans|done].
Qed.

(** An order that the relation transports. *)
Lemma Forall2_sorted (P : A -> A -> Prop) (Q : B -> B -> Prop) la lb :
  (forall a a' b b', R a b -> R a' b' -> P a a' -> Q b b') ->
  Forall2 R la lb -> StronglySorted P la -> StronglySorted Q lb.
Proof.
  intros HPQ H. induction H as [|a b la lb Hab H IH]; intros Hs; [constructor|].
  apply StronglySorted_inv in Hs as [Hs Hall]. constructor; [by apply IH|].
  apply (Forall2_Forall_r _ _ _ _ H). eapply Forall_impl; [exact Hall|].
  intros a' Haa' b' Hab'. by apply (HPQ a a' b b').
Qed.

Lemma Forall2_elem_r la lb y : Forall2 R la lb -> y ∈ lb -> exists x, x ∈ la /\ R x y.
Proof.
  intros H [i Hi]%list_elem_of_lookup. destruct (Forall2_lookup_r _ _ _ _ _ H Hi) as (x & Hx & HR).
  exists x. split; [|done]. apply list_elem_of_lookup. eauto.
Qed.

Lemma Forall2_zlen la lb : Forall2 R la lb -> zlen la = zlen lb.
Proof. intros H. unfold zlen. f_equal. by apply (Forall2_length R). Qed.

Lemma Forall2_zget_l la lb i x :
  Forall2 R la lb -> zget la i = Some x -> exists y, zget lb i = Some y /\ R x y.
Proof.
  intros H. unfold zget. destruct (Z.leb 0 i); [|done].
  apply (Forall2_lookup_l R la lb _ x H).
Qed.
End forall2.

(** ** Mapping and flattening arrays *)

Lemma filter_all {A} (P : A -> bool) (l : list A) :
  (forall x, x ∈ l -> P x = true) -> filter (fun x => P x = true) l = l.
Proof.
  induction l as [|x l IH]; intros Hall; [done|]. rewrite filter_cons_True by (apply Hall; by left).
  f_equal. apply IH. intros y Hy. apply Hall. by right.
Qed.

Lemma zlen_fmap {A B} (f : A -> B) (l : list A) : zlen (f <$> l) = zlen l.
Proof. unfold zlen. by rewrite length_fmap. Qed.

Lemma zget_fmap {A B} (f : A -> B) (l : list A) i : zget (f <$> l) i = f <$> zget l i.
Proof. unfold zget. destruct (Z.leb 0 i); [|done]. by rewrite list_lookup_fmap. Qed.

Lemma fmap_zset {A B} (f : A -> B) (l : list A) i x : f <$> zset l i x = zset (f <$> l) i (f x).
Proof. unfold zset. destruct (Z.leb 0 i); [|done]. apply list_fmap_insert. Qed.

Lemma zget_zip_with {A B D} (f : A -> B -> D) (l : list A) (k : list B) i x y :
  zget l i = Some x -> zget k i = Some y -> zget (zip_with f l k) i = Some (f x y).
Proof.
  unfold zget. destruct (Z.leb 0 i); [|done]. intros Hx Hy. rewrite lookup_zip_with, Hx. cbn.
  by rewrite Hy.
Qed.

Lemma zget_middle {A} (l1 l2 : list A) x : zget (l1 ++ x :: l2) (zlen l1) = Some x.
Proof. rewrite zget_app_r by lia. by rewrite Z.sub_diag. Qed.

Lemma zget_split {A} (l : list A) i x :
  zget l i = Some x -> exists l1 l2, l = l1 ++ x :: l2 /\ zlen l1 = i.
Proof.
  intros H. pose proof (zget_bounds _ _ _ H). exists (ztake i l), (zdrop (i + 1) l).
  split; [|rewrite zlen_ztake; lia]. rewrite <- (zset_id l i x H) at 1. by rewrite zset_split by lia.
Qed.

Lemma sorted_zget {A} (R : A -> A -> Prop) l i j x y :
  StronglySorted R l -> i < j -> zget l i = Some x -> zget l j = Some y -> R x y.
Proof.
  intros Hs Hij Hx Hy. destruct (zget_split _ _ _ Hx) as (l1 & l2 & -> & <-). clear Hx.
  assert (Hin : y ∈ l2).
  { rewrite zget_app_r in Hy by lia. change (x :: l2) with ([x] ++ l2) in Hy.
    rewrite zget_app_r in Hy by (change (zlen [x]) with 1; lia). by apply zget_elem in Hy. }
  clear Hy. induction l1 as [|a l1 IH]; cbn in Hs; apply StronglySorted_inv in Hs as [Hs Hall].
  - by apply (proj1 (Forall_forall _ _) Hall).
  - apply IH; [done|]. unfold zlen in *. cbn in Hij. lia.
Qed.

(** Replacing one member of a list of lists. *)
Lemma concat_zset {A} (l : list (list A)) i xs ys :
  zget l i = Some xs -> xs ++ concat (zset l i ys) ≡ₚ ys ++ concat l.
Proof.
  intros Hx. pose proof (zget_bounds _ _ _ Hx) as Hi.
  rewrite <- (zset_id l i xs Hx) at 2. rewrite !zset_split by done.
  rewrite !concat_app. cbn. rewrite !app_assoc.
  rewrite (Permutation_app_comm xs), (Permutation_app_comm ys). rewrite <- !app_assoc.
  apply Permutation_app_head. rewrite !app_assoc. apply Permutation_app_tail.
  apply Permutation_app_comm.
Qed.

Lemma elem_of_concat {A} (ls : list (list A)) x : x ∈ concat ls <-> exists l, x ∈ l /\ l ∈ ls.
Proof.
  rewrite list_elem_of_In, in_concat.
  split; intros (l & H1 & H2); exists l; rewrite !list_elem_of_In in *; done.
Qed.

Lemma Forall2_of_zget {A B} (R : A -> B -> Prop) (l : list A) (k : list B) :
  zlen l = zlen k -> (forall i x y, zget l i = Some x -> zget k i = Some y -> R x y) -> Forall2 R l k.
Proof.
  intros Hlen H. apply Forall2_same_length_lookup. split; [unfold zlen in Hlen; lia|].
  intros i x y Hx Hy. apply (H (Z.of_nat i)); unfold zget;
    (destruct (Z.leb_spec 0 (Z.of_nat i)); [|lia]); by rewrite Nat2Z.id.
Qed.

Lemma Forall_of_zget {A} (P : A -> Prop) (l : list A) :
  (forall i x, zget l i = Some x -> P x) -> Forall P l.
Proof. intros H. apply Forall_forall. intros x (i & Hi & _)%elem_zget. eauto. Qed.

Lemma Forall_zget {A} (P : A -> Prop) (l : list A) i x : Forall P l -> zget l i = Some x -> P x.
Proof. intros H Hx. apply (proj1 (Forall_forall _ _) H). by apply zget_elem with i. Qed.

Lemma Forall_zset {A} (P : A -> Prop) (l : list A) i x :
  Forall P l -> P x -> Forall P (zset l i x).
Proof.
  intros H Hx. unfold zset. destruct (Z.leb 0 i); [|done]. by apply Forall_insert.
Qed.

Lemma zdrop_cons {A} (l : list A) i x : zget l i = Some x -> zdrop i l = x :: zdrop (i + 1) l.
Proof.
  intros Hx. pose proof (zget_bounds _ _ _ Hx). unfold zget, zdrop in *.
  destruct (Z.leb_spec 0 i); [|lia]. rewrite (drop_S _ _ _ Hx). f_equal. f_equal. lia.
Qed.

Lemma concat_perm {A} (l l' : list (list A)) : l ≡ₚ l' -> concat l ≡ₚ concat l'.
Proof.
  induction 1 as [|x l l' _ IH|x y l|l1 l2 l3 _ IH1 _ IH2]; cbn; [done|by rewrite IH|solve_Permutation|by rewrite IH1].
Qed.

(** ** Facts about [topn] *)

Section topn.
Context {A : Type} (cmp : A -> A -> Z) `{!Comparator cmp}.
Implicit Types (l out : list A).

Lemma StronglySorted_app_inv_l (R : A -> A -> Prop) l1 l2 :
  StronglySorted R (l1 ++ l2) ->
  StronglySorted R l1 /\ StronglySorted R l2 /\ forall x y, x ∈ l1 -> y ∈ l2 -> R x y.
Proof.
  induction l1 as [|a l1 IH]; cbn; intros Hs.
  - split; [constructor|]. split; [done|]. intros x y Hx. by apply not_elem_of_nil in Hx.
  - apply StronglySorted_inv in Hs as [Hs Hall]. destruct (IH Hs) as (H1 & H2 & H12).
    apply Forall_app in Hall as [Ha1 Ha2]. split; [by constructor|]. split; [done|].
    intros x y [-> | Hx]%elem_of_cons Hy; [|by apply H12].
    by apply (proj1 (Forall_forall _ _) Ha2).
Qed.

Lemma StronglySorted_app_2 (R : A -> A -> Prop) l1 l2 :
  StronglySorted R l1 -> StronglySorted R l2 -> (forall x y, x ∈ l1 -> y ∈ l2 -> R x y) ->
  StronglySorted R (l1 ++ l2).
Proof.
  induction l1 as [|a l1 IH]; cbn; intros H1 H2 H12; [done|].
  apply StronglySorted_inv in H1 as [H1 Hall]. constructor.
  - apply IH; [done|done|]. intros x y Hx. apply H12. by right.
  - apply Forall_app. split; [done|]. apply Forall_forall. intros y Hy. apply H12; [by left|done].
Qed.

Lemma zlen_ztake_min n l : 0 <= n -> zlen (ztake n l) = Z.min n (zlen l).
Proof. unfold zlen, ztake. intros. rewrite length_take. lia. Qed.

Lemma ztake_nil n : ztake n (@nil A) = [].
Proof. unfold ztake. apply take_nil. Qed.

Lemma ztake_cons n x l : 0 <= n -> ztake (n + 1) (x :: l) = x :: ztake n l.
Proof. intros Hn. unfold ztake. by replace (Z.to_nat (n + 1)) with (S (Z.to_nat n)) by lia. Qed.

(** The first [n] of a sorted rearrangement are the answer. *)
Lemma topn_of_sorted n l out :
  0 <= n -> StronglySorted (cle cmp) out -> out ≡ₚ l -> topn cmp n l (ztake n out).
Proof.
  intros Hn Hs Hp. rewrite <- (ztake_zdrop n out) in Hs.
  apply StronglySorted_app_inv_l in Hs as (H1 & _ & H12). split; [done|]. split.
  - rewrite zlen_ztake_min by done. unfold zlen. by rewrite Hp.
  - exists (zdrop n out). split; [by rewrite ztake_zdrop|]. exact H12.
Qed.

Lemma topn_ztake n l out : topn cmp n l out -> ztake n out = out.
Proof. intros (_ & Hl & _). apply ztake_all. lia. Qed.

(** Answers to the same query agree position by position, up to ties. *)
Lemma topn_length n l out : topn cmp n l out -> 0 <= n -> zlen out <= n.
Proof. intros (_ & -> & _). lia. Qed.

Lemma topn_0 l : topn cmp 0 l [].
Proof.
  split; [constructor|]. split; [pose proof (zlen_nonneg l); unfold zlen at 1; cbn; lia|].
  exists l. split; [done|]. intros x y Hx. by apply not_elem_of_nil in Hx.
Qed.

Lemma topn_nil n : 0 <= n -> topn cmp n [] [].
Proof.
  intros Hn. split; [constructor|]. split; [change (zlen []) with 0; lia|].
  exists []. split; [done|]. intros x y Hx. by apply not_elem_of_nil in Hx.
Qed.

(** A smallest row first, then the answer over the others. *)
Lemma topn_cons n x l l' out :
  0 <= n -> l ≡ₚ x :: l' -> (forall y, y ∈ l -> cle cmp x y) -> topn cmp n l' out ->
  topn cmp (n + 1) l (x :: out).
Proof.
  intros Hn Hl Hx (Hs & Hlen & rest & Hp & Hle). split; [|split].
  - constructor; [done|]. apply Forall_forall. intros y Hy. apply Hx. rewrite Hl, Hp.
    apply elem_of_cons. right. apply elem_of_app. by left.
  - assert (Hz : zlen l = zlen l' + 1) by (unfold zlen; rewrite Hl; cbn; lia).
    assert (Hc : zlen (x :: out) = zlen out + 1) by (unfold zlen; cbn; lia). lia.
  - exists rest. split; [by rewrite Hl, Hp|]. intros a b [-> | Ha]%elem_of_cons Hb; [|by apply Hle].
    apply Hx. rewrite Hl, Hp. apply elem_of_cons. right. apply elem_of_app. by right.
Qed.

(** Answers over parts make up the answer over the whole. *)
Lemma topn_concat n (ls ts : list (list A)) out :
  0 <= n -> Forall2 (topn cmp n) ls ts -> topn cmp n (concat ts) out -> topn cmp n (concat ls) out.
Proof.
  intros Hn Hparts (Hs & Hlen & gone & Hp & Hle).
  assert (Hrest : exists rests, concat ls ≡ₚ concat ts ++ rests /\
    forall y, y ∈ rests -> exists t, t ⊆+ concat ts /\ zlen t = n /\ forall x, x ∈ t -> cle cmp x y).
  { clear -Hn Hparts. induction Hparts as [|l t ls ts (_ & Hlt & r & Hpr & Hle) _ (rests & Hps & IH)].
    - exists []. split; [done|]. intros y Hy. by apply not_elem_of_nil in Hy.
    - exists (r ++ rests). split; [cbn; rewrite Hpr, Hps; solve_Permutation|].
      intros y [Hy|Hy]%elem_of_app.
      + exists t. split; [cbn; apply submseteq_inserts_r; done|]. split; [|intros x Hx; by apply Hle].
        assert (zlen l = zlen t + zlen r) by (unfold zlen; rewrite Hpr, length_app; lia).
        assert (0 < zlen r) by (destruct r; [by apply not_elem_of_nil in Hy|unfold zlen; cbn; lia]). lia.
      + destruct (IH y Hy) as (u & Hu & Hun & Hux). exists u. split; [|done]. cbn. by apply submseteq_inserts_l. }
  destruct Hrest as (rests & Hps & Hrests). split; [done|]. split.
  - assert (Hz : zlen (concat ls) = zlen (concat ts) + zlen rests) by (unfold zlen; rewrite Hps, length_app; lia).
    pose proof (zlen_nonneg rests). destruct rests as [|y rests]; [unfold zlen in Hz at 3; cbn in Hz; lia|].
    destruct (Hrests y) as (t & Ht & Htn & _); [by left|]. apply submseteq_length in Ht. unfold zlen in *. lia.
  - exists (gone ++ rests). split; [by rewrite Hps, Hp, app_assoc|]. intros x y Hx [Hy|Hy]%elem_of_app; [by apply Hle|].
    destruct (Hrests y Hy) as (t & Ht & Htn & Hty). rewrite Hp in Ht. pose proof (submseteq_length _ _ Ht) as Hlt.
    apply submseteq_app_r in Ht as (k1 & k2 & Hk & Hk1 & Hk2). destruct k2 as [|z k2].
    + rewrite app_nil_r in Hk. apply Hty. rewrite Hk. assert (Heq : k1 ≡ₚ out).
      { apply submseteq_length_Permutation; [done|]. assert (zlen t = zlen k1) by (unfold zlen; by rewrite Hk).
        unfold zlen in *. lia. }
      by rewrite Heq.
    + apply (cle_trans cmp x z y).
      * apply Hle; [done|]. apply (elem_of_submseteq (z :: k2)); [by left|done].
      * apply Hty. rewrite Hk. apply elem_of_app. right. by left.
Qed.
End topn.
