(* ===== verification/HeapTheory.v ===== *)
(** * Array heaps

    The order-theoretic facts shared by every implicit binary heap of the
    server: [lib/binaryheap.c] (which swaps nodes) and the heap routines of
    [utils/sort/tuplesort.c] (which move a hole).  A heap is the first [n]
    entries of an array; the children of slot [i] are slots [2 * i + 1] and
    [2 * i + 2].  The lemmas are stated over an arbitrary preorder [le] whose
    smallest element is kept at the root. *)

From Stdlib Require Import ZArith Lia.
From stdpp Require Import base list.
From S2P Require Import Prelude.

Local Open Scope Z_scope.

Definition child (i j : Z) : Prop := j = 2 * i + 1 \/ j = 2 * i + 2.

Section heap.
Context {A : Type} (le : A -> A -> Prop) `{!PreOrder le}.
Implicit Types (l : list A) (i j k n lo : Z) (x y z : A).

(** Every edge of the tree whose upper end is at or above [lo] is ordered. *)
Definition heap_ok l lo n : Prop :=
  forall i j x y, child i j -> lo <= i -> 0 <= i -> j < n ->
    zget l i = Some x -> zget l j = Some y -> le x y.

(** Every edge is ordered except possibly the one into [k] ... *)
Definition up_ok l n k : Prop :=
  (forall i j x y, child i j -> 0 <= i -> j < n -> j <> k ->
     zget l i = Some x -> zget l j = Some y -> le x y) /\
  (* ... whose parent is below [k]'s children too *)
  (forall p j x y, child p k -> 0 <= p -> child k j -> j < n ->
     zget l p = Some x -> zget l j = Some y -> le x y).

(** Every edge is ordered except possibly the ones out of [k]. *)
Definition down_ok l lo n k : Prop :=
  (forall i j x y, child i j -> lo <= i -> 0 <= i -> j < n -> i <> k ->
     zget l i = Some x -> zget l j = Some y -> le x y) /\
  (forall p j x y, child p k -> lo <= p -> 0 <= p -> child k j -> j < n ->
     zget l p = Some x -> zget l j = Some y -> le x y).

Lemma heap_ok_up_ok l n k : heap_ok l 0 n -> up_ok l n k.
Proof.
  intros H. split.
  - intros i j x y Hc Hi Hj _ Hx Hy. by apply (H i j x y).
  - intros p j x y Hp Hp0 Hj Hjn Hx Hy.
    assert (Hk : 0 <= k < zlen l) by (zbounds; unfold child in *; lia).
    destruct (zget_is_Some l k Hk) as [z Hz].
    transitivity z.
    + apply (H p k x z); auto; unfold child in *; lia.
    + apply (H k j z y); auto; unfold child in *; lia.
Qed.

(** Writing past the end and extending the heap by one slot. *)
Lemma heap_ok_extend l n x :
  0 <= n < zlen l -> heap_ok l 0 n -> up_ok (zset l n x) (n + 1) n.
Proof.
  intros Hn H. split.
  - intros i j a b Hc Hi Hj Hne Ha Hb.
    rewrite zget_zset_ne in Ha by (unfold child in Hc; lia).
    rewrite zget_zset_ne in Hb by lia.
    apply (H i j a b); auto; lia.
  - intros p j a b Hp Hp0 Hj Hjn. unfold child in *; lia.
Qed.

Lemma up_done l n k x y p :
  up_ok l n k -> child p k -> 0 <= p ->
  zget l p = Some x -> zget l k = Some y -> le x y -> heap_ok l 0 n.
Proof.
  intros [H1 _] Hp Hp0 Hx Hy Hle i j a b Hc _ Hi Hj Ha Hb.
  destruct (Z.eq_dec j k) as [->|Hne]; [|by apply (H1 i j a b)].
  assert (i = p) as -> by (unfold child in *; lia). congruence.
Qed.

Lemma up_done_root l n : up_ok l n 0 -> heap_ok l 0 n.
Proof.
  intros [H1 _] i j a b Hc _ Hi Hj Ha Hb.
  apply (H1 i j a b); auto. unfold child in Hc. lia.
Qed.

Lemma up_swap l n k p x y :
  up_ok l n k -> k < n -> child p k -> 0 <= p ->
  zget l p = Some x -> zget l k = Some y -> le y x ->
  up_ok (zset (zset l p y) k x) n p.
Proof.
  intros [H1 H2] Hkn Hp Hp0 Hx Hy Hle.
  pose proof (zget_bounds _ _ _ Hx) as Bp. pose proof (zget_bounds _ _ _ Hy) as Bk.
  assert (Hpk : p <> k) by (unfold child in Hp; lia).
  assert (G : forall q, zget (zset (zset l p y) k x) q =
              if Z.eqb k q then Some x else if Z.eqb p q then Some y else zget l q).
  { intros q. rewrite zget_zset by (rewrite zlen_zset; lia).
    by rewrite zget_zset by lia. }
  split.
  - intros i j a b Hc Hi Hj Hne Ha Hb. rewrite G in Ha, Hb.
    destruct (Z.eqb_spec k i) as [->|Hki].
    + (* below the old position: the old parent is above its grandchildren *)
      injection Ha as <-.
      destruct (Z.eqb_spec i j) as [->|_]; [unfold child in *; lia|].
      destruct (Z.eqb_spec p j) as [->|_]; [unfold child in *; lia|].
      by apply (H2 p j x b).
    + destruct (Z.eqb_spec k j) as [->|Hkj].
      * assert (i = p) as -> by (unfold child in *; lia).
        rewrite Z.eqb_refl in Ha. congruence.
      * destruct (Z.eqb_spec p j) as [->|Hpj]; [done|].
        destruct (Z.eqb_spec p i) as [->|Hpi].
        -- injection Ha as <-. transitivity x; [done|]. by apply (H1 i j x b).
        -- by apply (H1 i j a b).
  - intros q j a b Hq Hq0 Hj Hjn Ha Hb. rewrite G in Ha, Hb.
    destruct (Z.eqb_spec k q) as [->|_]; [unfold child in *; lia|].
    destruct (Z.eqb_spec p q) as [->|_]; [unfold child in *; lia|].
    assert (Hqx : le a x).
    { apply (H1 q p a x); auto; unfold child in *; lia. }
    destruct (Z.eqb_spec k j) as [->|Hkj]; [congruence|].
    destruct (Z.eqb_spec p j) as [->|_]; [unfold child in *; lia|].
    transitivity x; [done|]. by apply (H1 p j x b).
Qed.

Lemma heap_ok_down_ok l lo n : heap_ok l (lo + 1) n -> down_ok l lo n lo.
Proof.
  intros H. split.
  - intros i j x y Hc Hlo Hi Hj Hne Hx Hy. apply (H i j x y); auto; lia.
  - intros p j x y Hp Hlo Hp0 Hj Hjn. unfold child in *; lia.
Qed.

Lemma heap_ok_below l n : heap_ok l 0 n -> heap_ok l 1 n.
Proof. intros H i j x y Hc Hlo. apply H; [done|lia]. Qed.

(** Overwriting the root leaves only the edges out of it in doubt; it does not
    matter whether they were ordered before. *)
Lemma heap_ok_replace l n x : heap_ok l 1 n -> down_ok (zset l 0 x) 0 n 0.
Proof.
  intros H. split.
  - intros i j a b Hc _ Hi Hj Hne Ha Hb.
    rewrite zget_zset_ne in Ha by lia.
    rewrite zget_zset_ne in Hb by (unfold child in Hc; lia).
    apply (H i j a b); try done; lia.
  - intros p j a b Hp _ Hp0. unfold child in *; lia.
Qed.

Lemma down_done l lo n k x :
  down_ok l lo n k -> zget l k = Some x ->
  (forall j y, child k j -> j < n -> zget l j = Some y -> le x y) ->
  heap_ok l lo n.
Proof.
  intros [H1 _] Hx Hc i j a b Hch Hlo Hi Hj Ha Hb.
  destruct (Z.eq_dec i k) as [->|Hne]; [|by apply (H1 i j a b)].
  replace a with x by congruence. by apply (Hc j b).
Qed.

Lemma down_swap l lo n k c x y :
  down_ok l lo n k -> 0 <= k -> child k c -> c < n ->
  zget l k = Some x -> zget l c = Some y -> le y x ->
  (forall j z, child k j -> j < n -> zget l j = Some z -> le y z) ->
  down_ok (zset (zset l k y) c x) lo n c.
Proof.
  intros [H1 H2] Hk Hc Hcn Hx Hy Hle Hmin.
  pose proof (zget_bounds _ _ _ Hx) as Bk. pose proof (zget_bounds _ _ _ Hy) as Bc.
  assert (Hkc : k <> c) by (unfold child in Hc; lia).
  assert (G : forall q, zget (zset (zset l k y) c x) q =
              if Z.eqb c q then Some x else if Z.eqb k q then Some y else zget l q).
  { intros q. rewrite zget_zset by (rewrite zlen_zset; lia).
    by rewrite zget_zset by lia. }
  split.
  - intros i j a b Hij Hlo Hi Hj Hne Ha Hb. rewrite G in Ha, Hb.
    destruct (Z.eqb_spec c i) as [->|_]; [done|].
    destruct (Z.eqb_spec c j) as [->|Hcj].
    + assert (i = k) as -> by (unfold child in *; lia).
      rewrite Z.eqb_refl in Ha. congruence.
    + destruct (Z.eqb_spec k i) as [->|Hki].
      * destruct (Z.eqb_spec i j) as [->|_]; [unfold child in *; lia|].
        injection Ha as <-. by apply (Hmin j b).
      * destruct (Z.eqb_spec k j) as [->|Hkj].
        -- injection Hb as <-. by apply (H2 i c a y).
        -- by apply (H1 i j a b).
  - intros p j a b Hp Hlo Hp0 Hj Hjn Ha Hb. rewrite G in Ha, Hb.
    assert (p = k) as -> by (unfold child in *; lia).
    destruct (Z.eqb_spec c k) as [->|_]; [lia|]. rewrite Z.eqb_refl in Ha.
    injection Ha as <-.
    destruct (Z.eqb_spec c j) as [->|_]; [unfold child in *; lia|].
    destruct (Z.eqb_spec k j) as [->|_]; [unfold child in *; lia|].
    destruct (Z.le_gt_cases lo c) as [Hloc|Hloc].
    + apply (H1 c j y b); auto; lia.
    + exfalso. unfold child in *. lia.
Qed.

Lemma heap_ok_mono l lo lo' n n' :
  lo <= lo' -> n' <= n -> heap_ok l lo n -> heap_ok l lo' n'.
Proof. intros Hlo Hn H i j x y Hc Hi Hi0 Hj Hx Hy. apply (H i j x y); auto; lia. Qed.

Lemma heap_ok_leaves l lo n : n <= 2 * lo + 1 -> heap_ok l lo n.
Proof. intros Hn i j x y Hc Hi Hi0 Hj. unfold child in *. lia. Qed.

(** The heap property only looks at the first [n] slots. *)
Lemma heap_ok_ext l l' lo n :
  (forall i, 0 <= i < n -> zget l' i = zget l i) -> heap_ok l lo n -> heap_ok l' lo n.
Proof.
  intros He H i j x y Hc Hlo Hi Hj Hx Hy.
  rewrite He in Hx, Hy by (unfold child in Hc; lia). by apply (H i j x y).
Qed.

(** The root of a heap is a smallest element. *)
Lemma heap_root l n j x y :
  heap_ok l 0 n -> 0 <= j < n -> zget l 0 = Some x -> zget l j = Some y -> le x y.
Proof.
  intros H [Hj0 Hjn] Hx Hy. revert j Hj0 Hjn y Hy.
  refine (Zlt_0_ind _ _). intros j IH Hj0 Hjn y Hy.
  destruct (Z.eq_dec j 0) as [->|Hne]; [replace y with x by congruence; reflexivity|].
  pose proof (zget_bounds _ _ _ Hy) as By.
  assert (Hp : exists p, child p j /\ 0 <= p < j).
  { exists ((j - 1) / 2). pose proof (Z.div_mod (j - 1) 2).
    pose proof (Z.mod_pos_bound (j - 1) 2). unfold child. lia. }
  destruct Hp as (p & Hp & Hpj).
  destruct (zget_is_Some l p) as [z Hz]; [lia|].
  transitivity z.
  - apply (IH p); auto; lia.
  - apply (H p j z y); auto; lia.
Qed.

Lemma heap_root_elem l n x y :
  heap_ok l 0 n -> 0 <= n <= zlen l -> zget l 0 = Some x -> y ∈ ztake n l -> le x y.
Proof.
  intros H Hn Hx Hy. apply elem_zget in Hy as (j & Hj & Hjl).
  rewrite zlen_ztake in Hjl by done. rewrite zget_ztake in Hj by lia.
  by apply (heap_root l n j).
Qed.
End heap.

#[export] Hint Resolve heap_ok_up_ok heap_ok_down_ok heap_ok_replace : heapdb.
