(* ===== verification/Bitmapset.v ===== *)
(** * nodes/bitmapset.c: sets of small nonnegative integers

    A set is an array of 64-bit words; NULL is the empty set, and so is an
    array of zeros.  The operations that recycle their first argument are
    functions of the value: the caller goes on with the result.  Members are
    kept below [bms_limit], so that no [int] overflows. *)

From Stdlib Require Import ZArith Lia.
From stdpp Require Import base list strings gmap.
From S2P Require Import Prelude.

Local Open Scope Z_scope.
Set Warnings "-clear-no-such-hyp".

Definition Bitmapset : Type := option (list Z).

Inductive BMS_Comparison := BMS_EQUAL | BMS_SUBSET1 | BMS_SUBSET2 | BMS_DIFFERENT.
Inductive BMS_Membership := BMS_EMPTY_SET | BMS_SINGLETON | BMS_MULTIPLE.

#[global] Instance BMS_Comparison_eq_dec : EqDecision BMS_Comparison.
Proof. solve_decision. Defined.
#[global] Instance BMS_Membership_eq_dec : EqDecision BMS_Membership.
Proof. solve_decision. Defined.

Definition BITS_PER_BITMAPWORD : Z := 64.
Definition bitmapword (z : Z) : Z := z mod 18446744073709551616.
Definition word_not (w : Z) : Z := bitmapword (Z.lnot w).
Definition all_ones : Z := word_not 0.

(** C division; negative numbers round towards zero. *)
Definition WORDNUM (x : Z) : Z := Z.quot x BITS_PER_BITMAPWORD.
Definition BITNUM (x : Z) : Z := Z.rem x BITS_PER_BITMAPWORD.

(** ** port/pg_bitutils.h, for words that are not 0 *)

Definition RIGHTMOST_ONE (w : Z) : Z := Z.land w (bitmapword (- w)).
Definition HAS_MULTIPLE_ONES (w : Z) : bool := negb (RIGHTMOST_ONE w =? w).
Definition bmw_leftmost_one_pos (w : Z) : Z := Z.log2 w.
Definition bmw_rightmost_one_pos (w : Z) : Z := Z.log2 (RIGHTMOST_ONE w).
Definition bmw_popcount (w : Z) : Z := zlen (filter (fun i => Z.testbit w i = true) (seqZ 0 64)).

(** ** Building and combining sets *)

Definition no_negative {A} : res A := Error "negative bitmapset member not allowed".

Definition bms_copy (a : Bitmapset) : Bitmapset := a.

Definition bms_make_singleton (x : Z) : res Bitmapset :=
  if x <? 0 then no_negative
  else
    let wordnum := WORDNUM x in
    let bitnum := BITNUM x in
    do! ws <- aset (replicate (Z.to_nat (wordnum + 1)) 0) wordnum (bitmapword (Z.shiftl 1 bitnum)) ;;
    Ok (Some ws).

(** [for (i = 0; i < otherlen; i++) result[i] = f(result[i], other[i])]. *)
Fixpoint merge_words (f : Z -> Z -> Z) (result other : list Z) : list Z :=
  match result, other with
  | r :: result, o :: other => f r o :: merge_words f result other
  | _, _ => result
  end.

Definition bms_union (a b : Bitmapset) : Bitmapset :=
  match a, b with
  | None, _ => bms_copy b
  | _, None => bms_copy a
  | Some aw, Some bw =>
    if zlen aw <=? zlen bw then Some (merge_words Z.lor bw aw) else Some (merge_words Z.lor aw bw)
  end.

Definition bms_intersect (a b : Bitmapset) : Bitmapset :=
  match a, b with
  | Some aw, Some bw =>
    if zlen aw <=? zlen bw then Some (merge_words Z.land aw bw) else Some (merge_words Z.land bw aw)
  | _, _ => None
  end.

Definition bms_difference (a b : Bitmapset) : Bitmapset :=
  match a, b with
  | None, _ => None
  | _, None => bms_copy a
  | Some aw, Some bw => Some (merge_words (fun r o => Z.land r (word_not o)) aw bw)
  end.

(** [repalloc] to [n] words, the new ones zeroed. *)
Definition enlarge (ws : list Z) (n : Z) : list Z := ws ++ replicate (Z.to_nat (n - zlen ws)) 0.

Definition bms_add_member (a : Bitmapset) (x : Z) : res Bitmapset :=
  if x <? 0 then no_negative
  else
    match a with
    | None => bms_make_singleton x
    | Some ws =>
      let wordnum := WORDNUM x in
      let bitnum := BITNUM x in
      let ws := if wordnum >=? zlen ws then enlarge ws (wordnum + 1) else ws in
      do! w <- aget ws wordnum ;;
      do! ws <- aset ws wordnum (Z.lor w (bitmapword (Z.shiftl 1 bitnum))) ;;
      Ok (Some ws)
    end.

Definition bms_del_member (a : Bitmapset) (x : Z) : res Bitmapset :=
  if x <? 0 then no_negative
  else
    match a with
    | None => Ok None
    | Some ws =>
      let wordnum := WORDNUM x in
      let bitnum := BITNUM x in
      if wordnum <? zlen ws then
        do! w <- aget ws wordnum ;;
        do! ws <- aset ws wordnum (Z.land w (word_not (bitmapword (Z.shiftl 1 bitnum)))) ;;
        Ok (Some ws)
      else Ok (Some ws)
    end.

Definition bms_add_members (a b : Bitmapset) : Bitmapset :=
  match a, b with
  | None, _ => bms_copy b
  | _, None => a
  | Some aw, Some bw =>
    if zlen aw <? zlen bw then Some (merge_words Z.lor bw aw) else Some (merge_words Z.lor aw bw)
  end.

(** Set words [wordnum .. uwordnum - 1] to all ones. *)
Fixpoint fill_words (n : nat) (ws : list Z) (wordnum uwordnum : Z) : res (list Z) :=
  if wordnum <? uwordnum then
    match n with
    | O => NoFuel
    | S n => do! ws <- aset ws wordnum all_ones ;; fill_words n ws (wordnum + 1) uwordnum
    end
  else Ok ws.

Definition or_word (ws : list Z) (wordnum mask : Z) : res (list Z) :=
  do! w <- aget ws wordnum ;; aset ws wordnum (Z.lor w mask).

Definition bms_add_range (a : Bitmapset) (lower upper : Z) : res Bitmapset :=
  if upper <? lower then Ok a
  else if lower <? 0 then no_negative
  else
    let uwordnum := WORDNUM upper in
    let ws :=
      match a with
      | None => replicate (Z.to_nat (uwordnum + 1)) 0
      | Some ws => if uwordnum >=? zlen ws then enlarge ws (uwordnum + 1) else ws
      end in
    let lwordnum := WORDNUM lower in
    let lbitnum := BITNUM lower in
    let ushiftbits := BITS_PER_BITMAPWORD - (BITNUM upper + 1) in
    let lmask := word_not (bitmapword (bitmapword (Z.shiftl 1 lbitnum) - 1)) in
    let umask := Z.shiftr all_ones ushiftbits in
    do! ws <-
      (if lwordnum =? uwordnum then or_word ws lwordnum (Z.land lmask umask)
       else
         do! ws <- or_word ws lwordnum lmask ;;
         do! ws <- fill_words (Z.to_nat (uwordnum - lwordnum)) ws (lwordnum + 1) uwordnum ;;
         or_word ws uwordnum umask) ;;
    Ok (Some ws).

Definition bms_int_members (a b : Bitmapset) : Bitmapset :=
  match a, b with
  | Some aw, Some bw =>
    Some (merge_words Z.land (ztake (zlen bw) aw) bw ++ replicate (Z.to_nat (zlen aw - zlen bw)) 0)
  | _, _ => None
  end.

Definition bms_del_members (a b : Bitmapset) : Bitmapset :=
  match a, b with
  | None, _ => None
  | _, None => a
  | Some aw, Some bw => Some (merge_words (fun r o => Z.land r (word_not o)) aw bw)
  end.

Definition bms_join (a b : Bitmapset) : Bitmapset :=
  match a, b with
  | None, _ => b
  | _, None => a
  | Some aw, Some bw =>
    if zlen aw <? zlen bw then Some (merge_words Z.lor bw aw) else Some (merge_words Z.lor aw bw)
  end.

(** ** Questions *)

Definition zero_words (ws : list Z) : bool := forallb (fun w => w =? 0) ws.

Definition bms_is_empty (a : Bitmapset) : bool :=
  match a with None => true | Some ws => zero_words ws end.

(** The common words, then the rest of the longer set. *)
Fixpoint equal_words (shorter longer : list Z) : bool :=
  match shorter, longer with
  | s :: shorter, l :: longer => if negb (s =? l) then false else equal_words shorter longer
  | _, _ => zero_words longer
  end.

Definition bms_equal (a b : Bitmapset) : bool :=
  match a, b with
  | None, None => true
  | None, Some _ => bms_is_empty b
  | Some _, None => bms_is_empty a
  | Some aw, Some bw => if zlen aw <=? zlen bw then equal_words aw bw else equal_words bw aw
  end.

(** From the highest word down. *)
Fixpoint compare_down (l : list (Z * Z)) : Z :=
  match l with
  | [] => 0
  | (aw, bw) :: l => if negb (aw =? bw) then (if aw >? bw then 1 else -1) else compare_down l
  end.

Definition bms_compare (a b : Bitmapset) : Z :=
  match a, b with
  | None, _ => if bms_is_empty b then 0 else -1
  | Some _, None => if bms_is_empty a then 0 else 1
  | Some aw, Some bw =>
    let shortlen := Z.min (zlen aw) (zlen bw) in
    if negb (zero_words (zdrop shortlen aw)) then 1
    else if negb (zero_words (zdrop shortlen bw)) then -1
    else compare_down (reverse (zip aw bw))
  end.

Fixpoint subset_words (a b : list Z) : bool :=
  match a, b with
  | aw :: a, bw :: b => if negb (Z.land aw (word_not bw) =? 0) then false else subset_words a b
  | _, _ => zero_words a
  end.

Definition bms_is_subset (a b : Bitmapset) : bool :=
  match a, b with
  | None, _ => true
  | Some _, None => bms_is_empty a
  | Some aw, Some bw => subset_words aw bw
  end.

(** A word of [a] is not contained in [b], or the other way round; [None] is an
    early return of [BMS_DIFFERENT]. *)
Definition note_more1 (result : BMS_Comparison) : option BMS_Comparison :=
  if decide (result = BMS_SUBSET1) then None else Some BMS_SUBSET2.
Definition note_more2 (result : BMS_Comparison) : option BMS_Comparison :=
  if decide (result = BMS_SUBSET2) then None else Some BMS_SUBSET1.

(** The extra words of the longer set. *)
Fixpoint compare_extra (note : BMS_Comparison -> option BMS_Comparison) (ws : list Z)
    (result : BMS_Comparison) : BMS_Comparison :=
  match ws with
  | [] => result
  | w :: ws =>
    match (if negb (w =? 0) then note result else Some result) with
    | None => BMS_DIFFERENT
    | Some result => compare_extra note ws result
    end
  end.

Fixpoint compare_words (a b : list Z) (result : BMS_Comparison) : BMS_Comparison :=
  match a, b with
  | [], _ => compare_extra note_more2 b result
  | _, [] => compare_extra note_more1 a result
  | aw :: a, bw :: b =>
    match (if negb (Z.land aw (word_not bw) =? 0) then note_more1 result else Some result) with
    | None => BMS_DIFFERENT
    | Some result =>
      match (if negb (Z.land bw (word_not aw) =? 0) then note_more2 result else Some result) with
      | None => BMS_DIFFERENT
      | Some result => compare_words a b result
      end
    end
  end.

Definition bms_subset_compare (a b : Bitmapset) : BMS_Comparison :=
  match a, b with
  | None, None => BMS_EQUAL
  | None, Some _ => if bms_is_empty b then BMS_EQUAL else BMS_SUBSET1
  | Some _, None => if bms_is_empty a then BMS_EQUAL else BMS_SUBSET2
  | Some aw, Some bw => compare_words aw bw BMS_EQUAL
  end.

Definition bms_is_member (x : Z) (a : Bitmapset) : res bool :=
  if x <? 0 then no_negative
  else
    match a with
    | None => Ok false
    | Some ws =>
      let wordnum := WORDNUM x in
      let bitnum := BITNUM x in
      if wordnum >=? zlen ws then Ok false
      else
        do! w <- aget ws wordnum ;;
        Ok (negb (Z.land w (bitmapword (Z.shiftl 1 bitnum)) =? 0))
    end.

Fixpoint popcount_words (ws : list Z) (result : Z) : Z :=
  match ws with
  | [] => result
  | w :: ws => popcount_words ws (if negb (w =? 0) then int32 (result + bmw_popcount w) else result)
  end.

Definition bms_member_index (a : Bitmapset) (x : Z) : res Z :=
  do! m <- bms_is_member x a ;;
  if negb m then Ok (-1)
  else
    match a with
    | None => Crash
    | Some ws =>
      let wordnum := WORDNUM x in
      let bitnum := BITNUM x in
      let result := popcount_words (ztake wordnum ws) 0 in
      let mask := bitmapword (bitmapword (Z.shiftl 1 bitnum) - 1) in
      do! w <- aget ws wordnum ;;
      Ok (int32 (result + bmw_popcount (Z.land w mask)))
    end.

Fixpoint overlap_words (a b : list Z) : bool :=
  match a, b with
  | aw :: a, bw :: b => if negb (Z.land aw bw =? 0) then true else overlap_words a b
  | _, _ => false
  end.

Definition bms_overlap (a b : Bitmapset) : bool :=
  match a, b with Some aw, Some bw => overlap_words aw bw | _, _ => false end.

Fixpoint overlap_list (ws : list Z) (b : list Z) : res bool :=
  match b with
  | [] => Ok false
  | x :: b =>
    if x <? 0 then no_negative
    else
      let wordnum := WORDNUM x in
      let bitnum := BITNUM x in
      if wordnum <? zlen ws then
        do! w <- aget ws wordnum ;;
        if negb (Z.land w (bitmapword (Z.shiftl 1 bitnum)) =? 0) then Ok true else overlap_list ws b
      else overlap_list ws b
  end.

Definition bms_overlap_list (a : Bitmapset) (b : list Z) : res bool :=
  match a, b with
  | None, _ | _, [] => Ok false
  | Some ws, _ => overlap_list ws b
  end.

Definition bms_nonempty_difference (a b : Bitmapset) : bool :=
  match a, b with
  | None, _ => false
  | Some _, None => negb (bms_is_empty a)
  | Some aw, Some bw => negb (subset_words aw bw)
  end.

(** The loop of the two functions: the sole member so far, -1 for none; [None]
    when there are several. *)
Fixpoint sole_member (ws : list Z) (wordnum result : Z) : option Z :=
  match ws with
  | [] => Some result
  | w :: ws =>
    if negb (w =? 0) then
      if (result >=? 0) || HAS_MULTIPLE_ONES w then None
      else sole_member ws (wordnum + 1)
             (int32 (int32 (wordnum * BITS_PER_BITMAPWORD) + bmw_rightmost_one_pos w))
    else sole_member ws (wordnum + 1) result
  end.

Definition bms_singleton_member (a : Bitmapset) : res Z :=
  match a with
  | None => Error "bitmapset is empty"
  | Some ws =>
    match sole_member ws 0 (-1) with
    | None => Error "bitmapset has multiple members"
    | Some result => if result <? 0 then Error "bitmapset is empty" else Ok result
    end
  end.

(** The member, if the function returns true. *)
Definition bms_get_singleton_member (a : Bitmapset) : option Z :=
  match a with
  | None => None
  | Some ws =>
    match sole_member ws 0 (-1) with
    | None => None
    | Some result => if result <? 0 then None else Some result
    end
  end.

Definition bms_num_members (a : Bitmapset) : Z :=
  match a with None => 0 | Some ws => popcount_words ws 0 end.

Fixpoint membership_words (ws : list Z) (result : BMS_Membership) : BMS_Membership :=
  match ws with
  | [] => result
  | w :: ws =>
    if negb (w =? 0) then
      if negb (bool_decide (result = BMS_EMPTY_SET)) || HAS_MULTIPLE_ONES w then BMS_MULTIPLE
      else membership_words ws BMS_SINGLETON
    else membership_words ws result
  end.

Definition bms_membership (a : Bitmapset) : BMS_Membership :=
  match a with None => BMS_EMPTY_SET | Some ws => membership_words ws BMS_EMPTY_SET end.

(** ** Iteration *)

(** [bms_first_member]: the member found and the words without it. *)
Fixpoint first_words (ws : list Z) (wordnum : Z) : Z * list Z :=
  match ws with
  | [] => (-1, [])
  | w :: ws =>
    if negb (w =? 0) then
      let w1 := RIGHTMOST_ONE w in
      (int32 (int32 (wordnum * BITS_PER_BITMAPWORD) + bmw_rightmost_one_pos w1), Z.land w (word_not w1) :: ws)
    else let '(x, ws) := first_words ws (wordnum + 1) in (x, w :: ws)
  end.

Definition bms_first_member (a : Bitmapset) : Z * Bitmapset :=
  match a with
  | None => (-1, None)
  | Some ws => let '(x, ws) := first_words ws 0 in (x, Some ws)
  end.

Fixpoint next_words (ws : list Z) (wordnum mask : Z) : Z :=
  match ws with
  | [] => -2
  | w :: ws =>
    let w := Z.land w mask in
    if negb (w =? 0) then int32 (int32 (wordnum * BITS_PER_BITMAPWORD) + bmw_rightmost_one_pos w)
    else next_words ws (wordnum + 1) all_ones
  end.

(** Below -1 the shift and the array access are undefined. *)
Definition bms_next_member (a : Bitmapset) (prevbit : Z) : res Z :=
  match a with
  | None => Ok (-2)
  | Some ws =>
    let prevbit := int32 (prevbit + 1) in
    if prevbit <? 0 then Crash
    else
      let mask := bitmapword (Z.shiftl all_ones (BITNUM prevbit)) in
      let wordnum := WORDNUM prevbit in
      Ok (next_words (zdrop wordnum ws) wordnum mask)
  end.

(** [n] words are left, numbers [n - 1] to 0. *)
Fixpoint prev_words (n : nat) (ws : list Z) (mask : Z) : res Z :=
  match n with
  | O => Ok (-2)
  | S n =>
    do! w <- aget ws (Z.of_nat n) ;;
    let w := Z.land w mask in
    if negb (w =? 0) then Ok (int32 (int32 (Z.of_nat n * BITS_PER_BITMAPWORD) + bmw_leftmost_one_pos w))
    else prev_words n ws all_ones
  end.

Definition bms_prev_member (a : Bitmapset) (prevbit : Z) : res Z :=
  match a with
  | None => Ok (-2)
  | Some ws =>
    if prevbit =? 0 then Ok (-2)
    else
      let prevbit :=
        if prevbit =? -1 then int32 (int32 (zlen ws * BITS_PER_BITMAPWORD) - 1) else int32 (prevbit - 1) in
      if BITNUM prevbit <? 0 then Crash
      else
        let ushiftbits := BITS_PER_BITMAPWORD - (BITNUM prevbit + 1) in
        let mask := Z.shiftr all_ones ushiftbits in
        prev_words (Z.to_nat (WORDNUM prevbit + 1)) ws mask
  end.

(** ** Hashing *)

Section hash.
(** [hash_any] (common/hashfn.c) on an array of words. *)
Variable hash_any : list Z -> Z.

(** Without the zero words at the end. *)
Fixpoint strip_zeros (ws : list Z) : list Z :=
  match ws with
  | [] => []
  | w :: ws =>
    match strip_zeros ws with
    | [] => if w =? 0 then [] else [w]
    | ws' => w :: ws'
    end
  end.

Definition bms_hash_value (a : Bitmapset) : Z :=
  match a with
  | None => 0
  | Some ws => match strip_zeros ws with [] => 0 | ws => hash_any ws end
  end.

Definition bitmap_hash (key : Bitmapset) : Z := bms_hash_value key.
Definition bitmap_match (key1 key2 : Bitmapset) : Z := if negb (bms_equal key1 key2) then 1 else 0.
End hash.

(** The pattern [x = -1; while ((x = bms_next_member(a, x)) >= 0) process x]. *)
Fixpoint bms_loop (n : nat) (a : Bitmapset) (x : Z) : res (list Z) :=
  match n with
  | O => NoFuel
  | S n =>
    do! x <- bms_next_member a x ;;
    if x >=? 0 then do! xs <- bms_loop n a x ;; Ok (x :: xs) else Ok []
  end.

(** The pattern [x = -1; while ((x = bms_prev_member(a, x)) >= 0) process x]. *)
Fixpoint bms_prev_loop (n : nat) (a : Bitmapset) (x : Z) : res (list Z) :=
  match n with
  | O => NoFuel
  | S n =>
    do! x <- bms_prev_member a x ;;
    if x >=? 0 then do! xs <- bms_prev_loop n a x ;; Ok (x :: xs) else Ok []
  end.

(** The pattern [while ((x = bms_first_member(a)) >= 0) process x]: the members
    processed and what is left of the set. *)
Fixpoint bms_first_loop (n : nat) (a : Bitmapset) : res (list Z * Bitmapset) :=
  match n with
  | O => NoFuel
  | S n =>
    let '(x, a) := bms_first_member a in
    if x >=? 0 then do! r <- bms_first_loop n a ;; Ok (x :: r.1, r.2) else Ok ([], a)
  end.

(** ** Words *)

Definition wordp (w : Z) : Prop := 0 <= w < 18446744073709551616.

Lemma bitmapword_bits z i : 0 <= i -> Z.testbit (bitmapword z) i = (i <? 64) && Z.testbit z i.
Proof.
  intros Hi. unfold bitmapword. change 18446744073709551616 with (2 ^ 64). destruct (Z.ltb_spec i 64).
  - by rewrite Z.mod_pow2_bits_low.
  - by rewrite Z.mod_pow2_bits_high by lia.
Qed.

Lemma bitmapword_ok z : wordp (bitmapword z).
Proof. unfold wordp, bitmapword. apply Z.mod_pos_bound. lia. Qed.

Lemma wordp_high w i : wordp w -> 64 <= i -> Z.testbit w i = false.
Proof.
  intros Hw Hi. replace w with (bitmapword w) by (unfold bitmapword; by apply Z.mod_small).
  rewrite bitmapword_bits by lia. by destruct (Z.ltb_spec i 64); [lia|].
Qed.

(** Words are their bits. *)
Lemma word_ext w w' : wordp w -> wordp w' -> (forall i, 0 <= i < 64 -> Z.testbit w i = Z.testbit w' i) -> w = w'.
Proof.
  intros Hw Hw' Hb. apply Z.bits_inj'. intros i Hi. destruct (Z.lt_ge_cases i 64); [apply Hb; lia|].
  by rewrite !wordp_high by done.
Qed.

Lemma word_zero w : wordp w -> (w = 0 <-> forall i, 0 <= i < 64 -> Z.testbit w i = false).
Proof.
  intros Hw. split; [intros -> i _; apply Z.testbit_0_l|]. intros Hb. apply word_ext; [done|unfold wordp; lia|].
  intros i Hi. by rewrite Hb, Z.testbit_0_l.
Qed.

Lemma wordp_bits w : (forall i, 64 <= i -> Z.testbit w i = false) -> 0 <= w -> wordp w.
Proof.
  intros Hb Hw. unfold wordp. split; [done|]. destruct (Z.eq_dec w 0) as [->|Hne]; [lia|].
  change 18446744073709551616 with (2 ^ 64). apply Z.log2_lt_pow2; [lia|]. destruct (Z.lt_ge_cases (Z.log2 w) 64) as [|Hge]; [done|].
  specialize (Hb _ Hge). rewrite Z.bit_log2 in Hb by lia. done.
Qed.

Lemma wordp_0 : wordp 0.
Proof. unfold wordp. lia. Qed.

Lemma wordp_lor a b : wordp a -> wordp b -> wordp (Z.lor a b).
Proof.
  intros Ha Hb. apply wordp_bits; [|apply Z.lor_nonneg; split; [apply Ha|apply Hb]].
  intros i Hi. by rewrite Z.lor_spec, !wordp_high.
Qed.

Lemma wordp_land a b : wordp a -> wordp (Z.land a b).
Proof.
  intros Ha. apply wordp_bits; [|apply Z.land_nonneg; left; apply Ha].
  intros i Hi. by rewrite Z.land_spec, wordp_high.
Qed.

Lemma wordp_not w : wordp (word_not w).
Proof. apply bitmapword_ok. Qed.

Lemma all_ones_word : wordp all_ones.
Proof. apply wordp_not. Qed.

Lemma wordp_shiftr w n : 0 <= n -> wordp w -> wordp (Z.shiftr w n).
Proof.
  intros Hn Hw. apply wordp_bits; [|apply Z.shiftr_nonneg, Hw].
  intros i Hi. rewrite Z.shiftr_spec by lia. apply wordp_high; [done|lia].
Qed.

Create HintDb bmsdb.
#[export] Hint Resolve bitmapword_ok wordp_0 wordp_lor wordp_land wordp_not all_ones_word : bmsdb.

Lemma not_bits w i : 0 <= i < 64 -> Z.testbit (word_not w) i = negb (Z.testbit w i).
Proof.
  intros Hi. unfold word_not. rewrite bitmapword_bits, Z.lnot_spec by lia. by destruct (Z.ltb_spec i 64); [|lia].
Qed.

Lemma ones_bits i : 0 <= i < 64 -> Z.testbit all_ones i = true.
Proof. intros Hi. unfold all_ones. by rewrite not_bits, Z.testbit_0_l. Qed.

Lemma shift1_bits b i : 0 <= b < 64 -> 0 <= i < 64 -> Z.testbit (bitmapword (Z.shiftl 1 b)) i = (i =? b).
Proof.
  intros Hb Hi. rewrite bitmapword_bits by lia. destruct (Z.ltb_spec i 64); [|lia]. cbn [andb].
  rewrite Z.shiftl_1_l. destruct (Z.eqb_spec i b) as [->|Hne]; [by rewrite Z.pow2_bits_true by lia|by rewrite Z.pow2_bits_false by lia].
Qed.

(** [(1 << b) - 1] has the bits below [b]. *)
Lemma below_bits b i : 0 <= b < 64 -> 0 <= i < 64 -> Z.testbit (bitmapword (bitmapword (Z.shiftl 1 b) - 1)) i = (i <? b).
Proof.
  intros Hb Hi. assert (Heq : bitmapword (Z.shiftl 1 b) = 2 ^ b).
  { unfold bitmapword. rewrite Z.shiftl_1_l. apply Z.mod_small. split; [apply Z.pow_nonneg; lia|].
    change 18446744073709551616 with (2 ^ 64). apply Z.pow_lt_mono_r; lia. }
  rewrite bitmapword_bits, Heq by lia. destruct (Z.ltb_spec i 64); [|lia]. cbn [andb].
  replace (2 ^ b - 1) with (Z.ones b) by (rewrite Z.ones_equiv; lia). by apply Z.testbit_ones_nonneg; lia.
Qed.

Lemma from_bits b i : 0 <= b < 64 -> 0 <= i < 64 -> Z.testbit (bitmapword (Z.shiftl all_ones b)) i = (b <=? i).
Proof.
  intros Hb Hi. rewrite bitmapword_bits, Z.shiftl_spec by lia. destruct (Z.ltb_spec i 64); [|lia]. cbn [andb].
  destruct (Z.leb_spec b i); [apply ones_bits; lia|apply Z.testbit_neg_r; lia].
Qed.

Lemma upto_bits b i : 0 <= b < 64 -> 0 <= i < 64 -> Z.testbit (Z.shiftr all_ones (BITS_PER_BITMAPWORD - (b + 1))) i = (i <=? b).
Proof.
  intros Hb Hi. unfold BITS_PER_BITMAPWORD. rewrite Z.shiftr_spec by lia. destruct (Z.leb_spec i b); [apply ones_bits; lia|].
  apply wordp_high; [apply all_ones_word|lia].
Qed.

(** A test of one bit. *)
Lemma test_bit w b : wordp w -> 0 <= b < 64 -> negb (Z.land w (bitmapword (Z.shiftl 1 b)) =? 0) = Z.testbit w b.
Proof.
  intros Hw Hb. destruct (Z.eqb_spec (Z.land w (bitmapword (Z.shiftl 1 b))) 0) as [H0|H0]; cbn [negb].
  - apply (f_equal (fun z => Z.testbit z b)) in H0. rewrite Z.land_spec, shift1_bits, Z.eqb_refl, Z.testbit_0_l, andb_true_r in H0 by lia. done.
  - destruct (Z.testbit w b) eqn:Hwb; [done|]. destruct H0. apply word_zero; [by apply wordp_land|].
    intros i Hi. rewrite Z.land_spec, shift1_bits by lia. destruct (Z.eqb_spec i b) as [->|]; [by rewrite Hwb|by rewrite andb_false_r].
Qed.

(** ** The set of an array *)

Definition word (ws : list Z) (i : Z) : Z := default 0 (zget ws i).

Definition nwords (a : Bitmapset) : Z := match a with None => 0 | Some ws => zlen ws end.

Definition words_ok (ws : list Z) : Prop := Forall wordp ws.

(** Members are below this number. *)
Definition bms_limit : Z := 2147483584.

Definition bms_ok (a : Bitmapset) : Prop :=
  match a with None => True | Some ws => words_ok ws /\ 0 < 64 * zlen ws <= bms_limit end.

Definition has_words (ws : list Z) (x : Z) : bool := (0 <=? x) && Z.testbit (word ws (x / 64)) (x mod 64).

Definition has (a : Bitmapset) (x : Z) : bool := match a with None => false | Some ws => has_words ws x end.

Definition to_set (a : Bitmapset) : gset Z :=
  list_to_set (filter (fun x => has a x = true) (seqZ 0 (64 * nwords a))).

Lemma word_out ws i : i < 0 \/ zlen ws <= i -> word ws i = 0.
Proof. intros Hi. unfold word. by rewrite zget_None by lia. Qed.

Lemma word_ok ws i : words_ok ws -> wordp (word ws i).
Proof.
  intros Hw. unfold word. destruct (zget ws i) as [w|] eqn:Hg; [|apply wordp_0].
  apply zget_elem in Hg. by apply (proj1 (Forall_forall _ _) Hw).
Qed.

Lemma has_bound ws x : has_words ws x = true -> 0 <= x < 64 * zlen ws.
Proof.
  unfold has_words. intros [Hx Hb]%andb_true_iff. apply Z.leb_le in Hx. split; [done|].
  destruct (Z.lt_ge_cases (x / 64) (zlen ws)) as [Hlt|Hge].
  - pose proof (Z.div_mod x 64 ltac:(lia)). pose proof (Z.mod_pos_bound x 64 ltac:(lia)). lia.
  - by rewrite word_out, Z.testbit_0_l in Hb by lia.
Qed.

Lemma elem_to_set a x : x ∈ to_set a <-> has a x = true.
Proof.
  unfold to_set. rewrite elem_of_list_to_set, list_elem_of_filter, elem_of_seqZ. split; [by intros [? _]|].
  intros Hx. split; [done|]. destruct a as [ws|]; [|done]. apply has_bound in Hx. cbn. lia.
Qed.

(** Membership bit by bit. *)
Lemma has_bit ws i b : 0 <= i -> 0 <= b < 64 -> has_words ws (64 * i + b) = Z.testbit (word ws i) b.
Proof.
  intros Hi Hb. unfold has_words. destruct (Z.leb_spec 0 (64 * i + b)); [|lia]. cbn [andb].
  replace (64 * i + b) with (b + i * 64) by lia. rewrite Z.div_add, Z.mod_add by lia.
  by rewrite Z.div_small, Z.mod_small, Z.add_0_l by lia.
Qed.

Lemma bit_position x : 0 <= x -> x = 64 * (x / 64) + x mod 64 /\ 0 <= x / 64 /\ 0 <= x mod 64 < 64.
Proof.
  intros Hx. pose proof (Z.div_mod x 64 ltac:(lia)). pose proof (Z.mod_pos_bound x 64 ltac:(lia)).
  pose proof (Z.div_pos x 64 Hx ltac:(lia)). lia.
Qed.

(** Two arrays of words with the same bits. *)
Lemma has_words_ext ws ws' :
  (forall i b, 0 <= i -> 0 <= b < 64 -> Z.testbit (word ws i) b = Z.testbit (word ws' i) b) ->
  forall x, has_words ws x = has_words ws' x.
Proof.
  intros Hb x. destruct (Z.leb_spec 0 x) as [Hx|Hx]; [|unfold has_words; by destruct (Z.leb_spec 0 x); [lia|]].
  destruct (bit_position x Hx) as (Heq & Hi & Hr). rewrite Heq, !has_bit by done. by apply Hb.
Qed.

Lemma WORDNUM_div x : 0 <= x -> WORDNUM x = x / 64.
Proof. intros. unfold WORDNUM, BITS_PER_BITMAPWORD. by apply Z.quot_div_nonneg; lia. Qed.

Lemma BITNUM_mod x : 0 <= x -> BITNUM x = x mod 64.
Proof. intros. unfold BITNUM, BITS_PER_BITMAPWORD. by apply Z.rem_mod_nonneg; lia. Qed.

(** ** Combining word by word *)

Lemma zget_merge f r o i :
  zget (merge_words f r o) i =
  match zget r i, zget o i with Some a, Some b => Some (f a b) | x, _ => x end.
Proof.
  unfold zget. destruct (Z.leb_spec 0 i) as [Hi|]; [|done]. generalize (Z.to_nat i) as n. clear i Hi. intros n.
  revert o n. induction r as [|a r IH]; intros [|b o] n; cbn [merge_words]; try done.
  - by destruct ((a :: r) !! n).
  - destruct n as [|n]; [done|]. apply (IH o n).
Qed.

Lemma length_merge f r o : zlen (merge_words f r o) = zlen r.
Proof.
  unfold zlen. f_equal. revert o. induction r as [|a r IH]; intros [|b o]; cbn; try done. by rewrite IH.
Qed.

Lemma words_ok_merge f r o :
  words_ok r -> words_ok o -> (forall a b, wordp a -> wordp b -> wordp (f a b)) -> words_ok (merge_words f r o).
Proof.
  intros Hr Ho Hf. revert o Ho. induction Hr as [|a r Ha Hr IH]; intros o Ho; cbn; [by destruct o; constructor|].
  destruct Ho as [|b o Hb Ho]; [by constructor|]. constructor; [by apply Hf|by apply IH].
Qed.

(** Words beyond the end count as 0. *)
Lemma word_merge_r f r o i :
  zlen o <= zlen r -> (forall w, wordp w -> f w 0 = w) -> words_ok r -> word (merge_words f r o) i = f (word r i) (word o i).
Proof.
  intros Hl Hf Hr. unfold word at 1. rewrite zget_merge. destruct (zget r i) as [a|] eqn:Ha.
  - assert (Hwa : word r i = a) by (unfold word; by rewrite Ha). destruct (zget o i) as [b|] eqn:Hb.
    + unfold word. by rewrite Ha, Hb.
    + assert (Hwb : word o i = 0) by (unfold word; by rewrite Hb). rewrite Hwb, Hwa. cbn. symmetry. apply Hf. rewrite <- Hwa. by apply word_ok.
  - assert (Hwa : word r i = 0) by (unfold word; by rewrite Ha).
    assert (Ho : word o i = 0).
    { destruct (Z.ltb_spec i 0); [by apply word_out; lia|]. apply word_out.
      destruct (Z.lt_ge_cases i (zlen r)); [destruct (zget_is_Some r i) as [? Hs]; [lia|congruence]|lia]. }
    rewrite Hwa, Ho. cbn. symmetry. apply Hf, wordp_0.
Qed.

Lemma word_merge_l f r o i : zlen r <= zlen o -> (forall w, f 0 w = 0) -> word (merge_words f r o) i = f (word r i) (word o i).
Proof.
  intros Hl Hf. unfold word at 1. rewrite zget_merge. destruct (zget r i) as [a|] eqn:Ha.
  - assert (Hib : 0 <= i < zlen o) by (apply zget_bounds in Ha; lia). destruct (zget_is_Some o i Hib) as [b Hb].
    unfold word. by rewrite Ha, Hb.
  - assert (Hwa : word r i = 0) by (unfold word; by rewrite Ha). rewrite Hwa, Hf. done.
Qed.

Lemma has_words_op f g ws a b x :
  (forall i, word ws i = f (word a i) (word b i)) ->
  (forall w w' k, 0 <= k < 64 -> Z.testbit (f w w') k = g (Z.testbit w k) (Z.testbit w' k)) -> g false false = false ->
  has_words ws x = g (has_words a x) (has_words b x).
Proof.
  intros Hw Hf Hg. destruct (Z.leb_spec 0 x) as [Hx|Hx].
  - destruct (bit_position x Hx) as (Heq & Hi & Hr). by rewrite Heq, !has_bit, Hw, Hf by done.
  - unfold has_words. destruct (Z.leb_spec 0 x); [lia|]. cbn [andb]. by rewrite Hg.
Qed.

Definition minus (r o : Z) : Z := Z.land r (word_not o).

Lemma minus_0 w : wordp w -> minus w 0 = w.
Proof.
  intros Hw. apply word_ext; [by apply wordp_land|done|]. intros i Hi. unfold minus.
  by rewrite Z.land_spec, not_bits, Z.testbit_0_l, andb_true_r.
Qed.

Lemma minus_bits w w' k : 0 <= k < 64 -> Z.testbit (minus w w') k = Z.testbit w k && negb (Z.testbit w' k).
Proof. intros Hk. unfold minus. by rewrite Z.land_spec, not_bits. Qed.

Lemma has_lor r o x :
  zlen o <= zlen r -> words_ok r -> has_words (merge_words Z.lor r o) x = has_words r x || has_words o x.
Proof.
  intros Hl Hr. apply (has_words_op Z.lor orb); [|intros; apply Z.lor_spec|done].
  intros i. apply word_merge_r; [done|intros; apply Z.lor_0_r|done].
Qed.

Lemma has_land r o x : zlen r <= zlen o -> has_words (merge_words Z.land r o) x = has_words r x && has_words o x.
Proof.
  intros Hl. apply (has_words_op Z.land andb); [|intros; apply Z.land_spec|done].
  intros i. apply word_merge_l; [done|intros; apply Z.land_0_l].
Qed.

(** Where the second array is longer, its extra words do not matter. *)
Lemma merge_ztake f r o : merge_words f r (ztake (zlen r) o) = merge_words f r o.
Proof.
  unfold ztake, zlen. rewrite Nat2Z.id. revert o. induction r as [|a r IH]; intros [|b o]; cbn; try done. by rewrite IH.
Qed.

Lemma word_ztake n ws i : word (ztake n ws) i = if i <? n then word ws i else 0.
Proof.
  destruct (Z.ltb_spec i n) as [Hlt|Hge].
  - unfold word. destruct (Z.ltb_spec i 0); [by rewrite !zget_None by lia|]. by rewrite zget_ztake by lia.
  - apply word_out. destruct (Z.le_gt_cases n 0); [rewrite ztake_nonpos by lia; change (zlen (@nil Z)) with 0|rewrite zlen_ztake_min by lia]; lia.
Qed.

Lemma has_minus r o x : words_ok r -> has_words (merge_words minus r o) x = has_words r x && negb (has_words o x).
Proof.
  intros Hr. rewrite <- merge_ztake. transitivity (has_words r x && negb (has_words (ztake (zlen r) o) x)).
  - apply (has_words_op minus (fun a b => a && negb b)); [|intros; by apply minus_bits|done].
    intros i. apply word_merge_r; [|apply minus_0|done]. pose proof (zlen_nonneg r). rewrite zlen_ztake_min by lia. lia.
  - destruct (has_words r x) eqn:Hx; [|done]. cbn [andb]. f_equal. apply has_bound in Hx as Hb.
    unfold has_words. rewrite word_ztake. destruct (Z.ltb_spec (x / 64) (zlen r)) as [|Hge]; [done|].
    exfalso. destruct (bit_position x) as (Heq & _ & Hr64); lia.
Qed.

(** ** Sets *)

Implicit Types (a b : Bitmapset) (x : Z).

Lemma has_None x : has None x = false.
Proof. done. Qed.

Lemma bms_union_has a b x : bms_ok a -> bms_ok b -> has (bms_union a b) x = has a x || has b x.
Proof.
  destruct a as [aw|], b as [bw|]; cbn [bms_union bms_copy has orb]; try done; [|by rewrite orb_false_r].
  intros [Ha _] [Hb _]. destruct (Z.leb_spec (zlen aw) (zlen bw)); cbn [has]; rewrite has_lor by (done || lia); [apply orb_comm|done].
Qed.

Lemma bms_add_members_has a b x : bms_ok a -> bms_ok b -> has (bms_add_members a b) x = has a x || has b x.
Proof.
  destruct a as [aw|], b as [bw|]; cbn [bms_add_members bms_copy has orb]; try done; [|by rewrite orb_false_r].
  intros [Ha _] [Hb _]. destruct (Z.ltb_spec (zlen aw) (zlen bw)); cbn [has]; rewrite has_lor by (done || lia); [apply orb_comm|done].
Qed.

Lemma bms_join_has a b x : bms_ok a -> bms_ok b -> has (bms_join a b) x = has a x || has b x.
Proof. intros Ha Hb. rewrite <- (bms_add_members_has a b x Ha Hb). by destruct a, b. Qed.

Lemma bms_intersect_has a b x : has (bms_intersect a b) x = has a x && has b x.
Proof.
  destruct a as [aw|], b as [bw|]; cbn [bms_intersect has andb]; try done; [|by rewrite andb_false_r].
  destruct (Z.leb_spec (zlen aw) (zlen bw)); cbn [has]; rewrite has_land by lia; [done|apply andb_comm].
Qed.

Lemma bms_difference_has a b x : bms_ok a -> has (bms_difference a b) x = has a x && negb (has b x).
Proof.
  destruct a as [aw|], b as [bw|]; cbn [bms_difference bms_copy has andb negb]; try done; [|by rewrite andb_true_r].
  intros [Ha _]. by apply has_minus.
Qed.

Lemma bms_del_members_has a b x : bms_ok a -> has (bms_del_members a b) x = has a x && negb (has b x).
Proof. intros Ha. rewrite <- (bms_difference_has a b x Ha). by destruct a, b. Qed.

Lemma word_replicate n i : word (replicate n 0) i = 0.
Proof.
  unfold word, zget. destruct (0 <=? i); [|done]. destruct (replicate n 0 !! Z.to_nat i) eqn:Hr; [|done].
  by apply lookup_replicate in Hr as [-> _].
Qed.

Lemma word_app ws ws' i : word (ws ++ ws') i = if i <? zlen ws then word ws i else word ws' (i - zlen ws).
Proof.
  unfold word, zget, zlen. destruct (Z.ltb_spec i (Z.of_nat (length ws))) as [Hlt|Hge].
  - destruct (Z.leb_spec 0 i); [|done]. by rewrite lookup_app_l by lia.
  - destruct (Z.leb_spec 0 i); [|lia]. destruct (Z.leb_spec 0 (i - Z.of_nat (length ws))); [|lia].
    rewrite lookup_app_r by lia. do 2 f_equal. lia.
Qed.

(** Zero words at the end change nothing. *)
Lemma word_pad ws n i : word (ws ++ replicate n 0) i = word ws i.
Proof. rewrite word_app, word_replicate. destruct (Z.ltb_spec i (zlen ws)); [done|]. by rewrite word_out by lia. Qed.

Lemma bms_int_members_has a b x : has (bms_int_members a b) x = has a x && has b x.
Proof.
  destruct a as [aw|], b as [bw|]; cbn [bms_int_members has andb]; try done; [|by rewrite andb_false_r].
  apply (has_words_op Z.land andb); [|intros; apply Z.land_spec|done]. intros i. rewrite word_pad.
  pose proof (zlen_nonneg bw). rewrite word_merge_l; [|rewrite zlen_ztake_min by lia; lia|intros; apply Z.land_0_l].
  rewrite word_ztake. destruct (Z.ltb_spec i (zlen bw)); [done|]. by rewrite (word_out bw) by lia; rewrite Z.land_0_l, Z.land_0_r.
Qed.

(** ** Adding and removing members *)

Lemma word_zset ws n v i : 0 <= n < zlen ws -> word (zset ws n v) i = if i =? n then v else word ws i.
Proof.
  intros Hn. unfold word. destruct (Z.eqb_spec i n) as [->|Hne]; [by rewrite zget_zset_eq by done|by rewrite zget_zset_ne by done].
Qed.

Lemma words_ok_zset ws n v : words_ok ws -> wordp v -> words_ok (zset ws n v).
Proof.
  intros Hw Hv. apply Forall_forall. intros w (i & Hi & _)%elem_zget. destruct (Z.eq_dec i n) as [->|Hne].
  - pose proof (zget_bounds _ _ _ Hi) as Hb. rewrite zlen_zset in Hb. rewrite zget_zset_eq in Hi by done. by injection Hi as <-.
  - rewrite zget_zset_ne in Hi by done. apply zget_elem in Hi. by apply (proj1 (Forall_forall _ _) Hw).
Qed.

Lemma words_ok_pad ws n : words_ok ws -> words_ok (ws ++ replicate n 0).
Proof. intros Hw. apply Forall_app. split; [done|]. apply Forall_replicate, wordp_0. Qed.

Lemma zlen_enlarge ws n : zlen ws <= n -> zlen (enlarge ws n) = n.
Proof. intros Hn. unfold enlarge, zlen in *. rewrite length_app, length_replicate. lia. Qed.

(** Change one word. *)
Lemma or_word_ok ws n mask :
  words_ok ws -> wordp mask -> 0 <= n < zlen ws ->
  exists ws', or_word ws n mask = Ok ws' /\ words_ok ws' /\ zlen ws' = zlen ws /\
    forall i, word ws' i = if i =? n then Z.lor (word ws n) mask else word ws i.
Proof.
  intros Hw Hm Hn. destruct (zget_is_Some ws n Hn) as [w Hg]. assert (Hwn : word ws n = w) by (unfold word; by rewrite Hg).
  unfold or_word. rewrite (aget_Ok _ _ _ Hg), rbind_ret, aset_Ok by done. eexists. split; [reflexivity|].
  split; [apply words_ok_zset; [done|apply wordp_lor; [rewrite <- Hwn; by apply word_ok|done]]|].
  split; [apply zlen_zset|]. intros i. rewrite word_zset, Hwn by done. done.
Qed.

Lemma fill_words_ok n ws lo hi :
  words_ok ws -> 0 <= lo -> hi <= zlen ws -> hi - lo <= Z.of_nat n ->
  exists ws', fill_words n ws lo hi = Ok ws' /\ words_ok ws' /\ zlen ws' = zlen ws /\
    forall i, word ws' i = if (lo <=? i) && (i <? hi) then all_ones else word ws i.
Proof.
  revert ws lo. induction n as [|n IH]; intros ws lo Hw Hlo Hhi Hn; cbn [fill_words]; destruct (Z.ltb_spec lo hi) as [Hlt|Hge]; try lia.
  1,3: exists ws; split; [done|]; split; [done|]; split; [done|]; intros i; destruct (Z.leb_spec lo i), (Z.ltb_spec i hi); cbn [andb]; done || lia.
  rewrite aset_Ok, rbind_ret by lia.
  destruct (IH (zset ws lo all_ones) (lo + 1)) as (ws' & -> & Hw' & Hl' & Hb'); [by apply words_ok_zset; [|apply all_ones_word]|lia|rewrite zlen_zset; lia|lia|].
  exists ws'. split; [done|]. split; [done|]. split; [by rewrite Hl', zlen_zset|]. intros i. rewrite Hb', word_zset by lia.
  destruct (Z.leb_spec (lo + 1) i), (Z.leb_spec lo i), (Z.ltb_spec i hi), (Z.eqb_spec i lo); cbn [andb]; done || lia.
Qed.

Lemma member_word x : 0 <= x < bms_limit -> 0 <= WORDNUM x /\ 64 * (WORDNUM x + 1) <= bms_limit /\ 0 <= BITNUM x < 64.
Proof.
  intros Hx. rewrite WORDNUM_div, BITNUM_mod by lia. destruct (bit_position x) as (Heq & Hi & Hb); [lia|]. unfold bms_limit in *. lia.
Qed.

Lemma bms_make_singleton_ok x :
  0 <= x < bms_limit -> exists a, bms_make_singleton x = Ok a /\ bms_ok a /\ forall y, has a y = (y =? x).
Proof.
  intros Hx. destruct (member_word x Hx) as (Hw & Hlim & Hb). unfold bms_make_singleton. destruct (Z.ltb_spec x 0); [lia|].
  assert (Hl : zlen (replicate (Z.to_nat (WORDNUM x + 1)) 0) = WORDNUM x + 1) by (unfold zlen; rewrite length_replicate; lia).
  rewrite aset_Ok, rbind_ret by lia. eexists. split; [reflexivity|]. split.
  - split; [apply words_ok_zset; [apply Forall_replicate, wordp_0|apply bitmapword_ok]|rewrite zlen_zset; lia].
  - intros y. cbn [has]. unfold has_words. rewrite word_zset, word_replicate by lia.
    rewrite WORDNUM_div, BITNUM_mod in * by lia. destruct (Z.leb_spec 0 y) as [Hy|Hy]; cbn [andb]; [|symmetry; apply Z.eqb_neq; lia].
    destruct (bit_position x) as (Hxe & _ & _); [lia|]. destruct (bit_position y Hy) as (Hye & _ & Hyb).
    destruct (Z.eqb_spec (y / 64) (x / 64)) as [He|He].
    + rewrite shift1_bits by lia. destruct (Z.eqb_spec (y mod 64) (x mod 64)), (Z.eqb_spec y x); try done; [lia|subst; done].
    + rewrite Z.testbit_0_l. symmetry. apply Z.eqb_neq. intros ->. done.
Qed.

(** Adding bits to word [n]. *)
Lemma has_or ws ws' n mask (Q : Z -> bool) :
  0 <= n -> (forall i, word ws' i = if i =? n then Z.lor (word ws n) mask else word ws i) ->
  (forall k, 0 <= k < 64 -> Z.testbit mask k = Q (64 * n + k)) ->
  forall y, has_words ws' y = has_words ws y || ((y / 64 =? n) && Q y && (0 <=? y)).
Proof.
  intros Hn Hw Hm y. destruct (Z.leb_spec 0 y) as [Hy|Hy].
  - destruct (bit_position y Hy) as (He & Hi & Hb). rewrite He at 1 2. rewrite !has_bit, Hw by done.
    destruct (Z.eqb_spec (y / 64) n) as [Hyn|]; cbn [andb]; [|by rewrite orb_false_r].
    rewrite Z.lor_spec, Hm, andb_true_r by done. rewrite Hyn. do 2 f_equal. rewrite <- Hyn. lia.
  - unfold has_words. destruct (Z.leb_spec 0 y); [lia|]. by rewrite andb_false_r.
Qed.

Lemma bms_add_member_ok a x :
  bms_ok a -> 0 <= x < bms_limit ->
  exists a', bms_add_member a x = Ok a' /\ bms_ok a' /\ forall y, has a' y = (y =? x) || has a y.
Proof.
  intros Ha Hx. unfold bms_add_member. destruct (Z.ltb_spec x 0); [lia|]. destruct a as [ws|].
  2:{ destruct (bms_make_singleton_ok x Hx) as (a' & -> & Hok & Hh). exists a'. split; [done|]. split; [done|].
      intros y. by rewrite Hh, orb_false_r. }
  destruct Ha as [Hw Hl]. destruct (member_word x Hx) as (Hn & Hlim & Hb). cbv zeta.
  set (ws1 := if WORDNUM x >=? zlen ws then enlarge ws (WORDNUM x + 1) else ws).
  assert (H1 : words_ok ws1 /\ WORDNUM x < zlen ws1 /\ 64 * zlen ws1 <= bms_limit /\ forall i, word ws1 i = word ws i).
  { subst ws1. destruct (Z.geb_spec (WORDNUM x) (zlen ws)); [|split_and!; [done|lia|lia|done]]. rewrite zlen_enlarge by lia.
    split; [by apply words_ok_pad|]. split; [lia|]. split; [lia|]. apply word_pad. }
  destruct H1 as (Hw1 & Hn1 & Hl1 & Hword).
  destruct (or_word_ok ws1 (WORDNUM x) (bitmapword (Z.shiftl 1 (BITNUM x)))) as (ws2 & Hrun & Hw2 & Hl2 & Hb2); [done|apply bitmapword_ok|lia|].
  unfold or_word in Hrun. exists (Some ws2). split; [|split; [split; [done|lia]|]].
  - destruct (aget ws1 (WORDNUM x)) as [w| | |]; try done. rewrite rbind_ret in Hrun. by rewrite rbind_ret, Hrun, rbind_ret.
  - intros y. cbn [has]. rewrite (has_or ws1 ws2 (WORDNUM x) _ (fun z => z =? x)) by
      (done || (intros k Hk; rewrite shift1_bits by lia; rewrite WORDNUM_div, BITNUM_mod in * by lia;
                destruct (bit_position x) as (Hxe & _ & _); [lia|]; destruct (Z.eqb_spec k (x mod 64)), (Z.eqb_spec (64 * (x / 64) + k) x); done || lia)).
    rewrite (has_words_ext ws1 ws) by (intros; by rewrite Hword). rewrite orb_comm. f_equal.
    rewrite WORDNUM_div in * by lia. destruct (Z.eqb_spec y x) as [->|]; [|by rewrite andb_false_r].
    rewrite Z.eqb_refl. by destruct (Z.leb_spec 0 x); [|lia].
Qed.

Lemma bms_del_member_ok a x :
  bms_ok a -> 0 <= x ->
  exists a', bms_del_member a x = Ok a' /\ bms_ok a' /\ forall y, has a' y = has a y && negb (y =? x).
Proof.
  intros Ha Hx. unfold bms_del_member. destruct (Z.ltb_spec x 0); [lia|]. destruct a as [ws|]; [|by exists None].
  destruct Ha as [Hw Hl]. rewrite WORDNUM_div, BITNUM_mod by lia. destruct (bit_position x Hx) as (Hxe & Hi & Hb).
  destruct (Z.ltb_spec (x / 64) (zlen ws)) as [Hlt|Hge].
  - destruct (zget_is_Some ws (x / 64)) as [w Hg]; [lia|]. assert (Hwn : word ws (x / 64) = w) by (unfold word; by rewrite Hg).
    rewrite (aget_Ok _ _ _ Hg), rbind_ret, aset_Ok, rbind_ret by lia. eexists. split; [reflexivity|].
    assert (Hwp : wordp w) by (rewrite <- Hwn; by apply word_ok). split.
    + split; [apply words_ok_zset; [done|by apply wordp_land]|by rewrite zlen_zset].
    + intros y. cbn [has]. destruct (Z.leb_spec 0 y) as [Hy|Hy].
      * destruct (bit_position y Hy) as (Hye & Hyi & Hyb). rewrite Hye at 1 2. rewrite !has_bit, word_zset by (done || lia).
        destruct (Z.eqb_spec (y / 64) (x / 64)) as [He|He].
        -- rewrite Z.land_spec, not_bits, shift1_bits, He, Hwn by lia. do 2 f_equal.
           destruct (Z.eqb_spec (y mod 64) (x mod 64)), (Z.eqb_spec y x); done || lia.
        -- destruct (Z.eqb_spec y x) as [->|]; [done|]. by rewrite andb_true_r.
      * unfold has_words. by destruct (Z.leb_spec 0 y); [lia|].
  - exists (Some ws). split; [done|]. split; [done|]. intros y. cbn [has].
    destruct (has_words ws y) eqn:Hy; [|done]. apply has_bound in Hy. destruct (Z.eqb_spec y x) as [->|]; [lia|done].
Qed.

Lemma lmask_bits lb k : 0 <= lb < 64 -> 0 <= k < 64 ->
  Z.testbit (word_not (bitmapword (bitmapword (Z.shiftl 1 lb) - 1))) k = (lb <=? k).
Proof. intros Hb Hk. rewrite not_bits, below_bits by lia. rewrite Z.ltb_antisym. apply negb_involutive. Qed.

Lemma bms_add_range_ok a lower upper :
  bms_ok a -> 0 <= lower -> upper < bms_limit ->
  exists a', bms_add_range a lower upper = Ok a' /\ bms_ok a' /\
    forall y, has a' y = ((lower <=? y) && (y <=? upper)) || has a y.
Proof.
  intros Ha Hlo Hup. unfold bms_add_range. destruct (Z.ltb_spec upper lower) as [Hlt|Hge].
  { exists a. split; [done|]. split; [done|]. intros y. by destruct (Z.leb_spec lower y), (Z.leb_spec y upper); try lia. }
  destruct (Z.ltb_spec lower 0); [lia|]. destruct (member_word upper) as (Hn & Hlim & _); [lia|].
  rewrite !WORDNUM_div, !BITNUM_mod in * by lia. cbv zeta.
  destruct (bit_position lower) as (Hle & Hli & Hlb); [lia|]. destruct (bit_position upper) as (Hue & Hui & Hub); [lia|].
  set (l := lower / 64) in *. set (u := upper / 64) in *. set (lb := lower mod 64) in *. set (ub := upper mod 64) in *.
  set (ws1 := match a with Some ws => if u >=? zlen ws then enlarge ws (u + 1) else ws | None => replicate (Z.to_nat (u + 1)) 0 end).
  assert (H1 : words_ok ws1 /\ u < zlen ws1 /\ 64 * zlen ws1 <= bms_limit /\ forall y, has_words ws1 y = has a y).
  { subst ws1. destruct a as [ws|].
    - destruct Ha as [Hw Hl]. destruct (Z.geb_spec u (zlen ws)); [|split_and!; [done|lia|lia|done]]. rewrite zlen_enlarge by lia.
      split; [by apply words_ok_pad|]. split; [lia|]. split; [lia|]. cbn [has]. apply has_words_ext. intros. unfold enlarge. by rewrite word_pad.
    - assert (Hl : zlen (replicate (Z.to_nat (u + 1)) 0) = u + 1) by (unfold zlen; rewrite length_replicate; lia). rewrite Hl.
      split; [apply Forall_replicate, wordp_0|]. split; [lia|]. split; [lia|]. intros y. unfold has_words. rewrite word_replicate, Z.testbit_0_l.
      apply andb_false_r. }
  destruct H1 as (Hw1 & Hl1 & Hlim1 & Hhas). set (lmask := word_not _). set (umask := Z.shiftr _ _).
  assert (Hlm : wordp lmask) by apply wordp_not.
  assert (Hum : wordp umask) by (apply wordp_shiftr; [unfold BITS_PER_BITMAPWORD; lia|apply all_ones_word]).
  assert (Hneg : forall ws y, y < 0 -> has_words ws y = ((lower <=? y) && (y <=? upper)) || has_words ws1 y).
  { intros ws y Hy. unfold has_words. destruct (Z.leb_spec 0 y), (Z.leb_spec lower y); lia || done. }
  destruct (Z.eqb_spec l u) as [Hlu|Hlu].
  - destruct (or_word_ok ws1 l (Z.land lmask umask)) as (ws2 & -> & Hw2 & Hl2 & Hb2); [done|by apply wordp_land|lia|]. rewrite rbind_ret.
    exists (Some ws2). split; [done|]. split; [split; [done|lia]|]. intros y. rewrite <- Hhas. cbn [has].
    destruct (Z.lt_ge_cases y 0) as [Hy|Hy]; [by apply Hneg|]. destruct (bit_position y Hy) as (Hye & Hyi & Hyb).
    rewrite Hye at 1 4. rewrite !has_bit, Hb2 by done. destruct (Z.eqb_spec (y / 64) l) as [Hyl|Hyl].
    + rewrite Z.lor_spec, Z.land_spec, Hyl, orb_comm. unfold lmask, umask. rewrite lmask_bits, upto_bits by lia. f_equal.
      destruct (Z.leb_spec lb (y mod 64)), (Z.leb_spec (y mod 64) ub), (Z.leb_spec lower y), (Z.leb_spec y upper); done || lia.
    + destruct (Z.leb_spec lower y), (Z.leb_spec y upper); cbn [andb orb]; done || lia.
  - destruct (or_word_ok ws1 l lmask) as (ws2 & -> & Hw2 & Hl2 & Hb2); [done|done|lia|]. rewrite rbind_ret.
    destruct (fill_words_ok (Z.to_nat (u - l)) ws2 (l + 1) u) as (ws3 & -> & Hw3 & Hl3 & Hb3); [done|lia|lia|lia|]. rewrite rbind_ret.
    destruct (or_word_ok ws3 u umask) as (ws4 & -> & Hw4 & Hl4 & Hb4); [done|done|lia|]. rewrite rbind_ret.
    exists (Some ws4). split; [done|]. split; [split; [done|lia]|]. intros y. rewrite <- Hhas. cbn [has].
    destruct (Z.lt_ge_cases y 0) as [Hy|Hy]; [by apply Hneg|]. destruct (bit_position y Hy) as (Hye & Hyi & Hyb).
    rewrite Hye at 1 4. rewrite !has_bit, Hb4, !Hb3, !Hb2 by done.
    destruct (Z.leb_spec (l + 1) u); [|lia]. destruct (Z.ltb_spec u u); [lia|]. cbn [andb]. destruct (Z.eqb_spec u l); [lia|].
    destruct (Z.eqb_spec (y / 64) u) as [Hyu|Hyu]; [|destruct (Z.leb_spec (l + 1) (y / 64)), (Z.ltb_spec (y / 64) u), (Z.eqb_spec (y / 64) l)]; cbn [andb]; try lia.
    all: rewrite ?Z.lor_spec, ?ones_bits by lia; unfold lmask, umask; rewrite ?lmask_bits, ?upto_bits by lia.
    + rewrite Hyu, (orb_comm (Z.testbit _ _)). f_equal.
      destruct (Z.leb_spec (y mod 64) ub), (Z.leb_spec lower y), (Z.leb_spec y upper); done || lia.
    + by destruct (Z.leb_spec lower y), (Z.leb_spec y upper); try lia.
    + by destruct (Z.leb_spec lower y), (Z.leb_spec y upper); try lia.
    + rewrite (orb_comm (Z.testbit _ _)). f_equal; [|by f_equal; f_equal].
      destruct (Z.leb_spec lb (y mod 64)), (Z.leb_spec lower y), (Z.leb_spec y upper); done || lia.
    + by destruct (Z.leb_spec lower y), (Z.leb_spec y upper); try lia.
Qed.
