(* ===== verification/BitmapsetTheory.v ===== *)
(** * The operations of nodes/bitmapset.c against finite sets of integers

    Every operation that builds a set refines the operation of [gset Z] it is
    named after, every question decides the relation of the sets it is named
    after, and the iterators visit the members in order. *)

From Stdlib Require Import ZArith Lia Sorted.
From stdpp Require Import base list strings gmap.
From S2P Require Import Prelude Bitmapset.

Local Open Scope Z_scope.
Set Warnings "-clear-no-such-hyp".

Implicit Types (a b : Bitmapset) (x : Z).

(** ** Questions *)

Lemma zero_words_spec ws : words_ok ws -> (zero_words ws = true <-> forall x, has_words ws x = false).
Proof.
  intros Hw. unfold zero_words. rewrite forallb_forall. split.
  - intros Hz x. destruct (has_words ws x) eqn:Hx; [|done]. unfold has_words in Hx. apply andb_true_iff in Hx as [_ Hx].
    unfold word in Hx. destruct (zget ws (x / 64)) as [w|] eqn:Hg; [|by rewrite Z.testbit_0_l in Hx].
    apply zget_elem in Hg. assert (w = 0) as -> by (apply Z.eqb_eq, Hz; by apply list_elem_of_In). cbn in Hx. by rewrite Z.testbit_0_l in Hx.
  - intros Hx w Hin. apply list_elem_of_In in Hin. apply Z.eqb_eq. apply (proj1 (Forall_forall _ _) Hw) in Hin as Hwp.
    apply (word_zero w Hwp). intros k Hk. apply elem_zget in Hin as (i & Hi & Hib).
    specialize (Hx (64 * i + k)). rewrite has_bit in Hx by lia. unfold word in Hx. by rewrite Hi in Hx.
Qed.

Lemma bms_is_empty_has a : bms_ok a -> (bms_is_empty a = true <-> forall x, has a x = false).
Proof. destruct a as [ws|]; [|done]. intros [Hw _]. by apply zero_words_spec. Qed.

(** Comparing word by word: the predicate [R] on every pair of words, those
    beyond the end being 0. *)
Lemma forall_words (R : Z -> Z -> Prop) w1 w2 aw bw :
  (forall i, 0 <= i -> R (word (w1 :: aw) i) (word (w2 :: bw) i)) <->
  R w1 w2 /\ forall i, 0 <= i -> R (word aw i) (word bw i).
Proof.
  assert (Hs : forall w ws i, 0 <= i -> word (w :: ws) (i + 1) = word ws i).
  { intros w ws i Hi. unfold word. rewrite zget_cons_pos by lia. by rewrite Z.add_simpl_r. }
  split.
  - intros Hr. split; [apply (Hr 0); lia|]. intros i Hi. specialize (Hr (i + 1) ltac:(lia)). by rewrite !Hs in Hr by done.
  - intros [H1 Hr] i Hi. destruct (Z.eq_dec i 0) as [->|Hne]; [done|]. replace i with (i - 1 + 1) by lia. rewrite !Hs by lia. apply Hr. lia.
Qed.

Lemma words_subset aw bw : words_ok aw ->
  ((forall i, 0 <= i -> minus (word aw i) (word bw i) = 0) <-> forall x, has_words aw x = true -> has_words bw x = true).
Proof.
  intros Ha. split.
  - intros Hm x Hx. apply has_bound in Hx as Hb. destruct (bit_position x) as (He & Hi & Hr); [lia|].
    rewrite He, has_bit in Hx by done. rewrite He, has_bit by done. specialize (Hm _ Hi). apply (f_equal (fun z => Z.testbit z (x mod 64))) in Hm.
    rewrite minus_bits, Hx, Z.testbit_0_l in Hm by done. by destruct (Z.testbit (word bw (x / 64)) (x mod 64)).
  - intros Hs i Hi. apply word_zero; [apply wordp_land; by apply word_ok|]. intros k Hk. rewrite minus_bits by done.
    destruct (Z.testbit (word aw i) k) eqn:Hk1; [|done]. specialize (Hs (64 * i + k)). rewrite !has_bit in Hs by done. by rewrite Hs.
Qed.

Lemma word_nil i : word [] i = 0.
Proof. unfold word. by destruct i. Qed.

Lemma zero_words_iff ws : words_ok ws -> (zero_words ws = true <-> forall i, 0 <= i -> word ws i = 0).
Proof.
  induction 1 as [|w ws Hw _ IH]; cbn [zero_words forallb]; [split; [intros _ i _; apply word_nil|done]|].
  rewrite andb_true_iff, Z.eqb_eq. unfold zero_words in IH. rewrite IH.
  rewrite <- (forall_words (fun w _ => w = 0) w 0 ws []). done.
Qed.

Lemma subset_words_iff aw bw : words_ok aw -> words_ok bw ->
  (subset_words aw bw = true <-> forall i, 0 <= i -> minus (word aw i) (word bw i) = 0).
Proof.
  intros Ha. revert bw. induction Ha as [|w1 aw Hw1 Ha IH]; intros bw Hb.
  - cbn. split; [|done]. intros _ i _. by rewrite word_nil.
  - destruct Hb as [|w2 bw Hw2 Hb]; cbn [subset_words].
    + rewrite (zero_words_iff (w1 :: aw)) by (by constructor). split; intros Hz i Hi; specialize (Hz i Hi).
      * by rewrite Hz.
      * rewrite word_nil, minus_0 in Hz; [done|]. apply word_ok. by constructor.
    + rewrite (forall_words (fun x y => minus x y = 0)), <- (IH bw Hb). fold (minus w1 w2).
      destruct (Z.eqb_spec (minus w1 w2) 0); cbn [negb]; [tauto|]. split; [done|by intros [? _]].
Qed.

Lemma bms_is_subset_has a b : bms_ok a -> bms_ok b -> (bms_is_subset a b = true <-> forall x, has a x = true -> has b x = true).
Proof.
  destruct a as [aw|], b as [bw|]; cbn [bms_is_subset has]; try done.
  - intros [Ha _] [Hb _]. by rewrite subset_words_iff, words_subset.
  - intros Ha _. rewrite (bms_is_empty_has (Some aw) Ha). cbn [has]. split; [intros Hx x; by rewrite Hx|].
    intros Hx x. destruct (has_words aw x) eqn:He; [|done]. by apply Hx in He.
Qed.

Lemma bms_nonempty_difference_has a b :
  bms_ok a -> bms_ok b -> bms_nonempty_difference a b = negb (bms_is_subset a b).
Proof. by destruct a, b. Qed.

Lemma equal_words_iff aw bw : words_ok aw -> words_ok bw -> zlen aw <= zlen bw ->
  (equal_words aw bw = true <-> forall i, 0 <= i -> word aw i = word bw i).
Proof.
  intros Ha. revert bw. induction Ha as [|w1 aw Hw1 Ha IH]; intros bw Hb Hl; cbn [equal_words].
  - rewrite (zero_words_iff bw Hb). split; intros Hz i Hi; specialize (Hz i Hi); by rewrite word_nil in *.
  - destruct Hb as [|w2 bw Hw2 Hb]; [exfalso; unfold zlen in Hl; cbn [length] in Hl; lia|]. rewrite !zlen_cons in Hl.
    rewrite (forall_words eq), <- (IH bw Hb) by lia. destruct (Z.eqb_spec w1 w2); cbn [negb]; [tauto|]. split; [done|by intros [? _]].
Qed.

Lemma words_equal aw bw : words_ok aw -> words_ok bw ->
  ((forall i, 0 <= i -> word aw i = word bw i) <-> forall x, has_words aw x = has_words bw x).
Proof.
  intros Ha Hb. split.
  - intros Hw. apply has_words_ext. intros i k Hi _. by rewrite Hw.
  - intros Hh i Hi. apply word_ext; [by apply word_ok..|]. intros k Hk. by rewrite <- !has_bit by lia.
Qed.

Lemma bms_equal_has a b : bms_ok a -> bms_ok b -> (bms_equal a b = true <-> forall x, has a x = has b x).
Proof.
  destruct a as [aw|], b as [bw|]; cbn [bms_equal has]; try done.
  - intros [Ha _] [Hb _]. rewrite <- words_equal by done. destruct (Z.leb_spec (zlen aw) (zlen bw)); rewrite equal_words_iff by (done || lia); [done|].
    by split; intros Hw i Hi; rewrite Hw.
  - intros Ha _. by rewrite (bms_is_empty_has (Some aw) Ha).
  - intros _ Hb. rewrite (bms_is_empty_has (Some bw) Hb). cbn [has]. split; intros Hx x; [by rewrite Hx|by rewrite <- Hx].
Qed.

(** [bms_subset_compare] answers with the two inclusions. *)
Definition comparison_of (sub1 sub2 : bool) : BMS_Comparison :=
  match sub1, sub2 with
  | true, true => BMS_EQUAL
  | true, false => BMS_SUBSET1
  | false, true => BMS_SUBSET2
  | false, false => BMS_DIFFERENT
  end.

Definition keeps1 (c : BMS_Comparison) : bool := bool_decide (c = BMS_EQUAL \/ c = BMS_SUBSET1).
Definition keeps2 (c : BMS_Comparison) : bool := bool_decide (c = BMS_EQUAL \/ c = BMS_SUBSET2).

(** Evaluate the notes of a known comparison. *)
Ltac note_eval :=
  repeat match goal with
  | |- context [note_more1 ?c] => let r := eval vm_compute in (note_more1 c) in change (note_more1 c) with r; cbv beta iota
  | |- context [note_more2 ?c] => let r := eval vm_compute in (note_more2 c) in change (note_more2 c) with r; cbv beta iota
  end.

Lemma compare_extra_note1 ws c : c <> BMS_DIFFERENT ->
  compare_extra note_more1 ws c = comparison_of (keeps1 c && zero_words ws) (keeps2 c).
Proof.
  revert c. induction ws as [|w ws IH]; intros c Hc; cbn [compare_extra]; [by destruct c|].
  cbn [zero_words forallb]. destruct (Z.eqb_spec w 0); cbn [negb]; [by rewrite IH|].
  destruct c; try done; note_eval; by rewrite IH.
Qed.

Lemma compare_extra_note2 ws c : c <> BMS_DIFFERENT ->
  compare_extra note_more2 ws c = comparison_of (keeps1 c) (keeps2 c && zero_words ws).
Proof.
  revert c. induction ws as [|w ws IH]; intros c Hc; cbn [compare_extra]; [by destruct c|].
  cbn [zero_words forallb]. destruct (Z.eqb_spec w 0); cbn [negb]; [by rewrite IH|].
  destruct c; try done; note_eval; by rewrite IH.
Qed.

Lemma compare_words_flags aw bw c : c <> BMS_DIFFERENT ->
  compare_words aw bw c = comparison_of (keeps1 c && subset_words aw bw) (keeps2 c && subset_words bw aw).
Proof.
  revert bw c. induction aw as [|w1 aw IH]; intros [|w2 bw] c Hc.
  - by destruct c.
  - cbn [compare_words]. rewrite compare_extra_note2 by done. cbn. by rewrite andb_true_r.
  - cbn [compare_words]. rewrite compare_extra_note1 by done. cbn. by rewrite andb_true_r.
  - cbn [compare_words subset_words]. destruct (negb (Z.land w1 (word_not w2) =? 0)), (negb (Z.land w2 (word_not w1) =? 0)), c;
      try done; note_eval; rewrite ?IH by done; rewrite ?andb_false_r; done.
Qed.

Lemma bms_subset_compare_flags a b :
  bms_subset_compare a b = comparison_of (bms_is_subset a b) (bms_is_subset b a).
Proof.
  destruct a as [aw|], b as [bw|]; cbn [bms_subset_compare bms_is_subset]; try done.
  by rewrite compare_words_flags.
Qed.

Lemma bms_is_member_has a x : bms_ok a -> 0 <= x -> bms_is_member x a = Ok (has a x).
Proof.
  intros Ha Hx. unfold bms_is_member. destruct (Z.ltb_spec x 0); [lia|]. destruct a as [ws|]; [|done]. destruct Ha as [Hw _].
  rewrite WORDNUM_div, BITNUM_mod by done. destruct (bit_position x Hx) as (He & Hi & Hb). cbn [has]. unfold has_words.
  destruct (Z.leb_spec 0 x); [|lia]. cbn [andb]. destruct (Z.geb_spec (x / 64) (zlen ws)).
  - by rewrite word_out, Z.testbit_0_l by lia.
  - destruct (zget_is_Some ws (x / 64)) as [w Hg]; [lia|]. rewrite (aget_Ok _ _ _ Hg), rbind_ret.
    assert (Hwn : word ws (x / 64) = w) by (unfold word; by rewrite Hg). rewrite test_bit, Hwn; [done| |done].
    rewrite <- Hwn. by apply word_ok.
Qed.

Lemma overlap_words_iff aw bw : words_ok aw -> words_ok bw ->
  (overlap_words aw bw = false <-> forall i, 0 <= i -> Z.land (word aw i) (word bw i) = 0).
Proof.
  intros Ha. revert bw. induction Ha as [|w1 aw Hw1 Ha IH]; intros bw Hb; cbn [overlap_words].
  - split; [|done]. intros _ i _. by rewrite word_nil.
  - destruct Hb as [|w2 bw Hw2 Hb]; [split; [|done]; intros _ i _; by rewrite word_nil, Z.land_0_r|].
    rewrite (forall_words (fun v w => Z.land v w = 0)), <- (IH bw Hb).
    destruct (Z.eqb_spec (Z.land w1 w2) 0); cbn [negb]; [tauto|]. split; [done|by intros [? _]].
Qed.

Lemma bms_overlap_has a b : bms_ok a -> bms_ok b ->
  (bms_overlap a b = false <-> forall x, has a x && has b x = false).
Proof.
  destruct a as [aw|], b as [bw|]; cbn [bms_overlap has]; try done.
  - intros [Ha _] [Hb _]. rewrite overlap_words_iff by done. split.
    + intros Hz x. destruct (Z.leb_spec 0 x) as [Hx|Hx]; [|unfold has_words; by destruct (Z.leb_spec 0 x); [lia|]].
      destruct (bit_position x Hx) as (He & Hi & Hr). rewrite He, !has_bit, <- Z.land_spec, Hz by done. apply Z.testbit_0_l.
    + intros Hx i Hi. apply word_zero; [apply wordp_land; by apply word_ok|]. intros k Hk. rewrite Z.land_spec, <- !has_bit by lia. apply Hx.
  - intros _ _. split; [|done]. intros _ x. apply andb_false_r.
Qed.

Lemma bms_overlap_list_has a l : bms_ok a -> Forall (fun x => 0 <= x) l -> bms_overlap_list a l = Ok (existsb (has a) l).
Proof.
  intros Ha Hl. destruct a as [ws|]; cbn [bms_overlap_list].
  2:{ f_equal. by induction l as [|x l IH]; [|cbn; rewrite <- IH by (by inversion Hl)]. }
  enough (overlap_list ws l = Ok (existsb (has (Some ws)) l)) by (by destruct l). induction Hl as [|x l Hx Hl IH]; [done|].
  cbn [overlap_list existsb]. pose proof (bms_is_member_has (Some ws) x Ha Hx) as Hm. unfold bms_is_member in Hm.
  destruct (Z.ltb_spec x 0); [lia|]. destruct (Z.geb_spec (WORDNUM x) (zlen ws)), (Z.ltb_spec (WORDNUM x) (zlen ws)); try lia.
  - assert (has (Some ws) x = false) as -> by congruence. apply IH.
  - destruct (aget ws (WORDNUM x)) as [w| | |]; try done. rewrite rbind_ret in Hm. rewrite rbind_ret.
    assert (has (Some ws) x = negb (Z.land w (bitmapword (Z.shiftl 1 (BITNUM x))) =? 0)) as -> by congruence.
    by destruct (negb _); [|rewrite IH].
Qed.

(** ** The order of sets: [bms_compare] *)

(** The array as one big number. *)
Fixpoint value_words (ws : list Z) : Z :=
  match ws with [] => 0 | w :: ws => w + 18446744073709551616 * value_words ws end.

Definition bms_value (a : Bitmapset) : Z := match a with None => 0 | Some ws => value_words ws end.

Definition sign_of (c : comparison) : Z := match c with Lt => -1 | Eq => 0 | Gt => 1 end.

Definition radix (n : Z) : Z := 2 ^ (64 * n).

Lemma radix_cons n : 0 <= n -> radix (1 + n) = 18446744073709551616 * radix n.
Proof. intros Hn. unfold radix. rewrite Z.mul_add_distr_l, Z.pow_add_r by lia. done. Qed.

Lemma radix_pos n : 0 <= n -> 0 < radix n.
Proof. intros Hn. apply Z.pow_pos_nonneg; lia. Qed.

Lemma value_words_bounds ws : words_ok ws -> 0 <= value_words ws < radix (zlen ws).
Proof.
  induction 1 as [|w ws Hw _ IH]; [split; [done|reflexivity]|]. rewrite zlen_cons, radix_cons by apply zlen_nonneg. cbn [value_words].
  unfold wordp in Hw. lia.
Qed.

Lemma value_words_app l l' : value_words (l ++ l') = value_words l + radix (zlen l) * value_words l'.
Proof.
  induction l as [|w l IH]; [cbn [app value_words]; change (radix (zlen (@nil Z))) with 1; lia|]. rewrite zlen_cons, radix_cons by apply zlen_nonneg.
  cbn [app value_words]. rewrite IH. lia.
Qed.

Lemma value_words_zero ws : words_ok ws -> if zero_words ws then value_words ws = 0 else 1 <= value_words ws.
Proof.
  induction 1 as [|w ws Hw Hws IH]; [done|]. cbn [zero_words forallb value_words]. fold (zero_words ws).
  pose proof (value_words_bounds ws Hws). unfold wordp in Hw. destruct (Z.eqb_spec w 0); cbn [andb]; [destruct (zero_words ws); lia|lia].
Qed.

Lemma words_ok_split n ws : words_ok ws -> words_ok (ztake n ws) /\ words_ok (zdrop n ws).
Proof. intros Hw. split; [by apply Forall_take|by apply Forall_drop]. Qed.

Lemma compare_down_value (l : list (Z * Z)) : words_ok l.*1 -> words_ok l.*2 ->
  compare_down (reverse l) = sign_of (value_words l.*1 ?= value_words l.*2).
Proof.
  induction l as [|[v w] l IH] using rev_ind; [done|]. rewrite !fmap_app, reverse_app, !value_words_app. cbn.
  intros [Ha _]%Forall_app [Hb _]%Forall_app.
  assert (Hl : zlen l.*1 = zlen l.*2) by (unfold zlen; by rewrite !length_fmap). rewrite <- Hl, !Z.mul_0_r, !Z.add_0_r.
  pose proof (value_words_bounds _ Ha) as Hva. pose proof (value_words_bounds _ Hb) as Hvb. rewrite <- Hl in Hvb.
  set (R := radix _) in *. destruct (Z.eqb_spec v w) as [->|Hne]; cbn [negb].
  - rewrite IH by done. by rewrite Z.add_comm, (Z.add_comm (value_words l.*2)), Zcompare_plus_compat.
  - destruct (Z.gtb_spec v w); symmetry.
    + replace (_ ?= _) with Gt; [done|symmetry; apply Z.compare_gt_iff; nia].
    + replace (_ ?= _) with Lt; [done|symmetry; apply Z.compare_lt_iff; nia].
Qed.

Lemma zip_ztake (aw bw : list Z) : let s := Z.min (zlen aw) (zlen bw) in (zip aw bw).*1 = ztake s aw /\ (zip aw bw).*2 = ztake s bw.
Proof.
  revert bw. induction aw as [|v aw IH]; intros bw; cbv zeta.
  { change (zlen (@nil Z)) with 0. rewrite Z.min_l by apply zlen_nonneg. by rewrite !ztake_nonpos by lia. }
  destruct bw as [|w bw].
  { change (zlen (@nil Z)) with 0. rewrite Z.min_r by apply zlen_nonneg. by rewrite !ztake_nonpos by lia. }
  destruct (IH bw) as [H1 H2]. pose proof (zlen_nonneg aw). pose proof (zlen_nonneg bw).
  replace (Z.min (zlen (v :: aw)) (zlen (w :: bw))) with (Z.min (zlen aw) (zlen bw) + 1) by (rewrite !zlen_cons; lia).
  rewrite !ztake_cons by lia. cbn. by rewrite H1, H2.
Qed.

Lemma bms_compare_value a b : bms_ok a -> bms_ok b -> bms_compare a b = sign_of (bms_value a ?= bms_value b).
Proof.
  assert (Hz : forall ws, words_ok ws -> sign_of (value_words ws ?= 0) = if zero_words ws then 0 else 1).
  { intros ws Hw. pose proof (value_words_zero ws Hw). destruct (zero_words ws); destruct (Z.compare_spec (value_words ws) 0); done || lia. }
  destruct a as [aw|], b as [bw|]; cbn [bms_compare bms_value bms_is_empty].
  - intros [Ha _] [Hb _]. destruct (zip_ztake aw bw) as [H1 H2]. set (s := Z.min (zlen aw) (zlen bw)) in *.
    destruct (words_ok_split s aw Ha) as [Hta Hda]. destruct (words_ok_split s bw Hb) as [Htb Hdb].
    rewrite <- (ztake_zdrop s aw) at 3. rewrite <- (ztake_zdrop s bw) at 3. rewrite !value_words_app.
    pose proof (zlen_nonneg aw). pose proof (zlen_nonneg bw). rewrite !zlen_ztake by lia.
    pose proof (value_words_bounds _ Hta) as Hva. pose proof (value_words_bounds _ Htb) as Hvb. rewrite zlen_ztake in Hva, Hvb by lia.
    pose proof (value_words_zero _ Hda) as Hza. pose proof (value_words_zero _ Hdb) as Hzb.
    assert (Hone : zdrop s aw = [] \/ zdrop s bw = []).
    { subst s. destruct (Z.le_ge_cases (zlen aw) (zlen bw)); [left|right]; unfold zdrop; apply drop_ge; unfold zlen in *; lia. }
    rewrite (compare_down_value (zip aw bw)), H1, H2 by (rewrite ?H1, ?H2; done).
    destruct (zero_words (zdrop s aw)) eqn:Ea; cbn [negb].
    + rewrite Hza, Z.mul_0_r, Z.add_0_r. destruct (zero_words (zdrop s bw)); cbn [negb]; [by rewrite Hzb, Z.mul_0_r, Z.add_0_r|].
      replace (_ ?= _) with Lt; [done|symmetry; apply Z.compare_lt_iff; nia].
    + assert (zdrop s bw = []) as -> by (destruct Hone as [Hn|Hn]; [by rewrite Hn in Ea|done]). cbn [value_words].
      replace (_ ?= _) with Gt; [done|symmetry; apply Z.compare_gt_iff; nia].
  - intros [Ha _] _. by rewrite Hz.
  - intros _ [Hb _]. rewrite Z.compare_antisym. specialize (Hz bw Hb). destruct (value_words bw ?= 0); cbn in *; destruct (zero_words bw); done.
  - done.
Qed.

(** Equal numbers are equal sets. *)
Lemma value_words_eq aw bw : words_ok aw -> words_ok bw ->
  (value_words aw = value_words bw <-> forall i, 0 <= i -> word aw i = word bw i).
Proof.
  intros Ha. revert bw. induction Ha as [|w1 aw Hw1 Ha IH]; intros bw Hb.
  - pose proof (value_words_zero bw Hb) as Hz. pose proof (zero_words_iff bw Hb) as Hi. cbn [value_words]. split.
    + intros Hv i Hi0. destruct (zero_words bw); [|lia]. rewrite word_nil. symmetry. by apply Hi.
    + intros Hw. destruct (zero_words bw); [done|]. destruct Hi as [_ Hi]. discriminate Hi.
      intros i Hi0. by rewrite <- Hw, word_nil.
  - destruct Hb as [|w2 bw Hw2 Hb].
    + pose proof (value_words_zero (w1 :: aw) ltac:(by constructor)) as Hz.
      pose proof (zero_words_iff (w1 :: aw) ltac:(by constructor)) as Hi. change (value_words []) with 0. split.
      * intros Hv i Hi0. destruct (zero_words (w1 :: aw)); [|lia]. rewrite word_nil. by apply Hi.
      * intros Hw. destruct (zero_words (w1 :: aw)); [done|]. destruct Hi as [_ Hi]. discriminate Hi.
        intros i Hi0. by rewrite Hw, word_nil.
    + rewrite (forall_words eq), <- (IH bw Hb). cbn [value_words]. unfold wordp in *. lia.
Qed.

(** ** Hashing *)

Lemma strip_zeros_nil ws : zero_words ws = true -> strip_zeros ws = [].
Proof.
  induction ws as [|w ws IH]; [done|]. cbn [zero_words forallb strip_zeros]. intros [Hw Hz]%andb_true_iff. by rewrite IH, Hw.
Qed.

Lemma strip_zeros_ext aw bw : words_ok aw -> words_ok bw ->
  (forall i, 0 <= i -> word aw i = word bw i) -> strip_zeros aw = strip_zeros bw.
Proof.
  intros Ha. revert bw. induction Ha as [|w1 aw Hw1 Ha IH]; intros bw Hb Hw.
  - rewrite (strip_zeros_nil bw); [done|]. apply zero_words_iff; [done|]. intros i Hi. by rewrite <- Hw, word_nil.
  - destruct Hb as [|w2 bw Hw2 Hb].
    + rewrite (strip_zeros_nil (w1 :: aw)); [done|]. apply zero_words_iff; [by constructor|]. intros i Hi. by rewrite Hw, word_nil.
    + apply (forall_words eq) in Hw as [-> Hw]. cbn [strip_zeros]. by rewrite (IH bw).
Qed.

Lemma bms_hash_value_ext hash_any a b : bms_ok a -> bms_ok b -> (forall x, has a x = has b x) ->
  bms_hash_value hash_any a = bms_hash_value hash_any b.
Proof.
  assert (Hn : forall ws, words_ok ws -> (forall x, has_words ws x = false) -> strip_zeros ws = []).
  { intros ws Hw Hx. apply strip_zeros_nil. by apply zero_words_spec. }
  destruct a as [aw|], b as [bw|]; cbn [bms_hash_value has]; [intros [Ha _] [Hb _] Hx| intros [Ha _] _ Hx|intros _ [Hb _] Hx|done].
  - rewrite (strip_zeros_ext aw bw); [done..|]. by apply words_equal.
  - by rewrite Hn.
  - by rewrite Hn.
Qed.

(** ** The lowest and the highest bit *)

Lemma low_bit w : 0 < w -> exists p q, 0 <= p /\ w = 2 ^ p * (2 * q + 1).
Proof.
  intros Hw. destruct w as [|n|n]; try lia. clear Hw. induction n as [n _|n IH|].
  - exists 0, (Z.pos n). lia.
  - destruct IH as (p & q & Hp & He). exists (p + 1), q. split; [lia|]. rewrite Z.pow_add_r, Z.pow_1_r by lia. rewrite Pos2Z.inj_xO. lia.
  - exists 0, 0. lia.
Qed.

Lemma odd_scaled_bits p q i : 0 <= p -> 0 <= i ->
  Z.testbit (2 ^ p * (2 * q + 1)) i = if i <? p then false else if i =? p then true else Z.testbit q (i - p - 1).
Proof.
  intros Hp Hi. rewrite Z.mul_comm. destruct (Z.ltb_spec i p); [by rewrite Z.mul_pow2_bits_low|].
  replace i with (p + (i - p)) at 1 by lia. rewrite Z.mul_pow2_bits_add by lia.
  destruct (Z.eqb_spec i p) as [->|Hne]; [by rewrite Z.sub_diag, Z.testbit_odd_0|].
  replace (i - p) with (Z.succ (i - p - 1)) at 1 by lia. by rewrite Z.testbit_odd_succ by lia.
Qed.

Lemma rightmost_spec w : wordp w -> w <> 0 ->
  exists p, 0 <= p < 64 /\ RIGHTMOST_ONE w = 2 ^ p /\ bmw_rightmost_one_pos w = p /\ Z.testbit w p = true /\
    forall i, 0 <= i < p -> Z.testbit w i = false.
Proof.
  intros Hw Hne. destruct (low_bit w) as (p & q & Hp & He); [unfold wordp in Hw; lia|].
  assert (Hneg : - w = 2 ^ p * (2 * Z.lnot q + 1)) by (rewrite He; unfold Z.lnot; lia).
  assert (Hpw : Z.testbit w p = true) by (rewrite He, odd_scaled_bits, Z.ltb_irrefl, Z.eqb_refl by lia; done).
  assert (Hp64 : p < 64) by (destruct (Z.lt_ge_cases p 64); [done|]; rewrite wordp_high in Hpw by done; done).
  assert (Hr : RIGHTMOST_ONE w = 2 ^ p).
  { unfold RIGHTMOST_ONE. apply Z.bits_inj'. intros i Hi. rewrite Z.land_spec, bitmapword_bits, Hneg, He by done.
    rewrite !odd_scaled_bits by done. rewrite Z.pow2_bits_eqb by done. rewrite (Z.eqb_sym p i).
    destruct (Z.ltb_spec i p), (Z.eqb_spec i p), (Z.ltb_spec i 64); try lia; try done; cbn [andb].
    all: rewrite ?Z.lnot_spec by lia; apply andb_negb_r || apply andb_false_r. }
  exists p. split; [lia|]. split; [done|]. split; [unfold bmw_rightmost_one_pos; by rewrite Hr, Z.log2_pow2|].
  split; [done|]. intros i Hi. rewrite He, odd_scaled_bits by lia. by destruct (Z.ltb_spec i p); [|lia].
Qed.

Lemma leftmost_spec w : wordp w -> w <> 0 ->
  let p := bmw_leftmost_one_pos w in 0 <= p < 64 /\ Z.testbit w p = true /\ forall i, p < i -> Z.testbit w i = false.
Proof.
  intros Hw Hne. unfold wordp in Hw. cbv zeta. unfold bmw_leftmost_one_pos. split; [|split].
  - split; [apply Z.log2_nonneg|]. apply Z.log2_lt_pow2; [lia|]. change (2 ^ 64) with 18446744073709551616. lia.
  - apply Z.bit_log2. lia.
  - intros i Hi. apply Z.bits_above_log2; lia.
Qed.

(** ** Members in order *)

Definition members_words (ws : list Z) : list Z := filter (fun x => has_words ws x = true) (seqZ 0 (64 * zlen ws)).

Definition members (a : Bitmapset) : list Z := match a with None => [] | Some ws => members_words ws end.

(** The bits of one word. *)
Definition bits (w : Z) : list Z := filter (fun i => Z.testbit w i = true) (seqZ 0 64).

Lemma has_words_cons w ws x :
  has_words (w :: ws) x = if x <? 64 then (0 <=? x) && Z.testbit w x else has_words ws (x - 64).
Proof.
  destruct (Z.ltb_spec x 64).
  - unfold has_words. destruct (Z.leb_spec 0 x); [|done]. cbn [andb]. rewrite Z.div_small, Z.mod_small by lia. done.
  - unfold has_words. destruct (Z.leb_spec 0 x), (Z.leb_spec 0 (x - 64)); try lia. cbn [andb].
    replace x with (x - 64 + 1 * 64) at 1 2 by lia. rewrite Z.div_add, Z.mod_add by lia. f_equal. unfold word.
    rewrite zget_cons_pos, Z.add_simpl_r by (pose proof (Z.div_pos (x - 64) 64); lia). done.
Qed.

Lemma elem_members a x : x ∈ members a <-> has a x = true.
Proof.
  destruct a as [ws|]; [|cbn [members has]; split; [by intros ?%not_elem_of_nil|done]].
  rewrite <- elem_to_set. unfold to_set. by rewrite elem_of_list_to_set.
Qed.

Lemma filter_shift (P : Z -> bool) lo k n :
  filter (fun x => P x = true) (seqZ (lo + k) n) = (fun x => x + k) <$> filter (fun x => P (x + k) = true) (seqZ lo n).
Proof.
  rewrite Z.add_comm, <- (fmap_add_seqZ k lo n). induction (seqZ lo n) as [|x l IH]; [done|]. rewrite fmap_cons, !filter_cons, IH.
  rewrite (Z.add_comm k x). by destruct (decide (P (x + k) = true)).
Qed.

Lemma filter_ext_in (P Q : Z -> bool) (l : list Z) : (forall x, x ∈ l -> P x = Q x) -> filter (fun x => P x = true) l = filter (fun x => Q x = true) l.
Proof.
  induction l as [|x l IH]; intros Hpq; [done|]. rewrite !filter_cons, IH by (intros y Hy; apply Hpq; by right).
  rewrite (Hpq x) by left. done.
Qed.

Lemma members_words_cons w ws : members_words (w :: ws) = bits w ++ ((fun x => x + 64) <$> members_words ws).
Proof.
  unfold members_words. rewrite zlen_cons. pose proof (zlen_nonneg ws). replace (64 * (1 + zlen ws)) with (64 + 64 * zlen ws) by lia.
  rewrite seqZ_app, filter_app by lia. apply (f_equal2 (++)).
  - apply filter_ext_in. intros x Hx%elem_of_seqZ. rewrite has_words_cons. destruct (Z.ltb_spec x 64), (Z.leb_spec 0 x); done || lia.
  - rewrite filter_shift. apply (f_equal (fmap _)). apply filter_ext_in. intros x Hx%elem_of_seqZ. rewrite has_words_cons.
    destruct (Z.ltb_spec (x + 64) 64); [lia|]. by rewrite Z.add_simpl_r.
Qed.

Lemma filter_none (P : Z -> bool) lo n : (forall z, lo <= z < lo + n -> P z = false) -> filter (fun x => P x = true) (seqZ lo n) = [].
Proof.
  intros Hn. apply elem_of_nil_inv. intros z [Hz Hin]%list_elem_of_filter. apply elem_of_seqZ in Hin. by rewrite Hn in Hz by lia.
Qed.

(** The first hit of a range. *)
Lemma filter_first (P : Z -> bool) lo n r :
  lo <= r < lo + n -> P r = true -> (forall z, lo <= z < r -> P z = false) ->
  filter (fun x => P x = true) (seqZ lo n) = r :: filter (fun x => P x = true) (seqZ (r + 1) (lo + n - r - 1)).
Proof.
  intros Hr Hp Hz. replace n with ((r - lo) + (lo + n - r)) at 1 by lia. rewrite seqZ_app, filter_app, filter_none by (done || lia || (intros; apply Hz; lia)).
  replace (lo + (r - lo)) with r by lia. rewrite seqZ_cons, filter_cons_True by (done || lia). cbn. by replace (Z.succ r) with (r + 1) by lia;
    replace (Z.pred (lo + n - r)) with (lo + n - r - 1) by lia.
Qed.

(** Numbers up to [bms_limit] are [int]s. *)
Lemma bms_int32 n : -2 <= n <= bms_limit -> int32 n = n.
Proof. intros Hn. apply int32_id. unfold bms_limit in Hn. unfold is_int32, INT_MAX, INT_MIN. lia. Qed.

(** ** Counting *)

Lemma bits_0 : bits 0 = [].
Proof. reflexivity. Qed.

Lemma zlen_filter (P : Z -> Prop) `{!forall x, Decision (P x)} (l : list Z) : 0 <= zlen (filter P l) <= zlen l.
Proof. unfold zlen. pose proof (length_filter P l). lia. Qed.

Lemma zlen_bits w : 0 <= zlen (bits w) <= 64.
Proof. exact (zlen_filter _ (seqZ 0 64)). Qed.

Lemma popcount_words_ok ws n : 0 <= n -> n + 64 * zlen ws <= bms_limit -> popcount_words ws n = n + zlen (members_words ws).
Proof.
  revert n. induction ws as [|w ws IH]; intros n Hn Hl; cbn [popcount_words]; [assert (zlen (members_words []) = 0) as -> by done; lia|].
  rewrite zlen_cons in Hl. rewrite members_words_cons, zlen_app, zlen_fmap. pose proof (zlen_bits w) as Hb. pose proof (zlen_nonneg ws).
  destruct (Z.eqb_spec w 0) as [->|Hne]; cbn [negb].
  - rewrite bits_0, IH by lia. change (zlen (@nil Z)) with 0. lia.
  - change (bmw_popcount w) with (zlen (bits w)). rewrite bms_int32 by lia. rewrite IH by lia. lia.
Qed.

Lemma bms_num_members_ok a : bms_ok a -> bms_num_members a = zlen (members a).
Proof. destruct a as [ws|]; [|done]. intros [_ Hl]. cbn. rewrite popcount_words_ok by lia. lia. Qed.

Lemma has_ztake n ws x : 0 <= n -> has_words (ztake n ws) x = (x <? 64 * n) && has_words ws x.
Proof.
  intros Hn. destruct (Z.leb_spec 0 x) as [Hx|Hx]; [|unfold has_words; destruct (Z.leb_spec 0 x); [lia|by rewrite andb_false_r]].
  destruct (bit_position x Hx) as (He & Hi & Hb). rewrite He, !has_bit, word_ztake by done.
  destruct (Z.ltb_spec (x / 64) n), (Z.ltb_spec (64 * (x / 64) + x mod 64) (64 * n)); try lia; [done|apply Z.testbit_0_l].
Qed.

(** The members below [x]. *)
Lemma members_below ws n k : 0 <= n < zlen ws -> 0 <= k < 64 ->
  zlen (members_words (ztake n ws)) + zlen (bits (Z.land (word ws n) (bitmapword (bitmapword (Z.shiftl 1 k) - 1)))) =
  zlen (filter (fun y => has_words ws y = true) (seqZ 0 (64 * n + k))).
Proof.
  intros Hn Hk. rewrite seqZ_app, filter_app, zlen_app by lia. f_equal.
  - unfold members_words. rewrite zlen_ztake by lia. apply (f_equal zlen). apply filter_ext_in. intros x Hx%elem_of_seqZ.
    rewrite has_ztake by lia. by destruct (Z.ltb_spec x (64 * n)); [|lia].
  - rewrite filter_shift, zlen_fmap. unfold bits. replace 64 with (k + (64 - k)) at 1 by lia. rewrite seqZ_app, filter_app, zlen_app by lia.
    rewrite (filter_none _ (0 + k)), (filter_ext_in _ (fun x => has_words ws (x + 64 * n))); [change (zlen (@nil Z)) with 0; lia| |].
    + intros x Hx%elem_of_seqZ. replace (x + 64 * n) with (64 * n + x) by lia. rewrite has_bit, Z.land_spec, below_bits by lia.
      destruct (Z.ltb_spec x k); [apply andb_true_r|lia].
    + intros x Hx. rewrite Z.land_spec, below_bits by lia. destruct (Z.ltb_spec x k); [lia|apply andb_false_r].
Qed.

Lemma bms_member_index_ok a x : bms_ok a -> 0 <= x ->
  bms_member_index a x = Ok (if has a x then zlen (filter (fun y => has a y = true) (seqZ 0 x)) else -1).
Proof.
  intros Ha Hx. unfold bms_member_index. rewrite bms_is_member_has, rbind_ret by done. destruct (has a x) eqn:Hh; cbn [negb]; [|done].
  destruct a as [ws|]; [|done]. destruct Ha as [Hw Hl]. apply has_bound in Hh as Hb. rewrite WORDNUM_div, BITNUM_mod by done.
  destruct (bit_position x Hx) as (He & Hi & Hk). set (n := x / 64) in *. set (k := x mod 64) in *.
  destruct (zget_is_Some ws n) as [w Hg]; [lia|]. rewrite (aget_Ok _ _ _ Hg), rbind_ret.
  assert (word ws n = w) as Hwn by (unfold word; by rewrite Hg). subst w.
  change (bmw_popcount ?v) with (zlen (bits v)).
  rewrite popcount_words_ok, Z.add_0_l by (rewrite ?zlen_ztake by lia; lia). rewrite members_below, <- He by lia. cbn [has].
  rewrite bms_int32; [done|]. pose proof (zlen_filter (fun y => has_words ws y = true) (seqZ 0 x)) as Hz.
  unfold zlen in Hz at 3. rewrite length_seqZ in Hz. lia.
Qed.

Lemma bits_first w p : 0 <= p < 64 -> Z.testbit w p = true -> (forall i, 0 <= i < p -> Z.testbit w i = false) ->
  bits w = p :: filter (fun i => Z.testbit w i = true) (seqZ (p + 1) (63 - p)).
Proof.
  intros Hp Hb Hz. unfold bits. rewrite (filter_first (Z.testbit w) 0 64 p) by done. do 3 f_equal. lia.
Qed.

Lemma bits_multiple w : wordp w -> w <> 0 ->
  if HAS_MULTIPLE_ONES w then 2 <= zlen (bits w) else bits w = [bmw_rightmost_one_pos w].
Proof.
  intros Hw Hne. destruct (rightmost_spec w Hw Hne) as (p & Hp & Hr & -> & Hb & Hz). rewrite (bits_first w p) by done.
  unfold HAS_MULTIPLE_ONES. rewrite Hr. destruct (Z.eqb_spec (2 ^ p) w) as [<-|Hpw]; cbn [negb].
  - rewrite (filter_none (Z.testbit (2 ^ p))); [done|]. intros z Hz'. rewrite Z.pow2_bits_eqb by lia. apply Z.eqb_neq. lia.
  - rewrite zlen_cons. destruct (filter _ _) as [|y l] eqn:Hf; [|rewrite zlen_cons; pose proof (zlen_nonneg l); lia].
    destruct Hpw. apply word_ext; [|done|].
    + apply wordp_bits; [|apply Z.pow_nonneg; lia]. intros i Hi. apply Z.pow2_bits_false. lia.
    + intros i Hi. rewrite Z.pow2_bits_eqb by lia. destruct (Z.eqb_spec p i) as [->|Hpi]; [done|].
      destruct (Z.testbit w i) eqn:Hbi; [|done]. destruct (Z.lt_ge_cases i p); [rewrite Hz in Hbi by lia; done|].
      assert (Hin : i ∈ filter (fun i => Z.testbit w i = true) (seqZ (p + 1) (63 - p))).
      { apply list_elem_of_filter. split; [done|]. apply elem_of_seqZ. lia. }
      rewrite Hf in Hin. by apply not_elem_of_nil in Hin.
Qed.

(** How many members, as far as the code tells. *)
Definition membership_of (l : list Z) : BMS_Membership :=
  match l with [] => BMS_EMPTY_SET | [_] => BMS_SINGLETON | _ => BMS_MULTIPLE end.

Lemma two_members (l : list Z) : 2 <= zlen l -> exists x y k, l = x :: y :: k.
Proof. unfold zlen. destruct l as [|x [|y k]]; cbn [length]; [lia|lia|eauto]. Qed.

Lemma membership_words_ok ws : words_ok ws ->
  membership_words ws BMS_EMPTY_SET = membership_of (members_words ws) /\
  membership_words ws BMS_SINGLETON = match members_words ws with [] => BMS_SINGLETON | _ => BMS_MULTIPLE end.
Proof.
  induction 1 as [|w ws Hw _ [IH1 IH2]]; [done|]. rewrite members_words_cons. cbn [membership_words].
  destruct (Z.eqb_spec w 0) as [->|Hne]; cbn [negb].
  - rewrite bits_0, IH1, IH2. by destruct (members_words ws) as [|x [|y l]].
  - pose proof (bits_multiple w Hw Hne) as Hm. destruct (HAS_MULTIPLE_ONES w); rewrite ?orb_true_r.
    + by destruct (two_members _ Hm) as (x & y & l & ->).
    + rewrite Hm. split; [|done]. change (negb _ || false) with false. cbn iota. rewrite IH2. by destruct (members_words ws).
Qed.

Lemma bms_membership_ok a : bms_ok a -> bms_membership a = membership_of (members a).
Proof. destruct a as [ws|]; [|done]. intros [Hw _]. apply (proj1 (membership_words_ok ws Hw)). Qed.

Lemma sole_member_ok ws n : words_ok ws -> 0 <= n -> 64 * (n + zlen ws) <= bms_limit ->
  sole_member ws n (-1) = match members_words ws with [] => Some (-1) | [x] => Some (64 * n + x) | _ => None end /\
  forall r, 0 <= r -> sole_member ws n r = match members_words ws with [] => Some r | _ => None end.
Proof.
  intros Hws. revert n. induction Hws as [|w ws Hw _ IH]; intros n Hn Hl; [done|]. rewrite members_words_cons. cbn [sole_member].
  rewrite zlen_cons in Hl. destruct (IH (n + 1)) as [IH1 IH2]; [lia|lia|]. pose proof (zlen_nonneg ws) as Hlen.
  destruct (Z.eqb_spec w 0) as [->|Hne]; cbn [negb].
  - rewrite bits_0, IH1. split; [|intros r Hr; rewrite IH2 by done; by destruct (members_words ws)].
    destruct (members_words ws) as [|x [|y l]]; [done| |done]. cbn. f_equal. lia.
  - pose proof (bits_multiple w Hw Hne) as Hm. destruct (rightmost_spec w Hw Hne) as (p & Hp & _ & Hpos & _). rewrite Hpos in *.
    destruct (HAS_MULTIPLE_ONES w); rewrite ?orb_true_r, ?orb_false_r.
    + destruct (two_members _ Hm) as (x & y & l & ->). split; [done|]. intros r _. by rewrite orb_true_r.
    + rewrite Hm. unfold BITS_PER_BITMAPWORD. rewrite (bms_int32 (n * 64)), bms_int32 by lia. cbn [Z.geb Z.compare].
      rewrite IH2 by lia. split; [destruct (members_words ws); cbn; [f_equal; lia|done]|].
      intros r Hr. by destruct (Z.geb_spec r 0); [|lia].
Qed.

Lemma bms_singleton_member_ok a : bms_ok a ->
  bms_singleton_member a =
    match members a with [] => Error "bitmapset is empty" | [x] => Ok x | _ => Error "bitmapset has multiple members" end /\
  bms_get_singleton_member a = match members a with [x] => Some x | _ => None end.
Proof.
  destruct a as [ws|]; [|done]. intros [Hw Hl]. unfold bms_singleton_member, bms_get_singleton_member. cbn [members].
  rewrite (proj1 (sole_member_ok ws 0 Hw ltac:(lia) ltac:(lia))).
  assert (Hpos : forall x, x ∈ members_words ws -> 0 <= x) by (intros x [_ Hx%elem_of_seqZ]%list_elem_of_filter; lia).
  destruct (members_words ws) as [|x [|y l]]; [done| |done]. specialize (Hpos x ltac:(left)). by destruct (Z.ltb_spec (64 * 0 + x) 0); [lia|].
Qed.

(** ** Iteration *)

(** The words of an array from word [n] on. *)
Lemma has_zdrop n ws x : 0 <= n -> 0 <= x -> has_words (zdrop n ws) x = has_words ws (64 * n + x).
Proof.
  intros Hn Hx. destruct (bit_position x Hx) as (He & Hi & Hb). rewrite He, has_bit by done.
  replace (64 * n + (64 * (x / 64) + x mod 64)) with (64 * (n + x / 64) + x mod 64) by lia. rewrite has_bit by lia.
  unfold word. by rewrite zget_zdrop by lia.
Qed.

Lemma next_words_ok ws n lo mask : words_ok ws -> 0 <= n -> 64 * (n + zlen ws) <= bms_limit -> 0 <= lo < 64 ->
  (forall k, 0 <= k < 64 -> Z.testbit mask k = (lo <=? k)) ->
  (next_words ws n mask = -2 /\ forall y, lo <= y -> has_words ws y = false) \/
  exists y, next_words ws n mask = 64 * n + y /\ lo <= y /\ has_words ws y = true /\ forall z, lo <= z < y -> has_words ws z = false.
Proof.
  intros Hws. revert n lo mask. induction Hws as [|w ws Hw Hws IH]; intros n lo mask Hn Hl Hlo Hmask; cbn [next_words].
  { left. split; [done|]. intros y _. unfold has_words. rewrite word_nil, Z.testbit_0_l. apply andb_false_r. }
  rewrite zlen_cons in Hl. pose proof (zlen_nonneg ws) as Hlen. destruct (Z.eqb_spec (Z.land w mask) 0) as [H0|Hne]; cbn [negb].
  - assert (Hlow : forall y, lo <= y < 64 -> Z.testbit w y = false).
    { intros y Hy. apply (f_equal (fun z => Z.testbit z y)) in H0. rewrite Z.land_spec, Hmask, Z.testbit_0_l in H0 by lia.
      destruct (Z.leb_spec lo y); [by rewrite andb_true_r in H0|lia]. }
    destruct (IH (n + 1) 0 all_ones) as [[-> Hy]|(y & -> & Hy & Hh & Hz)]; [lia|lia|lia|intros k Hk; rewrite ones_bits by done; symmetry; apply Z.leb_le; lia| |].
    + left. split; [done|]. intros y Hlow'. rewrite has_words_cons. destruct (Z.ltb_spec y 64); [rewrite Hlow by lia; apply andb_false_r|apply Hy; lia].
    + right. exists (y + 64). split; [lia|]. split; [lia|]. rewrite has_words_cons, Z.add_simpl_r. destruct (Z.ltb_spec (y + 64) 64); [lia|].
      split; [done|]. intros z Hz'. rewrite has_words_cons. destruct (Z.ltb_spec z 64); [rewrite Hlow by lia; apply andb_false_r|apply Hz; lia].
  - right. destruct (rightmost_spec (Z.land w mask)) as (p & Hp & _ & Hpos & Hb & Hz); [by apply wordp_land|done|]. exists p.
    rewrite Hpos. unfold BITS_PER_BITMAPWORD. rewrite (bms_int32 (n * 64)), bms_int32 by lia. rewrite Z.land_spec, Hmask in Hb by done.
    apply andb_true_iff in Hb as [Hb Hlop%Z.leb_le]. rewrite has_words_cons. destruct (Z.ltb_spec p 64), (Z.leb_spec 0 p); try lia.
    split; [lia|]. split; [done|]. split; [done|]. intros z Hz'. rewrite has_words_cons. specialize (Hz z ltac:(lia)).
    rewrite Z.land_spec, Hmask in Hz by lia. destruct (Z.ltb_spec z 64), (Z.leb_spec 0 z), (Z.leb_spec lo z); try lia. by rewrite andb_true_r in Hz.
Qed.

(** [bms_next_member] returns the smallest member above [x]. *)
Lemma bms_next_member_ok a x : bms_ok a -> -1 <= x < bms_limit ->
  exists r, bms_next_member a x = Ok r /\
    ((r = -2 /\ forall y, x < y -> has a y = false) \/
     (x < r /\ has a r = true /\ forall z, x < z < r -> has a z = false)).
Proof.
  intros Ha Hx. destruct a as [ws|]; [|exists (-2); split; [done|by left]]. destruct Ha as [Hw Hl]. unfold bms_next_member.
  rewrite bms_int32 by lia. destruct (Z.ltb_spec (x + 1) 0); [lia|]. rewrite WORDNUM_div, BITNUM_mod by lia.
  destruct (bit_position (x + 1)) as (He & Hi & Hb); [lia|]. set (n := (x + 1) / 64) in *. set (k := (x + 1) mod 64) in *.
  eexists. split; [reflexivity|]. cbn [has].
  destruct (Z.lt_ge_cases n (zlen ws)) as [Hlt|Hge].
  - destruct (next_words_ok (zdrop n ws) n k (bitmapword (Z.shiftl all_ones k))) as [[-> Hy]|(y & -> & Hy & Hh & Hz)].
    + by apply (words_ok_split n ws).
    + done.
    + unfold zdrop, zlen in *. rewrite length_drop. lia.
    + done.
    + intros j Hj. by apply from_bits.
    + left. split; [done|]. intros y Hxy. specialize (Hy (y - 64 * n) ltac:(lia)). rewrite has_zdrop in Hy by lia.
      by replace (64 * n + (y - 64 * n)) with y in Hy by lia.
    + right. rewrite has_zdrop in Hh by lia. split; [lia|]. split; [done|]. intros z Hz'. specialize (Hz (z - 64 * n) ltac:(lia)).
      rewrite has_zdrop in Hz by lia. by replace (64 * n + (z - 64 * n)) with z in Hz by lia.
  - left. assert (zdrop n ws = []) as -> by (unfold zdrop; apply drop_ge; unfold zlen in *; lia). split; [done|].
    intros y Hy. destruct (has_words ws y) eqn:Hh; [|done]. apply has_bound in Hh. lia.
Qed.

Lemma members_seq a : members a = filter (fun x => has a x = true) (seqZ 0 (64 * nwords a)).
Proof. by destruct a. Qed.

Lemma has_range a x : has a x = true -> 0 <= x < 64 * nwords a.
Proof. destruct a as [ws|]; [apply has_bound|done]. Qed.

Lemma nwords_limit a : bms_ok a -> 0 <= 64 * nwords a <= bms_limit.
Proof. destruct a as [ws|]; cbn; [intros [_ Hl]; lia|unfold bms_limit; lia]. Qed.

(** The loop from [x]: each call finds the next member; the fuel is the number
    of bits above [x]. *)
Lemma bms_loop_ok n a x : bms_ok a -> -1 <= x -> x + 1 <= 64 * nwords a -> 64 * nwords a - (x + 1) < Z.of_nat n ->
  bms_loop n a x = Ok (filter (fun y => has a y = true) (seqZ (x + 1) (64 * nwords a - (x + 1)))).
Proof.
  intros Ha. revert x. induction n as [|n IH]; intros x Hx Hle Hf; [lia|]. cbn [bms_loop]. pose proof (nwords_limit a Ha).
  destruct (bms_next_member_ok a x Ha) as (r & -> & [[-> Hn]|(Hr & Hh & Hz)]); [lia| |]; rewrite rbind_ret.
  - cbn [Z.geb Z.compare]. rewrite filter_none; [done|]. intros z Hz. apply Hn. lia.
  - apply has_range in Hh as Hb. destruct (Z.geb_spec r 0); [|lia].
    rewrite IH, rbind_ret by lia. rewrite (filter_first _ (x + 1) _ r) by (done || lia || (intros; apply Hz; lia)).
    do 4 f_equal; lia.
Qed.

(** ** Backwards *)

Lemma filter_last (P : Z -> bool) n r : 0 <= r < n -> P r = true -> (forall z, r < z < n -> P z = false) ->
  filter (fun x => P x = true) (seqZ 0 n) = filter (fun x => P x = true) (seqZ 0 r) ++ [r].
Proof.
  intros Hr Hp Hz. replace n with (r + (n - r)) by lia. rewrite seqZ_app, filter_app, Z.add_0_l by lia.
  rewrite (filter_first P r (n - r) r) by (done || lia). rewrite (filter_none P (r + 1)); [done|]. intros; apply Hz; lia.
Qed.

Lemma prev_words_ok n ws hi mask : words_ok ws -> Z.of_nat n <= zlen ws -> 64 * zlen ws <= bms_limit -> 0 <= hi < 64 ->
  (forall k, 0 <= k < 64 -> Z.testbit mask k = (k <=? hi)) ->
  let top := 64 * (Z.of_nat n - 1) + hi in
  exists r, prev_words n ws mask = Ok r /\
    ((r = -2 /\ forall y, y <= top -> has_words ws y = false) \/
     (0 <= r <= top /\ has_words ws r = true /\ forall z, r < z <= top -> has_words ws z = false)).
Proof.
  intros Hw. revert hi mask. induction n as [|n IH]; intros hi mask Hn Hl Hhi Hmask; cbv zeta; cbn [prev_words].
  { exists (-2). split; [done|]. left. split; [done|]. intros y Hy. destruct (has_words ws y) eqn:Hh; [|done]. apply has_bound in Hh. lia. }
  destruct (zget_is_Some ws (Z.of_nat n)) as [w Hg]; [lia|]. rewrite (aget_Ok _ _ _ Hg), rbind_ret.
  assert (word ws (Z.of_nat n) = w) as Hwn by (unfold word; by rewrite Hg).
  assert (Hwp : wordp w) by (rewrite <- Hwn; by apply word_ok).
  assert (Hbit : forall z, 64 * Z.of_nat n <= z < 64 * (Z.of_nat n + 1) -> has_words ws z = Z.testbit w (z - 64 * Z.of_nat n)).
  { intros z Hz. replace z with (64 * Z.of_nat n + (z - 64 * Z.of_nat n)) at 1 by lia. rewrite has_bit by lia. by rewrite Hwn. }
  replace (Z.of_nat (S n) - 1) with (Z.of_nat n) by lia.
  destruct (Z.eqb_spec (Z.land w mask) 0) as [H0|Hne]; cbn [negb].
  - assert (Hlow : forall z, 64 * Z.of_nat n <= z <= 64 * Z.of_nat n + hi -> has_words ws z = false).
    { intros z Hz. rewrite Hbit by lia. apply (f_equal (fun v => Z.testbit v (z - 64 * Z.of_nat n))) in H0.
      rewrite Z.land_spec, Hmask, Z.testbit_0_l in H0 by lia.
      destruct (Z.leb_spec (z - 64 * Z.of_nat n) hi); [by rewrite andb_true_r in H0|lia]. }
    destruct (IH 63 all_ones) as (r & -> & Hr); [lia|done|lia|intros k Hk; rewrite ones_bits by done; symmetry; apply Z.leb_le; lia|].
    exists r. split; [done|]. destruct Hr as [[-> Hr]|(Hr & Hh & Hz)]; [left|right].
    + split; [done|]. intros y Hy. destruct (Z.lt_ge_cases y (64 * Z.of_nat n)); [apply Hr; lia|apply Hlow; lia].
    + split; [lia|]. split; [done|]. intros z Hz'. destruct (Z.lt_ge_cases z (64 * Z.of_nat n)); [apply Hz; lia|apply Hlow; lia].
  - destruct (leftmost_spec (Z.land w mask)) as (Hp & Hb & Hz); [by apply wordp_land|done|]. set (p := bmw_leftmost_one_pos _) in *.
    unfold BITS_PER_BITMAPWORD. rewrite (bms_int32 (Z.of_nat n * 64)), bms_int32 by lia. eexists. split; [reflexivity|]. right.
    rewrite Z.land_spec, Hmask in Hb by done. apply andb_true_iff in Hb as [Hb Hph%Z.leb_le].
    split; [lia|]. split; [rewrite Hbit by lia; by replace (Z.of_nat n * 64 + p - 64 * Z.of_nat n) with p by lia|].
    intros z Hz'. rewrite Hbit by lia. specialize (Hz (z - 64 * Z.of_nat n) ltac:(lia)). rewrite Z.land_spec, Hmask in Hz by lia.
    destruct (Z.leb_spec (z - 64 * Z.of_nat n) hi); [by rewrite andb_true_r in Hz|lia].
Qed.

(** [bms_prev_member] returns the largest member below [x], or of the set if
    [x] is -1. *)
Lemma bms_prev_member_ok a x : bms_ok a -> -1 <= x <= 64 * nwords a ->
  let top := if x =? -1 then 64 * nwords a else x in
  exists r, bms_prev_member a x = Ok r /\
    ((r = -2 /\ forall y, y < top -> has a y = false) \/
     (0 <= r < top /\ has a r = true /\ forall z, r < z < top -> has a z = false)).
Proof.
  intros Ha Hx. cbv zeta. destruct a as [ws|]; [|exists (-2); split; [done|by left]]. destruct Ha as [Hw Hl]. cbn [nwords has] in *.
  unfold bms_prev_member. destruct (Z.eqb_spec x 0) as [->|Hx0].
  { exists (-2). split; [done|]. left. split; [done|]. cbn. intros y Hy. destruct (has_words ws y) eqn:Hh; [|done]. apply has_bound in Hh. lia. }
  set (top := if x =? -1 then 64 * zlen ws else x).
  assert (Htop : 0 < top <= 64 * zlen ws) by (subst top; destruct (Z.eqb_spec x (-1)); lia).
  assert (Heq : (if x =? -1 then int32 (int32 (zlen ws * BITS_PER_BITMAPWORD) - 1) else int32 (x - 1)) = top - 1).
  { subst top. unfold BITS_PER_BITMAPWORD. destruct (Z.eqb_spec x (-1)); [rewrite (bms_int32 (zlen ws * 64))|]; rewrite ?bms_int32; lia. }
  rewrite Heq, WORDNUM_div, BITNUM_mod by lia. destruct (bit_position (top - 1)) as (He & Hi & Hb); [lia|].
  destruct (Z.ltb_spec ((top - 1) mod 64) 0); [lia|].
  destruct (prev_words_ok (Z.to_nat ((top - 1) / 64 + 1)) ws ((top - 1) mod 64)
              (Z.shiftr all_ones (BITS_PER_BITMAPWORD - ((top - 1) mod 64 + 1)))) as (r & Hrun & Hr); [done|lia|lia|lia|intros k Hk; by apply upto_bits|].
  exists r. split; [exact Hrun|]. rewrite Z2Nat.id in Hr by lia.
  replace (64 * ((top - 1) / 64 + 1 - 1) + (top - 1) mod 64) with (top - 1) in Hr by lia.
  destruct Hr as [[-> Hr]|(Hr & Hh & Hz)]; [left|right]; [split; [done|intros; apply Hr; lia]|].
  split; [lia|]. split; [done|]. intros z Hz'. apply Hz. lia.
Qed.

Lemma bms_prev_loop_ok n a x : bms_ok a -> -1 <= x <= 64 * nwords a ->
  let top := if x =? -1 then 64 * nwords a else x in
  top < Z.of_nat n -> bms_prev_loop n a x = Ok (reverse (filter (fun y => has a y = true) (seqZ 0 top))).
Proof.
  intros Ha. revert x. induction n as [|n IH]; intros x Hx top Hf.
  { exfalso. subst top. pose proof (nwords_limit a Ha). destruct (Z.eqb_spec x (-1)); lia. }
  cbn [bms_prev_loop]. destruct (bms_prev_member_ok a x Ha Hx) as (r & -> & Hr). fold top in Hr. rewrite rbind_ret.
  destruct Hr as [[-> Hn]|(Hr & Hh & Hz)].
  - cbn [Z.geb Z.compare]. rewrite filter_none; [done|]. intros z Hz. apply Hn. lia.
  - apply has_range in Hh as Hb. destruct (Z.geb_spec r 0); [|lia]. specialize (IH r ltac:(lia)). cbv zeta in IH.
    destruct (Z.eqb_spec r (-1)); [lia|]. rewrite IH, rbind_ret by lia.
    by rewrite (filter_last _ top r), reverse_app by done.
Qed.

(** ** The destructive iterator *)

Lemma rightmost_pow p : 0 <= p < 64 -> bmw_rightmost_one_pos (2 ^ p) = p.
Proof.
  intros Hp. assert (Hw : wordp (2 ^ p)).
  { apply wordp_bits; [|apply Z.pow_nonneg; lia]. intros i Hi. apply Z.pow2_bits_false. lia. }
  destruct (rightmost_spec (2 ^ p) Hw) as (q & Hq & _ & -> & Hb & _); [pose proof (Z.pow_pos_nonneg 2 p); lia|].
  rewrite Z.pow2_bits_eqb in Hb by lia. apply Z.eqb_eq in Hb. done.
Qed.

Lemma first_words_ok ws n : words_ok ws -> 0 <= n -> 64 * (n + zlen ws) <= bms_limit ->
  let '(r, ws') := first_words ws n in
  words_ok ws' /\ zlen ws' = zlen ws /\
  ((r = -1 /\ forall y, has_words ws y = false /\ has_words ws' y = false) \/
   exists y, r = 64 * n + y /\ has_words ws y = true /\ (forall z, z < y -> has_words ws z = false) /\
     forall z, has_words ws' z = has_words ws z && negb (z =? y)).
Proof.
  intros Hws. revert n. induction Hws as [|w ws Hw Hws IH]; intros n Hn Hl; cbn [first_words].
  { split; [constructor|]. split; [done|]. left. split; [done|]. intros y. unfold has_words. by rewrite word_nil, Z.testbit_0_l, andb_false_r. }
  rewrite zlen_cons in Hl. pose proof (zlen_nonneg ws) as Hlen. destruct (Z.eqb_spec w 0) as [->|Hne]; cbn [negb].
  - specialize (IH (n + 1) ltac:(lia) ltac:(lia)). destruct (first_words ws (n + 1)) as [r ws']. destruct IH as (Hok & Hlen' & Hr).
    split; [by constructor|]. split; [by rewrite !zlen_cons, Hlen'|]. destruct Hr as [[-> Hr]|(y & -> & Hh & Hz & Hd)]; [left|right].
    + split; [done|]. intros y. rewrite !has_words_cons, Z.testbit_0_l. destruct (Z.ltb_spec y 64); [by rewrite andb_false_r|apply Hr].
    + assert (Hpos : 0 <= y) by (apply has_bound in Hh; lia). exists (y + 64). rewrite has_words_cons, Z.add_simpl_r. split; [lia|].
      destruct (Z.ltb_spec (y + 64) 64); [lia|]. split; [done|]. split.
      * intros z Hzy. rewrite has_words_cons, Z.testbit_0_l. destruct (Z.ltb_spec z 64); [apply andb_false_r|apply Hz; lia].
      * intros z. rewrite !has_words_cons, Z.testbit_0_l, Hd. destruct (Z.ltb_spec z 64); [by rewrite andb_false_r|]. do 2 f_equal.
        destruct (Z.eqb_spec (z - 64) y), (Z.eqb_spec z (y + 64)); done || lia.
  - destruct (rightmost_spec w Hw Hne) as (p & Hp & Hr & _ & Hb & Hz). rewrite Hr, rightmost_pow by done.
    unfold BITS_PER_BITMAPWORD. rewrite (bms_int32 (n * 64)), bms_int32 by lia.
    split; [constructor; [by apply wordp_land|done]|]. split; [by rewrite !zlen_cons|]. right. exists p. split; [lia|].
    rewrite has_words_cons. destruct (Z.ltb_spec p 64), (Z.leb_spec 0 p); try lia. split; [done|]. split.
    + intros z Hzp. rewrite has_words_cons. destruct (Z.ltb_spec z 64), (Z.leb_spec 0 z); try done; try lia. apply Hz. lia.
    + intros z. rewrite !has_words_cons. destruct (Z.ltb_spec z 64), (Z.leb_spec 0 z); cbn [andb]; try done; try lia.
      * rewrite Z.land_spec, not_bits, Z.pow2_bits_eqb by lia. by rewrite Z.eqb_sym.
      * destruct (Z.eqb_spec z p); [lia|]. by rewrite andb_true_r.
Qed.

Lemma bms_first_member_ok a : bms_ok a ->
  let '(r, a') := bms_first_member a in
  bms_ok a' /\ nwords a' = nwords a /\
  ((r = -1 /\ forall y, has a y = false /\ has a' y = false) \/
   (has a r = true /\ (forall z, z < r -> has a z = false) /\ forall z, has a' z = has a z && negb (z =? r))).
Proof.
  destruct a as [ws|]; [|intros _; split; [done|]; split; [done|]; by left]. intros [Hw Hl]. cbn [bms_first_member].
  pose proof (first_words_ok ws 0 Hw ltac:(lia) ltac:(lia)) as Hf. destruct (first_words ws 0) as [r ws']. destruct Hf as (Hok & Hlen & Hr).
  split; [split; [done|lia]|]. split; [done|]. destruct Hr as [Hr|(y & -> & Hr)]; [by left|right]. cbn [Z.mul Z.add]. exact Hr.
Qed.

Lemma bms_first_loop_ok n a : bms_ok a -> zlen (members a) < Z.of_nat n ->
  exists a', bms_first_loop n a = Ok (members a, a') /\ forall y, has a' y = false.
Proof.
  revert a. induction n as [|n IH]; intros a Ha Hf; [pose proof (zlen_nonneg (members a)); lia|]. cbn [bms_first_loop].
  pose proof (bms_first_member_ok a Ha) as Hm. destruct (bms_first_member a) as [r a']. destruct Hm as (Ha' & Hn & [[-> Hr]|(Hh & Hz & Hd)]).
  - exists a'. split; [|intros y; apply Hr]. cbn [Z.geb Z.compare]. rewrite members_seq, filter_none; [done|]. intros z _. apply Hr.
  - apply has_range in Hh as Hb. destruct (Z.geb_spec r 0); [|lia].
    assert (Hmem : members a = r :: members a').
    { rewrite !members_seq, Hn. rewrite (filter_first _ 0 _ r) by (done || lia || (intros; apply Hz; lia)). f_equal.
      replace (64 * nwords a) with ((r + 1) + (64 * nwords a - r - 1)) at 2 by lia. rewrite seqZ_app, filter_app by lia.
      rewrite (filter_none (has a')), app_nil_l, !Z.add_0_l.
      - apply filter_ext_in. intros z Hin%elem_of_seqZ. rewrite Hd. destruct (Z.eqb_spec z r); [lia|]. by rewrite andb_true_r.
      - intros z Hin. rewrite Hd. destruct (Z.eqb_spec z r) as [->|]; [apply andb_false_r|]. rewrite Hz by lia. done. }
    destruct (IH a' Ha') as (a'' & -> & Hempty); [rewrite Hmem, zlen_cons in Hf; lia|]. rewrite rbind_ret, Hmem. eauto.
Qed.

(** ** Combining sets keeps them well formed *)

Lemma bms_ok_merge f r o : bms_ok (Some r) -> words_ok o -> (forall v w, wordp v -> wordp w -> wordp (f v w)) ->
  bms_ok (Some (merge_words f r o)).
Proof. intros [Hr Hl] Ho Hf. split; [by apply words_ok_merge|by rewrite length_merge]. Qed.

#[export] Hint Resolve bms_ok_merge : bmsdb.

Lemma bms_union_ok a b : bms_ok a -> bms_ok b -> bms_ok (bms_union a b).
Proof. destruct a as [aw|], b as [bw|]; try done. intros Ha Hb. cbn. case_match; apply bms_ok_merge; (done || apply Ha || apply Hb || auto with bmsdb). Qed.

Lemma bms_add_members_ok a b : bms_ok a -> bms_ok b -> bms_ok (bms_add_members a b).
Proof. destruct a as [aw|], b as [bw|]; try done. intros Ha Hb. cbn. case_match; apply bms_ok_merge; (done || apply Ha || apply Hb || auto with bmsdb). Qed.

Lemma bms_intersect_ok a b : bms_ok a -> bms_ok b -> bms_ok (bms_intersect a b).
Proof. destruct a as [aw|], b as [bw|]; try done. intros Ha Hb. cbn. case_match; apply bms_ok_merge; (done || apply Ha || apply Hb || auto with bmsdb). Qed.

Lemma bms_difference_ok a b : bms_ok a -> bms_ok b -> bms_ok (bms_difference a b).
Proof. destruct a as [aw|], b as [bw|]; try done. intros Ha Hb. cbn. apply bms_ok_merge; (done || apply Hb || auto with bmsdb). Qed.

Lemma bms_int_members_ok a b : bms_ok a -> bms_ok b -> bms_ok (bms_int_members a b).
Proof.
  destruct a as [aw|], b as [bw|]; try done. intros [Ha Hl] [Hb Hlb]. cbn. split.
  - apply words_ok_pad, words_ok_merge; [by apply words_ok_split|done|auto with bmsdb].
  - rewrite zlen_app, length_merge. unfold ztake, zlen in *. rewrite length_take, length_replicate. lia.
Qed.

(** ** Sets built by the operations *)

(** A computation of a set.  The operations that recycle an argument consume
    it, as an expression tree does. *)
Inductive bms_expr :=
| Null
| Copy (e : bms_expr)
| Singleton (x : Z)
| Union (e1 e2 : bms_expr)
| Intersect (e1 e2 : bms_expr)
| Difference (e1 e2 : bms_expr)
| AddMember (e : bms_expr) (x : Z)
| DelMember (e : bms_expr) (x : Z)
| AddRange (e : bms_expr) (lower upper : Z)
| AddMembers (e1 e2 : bms_expr)
| IntMembers (e1 e2 : bms_expr)
| DelMembers (e1 e2 : bms_expr)
| Join (e1 e2 : bms_expr).

Fixpoint run (e : bms_expr) : res Bitmapset :=
  match e with
  | Null => Ok None
  | Copy e => do! a <- run e ;; Ok (bms_copy a)
  | Singleton x => bms_make_singleton x
  | Union e1 e2 => do! a <- run e1 ;; do! b <- run e2 ;; Ok (bms_union a b)
  | Intersect e1 e2 => do! a <- run e1 ;; do! b <- run e2 ;; Ok (bms_intersect a b)
  | Difference e1 e2 => do! a <- run e1 ;; do! b <- run e2 ;; Ok (bms_difference a b)
  | AddMember e x => do! a <- run e ;; bms_add_member a x
  | DelMember e x => do! a <- run e ;; bms_del_member a x
  | AddRange e lower upper => do! a <- run e ;; bms_add_range a lower upper
  | AddMembers e1 e2 => do! a <- run e1 ;; do! b <- run e2 ;; Ok (bms_add_members a b)
  | IntMembers e1 e2 => do! a <- run e1 ;; do! b <- run e2 ;; Ok (bms_int_members a b)
  | DelMembers e1 e2 => do! a <- run e1 ;; do! b <- run e2 ;; Ok (bms_del_members a b)
  | Join e1 e2 => do! a <- run e1 ;; do! b <- run e2 ;; Ok (bms_join a b)
  end.

(** The set it stands for; [None] if a negative member is named. *)
Definition both (f : gset Z -> gset Z -> gset Z) (s1 s2 : option (gset Z)) : option (gset Z) :=
  match s1, s2 with Some s1, Some s2 => Some (f s1 s2) | _, _ => None end.

Fixpoint denote (e : bms_expr) : option (gset Z) :=
  match e with
  | Null => Some ∅
  | Copy e => denote e
  | Singleton x => if x <? 0 then None else Some {[x]}
  | Union e1 e2 | AddMembers e1 e2 | Join e1 e2 => both (∪) (denote e1) (denote e2)
  | Intersect e1 e2 | IntMembers e1 e2 => both (∩) (denote e1) (denote e2)
  | Difference e1 e2 | DelMembers e1 e2 => both (∖) (denote e1) (denote e2)
  | AddMember e x => if x <? 0 then None else both (∪) (denote e) (Some {[x]})
  | DelMember e x => if x <? 0 then None else both (∖) (denote e) (Some {[x]})
  | AddRange e lower upper =>
    if upper <? lower then denote e
    else if lower <? 0 then None
    else both (∪) (denote e) (Some (list_to_set (seqZ lower (upper - lower + 1))))
  end.

(** The members named are below [bms_limit]. *)
Fixpoint small (e : bms_expr) : bool :=
  match e with
  | Null => true
  | Copy e => small e
  | Singleton x => x <? bms_limit
  | AddMember e x | DelMember e x | AddRange e _ x => small e && (x <? bms_limit)
  | Union e1 e2 | Intersect e1 e2 | Difference e1 e2 | AddMembers e1 e2 | IntMembers e1 e2 | DelMembers e1 e2 | Join e1 e2 =>
    small e1 && small e2
  end.

Definition represents (a : Bitmapset) (s : gset Z) : Prop := bms_ok a /\ forall x, x ∈ s <-> has a x = true.

(** The outcome of a computation against the set it should build. *)
Definition builds (r : res Bitmapset) (s : option (gset Z)) : Prop :=
  match s with Some s => exists a, r = Ok a /\ represents a s | None => r = no_negative end.

Lemma represents_to_set a s : represents a s -> to_set a = s.
Proof. intros [_ Hs]. apply set_eq. intros x. by rewrite elem_to_set, Hs. Qed.

Lemma to_set_represents a : bms_ok a -> represents a (to_set a).
Proof. intros Ha. split; [done|]. apply elem_to_set. Qed.

Lemma builds_both (op : Bitmapset -> Bitmapset -> Bitmapset) f r1 r2 s1 s2 :
  builds r1 s1 -> builds r2 s2 -> (forall a b s t, represents a s -> represents b t -> represents (op a b) (f s t)) ->
  builds (do! a <- r1 ;; do! b <- r2 ;; Ok (op a b)) (both f s1 s2).
Proof.
  intros H1 H2 Hop. destruct s1 as [s1|]; [|cbn in *; by rewrite H1]. destruct H1 as (a & -> & Ha). rewrite rbind_ret.
  destruct s2 as [s2|]; [|cbn in *; by rewrite H2]. destruct H2 as (b & -> & Hb). rewrite rbind_ret. exists (op a b). split; [done|]. by apply Hop.
Qed.

Lemma builds_step (op : Bitmapset -> res Bitmapset) (f : gset Z -> gset Z -> gset Z) t r s :
  builds r s -> (forall a s, represents a s -> exists a', op a = Ok a' /\ represents a' (f s t)) ->
  builds (do! a <- r ;; op a) (both f s (Some t)).
Proof.
  intros H1 Hop. destruct s as [s|]; [|cbn in *; by rewrite H1]. destruct H1 as (a & -> & Ha). rewrite rbind_ret. by apply Hop.
Qed.

Lemma builds_fails (op : Bitmapset -> res Bitmapset) r s :
  builds r s -> (forall a, op a = no_negative) -> builds (do! a <- r ;; op a) None.
Proof. intros H1 Hop. cbn. destruct s as [s|]; [destruct H1 as (a & -> & _); apply Hop|cbn in H1; by rewrite H1]. Qed.

(** Membership in the three set operations, bit by bit. *)
Ltac solve_represents lem :=
  intros a b s t [Ha Hs] [Hb Ht]; split; [auto using bms_union_ok, bms_add_members_ok, bms_intersect_ok, bms_difference_ok, bms_int_members_ok|];
  intros x; rewrite lem by done; rewrite ?elem_of_union, ?elem_of_intersection, ?elem_of_difference, Hs, Ht;
  destruct (has a x), (has b x); cbn; naive_solver.

Lemma run_builds e : small e = true -> builds (run e) (denote e).
Proof.
  induction e; cbn [small run denote]; rewrite ?andb_true_iff, ?Z.ltb_lt; intros Hsm; destruct_and?.
  - exists None. split; [done|]. split; [done|]. set_solver.
  - specialize (IHe Hsm). destruct (denote e); cbn in *; [destruct IHe as (a & -> & Ha); rewrite rbind_ret; by exists a|by rewrite IHe].
  - unfold bms_make_singleton. destruct (Z.ltb_spec x 0); [done|]. destruct (bms_make_singleton_ok x) as (a & Hrun & Ha & Hh); [lia|].
    exists a. split; [by unfold bms_make_singleton in Hrun; destruct (Z.ltb_spec x 0); [lia|]|]. split; [done|]. intros y. rewrite Hh, Z.eqb_eq. set_solver.
  - apply builds_both; auto. solve_represents bms_union_has.
  - apply builds_both; auto. solve_represents bms_intersect_has.
  - apply builds_both; auto. solve_represents bms_difference_has.
  - destruct (Z.ltb_spec x 0).
    + apply (builds_fails _ _ (denote e)); [auto|]. intros a. unfold bms_add_member. by destruct (Z.ltb_spec x 0); [|lia].
    + apply builds_step; [auto|]. intros a s [Ha Hs]. destruct (bms_add_member_ok a x Ha) as (a' & -> & Ha' & Hh); [lia|].
      exists a'. split; [done|]. split; [done|]. intros y. rewrite Hh, elem_of_union, elem_of_singleton, Hs, orb_true_iff, Z.eqb_eq. tauto.
  - destruct (Z.ltb_spec x 0).
    + apply (builds_fails _ _ (denote e)); [auto|]. intros a. unfold bms_del_member. by destruct (Z.ltb_spec x 0); [|lia].
    + apply builds_step; [auto|]. intros a s [Ha Hs]. destruct (bms_del_member_ok a x Ha) as (a' & -> & Ha' & Hh); [lia|].
      exists a'. split; [done|]. split; [done|]. intros y. rewrite Hh, elem_of_difference, elem_of_singleton, Hs, andb_true_iff, negb_true_iff, Z.eqb_neq. tauto.
  - destruct (Z.ltb_spec upper lower).
    + specialize (IHe ltac:(done)). unfold bms_add_range. destruct (Z.ltb_spec upper lower); [|lia].
      destruct (denote e); cbn in *; [destruct IHe as (a & -> & Ha); rewrite rbind_ret; by exists a|by rewrite IHe].
    + destruct (Z.ltb_spec lower 0).
      * apply (builds_fails _ _ (denote e)); [auto|]. intros a. unfold bms_add_range. by destruct (Z.ltb_spec upper lower), (Z.ltb_spec lower 0); try lia.
      * apply builds_step; [auto|]. intros a s [Ha Hs]. destruct (bms_add_range_ok a lower upper Ha) as (a' & -> & Ha' & Hh); [lia|lia|].
        exists a'. split; [done|]. split; [done|]. intros y.
        rewrite Hh, elem_of_union, elem_of_list_to_set, elem_of_seqZ, Hs, orb_true_iff, andb_true_iff, !Z.leb_le.
        destruct (has a y); naive_solver lia.
  - apply builds_both; auto. solve_represents bms_add_members_has.
  - apply builds_both; auto. solve_represents bms_int_members_has.
  - apply builds_both; auto. solve_represents bms_del_members_has.
  - apply builds_both; auto. solve_represents bms_join_has.
Qed.

(** [bms_add_range(NULL, 0, n - 1)], read in order. *)
Lemma bms_range_loop n a f : 0 <= n <= bms_limit -> bms_add_range None 0 (n - 1) = Ok a -> 64 * nwords a < Z.of_nat f ->
  bms_loop f a (-1) = Ok (seqZ 0 n).
Proof.
  intros Hn Hrun Hf. destruct (bms_add_range_ok None 0 (n - 1)) as (a' & Hrun' & Ha & Hh); [done|lia|lia|].
  assert (a' = a) as -> by congruence. pose proof (nwords_limit a Ha) as Hl. rewrite bms_loop_ok by (done || lia). f_equal.
  assert (Hin : forall x, has a x = ((0 <=? x) && (x <=? n - 1))) by (intros x; by rewrite Hh, orb_false_r).
  assert (Hna : n <= 64 * nwords a).
  { destruct (Z.eq_dec n 0); [lia|]. pose proof (has_range a (n - 1)) as Hr. rewrite Hin in Hr.
    destruct (Z.leb_spec 0 (n - 1)), (Z.leb_spec (n - 1) (n - 1)); lia. }
  replace (64 * nwords a - (-1 + 1)) with (n + (64 * nwords a - n)) by lia. rewrite seqZ_app, filter_app by lia.
  rewrite (filter_none (has a) (-1 + 1 + n)), app_nil_r.
  - apply filter_all. intros x Hx%elem_of_seqZ. rewrite Hin. by destruct (Z.leb_spec 0 x), (Z.leb_spec x (n - 1)); try lia.
  - intros x Hx. rewrite Hin. by destruct (Z.leb_spec 0 x), (Z.leb_spec x (n - 1)); try lia.
Qed.

Lemma same_sets a b : to_set a = to_set b <-> forall x, has a x = has b x.
Proof.
  rewrite set_eq. setoid_rewrite elem_to_set. split; intros Hx x; specialize (Hx x); [|by rewrite Hx].
  destruct (has a x), (has b x); naive_solver.
Qed.

Lemma bms_value_eq a b : bms_ok a -> bms_ok b -> (bms_value a = bms_value b <-> forall x, has a x = has b x).
Proof.
  assert (Hw : forall a, bms_ok a -> words_ok (default [] a)) by (intros [ws|] Ha; [apply Ha|constructor]).
  assert (Hv : forall a, bms_value a = value_words (default [] a)) by (by intros [ws|]).
  assert (Hh : forall a x, has a x = has_words (default [] a) x).
  { intros [ws|] x; [done|]. cbn. unfold has_words. by rewrite word_nil, Z.testbit_0_l, andb_false_r. }
  intros Ha Hb. rewrite !Hv, value_words_eq, words_equal by auto. setoid_rewrite Hh. done.
Qed.

Lemma sign_of_opp c : sign_of (CompOpp c) = - sign_of c.
Proof. by destruct c. Qed.

(** C19. Every computation of a set by the functions of bitmapset.c (make, copy,
    union, intersection, difference, add and delete one, many or a range of
    members, and the variants that recycle an argument) succeeds with a
    well-formed array that holds exactly the members of the mathematical set,
    and raises the negative-member error exactly when a negative member is
    named, for all members below the limit of [int]. *)
Theorem bms_expressions_build_sets e :
  small e = true ->
  match denote e with
  | Some s => exists a, run e = Ok a /\ bms_ok a /\ to_set a = s
  | None => run e = no_negative
  end.
Proof.
  intros He. pose proof (run_builds e He) as Hb. destruct (denote e) as [s|]; [|exact Hb].
  destruct Hb as (a & Hrun & Hr). exists a. split; [done|]. split; [apply Hr|by apply represents_to_set].
Qed.

(** Two words, a range across them, and the same set without its high word. *)
Definition demo_expr : bms_expr := DelMember (AddRange (AddMember (Singleton 130) 3) 60 66) 64.
Definition demo_set : Bitmapset := match run demo_expr with Ok a => a | _ => None end.
Definition demo_low : Bitmapset := match run (Intersect demo_expr (AddRange Null 0 69)) with Ok a => a | _ => None end.

Lemma bms_expressions_build_sets_witness :
  small demo_expr = true /\ denote demo_expr = Some (list_to_set [3; 60; 61; 62; 63; 65; 66; 130]) /\
  exists a, run demo_expr = Ok a /\ bms_ok a /\ to_set a = list_to_set [3; 60; 61; 62; 63; 65; 66; 130].
Proof.
  split; [reflexivity|]. assert (Hd : denote demo_expr = Some (list_to_set [3; 60; 61; 62; 63; 65; 66; 130])) by (vm_compute; reflexivity).
  split; [exact Hd|]. pose proof (bms_expressions_build_sets demo_expr eq_refl) as Hw. rewrite Hd in Hw. exact Hw.
Defined.

Lemma demo_set_ok : bms_ok demo_set /\ bms_ok demo_low.
Proof.
  assert (Hd : demo_set = Some [17293822569102704648; 6; 4]) by (vm_compute; reflexivity).
  assert (Hl : demo_low = Some [17293822569102704648; 6]) by (vm_compute; reflexivity).
  rewrite Hd, Hl. unfold bms_ok, words_ok, wordp, bms_limit, zlen. cbn [length]. split; (split; [|lia]); repeat constructor; lia.
Qed.

(** C21. The questions of bitmapset.c decide the relations of the sets, whatever
    the lengths of the arrays and the zero words at their ends: emptiness,
    equality, inclusion, the four-way comparison, overlap, difference and
    membership.  [bms_compare] is a total order on the sets, and equal sets have
    equal hash values, as a hash table keyed by sets needs. *)
Theorem bms_questions_decide hash_any a b c :
  bms_ok a -> bms_ok b -> bms_ok c ->
  (bms_is_empty a = true <-> to_set a = ∅) /\
  (bms_equal a b = true <-> to_set a = to_set b) /\
  (bms_is_subset a b = true <-> to_set a ⊆ to_set b) /\
  bms_subset_compare a b = comparison_of (bms_is_subset a b) (bms_is_subset b a) /\
  (bms_overlap a b = true <-> ~ to_set a ## to_set b) /\
  (bms_nonempty_difference a b = true <-> ~ to_set a ⊆ to_set b) /\
  (forall x, bms_is_member x a = if x <? 0 then no_negative else Ok (bool_decide (x ∈ to_set a))) /\
  (forall l, Forall (fun x => 0 <= x) l -> bms_overlap_list a l = Ok (existsb (fun x => bool_decide (x ∈ to_set a)) l)) /\
  (bms_compare a b = 0 <-> to_set a = to_set b) /\
  bms_compare b a = - bms_compare a b /\
  (bms_compare a b <= 0 -> bms_compare b c <= 0 -> bms_compare a c <= 0) /\
  (to_set a = to_set b -> bitmap_hash hash_any a = bitmap_hash hash_any b) /\
  (bitmap_match a b = 0 <-> to_set a = to_set b).
Proof.
  intros Ha Hb Hc. assert (Hsub : forall a b, (forall x, has a x = true -> has b x = true) <-> to_set a ⊆ to_set b).
  { intros u v. unfold subseteq, set_subseteq_instance. by setoid_rewrite elem_to_set. }
  assert (Hmem : forall x, has a x = bool_decide (x ∈ to_set a)).
  { intros x. destruct (has a x) eqn:Hx; symmetry; [apply bool_decide_eq_true|apply bool_decide_eq_false]; rewrite elem_to_set; congruence. }
  assert (Hsign : forall u v, sign_of (u ?= v) <= 0 <-> u <= v) by (intros u v; destruct (Z.compare_spec u v); cbn; lia).
  rewrite !(bms_compare_value _ _) by done. rewrite !same_sets, (Z.compare_antisym (bms_value a) (bms_value b)), sign_of_opp, !Hsign.
  pose proof (bms_equal_has a b Ha Hb) as Heq. pose proof (bms_is_subset_has a b Ha Hb) as Hs. rewrite Hsub in Hs.
  split_and!.
  - rewrite bms_is_empty_has by done. split; [intros Hx; apply set_eq; intros x; rewrite elem_to_set, Hx; set_solver|].
    intros He x. rewrite Hmem, He. by apply bool_decide_eq_false.
  - exact Heq.
  - exact Hs.
  - apply bms_subset_compare_flags.
  - pose proof (bms_overlap_has a b Ha Hb) as Ho. assert (Hd : to_set a ## to_set b <-> forall x, has a x && has b x = false).
    { unfold disjoint, set_disjoint_instance. setoid_rewrite elem_to_set. split; intros Hx x; specialize (Hx x); destruct (has a x), (has b x); naive_solver. }
    rewrite Hd, <- Ho. destruct (bms_overlap a b); naive_solver.
  - rewrite bms_nonempty_difference_has, <- Hs by done. destruct (bms_is_subset a b); naive_solver.
  - intros x. destruct (Z.ltb_spec x 0); [unfold bms_is_member; by destruct (Z.ltb_spec x 0); [|lia]|]. by rewrite bms_is_member_has, Hmem.
  - intros l Hl. rewrite bms_overlap_list_has by done. f_equal. clear Hl. induction l as [|x l IH]; [done|]. cbn [existsb]. by rewrite Hmem, IH.
  - rewrite <- bms_value_eq by done. destruct (Z.compare_spec (bms_value a) (bms_value b)); cbn; lia.
  - done.
  - lia.
  - intros Hx. by apply bms_hash_value_ext.
  - rewrite <- Heq. unfold bitmap_match. by destruct (bms_equal a b).
Qed.

Lemma bms_questions_decide_witness :
  bms_ok demo_set /\ bms_ok demo_low /\
  (bms_is_subset demo_low demo_set = true <-> to_set demo_low ⊆ to_set demo_set) /\
  bms_subset_compare demo_low demo_set = BMS_SUBSET1 /\ bms_compare demo_low demo_set = -1.
Proof.
  destruct demo_set_ok as [Hs Hl]. destruct (bms_questions_decide (fun _ => 0) demo_low demo_set demo_set Hl Hs Hs) as (_ & _ & Hsub & _).
  split; [exact Hs|]. split; [exact Hl|]. split; [exact Hsub|]. split; vm_compute; reflexivity.
Defined.

Lemma seqZ_sorted lo k : StronglySorted Z.lt (seqZ lo (Z.of_nat k)).
Proof.
  revert lo. induction k as [|k IH]; intros lo; [constructor|]. rewrite seqZ_cons by lia. replace (Z.pred (Z.of_nat (S k))) with (Z.of_nat k) by lia.
  constructor; [apply IH|]. apply Forall_forall. intros x Hx%elem_of_seqZ. lia.
Qed.

Lemma filter_sorted (P : Z -> Prop) `{!forall x, Decision (P x)} (l : list Z) : StronglySorted Z.lt l -> StronglySorted Z.lt (filter P l).
Proof.
  induction 1 as [|x l Hs IH Hx]; [constructor|]. rewrite filter_cons. case_decide; [|done]. constructor; [done|].
  apply Forall_forall. intros y [_ Hy]%list_elem_of_filter. by apply (proj1 (Forall_forall _ _) Hx).
Qed.

Lemma members_sorted a : bms_ok a -> StronglySorted Z.lt (members a).
Proof.
  intros Ha. rewrite members_seq. pose proof (nwords_limit a Ha). apply filter_sorted. rewrite <- (Z2Nat.id (64 * nwords a)) by lia. apply seqZ_sorted.
Qed.

Lemma to_set_size (P : Z -> Prop) `{!forall x, Decision (P x)} n (s : gset Z) :
  (forall x, x ∈ s <-> P x /\ 0 <= x < n) -> zlen (filter P (seqZ 0 n)) = Z.of_nat (size s).
Proof.
  intros Hs. assert (s = list_to_set (filter P (seqZ 0 n))) as ->.
  { apply set_eq. intros x. rewrite Hs, elem_of_list_to_set, list_elem_of_filter, elem_of_seqZ. by rewrite Z.add_0_l. }
  rewrite size_list_to_set; [done|]. apply NoDup_filter, NoDup_seqZ.
Qed.

(** C20. Iterating over a set terminates and visits each member once: upwards
    with [bms_next_member], downwards with [bms_prev_member], and destructively
    with [bms_first_member], which leaves the empty set; the fuel is the number
    of bits.  The counting functions agree with what the iteration visits: the
    number of members, none, one or several, the sole member with its two
    errors, and the rank of a member. *)
Theorem bms_iteration_visits_members a f :
  bms_ok a -> 64 * nwords a < Z.of_nat f ->
  StronglySorted Z.lt (members a) /\ (forall x, x ∈ members a <-> x ∈ to_set a) /\
  bms_loop f a (-1) = Ok (members a) /\
  bms_prev_loop f a (-1) = Ok (reverse (members a)) /\
  (exists a', bms_first_loop f a = Ok (members a, a') /\ to_set a' = ∅) /\
  bms_num_members a = Z.of_nat (size (to_set a)) /\
  bms_membership a = membership_of (members a) /\
  bms_singleton_member a =
    match members a with [] => Error "bitmapset is empty" | [x] => Ok x | _ => Error "bitmapset has multiple members" end /\
  bms_get_singleton_member a = match members a with [x] => Some x | _ => None end /\
  (forall x, 0 <= x ->
     bms_member_index a x = Ok (if bool_decide (x ∈ to_set a) then Z.of_nat (size (filter (fun y => y < x) (to_set a))) else -1)).
Proof.
  intros Ha Hf. pose proof (nwords_limit a Ha) as Hl.
  assert (Hsize : zlen (members a) = Z.of_nat (size (to_set a))).
  { rewrite members_seq. apply to_set_size. intros x. rewrite elem_to_set. split; [|tauto]. intros Hx. split; [done|by apply has_range]. }
  assert (Hfew : zlen (members a) <= 64 * nwords a).
  { rewrite members_seq. unfold zlen. pose proof (length_filter (fun x => has a x = true) (seqZ 0 (64 * nwords a))) as Hlen. rewrite length_seqZ in Hlen. lia. }
  split_and!.
  - by apply members_sorted.
  - intros x. by rewrite elem_members, elem_to_set.
  - rewrite bms_loop_ok, members_seq by (done || lia). change (-1 + 1) with 0. by rewrite Z.sub_0_r.
  - by rewrite (bms_prev_loop_ok f a (-1)), members_seq by (done || (cbn; lia)).
  - destruct (bms_first_loop_ok f a Ha) as (a' & -> & Hempty); [lia|]. exists a'. split; [done|]. apply set_eq. intros x. rewrite elem_to_set, Hempty. set_solver.
  - by rewrite bms_num_members_ok.
  - by apply bms_membership_ok.
  - by apply bms_singleton_member_ok.
  - by apply bms_singleton_member_ok.
  - intros x Hx. rewrite bms_member_index_ok by done. f_equal. destruct (has a x) eqn:Hh.
    + rewrite bool_decide_eq_true_2 by (by apply elem_to_set). apply to_set_size. intros y. rewrite elem_of_filter, elem_to_set.
      split; [intros [Hy Hin]|tauto]. apply has_range in Hin as Hr. split; [done|lia].
    + rewrite bool_decide_eq_false_2; [done|]. rewrite elem_to_set. congruence.
Qed.

Lemma bms_iteration_visits_members_witness :
  bms_ok demo_set /\ members demo_set = [3; 60; 61; 62; 63; 65; 66; 130] /\
  bms_loop 193 demo_set (-1) = Ok [3; 60; 61; 62; 63; 65; 66; 130] /\
  bms_prev_loop 193 demo_set (-1) = Ok [130; 66; 65; 63; 62; 61; 60; 3].
Proof.
  destruct demo_set_ok as [Hs _]. assert (Hm : members demo_set = [3; 60; 61; 62; 63; 65; 66; 130]) by (vm_compute; reflexivity).
  assert (Hn : 64 * nwords demo_set < Z.of_nat 193) by (apply (bool_decide_unpack _); vm_compute; exact I).
  destruct (bms_iteration_visits_members demo_set 193 Hs Hn) as (_ & _ & Hup & Hdown & _). rewrite Hm in Hup, Hdown.
  split; [exact Hs|]. split; [exact Hm|]. split; [exact Hup|exact Hdown].
Defined.
