(* ===== verification/BinaryHeap.v ===== *)
(** * lib/binaryheap.c: the array-based binary max-heap

    [binaryheap] is the C struct; [bh_nodes] is the flexible array member,
    whose unused tail holds whatever [palloc] left there.  The comparison
    callback (with its [bh_arg] already applied) is an argument of the
    operations that call it, since the clients' callbacks read state that
    changes between calls. *)

From Stdlib Require Import ZArith Lia.
From stdpp Require Import base list sorting strings.
From S2P Require Import Prelude HeapTheory.

Local Open Scope Z_scope.

Section binaryheap.
Context {Datum : Type}.

Record binaryheap := mk_binaryheap {
  bh_size : Z;
  bh_space : Z;
  bh_has_heap_property : bool;
  bh_nodes : list Datum
}.

(** [offsetof(binaryheap, bh_nodes)] and [sizeof(Datum)] on a 64-bit build,
    and [MaxAllocSize] of utils/memutils.h. *)
Definition offsetof_bh_nodes : Z := 32.
Definition sizeof_Datum : Z := 8.
Definition MaxAllocSize : Z := 1073741823.

Definition with_nodes (h : binaryheap) (nodes : list Datum) : binaryheap :=
  mk_binaryheap (bh_size h) (bh_space h) (bh_has_heap_property h) nodes.

(** [garbage i] is what the allocator left in the [i]-th node. *)
Definition binaryheap_allocate (garbage : nat -> Datum) (capacity : Z) : res binaryheap :=
  let sz := int32 (offsetof_bh_nodes + sizeof_Datum * capacity) in
  if (sz <? 0) || (MaxAllocSize <? sz)
  then Error "invalid memory alloc request size"
  else
    let room := (sz - offsetof_bh_nodes) / sizeof_Datum in
    Ok (mk_binaryheap 0 capacity true (garbage <$> seq 0 (Z.to_nat room))).

Definition binaryheap_reset (h : binaryheap) : binaryheap :=
  mk_binaryheap 0 (bh_space h) true (bh_nodes h).

Definition binaryheap_empty (h : binaryheap) : bool := bh_size h =? 0.

Definition left_offset (i : Z) : Z := int32 (2 * i + 1).
Definition right_offset (i : Z) : Z := int32 (2 * i + 2).
Definition parent_offset (i : Z) : Z := Z.quot (i - 1) 2.

Definition swap_nodes (h : binaryheap) (a b : Z) : res binaryheap :=
  do! swap <- aget (bh_nodes h) a ;;
  do! nb <- aget (bh_nodes h) b ;;
  do! n1 <- aset (bh_nodes h) a nb ;;
  do! n2 <- aset n1 b swap ;;
  Ok (with_nodes h n2).

Definition binaryheap_add_unordered (h : binaryheap) (d : Datum) : res binaryheap :=
  if bh_size h >=? bh_space h then Error "out of binary heap slots"
  else
    do! nodes <- aset (bh_nodes h) (bh_size h) d ;;
    Ok (mk_binaryheap (bh_size h + 1) (bh_space h) false nodes).

Definition binaryheap_first (h : binaryheap) : res Datum := aget (bh_nodes h) 0.

Section operations.
Variable bh_compare : Datum -> Datum -> Z.

Fixpoint sift_up_loop (fuel : nat) (h : binaryheap) (node_off : Z) : res binaryheap :=
  match fuel with
  | O => NoFuel
  | S fuel =>
    if node_off =? 0 then Ok h
    else
      let parent_off := parent_offset node_off in
      do! node <- aget (bh_nodes h) node_off ;;
      do! parent <- aget (bh_nodes h) parent_off ;;
      if bh_compare node parent <=? 0 then Ok h
      else
        do! h' <- swap_nodes h node_off parent_off ;;
        sift_up_loop fuel h' parent_off
  end.

Definition sift_up (h : binaryheap) (node_off : Z) : res binaryheap :=
  sift_up_loop (S (Z.to_nat node_off)) h node_off.

(** The child of [node_off] that must move up, 0 for none. *)
Definition sift_down_pick (h : binaryheap) (node_off : Z) : res Z :=
  let left_off := left_offset node_off in
  let right_off := right_offset node_off in
  do! swap_off <-
    (if left_off <? bh_size h then
       do! node <- aget (bh_nodes h) node_off ;;
       do! left <- aget (bh_nodes h) left_off ;;
       Ok (if bh_compare node left <? 0 then left_off else 0)
     else Ok 0) ;;
  if right_off <? bh_size h then
    do! node <- aget (bh_nodes h) node_off ;;
    do! right <- aget (bh_nodes h) right_off ;;
    if bh_compare node right <? 0 then
      if swap_off =? 0 then Ok right_off
      else
        do! left <- aget (bh_nodes h) left_off ;;
        Ok (if bh_compare left right <? 0 then right_off else swap_off)
    else Ok swap_off
  else Ok swap_off.

Fixpoint sift_down_loop (fuel : nat) (h : binaryheap) (node_off : Z) : res binaryheap :=
  match fuel with
  | O => NoFuel
  | S fuel =>
    do! swap_off <- sift_down_pick h node_off ;;
    if swap_off =? 0 then Ok h
    else
      do! h' <- swap_nodes h swap_off node_off ;;
      sift_down_loop fuel h' swap_off
  end.

Definition sift_down (h : binaryheap) (node_off : Z) : res binaryheap :=
  sift_down_loop (S (Z.to_nat (bh_size h))) h node_off.

Fixpoint build_loop (fuel : nat) (h : binaryheap) (i : Z) : res binaryheap :=
  match fuel with
  | O => NoFuel
  | S fuel =>
    if i >=? 0 then
      do! h' <- sift_down h i ;;
      build_loop fuel h' (i - 1)
    else Ok h
  end.

Definition binaryheap_build (h : binaryheap) : res binaryheap :=
  let i := parent_offset (bh_size h - 1) in
  do! h' <- build_loop (S (Z.to_nat (i + 1))) h i ;;
  Ok (mk_binaryheap (bh_size h') (bh_space h') true (bh_nodes h')).

Definition binaryheap_add (h : binaryheap) (d : Datum) : res binaryheap :=
  if bh_size h >=? bh_space h then Error "out of binary heap slots"
  else
    do! nodes <- aset (bh_nodes h) (bh_size h) d ;;
    let h' := mk_binaryheap (bh_size h + 1) (bh_space h) (bh_has_heap_property h) nodes in
    sift_up h' (bh_size h' - 1).

Definition binaryheap_remove_first (h : binaryheap) : res (Datum * binaryheap) :=
  if bh_size h =? 1 then
    do! d <- aget (bh_nodes h) 0 ;;
    Ok (d, mk_binaryheap 0 (bh_space h) (bh_has_heap_property h) (bh_nodes h))
  else
    do! h1 <- swap_nodes h 0 (bh_size h - 1) ;;
    let h2 := mk_binaryheap (bh_size h1 - 1) (bh_space h1)
                (bh_has_heap_property h1) (bh_nodes h1) in
    do! h3 <- sift_down h2 0 ;;
    do! d <- aget (bh_nodes h3) (bh_size h3) ;;
    Ok (d, h3).

Definition binaryheap_replace_first (h : binaryheap) (d : Datum) : res binaryheap :=
  do! nodes <- aset (bh_nodes h) 0 d ;;
  let h' := with_nodes h nodes in
  if bh_size h' >? 1 then sift_down h' 0 else Ok h'.
End operations.
End binaryheap.
Arguments binaryheap : clear implicits.

(** ** Well-formedness and the heap property *)

Section binaryheap_spec.
Context {Datum : Type} (cmp : Datum -> Datum -> Z) `{!Comparator cmp}.
Implicit Types (h : binaryheap Datum) (d x y : Datum).

(** The largest capacity whose allocation request is accepted. *)
Definition bh_max_capacity : Z := 134217723.

Record bh_wf h : Prop := {
  wf_size : 0 <= bh_size h <= bh_space h;
  wf_space : bh_space h <= zlen (bh_nodes h);
  wf_cap : bh_space h <= bh_max_capacity
}.

(** The root is the largest: [bh_le x y] is "[x] may be above [y]". *)
Definition bh_le (x y : Datum) : Prop := cle cmp y x.

#[global] Instance bh_le_preorder : PreOrder bh_le.
Proof.
  split; unfold bh_le; [intros ?; reflexivity|].
  intros x y z H1 H2. by transitivity y.
Qed.

Definition bh_heap h : Prop :=
  bh_wf h /\ bh_has_heap_property h = true /\ heap_ok bh_le (bh_nodes h) 0 (bh_size h).

(** The same, but for the edges out of the root: what is left when the key of
    the root changes. *)
Definition bh_below_root h : Prop :=
  bh_wf h /\ bh_has_heap_property h = true /\ heap_ok bh_le (bh_nodes h) 1 (bh_size h).

Lemma heap_below_root h : bh_heap h -> bh_below_root h.
Proof.
  intros (Hwf & Hf & Hok). split; [done|]. split; [done|]. by apply heap_ok_below.
Qed.

(** The multiset of live elements. *)
Definition bh_contents h : list Datum := ztake (bh_size h) (bh_nodes h).

(** [h'] is [h] with its live nodes rearranged. *)
Record bh_rearranged h h' : Prop := {
  re_size : bh_size h' = bh_size h;
  re_space : bh_space h' = bh_space h;
  re_flag : bh_has_heap_property h' = bh_has_heap_property h;
  re_len : zlen (bh_nodes h') = zlen (bh_nodes h);
  re_perm : bh_contents h' ≡ₚ bh_contents h;
  re_tail : forall i, bh_size h <= i -> zget (bh_nodes h') i = zget (bh_nodes h) i
}.

Lemma rearranged_refl h : bh_rearranged h h.
Proof. by split. Qed.

Lemma rearranged_trans h1 h2 h3 :
  bh_rearranged h1 h2 -> bh_rearranged h2 h3 -> bh_rearranged h1 h3.
Proof.
  intros [] []. split; try congruence; [by etrans|].
  intros i Hi. rewrite re_tail1 by congruence. auto.
Qed.

Lemma rearranged_wf h h' : bh_rearranged h h' -> bh_wf h -> bh_wf h'.
Proof. intros [] []. split; congruence || lia. Qed.

Lemma swap_nodes_ok h a b x y :
  bh_wf h -> a < bh_size h -> b < bh_size h ->
  zget (bh_nodes h) a = Some x -> zget (bh_nodes h) b = Some y ->
  exists h', swap_nodes h a b = Ok h' /\ bh_rearranged h h' /\
    bh_nodes h' = zset (zset (bh_nodes h) a y) b x.
Proof.
  intros [] Ha Hb Hx Hy. zbounds. eexists. unfold swap_nodes. arr.
  split; [done|]. split; [|done]. split; cbn; try done.
  - by rewrite !zlen_zset.
  - unfold bh_contents. cbn. rewrite !ztake_zset_lt by lia.
    apply zset_swap_perm; rewrite zget_ztake by lia; done.
  - intros i Hi. by rewrite !zget_zset_ne by lia.
Qed.

Lemma sift_up_loop_ok fuel h k :
  bh_wf h -> 0 <= k < bh_size h -> (Z.to_nat k < fuel)%nat ->
  up_ok bh_le (bh_nodes h) (bh_size h) k ->
  exists h', sift_up_loop cmp fuel h k = Ok h' /\ bh_rearranged h h' /\
    heap_ok bh_le (bh_nodes h') 0 (bh_size h').
Proof.
  revert h k. induction fuel as [|fuel IH]; intros h k Hwf Hk Hf Hup; [lia|].
  cbn [sift_up_loop]. destruct (Z.eqb_spec k 0) as [->|Hne].
  { exists h. split; [done|]. split; [apply rearranged_refl|]. by apply up_done_root. }
  pose proof (wf_size _ Hwf). pose proof (wf_space _ Hwf).
  unfold parent_offset. rewrite Z.quot_div_nonneg by lia.
  set (p := (k - 1) / 2).
  assert (Hp : child p k /\ 0 <= p < k).
  { subst p. pose proof (Z.div_mod (k - 1) 2). pose proof (Z.mod_pos_bound (k - 1) 2).
    unfold child. lia. }
  clearbody p. destruct Hp as [Hpc Hpk].
  destruct (zget_is_Some (bh_nodes h) k) as [y Hy]; [lia|].
  destruct (zget_is_Some (bh_nodes h) p) as [x Hx]; [lia|].
  arr. destruct (Z.leb_spec (cmp y x) 0) as [Hle|Hgt].
  { exists h. split; [done|]. split; [apply rearranged_refl|].
    by apply (up_done bh_le _ _ k x y p); auto; lia. }
  destruct (swap_nodes_ok h k p y x) as (h1 & -> & Hre & Hn1); [done|lia|lia|done|done|].
  cbn [rbind]. rewrite zset_comm in Hn1 by lia.
  destruct (IH h1 p) as (h2 & Heq & Hre2 & Hheap).
  - by apply (rearranged_wf h).
  - rewrite (re_size _ _ Hre). lia.
  - lia.
  - rewrite Hn1, (re_size _ _ Hre). apply (up_swap bh_le); auto; try lia.
    unfold bh_le. by apply cle_gt.
  - exists h2. split; [done|]. split; [|done]. by apply (rearranged_trans h h1).
Qed.

Lemma offsets_ok h k :
  bh_wf h -> 0 <= k < bh_size h ->
  left_offset k = 2 * k + 1 /\ right_offset k = 2 * k + 2.
Proof.
  intros [] Hk. unfold left_offset, right_offset, bh_max_capacity in *.
  rewrite !int32_id; [done|unfold is_int32, INT_MIN, INT_MAX; lia..].
Qed.

(** [sift_down_pick] names a child that is larger than the node and at
    least as large as its sibling, or 0 when the node dominates both. *)
Lemma sift_down_pick_ok h k x :
  bh_wf h -> 0 <= k < bh_size h -> zget (bh_nodes h) k = Some x ->
  exists s, sift_down_pick cmp h k = Ok s /\
    ((s = 0 /\ forall j y, child k j -> j < bh_size h ->
        zget (bh_nodes h) j = Some y -> bh_le x y) \/
     (child k s /\ s < bh_size h /\ exists y, zget (bh_nodes h) s = Some y /\
        bh_le y x /\ forall j z, child k j -> j < bh_size h ->
        zget (bh_nodes h) j = Some z -> bh_le y z)).
Proof.
  intros Hwf Hk Hx. destruct (offsets_ok h k Hwf Hk) as [HL HR].
  pose proof (wf_size _ Hwf). pose proof (wf_space _ Hwf).
  unfold sift_down_pick, child, bh_le. rewrite HL, HR.
  destruct (Z.ltb_spec (2 * k + 1) (bh_size h)) as [Hl|Hl]; cbn [rbind].
  2:{ destruct (Z.ltb_spec (2 * k + 2) (bh_size h)); [lia|]. exists 0.
      split; [done|]. left. split; [done|]. intros. lia. }
  destruct (zget_is_Some (bh_nodes h) (2 * k + 1)) as [l Hll]; [lia|]. arr.
  destruct (Z.ltb_spec (2 * k + 2) (bh_size h)) as [Hr|Hr]; cbn [rbind].
  - destruct (zget_is_Some (bh_nodes h) (2 * k + 2)) as [r Hrr]; [lia|]. arr.
    destruct (Z.ltb_spec (cmp x l) 0) as [Hxl|Hxl];
      destruct (Z.ltb_spec (cmp x r) 0) as [Hxr|Hxr]; arr.
    + destruct (Z.eqb_spec (2 * k + 1) 0); [lia|].
      eexists; split; [done|]. right.
      destruct (Z.ltb_spec (cmp l r) 0) as [Hlr|Hlr].
      * split; [lia|]. split; [lia|]. exists r. split; [done|].
        split; [by apply cle_lt|]. intros j z [-> | ->] Hj Hz; simplify_eq.
        -- by apply cle_lt.
        -- reflexivity.
      * split; [lia|]. split; [lia|]. exists l. split; [done|].
        split; [by apply cle_lt|]. intros j z [-> | ->] Hj Hz; simplify_eq.
        -- reflexivity.
        -- by apply cle_ge.
    + eexists; split; [done|]. right. split; [lia|]. split; [lia|].
      exists l. split; [done|]. split; [by apply cle_lt|].
      intros j z [-> | ->] Hj Hz; simplify_eq; [reflexivity|].
      transitivity x; [by apply cle_ge|by apply cle_lt].
    + eexists; split; [done|]. right. split; [lia|]. split; [lia|].
      exists r. split; [done|]. split; [by apply cle_lt|].
      intros j z [-> | ->] Hj Hz; simplify_eq; [|reflexivity].
      transitivity x; [by apply cle_ge|by apply cle_lt].
    + eexists; split; [done|]. left. split; [done|].
      intros j z [-> | ->] Hj Hz; simplify_eq; by apply cle_ge.
  - destruct (Z.ltb_spec (cmp x l) 0) as [Hxl|Hxl]; eexists; (split; [done|]).
    + right. split; [lia|]. split; [lia|]. exists l. split; [done|].
      split; [by apply cle_lt|]. intros j z [-> | ->] Hj Hz; simplify_eq; [reflexivity|lia].
    + left. split; [done|]. intros j z [-> | ->] Hj Hz; simplify_eq; [by apply cle_ge|lia].
Qed.

Lemma sift_down_loop_ok fuel h lo k :
  bh_wf h -> 0 <= k < bh_size h -> (Z.to_nat (bh_size h - k) < fuel)%nat ->
  down_ok bh_le (bh_nodes h) lo (bh_size h) k ->
  exists h', sift_down_loop cmp fuel h k = Ok h' /\ bh_rearranged h h' /\
    heap_ok bh_le (bh_nodes h') lo (bh_size h').
Proof.
  revert h k. induction fuel as [|fuel IH]; intros h k Hwf Hk Hf Hdn; [lia|].
  cbn [sift_down_loop]. pose proof (wf_size _ Hwf). pose proof (wf_space _ Hwf).
  destruct (zget_is_Some (bh_nodes h) k) as [x Hx]; [lia|].
  destruct (sift_down_pick_ok h k x Hwf Hk Hx)
    as (s & -> & [[-> Hdone]|(Hc & Hs & y & Hy & Hle & Hmin)]); cbn [rbind].
  { exists h. split; [done|]. split; [apply rearranged_refl|].
    by apply (down_done bh_le _ _ _ k x). }
  assert (Hks : k < s) by (unfold child in Hc; lia).
  destruct (Z.eqb_spec s 0); [lia|].
  destruct (swap_nodes_ok h s k y x) as (h1 & -> & Hre & Hn1); [done|lia|lia|done|done|].
  cbn [rbind]. rewrite zset_comm in Hn1 by lia.
  destruct (IH h1 s) as (h2 & Heq & Hre2 & Hheap).
  - by apply (rearranged_wf h).
  - rewrite (re_size _ _ Hre). lia.
  - rewrite (re_size _ _ Hre). lia.
  - rewrite Hn1, (re_size _ _ Hre). apply (down_swap bh_le); auto; lia.
  - exists h2. split; [done|]. split; [|done]. by apply (rearranged_trans h h1).
Qed.

Lemma sift_down_ok h lo k :
  bh_wf h -> 0 <= k < bh_size h -> down_ok bh_le (bh_nodes h) lo (bh_size h) k ->
  exists h', sift_down cmp h k = Ok h' /\ bh_rearranged h h' /\
    heap_ok bh_le (bh_nodes h') lo (bh_size h').
Proof. intros. apply sift_down_loop_ok; auto. lia. Qed.

Lemma build_loop_ok fuel h i :
  bh_wf h -> i < bh_size h -> (Z.to_nat (i + 1) < fuel)%nat -> -1 <= i ->
  heap_ok bh_le (bh_nodes h) (i + 1) (bh_size h) ->
  exists h', build_loop cmp fuel h i = Ok h' /\ bh_rearranged h h' /\
    heap_ok bh_le (bh_nodes h') 0 (bh_size h').
Proof.
  revert h i. induction fuel as [|fuel IH]; intros h i Hwf Hi Hf Hi1 Hok; [lia|].
  cbn [build_loop]. rewrite Z.geb_leb. destruct (Z.leb_spec 0 i) as [Hpos|Hneg].
  - destruct (sift_down_ok h i i) as (h1 & -> & Hre & Hok1);
      [done|lia|by apply heap_ok_down_ok|].
    cbn [rbind]. destruct (IH h1 (i - 1)) as (h2 & Heq & Hre2 & Hheap).
    + by apply (rearranged_wf h).
    + rewrite (re_size _ _ Hre). lia.
    + lia.
    + lia.
    + by replace (i - 1 + 1) with i by lia.
    + exists h2. split; [done|]. split; [|done]. by apply (rearranged_trans h h1).
  - exists h. split; [done|]. split; [apply rearranged_refl|].
    by replace 0 with (i + 1) by lia.
Qed.

Lemma binaryheap_build_ok h :
  bh_wf h ->
  exists h', binaryheap_build cmp h = Ok h' /\ bh_heap h' /\
    bh_contents h' ≡ₚ bh_contents h /\ bh_space h' = bh_space h.
Proof.
  intros Hwf. pose proof (wf_size _ Hwf). unfold binaryheap_build, parent_offset.
  set (i := Z.quot (bh_size h - 1 - 1) 2).
  assert (Hi : -1 <= i < bh_size h \/ (bh_size h = 0 /\ i = -1)).
  { destruct (Z.le_gt_cases 2 (bh_size h)).
    - subst i. rewrite Z.quot_div_nonneg by lia.
      pose proof (Z.div_mod (bh_size h - 1 - 1) 2).
      pose proof (Z.mod_pos_bound (bh_size h - 1 - 1) 2). lia.
    - assert (bh_size h = 0 \/ bh_size h = 1) as [Hs|Hs] by lia.
      + assert (i = -1) by (subst i; by rewrite Hs). lia.
      + assert (i = 0) by (subst i; by rewrite Hs). lia. }
  assert (Hleaf : bh_size h <= 2 * (i + 1) + 1).
  { destruct (Z.le_gt_cases 2 (bh_size h)).
    - subst i. rewrite Z.quot_div_nonneg by lia.
      pose proof (Z.div_mod (bh_size h - 1 - 1) 2).
      pose proof (Z.mod_pos_bound (bh_size h - 1 - 1) 2). lia.
    - lia. }
  clearbody i.
  destruct (build_loop_ok (S (Z.to_nat (i + 1))) h i) as (h1 & -> & Hre & Hok);
    [done|lia|lia|lia|by apply heap_ok_leaves|].
  cbn [rbind]. eexists; split; [done|].
  pose proof (rearranged_wf _ _ Hre Hwf) as []. destruct Hre.
  split; [|done]. split; [by split|done].
Qed.

Lemma binaryheap_add_ok h d :
  bh_heap h -> bh_size h < bh_space h ->
  exists h', binaryheap_add cmp h d = Ok h' /\ bh_heap h' /\
    bh_contents h' ≡ₚ d :: bh_contents h /\ bh_space h' = bh_space h.
Proof.
  intros (Hwf & Hflag & Hok) Hroom. pose proof (wf_size _ Hwf). pose proof (wf_space _ Hwf).
  pose proof (wf_cap _ Hwf).
  unfold binaryheap_add. rewrite Z.geb_leb.
  destruct (Z.leb_spec (bh_space h) (bh_size h)); [lia|]. arr.
  set (h1 := mk_binaryheap (bh_size h + 1) _ _ _).
  assert (Hwf1 : bh_wf h1) by (split; subst h1; cbn; rewrite ?zlen_zset; lia).
  replace (bh_size h1 - 1) with (bh_size h) by (subst h1; cbn; lia).
  destruct (sift_up_loop_ok (S (Z.to_nat (bh_size h))) h1 (bh_size h))
    as (h2 & Heq & Hre & Hok2); [done|subst h1; cbn; lia|lia| |].
  { subst h1; cbn. apply heap_ok_extend; [lia|done]. }
  exists h2. split; [exact Heq|]. pose proof (rearranged_wf _ _ Hre Hwf1). destruct Hre.
  split; [split; [done|split; [by rewrite re_flag0|done]]|]. split; [|by rewrite re_space0].
  rewrite re_perm0. unfold bh_contents. subst h1; cbn.
  rewrite (ztake_succ _ _ d) by (apply zget_zset_eq; lia).
  rewrite ztake_zset_ge by lia. symmetry. apply Permutation_cons_append.
Qed.

Lemma binaryheap_first_ok h :
  bh_heap h -> 0 < bh_size h ->
  exists d, binaryheap_first h = Ok d /\ d ∈ bh_contents h /\
    forall y, y ∈ bh_contents h -> cle cmp y d.
Proof.
  intros (Hwf & Hflag & Hok) Hpos. pose proof (wf_size _ Hwf). pose proof (wf_space _ Hwf).
  destruct (zget_is_Some (bh_nodes h) 0) as [d Hd]; [lia|].
  exists d. unfold binaryheap_first. arr. split; [done|]. split.
  - apply (zget_elem _ 0). unfold bh_contents. by rewrite zget_ztake by lia.
  - intros y Hy. apply (heap_root_elem bh_le (bh_nodes h) (bh_size h) d y Hok); auto. lia.
Qed.

(** The root may be removed whatever it has become. *)
Lemma binaryheap_remove_root_ok h d :
  bh_below_root h -> 0 < bh_size h -> zget (bh_nodes h) 0 = Some d ->
  exists h', binaryheap_remove_first cmp h = Ok (d, h') /\ bh_heap h' /\
    bh_size h' = bh_size h - 1 /\ bh_space h' = bh_space h /\ bh_contents h ≡ₚ d :: bh_contents h'.
Proof.
  intros Hh Hpos Hd0.
  destruct Hh as (Hwf & Hflag & Hok). pose proof (wf_size _ Hwf). pose proof (wf_space _ Hwf).
  pose proof (wf_cap _ Hwf). unfold binaryheap_remove_first.
  destruct (Z.eqb_spec (bh_size h) 1) as [Hs1|Hs1]; arr.
  - eexists; split; [done|]. split; [split; [split; cbn; lia|split; [done|]]|].
    { cbn. apply heap_ok_leaves. lia. }
    repeat (split; [done || (cbn; lia)|]).
    unfold bh_contents; cbn. rewrite Hs1. change 1 with (0 + 1). by rewrite (ztake_succ 0 _ d Hd0).
  - destruct (zget_is_Some (bh_nodes h) (bh_size h - 1)) as [e He]; [lia|].
    destruct (swap_nodes_ok h 0 (bh_size h - 1) d e) as (h1 & -> & Hre & Hn1);
      [done|lia|lia|done|done|]. cbn [rbind].
    pose proof (rearranged_wf _ _ Hre Hwf) as Hwf1. destruct Hre.
    set (h2 := mk_binaryheap (bh_size h1 - 1) _ _ _).
    assert (Hwf2 : bh_wf h2).
    { destruct Hwf1. split; subst h2; cbn; lia. }
    destruct (sift_down_ok h2 0 0) as (h3 & -> & Hre3 & Hok3).
    + done.
    + subst h2; cbn; lia.
    + subst h2; cbn. rewrite Hn1, re_size0.
      pose proof (heap_ok_replace bh_le (bh_nodes h) (bh_size h - 1) e
        (heap_ok_mono bh_le _ 1 1 (bh_size h) (bh_size h - 1) ltac:(lia) ltac:(lia) Hok)) as [D1 D2].
      split; [|intros p j; unfold child; lia].
      intros i j a b Hc Hlo Hi Hj Hne Ha Hb.
      rewrite zget_zset_ne in Ha by (unfold child in Hc; lia).
      rewrite zget_zset_ne in Hb by lia. by apply (D1 i j a b).
    + cbn [rbind]. destruct Hre3.
      assert (Htail : zget (bh_nodes h3) (bh_size h3) = Some d).
      { rewrite re_size1. rewrite re_tail1 by lia. subst h2; cbn.
        rewrite Hn1, re_size0. apply zget_zset_eq. rewrite zlen_zset. lia. }
      arr. eexists; split; [done|].
      split; [split; [|split]|].
      * apply (rearranged_wf h2); [by split|done].
      * rewrite re_flag1. subst h2; cbn. congruence.
      * done.
      * subst h2; cbn in *. split; [lia|]. split; [congruence|].
        rewrite re_perm1. unfold bh_contents; cbn.
        rewrite <- re_perm0. unfold bh_contents. rewrite re_size0.
        rewrite <- (Z.sub_add 1 (bh_size h)) at 1.
        rewrite (ztake_succ _ _ d); [symmetry; apply Permutation_cons_append|].
        rewrite Hn1. apply zget_zset_eq. rewrite zlen_zset. lia.
Qed.

Lemma binaryheap_remove_first_ok h :
  bh_heap h -> 0 < bh_size h ->
  exists d h', binaryheap_remove_first cmp h = Ok (d, h') /\ bh_heap h' /\
    bh_size h' = bh_size h - 1 /\ bh_space h' = bh_space h /\
    bh_contents h ≡ₚ d :: bh_contents h' /\
    forall y, y ∈ bh_contents h -> cle cmp y d.
Proof.
  intros Hh Hpos. destruct (binaryheap_first_ok h Hh Hpos) as (d & Hd & _ & Hmax).
  assert (Hd0 : zget (bh_nodes h) 0 = Some d).
  { unfold binaryheap_first, aget in Hd. by destruct (zget (bh_nodes h) 0); simplify_eq. }
  destruct (binaryheap_remove_root_ok h d (heap_below_root h Hh) Hpos Hd0) as (h' & ? & ? & ? & ? & ?).
  by exists d, h'.
Qed.

Lemma binaryheap_replace_first_ok h d e :
  bh_below_root h -> 0 < bh_size h -> zget (bh_nodes h) 0 = Some e ->
  exists h', binaryheap_replace_first cmp h d = Ok h' /\ bh_heap h' /\
    bh_size h' = bh_size h /\ bh_space h' = bh_space h /\
    e :: bh_contents h' ≡ₚ d :: bh_contents h.
Proof.
  intros (Hwf & Hflag & Hok) Hpos He. pose proof (wf_size _ Hwf). pose proof (wf_space _ Hwf).
  unfold binaryheap_replace_first. arr.
  set (h1 := with_nodes h (zset (bh_nodes h) 0 d)).
  assert (Hwf1 : bh_wf h1) by (destruct Hwf; split; subst h1; cbn; rewrite ?zlen_zset; lia).
  assert (Hc : e :: bh_contents h1 ≡ₚ d :: bh_contents h).
  { unfold bh_contents; subst h1; cbn. rewrite ztake_zset_lt by lia.
    assert (He' : zget (ztake (bh_size h) (bh_nodes h)) 0 = Some e)
      by (by rewrite zget_ztake by lia).
    destruct (ztake (bh_size h) (bh_nodes h)) as [|a tl]; [done|].
    rewrite zget_0_cons in He'. rewrite zset_0_cons. simplify_eq. apply perm_swap. }
  replace (bh_size h1) with (bh_size h) by done.
  destruct (Z.gtb_spec (bh_size h) 1) as [Hs1|Hs1].
  - destruct (sift_down_ok h1 0 0) as (h2 & -> & Hre & Hok2);
      [done|subst h1; cbn; lia|by apply heap_ok_replace|].
    exists h2. split; [done|]. pose proof (rearranged_wf _ _ Hre Hwf1). destruct Hre.
    split; [split; [done|split; [by rewrite re_flag0|done]]|].
    split; [done|]. split; [done|]. by rewrite re_perm0.
  - eexists; split; [done|]. split; [split; [done|split; [done|]]|done].
    apply heap_ok_leaves. cbn. lia.
Qed.

(** Clients that fill the heap without ordering it, then build it. *)
Fixpoint add_all_unordered h (ds : list Datum) : res (binaryheap Datum) :=
  match ds with
  | [] => Ok h
  | d :: ds => do! h' <- binaryheap_add_unordered h d ;; add_all_unordered h' ds
  end.

(** Removing the first element until the heap is empty. *)
Fixpoint drain (fuel : nat) h : res (list Datum) :=
  match fuel with
  | O => NoFuel
  | S fuel =>
    if binaryheap_empty h then Ok []
    else
      do! '(d, h') <- binaryheap_remove_first cmp h ;;
      do! ds <- drain fuel h' ;;
      Ok (d :: ds)
  end.

Lemma add_all_unordered_ok h ds :
  bh_wf h -> bh_size h + zlen ds <= bh_space h ->
  exists h', add_all_unordered h ds = Ok h' /\ bh_wf h' /\
    bh_contents h' = bh_contents h ++ ds /\
    bh_size h' = bh_size h + zlen ds /\ bh_space h' = bh_space h.
Proof.
  revert h. induction ds as [|d ds IH]; intros h Hwf Hroom; cbn.
  - exists h. rewrite app_nil_r. split; [done|]. unfold zlen; cbn. split; [done|].
    split; [done|]. lia.
  - rewrite zlen_cons in *. pose proof (zlen_nonneg ds). destruct Hwf as [H1 H2 H3].
    unfold binaryheap_add_unordered. rewrite Z.geb_leb.
    destruct (Z.leb_spec (bh_space h) (bh_size h)); [lia|]. arr.
    set (h1 := mk_binaryheap (bh_size h + 1) _ _ _).
    destruct (IH h1) as (h2 & Heq & Hwf2 & Hc & Hs & Hsp).
    + split; subst h1; cbn; rewrite ?zlen_zset; lia.
    + subst h1; cbn. lia.
    + exists h2. split; [done|]. split; [done|]. subst h1; cbn in *.
      split; [|split; [lia|done]]. rewrite Hc. unfold bh_contents; cbn.
      rewrite (ztake_succ _ _ d) by (apply zget_zset_eq; lia).
      rewrite ztake_zset_ge by lia. by rewrite <- app_assoc.
Qed.

Lemma drain_ok fuel h :
  bh_heap h -> (Z.to_nat (bh_size h) < fuel)%nat ->
  exists ds, drain fuel h = Ok ds /\ ds ≡ₚ bh_contents h /\ StronglySorted bh_le ds.
Proof.
  revert h. induction fuel as [|fuel IH]; intros h Hh Hf; [lia|].
  cbn [drain]. unfold binaryheap_empty.
  destruct (Z.eqb_spec (bh_size h) 0) as [H0|H0].
  - exists []. split; [done|]. unfold bh_contents. rewrite H0, ztake_nonpos by lia.
    split; [done|constructor].
  - assert (Hpos : 0 < bh_size h) by (destruct Hh as [[] _]; lia).
    destruct (binaryheap_remove_first_ok h Hh Hpos)
      as (d & h1 & -> & Hh1 & Hs1 & _ & Hperm & Hmax). cbn [rbind].
    destruct (IH h1 Hh1) as (ds & -> & Hp & Hsort); [lia|]. cbn [rbind].
    exists (d :: ds). split; [done|]. split; [by rewrite Hperm, Hp|].
    constructor; [done|]. apply Forall_forall. intros y Hy.
    apply Hmax. rewrite Hperm, <- Hp. by right.
Qed.
End binaryheap_spec.

Lemma binaryheap_allocate_ok {Datum} (garbage : nat -> Datum) cap :
  0 <= cap <= bh_max_capacity ->
  exists h0, binaryheap_allocate garbage cap = Ok h0 /\ bh_wf h0 /\ bh_size h0 = 0 /\ bh_space h0 = cap.
Proof.
  intros Hcap. unfold binaryheap_allocate, offsetof_bh_nodes, sizeof_Datum, MaxAllocSize, bh_max_capacity in *.
  rewrite int32_id by (unfold is_int32, INT_MIN, INT_MAX; lia).
  destruct (Z.ltb_spec (32 + 8 * cap) 0); [lia|].
  destruct (Z.ltb_spec 1073741823 (32 + 8 * cap)); [lia|]. cbn [orb].
  replace ((32 + 8 * cap - 32) / 8) with cap by (apply Z.div_unique with 0; lia).
  eexists; split; [done|]. split; [|done].
  split; cbn; unfold bh_max_capacity, zlen; rewrite ?length_fmap, ?length_seq; lia.
Qed.

(** C18.  Filling a fresh heap of capacity [cap] with [binaryheap_add_unordered],
    building it and removing the first element until it is empty runs without
    error or out-of-bounds access, for every capacity up to 134217723, the
    largest whose array [palloc] grants at its true size (beyond it the size is
    refused, or wraps around and is granted too small), and returns the elements
    from the largest to the smallest. *)
Theorem binaryheap_heapsort {Datum} (cmp : Datum -> Datum -> Z) `{!Comparator cmp}
    (garbage : nat -> Datum) (cap : Z) (ds : list Datum)
    (Hcap : 0 <= cap <= bh_max_capacity) (Hds : zlen ds <= cap) :
  exists h0 h1 h2 out,
    binaryheap_allocate garbage cap = Ok h0 /\
    add_all_unordered h0 ds = Ok h1 /\
    binaryheap_build cmp h1 = Ok h2 /\
    drain cmp (S (length ds)) h2 = Ok out /\
    out ≡ₚ ds /\ StronglySorted (fun x y => cle cmp y x) out.
Proof.
  destruct (binaryheap_allocate_ok garbage cap Hcap) as (h0 & Ha & Hwf0 & Hs0 & Hsp0).
  destruct (add_all_unordered_ok h0 ds) as (h1 & Hb & Hwf1 & Hc1 & Hs1 & _); [done|lia|].
  destruct (binaryheap_build_ok cmp h1 Hwf1) as (h2 & Hc & Hh2 & Hp2 & _).
  assert (Hsz : bh_size h2 = zlen ds).
  { pose proof (Permutation_length Hp2) as HL. unfold bh_contents in HL.
    destruct Hh2 as [[? ? ?] _]. destruct Hwf1 as [? ? ?].
    assert (zlen (ztake (bh_size h2) (bh_nodes h2)) = zlen (ztake (bh_size h1) (bh_nodes h1)))
      by (unfold zlen; congruence).
    rewrite !zlen_ztake in * by lia. lia. }
  destruct (drain_ok cmp (S (length ds)) h2 Hh2) as (out & Hd & Hp & Hsort).
  { rewrite Hsz. unfold zlen. lia. }
  exists h0, h1, h2, out. repeat (split; [done|]). split; [|done].
  rewrite Hp, Hp2, Hc1. unfold bh_contents. by rewrite Hs0, ztake_nonpos by lia.
Qed.

Lemma binaryheap_heapsort_witness :
  exists h0 h1 h2 out,
    binaryheap_allocate (fun _ => 0) 4 = Ok h0 /\
    add_all_unordered h0 [3; 9; 4] = Ok h1 /\
    binaryheap_build Z.sub h1 = Ok h2 /\
    drain Z.sub 4 h2 = Ok out /\
    out ≡ₚ [3; 9; 4] /\ StronglySorted (fun x y => cle Z.sub y x) out.
Proof.
  apply (binaryheap_heapsort Z.sub (fun _ => 0) 4 [3; 9; 4]).
  - unfold bh_max_capacity. lia.
  - unfold zlen. cbn. lia.
Defined.
