(* ===== verification/PairingHeap.v ===== *)
(** * lib/pairingheap.c: the pairing heap, on its pointer representation

    The nodes live in a store keyed by address; a node is the intrusive
    [pairingheap_node] with its three links ([None] is NULL).  The comparison
    callback sees addresses, as the C callback receives node pointers.  The
    abstraction is a forest in first-child/next-sibling form, related to the
    store by [rep], which fixes every link, [prev_or_parent] included. *)

From Stdlib Require Import ZArith Lia.
From stdpp Require Import base list gmap sorting strings.
From S2P Require Import Prelude.

Local Open Scope Z_scope.

Set Warnings "-clear-no-such-hyp".

Definition ptr := positive.

Record pairingheap_node := mk_node {
  first_child : option ptr;
  next_sibling : option ptr;
  prev_or_parent : option ptr
}.

Abbreviation store := (gmap ptr pairingheap_node).

Record pairingheap := mk_pairingheap { ph_root : option ptr }.

(** [node->field] with a null or dangling pointer as undefined behaviour. *)
Definition node_at (st : store) (p : ptr) : res pairingheap_node :=
  match st !! p with Some n => Ok n | None => Crash end.

Definition deref (p : option ptr) : res ptr :=
  match p with Some p => Ok p | None => Crash end.

Definition set_first_child (st : store) (p : ptr) (v : option ptr) : res store :=
  do! n <- node_at st p ;;
  Ok (<[p := mk_node v (next_sibling n) (prev_or_parent n)]> st).

Definition set_next_sibling (st : store) (p : ptr) (v : option ptr) : res store :=
  do! n <- node_at st p ;;
  Ok (<[p := mk_node (first_child n) v (prev_or_parent n)]> st).

Definition set_prev_or_parent (st : store) (p : ptr) (v : option ptr) : res store :=
  do! n <- node_at st p ;;
  Ok (<[p := mk_node (first_child n) (next_sibling n) v]> st).

Definition pairingheap_allocate : pairingheap := mk_pairingheap None.
Definition pairingheap_is_empty (h : pairingheap) : bool :=
  match ph_root h with None => true | Some _ => false end.
Definition pairingheap_first (h : pairingheap) : res ptr := deref (ph_root h).

Section operations.
Variable ph_compare : ptr -> ptr -> Z.

(** Put [b] as the first child of [a]. *)
Definition link_child (st : store) (a b : ptr) : res store :=
  do! na <- node_at st a ;;
  do! st1 <- match first_child na with
             | Some c => set_prev_or_parent st c (Some b)
             | None => Ok st
             end ;;
  do! st2 <- set_prev_or_parent st1 b (Some a) ;;
  do! na2 <- node_at st2 a ;;
  do! st3 <- set_next_sibling st2 b (first_child na2) ;;
  set_first_child st3 a (Some b).

Definition merge (st : store) (a b : option ptr) : res (store * option ptr) :=
  match a, b with
  | None, _ => Ok (st, b)
  | _, None => Ok (st, a)
  | Some a, Some b =>
    let '(a, b) := if ph_compare a b <? 0 then (b, a) else (a, b) in
    do! st' <- link_child st a b ;;
    Ok (st', Some a)
  end.

(** First pass: pairs from left to right, pushed on the [pairs] list. *)
Fixpoint merge_pairs (fuel : nat) (st : store) (next pairs : option ptr)
  : res (store * option ptr) :=
  match fuel with
  | O => NoFuel
  | S fuel =>
    match next with
    | None => Ok (st, pairs)
    | Some curr =>
      do! n <- node_at st curr ;;
      match next_sibling n with
      | None =>
        do! st' <- set_next_sibling st curr pairs ;;
        Ok (st', Some curr)
      | Some sib =>
        do! ns <- node_at st sib ;;
        let next := next_sibling ns in
        do! '(st1, r) <- merge st (Some curr) (Some sib) ;;
        do! r <- deref r ;;
        do! st2 <- set_next_sibling st1 r pairs ;;
        merge_pairs fuel st2 next (Some r)
      end
    end
  end.

(** Second pass: merge all the pairs. *)
Fixpoint merge_all (fuel : nat) (st : store) (newroot next : option ptr)
  : res (store * option ptr) :=
  match fuel with
  | O => NoFuel
  | S fuel =>
    match next with
    | None => Ok (st, newroot)
    | Some curr =>
      do! n <- node_at st curr ;;
      let next := next_sibling n in
      do! '(st', newroot) <- merge st newroot (Some curr) ;;
      merge_all fuel st' newroot next
    end
  end.

Definition merge_children (st : store) (children : option ptr) : res (store * option ptr) :=
  match children with
  | None => Ok (st, children)
  | Some c =>
    do! n <- node_at st c ;;
    match next_sibling n with
    | None => Ok (st, children)
    | Some _ =>
      do! '(st1, pairs) <- merge_pairs (S (size st)) st children None ;;
      do! p <- deref pairs ;;
      do! np <- node_at st1 p ;;
      merge_all (S (size st1)) st1 pairs (next_sibling np)
    end
  end.

Definition set_root_links (st : store) (root : ptr) : res store :=
  do! st1 <- set_prev_or_parent st root None ;;
  set_next_sibling st1 root None.

Definition pairingheap_add (st : store) (h : pairingheap) (node : ptr)
  : res (store * pairingheap) :=
  do! st1 <- set_first_child st node None ;;
  do! '(st2, root) <- merge st1 (ph_root h) (Some node) ;;
  do! r <- deref root ;;
  do! st3 <- set_root_links st2 r ;;
  Ok (st3, mk_pairingheap (Some r)).

Definition pairingheap_remove_first (st : store) (h : pairingheap)
  : res (ptr * store * pairingheap) :=
  do! result <- deref (ph_root h) ;;
  do! n <- node_at st result ;;
  do! '(st1, root) <- merge_children st (first_child n) ;;
  do! st2 <- match root with
             | Some r => set_root_links st1 r
             | None => Ok st1
             end ;;
  Ok (result, st2, mk_pairingheap root).

(** [*prev_ptr = v], where [prev_ptr] is the link of [owner] that points
    to the removed node. *)
Definition set_prev_ptr (st : store) (owner : ptr) (via_first_child : bool)
    (v : option ptr) : res store :=
  if via_first_child then set_first_child st owner v else set_next_sibling st owner v.

(** The body of [pairingheap_remove] for a node that is not the root. *)
Definition remove_interior (st : store) (node : ptr) : res store :=
  do! n <- node_at st node ;;
  let children := first_child n in
  let next := next_sibling n in
  do! owner <- deref (prev_or_parent n) ;;
  do! no <- node_at st owner ;;
  let via := bool_decide (first_child no = Some node) in
  match children with
  | Some _ =>
    do! '(st1, replacement) <- merge_children st children ;;
    do! r <- deref replacement ;;
    do! n1 <- node_at st1 node ;;
    do! st2 <- set_prev_or_parent st1 r (prev_or_parent n1) ;;
    do! st3 <- set_next_sibling st2 r (next_sibling n1) ;;
    do! st4 <- set_prev_ptr st3 owner via (Some r) ;;
    match next with
    | Some s => set_prev_or_parent st4 s (Some r)
    | None => Ok st4
    end
  | None =>
    do! st1 <- set_prev_ptr st owner via next ;;
    do! n1 <- node_at st1 node ;;
    match next with
    | Some s => set_prev_or_parent st1 s (prev_or_parent n1)
    | None => Ok st1
    end
  end.

Definition pairingheap_remove (st : store) (h : pairingheap) (node : ptr)
  : res (store * pairingheap) :=
  if decide (ph_root h = Some node) then
    do! '(_, st', h') <- pairingheap_remove_first st h ;;
    Ok (st', h')
  else
    do! st' <- remove_interior st node ;;
    Ok (st', h).
End operations.

(** ** The forest behind the pointers *)

Inductive forest :=
| FNil
| FCons (p : ptr) (cs ts : forest).

Definition fhead (f : forest) : option ptr :=
  match f with FNil => None | FCons p _ _ => Some p end.

Fixpoint fnodes (f : forest) : list ptr :=
  match f with FNil => [] | FCons p cs ts => p :: fnodes cs ++ fnodes ts end.

(** Every link of every node of the sibling list [f]; [prev] is the left
    neighbour of its head, or its parent. *)
Fixpoint rep (st : store) (prev : option ptr) (f : forest) : Prop :=
  match f with
  | FNil => True
  | FCons p cs ts =>
      st !! p = Some (mk_node (fhead cs) (fhead ts) prev) /\
      rep st (Some p) cs /\ rep st (Some p) ts
  end.

(** The pairs list of [merge_children]: the roots are chained by
    [next_sibling], their [prev_or_parent] is garbage. *)
Fixpoint chain (st : store) (l : list (ptr * forest)) : Prop :=
  match l with
  | [] => True
  | (p, cs) :: l' =>
      (exists g, st !! p = Some (mk_node (fhead cs) (fst <$> head l') g)) /\
      rep st (Some p) cs /\ chain st l'
  end.

Definition cnodes (l : list (ptr * forest)) : list ptr :=
  concat ((fun '(p, cs) => p :: fnodes cs) <$> l).

(** A subheap whose sibling links are garbage. *)
Definition root_rep (st : store) (p : ptr) (cs : forest) : Prop :=
  (exists s g, st !! p = Some (mk_node (fhead cs) s g)) /\ rep st (Some p) cs.

Lemma rep_frame st st' prev f :
  (forall p, p ∈ fnodes f -> st' !! p = st !! p) -> rep st prev f -> rep st' prev f.
Proof.
  revert prev. induction f as [|p cs IHc ts IHt]; intros prev Hf; cbn; [done|].
  cbn in Hf. intros (H1 & H2 & H3). split; [rewrite Hf; [done|set_solver]|].
  split; [apply IHc|apply IHt]; auto; intros q Hq; apply Hf; set_solver.
Qed.

Lemma chain_frame st st' l :
  (forall p, p ∈ cnodes l -> st' !! p = st !! p) -> chain st l -> chain st' l.
Proof.
  induction l as [|[p cs] l IH]; cbn; [done|]. intros Hf ((g & H1) & H2 & H3).
  unfold cnodes in Hf; cbn in Hf. split; [exists g; rewrite Hf; [done|set_solver]|].
  split.
  - eapply rep_frame; [|done]. intros q Hq. apply Hf. set_solver.
  - apply IH; [|done]. intros q Hq. apply Hf. unfold cnodes in Hq. set_solver.
Qed.

Lemma root_rep_frame st st' p cs :
  (forall q, q = p \/ q ∈ fnodes cs -> st' !! q = st !! q) ->
  root_rep st p cs -> root_rep st' p cs.
Proof.
  intros Hf ((s & g & H1) & H2). split.
  - exists s, g. rewrite Hf by auto. done.
  - eapply rep_frame; [|done]. auto.
Qed.

(** Linking [b] below [a]: the forest is extended and nothing outside the two
    subheaps is written. *)
Lemma link_child_ok st a b ca cb :
  root_rep st a ca -> root_rep st b cb ->
  NoDup (a :: fnodes ca ++ b :: fnodes cb) ->
  exists st', link_child st a b = Ok st' /\ root_rep st' a (FCons b cb ca) /\
    dom st' = dom st /\
    (forall q, q ∉ a :: b :: fnodes ca -> st' !! q = st !! q).
Proof.
  intros ((sa & ga & Ha) & Hca) ((sb & gb & Hb) & Hcb) Hnd.
  assert (a <> b) by (intros ->; inversion Hnd; set_solver).
  unfold link_child, node_at at 1. rewrite Ha. cbn [rbind first_child].
  destruct ca as [|c cc ct]; cbn [fhead fnodes] in *.
  - unfold set_prev_or_parent, set_next_sibling, set_first_child, node_at.
    cbn [rbind]. rewrite Hb. cbn [rbind]. rewrite lookup_insert_ne by done. rewrite Ha.
    cbn [rbind first_child next_sibling prev_or_parent].
    rewrite lookup_insert_eq. cbn [rbind first_child next_sibling prev_or_parent].
    rewrite !lookup_insert_ne by done. rewrite Ha. cbn [rbind first_child next_sibling prev_or_parent].
    eexists; split; [done|]. split; [split|split].
    + eexists _, _. by rewrite lookup_insert_eq.
    + cbn. rewrite lookup_insert_ne, lookup_insert_eq by done. split; [done|]. split; [|done].
      eapply rep_frame; [|exact Hcb]. intros q Hq.
      assert (q <> a) by (intros ->; apply NoDup_cons in Hnd as [Hnd _]; set_solver).
      assert (q <> b) by (intros ->; apply NoDup_cons in Hnd as [_ Hnd];
                          apply NoDup_cons in Hnd as [Hnd _]; set_solver).
      by rewrite !lookup_insert_ne by done.
    + rewrite !dom_insert_L. apply elem_of_dom_2 in Ha, Hb. set_solver.
    + intros q Hq. by rewrite !lookup_insert_ne by set_solver.
  - destruct Hca as (Hc & Hcc & Hct).
    assert (c <> a /\ c <> b) as [Hna Hnb].
    { split; intros ->; [apply NoDup_cons in Hnd as [Hnd _]; set_solver|].
      apply NoDup_cons in Hnd as [_ Hnd]. apply NoDup_cons in Hnd as [Hnd _]. set_solver. }
    unfold set_prev_or_parent, set_next_sibling, set_first_child, node_at.
    rewrite Hc. cbn [rbind first_child next_sibling prev_or_parent].
    rewrite lookup_insert_ne by done. rewrite Hb. cbn [rbind first_child next_sibling prev_or_parent].
    rewrite !lookup_insert_ne by done. rewrite Ha. cbn [rbind first_child next_sibling prev_or_parent].
    rewrite lookup_insert_eq. cbn [rbind first_child next_sibling prev_or_parent].
    rewrite !lookup_insert_ne by done. rewrite Ha. cbn [rbind first_child next_sibling prev_or_parent].
    eexists; split; [done|].
    assert (Hfr : forall q, q ∈ fnodes cc ++ fnodes ct ++ fnodes cb -> q <> a /\ q <> b /\ q <> c).
    { apply NoDup_cons in Hnd as [Hnd1 Hnd].
      change (NoDup ((c :: fnodes cc ++ fnodes ct) ++ b :: fnodes cb)) in Hnd.
      intros q Hq. repeat split; intros ->.
      - set_solver.
      - rewrite <- Permutation_middle in Hnd. apply NoDup_cons in Hnd as [Hnd _]. set_solver.
      - apply NoDup_cons in Hnd as [Hnd _]. set_solver. }
    split; [split|split].
    + eexists _, _. by rewrite lookup_insert_eq.
    + cbn. rewrite lookup_insert_ne by done. rewrite lookup_insert_eq. split; [done|].
      rewrite !lookup_insert_ne by done. rewrite lookup_insert_eq.
      repeat split; (eapply rep_frame; [|eassumption]); intros q Hq;
        (destruct (Hfr q) as (? & ? & ?); [set_solver|]);
        by rewrite !lookup_insert_ne by done.
    + rewrite !dom_insert_L. apply elem_of_dom_2 in Ha, Hb, Hc. set_solver.
    + intros q Hq. by rewrite !lookup_insert_ne by set_solver.
Qed.

(** ** Heap order *)

Section order.
Context (cmp : ptr -> ptr -> Z) `{!Comparator cmp}.

(** Nothing below a node compares greater than it. *)
Fixpoint fheap (f : forest) : Prop :=
  match f with
  | FNil => True
  | FCons p cs ts =>
      (forall q, q ∈ fnodes cs -> cle cmp q p) /\ fheap cs /\ fheap ts
  end.

Definition cheap (l : list (ptr * forest)) : Prop :=
  Forall (fun '(p, cs) => (forall q, q ∈ fnodes cs -> cle cmp q p) /\ fheap cs) l.

Lemma cheap_singleton p cs :
  cheap [(p, cs)] <-> (forall q, q ∈ fnodes cs -> cle cmp q p) /\ fheap cs.
Proof. unfold cheap. by rewrite Forall_singleton. Qed.

(** The merged subheap: root and children. *)
Definition fmerge (a b : ptr * forest) : ptr * forest :=
  if cmp (fst a) (fst b) <? 0
  then (fst b, FCons (fst a) (snd a) (snd b))
  else (fst a, FCons (fst b) (snd b) (snd a)).

Definition tnodes (t : ptr * forest) : list ptr := fst t :: fnodes (snd t).

Lemma cnodes_cons t l : cnodes (t :: l) = tnodes t ++ cnodes l.
Proof. by destruct t. Qed.

Lemma fmerge_nodes a b : tnodes (fmerge a b) ≡ₚ tnodes a ++ tnodes b.
Proof.
  unfold fmerge, tnodes. destruct (cmp (fst a) (fst b) <? 0); cbn.
  - apply (Permutation_middle (fst a :: fnodes (snd a))).
  - constructor. rewrite <- Permutation_middle. constructor. apply Permutation_app_comm.
Qed.

Lemma fmerge_cheap a b : cheap [a] -> cheap [b] -> cheap [fmerge a b].
Proof.
  destruct a as [a ca], b as [b cb]. unfold cheap. rewrite !Forall_singleton.
  intros [Ha Hca] [Hb Hcb]. unfold fmerge; cbn.
  destruct (Z.ltb_spec (cmp a b) 0) as [Hlt|Hge]; cbn; split; auto.
  - assert (cle cmp a b) by (by apply cle_lt).
    intros q [-> |[Hq|Hq]%elem_of_app]%elem_of_cons; auto. transitivity a; auto.
  - assert (cle cmp b a) by (by apply cle_ge).
    intros q [-> |[Hq|Hq]%elem_of_app]%elem_of_cons; auto. transitivity b; auto.
Qed.

(** [st'] is [st] after writes to the nodes [ns] only. *)
Definition writes (st st' : store) (ns : list ptr) : Prop :=
  dom st' = dom st /\ forall q, q ∉ ns -> st' !! q = st !! q.

Lemma writes_mono st st' ns ns' :
  writes st st' ns -> (forall q, q ∈ ns -> q ∈ ns') -> writes st st' ns'.
Proof. intros [D W] Hs. split; [done|]. eauto. Qed.

Lemma writes_trans st1 st2 st3 ns :
  writes st1 st2 ns -> writes st2 st3 ns -> writes st1 st3 ns.
Proof.
  intros [D1 W1] [D2 W2]. split; [congruence|]. intros q Hq. by rewrite W2, W1.
Qed.

Lemma merge_ok st a b :
  root_rep st (fst a) (snd a) -> root_rep st (fst b) (snd b) ->
  NoDup (tnodes a ++ tnodes b) ->
  exists st', merge cmp st (Some (fst a)) (Some (fst b)) = Ok (st', Some (fst (fmerge a b))) /\
    root_rep st' (fst (fmerge a b)) (snd (fmerge a b)) /\
    writes st st' (tnodes a ++ tnodes b).
Proof.
  destruct a as [a ca], b as [b cb]. unfold merge, fmerge, tnodes; cbn. intros Ha Hb Hnd.
  destruct (cmp a b <? 0); cbn.
  - destruct (link_child_ok st b a cb ca) as (st' & -> & Hr & Hd & Hw); [done|done| |].
    { change (NoDup ((b :: fnodes cb) ++ (a :: fnodes ca))). by rewrite Permutation_app_comm. }
    exists st'. split; [done|]. split; [done|]. split; [done|].
    intros q Hq. apply Hw. set_solver.
  - destruct (link_child_ok st a b ca cb) as (st' & -> & Hr & Hd & Hw); [done|done|done|].
    exists st'. split; [done|]. split; [done|]. split; [done|].
    intros q Hq. apply Hw. set_solver.
Qed.

Fixpoint ftrees (f : forest) : list (ptr * forest) :=
  match f with FNil => [] | FCons p cs ts => (p, cs) :: ftrees ts end.

Lemma ftrees_nodes f : cnodes (ftrees f) = fnodes f.
Proof. induction f as [|p cs _ ts IH]; [done|]. cbn [ftrees]. by rewrite cnodes_cons, IH. Qed.

Lemma ftrees_cheap f : fheap f -> cheap (ftrees f).
Proof.
  induction f as [|p cs _ ts IH]; cbn; [constructor|].
  intros (H1 & H2 & H3). constructor; [done|]. by apply IH.
Qed.

(** The list left by the first pass of [merge_children]. *)
Fixpoint fpairs (fuel : nat) (ts acc : list (ptr * forest)) : list (ptr * forest) :=
  match fuel, ts with
  | S fuel, x :: y :: ts => fpairs fuel ts (fmerge x y :: acc)
  | _, [x] => x :: acc
  | _, _ => acc
  end.

Definition chead (l : list (ptr * forest)) : option ptr := fst <$> head l.

Lemma set_next_sibling_chain st p cs l :
  root_rep st p cs -> chain st l -> NoDup (cnodes ((p, cs) :: l)) ->
  exists st', set_next_sibling st p (chead l) = Ok st' /\ chain st' ((p, cs) :: l) /\
    writes st st' [p].
Proof.
  intros ((s & g & Hp) & Hcs) Hl. rewrite cnodes_cons. unfold tnodes; cbn. intros Hnd.
  apply NoDup_cons in Hnd as [Hnp _].
  unfold set_next_sibling, node_at. rewrite Hp. cbn. eexists; split; [done|].
  split; [split; [|split]|split].
  - exists g. by rewrite lookup_insert_eq.
  - eapply rep_frame; [|done]. intros q Hq. apply lookup_insert_ne. set_solver.
  - eapply chain_frame; [|done]. intros q Hq. apply lookup_insert_ne. set_solver.
  - rewrite dom_insert_L. apply elem_of_dom_2 in Hp. set_solver.
  - intros q Hq. apply lookup_insert_ne. set_solver.
Qed.

Lemma rep_root_rep st prev p cs ts :
  rep st prev (FCons p cs ts) ->
  root_rep st p cs /\ rep st (Some p) ts /\
  st !! p = Some (mk_node (fhead cs) (fhead ts) prev).
Proof. cbn. intros (H1 & H2 & H3). split; [|done]. split; [eauto|done]. Qed.

Lemma chain_root_rep st p cs l :
  chain st ((p, cs) :: l) ->
  root_rep st p cs /\ chain st l /\ exists g, st !! p = Some (mk_node (fhead cs) (chead l) g).
Proof. cbn. intros ((g & H1) & H2 & H3). split; [|eauto]. split; [eauto|done]. Qed.

(** The first pass links the pairs, in reverse, in front of [acc]. *)
Lemma merge_pairs_ok n fuel st prev f acc :
  (length (ftrees f) <= n)%nat -> (n < fuel)%nat ->
  rep st prev f -> chain st acc -> NoDup (fnodes f ++ cnodes acc) ->
  exists st', merge_pairs cmp fuel st (fhead f) (chead acc) =
      Ok (st', chead (fpairs n (ftrees f) acc)) /\
    chain st' (fpairs n (ftrees f) acc) /\ writes st st' (fnodes f ++ cnodes acc).
Proof.
  revert fuel st prev f acc. induction n as [n IH] using (well_founded_induction lt_wf).
  intros fuel st prev f acc Hlen Hfuel Hf Hacc Hnd. destruct fuel as [|fuel]; [lia|].
  destruct f as [|p cs ts]; cbn [merge_pairs fhead].
  { exists st. destruct n; (split; [done|split; [done|by split]]). }
  destruct (rep_root_rep _ _ _ _ _ Hf) as (Hp & Hts & Hat).
  unfold node_at at 1. rewrite Hat. cbn [rbind next_sibling].
  destruct ts as [|q ds ts]; cbn [fhead].
  { destruct (set_next_sibling_chain st p cs acc) as (st' & -> & Hch & Hw); [done|done| |].
    { rewrite cnodes_cons. unfold tnodes; cbn. revert Hnd. cbn. by rewrite app_nil_r. }
    cbn [rbind]. exists st'. destruct n; cbn in Hlen; [lia|]. cbn [ftrees fpairs].
    split; [done|]. split; [done|]. destruct Hw as [D W]. split; [done|].
    intros x Hx. apply W. cbn in Hx. set_solver. }
  destruct (rep_root_rep _ _ _ _ _ Hts) as (Hq & Hts' & Hatq).
  unfold node_at at 1. rewrite Hatq. cbn [rbind next_sibling].
  assert (Hperm : fnodes (FCons p cs (FCons q ds ts)) ++ cnodes acc ≡ₚ
            (tnodes (p, cs) ++ tnodes (q, ds)) ++ fnodes ts ++ cnodes acc).
  { unfold tnodes; cbn. constructor. rewrite <- !app_assoc. cbn. by rewrite <- !app_assoc. }
  rewrite Hperm in Hnd. apply NoDup_app in Hnd as (Hnd1 & Hdisj & Hnd2).
  destruct (merge_ok st (p, cs) (q, ds)) as (st1 & Hm & Hr & Hw1); [done|done|done|].
  cbn [fst] in Hm. rewrite Hm. cbn [rbind deref].
  set (m := fmerge (p, cs) (q, ds)) in *.
  pose proof (fmerge_nodes (p, cs) (q, ds)) as Hmn. fold m in Hmn.
  assert (Hacc1 : chain st1 acc).
  { eapply chain_frame; [|exact Hacc]. intros x Hx. apply Hw1. intros Hin.
    apply (Hdisj x Hin). apply elem_of_app. auto. }
  destruct m as [r cr] eqn:Em. cbn [fst snd] in *.
  destruct (set_next_sibling_chain st1 r cr acc) as (st2 & -> & Hch & Hw2); [done|done| |].
  { rewrite cnodes_cons, Hmn. apply NoDup_app in Hnd2 as (? & ? & ?).
    apply NoDup_app. split; [done|]. split; [|done].
    intros x Hx Hin. apply (Hdisj x Hx). apply elem_of_app. auto. }
  cbn [rbind]. cbn [ftrees length] in Hlen. destruct n as [|n]; [lia|].
  assert (Hrn : r ∈ tnodes (p, cs) ++ tnodes (q, ds)).
  { rewrite <- Hmn. apply list_elem_of_here. }
  destruct (IH n ltac:(lia) fuel st2 (Some q) ts ((r, cr) :: acc)) as (st3 & Heq & Hch3 & Hw3).
  - lia.
  - lia.
  - eapply rep_frame; [|exact Hts']. intros x Hx. destruct Hw1 as [_ W1], Hw2 as [_ W2].
    rewrite W2, W1; [done| |].
    + intros Hin. apply (Hdisj x Hin). apply elem_of_app. auto.
    + intros ->%list_elem_of_singleton. apply (Hdisj r Hrn). apply elem_of_app. auto.
  - done.
  - rewrite cnodes_cons, Hmn, (Permutation_app_comm (fnodes ts)), <- app_assoc.
    rewrite (Permutation_app_comm (cnodes acc)). apply NoDup_app. split; [done|]. split; done.
  - exists st3. cbn [ftrees fpairs].
    replace (fmerge (p, cs) (q, ds)) with (r, cr) by (symmetry; exact Em).
    change (chead ((r, cr) :: acc)) with (Some r) in Heq. split; [done|]. split; [done|].
    apply (writes_trans st st1); [|apply (writes_trans st1 st2)].
    + eapply writes_mono; [exact Hw1|]. intros x Hx. rewrite Hperm. apply elem_of_app. auto.
    + eapply writes_mono; [exact Hw2|]. intros x ->%list_elem_of_singleton.
      rewrite Hperm. apply elem_of_app. auto.
    + eapply writes_mono; [exact Hw3|]. intros x. rewrite cnodes_cons, Hmn, Hperm.
      rewrite !elem_of_app. tauto.
Qed.
Lemma fpairs_nodes n ts acc :
  (length ts <= n)%nat -> cnodes (fpairs n ts acc) ≡ₚ cnodes ts ++ cnodes acc.
Proof.
  revert ts acc. induction n as [|n IH]; intros ts acc Hlen.
  - destruct ts; cbn in Hlen; [done|lia].
  - destruct ts as [|x [|y ts]]; cbn [fpairs]; [done| |].
    + by rewrite !cnodes_cons, app_nil_r.
    + cbn in Hlen. rewrite IH by lia. rewrite !cnodes_cons, fmerge_nodes.
      rewrite (Permutation_app_swap_app (cnodes ts)). by rewrite <- !app_assoc.
Qed.

Lemma fpairs_cheap n ts acc : cheap ts -> cheap acc -> cheap (fpairs n ts acc).
Proof.
  revert ts acc. induction n as [|n IH]; intros ts acc Hts Hacc.
  - destruct ts as [|x [|y ts]]; cbn; auto. inversion Hts; constructor; auto.
  - destruct ts as [|x [|y ts]]; cbn [fpairs]; auto.
    + inversion Hts; constructor; auto.
    + inversion Hts as [|?? Hx Hts1]; subst. inversion Hts1 as [|?? Hy Hts2]; subst.
      apply IH; [done|]. constructor; [|done].
      assert (cheap [fmerge x y]) as Hm by (apply fmerge_cheap; by apply Forall_singleton).
      by inversion Hm.
Qed.

Lemma fpairs_not_nil n ts acc :
  (length ts <= n)%nat -> ts <> [] \/ acc <> [] -> fpairs n ts acc <> [].
Proof.
  revert ts acc. induction n as [|n IH]; intros ts acc Hlen Hne.
  - destruct ts as [|x [|y ts]]; cbn in *; try lia. naive_solver.
  - destruct ts as [|x [|y ts]]; cbn [fpairs]; [naive_solver|done|].
    cbn in Hlen. apply IH; [lia|]. by right.
Qed.

(** The second pass folds the chained subheaps into one. *)
Lemma merge_all_ok fuel st t l :
  (length l < fuel)%nat -> root_rep st (fst t) (snd t) -> chain st l ->
  NoDup (tnodes t ++ cnodes l) ->
  exists st', merge_all cmp fuel st (Some (fst t)) (chead l) =
      Ok (st', Some (fst (foldl fmerge t l))) /\
    root_rep st' (fst (foldl fmerge t l)) (snd (foldl fmerge t l)) /\
    writes st st' (tnodes t ++ cnodes l).
Proof.
  revert st t l. induction fuel as [|fuel IH]; intros st t l Hf Ht Hl Hnd; [lia|].
  destruct l as [|[q ds] l]; cbn [merge_all chead head fmap option_fmap option_map fst].
  { exists st. split; [done|]. split; [done|by split]. }
  destruct (chain_root_rep _ _ _ _ Hl) as (Hq & Hl' & g & Hat).
  unfold node_at at 1. rewrite Hat. cbn [rbind next_sibling].
  rewrite cnodes_cons, app_assoc in Hnd. apply NoDup_app in Hnd as (Hnd1 & Hdisj & Hnd2).
  destruct (merge_ok st t (q, ds)) as (st1 & Hm & Hr & Hw1); [done|done|done|].
  cbn [fst] in Hm. rewrite Hm. cbn [rbind].
  pose proof (fmerge_nodes t (q, ds)) as Hmn.
  destruct (IH st1 (fmerge t (q, ds)) l) as (st2 & Heq & Hr2 & Hw2).
  - cbn in Hf. lia.
  - done.
  - eapply chain_frame; [|exact Hl']. intros x Hx. apply Hw1. intros Hin. by apply (Hdisj x).
  - rewrite Hmn. apply NoDup_app. done.
  - exists st2. split; [done|]. split; [done|].
    apply (writes_trans st st1).
    + eapply writes_mono; [exact Hw1|]. intros x. rewrite cnodes_cons, !elem_of_app. tauto.
    + eapply writes_mono; [exact Hw2|]. intros x. rewrite Hmn, cnodes_cons, !elem_of_app. tauto.
Qed.

Lemma foldl_fmerge_nodes t l : tnodes (foldl fmerge t l) ≡ₚ tnodes t ++ cnodes l.
Proof.
  revert t. induction l as [|x l IH]; intros t; cbn [foldl]; [by rewrite app_nil_r|].
  by rewrite IH, fmerge_nodes, cnodes_cons, app_assoc.
Qed.

Lemma foldl_fmerge_cheap t l : cheap [t] -> cheap l -> cheap [foldl fmerge t l].
Proof.
  revert t. induction l as [|x l IH]; intros t Ht Hl; cbn [foldl]; [done|].
  inversion Hl; subst. apply IH; [|done]. apply fmerge_cheap; [done|]. by apply Forall_singleton.
Qed.

Lemma rep_dom st prev f p : rep st prev f -> p ∈ fnodes f -> p ∈ dom st.
Proof.
  revert prev. induction f as [|q cs IHc ts IHt]; intros prev; cbn; [intros _ Hp; inversion Hp|].
  intros (H1 & H2 & H3) [-> |[Hp|Hp]%elem_of_app]%elem_of_cons; eauto.
  by apply elem_of_dom_2 in H1.
Qed.

Lemma nodes_le_size (ns : list ptr) (st : store) :
  NoDup ns -> (forall p, p ∈ ns -> p ∈ dom st) -> (length ns <= size st)%nat.
Proof.
  intros Hnd Hd. rewrite <- size_dom, <- (size_list_to_set (C := gset ptr)) by done.
  apply subseteq_size. intros p Hp%elem_of_list_to_set. auto.
Qed.

Lemma length_ftrees f : (length (ftrees f) <= length (fnodes f))%nat.
Proof. induction f as [|q cs IHc ts IHt]; cbn; [done|]. rewrite length_app. lia. Qed.

Lemma length_fpairs n ts acc :
  (length (fpairs n ts acc) <= length ts + length acc)%nat.
Proof.
  revert ts acc. induction n as [|n IH]; intros ts acc; destruct ts as [|x [|y ts]]; cbn; try lia.
  etransitivity; [apply IH|]. cbn. lia.
Qed.

(** What [merge_children] builds from a sibling list. *)
Definition fcombine (f : forest) : option (ptr * forest) :=
  match f with
  | FNil => None
  | FCons p cs FNil => Some (p, cs)
  | _ =>
    match fpairs (length (ftrees f)) (ftrees f) [] with
    | t :: l => Some (foldl fmerge t l)
    | [] => None
    end
  end.

Lemma fcombine_nodes f :
  match fcombine f with Some t => tnodes t | None => [] end ≡ₚ fnodes f.
Proof.
  destruct f as [|p cs ts]; [done|]. destruct ts as [|q ds ts].
  { cbn. by rewrite app_nil_r. }
  set (f := FCons p cs (FCons q ds ts)).
  assert (Hp := fpairs_nodes (length (ftrees f)) (ftrees f) [] ltac:(done)).
  assert (Hn : fpairs (length (ftrees f)) (ftrees f) [] <> []).
  { apply fpairs_not_nil; [done|]. by left. }
  rewrite ftrees_nodes, app_nil_r in Hp. unfold fcombine; fold f.
  destruct (fpairs (length (ftrees f)) (ftrees f) []) as [|t l]; [done|].
  change (tnodes (foldl fmerge t l) ≡ₚ fnodes f).
  by rewrite foldl_fmerge_nodes, <- cnodes_cons.
Qed.

Lemma fcombine_cheap f t : fheap f -> fcombine f = Some t -> cheap [t].
Proof.
  intros Hf%ftrees_cheap. destruct f as [|p cs ts]; [done|]. destruct ts as [|q ds ts].
  { cbn in *. intros [= <-]. done. }
  set (f := FCons p cs (FCons q ds ts)) in *. unfold fcombine; fold f.
  assert (Hc : cheap (fpairs (length (ftrees f)) (ftrees f) [])).
  { apply fpairs_cheap; [done|constructor]. }
  destruct (fpairs (length (ftrees f)) (ftrees f) []) as [|t' l]; [done|].
  intros [= <-]. inversion Hc; subst. apply foldl_fmerge_cheap; [|done]. by apply Forall_singleton.
Qed.

Lemma merge_children_ok st prev f :
  rep st prev f -> NoDup (fnodes f) ->
  exists st', merge_children cmp st (fhead f) = Ok (st', fst <$> fcombine f) /\
    match fcombine f with Some t => root_rep st' (fst t) (snd t) | None => True end /\
    writes st st' (fnodes f).
Proof.
  intros Hf Hnd. destruct f as [|p cs ts]; cbn [fhead merge_children].
  { exists st. split; [done|]. split; [done|by split]. }
  destruct (rep_root_rep _ _ _ _ _ Hf) as (Hp & Hts & Hat).
  unfold node_at at 1. rewrite Hat. cbn [rbind next_sibling].
  destruct ts as [|q ds ts]; cbn [fhead].
  { exists st. split; [done|]. split; [done|by split]. }
  set (f := FCons p cs (FCons q ds ts)) in *.
  change (Some p) with (fhead f). change None with (chead []).
  assert (Hsz : (length (fnodes f) <= size st)%nat).
  { apply nodes_le_size; [done|]. intros x Hx. by apply (rep_dom st prev f). }
  pose proof (length_ftrees f) as Hlt.
  destruct (merge_pairs_ok (length (ftrees f)) (S (size st)) st prev f [])
    as (st1 & -> & Hch & Hw1); [done|lia|done|done|by rewrite app_nil_r|].
  cbn [rbind]. unfold fcombine; fold f.
  assert (Hpn := fpairs_nodes (length (ftrees f)) (ftrees f) [] ltac:(done)).
  assert (Hn : fpairs (length (ftrees f)) (ftrees f) [] <> []).
  { apply fpairs_not_nil; [done|]. by left. }
  pose proof (length_fpairs (length (ftrees f)) (ftrees f) []) as Hlp.
  rewrite ftrees_nodes in Hpn. cbn [cnodes fmap list_fmap concat] in Hpn. rewrite app_nil_r in *.
  destruct (fpairs (length (ftrees f)) (ftrees f) []) as [|[r cr] l] eqn:El; [done|].
  cbn [chead head fmap option_fmap option_map fst deref rbind].
  destruct (chain_root_rep _ _ _ _ Hch) as (Hr & Hl & g & Hatr).
  unfold node_at at 1. rewrite Hatr. cbn [rbind next_sibling].
  rewrite cnodes_cons in Hpn.
  assert (Hsz1 : size st1 = size st).
  { rewrite <- !size_dom. f_equal. apply Hw1. }
  destruct (merge_all_ok (S (size st1)) st1 (r, cr) l) as (st2 & Heq & Hr2 & Hw2).
  - cbn [length] in Hlp. lia.
  - done.
  - done.
  - by rewrite Hpn.
  - exists st2. cbn [fst] in Heq. split; [exact Heq|]. split; [done|].
    apply (writes_trans st st1); [done|]. eapply writes_mono; [exact Hw2|].
    intros x. by rewrite Hpn.
Qed.

(** ** The priority queue the operations implement *)

Definition onodes (t : option (ptr * forest)) : list ptr :=
  match t with Some t => tnodes t | None => [] end.

Definition orep (st : store) (h : pairingheap) (t : option (ptr * forest)) : Prop :=
  ph_root h = (fst <$> t) /\
  match t with
  | Some t => rep st None (FCons (fst t) (snd t) FNil) /\ NoDup (tnodes t) /\ cheap [t]
  | None => True
  end.

(** [h], in the store [st], is a well-formed heap holding the nodes [ns]. *)
Definition ph_queue (st : store) (h : pairingheap) (ns : list ptr) : Prop :=
  exists t, orep st h t /\ onodes t ≡ₚ ns.

Lemma set_root_links_ok st p cs :
  root_rep st p cs -> p ∉ fnodes cs ->
  exists st', set_root_links st p = Ok st' /\ rep st' None (FCons p cs FNil) /\ writes st st' [p].
Proof.
  intros ((s & g & Hp) & Hcs) Hn. unfold set_root_links, set_prev_or_parent, set_next_sibling, node_at.
  rewrite Hp. cbn [rbind]. rewrite lookup_insert_eq. cbn [rbind first_child next_sibling prev_or_parent].
  rewrite insert_insert_eq. eexists; split; [done|]. split.
  - cbn. rewrite lookup_insert_eq. split; [done|]. split; [|done].
    eapply rep_frame; [|exact Hcs]. intros q Hq. apply lookup_insert_ne. by intros ->.
  - split.
    + rewrite dom_insert_L. apply elem_of_dom_2 in Hp. set_solver.
    + intros q Hq. apply lookup_insert_ne. intros ->. apply Hq. by apply list_elem_of_singleton.
Qed.

Lemma ph_queue_perm st h ns ns' : ns ≡ₚ ns' -> ph_queue st h ns -> ph_queue st h ns'.
Proof. intros Hp (t & Ht & Hn). exists t. split; [done|]. by rewrite Hn. Qed.

Lemma ph_queue_frame st st' h ns :
  (forall q, q ∈ ns -> st' !! q = st !! q) -> ph_queue st h ns -> ph_queue st' h ns.
Proof.
  intros Hf (t & (Hr & Ht) & Hn). exists t. split; [|done]. split; [done|].
  destruct t as [[p cs]|]; [|done]. destruct Ht as (H1 & H2 & H3). split; [|done].
  eapply rep_frame; [|exact H1]. intros q Hq. apply Hf. rewrite <- Hn.
  cbn in *. by rewrite app_nil_r in Hq.
Qed.

Lemma ph_queue_empty st : ph_queue st pairingheap_allocate [].
Proof. by exists None. Qed.

Lemma pairingheap_is_empty_ok st h ns :
  ph_queue st h ns -> pairingheap_is_empty h = bool_decide (ns = []).
Proof.
  intros (t & (Hr & _) & Hn). unfold pairingheap_is_empty. rewrite Hr.
  destruct t as [t|]; cbn in *.
  - symmetry. apply bool_decide_eq_false. intros ->. by apply Permutation_nil_r in Hn.
  - symmetry. apply bool_decide_eq_true. by apply Permutation_nil_l in Hn.
Qed.

Lemma pairingheap_first_ok st h ns :
  ph_queue st h ns -> ns <> [] ->
  exists p, pairingheap_first h = Ok p /\ p ∈ ns /\ forall q, q ∈ ns -> cle cmp q p.
Proof.
  intros (t & (Hr & Ht) & Hn) Hne. unfold pairingheap_first. rewrite Hr.
  destruct t as [[p cs]|]; cbn in *; [|by apply Permutation_nil_l in Hn].
  exists p. split; [done|]. split; [rewrite <- Hn; left|].
  intros q. rewrite <- Hn. destruct Ht as (_ & _ & [Hq _]%cheap_singleton).
  intros [-> |Hin]%elem_of_cons; [reflexivity|auto].
Qed.

Lemma pairingheap_add_ok st h ns p :
  ph_queue st h ns -> p ∈ dom st -> p ∉ ns ->
  exists st' h', pairingheap_add cmp st h p = Ok (st', h') /\ ph_queue st' h' (p :: ns) /\
    writes st st' (p :: ns).
Proof.
  intros (t & (Hr & Ht) & Hn) Hd Hp. apply elem_of_dom in Hd as [n Hpn].
  unfold pairingheap_add, set_first_child, node_at at 1. rewrite Hpn. cbn [rbind].
  set (st1 := <[p := _]> st).
  assert (Hp1 : root_rep st1 p FNil).
  { split; [|done]. eexists _, _. subst st1. by rewrite lookup_insert_eq. }
  assert (Hw1 : writes st st1 [p]).
  { split; [subst st1; rewrite dom_insert_L; apply elem_of_dom_2 in Hpn; set_solver|].
    intros q Hq. apply lookup_insert_ne. intros ->. apply Hq. by apply list_elem_of_singleton. }
  rewrite Hr. destruct t as [[a ca]|]; cbn [fmap option_fmap option_map fst onodes] in *.
  - destruct Ht as (Ha & Hnd & Hch).
    assert (Hpa : p ∉ tnodes (a, ca)) by (by rewrite Hn).
    assert (Ha1 : root_rep st1 a ca).
    { apply (root_rep_frame st); [|by apply (rep_root_rep st None a ca FNil)].
      intros q Hq. apply Hw1. intros ->%list_elem_of_singleton. apply Hpa.
      unfold tnodes; cbn. apply elem_of_cons. tauto. }
    destruct (merge_ok st1 (a, ca) (p, FNil)) as (st2 & Hm & Hr2 & Hw2); [done|done| |].
    { apply NoDup_app. split; [done|]. split; [|apply NoDup_singleton].
      intros q Hq ->%list_elem_of_singleton. done. }
    cbn [fst] in Hm. rewrite Hm. cbn [rbind deref].
    pose proof (fmerge_nodes (a, ca) (p, FNil)) as Hmn.
    assert (Hmc : cheap [fmerge (a, ca) (p, FNil)]).
    { apply fmerge_cheap; [done|]. apply Forall_singleton. split; [|done]. intros q Hq. inversion Hq. }
    assert (Hmnd : NoDup (tnodes (fmerge (a, ca) (p, FNil)))).
    { rewrite Hmn. apply NoDup_app. split; [done|]. split; [|apply NoDup_singleton].
      intros q Hq ->%list_elem_of_singleton. done. }
    destruct (set_root_links_ok st2 _ _ Hr2) as (st3 & -> & Hrep & Hw3).
    { by apply NoDup_cons in Hmnd as [? _]. }
    cbn [rbind]. eexists _, _. split; [done|].
    assert (Hall : tnodes (fmerge (a, ca) (p, FNil)) ≡ₚ p :: ns).
    { rewrite Hmn, Hn. symmetry. apply Permutation_cons_append. }
    split; [by exists (Some (fmerge (a, ca) (p, FNil)))|].
    apply (writes_trans st st1); [|apply (writes_trans st1 st2)]; eapply writes_mono; try eassumption.
    + intros q ->%list_elem_of_singleton. left.
    + intros q. by rewrite <- Hmn, Hall.
    + intros q ->%list_elem_of_singleton. rewrite <- Hall. left.
  - cbn [merge rbind deref].
    destruct (set_root_links_ok st1 p FNil Hp1) as (st3 & -> & Hrep & Hw3); [intros Hq; inversion Hq|].
    cbn [rbind]. eexists _, _. split; [done|]. apply Permutation_nil_l in Hn. subst ns. split.
    + exists (Some (p, FNil)). split; [|done]. split; [done|]. split; [done|].
      split; [apply NoDup_singleton|]. apply Forall_singleton. split; [|done].
      intros q Hq. inversion Hq.
    + by apply (writes_trans st st1).
Qed.

Lemma pairingheap_remove_first_ok st h ns :
  ph_queue st h ns -> ns <> [] ->
  exists p st' h' ns', pairingheap_remove_first cmp st h = Ok (p, st', h') /\
    ns ≡ₚ p :: ns' /\ ph_queue st' h' ns' /\ writes st st' ns /\
    (forall q, q ∈ ns -> cle cmp q p).
Proof.
  intros Hq Hne. destruct (pairingheap_first_ok st h ns Hq Hne) as (p' & Hfirst & _ & Hmax).
  destruct Hq as (t & (Hr & Ht) & Hn). unfold pairingheap_first in Hfirst.
  unfold pairingheap_remove_first. rewrite Hr in *.
  destruct t as [[p cs]|]; cbn [fmap option_fmap option_map fst snd onodes deref rbind] in *; [|done].
  simplify_eq. destruct Ht as (Hrep & Hnd & Hch). destruct Hrep as (Hat & Hcs & _).
  unfold node_at at 1. rewrite Hat. cbn [rbind first_child].
  apply NoDup_cons in Hnd as [Hnp Hnd].
  destruct (merge_children_ok st (Some p') cs) as (st1 & -> & Hroot & Hw1); [done|done|].
  cbn [rbind]. pose proof (fcombine_nodes cs) as Hcn.
  pose proof (fcombine_cheap cs) as Hcc.
  apply cheap_singleton in Hch as [_ Hfh].
  destruct (fcombine cs) as [[r cr]|]; cbn [fmap option_fmap option_map fst snd] in *; cbn [rbind].
  - assert (Hnd1 : NoDup (tnodes (r, cr))) by (by rewrite Hcn).
    destruct (set_root_links_ok st1 r cr Hroot) as (st2 & -> & Hrep2 & Hw2).
    { by apply NoDup_cons in Hnd1 as [? _]. }
    cbn [rbind]. eexists p', st2, _, (fnodes cs). split; [done|]. split; [by rewrite <- Hn|].
    split; [|split; [|done]].
    + exists (Some (r, cr)). split; [|done]. split; [done|]. split; [done|]. split; [done|].
      by apply Hcc.
    + apply (writes_trans st st1).
      * eapply writes_mono; [exact Hw1|]. intros q Hq. rewrite <- Hn. by right.
      * eapply writes_mono; [exact Hw2|]. intros q ->%list_elem_of_singleton.
        rewrite <- Hn. right. rewrite <- Hcn. left.
  - eexists p', st1, _, (fnodes cs). split; [done|]. split; [by rewrite <- Hn|].
    split; [|split; [|done]].
    + exists None. by split.
    + eapply writes_mono; [exact Hw1|]. intros q Hq. rewrite <- Hn. by right.
Qed.

(** ** Removing an interior node

    [ctx o via k]: the forest [k g] contains [g] behind a link of the node
    [o], its [first_child] when [via] is true and its [next_sibling]
    otherwise. *)
Inductive ctx : ptr -> bool -> (forest -> forest) -> Prop :=
| ctx_child o ts : ctx o true (fun g => FCons o g ts)
| ctx_sibling o cs : ctx o false (fun g => FCons o cs g)
| ctx_below q ts o via k : ctx o via k -> ctx o via (fun g => FCons q (k g) ts)
| ctx_right q cs o via k : ctx o via k -> ctx o via (fun g => FCons q cs (k g)).

Lemma ctx_find p f :
  p ∈ fnodes f -> fhead f <> Some p ->
  exists o via k cs ts, ctx o via k /\ f = k (FCons p cs ts).
Proof.
  induction f as [|q cs IHc ts IHt]; cbn; [intros Hp; inversion Hp|].
  intros [-> |[Hp|Hp]%elem_of_app]%elem_of_cons Hne; [done| |].
  - destruct (decide (fhead cs = Some p)) as [Hh|Hh].
    + destruct cs as [|p' cc ct]; [done|]. cbn in Hh. simplify_eq.
      exists q, true, (fun g => FCons q g ts), cc, ct. split; [constructor|done].
    + destruct (IHc Hp Hh) as (o & via & k & cc & ct & Hk & ->).
      exists o, via, (fun g => FCons q (k g) ts), cc, ct. split; [by constructor|done].
  - destruct (decide (fhead ts = Some p)) as [Hh|Hh].
    + destruct ts as [|p' cc ct]; [done|]. cbn in Hh. simplify_eq.
      exists q, false, (fun g => FCons q cs g), cc, ct. split; [constructor|done].
    + destruct (IHt Hp Hh) as (o & via & k & cc & ct & Hk & ->).
      exists o, via, (fun g => FCons q cs (k g)), cc, ct. split; [by constructor|done].
Qed.

Lemma ctx_nodes o via k :
  ctx o via k -> exists ns, o ∈ ns /\ forall g, fnodes (k g) ≡ₚ ns ++ fnodes g.
Proof.
  induction 1 as [o ts|o cs|q ts o via k Hk (ns & Ho & IH)|q cs o via k Hk (ns & Ho & IH)].
  - exists (o :: fnodes ts). split; [left|]. intros g. cbn. constructor. apply Permutation_app_comm.
  - exists (o :: fnodes cs). split; [left|]. done.
  - exists (q :: ns ++ fnodes ts). split; [right; apply elem_of_app; auto|].
    intros g. cbn. rewrite IH, <- !app_assoc. constructor. f_equiv. apply Permutation_app_comm.
  - exists (q :: fnodes cs ++ ns). split; [right; apply elem_of_app; auto|].
    intros g. cbn. by rewrite IH, <- !app_assoc.
Qed.

Lemma ctx_head o via k g g' : ctx o via k -> fhead (k g) = fhead (k g').
Proof. by destruct 1. Qed.

Definition link_of (n : pairingheap_node) (via : bool) : option ptr :=
  if via then first_child n else next_sibling n.
Definition with_link (n : pairingheap_node) (via : bool) (v : option ptr) : pairingheap_node :=
  if via then mk_node v (next_sibling n) (prev_or_parent n)
  else mk_node (first_child n) v (prev_or_parent n).

Lemma ctx_rep o via k st prev g :
  ctx o via k -> rep st prev (k g) ->
  rep st (Some o) g /\ exists n, st !! o = Some n /\ link_of n via = fhead g.
Proof.
  intros Hk. revert prev. induction Hk; intros prev; cbn; intros (H1 & H2 & H3); eauto.
Qed.

Lemma ctx_rep_update o via k st st' prev g g' n :
  ctx o via k -> rep st prev (k g) -> NoDup (fnodes (k g)) ->
  st !! o = Some n -> st' !! o = Some (with_link n via (fhead g')) ->
  (forall q, q <> o -> q ∉ fnodes g -> st' !! q = st !! q) ->
  rep st' (Some o) g' -> rep st' prev (k g').
Proof.
  intros Hk. revert prev.
  induction Hk as [o ts|o cs|q ts o via k Hk IH|q cs o via k Hk IH];
    intros prev; cbn; intros (H1 & H2 & H3) Hnd Hn Hn' Hfr Hg'.
  - simplify_eq. split; [done|]. split; [done|].
    apply NoDup_cons in Hnd as [Ho Hnd]. apply NoDup_app in Hnd as (_ & Hd & _).
    eapply rep_frame; [|exact H3]. intros x Hx. apply Hfr.
    + intros ->. apply Ho. apply elem_of_app. auto.
    + intros Hin. by apply (Hd x).
  - simplify_eq. split; [done|]. split; [|done].
    apply NoDup_cons in Hnd as [Ho Hnd]. apply NoDup_app in Hnd as (_ & Hd & _).
    eapply rep_frame; [|exact H2]. intros x Hx. apply Hfr.
    + intros ->. apply Ho. apply elem_of_app. auto.
    + by apply Hd.
  - destruct (ctx_nodes o via k Hk) as (ns & Ho & Hns).
    apply NoDup_cons in Hnd as [Hq Hnd]. apply NoDup_app in Hnd as (Hnd & Hd & _).
    assert (Hoin : forall x, x = o \/ x ∈ fnodes g -> x ∈ fnodes (k g)).
    { intros x Hx. rewrite Hns. apply elem_of_app. naive_solver. }
    split; [|split].
    + rewrite Hfr, H1.
      * by rewrite (ctx_head o via k g' g Hk).
      * intros ->. apply Hq. apply elem_of_app. auto.
      * intros Hin. apply Hq. apply elem_of_app. auto.
    + by apply IH.
    + eapply rep_frame; [|exact H3]. intros x Hx. apply Hfr.
      * intros ->. apply (Hd o); auto.
      * intros Hin. apply (Hd x); auto.
  - destruct (ctx_nodes o via k Hk) as (ns & Ho & Hns).
    apply NoDup_cons in Hnd as [Hq Hnd]. apply NoDup_app in Hnd as (_ & Hd & Hnd).
    assert (Hoin : forall x, x = o \/ x ∈ fnodes g -> x ∈ fnodes (k g)).
    { intros x Hx. rewrite Hns. apply elem_of_app. naive_solver. }
    split; [|split].
    + rewrite Hfr, H1.
      * by rewrite (ctx_head o via k g' g Hk).
      * intros ->. apply Hq. apply elem_of_app. auto.
      * intros Hin. apply Hq. apply elem_of_app. auto.
    + eapply rep_frame; [|exact H2]. intros x Hx. apply Hfr.
      * intros ->. apply (Hd o Hx); auto.
      * intros Hin. apply (Hd x Hx); auto.
    + by apply IH.
Qed.

Lemma ctx_heap o via k g g' :
  ctx o via k -> fheap (k g) -> fheap g' -> (forall q, q ∈ fnodes g' -> q ∈ fnodes g) ->
  fheap (k g').
Proof.
  intros Hk Hkg Hg' Hsub. revert Hkg.
  induction Hk as [o ts|o cs|q ts o via k Hk IH|q cs o via k Hk IH];
    cbn; intros (H1 & H2 & H3).
  - split; [|by split]. auto.
  - by split.
  - split; [|split; auto]. destruct (ctx_nodes o via k Hk) as (ns & Ho & Hns).
    intros x. rewrite Hns. intros Hx. apply H1. rewrite Hns.
    apply elem_of_app. apply elem_of_app in Hx. naive_solver.
  - split; [done|]. split; auto.
Qed.

Lemma ctx_subheap o via k g : ctx o via k -> fheap (k g) -> fheap g.
Proof. induction 1; cbn; naive_solver. Qed.

Lemma ctx_via o via k st prev p cs ts n :
  ctx o via k -> rep st prev (k (FCons p cs ts)) -> NoDup (fnodes (k (FCons p cs ts))) ->
  st !! o = Some n -> bool_decide (first_child n = Some p) = via.
Proof.
  intros Hk Hrep Hnd Hn. destruct (ctx_rep _ _ _ _ _ _ Hk Hrep) as (_ & n' & Hn' & Hl).
  simplify_eq. destruct via; [by apply bool_decide_eq_true|].
  apply bool_decide_eq_false. intros Hfc. clear Hl.
  revert prev Hrep Hnd. remember false as via eqn:Ev.
  induction Hk as [o ts'|o cs'|q ts' o via k Hk IH|q cs' o via k Hk IH];
    intros prev; cbn; intros (H1 & H2 & H3) Hnd; simplify_eq.
  - cbn in Hfc. apply NoDup_cons in Hnd as [_ Hnd]. apply NoDup_app in Hnd as (_ & Hd & _).
    destruct cs' as [|c cc ct]; [done|]. cbn in Hfc. simplify_eq.
    apply (Hd p); left.
  - apply NoDup_cons in Hnd as [_ Hnd]. apply NoDup_app in Hnd as (Hnd & _ & _). by eapply IH.
  - apply NoDup_cons in Hnd as [_ Hnd]. apply NoDup_app in Hnd as (_ & _ & Hnd). by eapply IH.
Qed.

(** Redirecting the back link of the head of a sibling list. *)
Definition retarget (st : store) (next : option ptr) (v : option ptr) : res store :=
  match next with Some s => set_prev_or_parent st s v | None => Ok st end.

Lemma retarget_ok st prev v f :
  rep st prev f -> NoDup (fnodes f) ->
  exists st', retarget st (fhead f) v = Ok st' /\ rep st' v f /\ writes st st' (fnodes f).
Proof.
  destruct f as [|s cs ts]; cbn; [intros; exists st; split; [done|split; [done|by split]]|].
  intros (H1 & H2 & H3) Hnd. apply NoDup_cons in Hnd as [Hs _].
  unfold set_prev_or_parent, node_at. rewrite H1. cbn. eexists; split; [done|]. split.
  - rewrite lookup_insert_eq. split; [done|].
    split; (eapply rep_frame; [|eassumption]); intros x Hx; apply lookup_insert_ne; intros ->;
      apply Hs, elem_of_app; auto.
  - split; [rewrite dom_insert_L; apply elem_of_dom_2 in H1; set_solver|].
    intros x Hx. apply lookup_insert_ne. intros ->. apply Hx. left.
Qed.

Lemma set_prev_ptr_eq st o via v n :
  st !! o = Some n -> set_prev_ptr st o via v = Ok (<[o := with_link n via v]> st).
Proof.
  intros Hn. unfold set_prev_ptr, set_first_child, set_next_sibling, node_at, with_link.
  destruct via; by rewrite Hn.
Qed.

(** The node [p] without its subtree, whose children take its place. *)
Definition fpromote (cs ts : forest) : forest :=
  match fcombine cs with Some (r, cr) => FCons r cr ts | None => ts end.

Lemma fcombine_None cs : fcombine cs = None -> cs = FNil.
Proof.
  intros H. pose proof (fcombine_nodes cs) as Hn. rewrite H in Hn.
  apply Permutation_nil_l in Hn. by destruct cs.
Qed.

Lemma fpromote_nodes cs ts : fnodes (fpromote cs ts) ≡ₚ fnodes cs ++ fnodes ts.
Proof.
  unfold fpromote. pose proof (fcombine_nodes cs) as Hn.
  destruct (fcombine cs) as [[r cr]|]; [|apply Permutation_nil_l in Hn; by rewrite <- Hn].
  by rewrite <- Hn.
Qed.

Lemma fpromote_heap cs ts : fheap cs -> fheap ts -> fheap (fpromote cs ts).
Proof.
  intros Hc Ht. unfold fpromote. destruct (fcombine cs) as [[r cr]|] eqn:E; [|done].
  pose proof (fcombine_cheap cs (r, cr) Hc E) as [H1 H2]%cheap_singleton. by split.
Qed.

(** Node [p], with children [cs] and next siblings [ts], below its owner [o]. *)
Record interior o via k st prev p cs ts n : Prop := {
  it_ctx : ctx o via k;
  it_rep : rep st prev (k (FCons p cs ts));
  it_nodup : NoDup (fnodes (k (FCons p cs ts)));
  it_node : rep st (Some o) (FCons p cs ts);
  it_owner : st !! o = Some n;
  it_apart : o ∉ p :: fnodes cs ++ fnodes ts;
  it_subtree : NoDup (p :: fnodes cs ++ fnodes ts);
  it_in : forall q, q = o \/ q = p \/ q ∈ fnodes cs \/ q ∈ fnodes ts -> q ∈ fnodes (k (FCons p cs ts))
}.

Lemma interior_intro o via k st prev p cs ts :
  ctx o via k -> rep st prev (k (FCons p cs ts)) -> NoDup (fnodes (k (FCons p cs ts))) ->
  exists n, interior o via k st prev p cs ts n.
Proof.
  intros Hk Hrep Hnd. destruct (ctx_rep _ _ _ _ _ _ Hk Hrep) as (Hnode & n & Hn & _). exists n.
  destruct (ctx_nodes _ _ _ Hk) as (ns & Ho & Hns).
  assert (Hall : NoDup (ns ++ p :: fnodes cs ++ fnodes ts)) by (pose proof Hnd as Hnd'; by rewrite Hns in Hnd').
  apply NoDup_app in Hall as (_ & Hdo & Hall). split; try done; [by apply Hdo|].
  intros q Hq. rewrite Hns. cbn. rewrite elem_of_app, elem_of_cons, elem_of_app. naive_solver.
Qed.

(** Without children: the next siblings move up. *)
Lemma remove_leaf_ok o via k st prev p ts n :
  interior o via k st prev p FNil ts n ->
  exists st', (do! st1 <- set_prev_ptr st o via (fhead ts) ;;
               do! n1 <- node_at st1 p ;;
               match fhead ts with Some s => set_prev_or_parent st1 s (prev_or_parent n1) | None => Ok st1 end) = Ok st' /\
    rep st' prev (k ts) /\ writes st st' (fnodes (k (FCons p FNil ts))).
Proof.
  intros [Hk Hrep Hnd (Hp & _ & Hts) Hn Hop Hsub Hin]. apply NoDup_cons in Hsub as [_ Hndt].
  assert (Hots : o ∉ fnodes ts) by (intros Hx; apply Hop; right; by apply elem_of_app; right).
  assert (Hpo : p <> o) by (intros ->; apply Hop; left).
  rewrite (set_prev_ptr_eq _ _ _ _ _ Hn). cbn [rbind]. set (st1 := <[o := _]> st).
  unfold node_at at 1. replace (st1 !! p) with (st !! p) by (symmetry; by apply lookup_insert_ne).
  rewrite Hp. cbn [rbind prev_or_parent].
  destruct (retarget_ok st1 (Some p) (Some o) ts) as (st2 & Hre & Hrep2 & [Hd2 Hw2]); [|done|].
  { eapply rep_frame; [|exact Hts]. intros q Hq. apply lookup_insert_ne. by intros ->. }
  exists st2. split; [exact Hre|]. split.
  - eapply (ctx_rep_update o via k st st2 prev (FCons p FNil ts) ts n); eauto.
    + by rewrite Hw2; [apply lookup_insert_eq|].
    + intros q Hqo Hq. rewrite Hw2; [by apply lookup_insert_ne|]. intros Hx. apply Hq. right. by apply elem_of_app; right.
  - split; [rewrite Hd2; subst st1; rewrite dom_insert_L; apply elem_of_dom_2 in Hn; set_solver|].
    intros q Hq. rewrite Hw2 by (intros Hx; apply Hq, Hin; auto).
    apply lookup_insert_ne. intros ->. apply Hq, Hin. auto.
Qed.

(** The combined children [FCons r cr FNil], as [merge_children] leaves them in
    [st1], take the place of [p]. *)
Lemma replace_node_ok o via k st st1 prev p cs ts n r cr s0 g0 :
  interior o via k st prev p cs ts n -> tnodes (r, cr) ≡ₚ fnodes cs ->
  st1 !! r = Some (mk_node (fhead cr) s0 g0) -> rep st1 (Some r) cr -> writes st st1 (fnodes cs) ->
  let st4 := <[o := with_link n via (Some r)]> (<[r := mk_node (fhead cr) (fhead ts) (Some o)]> st1) in
  exists st', match fhead ts with Some s => set_prev_or_parent st4 s (Some r) | None => Ok st4 end = Ok st' /\
    rep st' prev (k (FCons r cr ts)) /\ writes st st' (fnodes (k (FCons p cs ts))).
Proof.
  intros [Hk Hrep Hnd (Hp & _ & Hts) Hn Hop Hsub Hin] Hcn Hr Hcr [Hd1 Hw1] st4.
  apply NoDup_cons in Hsub as [Hpn Hsub]. apply NoDup_app in Hsub as (Hndc & Hdct & Hndt).
  assert (Hrc : forall q, q = r \/ q ∈ fnodes cr -> q ∈ fnodes cs).
  { intros q Hq. rewrite <- Hcn. unfold tnodes; cbn. rewrite elem_of_cons. done. }
  assert (Hrcr : r ∉ fnodes cr) by (rewrite <- Hcn in Hndc; by apply NoDup_cons in Hndc as [? _]).
  assert (Hoc : o ∉ fnodes cs) by (intros Hx; apply Hop; right; by apply elem_of_app; left).
  assert (Hot : o ∉ fnodes ts) by (intros Hx; apply Hop; right; by apply elem_of_app; right).
  assert (Hro : r <> o) by (intros ->; auto).
  assert (Hst4 : forall q, q <> o -> q <> r -> q ∉ fnodes cs -> st4 !! q = st !! q).
  { intros q H1 H2 H3. subst st4. rewrite !lookup_insert_ne by done. by apply Hw1. }
  destruct (retarget_ok st4 (Some p) (Some r) ts) as (st5 & Hre & Hrep5 & [Hd5 Hw5]); [|done|].
  { eapply rep_frame; [|exact Hts]. intros q Hq.
    apply Hst4; [by intros ->|intros ->; apply (Hdct r); auto|intros Hx; by apply (Hdct q)]. }
  exists st5. split; [exact Hre|]. split.
  - eapply (ctx_rep_update o via k st st5 prev (FCons p cs ts) (FCons r cr ts) n); eauto.
    + by rewrite Hw5; [apply lookup_insert_eq|].
    + intros q Hqo Hq. rewrite Hw5, Hst4; auto.
      * intros ->. apply Hq. right. apply elem_of_app. left. apply Hrc. auto.
      * intros Hx. apply Hq. right. by apply elem_of_app; left.
      * intros Hx. apply Hq. right. by apply elem_of_app; right.
    + cbn. split; [|split; [|done]].
      * rewrite Hw5 by (intros Hx; apply (Hdct r); auto). subst st4. rewrite lookup_insert_ne by done. by rewrite lookup_insert_eq.
      * eapply rep_frame; [|exact Hcr]. intros q Hq. assert (q ∈ fnodes cs) by auto.
        rewrite Hw5 by (intros Hx; by apply (Hdct q)). subst st4. rewrite !lookup_insert_ne; [done|by intros ->|by intros ->].
  - split.
    + rewrite Hd5. subst st4. rewrite !dom_insert_L, Hd1. apply elem_of_dom_2 in Hn, Hr. rewrite Hd1 in Hr. set_solver.
    + intros q Hq. rewrite Hw5, Hst4; [done|..]; intros Hx; apply Hq, Hin; subst; auto. right; right; left. auto.
Qed.

Lemma remove_interior_ok o via k st prev p cs ts :
  ctx o via k -> rep st prev (k (FCons p cs ts)) -> NoDup (fnodes (k (FCons p cs ts))) ->
  exists st', remove_interior cmp st p = Ok st' /\ rep st' prev (k (fpromote cs ts)) /\
    writes st st' (fnodes (k (FCons p cs ts))).
Proof.
  intros Hk Hrep Hnd. destruct (interior_intro o via k st prev p cs ts Hk Hrep Hnd) as [n Hint].
  destruct (it_node _ _ _ _ _ _ _ _ _ Hint) as (Hp & Hcs & Hts). pose proof (it_owner _ _ _ _ _ _ _ _ _ Hint) as Hn.
  pose proof (it_apart _ _ _ _ _ _ _ _ _ Hint) as Hop. pose proof (it_subtree _ _ _ _ _ _ _ _ _ Hint) as Hsub.
  apply NoDup_cons in Hsub as [Hpn (Hndc & _ & _)%NoDup_app].
  unfold remove_interior, node_at at 1. rewrite Hp. cbn [rbind first_child next_sibling prev_or_parent deref].
  unfold node_at at 1. rewrite Hn. cbn [rbind]. rewrite (ctx_via _ _ _ _ _ _ _ _ _ Hk Hrep Hnd Hn).
  unfold fpromote. destruct cs as [|c cc ct]; [by apply (remove_leaf_ok o via k st prev p ts n)|].
  set (cs := FCons c cc ct) in *. cbn [fhead]. change (Some c) with (fhead cs).
  destruct (merge_children_ok st (Some p) cs) as (st1 & -> & Hroot & Hw); [done|done|]. pose proof Hw as [_ Hw1].
  cbn [rbind]. pose proof (fcombine_nodes cs) as Hcn.
  destruct (fcombine cs) as [[r cr]|] eqn:Ec; [|by apply fcombine_None in Ec].
  cbn [fmap option_fmap option_map fst snd deref rbind] in *. cbn [fst deref rbind].
  unfold node_at at 1. rewrite Hw1 by (intros Hx; apply Hpn, elem_of_app; auto).
  rewrite Hp. cbn [rbind next_sibling prev_or_parent]. destruct Hroot as ((s0 & g0 & Hr) & Hcr).
  unfold set_prev_or_parent at 1, node_at at 1. rewrite Hr. cbn [rbind].
  unfold set_next_sibling at 1, node_at at 1. rewrite lookup_insert_eq.
  cbn [rbind first_child next_sibling prev_or_parent]. rewrite insert_insert_eq.
  assert (Hoc : o ∉ fnodes cs) by (intros Hx; apply Hop; right; by apply elem_of_app; left).
  assert (Hro : r <> o) by (intros ->; apply Hoc; rewrite <- Hcn; left).
  erewrite (set_prev_ptr_eq _ o) by (rewrite lookup_insert_ne, Hw1 by done; exact Hn). cbn [rbind].
  by apply (replace_node_ok o via k st st1 prev p cs ts n r cr s0 g0).
Qed.

Lemma pairingheap_remove_ok st h ns p :
  ph_queue st h ns -> p ∈ ns ->
  exists st' h' ns', pairingheap_remove cmp st h p = Ok (st', h') /\
    ns ≡ₚ p :: ns' /\ ph_queue st' h' ns' /\ writes st st' ns.
Proof.
  intros Hq Hp. unfold pairingheap_remove. destruct (decide (ph_root h = Some p)) as [Hr|Hr].
  - destruct (pairingheap_remove_first_ok st h ns Hq) as (p' & st' & h' & ns' & Heq & Hperm & Hq' & Hw & _).
    { intros ->. inversion Hp. }
    rewrite Heq. cbn [rbind]. exists st', h', ns'. split; [done|]. split; [|done].
    unfold pairingheap_remove_first in Heq. rewrite Hr in Heq. cbn [deref rbind] in Heq.
    apply rbind_Ok in Heq as (n & _ & Heq). apply rbind_Ok in Heq as ([st1 root] & _ & Heq).
    apply rbind_Ok in Heq as (st2 & _ & Heq). by simplify_eq.
  - destruct Hq as (t & (Hroot & Ht) & Hn). destruct t as [[r cr]|]; cbn [onodes fmap option_fmap option_map fst snd] in *.
    2:{ apply Permutation_nil_l in Hn. subst. inversion Hp. }
    destruct Ht as (Hrep & Hnd & [Hc1 Hc2]%cheap_singleton).
    assert (HF : fnodes (FCons r cr FNil) = tnodes (r, cr)) by (cbn; by rewrite app_nil_r).
    assert (Hpr : p <> r) by (intros ->; by rewrite Hroot in Hr).
    destruct (decide (fhead cr = Some p)) as [Hh|Hh].
    + destruct cr as [|p' cs ts]; [done|]. cbn in Hh. simplify_eq.
      destruct (remove_interior_ok r true (fun g => FCons r g FNil) st None p cs ts)
        as (st' & -> & Hrep' & Hw); [constructor|done|by rewrite HF|].
      cbn [rbind]. exists st', h, (r :: fnodes (fpromote cs ts)). split; [done|].
      pose proof (fpromote_nodes cs ts) as Hpn.
      rewrite HF in Hw. split; [rewrite <- Hn; unfold tnodes; cbn; rewrite Hpn; constructor|].
      split; [|eapply writes_mono; [exact Hw|]; intros q; by rewrite Hn].
      exists (Some (r, fpromote cs ts)). split; [|done]. split; [done|]. split; [done|]. split.
      * unfold tnodes in *; cbn in *. rewrite Hpn.
        apply NoDup_cons in Hnd as [H1 H2]. apply NoDup_cons in H2 as [H2 H3].
        apply NoDup_cons. split; [|done]. intros Hx. apply H1. by right.
      * apply cheap_singleton. destruct Hc2 as (H1 & H2 & H3). split.
        -- intros q. rewrite Hpn. intros Hx. apply Hc1. by right.
        -- by apply fpromote_heap.
    + assert (Hpc : p ∈ fnodes cr).
      { rewrite <- Hn in Hp. unfold tnodes in Hp; cbn in Hp. apply elem_of_cons in Hp. naive_solver. }
      destruct (ctx_find p cr Hpc Hh) as (o & via & k & cs & ts & Hk & Hcr).
      destruct (remove_interior_ok o via (fun g => FCons r (k g) FNil) st None p cs ts)
        as (st' & -> & Hrep' & Hw); [by constructor|by rewrite <- Hcr|by rewrite <- Hcr, HF|].
      rewrite <- Hcr, HF in Hw.
      cbn [rbind]. exists st', h, (r :: fnodes (k (fpromote cs ts))). split; [done|].
      pose proof (fpromote_nodes cs ts) as Hpn.
      destruct (ctx_nodes o via k Hk) as (cn & Ho & Hcn).
      assert (Hperm : fnodes cr ≡ₚ p :: fnodes (k (fpromote cs ts))).
      { rewrite Hcr, !Hcn, Hpn. cbn. symmetry. apply Permutation_middle. }
      split; [rewrite <- Hn; unfold tnodes; cbn; rewrite Hperm; constructor|].
      split; [|eapply writes_mono; [exact Hw|]; intros q; by rewrite Hn].
      exists (Some (r, k (fpromote cs ts))). split; [|done]. split; [done|]. split; [done|]. split.
      * unfold tnodes in *; cbn in *. rewrite Hperm in Hnd.
        apply NoDup_cons in Hnd as [H1 H2]. apply NoDup_cons in H2 as [H2 H3].
        apply NoDup_cons. split; [|done]. intros Hx. apply H1. by right.
      * apply cheap_singleton. split.
        -- intros q Hx. apply Hc1. rewrite Hperm. by right.
        -- rewrite Hcr in Hc2. destruct (ctx_subheap o via k (FCons p cs ts) Hk Hc2) as (H1 & H2 & H3).
           eapply (ctx_heap o via k (FCons p cs ts)); [done|done| |].
           ++ by apply fpromote_heap.
           ++ intros q. rewrite Hpn. intros Hx. by right.
Qed.
End order.

(** The order matters on the queued nodes only. *)
Lemma fheap_ext cmp cmp' f :
  (forall a b, a ∈ fnodes f -> b ∈ fnodes f -> cmp a b = cmp' a b) -> fheap cmp f -> fheap cmp' f.
Proof.
  induction f as [|p cs IHcs ts IHts]; [done|]. cbn. intros Heq (Hle & Hcs & Hts). split.
  - intros q Hq. unfold cle. rewrite <- Heq; [by apply Hle|set_solver|set_solver].
  - split; [apply IHcs|apply IHts]; auto; intros a b Ha Hb; apply Heq; set_solver.
Qed.

Lemma ph_queue_cmp_ext cmp cmp' st h ns :
  (forall a b, a ∈ ns -> b ∈ ns -> cmp a b = cmp' a b) ->
  ph_queue cmp st h ns -> ph_queue cmp' st h ns.
Proof.
  intros Heq (t & (Hr & Ht) & Hn). exists t. split; [|done]. split; [done|].
  destruct t as [[p cs]|]; [|done]. destruct Ht as (H1 & H2 & H3). split; [done|]. split; [done|].
  apply cheap_singleton in H3 as [H3 H4]. apply cheap_singleton.
  assert (Hin : forall a, a ∈ p :: fnodes cs -> a ∈ ns) by (intros a; by rewrite <- Hn).
  split.
  - intros q Hq. unfold cle. rewrite <- Heq; [by apply H3| |]; apply Hin; set_solver.
  - apply (fheap_ext cmp); [|done]. intros a b Ha Hb. apply Heq; apply Hin; set_solver.
Qed.

Lemma ph_queue_NoDup cmp st h ns : ph_queue cmp st h ns -> NoDup ns.
Proof.
  intros (t & (_ & Ht) & <-). destruct t as [t|]; [apply Ht|apply NoDup_nil_2].
Qed.

(** ** Operations as steps *)

Inductive ph_op :=
| OpAdd (p : ptr)
| OpRemoveFirst
| OpRemove (p : ptr).

Definition ph_step (cmp : ptr -> ptr -> Z) (st : store) (h : pairingheap) (op : ph_op)
  : res (option ptr * store * pairingheap) :=
  match op with
  | OpAdd p => do! '(st', h') <- pairingheap_add cmp st h p ;; Ok (None, st', h')
  | OpRemoveFirst =>
      do! '(p, st', h') <- pairingheap_remove_first cmp st h ;; Ok (Some p, st', h')
  | OpRemove p => do! '(st', h') <- pairingheap_remove cmp st h p ;; Ok (Some p, st', h')
  end.

(** The abstract queue is the multiset [ns] of its nodes: what a caller must
    ensure, and what it gets. *)
Definition ph_pre (st : store) (ns : list ptr) (op : ph_op) : Prop :=
  match op with
  | OpAdd p => p ∈ dom st /\ p ∉ ns
  | OpRemoveFirst => ns <> []
  | OpRemove p => p ∈ ns
  end.

Definition ph_post (cmp : ptr -> ptr -> Z) (ns : list ptr) (op : ph_op)
    (out : option ptr) (ns' : list ptr) : Prop :=
  match op with
  | OpAdd p => out = None /\ ns' ≡ₚ p :: ns
  | OpRemoveFirst => exists p, out = Some p /\ ns ≡ₚ p :: ns' /\ forall q, q ∈ ns -> cle cmp q p
  | OpRemove p => out = Some p /\ ns ≡ₚ p :: ns'
  end.

(** C17.  Every operation of the pairing heap, run on the linked nodes, simulates
    the operation on the multiset of its nodes: on a well-formed heap and with
    the caller's obligation met it succeeds, leaves a well-formed heap with all
    links consistent, removes a greatest node when asked for the first, and
    writes no node outside the heap (and the added node). *)
Theorem pairingheap_simulates (cmp : ptr -> ptr -> Z) `{!Comparator cmp}
    (st : store) (h : pairingheap) (ns : list ptr) (op : ph_op)
    (Hq : ph_queue cmp st h ns) (Hpre : ph_pre st ns op) :
  exists out st' h' ns',
    ph_step cmp st h op = Ok (out, st', h') /\
    ph_queue cmp st' h' ns' /\ ph_post cmp ns op out ns' /\
    dom st' = dom st /\
    forall q, q ∉ match op with OpAdd p => p :: ns | _ => ns end -> st' !! q = st !! q.
Proof.
  destruct op as [p| |p]; cbn in Hpre |- *.
  - destruct Hpre as [Hd Hn].
    destruct (pairingheap_add_ok cmp st h ns p Hq Hd Hn) as (st' & h' & -> & Hq' & [Hdom Hw]).
    cbn. eexists _, st', h', _. split; [done|]. split; [exact Hq'|]. done.
  - destruct (pairingheap_remove_first_ok cmp st h ns Hq Hpre)
      as (p & st' & h' & ns' & -> & Hp & Hq' & [Hdom Hw] & Hmax).
    cbn. exists (Some p), st', h', ns'. split; [done|]. split; [done|]. split; [|done]. eauto.
  - destruct (pairingheap_remove_ok cmp st h ns p Hq Hpre)
      as (st' & h' & ns' & -> & Hp & Hq' & [Hdom Hw]).
    cbn. exists (Some p), st', h', ns'. split; [done|]. split; [done|]. done.
Qed.

(** Addresses compared as numbers. *)
Definition ptr_cmp (a b : ptr) : Z := Zpos a - Zpos b.

#[export] Instance ptr_cmp_comparator : Comparator ptr_cmp.
Proof. unfold ptr_cmp. split; lia. Qed.

Definition null_node : pairingheap_node := mk_node None None None.

Lemma pairingheap_simulates_witness :
  exists out st' h' ns',
    ph_step ptr_cmp {[1%positive := null_node]} pairingheap_allocate (OpAdd 1%positive)
      = Ok (out, st', h') /\
    ph_queue ptr_cmp st' h' ns' /\ ph_post ptr_cmp [] (OpAdd 1%positive) out ns' /\
    dom st' = dom ({[1%positive := null_node]} : store) /\
    forall q, q ∉ [1%positive] -> st' !! q = ({[1%positive := null_node]} : store) !! q.
Proof.
  apply (pairingheap_simulates ptr_cmp {[1%positive := null_node]} pairingheap_allocate []
           (OpAdd 1%positive)).
  - apply ph_queue_empty.
  - cbn. split; [apply elem_of_dom; eexists; apply lookup_insert_eq|apply not_elem_of_nil].
Defined.

(** Popping everything. *)
Fixpoint ph_drain (cmp : ptr -> ptr -> Z) (fuel : nat) (st : store) (h : pairingheap)
  : res (list ptr) :=
  match fuel with
  | O => NoFuel
  | S fuel =>
    if pairingheap_is_empty h then Ok []
    else
      do! '(p, st', h') <- pairingheap_remove_first cmp st h ;;
      do! ps <- ph_drain cmp fuel st' h' ;;
      Ok (p :: ps)
  end.

(** Three nodes queued and popped, on the linked representation. *)
Example ph_drain_example :
  (do! '(st1, h1) <- pairingheap_add ptr_cmp
       {[1%positive := null_node; 2%positive := null_node; 3%positive := null_node]}
       pairingheap_allocate 2%positive ;;
   do! '(st2, h2) <- pairingheap_add ptr_cmp st1 h1 3%positive ;;
   do! '(st3, h3) <- pairingheap_add ptr_cmp st2 h2 1%positive ;;
   ph_drain ptr_cmp 4 st3 h3) = Ok [3%positive; 2%positive; 1%positive].
Proof. vm_compute. reflexivity. Qed.
