(* ===== verification/SortSupport.v ===== *)
(** * utils/sortsupport.h and the tuple comparison of utils/sort/tuplesort.c

    [SortSupportData] carries the comparator of one sort column with its
    direction flags; [comparetup_heap] compares two tuples column by column.
    A [Datum] is a machine word, a tuple the list of its attributes
    ([None] is SQL NULL). *)

From Stdlib Require Import ZArith Lia.
From stdpp Require Import base list sorting strings.
From S2P Require Import Prelude.

Local Open Scope Z_scope.

Definition Datum : Type := Z.

Record SortSupportData := mk_ssup {
  ssup_reverse : bool;
  ssup_nulls_first : bool;
  ssup_attno : Z;
  comparator : Datum -> Datum -> Z;
  abbrev_converter : option (Datum -> Datum);
  abbrev_abort : option (Z -> bool);
  abbrev_full_comparator : option (Datum -> Datum -> Z)
}.

Definition INVERT_COMPARE_RESULT (var : Z) : Z := if var <? 0 then 1 else - var.

(** NULL handling shared by the two entry points below. *)
Definition apply_comparator (cmp : Datum -> Datum -> Z) (datum1 : Datum) (isNull1 : bool)
    (datum2 : Datum) (isNull2 : bool) (ssup : SortSupportData) : Z :=
  if isNull1 then
    if isNull2 then 0
    else if ssup_nulls_first ssup then -1 else 1
  else if isNull2 then
    if ssup_nulls_first ssup then 1 else -1
  else
    let compare := cmp datum1 datum2 in
    if ssup_reverse ssup then INVERT_COMPARE_RESULT compare else compare.

Definition ApplySortComparator (datum1 : Datum) (isNull1 : bool) (datum2 : Datum)
    (isNull2 : bool) (ssup : SortSupportData) : Z :=
  apply_comparator (comparator ssup) datum1 isNull1 datum2 isNull2 ssup.

(** [abbrev_full_comparator] is set whenever [abbrev_converter] is. *)
Definition ApplySortAbbrevFullComparator (datum1 : Datum) (isNull1 : bool) (datum2 : Datum)
    (isNull2 : bool) (ssup : SortSupportData) : Z :=
  apply_comparator (default (comparator ssup) (abbrev_full_comparator ssup))
    datum1 isNull1 datum2 isNull2 ssup.

(** A tuple proper: its length in bytes, header included, and its attributes. *)
Record MinimalTuple := mk_mtup { t_len : Z; t_attrs : list (option Datum) }.

(** The attribute's value and its null flag; attributes count from 1. *)
Definition heap_getattr (tup : MinimalTuple) (attno : Z) : Datum * bool :=
  match zget (t_attrs tup) (attno - 1) with
  | Some (Some d) => (d, false)
  | _ => (0, true)
  end.

Record SortTuple := mk_stup {
  tuple : option MinimalTuple;
  datum1 : Datum;
  isnull1 : bool;
  srctape : Z
}.

(** The tuple proper; a freed entry has none. *)
Definition tuple_of (a : SortTuple) : MinimalTuple := default (mk_mtup 0 []) (tuple a).

(** Compare the sort columns after the first. *)
Fixpoint compare_keys (keys : list SortSupportData) (ltup rtup : MinimalTuple) : Z :=
  match keys with
  | [] => 0
  | sortKey :: keys =>
    let attno := ssup_attno sortKey in
    let '(datum1, isnull1) := heap_getattr ltup attno in
    let '(datum2, isnull2) := heap_getattr rtup attno in
    let compare := ApplySortComparator datum1 isnull1 datum2 isnull2 sortKey in
    if compare =? 0 then compare_keys keys ltup rtup else compare
  end.

Definition comparetup_heap (sortKeys : list SortSupportData) (a b : SortTuple) : Z :=
  match sortKeys with
  | [] => 0
  | sortKey :: keys =>
    let compare := ApplySortComparator (datum1 a) (isnull1 a) (datum1 b) (isnull1 b) sortKey in
    if negb (compare =? 0) then compare
    else
      let ltup := tuple_of a in
      let rtup := tuple_of b in
      let compare :=
        match abbrev_converter sortKey with
        | Some _ =>
          let attno := ssup_attno sortKey in
          let '(datum1, isnull1) := heap_getattr ltup attno in
          let '(datum2, isnull2) := heap_getattr rtup attno in
          ApplySortAbbrevFullComparator datum1 isnull1 datum2 isnull2 sortKey
        | None => 0
        end in
      if negb (compare =? 0) then compare
      else compare_keys keys ltup rtup
  end.

Definition reverse_key (k : SortSupportData) : SortSupportData :=
  mk_ssup (negb (ssup_reverse k)) (negb (ssup_nulls_first k)) (ssup_attno k)
    (comparator k) (abbrev_converter k) (abbrev_abort k) (abbrev_full_comparator k).

Definition reversedirection (sortKeys : list SortSupportData) : list SortSupportData :=
  reverse_key <$> sortKeys.

(** Drop abbreviation: the full comparator becomes the comparator. *)
Definition disable_abbrev (k : SortSupportData) : SortSupportData :=
  mk_ssup (ssup_reverse k) (ssup_nulls_first k) (ssup_attno k)
    (default (comparator k) (abbrev_full_comparator k)) None None None.

Definition disable_abbrev_keys (keys : list SortSupportData) : list SortSupportData :=
  match keys with
  | [] => []
  | k :: keys => disable_abbrev k :: keys
  end.

(** ** Comparators built from comparators *)

Lemma lex_comparator {A} (f g : A -> A -> Z) :
  Comparator f -> Comparator g ->
  Comparator (fun a b => if negb (f a b =? 0) then f a b else g a b).
Proof.
  intros Hf Hg. split.
  - intros a b. pose proof (@cmp_flip _ f Hf a b). pose proof (@cmp_flip _ f Hf b a).
    pose proof (@cmp_flip _ g Hg a b).
    destruct (Z.eqb_spec (f a b) 0), (Z.eqb_spec (f b a) 0); cbn; lia.
  - intros a b c. pose proof (@cmp_flip _ f Hf a b). pose proof (@cmp_flip _ f Hf b a).
    pose proof (@cmp_flip _ f Hf b c). pose proof (@cmp_flip _ f Hf c b).
    pose proof (@cmp_flip _ f Hf a c). pose proof (@cmp_flip _ f Hf c a).
    pose proof (@cmp_le_trans _ f Hf a b c). pose proof (@cmp_le_trans _ f Hf b c a).
    pose proof (@cmp_le_trans _ f Hf c a b). pose proof (@cmp_le_trans _ f Hf c b a).
    pose proof (@cmp_le_trans _ f Hf b a c).
    pose proof (@cmp_le_trans _ g Hg a b c).
    destruct (Z.eqb_spec (f a b) 0), (Z.eqb_spec (f b c) 0), (Z.eqb_spec (f a c) 0); cbn; lia.
Qed.

Lemma map_comparator {A B} (h : A -> B) (f : B -> B -> Z) :
  Comparator f -> Comparator (fun a b => f (h a) (h b)).
Proof.
  intros Hf. split; intros *; [apply cmp_flip|apply cmp_le_trans].
Qed.

Lemma zero_comparator {A} : Comparator (fun _ _ : A => 0).
Proof. split; lia. Qed.

Lemma comparator_ext {A} (f g : A -> A -> Z) :
  (forall a b, g a b = f a b) -> Comparator f -> Comparator g.
Proof.
  intros He Hf. split; intros *; rewrite !He; [apply cmp_flip|apply cmp_le_trans].
Qed.

Lemma apply_comparator_ok cmp ssup :
  Comparator cmp ->
  Comparator (fun x y : Datum * bool => apply_comparator cmp x.1 x.2 y.1 y.2 ssup).
Proof.
  intros Hc. unfold apply_comparator, INVERT_COMPARE_RESULT. split.
  - intros [x []] [y []]; cbn; destruct (ssup_nulls_first ssup), (ssup_reverse ssup);
      pose proof (cmp_flip x y); pose proof (cmp_flip y x);
      repeat match goal with |- context [?a <? 0] => destruct (Z.ltb_spec a 0) end; lia.
  - intros [x []] [y []] [z []]; cbn; destruct (ssup_nulls_first ssup), (ssup_reverse ssup);
      pose proof (cmp_flip x y); pose proof (cmp_flip y x);
      pose proof (cmp_flip z y); pose proof (cmp_flip y z);
      pose proof (cmp_flip z x); pose proof (cmp_flip x z);
      pose proof (cmp_le_trans x y z); pose proof (cmp_le_trans z y x);
      repeat match goal with |- context [?a <? 0] => destruct (Z.ltb_spec a 0) end; lia.
Qed.

(** The comparators a sort column carries are orders. *)
Definition ssup_ok (k : SortSupportData) : Prop :=
  Comparator (comparator k) /\
  forall f, abbrev_full_comparator k = Some f -> Comparator f.

Definition keys_ok (keys : list SortSupportData) : Prop := Forall ssup_ok keys.

Lemma compare_keys_ok keys : keys_ok keys -> Comparator (compare_keys keys).
Proof.
  induction 1 as [|k keys [Hk _] _ IH]; [apply zero_comparator|].
  eapply comparator_ext; [|apply (lex_comparator _ _ (map_comparator (fun t => heap_getattr t (ssup_attno k)) _
      (apply_comparator_ok (comparator k) k Hk)) IH)].
  intros a b. cbn. unfold ApplySortComparator.
  destruct (heap_getattr a (ssup_attno k)), (heap_getattr b (ssup_attno k)). cbn.
  by destruct (Z.eqb_spec (apply_comparator (comparator k) d b0 d0 b1 k) 0).
Qed.

Lemma comparetup_heap_ok keys : keys_ok keys -> Comparator (comparetup_heap keys).
Proof.
  intros Hks. destruct keys as [|k keys]; [apply zero_comparator|].
  inversion Hks as [|?? [Hk Hfull] Hkeys]; subst.
  assert (Hab : Comparator (fun a b : SortTuple =>
     match abbrev_converter k with
     | Some _ =>
       apply_comparator (default (comparator k) (abbrev_full_comparator k))
         (heap_getattr (tuple_of a) (ssup_attno k)).1 (heap_getattr (tuple_of a) (ssup_attno k)).2
         (heap_getattr (tuple_of b) (ssup_attno k)).1 (heap_getattr (tuple_of b) (ssup_attno k)).2 k
     | None => 0
     end)).
  { destruct (abbrev_converter k); [|apply zero_comparator].
    apply (map_comparator (fun a => heap_getattr (tuple_of a) (ssup_attno k))
      (fun x y : Datum * bool => apply_comparator
         (default (comparator k) (abbrev_full_comparator k)) x.1 x.2 y.1 y.2 k)).
    apply apply_comparator_ok. destruct (abbrev_full_comparator k); [by apply Hfull|done]. }
  eapply comparator_ext; [|apply (lex_comparator _ _
     (map_comparator (fun a : SortTuple => (datum1 a, isnull1 a)) _
        (apply_comparator_ok (comparator k) k Hk))
     (lex_comparator _ _ Hab (map_comparator tuple_of _ (compare_keys_ok keys Hkeys))))].
  intros a b. cbn. unfold ApplySortComparator, ApplySortAbbrevFullComparator.
  destruct (negb _); [done|].
  destruct (abbrev_converter k); [|done].
  by destruct (heap_getattr (tuple_of a) (ssup_attno k)), (heap_getattr (tuple_of b) (ssup_attno k)).
Qed.

Lemma apply_comparator_reverse cmp k d1 n1 d2 n2 :
  Z.sgn (apply_comparator cmp d1 n1 d2 n2 (reverse_key k)) =
  - Z.sgn (apply_comparator cmp d1 n1 d2 n2 k).
Proof.
  unfold apply_comparator, INVERT_COMPARE_RESULT, reverse_key; cbn.
  destruct n1, n2, (ssup_nulls_first k), (ssup_reverse k); cbn; try done;
    repeat match goal with |- context [?a <? 0] => destruct (Z.ltb_spec a 0) end; lia.
Qed.

Lemma compare_keys_reverse keys l r :
  Z.sgn (compare_keys (reversedirection keys) l r) = - Z.sgn (compare_keys keys l r).
Proof.
  induction keys as [|k keys IH]; cbn; [done|].
  destruct (heap_getattr l (ssup_attno k)) as [d1 n1], (heap_getattr r (ssup_attno k)) as [d2 n2].
  pose proof (apply_comparator_reverse (comparator k) k d1 n1 d2 n2) as Hr.
  unfold ApplySortComparator; cbn in *.
  destruct (Z.eqb_spec (apply_comparator (comparator k) d1 n1 d2 n2 (reverse_key k)) 0),
    (Z.eqb_spec (apply_comparator (comparator k) d1 n1 d2 n2 k) 0); auto; lia.
Qed.

(** Reversing the direction of every key reverses the order of the tuples. *)
Lemma comparetup_heap_reverse keys a b :
  Z.sgn (comparetup_heap (reversedirection keys) a b) = - Z.sgn (comparetup_heap keys a b).
Proof.
  destruct keys as [|k keys]; [done|]. cbn.
  pose proof (apply_comparator_reverse (comparator k) k
    (datum1 a) (isnull1 a) (datum1 b) (isnull1 b)) as H1.
  pose proof (compare_keys_reverse keys (tuple_of a) (tuple_of b)) as H3.
  unfold ApplySortComparator, ApplySortAbbrevFullComparator; cbn in *.
  destruct (Z.eqb_spec (apply_comparator (comparator k) (datum1 a) (isnull1 a) (datum1 b)
              (isnull1 b) (reverse_key k)) 0),
    (Z.eqb_spec (apply_comparator (comparator k) (datum1 a) (isnull1 a) (datum1 b)
              (isnull1 b) k) 0); cbn; try lia.
  destruct (abbrev_converter k); cbn; [|done].
  destruct (heap_getattr (tuple_of a) (ssup_attno k)) as [d1 n1],
    (heap_getattr (tuple_of b) (ssup_attno k)) as [d2 n2].
  pose proof (apply_comparator_reverse
    (default (comparator k) (abbrev_full_comparator k)) k d1 n1 d2 n2) as H2.
  cbn in H2.
  destruct (Z.eqb_spec (apply_comparator (default (comparator k) (abbrev_full_comparator k))
              d1 n1 d2 n2 (reverse_key k)) 0),
    (Z.eqb_spec (apply_comparator (default (comparator k) (abbrev_full_comparator k))
              d1 n1 d2 n2 k) 0); cbn; auto; lia.
Qed.

Lemma reversedirection_involutive keys : reversedirection (reversedirection keys) = keys.
Proof.
  induction keys as [|k keys IH]; [done|]. cbn. f_equal; [|done].
  destruct k. unfold reverse_key; cbn. by rewrite !negb_involutive.
Qed.

Lemma reverse_keys_ok keys : keys_ok keys -> keys_ok (reversedirection keys).
Proof.
  unfold keys_ok, reversedirection. intros H. apply Forall_fmap.
  eapply Forall_impl; [exact H|]. by intros k.
Qed.

Lemma cle_reverse keys a b :
  keys_ok keys ->
  cle (comparetup_heap (reversedirection keys)) a b <-> cle (comparetup_heap keys) b a.
Proof.
  intros Hk. pose proof (comparetup_heap_ok _ Hk) as Hc.
  pose proof (comparetup_heap_reverse keys a b) as Hr. unfold cle.
  pose proof (@cmp_flip _ _ Hc a b). pose proof (@cmp_flip _ _ Hc b a). lia.
Qed.

(** ** Entries of a sort and the order they stand for

    An entry caches the first sort column of its tuple, in abbreviated form
    when the column has a converter.  [tcmp] is the order on the tuples
    themselves: every column compared by its full comparator. *)

Definition key1 (keys : list SortSupportData) (t : MinimalTuple) : Datum * bool :=
  match keys with
  | [] => (0, true)
  | k :: _ =>
    let '(d, isnull) := heap_getattr t (ssup_attno k) in
    (match abbrev_converter k with
     | Some conv => if isnull then d else conv d
     | None => d
     end, isnull)
  end.

Definition is_entry (keys : list SortSupportData) (a : SortTuple) (t : MinimalTuple) : Prop :=
  tuple a = Some t /\ (datum1 a, isnull1 a) = key1 keys t.

Definition tcmp (keys : list SortSupportData) : MinimalTuple -> MinimalTuple -> Z :=
  compare_keys (disable_abbrev_keys keys).

(** The contract of abbreviation (sortsupport.h): a full comparator comes
    with the converter, and abbreviations that differ decide the comparison. *)
Definition abbrev_ok (k : SortSupportData) : Prop :=
  match abbrev_converter k with
  | None => abbrev_full_comparator k = None
  | Some conv => is_Some (abbrev_abort k) /\ exists full,
      abbrev_full_comparator k = Some full /\
      forall x y, comparator k (conv x) (conv y) < 0 -> full x y < 0
  end.

Record keys_wf (keys : list SortSupportData) : Prop := {
  kw_ok : keys_ok keys;
  kw_abbrev : exists k ks, keys = k :: ks /\ abbrev_ok k
}.

Lemma ssup_ok_disable k : ssup_ok k -> ssup_ok (disable_abbrev k).
Proof.
  intros [Hc Hf]. split; [|done]. unfold disable_abbrev; cbn.
  destruct (abbrev_full_comparator k) eqn:Hk; [by apply Hf|done].
Qed.

Lemma keys_wf_disable keys : keys_wf keys -> keys_wf (disable_abbrev_keys keys).
Proof.
  intros [Hok (k & ks & -> & Hab)]. inversion Hok; subst. split.
  - constructor; [by apply ssup_ok_disable|done].
  - by exists (disable_abbrev k), ks.
Qed.

Lemma keys_wf_reverse keys : keys_wf keys -> keys_wf (reversedirection keys).
Proof.
  intros [Hok (k & ks & -> & Hab)]. split; [by apply reverse_keys_ok|].
  exists (reverse_key k), (reversedirection ks). split; [done|].
  exact Hab.
Qed.

Lemma disable_abbrev_idem keys :
  disable_abbrev_keys (disable_abbrev_keys keys) = disable_abbrev_keys keys.
Proof. by destruct keys. Qed.

Lemma disable_reverse keys :
  disable_abbrev_keys (reversedirection keys) = reversedirection (disable_abbrev_keys keys).
Proof. by destruct keys. Qed.

Lemma tcmp_disable keys : tcmp (disable_abbrev_keys keys) = tcmp keys.
Proof. unfold tcmp. by rewrite disable_abbrev_idem. Qed.

Lemma tcmp_ok keys : keys_wf keys -> Comparator (tcmp keys).
Proof. intros Hw. apply compare_keys_ok. apply (keys_wf_disable _ Hw). Qed.

Lemma tcmp_reverse keys t u :
  Z.sgn (tcmp (reversedirection keys) t u) = - Z.sgn (tcmp keys t u).
Proof. unfold tcmp. rewrite disable_reverse. apply compare_keys_reverse. Qed.

Lemma is_entry_reverse keys a t : is_entry (reversedirection keys) a t <-> is_entry keys a t.
Proof. unfold is_entry. by destruct keys. Qed.

Lemma is_entry_srctape keys a t n :
  is_entry keys a t -> is_entry keys (mk_stup (tuple a) (datum1 a) (isnull1 a) n) t.
Proof. by intros [? ?]. Qed.

(** Abbreviated keys decide only what the full comparator decides. *)
Lemma abbrev_sign k conv full d1 n1 d2 n2 :
  Comparator (comparator k) -> Comparator full ->
  (forall x y, comparator k (conv x) (conv y) < 0 -> full x y < 0) ->
  apply_comparator (comparator k) (if n1 : bool then d1 else conv d1) n1
    (if n2 : bool then d2 else conv d2) n2 k <> 0 ->
  Z.sgn (apply_comparator full d1 n1 d2 n2 k) =
  Z.sgn (apply_comparator (comparator k) (if n1 then d1 else conv d1) n1
    (if n2 then d2 else conv d2) n2 k).
Proof.
  intros Hc Hf Hdec. unfold apply_comparator, INVERT_COMPARE_RESULT.
  destruct n1, n2; try done.
  pose proof (Hdec d1 d2). pose proof (Hdec d2 d1).
  pose proof (@cmp_flip _ _ Hc (conv d1) (conv d2)).
  pose proof (@cmp_flip _ _ Hc (conv d2) (conv d1)).
  pose proof (@cmp_flip _ _ Hf d1 d2). pose proof (@cmp_flip _ _ Hf d2 d1).
  destruct (ssup_reverse k);
    repeat match goal with |- context [?a <? 0] => destruct (Z.ltb_spec a 0) end; lia.
Qed.

Lemma entry_cmp keys a b t u :
  keys_wf keys -> is_entry keys a t -> is_entry keys b u ->
  Z.sgn (comparetup_heap keys a b) = Z.sgn (tcmp keys t u).
Proof.
  intros [Hok (k & ks & -> & Hab)] [Ha Ha1] [Hb Hb1].
  inversion Hok as [|?? [Hc Hfc] Hks]; subst.
  unfold tcmp, comparetup_heap, tuple_of, ApplySortComparator, ApplySortAbbrevFullComparator.
  rewrite Ha, Hb. cbn [default from_option id compare_keys disable_abbrev_keys].
  cbn [key1] in Ha1, Hb1. unfold ApplySortComparator, abbrev_ok in *.
  change (ssup_attno (disable_abbrev k)) with (ssup_attno k).
  change (comparator (disable_abbrev k))
    with (default (comparator k) (abbrev_full_comparator k)).
  destruct (heap_getattr t (ssup_attno k)) as [d1 n1],
    (heap_getattr u (ssup_attno k)) as [d2 n2].
  injection Ha1 as -> ->. injection Hb1 as -> ->.
  change (apply_comparator ?c d1 n1 d2 n2 (disable_abbrev k))
    with (apply_comparator c d1 n1 d2 n2 k).
  destruct (abbrev_converter k) as [conv|].
  - destruct Hab as [_ (full & Hfull & Hdec)]. rewrite Hfull. cbn [default from_option id].
    pose proof (abbrev_sign k conv full d1 n1 d2 n2 Hc (Hfc _ Hfull) Hdec) as Hs.
    destruct (Z.eqb_spec (apply_comparator (comparator k) (if n1 then d1 else conv d1) n1
                (if n2 then d2 else conv d2) n2 k) 0); cbn [negb].
    + destruct (Z.eqb_spec (apply_comparator full d1 n1 d2 n2 k) 0); cbn [negb]; done.
    + specialize (Hs n). destruct (Z.eqb_spec (apply_comparator full d1 n1 d2 n2 k) 0); lia.
  - rewrite Hab. cbn [default from_option id negb Z.eqb].
    destruct (Z.eqb_spec (apply_comparator (comparator k) d1 n1 d2 n2 k) 0); cbn [negb]; done.
Qed.

(** C37. Comparing two entries by their cached, possibly abbreviated, first
    column and then by the tuples has the sign of the full comparison of the
    tuples, in either sort direction: abbreviation never changes the order. *)
Theorem abbreviation_preserves_order keys a b t u :
  keys_wf keys -> is_entry keys a t -> is_entry keys b u ->
  Z.sgn (comparetup_heap keys a b) = Z.sgn (compare_keys (disable_abbrev_keys keys) t u) /\
  Z.sgn (comparetup_heap (reversedirection keys) a b) =
    - Z.sgn (compare_keys (disable_abbrev_keys keys) t u).
Proof.
  intros Hwf Ha Hb. rewrite comparetup_heap_reverse.
  by rewrite (entry_cmp keys a b t u Hwf Ha Hb).
Qed.

(** A column compared by its value, abbreviated to its quotient by 100. *)
Definition hundreds_key : SortSupportData :=
  mk_ssup false false 1 Z.sub (Some (fun d => d / 100)) (Some (fun _ => false)) (Some Z.sub).

Lemma hundreds_key_wf : keys_wf [hundreds_key].
Proof.
  split.
  - constructor; [|constructor]. split; [apply _|]. intros f [= <-]. apply _.
  - exists hundreds_key, []. split; [done|]. cbn. split; [by eexists|].
    exists Z.sub. split; [done|]. intros x y Hxy.
    destruct (Z.lt_ge_cases x y) as [|Hge]; [lia|].
    pose proof (Z.div_le_mono y x 100 ltac:(lia) Hge). lia.
Qed.

Lemma abbreviation_preserves_order_witness :
  let a := mk_stup (Some (mk_mtup 32 [Some 150])) 1 false 0 in
  let b := mk_stup (Some (mk_mtup 32 [Some 120])) 1 false 0 in
  Z.sgn (comparetup_heap [hundreds_key] a b) = 1 /\
  Z.sgn (comparetup_heap (reversedirection [hundreds_key]) a b) = -1.
Proof.
  apply (abbreviation_preserves_order [hundreds_key]
    (mk_stup (Some (mk_mtup 32 [Some 150])) 1 false 0)
    (mk_stup (Some (mk_mtup 32 [Some 120])) 1 false 0)
    (mk_mtup 32 [Some 150]) (mk_mtup 32 [Some 120])).
  - apply hundreds_key_wf.
  - by split.
  - by split.
Defined.
