(* ===== verification/RangeSpec.v ===== *)
(** * Range queries over a graph traversal: the reference

    A range query asks for the rows within a distance of the query vector.
    The access methods answer it from a traversal that is only roughly
    ordered, so each has a rule for when to stop reading.  This file states
    such a rule as a function of the results read so far, with no state of
    its own, and what a scan that follows it delivers. *)

From Stdlib Require Import ZArith Lia.
From stdpp Require Import base list sorting strings.
From S2P Require Import Prelude SortSupport.

Local Open Scope Z_scope.

(** A result of the traversal: distance and label. *)
Abbreviation result := (Z * Z)%type.

(** Read up to the first result at which the rule says stop. *)
Fixpoint read_until (stop : list result -> result -> bool) (pre results : list result)
    : list result :=
  match results with
  | [] => []
  | x :: results => if stop pre x then [] else x :: read_until stop (pre ++ [x]) results
  end.

Section range.
(** [giveup] is the rule before the first hit; after a hit the scan stops at
    the [limit]-th result in a row that is out of range. *)
Variable giveup : list Z -> Z -> bool.
Variables (limit rng : Z).

Definition in_range (x : result) : bool := fst x <=? rng.

(** Results out of range since the last one in range. *)
Definition misses (pre : list result) : Z :=
  foldl (fun n x => if in_range x then 0 else n + 1) 0 pre.

Definition range_stop (pre : list result) (x : result) : bool :=
  if existsb in_range pre then negb (in_range x) && (limit <=? misses pre + 1)
  else giveup (fst <$> pre) (fst x).

Definition hits (l : list result) : list result := filter (fun x => in_range x = true) l.

(** What a range scan delivers when it has read [pre] and would still get
    [results] from the traversal. *)
Definition range_hits (pre results : list result) : list result :=
  hits (read_until range_stop pre results).

Lemma misses_snoc pre x : misses (pre ++ [x]) = if in_range x then 0 else misses pre + 1.
Proof. unfold misses. by rewrite foldl_app. Qed.

Lemma existsb_snoc pre x : existsb in_range (pre ++ [x]) = existsb in_range pre || in_range x.
Proof. rewrite existsb_app. cbn. by rewrite orb_false_r. Qed.

(** The two rules, as one turn of a loop applies them. *)
Lemma range_stop_turn pre x :
  range_stop pre x =
    (negb (existsb in_range pre) && giveup (fst <$> pre) (fst x)) ||
    (existsb in_range pre && (limit <=? misses pre + 1) && negb (in_range x)).
Proof. unfold range_stop. by destruct (existsb in_range pre), (giveup _ _), (in_range x), (limit <=? _). Qed.

(** One result at a time. *)
Lemma range_hits_cons pre x results :
  range_hits pre (x :: results) =
    if range_stop pre x then []
    else if in_range x then x :: range_hits (pre ++ [x]) results
    else range_hits (pre ++ [x]) results.
Proof.
  unfold range_hits. cbn [read_until]. destruct (range_stop pre x); [done|]. unfold hits.
  rewrite filter_cons. destruct (in_range x) eqn:Hx.
  - by rewrite decide_True.
  - by rewrite decide_False.
Qed.

Lemma read_until_prefix stop pre results : exists rest, results = read_until stop pre results ++ rest.
Proof.
  revert pre. induction results as [|x results IH]; intros pre; [by exists []|]. cbn.
  destruct (stop pre x); [by exists (x :: results)|].
  destruct (IH (pre ++ [x])) as [rest Hr]. exists rest. cbn. by rewrite <- Hr.
Qed.

Lemma read_until_all stop pre results :
  (forall a x b, results = a ++ x :: b -> stop (pre ++ a) x = false) ->
  read_until stop pre results = results.
Proof.
  revert pre. induction results as [|x results IH]; intros pre Hs; [done|]. cbn.
  specialize (Hs [] x results eq_refl) as Hx. rewrite app_nil_r in Hx. rewrite Hx. f_equal.
  apply IH. intros a y b ->. rewrite <- app_assoc. by apply (Hs (x :: a) y b).
Qed.

(** A scan delivers results in range only, each as often as the traversal. *)
Lemma range_hits_sound pre results :
  range_hits pre results `sublist_of` results /\ Forall (fun x => fst x <= rng) (range_hits pre results).
Proof.
  split.
  - destruct (read_until_prefix range_stop pre results) as [rest Hr]. rewrite Hr at 2.
    unfold range_hits, hits. etrans; [apply sublist_filter|]. by apply sublist_inserts_r.
  - apply Forall_forall. intros x Hx. apply list_elem_of_filter in Hx as [Hx _].
    by apply Z.leb_le.
Qed.

(** The traversal is focused: before the first hit the scan does not give up,
    and of [limit] results in a row after a hit one is a hit. *)
Definition focused (results : list result) : Prop :=
  (forall a x b, results = a ++ x :: b -> existsb in_range a = false ->
     giveup (fst <$> a) (fst x) = false) /\
  (forall a b c, results = a ++ b ++ c -> existsb in_range a = true -> zlen b = limit ->
     existsb in_range b = true).

(** The misses counted are results at the end. *)
Lemma misses_suffix pre :
  0 <= misses pre /\ exists a b, pre = a ++ b /\ zlen b = misses pre /\ existsb in_range b = false /\
    existsb in_range pre = existsb in_range a.
Proof.
  induction pre as [|x pre [Hn (a & b & -> & Hl & Hb & Ha)]] using rev_ind.
  - split; [done|]. by exists [], [].
  - rewrite misses_snoc. destruct (in_range x) eqn:Hx.
    + split; [done|]. exists ((a ++ b) ++ [x]), []. by rewrite app_nil_r.
    + split; [lia|]. exists a, (b ++ [x]). rewrite app_assoc. split; [done|].
      rewrite zlen_app, Hl. split; [done|]. rewrite !existsb_snoc, Hb, Hx.
      split; [done|]. by rewrite !orb_false_r.
Qed.

(** Over a focused traversal the scan misses nothing. *)
Lemma range_hits_complete results :
  1 <= limit -> focused results -> range_hits [] results = hits results.
Proof.
  intros Hlim [Hg Hf]. unfold range_hits. rewrite read_until_all; [done|].
  intros a x b ->. rewrite app_nil_l. unfold range_stop. destruct (existsb in_range a) eqn:Ha.
  - destruct (in_range x) eqn:Hx; [done|]. cbn. apply Z.leb_gt.
    destruct (Z.lt_ge_cases (misses a + 1) limit) as [|Hge]; [done|]. exfalso.
    destruct (misses_suffix a) as (Hn & a1 & b1 & -> & Hl & Hb1 & Ha1).
    set (k := Z.to_nat (misses (a1 ++ b1) + 1 - limit)).
    assert (Hb2 : existsb in_range (drop k (b1 ++ [x])) = true).
    { apply (Hf (a1 ++ take k (b1 ++ [x])) _ b).
      - rewrite <- !app_assoc, (app_assoc (take k _)), take_drop. by rewrite <- app_assoc.
      - rewrite existsb_app, <- Ha1, Ha. done.
      - unfold zlen in *. rewrite length_drop, length_app. cbn. lia. }
    assert (Hall : existsb in_range (b1 ++ [x]) = false) by (by rewrite existsb_snoc, Hb1, Hx).
    rewrite <- (take_drop k (b1 ++ [x])), existsb_app, Hb2, orb_true_r in Hall. done.
  - by apply (Hg a x b).
Qed.
End range.
