(* ===== verification/TuplesortHeap.v ===== *)
(** * The array heap of utils/sort/tuplesort.c

    [tuplesort_heap_insert], [tuplesort_heap_replace_top] and
    [tuplesort_heap_delete_top] move a hole through [state->memtuples] instead
    of swapping entries.  Their [tuple] argument is a pointer which may point
    into the very array that is rearranged ([make_bounded_heap] and
    [tuplesort_heap_delete_top] do that), so it is a [tupref] that is read
    again at each use. *)

From Stdlib Require Import ZArith Lia.
From stdpp Require Import base list sorting strings.
From S2P Require Import Prelude HeapTheory.

Local Open Scope Z_scope.

(** A [SortTuple *]: a caller's local variable, or [&memtuples[i]]. *)
Inductive tupref (A : Type) : Type :=
| Local_var (t : A)
| Slot (i : Z).
Arguments Local_var {A} t.
Arguments Slot {A} i.

Definition deref {A} (memtuples : list A) (r : tupref A) : res A :=
  match r with
  | Local_var t => Ok t
  | Slot i => aget memtuples i
  end.

Section heap_ops.
Context {A : Type}.
Variable COMPARETUP : A -> A -> Z.

(** The sift-up loop; [j] is the hole. *)
Fixpoint heap_insert_loop (fuel : nat) (memtuples : list A) (tuple : tupref A) (j : Z)
    : res (list A * Z) :=
  match fuel with
  | O => NoFuel
  | S fuel =>
    if j >? 0 then
      let i := Z.shiftr (j - 1) 1 in
      do! t <- deref memtuples tuple ;;
      do! mi <- aget memtuples i ;;
      if COMPARETUP t mi >=? 0 then Ok (memtuples, j)
      else
        do! memtuples' <- aset memtuples j mi ;;
        heap_insert_loop fuel memtuples' tuple i
    else Ok (memtuples, j)
  end.

Definition tuplesort_heap_insert (memtuples : list A) (memtupcount : Z) (tuple : tupref A)
    : res (list A * Z) :=
  let j := memtupcount in
  let memtupcount := int32 (memtupcount + 1) in
  do! ' (memtuples, j) <- heap_insert_loop (S (Z.to_nat j)) memtuples tuple j ;;
  do! t <- deref memtuples tuple ;;
  do! memtuples <- aset memtuples j t ;;
  Ok (memtuples, memtupcount).

(** The sift-down loop; [i] is the hole, indexes are [unsigned int]. *)
Fixpoint heap_replace_loop (fuel : nat) (memtuples : list A) (tuple : tupref A) (n i : Z)
    : res (list A * Z) :=
  match fuel with
  | O => NoFuel
  | S fuel =>
    let j := uint32 (2 * i + 1) in
    if j >=? n then Ok (memtuples, i)
    else
      do! j <-
        (if uint32 (j + 1) <? n then
           do! mj <- aget memtuples j ;;
           do! mj1 <- aget memtuples (uint32 (j + 1)) ;;
           Ok (if COMPARETUP mj mj1 >? 0 then uint32 (j + 1) else j)
         else Ok j) ;;
      do! t <- deref memtuples tuple ;;
      do! mj <- aget memtuples j ;;
      if COMPARETUP t mj <=? 0 then Ok (memtuples, i)
      else
        do! memtuples' <- aset memtuples i mj ;;
        heap_replace_loop fuel memtuples' tuple n j
  end.

Definition tuplesort_heap_replace_top (memtuples : list A) (memtupcount : Z)
    (tuple : tupref A) : res (list A) :=
  let n := uint32 memtupcount in
  do! ' (memtuples, i) <- heap_replace_loop (S (Z.to_nat n)) memtuples tuple n 0 ;;
  do! t <- deref memtuples tuple ;;
  aset memtuples i t.

Definition tuplesort_heap_delete_top (memtuples : list A) (memtupcount : Z)
    : res (list A * Z) :=
  let memtupcount := int32 (memtupcount - 1) in
  if memtupcount <=? 0 then Ok (memtuples, memtupcount)
  else
    do! memtuples <- tuplesort_heap_replace_top memtuples memtupcount (Slot memtupcount) ;;
    Ok (memtuples, memtupcount).
End heap_ops.

(** ** Correctness *)

Section heap_spec.
Context {A : Type} (cmp : A -> A -> Z) `{!Comparator cmp}.
Implicit Types (m : list A) (t x y : A) (r : tupref A) (n i j k : Z).
Local Abbreviation le := (cle cmp).

(** [r] denotes [t] and will still do so after any write below [n]. *)
Definition stable m n r t : Prop :=
  match r with
  | Local_var t' => t' = t
  | Slot i => n <= i /\ zget m i = Some t
  end.

Lemma stable_deref m n r t : stable m n r t -> deref m r = Ok t.
Proof. destruct r; cbn; [by intros -> | intros [_ ?]; by apply aget_Ok]. Qed.

Lemma stable_zset m n r t i x : i < n -> stable m n r t -> stable (zset m i x) n r t.
Proof.
  destruct r; cbn; [done|]. intros Hi [Hn Hx]. split; [done|].
  by rewrite zget_zset_ne by lia.
Qed.

(** Moving the hole from [j] to [i] exchanges two entries of the array in
    which the hole is filled with [t]. *)
Lemma fill_move m i j t y :
  i <> j -> zget m i = Some y -> 0 <= j < zlen m ->
  zset (zset m j y) i t = zset (zset (zset m j t) i t) j y.
Proof.
  intros Hij Hy Hj. rewrite (zset_comm m j i t t) by done.
  rewrite zset_zset_eq. by rewrite zset_comm by done.
Qed.

(** What a hole-moving loop has done: the array filled with [t] at the new
    hole is the heap, a rearrangement of the one filled at the old hole. *)
Record moved m i m' i' t n : Prop := {
  mv_range : 0 <= i' < n;
  mv_len : zlen m' = zlen m;
  mv_perm : ztake n (zset m' i' t) ≡ₚ ztake n (zset m i t);
  mv_tail : forall k, n <= k -> zget m' k = zget m k
}.

Lemma moved_refl m i t n : 0 <= i < n -> moved m i m i t n.
Proof. by split. Qed.

Lemma moved_trans m i m1 i1 m2 i2 t n :
  moved m i m1 i1 t n -> moved m1 i1 m2 i2 t n -> moved m i m2 i2 t n.
Proof.
  intros [] []. split; [done|congruence|by etrans|].
  intros k Hk. rewrite mv_tail1 by done. by apply mv_tail0.
Qed.

Lemma moved_step m i j t y n :
  0 <= i < n -> 0 <= j < n -> n <= zlen m -> i <> j -> zget m i = Some y ->
  moved m j (zset m j y) i t n.
Proof.
  intros Hi Hj Hn Hij Hy. split; [done|apply zlen_zset| |].
  - rewrite (fill_move m i j t y) by (done || lia).
    rewrite !ztake_zset_lt by lia.
    set (f := zset (ztake n m) j t).
    assert (Hfi : zget f i = Some y).
    { subst f. rewrite zget_zset_ne by done. by rewrite zget_ztake by lia. }
    assert (Hfj : zget f j = Some t).
    { subst f. apply zget_zset_eq. rewrite zlen_ztake; lia. }
    by apply zset_swap_perm.
  - intros k Hk. by rewrite zget_zset_ne by lia.
Qed.

Lemma stable_moved m i m' i' t n r t' :
  moved m i m' i' t n -> stable m n r t' -> stable m' n r t'.
Proof.
  intros [] Hs. destruct r; cbn in *; [done|]. destruct Hs. split; [done|].
  by rewrite mv_tail0.
Qed.

Lemma heap_insert_loop_ok fuel m r t n j :
  0 <= j < n -> n <= zlen m -> (Z.to_nat j < fuel)%nat -> stable m n r t ->
  up_ok le (zset m j t) n j ->
  exists m' j', heap_insert_loop cmp fuel m r j = Ok (m', j') /\
    moved m j m' j' t n /\ heap_ok le (zset m' j' t) 0 n.
Proof.
  revert m j. induction fuel as [|fuel IH]; intros m j Hj Hn Hf Hs Hup; [lia|].
  cbn [heap_insert_loop]. rewrite (stable_deref _ _ _ _ Hs).
  destruct (Z.gtb_spec j 0) as [Hj0|Hj0].
  2:{ exists m, j. split; [done|]. split; [by apply moved_refl|].
      apply (up_done_root le). by replace 0 with j by lia. }
  rewrite Z.shiftr_div_pow2 by lia. change (2 ^ 1) with 2.
  set (p := (j - 1) / 2).
  assert (Hp : child p j /\ 0 <= p < j).
  { subst p. pose proof (Z.div_mod (j - 1) 2). pose proof (Z.mod_pos_bound (j - 1) 2).
    unfold child. lia. }
  clearbody p. destruct Hp as [Hpc Hpj].
  destruct (zget_is_Some m p) as [y Hy]; [lia|]. arr.
  assert (Hfy : zget (zset m j t) p = Some y) by (rewrite zget_zset_ne by lia; done).
  assert (Hft : zget (zset m j t) j = Some t) by (apply zget_zset_eq; lia).
  rewrite Z.geb_leb. destruct (Z.leb_spec 0 (cmp t y)) as [Hge|Hlt].
  { exists m, j. split; [done|]. split; [by apply moved_refl|].
    apply (up_done le _ _ j y t p); auto; [lia|]. by apply cle_ge. }
  arr. destruct (IH (zset m j y) p) as (m' & j' & -> & Hmv & Hh).
  - lia.
  - by rewrite zlen_zset.
  - lia.
  - apply stable_zset; [lia|done].
  - rewrite (fill_move m p j t y) by (done || lia).
    apply (up_swap le); auto; try lia. by apply cle_lt.
  - exists m', j'. split; [done|]. split; [|done].
    eapply moved_trans; [|exact Hmv]. apply moved_step; auto; lia.
Qed.

Lemma tuplesort_heap_insert_ok m n r t :
  0 <= n < zlen m -> n < INT_MAX -> stable m (n + 1) r t -> heap_ok le m 0 n ->
  exists m', tuplesort_heap_insert cmp m n r = Ok (m', n + 1) /\
    zlen m' = zlen m /\ heap_ok le m' 0 (n + 1) /\
    ztake (n + 1) m' ≡ₚ t :: ztake n m /\
    (forall k, n + 1 <= k -> zget m' k = zget m k).
Proof.
  intros Hn Hmax Hs Hh. unfold tuplesort_heap_insert.
  destruct (heap_insert_loop_ok (S (Z.to_nat n)) m r t (n + 1) n)
    as (m' & j' & -> & Hmv & Hh'); [lia|lia|lia|done|by apply heap_ok_extend|].
  pose proof (stable_moved _ _ _ _ _ _ _ _ Hmv Hs) as Hs'. destruct Hmv.
  cbn [rbind]. rewrite (stable_deref _ _ _ _ Hs'). cbn [rbind].
  rewrite aset_Ok by lia. cbn [rbind].
  rewrite int32_id by (unfold is_int32, INT_MIN, INT_MAX in *; lia).
  exists (zset m' j' t). split; [done|]. rewrite zlen_zset. split; [done|]. split; [done|].
  split.
  - rewrite mv_perm0. rewrite (ztake_succ n _ t) by (apply zget_zset_eq; lia).
    rewrite ztake_zset_ge by lia. by rewrite Permutation_app_comm.
  - intros k Hk. rewrite zget_zset_ne by lia. by apply mv_tail0.
Qed.

(** The child with the smaller entry. *)
Lemma pick_child_ok m n i :
  0 <= i -> 2 * i + 1 < n -> n <= zlen m -> n <= INT_MAX ->
  exists j y, child i j /\ j < n /\ zget m j = Some y /\
    (forall k z, child i k -> k < n -> zget m k = Some z -> le y z) /\
    (if uint32 (uint32 (2 * i + 1) + 1) <? n then
       do! mj <- aget m (uint32 (2 * i + 1)) ;;
       do! mj1 <- aget m (uint32 (uint32 (2 * i + 1) + 1)) ;;
       Ok (if cmp mj mj1 >? 0 then uint32 (uint32 (2 * i + 1) + 1)
           else uint32 (2 * i + 1))
     else Ok (uint32 (2 * i + 1))) = Ok j.
Proof.
  intros Hi Hn Hm Hmax. unfold INT_MAX in *.
  rewrite !uint32_id by (rewrite ?uint32_id; lia).
  destruct (zget_is_Some m (2 * i + 1)) as [l Hl]; [lia|].
  destruct (Z.ltb_spec (2 * i + 1 + 1) n) as [Hr|Hr].
  - destruct (zget_is_Some m (2 * i + 1 + 1)) as [r Hrr]; [lia|]. arr.
    destruct (Z.gtb_spec (cmp l r) 0) as [Hlr|Hlr].
    + exists (2 * i + 1 + 1), r. unfold child. split; [lia|]. do 2 (split; [done|]).
      split; [|done]. intros k z [-> | ->] Hk Hz.
      * replace z with l by congruence. by apply cle_gt.
      * replace z with r by (replace (2 * i + 2) with (2 * i + 1 + 1) in Hz by lia; congruence).
        reflexivity.
    + exists (2 * i + 1), l. unfold child. split; [lia|]. split; [lia|]. split; [done|].
      split; [|done]. intros k z [-> | ->] Hk Hz.
      * replace z with l by congruence. reflexivity.
      * replace z with r by (replace (2 * i + 2) with (2 * i + 1 + 1) in Hz by lia; congruence).
        unfold cle. lia.
  - exists (2 * i + 1), l. unfold child. split; [lia|]. split; [lia|]. split; [done|].
    split; [|done]. intros k z [-> | ->] Hk Hz; [|lia].
    replace z with l by congruence. reflexivity.
Qed.

Lemma heap_replace_loop_ok fuel m r t n i :
  0 <= i < n -> n <= zlen m -> n <= INT_MAX -> (Z.to_nat (n - i) <= fuel)%nat ->
  stable m n r t -> down_ok le (zset m i t) 0 n i ->
  exists m' i', heap_replace_loop cmp fuel m r n i = Ok (m', i') /\
    moved m i m' i' t n /\ heap_ok le (zset m' i' t) 0 n.
Proof.
  revert m i. induction fuel as [|fuel IH]; intros m i Hi Hn Hmax Hf Hs Hdn; [lia|].
  cbn [heap_replace_loop]. cbv zeta.
  assert (Hft : zget (zset m i t) i = Some t) by (apply zget_zset_eq; lia).
  assert (Hu : uint32 (2 * i + 1) = 2 * i + 1)
    by (apply uint32_id; unfold INT_MAX in Hmax; lia).
  destruct (uint32 (2 * i + 1) >=? n) eqn:Hleaf;
    rewrite Hu, Z.geb_leb in Hleaf; [apply Z.leb_le in Hleaf|apply Z.leb_gt in Hleaf].
  { exists m, i. split; [done|]. split; [by apply moved_refl|].
    apply (down_done le _ _ _ i t); auto. unfold child. intros; lia. }
  destruct (pick_child_ok m n i) as (j & y & Hc & Hjn & Hy & Hmin & ->); [lia..|].
  cbn [rbind]. rewrite (stable_deref _ _ _ _ Hs). arr.
  assert (Hij : i < j) by (unfold child in Hc; lia).
  assert (Hfy : zget (zset m i t) j = Some y) by (rewrite zget_zset_ne by lia; done).
  assert (Hmin' : forall k z, child i k -> k < n -> zget (zset m i t) k = Some z -> le y z).
  { intros k z Hk Hkn Hz. apply (Hmin k z); auto.
    rewrite zget_zset_ne in Hz by (unfold child in Hk; lia). done. }
  destruct (Z.leb_spec (cmp t y) 0) as [Hle|Hgt].
  { exists m, i. split; [done|]. split; [by apply moved_refl|].
    apply (down_done le _ _ _ i t); auto. intros k z Hk Hkn Hz.
    transitivity y; [exact Hle|by apply (Hmin' k)]. }
  arr. destruct (IH (zset m i y) j) as (m' & j' & -> & Hmv & Hh).
  - lia.
  - by rewrite zlen_zset.
  - done.
  - lia.
  - apply stable_zset; [lia|done].
  - rewrite (fill_move m j i t y), zset_comm by (done || lia).
    apply (down_swap le); auto; try lia. by apply cle_gt.
  - exists m', j'. split; [done|]. split; [|done].
    eapply moved_trans; [|exact Hmv]. apply moved_step; auto; lia.
Qed.

(** The old contents of the root do not matter. *)
Lemma tuplesort_heap_replace_top_root m n r t :
  1 <= n <= zlen m -> n <= INT_MAX -> stable m n r t -> down_ok le (zset m 0 t) 0 n 0 ->
  exists m', tuplesort_heap_replace_top cmp m n r = Ok m' /\
    zlen m' = zlen m /\ heap_ok le m' 0 n /\
    ztake n m' ≡ₚ ztake n (zset m 0 t) /\
    (forall k, n <= k -> zget m' k = zget m k).
Proof.
  intros Hn Hmax Hs Hdn. unfold tuplesort_heap_replace_top.
  rewrite uint32_id by (unfold INT_MAX in Hmax; lia).
  destruct (heap_replace_loop_ok (S (Z.to_nat n)) m r t n 0)
    as (m' & i' & -> & Hmv & Hh'); [lia|lia|lia|lia|done|done|].
  pose proof (stable_moved _ _ _ _ _ _ _ _ Hmv Hs) as Hs'. destruct Hmv.
  cbn [rbind]. rewrite (stable_deref _ _ _ _ Hs'). cbn [rbind].
  rewrite aset_Ok by lia.
  exists (zset m' i' t). split; [done|]. rewrite zlen_zset. split; [done|]. split; [done|].
  split; [done|]. intros k Hk. rewrite zget_zset_ne by lia. by apply mv_tail0.
Qed.

Lemma replaced_root m n t top :
  1 <= n -> zget m 0 = Some top -> top :: ztake n (zset m 0 t) ≡ₚ t :: ztake n m.
Proof.
  intros Hn Htop. rewrite ztake_zset_lt by lia.
  assert (Ht : zget (ztake n m) 0 = Some top) by (rewrite zget_ztake by lia; done).
  destruct (ztake n m) as [|a l]; [done|].
  rewrite zget_0_cons in Ht. simplify_eq. rewrite zset_0_cons. apply Permutation_swap.
Qed.

Lemma tuplesort_heap_replace_top_ok m n r t top :
  1 <= n <= zlen m -> n <= INT_MAX -> stable m n r t ->
  heap_ok le m 0 n -> zget m 0 = Some top ->
  exists m', tuplesort_heap_replace_top cmp m n r = Ok m' /\
    zlen m' = zlen m /\ heap_ok le m' 0 n /\
    top :: ztake n m' ≡ₚ t :: ztake n m /\
    (forall k, n <= k -> zget m' k = zget m k).
Proof.
  intros Hn Hmax Hs Hh Htop.
  destruct (tuplesort_heap_replace_top_root m n r t) as (m' & -> & Hl & Hh' & Hp & Ht);
    [lia|lia|done|by apply heap_ok_replace, heap_ok_below|].
  exists m'. do 3 (split; [done|]). split; [|done].
  rewrite Hp. apply replaced_root; [lia|done].
Qed.

Lemma tuplesort_heap_delete_top_ok m n top :
  1 <= n <= zlen m -> n <= INT_MAX -> heap_ok le m 0 n -> zget m 0 = Some top ->
  exists m', tuplesort_heap_delete_top cmp m n = Ok (m', n - 1) /\
    zlen m' = zlen m /\ heap_ok le m' 0 (n - 1) /\
    top :: ztake (n - 1) m' ≡ₚ ztake n m /\
    (forall k, n - 1 <= k -> zget m' k = zget m k).
Proof.
  intros Hn Hmax Hh Htop. unfold tuplesort_heap_delete_top.
  rewrite int32_id by (unfold is_int32, INT_MIN, INT_MAX in *; lia).
  destruct (zget_is_Some m (n - 1)) as [t Ht]; [lia|].
  pose proof (ztake_succ (n - 1) m t Ht) as Hsucc. rewrite Z.sub_add in Hsucc.
  destruct (Z.leb_spec (n - 1) 0) as [H1|H1].
  - assert (n = 1) as -> by lia. change (1 - 1) with 0 in *. exists m. split; [done|]. split; [done|].
    split; [by apply (heap_ok_mono le m 0 0 1)|]. split; [|done].
    rewrite Hsucc, !ztake_nonpos by lia. by replace t with top by congruence.
  - destruct (tuplesort_heap_replace_top_ok m (n - 1) (Slot (n - 1)) t top)
      as (m' & -> & Hl & Hh' & Hp & Htl); [lia|lia|by split|apply (heap_ok_mono le m 0 0 n); [lia|lia|done]|done|].
    exists m'. split; [done|]. split; [done|]. split; [done|]. split; [|done].
    rewrite Hp, Hsucc. by rewrite Permutation_app_comm.
Qed.

(** The root of a non-empty heap is a least element. *)
Lemma heap_top_least m n top x :
  1 <= n <= zlen m -> heap_ok le m 0 n -> zget m 0 = Some top -> x ∈ ztake n m -> le top x.
Proof. intros Hn Hh Ht Hx. apply (heap_root_elem le m n top x); auto; lia. Qed.
End heap_spec.
