(* ===== verification/LogTape.v ===== *)
(** * The contract of utils/sort/logtape.c

    tuplesort.c keeps its runs on the logical tapes of logtape.c.  This file
    states what it relies on: a tape is a sequence of the items written to it
    and a byte position.  Writing appends; rewinding for read starts again at
    the first byte; reading advances the position; a frozen tape can also be
    moved back by a number of bytes, and its position told and sought.  A
    position is told as logtape.c tells it: the number, in the file, of the block
    whose buffer is loaded, and the offset in it.  Where the blocks of a tape lie
    in the file is a parameter; how they are allocated, buffers and the
    free-block heap of logtape.c are below this level. *)

From Stdlib Require Import ZArith Lia.
From stdpp Require Import base list strings.
From S2P Require Import Prelude SortSupport.

Local Open Scope Z_scope.

(** What tuplesort.c writes: an [unsigned int] length word, or the body of a
    tuple (everything after the length field of the [MinimalTuple]). *)
Inductive cell :=
| LenWord (len : Z)
| Body (tup : MinimalTuple).

Definition sizeof_uint : Z := 4.
Definition MINIMAL_TUPLE_DATA_OFFSET : Z := 10.

Definition cell_size (c : cell) : Z :=
  match c with
  | LenWord _ => sizeof_uint
  | Body t => t_len t - MINIMAL_TUPLE_DATA_OFFSET
  end.

(** [tblk] counts the blocks of the tape before the one that is loaded; at a
    block boundary that can be the block before or the block after it. *)
Record LogicalTape := mk_tape {
  writing : bool;
  frozen : bool;
  cells : list cell;
  tpos : Z;
  tblk : Z
}.

Definition LogicalTapeSet : Type := list LogicalTape.

Definition empty_tape : LogicalTape := mk_tape true false [] 0 0.

Definition LogicalTapeSetCreate (ntapes : Z) : LogicalTapeSet :=
  replicate (Z.to_nat ntapes) empty_tape.

Definition tape_size (cs : list cell) : Z := foldr (fun c n => cell_size c + n) 0 cs.

(** The item that starts at byte [pos]. *)
Fixpoint cell_at (cs : list cell) (pos : Z) : option cell :=
  match cs with
  | [] => None
  | c :: cs => if pos =? 0 then Some c else cell_at cs (pos - cell_size c)
  end.

Definition with_tape (lts : LogicalTapeSet) (tapenum : Z)
    (k : LogicalTape -> res LogicalTape) : res LogicalTapeSet :=
  do! lt <- aget lts tapenum ;;
  do! lt' <- k lt ;;
  aset lts tapenum lt'.

Definition LogicalTapeWrite (lts : LogicalTapeSet) (tapenum : Z) (c : cell)
    : res LogicalTapeSet :=
  with_tape lts tapenum (fun lt =>
    if writing lt then Ok (mk_tape true (frozen lt) (cells lt ++ [c]) (tpos lt) (tblk lt)) else Crash).

(** From writing (or frozen) to reading, at the first byte. *)
Definition LogicalTapeRewindForRead (lts : LogicalTapeSet) (tapenum : Z)
    : res LogicalTapeSet :=
  with_tape lts tapenum (fun lt =>
    if writing lt || frozen lt then Ok (mk_tape false (frozen lt) (cells lt) 0 0) else Crash).

(** From reading to writing: the contents are forgotten. *)
Definition LogicalTapeRewindForWrite (lts : LogicalTapeSet) (tapenum : Z)
    : res LogicalTapeSet :=
  with_tape lts tapenum (fun lt =>
    if writing lt || frozen lt then Crash else Ok (mk_tape true false [] 0 0)).

Definition LogicalTapeFreeze (lts : LogicalTapeSet) (tapenum : Z) : res LogicalTapeSet :=
  with_tape lts tapenum (fun lt =>
    if writing lt then Ok (mk_tape false true (cells lt) 0 0) else Crash).

Definition TapeBlockPayloadSize : Z := 8176.

(** Read the item at the position; [None] at the end of the tape.  A position
    inside an item is a programming error.  The next block is loaded only when
    a byte of it is asked for. *)
Definition LogicalTapeRead (lts : LogicalTapeSet) (tapenum : Z)
    : res (LogicalTapeSet * option cell) :=
  do! lt <- aget lts tapenum ;;
  if writing lt then Crash
  else if tpos lt =? tape_size (cells lt) then Ok (lts, None)
  else
    match cell_at (cells lt) (tpos lt) with
    | None => Crash
    | Some c =>
      let pos := tpos lt + cell_size c in
      do! lts' <- aset lts tapenum
                    (mk_tape false (frozen lt) (cells lt) pos ((pos - 1) / TapeBlockPayloadSize)) ;;
      Ok (lts', Some c)
    end.

(** Move back [size] bytes, or to the start of the tape; the number of bytes
    moved.  Earlier blocks are loaded as far back as needed. *)
Definition LogicalTapeBackspace (lts : LogicalTapeSet) (tapenum size : Z)
    : res (LogicalTapeSet * Z) :=
  do! lt <- aget lts tapenum ;;
  if negb (frozen lt) then Crash
  else
    let nmoved := Z.min size (tpos lt) in
    let pos := tpos lt - nmoved in
    do! lts' <- aset lts tapenum
                  (mk_tape false true (cells lt) pos
                     (Z.min (tblk lt) (pos / TapeBlockPayloadSize))) ;;
    Ok (lts', nmoved).

(** Freed blocks of the file are no longer kept track of; the tapes are the
    same. *)
Definition LogicalTapeSetForgetFreeSpace (lts : LogicalTapeSet) : LogicalTapeSet := lts.

Section positions.
(** The number, in the file, of the [n]-th block of the frozen tape. *)
Variable place : Z -> Z.

(** The position of a frozen tape, "in a form suitable for a later
    [LogicalTapeSeek]". *)
Definition LogicalTapeTell (lts : LogicalTapeSet) (tapenum : Z) : res (Z * Z) :=
  do! lt <- aget lts tapenum ;;
  if frozen lt then Ok (place (tblk lt), tpos lt - tblk lt * TapeBlockPayloadSize) else Crash.

(** The block of the tape that has this number in the file, among its first
    [k]. *)
Definition find_block (k blocknum : Z) : option Z :=
  snd <$> list_find (fun n => place n = blocknum) (seqZ 0 k).

(** Only a position that was told may be sought: a block of the file that is
    not on the tape, or a place behind the end of the tape, is outside the
    contract. *)
Definition LogicalTapeSeek (lts : LogicalTapeSet) (tapenum blocknum offset : Z)
    : res LogicalTapeSet :=
  with_tape lts tapenum (fun lt =>
    let size := tape_size (cells lt) in
    if negb (frozen lt) || (offset <? 0) || (TapeBlockPayloadSize <? offset) then Crash
    else
      match find_block (size / TapeBlockPayloadSize + 1) blocknum with
      | None => Crash
      | Some n =>
        let pos := n * TapeBlockPayloadSize + offset in
        if pos <=? size then Ok (mk_tape false true (cells lt) pos n)
        else if n =? tblk lt then Error "invalid tape seek position"
        else Crash
      end).
End positions.

(** ** The loaded block *)

(** The block that is loaded is one at whose bytes, or end, the position is. *)
Definition block_loaded (lt : LogicalTape) : Prop :=
  0 <= tblk lt /\
  tblk lt * TapeBlockPayloadSize <= tpos lt <= (tblk lt + 1) * TapeBlockPayloadSize.

(** The block that holds the byte before the position. *)
Lemma byte_block pos :
  0 < pos -> let n := (pos - 1) / TapeBlockPayloadSize in
  0 <= n /\ n * TapeBlockPayloadSize <= pos <= (n + 1) * TapeBlockPayloadSize.
Proof. unfold TapeBlockPayloadSize. intros Hp. cbv zeta. Z.to_euclidean_division_equations. lia. Qed.

(** Moving back loads the block of the byte moved to, or none. *)
Lemma loaded_back lt pos cs :
  block_loaded lt -> 0 <= pos <= tpos lt ->
  block_loaded (mk_tape false true cs pos (Z.min (tblk lt) (pos / TapeBlockPayloadSize))).
Proof.
  unfold block_loaded. cbn [tblk tpos]. unfold TapeBlockPayloadSize. intros [H0 H1] Hp.
  pose proof (Z.div_mod pos 8176 ltac:(lia)). pose proof (Z.mod_pos_bound pos 8176 ltac:(lia)).
  pose proof (Z.div_pos pos 8176). lia.
Qed.

Lemma find_block_Some place k b n :
  find_block place k b = Some n -> 0 <= n < k /\ place n = b.
Proof.
  unfold find_block. destruct (list_find _ _) as [[i m]|] eqn:Hf; [|done]. intros [= <-].
  apply list_find_Some in Hf as (Hm & Heq & _). apply lookup_seqZ in Hm. split; [lia|done].
Qed.
