(* ===== verification/LogTapeBlocks.v ===== *)
(** * utils/sort/logtape.c: logical tapes in one temporary file

    A tape set multiplexes its tapes over the blocks of one file.  The blocks
    of a tape form a doubly linked list through the trailers at their ends; a
    block is returned to a min-heap of free block numbers as soon as an
    unfrozen tape has read it, and reused for what is written next.

    The underlying [BufFile] is a list of blocks that can be overwritten or
    extended by one.  A [Block] is the payload of a [BLCKSZ] block and its
    trailer.  A read buffer can hold the payloads of several blocks one after
    the other; as in the C code only the trailer of the block read last is left
    at its end.  [junk] is what [palloc] happens to return.  A failed [Assert]
    is a [Crash].  Functions that get
    a pointer to a tape of the set take and return the tape beside the set. *)

From Stdlib Require Import ZArith Lia.
From stdpp Require Import base list sorting strings.
From S2P Require Import Prelude HeapTheory.

Local Open Scope Z_scope.

Definition BLCKSZ : Z := 8192.
Definition sizeof_TapeBlockTrailer : Z := 16.
Definition sizeof_long : Z := 8.
Definition MaxAllocSize : Z := 1073741823.

Definition TapeBlockPayloadSize : Z := BLCKSZ - sizeof_TapeBlockTrailer.

(** The payload and the trailer of a block. *)
Record Block := mk_block {
  b_data : list Z;
  b_prev : Z;
  b_next : Z
}.

Definition TapeBlockIsLast (buf : Block) : bool := b_next buf <? 0.

Definition TapeBlockGetNBytes (buf : Block) : Z :=
  if TapeBlockIsLast buf then - b_next buf else TapeBlockPayloadSize.

Definition TapeBlockSetNBytes (buf : Block) (nbytes : Z) : Block :=
  mk_block (b_data buf) (b_prev buf) (- nbytes).

Definition set_b_next (n : Z) (buf : Block) : Block := mk_block (b_data buf) (b_prev buf) n.
Definition set_b_prev (n : Z) (buf : Block) : Block := mk_block (b_data buf) n (b_next buf).

Definition TAPE_WRITE_PREALLOC_MIN : Z := 8.
Definition TAPE_WRITE_PREALLOC_MAX : Z := 128.

(** One tape.  [None] is a NULL pointer. *)
Record LogicalTape := mk_lt {
  writing : bool;
  frozen : bool;
  dirty : bool;
  firstBlockNumber : Z;
  curBlockNumber : Z;
  nextBlockNumber : Z;
  offsetBlockNumber : Z;
  buffer : option Block;
  buffer_size : Z;
  max_size : Z;
  pos : Z;
  nbytes : Z;
  prealloc : option (list Z);
  nprealloc : Z;
  prealloc_size : Z
}.

Definition set_writing (v : bool) (s : LogicalTape) : LogicalTape :=
  mk_lt v (frozen s) (dirty s) (firstBlockNumber s) (curBlockNumber s) (nextBlockNumber s)
    (offsetBlockNumber s) (buffer s) (buffer_size s) (max_size s) (pos s) (nbytes s) (prealloc
    s) (nprealloc s) (prealloc_size s).
Definition set_frozen (v : bool) (s : LogicalTape) : LogicalTape :=
  mk_lt (writing s) v (dirty s) (firstBlockNumber s) (curBlockNumber s) (nextBlockNumber s)
    (offsetBlockNumber s) (buffer s) (buffer_size s) (max_size s) (pos s) (nbytes s) (prealloc
    s) (nprealloc s) (prealloc_size s).
Definition set_dirty (v : bool) (s : LogicalTape) : LogicalTape :=
  mk_lt (writing s) (frozen s) v (firstBlockNumber s) (curBlockNumber s) (nextBlockNumber s)
    (offsetBlockNumber s) (buffer s) (buffer_size s) (max_size s) (pos s) (nbytes s) (prealloc
    s) (nprealloc s) (prealloc_size s).
Definition set_firstBlockNumber (v : Z) (s : LogicalTape) : LogicalTape :=
  mk_lt (writing s) (frozen s) (dirty s) v (curBlockNumber s) (nextBlockNumber s)
    (offsetBlockNumber s) (buffer s) (buffer_size s) (max_size s) (pos s) (nbytes s) (prealloc
    s) (nprealloc s) (prealloc_size s).
Definition set_curBlockNumber (v : Z) (s : LogicalTape) : LogicalTape :=
  mk_lt (writing s) (frozen s) (dirty s) (firstBlockNumber s) v (nextBlockNumber s)
    (offsetBlockNumber s) (buffer s) (buffer_size s) (max_size s) (pos s) (nbytes s) (prealloc
    s) (nprealloc s) (prealloc_size s).
Definition set_nextBlockNumber (v : Z) (s : LogicalTape) : LogicalTape :=
  mk_lt (writing s) (frozen s) (dirty s) (firstBlockNumber s) (curBlockNumber s) v
    (offsetBlockNumber s) (buffer s) (buffer_size s) (max_size s) (pos s) (nbytes s) (prealloc
    s) (nprealloc s) (prealloc_size s).
Definition set_offsetBlockNumber (v : Z) (s : LogicalTape) : LogicalTape :=
  mk_lt (writing s) (frozen s) (dirty s) (firstBlockNumber s) (curBlockNumber s)
    (nextBlockNumber s) v (buffer s) (buffer_size s) (max_size s) (pos s) (nbytes s) (prealloc
    s) (nprealloc s) (prealloc_size s).
Definition set_buffer (v : option Block) (s : LogicalTape) : LogicalTape :=
  mk_lt (writing s) (frozen s) (dirty s) (firstBlockNumber s) (curBlockNumber s)
    (nextBlockNumber s) (offsetBlockNumber s) v (buffer_size s) (max_size s) (pos s) (nbytes s)
    (prealloc s) (nprealloc s) (prealloc_size s).
Definition set_buffer_size (v : Z) (s : LogicalTape) : LogicalTape :=
  mk_lt (writing s) (frozen s) (dirty s) (firstBlockNumber s) (curBlockNumber s)
    (nextBlockNumber s) (offsetBlockNumber s) (buffer s) v (max_size s) (pos s) (nbytes s)
    (prealloc s) (nprealloc s) (prealloc_size s).
Definition set_max_size (v : Z) (s : LogicalTape) : LogicalTape :=
  mk_lt (writing s) (frozen s) (dirty s) (firstBlockNumber s) (curBlockNumber s)
    (nextBlockNumber s) (offsetBlockNumber s) (buffer s) (buffer_size s) v (pos s) (nbytes s)
    (prealloc s) (nprealloc s) (prealloc_size s).
Definition set_pos (v : Z) (s : LogicalTape) : LogicalTape :=
  mk_lt (writing s) (frozen s) (dirty s) (firstBlockNumber s) (curBlockNumber s)
    (nextBlockNumber s) (offsetBlockNumber s) (buffer s) (buffer_size s) (max_size s) v (nbytes
    s) (prealloc s) (nprealloc s) (prealloc_size s).
Definition set_nbytes (v : Z) (s : LogicalTape) : LogicalTape :=
  mk_lt (writing s) (frozen s) (dirty s) (firstBlockNumber s) (curBlockNumber s)
    (nextBlockNumber s) (offsetBlockNumber s) (buffer s) (buffer_size s) (max_size s) (pos s) v
    (prealloc s) (nprealloc s) (prealloc_size s).
Definition set_prealloc (v : option (list Z)) (s : LogicalTape) : LogicalTape :=
  mk_lt (writing s) (frozen s) (dirty s) (firstBlockNumber s) (curBlockNumber s)
    (nextBlockNumber s) (offsetBlockNumber s) (buffer s) (buffer_size s) (max_size s) (pos s)
    (nbytes s) v (nprealloc s) (prealloc_size s).
Definition set_nprealloc (v : Z) (s : LogicalTape) : LogicalTape :=
  mk_lt (writing s) (frozen s) (dirty s) (firstBlockNumber s) (curBlockNumber s)
    (nextBlockNumber s) (offsetBlockNumber s) (buffer s) (buffer_size s) (max_size s) (pos s)
    (nbytes s) (prealloc s) v (prealloc_size s).
Definition set_prealloc_size (v : Z) (s : LogicalTape) : LogicalTape :=
  mk_lt (writing s) (frozen s) (dirty s) (firstBlockNumber s) (curBlockNumber s)
    (nextBlockNumber s) (offsetBlockNumber s) (buffer s) (buffer_size s) (max_size s) (pos s)
    (nbytes s) (prealloc s) (nprealloc s) v.

(** The tapes of a set and the blocks they share. *)
Record LogicalTapeSet := mk_lts {
  pfile : list Block;
  nBlocksAllocated : Z;
  nBlocksWritten : Z;
  nHoleBlocks : Z;
  forgetFreeSpace : bool;
  freeBlocks : list Z;
  nFreeBlocks : Z;
  freeBlocksLen : Z;
  enable_prealloc : bool;
  tapes : list LogicalTape
}.

Definition set_pfile (v : list Block) (s : LogicalTapeSet) : LogicalTapeSet :=
  mk_lts v (nBlocksAllocated s) (nBlocksWritten s) (nHoleBlocks s) (forgetFreeSpace s)
    (freeBlocks s) (nFreeBlocks s) (freeBlocksLen s) (enable_prealloc s) (tapes s).
Definition set_nBlocksAllocated (v : Z) (s : LogicalTapeSet) : LogicalTapeSet :=
  mk_lts (pfile s) v (nBlocksWritten s) (nHoleBlocks s) (forgetFreeSpace s) (freeBlocks s)
    (nFreeBlocks s) (freeBlocksLen s) (enable_prealloc s) (tapes s).
Definition set_nBlocksWritten (v : Z) (s : LogicalTapeSet) : LogicalTapeSet :=
  mk_lts (pfile s) (nBlocksAllocated s) v (nHoleBlocks s) (forgetFreeSpace s) (freeBlocks s)
    (nFreeBlocks s) (freeBlocksLen s) (enable_prealloc s) (tapes s).
Definition set_nHoleBlocks (v : Z) (s : LogicalTapeSet) : LogicalTapeSet :=
  mk_lts (pfile s) (nBlocksAllocated s) (nBlocksWritten s) v (forgetFreeSpace s) (freeBlocks s)
    (nFreeBlocks s) (freeBlocksLen s) (enable_prealloc s) (tapes s).
Definition set_forgetFreeSpace (v : bool) (s : LogicalTapeSet) : LogicalTapeSet :=
  mk_lts (pfile s) (nBlocksAllocated s) (nBlocksWritten s) (nHoleBlocks s) v (freeBlocks s)
    (nFreeBlocks s) (freeBlocksLen s) (enable_prealloc s) (tapes s).
Definition set_freeBlocks (v : list Z) (s : LogicalTapeSet) : LogicalTapeSet :=
  mk_lts (pfile s) (nBlocksAllocated s) (nBlocksWritten s) (nHoleBlocks s) (forgetFreeSpace s)
    v (nFreeBlocks s) (freeBlocksLen s) (enable_prealloc s) (tapes s).
Definition set_nFreeBlocks (v : Z) (s : LogicalTapeSet) : LogicalTapeSet :=
  mk_lts (pfile s) (nBlocksAllocated s) (nBlocksWritten s) (nHoleBlocks s) (forgetFreeSpace s)
    (freeBlocks s) v (freeBlocksLen s) (enable_prealloc s) (tapes s).
Definition set_freeBlocksLen (v : Z) (s : LogicalTapeSet) : LogicalTapeSet :=
  mk_lts (pfile s) (nBlocksAllocated s) (nBlocksWritten s) (nHoleBlocks s) (forgetFreeSpace s)
    (freeBlocks s) (nFreeBlocks s) v (enable_prealloc s) (tapes s).
Definition set_enable_prealloc (v : bool) (s : LogicalTapeSet) : LogicalTapeSet :=
  mk_lts (pfile s) (nBlocksAllocated s) (nBlocksWritten s) (nHoleBlocks s) (forgetFreeSpace s)
    (freeBlocks s) (nFreeBlocks s) (freeBlocksLen s) v (tapes s).
Definition set_tapes (v : list LogicalTape) (s : LogicalTapeSet) : LogicalTapeSet :=
  mk_lts (pfile s) (nBlocksAllocated s) (nBlocksWritten s) (nHoleBlocks s) (forgetFreeSpace s)
    (freeBlocks s) (nFreeBlocks s) (freeBlocksLen s) (enable_prealloc s) v.

(** ** The underlying file *)

(** [BufFileSeekBlock] and [BufFileWrite] of one block. *)
Definition buffile_write (f : list Block) (blocknum : Z) (buf : Block) : res (list Block) :=
  if (0 <=? blocknum) && (blocknum <? zlen f) then Ok (zset f blocknum buf)
  else if blocknum =? zlen f then Ok (f ++ [buf])
  else Error "could not seek to block of temporary file".

(** [BufFileSeekBlock] and [BufFileRead] of one block. *)
Definition buffile_read (f : list Block) (blocknum : Z) : res Block :=
  if blocknum <? 0 then Error "could not seek to block of temporary file"
  else
    match zget f blocknum with
    | Some buf => Ok buf
    | None => Error "could not read block of temporary file"
    end.

Definition zerobuf : Block := mk_block (replicate (Z.to_nat TapeBlockPayloadSize) 0) 0 0.

(** Write one block that is not beyond the end of the file. *)
Definition write_at (lts : LogicalTapeSet) (blocknum : Z) (buf : Block) : res LogicalTapeSet :=
  do! f <- buffile_write (pfile lts) blocknum buf ;;
  let lts := set_pfile f lts in
  Ok (if blocknum =? nBlocksWritten lts
      then set_nBlocksWritten (nBlocksWritten lts + 1) lts else lts).

(** Fill the space up to [blocknum] with zeros. *)
Fixpoint fill_holes (fuel : nat) (lts : LogicalTapeSet) (blocknum : Z) : res LogicalTapeSet :=
  match fuel with
  | O => NoFuel
  | S fuel =>
    if blocknum >? nBlocksWritten lts then
      do! lts <- write_at lts (nBlocksWritten lts) zerobuf ;;
      fill_holes fuel lts blocknum
    else Ok lts
  end.

Definition ltsWriteBlock (lts : LogicalTapeSet) (blocknum : Z) (buf : Block)
    : res LogicalTapeSet :=
  do! lts <- fill_holes (S (Z.to_nat (blocknum - nBlocksWritten lts))) lts blocknum ;;
  write_at lts blocknum buf.

Definition ltsReadBlock (lts : LogicalTapeSet) (blocknum : Z) : res Block :=
  buffile_read (pfile lts) blocknum.

(** ** The free blocks *)

Definition swap_nodes (heap : list Z) (a b : Z) : res (list Z) :=
  do! x <- aget heap a ;;
  do! y <- aget heap b ;;
  do! heap <- aset heap a y ;;
  aset heap b x.

Definition left_offset (i : Z) : Z := 2 * i + 1.
Definition right_offset (i : Z) : Z := uint32 (2 * uint32 i + 2).
Definition parent_offset (i : Z) : Z := (i - 1) / 2.

(** The smaller child, if there is one. *)
Definition min_child (heap : list Z) (pos heapsize : Z) : res (option Z) :=
  let left := left_offset pos in
  let right := right_offset pos in
  if (left <? heapsize) && (right <? heapsize) then
    do! l <- aget heap left ;;
    do! r <- aget heap right ;;
    Ok (Some (if l <? r then left else right))
  else if left <? heapsize then Ok (Some left)
  else if right <? heapsize then Ok (Some right)
  else Ok None.

Fixpoint free_sift_down (fuel : nat) (heap : list Z) (pos heapsize : Z) : res (list Z) :=
  match fuel with
  | O => NoFuel
  | S fuel =>
    do! c <- min_child heap pos heapsize ;;
    match c with
    | None => Ok heap
    | Some c =>
      do! x <- aget heap c ;;
      do! y <- aget heap pos ;;
      if x >=? y then Ok heap
      else
        do! heap <- swap_nodes heap c pos ;;
        free_sift_down fuel heap c heapsize
    end
  end.

Definition ltsGetFreeBlock (lts : LogicalTapeSet) : res (LogicalTapeSet * Z) :=
  if nFreeBlocks lts =? 0 then
    Ok (set_nBlocksAllocated (nBlocksAllocated lts + 1) lts, nBlocksAllocated lts)
  else if nFreeBlocks lts =? 1 then
    let lts := set_nFreeBlocks (nFreeBlocks lts - 1) lts in
    do! b <- aget (freeBlocks lts) 0 ;;
    Ok (lts, b)
  else
    do! blocknum <- aget (freeBlocks lts) 0 ;;
    let lts := set_nFreeBlocks (nFreeBlocks lts - 1) lts in
    do! last <- aget (freeBlocks lts) (nFreeBlocks lts) ;;
    do! heap <- aset (freeBlocks lts) 0 last ;;
    let heapsize := int32 (nFreeBlocks lts) in
    do! heap <- free_sift_down (S (Z.to_nat heapsize)) heap 0 heapsize ;;
    Ok (set_freeBlocks heap lts, blocknum).

(** Refill entries [i - 1], ..., 0 of a preallocation list of [n], and verify
    that they descend. *)
Fixpoint refill (n : Z) (i : nat) (lts : LogicalTapeSet) (pre : list Z)
    : res (LogicalTapeSet * list Z) :=
  match i with
  | O => Ok (lts, pre)
  | S j =>
    do! ' (lts, b) <- ltsGetFreeBlock lts ;;
    do! pre <- aset pre (Z.of_nat j) b ;;
    do! descending <-
      (if Z.of_nat i =? n then Ok true
       else do! next <- aget pre (Z.of_nat i) ;; Ok (b >? next)) ;;
    if (descending : bool) then refill n j lts pre else Crash
  end.

Definition ltsGetPreallocBlock (lts : LogicalTapeSet) (lt : LogicalTape)
    : res (LogicalTapeSet * LogicalTape * Z) :=
  match prealloc lt with
  | Some pre =>
    if nprealloc lt >? 0 then
      let lt := set_nprealloc (nprealloc lt - 1) lt in
      do! b <- aget pre (nprealloc lt) ;;
      Ok (lts, lt, b)
    else
      let size :=
        if prealloc_size lt <? TAPE_WRITE_PREALLOC_MAX
        then Z.min (prealloc_size lt * 2) TAPE_WRITE_PREALLOC_MAX else prealloc_size lt in
      let pre := pre ++ replicate (Z.to_nat (size - zlen pre)) 0 in
      do! ' (lts, pre) <- refill size (Z.to_nat size) lts pre ;;
      let lt := set_prealloc (Some pre) (set_prealloc_size size lt) in
      let lt := set_nprealloc (size - 1) lt in
      do! b <- aget pre (nprealloc lt) ;;
      Ok (lts, lt, b)
  | None =>
    let size := TAPE_WRITE_PREALLOC_MIN in
    let pre := replicate (Z.to_nat size) 0 in
    do! ' (lts, pre) <- refill size (Z.to_nat size) lts pre ;;
    let lt := set_prealloc (Some pre) (set_prealloc_size size lt) in
    let lt := set_nprealloc (size - 1) lt in
    do! b <- aget pre (nprealloc lt) ;;
    Ok (lts, lt, b)
  end.

Definition ltsGetBlock (lts : LogicalTapeSet) (lt : LogicalTape)
    : res (LogicalTapeSet * LogicalTape * Z) :=
  if enable_prealloc lts then ltsGetPreallocBlock lts lt
  else do! ' (lts, b) <- ltsGetFreeBlock lts ;; Ok (lts, lt, b).

Fixpoint free_sift_up (fuel : nat) (heap : list Z) (pos : Z) : res (list Z) :=
  match fuel with
  | O => NoFuel
  | S fuel =>
    if negb (pos =? 0) then
      let parent := parent_offset pos in
      do! x <- aget heap parent ;;
      do! y <- aget heap pos ;;
      if x <? y then Ok heap
      else
        do! heap <- swap_nodes heap parent pos ;;
        free_sift_up fuel heap parent
    else Ok heap
  end.

Definition ltsReleaseBlock (lts : LogicalTapeSet) (blocknum : Z) : res LogicalTapeSet :=
  if forgetFreeSpace lts then Ok lts
  else if (nFreeBlocks lts >=? freeBlocksLen lts) &&
          (freeBlocksLen lts * 2 * sizeof_long >? MaxAllocSize) then Ok lts
  else
    let lts :=
      if nFreeBlocks lts >=? freeBlocksLen lts then
        set_freeBlocks (freeBlocks lts ++ replicate (Z.to_nat (freeBlocksLen lts)) 0)
          (set_freeBlocksLen (freeBlocksLen lts * 2) lts)
      else lts in
    let pos := nFreeBlocks lts in
    do! heap <- aset (freeBlocks lts) pos blocknum ;;
    let lts := set_nFreeBlocks (nFreeBlocks lts + 1) lts in
    do! heap <- free_sift_up (S (Z.to_nat pos)) heap pos ;;
    Ok (set_freeBlocks heap lts).

(** ** Creating a set *)

Definition ltsInitTape : LogicalTape :=
  mk_lt true false false (-1) (-1) (-1) 0 None 0 MaxAllocSize 0 0 None 0 0.

(** For a serial sort; [preallocate] is for hash aggregation. *)
Definition LogicalTapeSetCreate (ntapes : Z) (preallocate : bool) : LogicalTapeSet :=
  mk_lts [] 0 0 0 false (replicate 32 0) 0 32 preallocate (replicate (Z.to_nat ntapes) ltsInitTape).

Definition LogicalTapeSetForgetFreeSpace (lts : LogicalTapeSet) : LogicalTapeSet :=
  set_forgetFreeSpace true lts.

Definition LogicalTapeSetExtend (lts : LogicalTapeSet) (nAdditional : Z) : LogicalTapeSet :=
  set_tapes (tapes lts ++ replicate (Z.to_nat nAdditional) ltsInitTape) lts.

Definition LogicalTapeSetBlocks (lts : LogicalTapeSet) : Z :=
  nBlocksWritten lts - nHoleBlocks lts.

(** Work on tape [tapenum] and put it back. *)
Definition on_tape {A} (lts : LogicalTapeSet) (tapenum : Z)
    (k : LogicalTapeSet -> LogicalTape -> res (LogicalTapeSet * LogicalTape * A))
    : res (LogicalTapeSet * A) :=
  do! lt <- aget (tapes lts) tapenum ;;
  do! ' (lts, lt, a) <- k lts lt ;;
  do! ts <- aset (tapes lts) tapenum lt ;;
  Ok (set_tapes ts lts, a).

(** ** Writing and reading *)

Section memory.
Variable junk : list Z.

(** A block-sized buffer fresh from [palloc]. *)
Definition palloc_block : Block := mk_block junk 0 0.

(** [memcpy(buffer + pos, ptr, ...)]. *)
Definition overwrite (data : list Z) (pos : Z) (xs : list Z) : res (list Z) :=
  if (0 <=? pos) && (pos + zlen xs <=? zlen data)
  then Ok (ztake pos data ++ xs ++ zdrop (pos + zlen xs) data) else Crash.

(** The buffer is full: write it out and go on to the next block. *)
Definition next_block (lts : LogicalTapeSet) (lt : LogicalTape) (buf : Block)
    : res (LogicalTapeSet * LogicalTape * Block) :=
  if negb (dirty lt) then Error "invalid logtape state: should be dirty"
  else
    do! ' (lts, lt, nextBlockNumber) <- ltsGetBlock lts lt ;;
    let buf := set_b_next nextBlockNumber buf in
    do! lts <- ltsWriteBlock lts (curBlockNumber lt) buf ;;
    let buf := set_b_prev (curBlockNumber lt) buf in
    let lt := set_curBlockNumber nextBlockNumber lt in
    Ok (lts, set_nbytes 0 (set_pos 0 lt), buf).

Fixpoint write_loop (fuel : nat) (lts : LogicalTapeSet) (lt : LogicalTape) (buf : Block)
    (ptr : list Z) : res (LogicalTapeSet * LogicalTape * Block) :=
  match fuel with
  | O => NoFuel
  | S fuel =>
    if zlen ptr >? 0 then
      do! ' (lts, lt, buf) <-
        (if pos lt >=? TapeBlockPayloadSize then next_block lts lt buf else Ok (lts, lt, buf)) ;;
      let nthistime := Z.min (TapeBlockPayloadSize - pos lt) (zlen ptr) in
      do! data <- overwrite (b_data buf) (pos lt) (ztake nthistime ptr) ;;
      let buf := mk_block data (b_prev buf) (b_next buf) in
      let lt := set_pos (pos lt + nthistime) (set_dirty true lt) in
      let lt := if nbytes lt <? pos lt then set_nbytes (pos lt) lt else lt in
      write_loop fuel lts lt buf (zdrop nthistime ptr)
    else Ok (lts, lt, buf)
  end.

Definition tape_write (lts : LogicalTapeSet) (lt : LogicalTape) (ptr : list Z)
    : res (LogicalTapeSet * LogicalTape * unit) :=
  if negb (writing lt && (offsetBlockNumber lt =? 0)) then Crash
  else
    let '(lt, buf) :=
      match buffer lt with
      | None => (set_buffer_size BLCKSZ lt, palloc_block)
      | Some buf => (lt, buf)
      end in
    do! ' (lts, lt, buf) <-
      (if curBlockNumber lt =? -1 then
         if negb ((firstBlockNumber lt =? -1) && (pos lt =? 0)) then Crash
         else
           do! ' (lts, lt, b) <- ltsGetBlock lts lt ;;
           Ok (lts, set_firstBlockNumber b (set_curBlockNumber b lt), set_b_prev (-1) buf)
       else Ok (lts, lt, buf)) ;;
    if negb (buffer_size lt =? BLCKSZ) then Crash
    else
      do! ' (lts, lt, buf) <- write_loop (S (length ptr)) lts lt buf ptr ;;
      Ok (lts, set_buffer (Some buf) lt, tt).

Definition LogicalTapeWrite (lts : LogicalTapeSet) (tapenum : Z) (ptr : list Z)
    : res (LogicalTapeSet * unit) :=
  on_tape lts tapenum (fun lts lt => tape_write lts lt ptr).

(** Flush the last block of a write phase. *)
Definition flush (lts : LogicalTapeSet) (lt : LogicalTape) : res LogicalTapeSet :=
  if dirty lt then
    match buffer lt with
    | None => Crash
    | Some buf =>
      ltsWriteBlock lts (curBlockNumber lt) (TapeBlockSetNBytes buf (nbytes lt))
    end
  else Ok lts.

Fixpoint release_all (pre : list Z) (i : nat) (lts : LogicalTapeSet) : res LogicalTapeSet :=
  match i with
  | O => Ok lts
  | S i =>
    do! b <- aget pre (Z.of_nat i) ;;
    do! lts <- ltsReleaseBlock lts b ;;
    release_all pre i lts
  end.

(** The size of the read buffer. *)
Definition read_buffer_size (lt : LogicalTape) (size : Z) : Z :=
  if frozen lt then BLCKSZ
  else
    let size := Z.min (Z.max size BLCKSZ) (max_size lt) in
    size - size mod BLCKSZ.

Definition tape_rewind_for_read (lts : LogicalTapeSet) (lt : LogicalTape) (size : Z)
    : res (LogicalTapeSet * LogicalTape * unit) :=
  let size := read_buffer_size lt size in
  do! ' (lts, lt) <-
    (if writing lt then do! lts <- flush lts lt ;; Ok (lts, set_writing false lt)
     else if frozen lt then Ok (lts, lt) else Crash) ;;
  let lt := set_buffer_size size (set_buffer None lt) in
  match prealloc lt with
  | None => Ok (lts, lt, tt)
  | Some pre =>
    do! lts <- release_all pre (Z.to_nat (nprealloc lt)) lts ;;
    Ok (lts, set_prealloc_size 0 (set_nprealloc 0 (set_prealloc None lt)), tt)
  end.

Definition LogicalTapeRewindForRead (lts : LogicalTapeSet) (tapenum buffer_size : Z)
    : res (LogicalTapeSet * unit) :=
  on_tape lts tapenum (fun lts lt => tape_rewind_for_read lts lt buffer_size).

Definition tape_rewind_for_write (lt : LogicalTape) : res LogicalTape :=
  if writing lt || frozen lt then Crash
  else
    let lt := set_dirty false (set_writing true lt) in
    let lt := set_curBlockNumber (-1) (set_firstBlockNumber (-1) lt) in
    let lt := set_nbytes 0 (set_pos 0 lt) in
    Ok (set_buffer_size 0 (set_buffer None lt)).

Definition LogicalTapeRewindForWrite (lts : LogicalTapeSet) (tapenum : Z)
    : res (LogicalTapeSet * unit) :=
  on_tape lts tapenum (fun lts lt => do! lt <- tape_rewind_for_write lt ;; Ok (lts, lt, tt)).

(** Read blocks into the buffer while there is room. *)
Fixpoint fill_loop (fuel : nat) (lts : LogicalTapeSet) (lt : LogicalTape) (buf : Block)
    : res (LogicalTapeSet * LogicalTape * Block) :=
  match fuel with
  | O => NoFuel
  | S fuel =>
    let datablocknum := nextBlockNumber lt in
    if datablocknum =? -1 then Ok (lts, lt, buf)
    else if nbytes lt + BLCKSZ >? buffer_size lt then Crash
    else
      let datablocknum := datablocknum + offsetBlockNumber lt in
      do! thisbuf <- ltsReadBlock lts datablocknum ;;
      do! lts <- (if negb (frozen lt) then ltsReleaseBlock lts datablocknum else Ok lts) ;;
      let buf := mk_block (ztake (nbytes lt) (b_data buf) ++ b_data thisbuf)
                   (b_prev thisbuf) (b_next thisbuf) in
      let lt := set_curBlockNumber (nextBlockNumber lt) lt in
      let lt := set_nbytes (nbytes lt + TapeBlockGetNBytes thisbuf) lt in
      if TapeBlockIsLast thisbuf then Ok (lts, set_nextBlockNumber (-1) lt, buf)
      else
        let lt := set_nextBlockNumber (b_next thisbuf) lt in
        if buffer_size lt - nbytes lt >? BLCKSZ then fill_loop fuel lts lt buf
        else Ok (lts, lt, buf)
  end.

Definition ltsReadFillBuffer (lts : LogicalTapeSet) (lt : LogicalTape) (buf : Block)
    : res (LogicalTapeSet * LogicalTape * Block * bool) :=
  let lt := set_nbytes 0 (set_pos 0 lt) in
  do! ' (lts, lt, buf) <- fill_loop (S (Z.to_nat (buffer_size lt))) lts lt buf ;;
  Ok (lts, lt, buf, nbytes lt >? 0).

Definition ltsInitReadBuffer (lts : LogicalTapeSet) (lt : LogicalTape)
    : res (LogicalTapeSet * LogicalTape * Block) :=
  if buffer_size lt <=? 0 then Crash
  else
  let lt := set_nextBlockNumber (firstBlockNumber lt) lt in
  do! ' (lts, lt, buf, _) <- ltsReadFillBuffer lts lt palloc_block ;;
  Ok (lts, lt, buf).

(** The buffer, allocated at the first use. *)
Definition get_buffer (lts : LogicalTapeSet) (lt : LogicalTape)
    : res (LogicalTapeSet * LogicalTape * Block) :=
  match buffer lt with
  | None => ltsInitReadBuffer lts lt
  | Some buf => Ok (lts, lt, buf)
  end.

Fixpoint read_loop (fuel : nat) (lts : LogicalTapeSet) (lt : LogicalTape) (buf : Block)
    (size : Z) (out : list Z) : res (LogicalTapeSet * LogicalTape * Block * list Z) :=
  match fuel with
  | O => NoFuel
  | S fuel =>
    if size >? 0 then
      do! ' (lts, lt, buf, more) <-
        (if pos lt >=? nbytes lt then ltsReadFillBuffer lts lt buf else Ok (lts, lt, buf, true)) ;;
      if negb more then Ok (lts, lt, buf, out)
      else
        let nthistime := Z.min (nbytes lt - pos lt) size in
        let out := out ++ ztake nthistime (zdrop (pos lt) (b_data buf)) in
        read_loop fuel lts (set_pos (pos lt + nthistime) lt) buf (size - nthistime) out
    else Ok (lts, lt, buf, out)
  end.

(** The bytes read; fewer than [size] at the end of the tape. *)
Definition tape_read (lts : LogicalTapeSet) (lt : LogicalTape) (size : Z)
    : res (LogicalTapeSet * LogicalTape * list Z) :=
  if writing lt then Crash
  else
    do! ' (lts, lt, buf) <- get_buffer lts lt ;;
    do! ' (lts, lt, buf, out) <- read_loop (S (Z.to_nat size)) lts lt buf size [] ;;
    Ok (lts, set_buffer (Some buf) lt, out).

Definition LogicalTapeRead (lts : LogicalTapeSet) (tapenum size : Z)
    : res (LogicalTapeSet * list Z) :=
  on_tape lts tapenum (fun lts lt => tape_read lts lt size).

(** ** Frozen tapes *)

Definition tape_freeze (lts : LogicalTapeSet) (lt : LogicalTape)
    : res (LogicalTapeSet * LogicalTape * unit) :=
  if negb (writing lt && (offsetBlockNumber lt =? 0)) then Crash
  else
    do! lts <- flush lts lt ;;
    let lt := set_frozen true (set_writing false lt) in
    let lt := set_buffer_size BLCKSZ lt in
    let lt := set_curBlockNumber (firstBlockNumber lt) lt in
    let lt := set_nbytes 0 (set_pos 0 lt) in
    let lt := if firstBlockNumber lt =? -1 then set_nextBlockNumber (-1) lt else lt in
    do! buf <- ltsReadBlock lts (curBlockNumber lt) ;;
    let lt := set_nextBlockNumber (if TapeBlockIsLast buf then -1 else b_next buf) lt in
    let lt := set_nbytes (TapeBlockGetNBytes buf) lt in
    Ok (lts, set_buffer (Some buf) lt, tt).

Definition LogicalTapeFreeze (lts : LogicalTapeSet) (tapenum : Z) : res (LogicalTapeSet * unit) :=
  on_tape lts tapenum tape_freeze.

(** Walk back the chain of blocks until [size] bytes are covered. *)
Fixpoint backspace_loop (fuel : nat) (lts : LogicalTapeSet) (lt : LogicalTape) (buf : Block)
    (size seekpos : Z) : res (LogicalTape * Block * Z) :=
  match fuel with
  | O => NoFuel
  | S fuel =>
    if size >? seekpos then
      let prev := b_prev buf in
      if prev =? -1 then
        if negb (curBlockNumber lt =? firstBlockNumber lt) then Error "unexpected end of tape"
        else Ok (set_pos 0 lt, buf, seekpos)
      else
        do! buf <- ltsReadBlock lts prev ;;
        if negb (b_next buf =? curBlockNumber lt) then Error "broken tape"
        else
          let lt := set_curBlockNumber prev (set_nbytes TapeBlockPayloadSize lt) in
          let lt := set_nextBlockNumber (b_next buf) lt in
          backspace_loop fuel lts lt buf size (seekpos + TapeBlockPayloadSize)
    else Ok (set_pos (seekpos - size) lt, buf, size)
  end.

Definition tape_backspace (lts : LogicalTapeSet) (lt : LogicalTape) (size : Z)
    : res (LogicalTapeSet * LogicalTape * Z) :=
  if negb (frozen lt && (buffer_size lt =? BLCKSZ)) then Crash
  else
    do! ' (lts, lt, buf) <- get_buffer lts lt ;;
    if size <=? pos lt then Ok (lts, set_buffer (Some buf) (set_pos (pos lt - size) lt), size)
    else
      do! ' (lt, buf, moved) <-
        backspace_loop (S (S (Z.to_nat (nBlocksWritten lts)))) lts lt buf size (pos lt) ;;
      Ok (lts, set_buffer (Some buf) lt, moved).

Definition LogicalTapeBackspace (lts : LogicalTapeSet) (tapenum size : Z)
    : res (LogicalTapeSet * Z) :=
  on_tape lts tapenum (fun lts lt => tape_backspace lts lt size).

Definition tape_seek (lts : LogicalTapeSet) (lt : LogicalTape) (blocknum offset : Z)
    : res (LogicalTapeSet * LogicalTape * unit) :=
  if negb (frozen lt && (0 <=? offset) && (offset <=? TapeBlockPayloadSize) &&
           (buffer_size lt =? BLCKSZ)) then Crash
  else
    do! ' (lts, lt, buf) <- get_buffer lts lt ;;
    do! ' (lt, buf) <-
      (if negb (blocknum =? curBlockNumber lt) then
         do! buf <- ltsReadBlock lts blocknum ;;
         let lt := set_nbytes TapeBlockPayloadSize (set_curBlockNumber blocknum lt) in
         Ok (set_nextBlockNumber (b_next buf) lt, buf)
       else Ok (lt, buf)) ;;
    if offset >? nbytes lt then Error "invalid tape seek position"
    else Ok (lts, set_buffer (Some buf) (set_pos offset lt), tt).

Definition LogicalTapeSeek (lts : LogicalTapeSet) (tapenum blocknum offset : Z)
    : res (LogicalTapeSet * unit) :=
  on_tape lts tapenum (fun lts lt => tape_seek lts lt blocknum offset).

Definition tape_tell (lts : LogicalTapeSet) (lt : LogicalTape)
    : res (LogicalTapeSet * LogicalTape * (Z * Z)) :=
  do! ' (lts, lt, buf) <- get_buffer lts lt ;;
  if negb ((offsetBlockNumber lt =? 0) && (buffer_size lt =? BLCKSZ)) then Crash
  else Ok (lts, set_buffer (Some buf) lt, (curBlockNumber lt, pos lt)).

Definition LogicalTapeTell (lts : LogicalTapeSet) (tapenum : Z)
    : res (LogicalTapeSet * (Z * Z)) :=
  on_tape lts tapenum tape_tell.
End memory.
