(* ===== verification/LogTapeFree.v ===== *)
(** * The blocks of a tape set: allocation, release and the file

    The numbers of the free blocks are kept in a min-heap.  [pool_ok] says that
    no block is both free and used, or used twice, and that every block lies
    below [nBlocksAllocated]; the allocation functions keep it.  Writing a
    block changes no other block that is on the file. *)

From Stdlib Require Import ZArith Lia.
From stdpp Require Import base list sorting strings.
From S2P Require Import Prelude HeapTheory LogTapeBlocks.

Local Open Scope Z_scope.

(** ** The heap of free block numbers *)

#[local] Instance Zle_preorder : PreOrder Z.le.
Proof. split; [exact Z.le_refl|exact Z.le_trans]. Qed.

(** The first [n] entries are rearranged. *)
Definition shuffled (n : Z) (h h' : list Z) : Prop :=
  zlen h' = zlen h /\ ztake n h' ≡ₚ ztake n h.

Lemma swap_nodes_shuffles h a b x y n :
  a <> b -> a < n -> b < n -> zget h a = Some x -> zget h b = Some y ->
  swap_nodes h a b = Ok (zset (zset h a y) b x) /\ shuffled n h (zset (zset h a y) b x).
Proof.
  intros Hab Ha Hb Hx Hy. pose proof (zget_bounds _ _ _ Hx). pose proof (zget_bounds _ _ _ Hy). split.
  - unfold swap_nodes. rewrite (aget_Ok _ _ _ Hx), rbind_ret, (aget_Ok _ _ _ Hy), rbind_ret.
    rewrite !aset_Ok by (rewrite ?zlen_zset; lia). rewrite rbind_ret. apply aset_Ok. by rewrite zlen_zset.
  - split; [by rewrite !zlen_zset|]. rewrite !ztake_zset_lt by lia.
    apply zset_swap_perm; rewrite zget_ztake by lia; done.
Qed.

Lemma shuffled_trans n h1 h2 h3 : shuffled n h1 h2 -> shuffled n h2 h3 -> shuffled n h1 h3.
Proof. intros [Hl1 Hp1] [Hl2 Hp2]. split; [congruence|by rewrite Hp2]. Qed.

(** The heap is far below the sizes at which its offsets would wrap. *)
Definition max_free : Z := 134217727.

Lemma min_child_ok h k n :
  0 <= k < n -> n <= zlen h -> n <= max_free ->
  exists c, min_child h k n = Ok c /\
    match c with
    | None => forall j, child k j -> ~ j < n
    | Some c => child k c /\ c < n /\ forall y j z, zget h c = Some y -> child k j -> j < n ->
        zget h j = Some z -> y <= z
    end.
Proof.
  intros Hk Hn Hm. unfold max_free in Hm. unfold min_child, left_offset, right_offset, child.
  rewrite !uint32_id by (rewrite ?uint32_id; lia). cbv zeta.
  destruct (Z.ltb_spec (2 * k + 1) n) as [Hl|Hl]; cbn [andb].
  2:{ destruct (Z.ltb_spec (2 * k + 2) n); [lia|]. exists None. split; [done|]. lia. }
  destruct (zget_is_Some h (2 * k + 1)) as [l Hll]; [lia|].
  destruct (Z.ltb_spec (2 * k + 2) n) as [Hr|Hr]; cbn [andb].
  - destruct (zget_is_Some h (2 * k + 2)) as [r Hrr]; [lia|].
    rewrite (aget_Ok _ _ _ Hll), rbind_ret, (aget_Ok _ _ _ Hrr), rbind_ret.
    eexists. split; [done|]. destruct (Z.ltb_spec l r).
    + split; [lia|]. split; [done|]. intros y j z Hy [-> | ->] _ Hz; simplify_eq; lia.
    + split; [lia|]. split; [done|]. intros y j z Hy [-> | ->] _ Hz; simplify_eq; lia.
  - exists (Some (2 * k + 1)). split; [done|]. split; [lia|]. split; [done|].
    intros y j z Hy [-> | ->] Hj Hz; [simplify_eq; lia|lia].
Qed.

Lemma free_sift_down_ok fuel h k n :
  0 <= k < n -> n <= zlen h -> n <= max_free -> (Z.to_nat (n - k) < fuel)%nat -> down_ok Z.le h 0 n k ->
  exists h', free_sift_down fuel h k n = Ok h' /\ shuffled n h h' /\ heap_ok Z.le h' 0 n.
Proof.
  revert h k. induction fuel as [|fuel IH]; intros h k Hk Hn Hm Hf Hd; [lia|].
  cbn [free_sift_down]. destruct (zget_is_Some h k) as [x Hx]; [lia|].
  destruct (min_child_ok h k n Hk Hn Hm) as (c & -> & Hc). rewrite rbind_ret. destruct c as [c|].
  2:{ exists h. split; [done|]. split; [by split|]. apply (down_done Z.le h 0 n k x Hd Hx).
      intros j y Hj Hjn. by apply Hc in Hj. }
  destruct Hc as (Hch & Hcn & Hmin).
  assert (Hcb : 0 <= c < zlen h /\ k < c) by (unfold child in Hch; lia).
  destruct (zget_is_Some h c) as [y Hy]; [lia|].
  rewrite (aget_Ok _ _ _ Hy), rbind_ret, (aget_Ok _ _ _ Hx), rbind_ret.
  rewrite Z.geb_leb. destruct (Z.leb_spec x y) as [Hle|Hgt].
  { exists h. split; [done|]. split; [by split|]. apply (down_done Z.le h 0 n k x Hd Hx).
    intros j z Hj Hjn Hz. transitivity y; [done|]. by apply (Hmin y j z). }
  destruct (swap_nodes_shuffles h c k y x n) as [-> Hsh]; [lia|lia|lia|done|done|].
  rewrite rbind_ret. rewrite zset_comm in * by lia.
  destruct (IH (zset (zset h k y) c x) c) as (h' & -> & Hsh' & Hh'); rewrite ?zlen_zset; try lia.
  { apply (down_swap Z.le); try done; try lia. intros j z Hj Hjn Hz. by apply (Hmin y j z). }
  exists h'. split; [done|]. split; [|done]. by apply shuffled_trans with (zset (zset h k y) c x).
Qed.

Lemma free_sift_up_ok fuel h k n :
  0 <= k < n -> n <= zlen h -> (Z.to_nat k < fuel)%nat -> up_ok Z.le h n k ->
  exists h', free_sift_up fuel h k = Ok h' /\ shuffled n h h' /\ heap_ok Z.le h' 0 n.
Proof.
  revert h k. induction fuel as [|fuel IH]; intros h k Hk Hn Hf Hu; [lia|].
  cbn [free_sift_up]. destruct (Z.eqb_spec k 0) as [->|Hne]; cbn [negb].
  { exists h. split; [done|]. split; [by split|]. by apply up_done_root. }
  unfold parent_offset. cbv zeta. set (p := (k - 1) / 2).
  assert (Hp : child p k /\ 0 <= p < k).
  { subst p. pose proof (Z.div_mod (k - 1) 2). pose proof (Z.mod_pos_bound (k - 1) 2). unfold child. lia. }
  clearbody p. destruct Hp as [Hpc Hpk].
  destruct (zget_is_Some h p) as [x Hx]; [lia|]. destruct (zget_is_Some h k) as [y Hy]; [lia|].
  rewrite (aget_Ok _ _ _ Hx), rbind_ret, (aget_Ok _ _ _ Hy), rbind_ret.
  destruct (Z.ltb_spec x y) as [Hlt|Hge].
  { exists h. split; [done|]. split; [by split|]. apply (up_done Z.le h n k x y p); try done; lia. }
  destruct (swap_nodes_shuffles h p k x y n) as [-> Hsh]; [lia|lia|lia|done|done|].
  rewrite rbind_ret.
  destruct (IH (zset (zset h p y) k x) p) as (h' & -> & Hsh' & Hh'); rewrite ?zlen_zset; try lia.
  { apply (up_swap Z.le); try done; lia. }
  exists h'. split; [done|]. split; [|done]. by apply shuffled_trans with (zset (zset h p y) k x).
Qed.

(** ** The pool of blocks *)

Definition free (lts : LogicalTapeSet) : list Z := ztake (nFreeBlocks lts) (freeBlocks lts).

(** [used] are the blocks in use. *)
Record pool_ok (lts : LogicalTapeSet) (used : list Z) : Prop := {
  pl_len : zlen (freeBlocks lts) = freeBlocksLen lts;
  pl_n : 0 <= nFreeBlocks lts <= freeBlocksLen lts;
  pl_max : 0 < freeBlocksLen lts /\ freeBlocksLen lts * sizeof_long <= MaxAllocSize;
  pl_heap : heap_ok Z.le (freeBlocks lts) 0 (nFreeBlocks lts);
  pl_nodup : NoDup (free lts ++ used);
  pl_range : Forall (fun b => 0 <= b < nBlocksAllocated lts) (free lts ++ used);
  pl_file : nBlocksWritten lts = zlen (pfile lts) /\ zlen (pfile lts) <= nBlocksAllocated lts
}.

(** What allocating and releasing leave alone. *)
Definition same_file (lts lts' : LogicalTapeSet) : Prop :=
  pfile lts' = pfile lts /\ tapes lts' = tapes lts /\ enable_prealloc lts' = enable_prealloc lts /\
  nHoleBlocks lts' = nHoleBlocks lts.

Lemma same_file_trans l1 l2 l3 : same_file l1 l2 -> same_file l2 l3 -> same_file l1 l3.
Proof. intros (? & ? & ? & ?) (? & ? & ? & ?). repeat split; congruence. Qed.

Lemma pool_perm lts used used' : pool_ok lts used -> used ≡ₚ used' -> pool_ok lts used'.
Proof. intros [] Hp. split; try done; by rewrite <- Hp. Qed.

(** Blocks may be forgotten. *)
Lemma pool_forget lts used b : pool_ok lts (b :: used) -> pool_ok lts used.
Proof.
  intros []. rewrite <- Permutation_middle in pl_nodup0, pl_range0.
  apply NoDup_cons in pl_nodup0 as [_ ?]. inversion pl_range0; subst. by split.
Qed.

Lemma pool_forget_all lts gone used : pool_ok lts (gone ++ used) -> pool_ok lts used.
Proof. induction gone as [|b gone IH]; [done|]. cbn. intros H. apply IH. by apply pool_forget in H. Qed.

(** Every block still to be handed out comes after [c]. *)
Definition above (lts : LogicalTapeSet) (c : Z) : Prop :=
  c < nBlocksAllocated lts /\ Forall (Z.lt c) (free lts).

(** The lowest free block is handed out first. *)
Lemma ltsGetFreeBlock_ok lts used :
  pool_ok lts used ->
  exists lts' b, ltsGetFreeBlock lts = Ok (lts', b) /\ pool_ok lts' (b :: used) /\ same_file lts lts' /\
    forgetFreeSpace lts' = forgetFreeSpace lts /\ above lts' b /\ forall c, above lts c -> c < b.
Proof.
  intros []. unfold ltsGetFreeBlock. unfold sizeof_long, MaxAllocSize in pl_max0.
  pose proof (zlen_nonneg (pfile lts)) as Hz.
  destruct (Z.eqb_spec (nFreeBlocks lts) 0) as [H0|H0].
  { eexists _, _. split; [done|]. split.
    2:{ do 2 (split; [done|]). split; [|by intros c []]. unfold above, free. cbn. rewrite ztake_nonpos by lia. split; [lia|done]. }
    assert (Hf : free lts = []) by (unfold free; by rewrite ztake_nonpos by lia).
    rewrite Hf in pl_nodup0, pl_range0. cbn [app] in pl_nodup0, pl_range0.
    assert (Hf' : free (set_nBlocksAllocated (nBlocksAllocated lts + 1) lts) = []) by done.
    split; try done; cbn; rewrite ?Hf'; cbn [app].
    - constructor; [|done]. intros Hin. pose proof (proj1 (Forall_forall _ _) pl_range0 _ Hin). cbn in *. lia.
    - constructor; [lia|]. eapply Forall_impl; [exact pl_range0|]. cbn. lia.
    - lia. }
  assert (Hroot : exists x, zget (freeBlocks lts) 0 = Some x) by (apply zget_is_Some; lia).
  destruct Hroot as [b Hb].
  destruct (Z.eqb_spec (nFreeBlocks lts) 1) as [H1|H1].
  { cbv zeta. change (freeBlocks (set_nFreeBlocks _ lts)) with (freeBlocks lts).
    rewrite (aget_Ok _ _ _ Hb), rbind_ret. eexists _, b. split; [done|].
    assert (Hf : free lts = [b]).
    { unfold free. rewrite H1. replace 1 with (0 + 1) by lia. by rewrite (ztake_succ 0 _ _ Hb). }
    rewrite Hf in pl_nodup0, pl_range0. inversion pl_range0 as [|?? Hrb _]; subst. split.
    2:{ do 2 (split; [done|]). unfold above. rewrite Hf. split; [|intros c [_ Hc]; by inversion Hc].
        unfold free. cbn. rewrite H1. split; [lia|done]. }
    split; try done; cbn; try lia.
    - rewrite H1. apply heap_ok_leaves. lia.
    - unfold free. cbn. rewrite H1. done.
    - unfold free. cbn. rewrite H1. done. }
  rewrite (aget_Ok _ _ _ Hb), rbind_ret. cbv zeta.
  set (n := nFreeBlocks lts - 1). change (nFreeBlocks (set_nFreeBlocks n lts)) with n.
  change (freeBlocks (set_nFreeBlocks n lts)) with (freeBlocks lts).
  destruct (zget_is_Some (freeBlocks lts) n) as [l Hl]; [lia|].
  rewrite (aget_Ok _ _ _ Hl), rbind_ret, aset_Ok, rbind_ret by lia.
  rewrite int32_id by (unfold is_int32, INT_MIN, INT_MAX; lia).
  destruct (free_sift_down_ok (S (Z.to_nat n)) (zset (freeBlocks lts) 0 l) 0 n)
    as (h' & -> & [Hlen Hperm] & Hheap); rewrite ?zlen_zset; unfold max_free; try lia.
  { apply (heap_ok_replace Z.le). by apply (heap_ok_mono Z.le _ 0 1 (nFreeBlocks lts)); try lia. }
  rewrite rbind_ret. eexists _, b. split; [done|].
  assert (Hmin : Forall (Z.le b) (free lts)).
  { apply Forall_forall. intros y Hy. apply (heap_root_elem Z.le (freeBlocks lts) (nFreeBlocks lts) b y); try done; lia. }
  assert (Hfree : ztake n h' ++ [b] ≡ₚ free lts).
  { rewrite Hperm. unfold free. replace (nFreeBlocks lts) with (n + 1) by lia.
    rewrite (ztake_succ _ _ _ Hl). rewrite ztake_zset_lt by lia.
    assert (Hb' : zget (ztake n (freeBlocks lts)) 0 = Some b) by (rewrite zget_ztake by lia; done).
    pose proof (zget_bounds _ _ _ Hb') as Hbb. rewrite zset_split by done.
    rewrite <- (zset_id _ _ _ Hb') at 3. rewrite zset_split by done.
    change (ztake 0 (ztake n (freeBlocks lts))) with (@nil Z). cbn [app].
    rewrite <- !Permutation_cons_append. apply Permutation_swap. }
  rewrite <- Hfree in pl_nodup0, pl_range0, Hmin. rewrite <- app_assoc in pl_nodup0, pl_range0.
  split; [split; try done; cbn; try lia; rewrite Hlen, zlen_zset; lia|]. do 2 (split; [done|]).
  assert (Hin : b ∈ ztake n h' ++ [b] ++ used) by (rewrite !elem_of_app; right; left; by left).
  pose proof (proj1 (Forall_forall _ _) pl_range0 b Hin) as Hrb. cbn in Hrb. split.
  - split; [cbn; lia|]. unfold free. cbn. apply Forall_app in Hmin as [Hmin _]. apply Forall_forall. intros y Hy.
    pose proof (proj1 (Forall_forall _ _) Hmin y Hy). apply NoDup_app in pl_nodup0 as (_ & Hdis & _).
    specialize (Hdis y Hy). assert (y <> b) by (intros ->; apply Hdis; by left). lia.
  - intros c [_ Hc]. rewrite <- Hfree in Hc. apply Forall_app in Hc as [_ Hc]. by inversion Hc.
Qed.

(** Room for one more free block. *)
Definition enlarge (lts : LogicalTapeSet) : LogicalTapeSet :=
  set_freeBlocks (freeBlocks lts ++ replicate (Z.to_nat (freeBlocksLen lts)) 0)
    (set_freeBlocksLen (freeBlocksLen lts * 2) lts).

Lemma enlarge_ok lts used :
  pool_ok lts used -> freeBlocksLen lts * 2 * sizeof_long <= MaxAllocSize -> pool_ok (enlarge lts) used.
Proof.
  intros [] Hmax. pose proof (zlen_nonneg (freeBlocks lts)).
  assert (Hl : zlen (freeBlocks (enlarge lts)) = freeBlocksLen lts * 2).
  { unfold enlarge. cbn [freeBlocks set_freeBlocks]. rewrite zlen_app. unfold zlen at 2.
    rewrite length_replicate. lia. }
  assert (Hfr : free (enlarge lts) = free lts).
  { unfold free, enlarge. cbn [freeBlocks set_freeBlocks nFreeBlocks set_freeBlocksLen]. apply ztake_app_l. lia. }
  split; try (rewrite Hfr); try done.
  - change (0 <= nFreeBlocks lts <= freeBlocksLen lts * 2). lia.
  - change (0 < freeBlocksLen lts * 2 /\ freeBlocksLen lts * 2 * sizeof_long <= MaxAllocSize). lia.
  - eapply (heap_ok_ext Z.le); [|exact pl_heap0]. intros i Hi. apply zget_app_l. rewrite pl_len0.
    change (nFreeBlocks (enlarge lts)) with (nFreeBlocks lts) in Hi. lia.
Qed.

Lemma release_insert lts used b :
  pool_ok lts (b :: used) -> nFreeBlocks lts < freeBlocksLen lts ->
  exists h, free_sift_up (S (Z.to_nat (nFreeBlocks lts))) (zset (freeBlocks lts) (nFreeBlocks lts) b)
      (nFreeBlocks lts) = Ok h /\
    pool_ok (set_freeBlocks h (set_nFreeBlocks (nFreeBlocks lts + 1) lts)) used.
Proof.
  intros [] Hroom. set (n := nFreeBlocks lts) in *.
  destruct (free_sift_up_ok (S (Z.to_nat n)) (zset (freeBlocks lts) n b) n (n + 1))
    as (h' & -> & [Hlen Hperm] & Hheap); rewrite ?zlen_zset; try lia.
  { apply (heap_ok_extend Z.le); [lia|done]. }
  exists h'. split; [done|].
  assert (Hfree : ztake (n + 1) h' ≡ₚ free lts ++ [b]).
  { rewrite Hperm. rewrite (ztake_succ _ _ b) by (apply zget_zset_eq; lia).
    by rewrite ztake_zset_ge by lia. }
  assert (Hf' : free (set_freeBlocks h' (set_nFreeBlocks (n + 1) lts)) = ztake (n + 1) h') by reflexivity.
  split; try done; try (rewrite Hf', Hfree, <- app_assoc; done).
  - change (zlen h' = freeBlocksLen lts). rewrite Hlen, zlen_zset. lia.
  - change (0 <= n + 1 <= freeBlocksLen lts). lia.
Qed.

Lemma ltsReleaseBlock_ok lts used b :
  pool_ok lts (b :: used) ->
  exists lts', ltsReleaseBlock lts b = Ok lts' /\ pool_ok lts' used /\ same_file lts lts' /\
    forgetFreeSpace lts' = forgetFreeSpace lts.
Proof.
  intros Hp. pose proof (pool_forget lts used b Hp) as Hpf. unfold ltsReleaseBlock. fold (enlarge lts).
  destruct (forgetFreeSpace lts) eqn:Hfg; [by exists lts|].
  destruct ((nFreeBlocks lts >=? freeBlocksLen lts) && _) eqn:Hleak; [by exists lts|].
  set (l1 := if nFreeBlocks lts >=? freeBlocksLen lts then enlarge lts else lts).
  assert (H1 : pool_ok l1 (b :: used) /\ same_file lts l1 /\ forgetFreeSpace l1 = forgetFreeSpace lts /\
    nFreeBlocks l1 < freeBlocksLen l1).
  { pose proof (pl_n _ _ Hp). pose proof (pl_max _ _ Hp) as [? _]. unfold l1. rewrite Z.geb_leb in *.
    destruct (Z.leb_spec (freeBlocksLen lts) (nFreeBlocks lts)) as [Hfull|Hroom]; [|by repeat (split; [done|])].
    cbn [andb] in Hleak. split; [apply enlarge_ok; [done|]|].
    - destruct (Z.gtb_spec (freeBlocksLen lts * 2 * sizeof_long) MaxAllocSize); [done|lia].
    - split; [done|]. split; [done|]. change (nFreeBlocks lts < freeBlocksLen lts * 2). lia. }
  destruct H1 as (Hp1 & Hsf & Hf1 & Hroom). clearbody l1. cbv zeta.
  pose proof (pl_n _ _ Hp1). pose proof (pl_len _ _ Hp1).
  rewrite aset_Ok, rbind_ret by lia.
  destruct (release_insert l1 used b Hp1 Hroom) as (h & -> & Hp2). rewrite rbind_ret.
  eexists. split; [reflexivity|]. split; [exact Hp2|]. split; [exact Hsf|]. exact (eq_trans Hf1 Hfg).
Qed.

(** ** Blocks reserved for a tape *)

(** The block numbers the tape has preallocated. *)
Definition held (lt : LogicalTape) : list Z :=
  match prealloc lt with Some pre => ztake (nprealloc lt) pre | None => [] end.

Definition prealloc_ok (lt : LogicalTape) : Prop :=
  match prealloc lt with
  | None => True
  | Some pre => 0 <= nprealloc lt <= zlen pre /\ zlen pre = prealloc_size lt /\
      TAPE_WRITE_PREALLOC_MIN <= prealloc_size lt <= TAPE_WRITE_PREALLOC_MAX
  end.

(** Only the preallocation list changed. *)
Definition reserved (lt lt' : LogicalTape) : Prop :=
  exists p n z, lt' = set_prealloc p (set_nprealloc n (set_prealloc_size z lt)).

Lemma reserved_refl lt : reserved lt lt.
Proof. exists (prealloc lt), (nprealloc lt), (prealloc_size lt). by destruct lt. Qed.

Lemma refill_ok n i lts pre used :
  pool_ok lts used -> Z.of_nat i <= zlen pre -> Z.of_nat i <= n <= zlen pre ->
  (Z.of_nat i < n -> exists x, zget pre (Z.of_nat i) = Some x /\ above lts x) ->
  exists lts' pre', refill n i lts pre = Ok (lts', pre') /\ zlen pre' = zlen pre /\
    pool_ok lts' (ztake (Z.of_nat i) pre' ++ used) /\ same_file lts lts' /\
    forall k, Z.of_nat i <= k -> zget pre' k = zget pre k.
Proof.
  revert lts pre used. induction i as [|i IH]; intros lts pre used Hp Hi Hn Hnext.
  { exists lts, pre. split; [done|]. split; [done|]. split; [by rewrite ztake_nonpos by lia|]. by repeat split. }
  cbn [refill]. destruct (ltsGetFreeBlock_ok lts used Hp) as (l1 & b & -> & Hp1 & Hs1 & _ & Hab & Hup).
  rewrite rbind_ret, aset_Ok, rbind_ret by lia.
  assert (Hdesc : (if Z.of_nat (S i) =? n then Ok true
      else do! next <- aget (zset pre (Z.of_nat i) b) (Z.of_nat (S i)) ;; Ok (b >? next)) = Ok true).
  { destruct (Z.eqb_spec (Z.of_nat (S i)) n); [done|]. destruct Hnext as (x & Hx & Hxa); [lia|]. specialize (Hup x Hxa).
    rewrite (aget_Ok _ _ x) by (rewrite zget_zset_ne by lia; done). rewrite rbind_ret. by destruct (Z.gtb_spec b x); [|lia]. }
  rewrite Hdesc, rbind_ret.
  destruct (IH l1 (zset pre (Z.of_nat i) b) (b :: used) Hp1) as (l2 & pre' & -> & Hl & Hp2 & Hs2 & Hk);
    [rewrite zlen_zset; lia|rewrite zlen_zset; lia|intros _; exists b; split; [apply zget_zset_eq; lia|done]|].
  rewrite zlen_zset in Hl.
  exists l2, pre'. split; [done|]. split; [done|].
  assert (Hget : zget pre' (Z.of_nat i) = Some b) by (rewrite Hk by lia; apply zget_zset_eq; lia).
  split; [|split; [by apply same_file_trans with l1|]].
  - replace (Z.of_nat (S i)) with (Z.of_nat i + 1) by lia. rewrite (ztake_succ _ _ _ Hget).
    by rewrite <- app_assoc.
  - intros k Hge. rewrite Hk by lia. apply zget_zset_ne. lia.
Qed.

(** A preallocation list of [size] blocks is filled and its last one taken. *)
Lemma refill_take lts lt pre size used :
  pool_ok lts used -> zlen pre = size -> TAPE_WRITE_PREALLOC_MIN <= size <= TAPE_WRITE_PREALLOC_MAX ->
  exists lts' lt' b,
    (do! ' (lts, pre) <- refill size (Z.to_nat size) lts pre ;;
     let lt := set_prealloc (Some pre) (set_prealloc_size size lt) in
     let lt := set_nprealloc (size - 1) lt in
     do! b <- aget pre (nprealloc lt) ;;
     Ok (lts, lt, b)) = Ok (lts', lt', b) /\
    pool_ok lts' (b :: held lt' ++ used) /\ prealloc_ok lt' /\ same_file lts lts' /\ reserved lt lt'.
Proof.
  intros Hp Hl Hsz. unfold TAPE_WRITE_PREALLOC_MIN, TAPE_WRITE_PREALLOC_MAX in Hsz.
  destruct (refill_ok size (Z.to_nat size) lts pre used Hp) as (l1 & pre' & -> & Hl1 & Hp1 & Hs1 & _); [lia..|].
  rewrite rbind_ret. cbv zeta. rewrite Z2Nat.id in Hp1 by lia.
  destruct (zget_is_Some pre' (size - 1)) as [b Hb]; [lia|].
  change (nprealloc (set_nprealloc (size - 1) _)) with (size - 1). rewrite (aget_Ok _ _ _ Hb), rbind_ret.
  eexists _, _, b. split; [reflexivity|]. split; [|split; [|split; [done|]]].
  - apply (pool_perm l1 (ztake size pre' ++ used)); [done|]. unfold held.
    cbn [prealloc nprealloc set_nprealloc set_prealloc].
    replace size with (size - 1 + 1) at 1 by lia. rewrite (ztake_succ _ _ _ Hb), <- app_assoc.
    cbn [app]. by rewrite <- Permutation_middle.
  - unfold prealloc_ok. cbn. unfold TAPE_WRITE_PREALLOC_MIN, TAPE_WRITE_PREALLOC_MAX. lia.
  - by exists (Some pre'), (size - 1), size.
Qed.

Lemma ltsGetBlock_ok lts lt used :
  pool_ok lts (held lt ++ used) -> prealloc_ok lt ->
  exists lts' lt' b, ltsGetBlock lts lt = Ok (lts', lt', b) /\
    pool_ok lts' (b :: held lt' ++ used) /\ prealloc_ok lt' /\ same_file lts lts' /\ reserved lt lt'.
Proof.
  intros Hp Hpre. unfold ltsGetBlock. destruct (enable_prealloc lts).
  2:{ destruct (ltsGetFreeBlock_ok lts _ Hp) as (l1 & b & -> & Hp1 & Hs1 & _). rewrite rbind_ret.
      exists l1, lt, b. split; [done|]. split; [done|]. split; [done|]. split; [done|apply reserved_refl]. }
  unfold ltsGetPreallocBlock. unfold held, prealloc_ok in Hp, Hpre.
  destruct (prealloc lt) as [pre|] eqn:Hlist.
  2:{ apply (refill_take lts lt _ TAPE_WRITE_PREALLOC_MIN used Hp); [done|]. split; discriminate. }
  destruct Hpre as (Hn & Hlen & Hsz). unfold TAPE_WRITE_PREALLOC_MIN, TAPE_WRITE_PREALLOC_MAX in *.
  destruct (Z.gtb_spec (nprealloc lt) 0) as [Hpos|Hzero].
  - cbv zeta. change (nprealloc (set_nprealloc (nprealloc lt - 1) lt)) with (nprealloc lt - 1).
    destruct (zget_is_Some pre (nprealloc lt - 1)) as [b Hb]; [lia|]. rewrite (aget_Ok _ _ _ Hb), rbind_ret.
    eexists _, _, b. split; [reflexivity|]. split; [|split; [|split; [done|]]].
    + apply (pool_perm lts (ztake (nprealloc lt) pre ++ used)); [done|]. unfold held. cbn. rewrite Hlist.
      replace (nprealloc lt) with (nprealloc lt - 1 + 1) at 1 by lia. rewrite (ztake_succ _ _ _ Hb), <- app_assoc.
      cbn [app]. by rewrite <- Permutation_middle.
    + unfold prealloc_ok. cbn. rewrite Hlist. unfold TAPE_WRITE_PREALLOC_MIN, TAPE_WRITE_PREALLOC_MAX. lia.
    + exists (prealloc lt), (nprealloc lt - 1), (prealloc_size lt). by destruct lt.
  - rewrite ztake_nonpos in Hp by lia. cbv zeta.
    set (size := if prealloc_size lt <? 128 then _ else _).
    assert (Hs : prealloc_size lt <= size <= 128).
    { unfold size. destruct (Z.ltb_spec (prealloc_size lt) 128); lia. }
    apply (refill_take lts lt _ size used Hp); [|unfold TAPE_WRITE_PREALLOC_MIN, TAPE_WRITE_PREALLOC_MAX; lia].
    rewrite zlen_app. unfold zlen at 2. rewrite length_replicate. lia.
Qed.

Lemma release_all_ok pre i lts used :
  pool_ok lts (ztake (Z.of_nat i) pre ++ used) -> Z.of_nat i <= zlen pre ->
  exists lts', release_all pre i lts = Ok lts' /\ pool_ok lts' used /\ same_file lts lts' /\
    forgetFreeSpace lts' = forgetFreeSpace lts.
Proof.
  revert lts. induction i as [|i IH]; intros lts Hp Hi.
  { exists lts. rewrite ztake_nonpos in Hp by lia. by repeat (split; [done|]). }
  cbn [release_all]. destruct (zget_is_Some pre (Z.of_nat i)) as [b Hb]; [lia|].
  rewrite (aget_Ok _ _ _ Hb), rbind_ret. replace (Z.of_nat (S i)) with (Z.of_nat i + 1) in Hp by lia.
  rewrite (ztake_succ _ _ _ Hb), <- app_assoc in Hp.
  destruct (ltsReleaseBlock_ok lts (ztake (Z.of_nat i) pre ++ used) b) as (l1 & -> & Hp1 & Hs1 & Hf1).
  { apply (pool_perm _ _ _ Hp). cbn [app]. by rewrite <- Permutation_middle. }
  rewrite rbind_ret. destruct (IH l1 Hp1) as (l2 & -> & Hp2 & Hs2 & Hf2); [lia|].
  exists l2. split; [done|]. split; [done|]. split; [by apply same_file_trans with l1|congruence].
Qed.

(** ** Writing blocks *)

(** The file after block [n] was written: the blocks that were there before
    are unchanged, apart from [n]. *)
Record wrote (lts lts' : LogicalTapeSet) (n : Z) (buf : Block) : Prop := {
  wr_block : zget (pfile lts') n = Some buf;
  wr_other : forall b x, b <> n -> zget (pfile lts) b = Some x -> zget (pfile lts') b = Some x;
  wr_tapes : tapes lts' = tapes lts;
  wr_prealloc : enable_prealloc lts' = enable_prealloc lts;
  wr_forget : forgetFreeSpace lts' = forgetFreeSpace lts
}.

Lemma write_at_ok lts used n buf :
  pool_ok lts used -> 0 <= n <= zlen (pfile lts) -> n < nBlocksAllocated lts ->
  exists lts', write_at lts n buf = Ok lts' /\ pool_ok lts' used /\ wrote lts lts' n buf /\
    nBlocksAllocated lts' = nBlocksAllocated lts /\ zlen (pfile lts') = Z.max (n + 1) (zlen (pfile lts)).
Proof.
  intros [] Hn Ha. destruct pl_file0 as [Hw Hle]. unfold write_at, buffile_write.
  destruct (Z.leb_spec 0 n); [|lia]. destruct (Z.ltb_spec n (zlen (pfile lts))) as [Hin|Hout]; cbn [andb].
  - rewrite rbind_ret. cbv zeta. change (nBlocksWritten (set_pfile _ lts)) with (nBlocksWritten lts).
    destruct (Z.eqb_spec n (nBlocksWritten lts)); [lia|]. eexists. split; [reflexivity|].
    assert (Hl : zlen (zset (pfile lts) n buf) = zlen (pfile lts)) by apply zlen_zset.
    split; [|split; [|split; [done|cbn; lia]]].
    + split; try done. cbn. lia.
    + split; try done; cbn; [by apply zget_zset_eq|]. intros b x Hb Hx. by rewrite zget_zset_ne by congruence.
  - assert (n = zlen (pfile lts)) as -> by lia. rewrite Z.eqb_refl, rbind_ret. cbv zeta.
    change (nBlocksWritten (set_pfile _ lts)) with (nBlocksWritten lts).
    rewrite Hw, Z.eqb_refl. eexists. split; [reflexivity|].
    assert (Hl : zlen (pfile lts ++ [buf]) = zlen (pfile lts) + 1) by (by rewrite zlen_app).
    split; [|split; [|split; [done|cbn; lia]]].
    + split; try done. cbn. lia.
    + split; try done; cbn.
      * rewrite zget_app_r by lia. by rewrite Z.sub_diag.
      * intros b x Hb Hx. pose proof (zget_bounds _ _ _ Hx). by rewrite zget_app_l by lia.
Qed.


Lemma fill_holes_ok fuel lts used n :
  pool_ok lts used -> n < nBlocksAllocated lts -> (Z.to_nat (n - nBlocksWritten lts) < fuel)%nat ->
  exists lts', fill_holes fuel lts n = Ok lts' /\ pool_ok lts' used /\
    n <= zlen (pfile lts') /\ zlen (pfile lts) <= zlen (pfile lts') /\
    nBlocksAllocated lts' = nBlocksAllocated lts /\
    (forall b x, zget (pfile lts) b = Some x -> zget (pfile lts') b = Some x) /\
    tapes lts' = tapes lts /\ enable_prealloc lts' = enable_prealloc lts /\
    forgetFreeSpace lts' = forgetFreeSpace lts.
Proof.
  revert lts. induction fuel as [|fuel IH]; intros lts Hp Ha Hf; [lia|].
  cbn [fill_holes]. pose proof (pl_file _ _ Hp) as [Hw Hle].
  destruct (Z.gtb_spec n (nBlocksWritten lts)) as [Hgt|Hng].
  2:{ exists lts. split; [done|]. split; [done|]. split; [lia|]. by repeat (split; [done|]). }
  pose proof (zlen_nonneg (pfile lts)).
  destruct (write_at_ok lts used (nBlocksWritten lts) zerobuf Hp) as (l1 & -> & Hp1 & [] & Ha1 & Hl1); [lia|lia|].
  rewrite rbind_ret. pose proof (pl_file _ _ Hp1) as [Hw1 _].
  destruct (IH l1 Hp1) as (l2 & -> & Hp2 & Hn2 & Hl2 & Ha2 & Hk2 & ? & ? & ?); [lia|lia|].
  exists l2. split; [done|]. split; [done|]. split; [lia|]. split; [lia|]. split; [lia|].
  split; [|split; [congruence|split; congruence]]. intros b x Hx. apply Hk2. apply wr_other0; [|done].
  pose proof (zget_bounds _ _ _ Hx). lia.
Qed.

Lemma ltsWriteBlock_ok lts used n buf :
  pool_ok lts used -> 0 <= n < nBlocksAllocated lts ->
  exists lts', ltsWriteBlock lts n buf = Ok lts' /\ pool_ok lts' used /\ wrote lts lts' n buf.
Proof.
  intros Hp Hn. unfold ltsWriteBlock.
  destruct (fill_holes_ok (S (Z.to_nat (n - nBlocksWritten lts))) lts used n Hp)
    as (l1 & -> & Hp1 & Hn1 & _ & Ha1 & Hk1 & ? & ? & ?); [lia|lia|].
  rewrite rbind_ret. destruct (write_at_ok l1 used n buf Hp1) as (l2 & -> & Hp2 & [] & _); [lia|lia|].
  exists l2. split; [done|]. split; [done|]. split; try congruence. intros b x Hb Hx.
  apply wr_other0; [done|]. by apply Hk1.
Qed.
