(* ===== verification/LogTapeRep.v ===== *)
(** * What the blocks of a tape stand for

    A tape is a sequence of bytes: [AWriting] while it is written, [AReading]
    with the bytes left while it is read, [AFrozen] with a position once it is
    frozen.  [tape_rep] relates such a tape to the C struct and the blocks it
    owns on the file; only those blocks matter to it. *)

From Stdlib Require Import ZArith Lia.
From stdpp Require Import base list sorting strings.
From S2P Require Import Prelude HeapTheory LogTapeBlocks LogTapeFree.

Local Open Scope Z_scope.

Inductive atape :=
| AWriting (bs : list Z)
| AReading (rest : list Z)
| AFrozen (bs : list Z) (p : Z).

(** ** Chains of blocks *)

Definition payload_ok (d : list Z) : Prop := zlen d = TapeBlockPayloadSize.

Definition head_of (cs : list (Z * list Z)) (nx : Z) : Z :=
  match cs with [] => nx | (b, _) :: _ => b end.

Definition last_of (p : Z) (cs : list (Z * list Z)) : Z :=
  match last cs with Some (b, _) => b | None => p end.

(** Full blocks linked to each other: [p] is before the first, [nx] after the
    last. *)
Fixpoint stretch (f : list Block) (p : Z) (cs : list (Z * list Z)) (nx : Z) : Prop :=
  match cs with
  | [] => True
  | (b, d) :: cs =>
    zget f b = Some (mk_block d p (head_of cs nx)) /\ payload_ok d /\ stretch f b cs nx
  end.

Definition stretch_bytes (cs : list (Z * list Z)) : list Z := concat (snd <$> cs).

(** All blocks of a tape are on the file; the last one holds [n] bytes. *)
Definition complete (f : list Block) (cs : list (Z * list Z)) (b : Z) (d : list Z) (n : Z) : Prop :=
  stretch f (-1) cs b /\ zget f b = Some (mk_block d (last_of (-1) cs) (- n)) /\ payload_ok d /\
  1 <= n <= TapeBlockPayloadSize.

(** The same, seen by a reader: from block [nx] on, the blocks [bs] hold
    [bytes]. *)
Fixpoint forward (f : list Block) (nx : Z) (bs : list Z) (bytes : list Z) : Prop :=
  match bs with
  | [] => nx = -1 /\ bytes = []
  | b :: bs =>
    nx = b /\ exists blk rest, zget f b = Some blk /\ payload_ok (b_data blk) /\
      bytes = ztake (TapeBlockGetNBytes blk) (b_data blk) ++ rest /\
      if TapeBlockIsLast blk
      then bs = [] /\ rest = [] /\ 1 <= TapeBlockGetNBytes blk <= TapeBlockPayloadSize
      else forward f (b_next blk) bs rest
  end.

Lemma last_of_snoc p cs b d : last_of p (cs ++ [(b, d)]) = b.
Proof. unfold last_of. by rewrite last_snoc. Qed.

Lemma last_of_cons p b d cs : last_of p ((b, d) :: cs) = last_of b cs.
Proof. unfold last_of. rewrite last_cons. by destruct (last cs) as [[]|]. Qed.

Lemma head_of_app cs cs' nx : head_of (cs ++ cs') nx = head_of cs (head_of cs' nx).
Proof. by destruct cs as [|[b d] cs]. Qed.

(** A full block is linked to the end. *)
Lemma stretch_snoc f p cs c d nx :
  stretch f p cs c -> zget f c = Some (mk_block d (last_of p cs) nx) -> payload_ok d ->
  stretch f p (cs ++ [(c, d)]) nx.
Proof.
  revert p. induction cs as [|[b e] cs IH]; intros p Hs Hc Hd.
  - cbn. by repeat split.
  - destruct Hs as (Hb & He & Hs). cbn [app stretch]. rewrite head_of_app.
    split; [done|]. split; [done|]. apply IH; [done| |done]. by rewrite last_of_cons in Hc.
Qed.

Lemma stretch_app f p cs cs' nx :
  stretch f p (cs ++ cs') nx -> stretch f p cs (head_of cs' nx) /\ stretch f (last_of p cs) cs' nx.
Proof.
  revert p. induction cs as [|[b d] cs IH]; intros p H; [done|].
  cbn [app stretch] in H. destruct H as (Hb & Hd & H). rewrite head_of_app in Hb.
  apply IH in H as [H1 H2]. rewrite last_of_cons. by repeat split.
Qed.

Lemma stretch_frame f f' p cs nx :
  (forall b x, b ∈ fst <$> cs -> zget f b = Some x -> zget f' b = Some x) ->
  stretch f p cs nx -> stretch f' p cs nx.
Proof.
  revert p. induction cs as [|[b d] cs IH]; intros p Hf Hs; [done|].
  destruct Hs as (Hb & Hd & Hs). cbn. split; [apply Hf; [by left|done]|]. split; [done|].
  apply IH; [|done]. intros b' x Hin. apply Hf. by right.
Qed.

Lemma stretch_bytes_snoc cs c d : stretch_bytes (cs ++ [(c, d)]) = stretch_bytes cs ++ d.
Proof. unfold stretch_bytes. rewrite fmap_app, concat_app. cbn. by rewrite app_nil_r. Qed.

Lemma complete_frame f f' cs b d n :
  (forall k x, k ∈ (fst <$> cs) ++ [b] -> zget f k = Some x -> zget f' k = Some x) ->
  complete f cs b d n -> complete f' cs b d n.
Proof.
  intros Hf (Hs & Hb & Hd & Hn). split; [|split; [|done]].
  - apply (stretch_frame f); [|done]. intros k x Hk. apply Hf, elem_of_app. by left.
  - apply Hf; [|done]. apply elem_of_app. right. by left.
Qed.

Lemma forward_frame f f' nx bs bytes :
  (forall b x, b ∈ bs -> zget f b = Some x -> zget f' b = Some x) ->
  forward f nx bs bytes -> forward f' nx bs bytes.
Proof.
  revert nx bytes. induction bs as [|b bs IH]; intros nx bytes Hf Hs; [done|].
  destruct Hs as (-> & blk & rest & Hb & Hd & Heq & Hif). cbn. split; [done|]. exists blk, rest.
  split; [apply Hf; [by left|done]|]. split; [done|]. split; [done|].
  destruct (TapeBlockIsLast blk); [done|]. apply IH; [|done]. intros k x Hk. apply Hf. by right.
Qed.

Lemma ztake_payload d : payload_ok d -> ztake TapeBlockPayloadSize d = d.
Proof. intros Hd. apply ztake_all. unfold payload_ok in Hd. lia. Qed.

(** A reader that starts at the first block sees the whole tape. *)
Lemma stretch_forward f p cs b d n :
  stretch f p cs b -> 0 <= b -> Forall (fun c => 0 <= c.1) cs ->
  zget f b = Some (mk_block d (last_of p cs) (- n)) -> payload_ok d -> 1 <= n <= TapeBlockPayloadSize ->
  forward f (head_of cs b) ((fst <$> cs) ++ [b]) (stretch_bytes cs ++ ztake n d).
Proof.
  intros Hs Hb0 Hpos Hb Hd Hn. revert p Hs Hb. induction Hpos as [|[c e] cs Hc _ IH]; intros p Hs Hb.
  - cbn. split; [done|]. exists (mk_block d p (- n)), []. split; [done|]. split; [done|].
    unfold TapeBlockGetNBytes, TapeBlockIsLast. cbn. destruct (Z.ltb_spec (- n) 0); [|lia].
    rewrite Z.opp_involutive, app_nil_r. by repeat split; try lia.
  - destruct Hs as (Hc' & He & Hs). cbn. split; [done|].
    exists (mk_block e p (head_of cs b)), (stretch_bytes cs ++ ztake n d). split; [done|]. split; [done|].
    assert (Hnl : TapeBlockIsLast (mk_block e p (head_of cs b)) = false).
    { unfold TapeBlockIsLast. cbn. apply Z.ltb_ge. destruct cs as [|[c2 e2] cs]; cbn; [done|].
      destruct Hs as (Hc2 & _). pose proof (zget_bounds _ _ _ Hc2). lia. }
    unfold TapeBlockGetNBytes. rewrite Hnl. cbn [b_data]. rewrite ztake_payload by done.
    split; [by rewrite <- app_assoc|]. apply (IH c); [done|]. by rewrite last_of_cons in Hb.
Qed.

Lemma complete_forward f cs b d n :
  complete f cs b d n ->
  forward f (head_of cs b) ((fst <$> cs) ++ [b]) (stretch_bytes cs ++ ztake n d).
Proof.
  intros (Hs & Hb & Hd & Hn). pose proof (zget_bounds _ _ _ Hb).
  apply (stretch_forward f (-1)); try done; [lia|]. clear -Hs. revert Hs. generalize (-1) as p.
  induction cs as [|[c e] cs IH]; intros p Hs; [constructor|]. destruct Hs as (Hc & _ & Hs).
  pose proof (zget_bounds _ _ _ Hc). constructor; [cbn; lia|by apply (IH c)].
Qed.

(** ** The struct of a tape *)

(** The parts that no operation changes while the tape is written or read. *)
Definition same_mode (lt lt' : LogicalTape) : Prop :=
  writing lt' = writing lt /\ frozen lt' = frozen lt /\ offsetBlockNumber lt' = offsetBlockNumber lt /\
  max_size lt' = max_size lt /\ buffer_size lt' = buffer_size lt.

Lemma same_mode_trans l1 l2 l3 : same_mode l1 l2 -> same_mode l2 l3 -> same_mode l1 l3.
Proof. intros (? & ? & ? & ? & ?) (? & ? & ? & ? & ?). repeat split; congruence. Qed.

(** The current block is in the buffer [buf], the earlier ones on the file. *)
Record wrep (f : list Block) (lt : LogicalTape) (buf : Block) (cs : list (Z * list Z)) : Prop := {
  wp_stretch : stretch f (-1) cs (curBlockNumber lt);
  wp_first : firstBlockNumber lt = head_of cs (curBlockNumber lt);
  wp_data : payload_ok (b_data buf);
  wp_prev : b_prev buf = last_of (-1) cs;
  wp_pos : 0 <= pos lt <= TapeBlockPayloadSize;
  wp_nbytes : nbytes lt = pos lt;
  wp_dirty : 0 < pos lt -> dirty lt = true;
  wp_pre : prealloc_ok lt
}.

Definition wblocks (lt : LogicalTape) (cs : list (Z * list Z)) : list Z :=
  (fst <$> cs) ++ [curBlockNumber lt].

Definition wbytes (lt : LogicalTape) (buf : Block) (cs : list (Z * list Z)) : list Z :=
  stretch_bytes cs ++ ztake (pos lt) (b_data buf).

(** The buffer of a frozen tape holds its block number [i]; [last] is the number
    of the last block and [n] the bytes in that one.  After a seek to the last
    block, [nbytes] and [nextBlockNumber] are those of a full block. *)
Definition frozen_at (f : list Block) (lt : LogicalTape) (last n : Z) (own bs : list Z) (i : Z)
    (buf : Block) (p : Z) : Prop :=
  zget f (curBlockNumber lt) = Some buf /\ zget own i = Some (curBlockNumber lt) /\
  p = i * TapeBlockPayloadSize + pos lt /\ p <= zlen bs /\ 0 <= pos lt <= nbytes lt /\
  if i <? last then nbytes lt = TapeBlockPayloadSize /\ nextBlockNumber lt = b_next buf
  else (nbytes lt = n /\ nextBlockNumber lt = -1) \/
       (nbytes lt = TapeBlockPayloadSize /\ nextBlockNumber lt = - n).

Definition tape_rep (f : list Block) (lt : LogicalTape) (a : atape) (own : list Z) : Prop :=
  offsetBlockNumber lt = 0 /\ max_size lt = MaxAllocSize /\ prealloc_ok lt /\
  match a with
  | AWriting bs =>
    writing lt = true /\ frozen lt = false /\
    ((curBlockNumber lt = -1 /\ firstBlockNumber lt = -1 /\ pos lt = 0 /\ nbytes lt = 0 /\
      dirty lt = false /\ buffer lt = None /\ bs = [] /\ own = []) \/
     (exists cs buf, buffer lt = Some buf /\ buffer_size lt = BLCKSZ /\ wrep f lt buf cs /\
        0 < pos lt /\ bs = wbytes lt buf cs /\ own = wblocks lt cs))
  | AReading rest =>
    writing lt = false /\ frozen lt = false /\ prealloc lt = None /\ BLCKSZ <= buffer_size lt /\
    ((buffer lt = None /\ forward f (firstBlockNumber lt) own rest) \/
     (exists buf r, buffer lt = Some buf /\ 0 <= pos lt <= nbytes lt /\ nbytes lt <= zlen (b_data buf) /\
        forward f (nextBlockNumber lt) own r /\
        rest = ztake (nbytes lt - pos lt) (zdrop (pos lt) (b_data buf)) ++ r))
  | AFrozen bs p =>
    writing lt = false /\ frozen lt = true /\ buffer_size lt = BLCKSZ /\
    exists cs b d n, complete f cs b d n /\ bs = stretch_bytes cs ++ ztake n d /\
      firstBlockNumber lt = head_of cs b /\ own = (fst <$> cs) ++ [b] /\
      ((buffer lt = None /\ p = 0) \/
       (exists i buf, buffer lt = Some buf /\ frozen_at f lt (zlen cs) n own bs i buf p))
  end.

(** Only the blocks a tape owns matter to it. *)
Lemma tape_rep_frame f f' lt a own :
  (forall b x, b ∈ own -> zget f b = Some x -> zget f' b = Some x) ->
  tape_rep f lt a own -> tape_rep f' lt a own.
Proof.
  intros Hf (Ho & Hm & Hp & H). do 3 (split; [done|]). destruct a as [bs|rest|bs p].
  - destruct H as (Hw & Hfr & H). do 2 (split; [done|]).
    destruct H as [H | (cs & buf & Hb & Hbs & [] & Hpos & -> & ->)]; [by left|]. right. exists cs, buf.
    do 2 (split; [done|]). split; [|done]. split; try done. apply (stretch_frame f); [|done].
    intros b x Hin. apply Hf. unfold wblocks. apply elem_of_app. by left.
  - destruct H as (Hw & Hfr & Hpr & Hbs & H). do 4 (split; [done|]).
    destruct H as [[Hb H] | (buf & r & Hb & H1 & H2 & H & ->)].
    + left. split; [done|]. by apply (forward_frame f).
    + right. exists buf, r. do 3 (split; [done|]). split; [by apply (forward_frame f)|done].
  - destruct H as (Hw & Hfr & Hbs & cs & b & d & n & Hc & -> & Hfi & -> & H). do 3 (split; [done|]).
    exists cs, b, d, n. split; [by apply (complete_frame f)|]. do 3 (split; [done|]).
    destruct H as [H | (i & buf & Hb & Hcur & Hi & H)]; [by left|]. right. exists i, buf.
    split; [done|]. split; [|split; [exact Hi|exact H]]. apply Hf; [|done]. by apply zget_elem in Hi.
Qed.
