(* ===== verification/LogTapeWrite.v ===== *)
(** * Writing a tape

    Writing, rewinding and freezing at the level of one tape: what
    [tape_write], [tape_rewind_for_read], [tape_rewind_for_write] and
    [tape_freeze] do to the bytes a tape stands for, with the blocks of the
    other tapes as a frame. *)

From Stdlib Require Import ZArith Lia.
From stdpp Require Import base list sorting strings.
From S2P Require Import Prelude HeapTheory LogTapeBlocks LogTapeFree LogTapeRep.

Local Open Scope Z_scope.

(** ** The frame *)

(** An operation on one tape leaves the structs and the blocks of the others
    alone. *)
Definition kept (lts lts' : LogicalTapeSet) (others : list Z) : Prop :=
  tapes lts' = tapes lts /\
  forall b x, b ∈ others -> zget (pfile lts) b = Some x -> zget (pfile lts') b = Some x.

Lemma kept_refl lts others : kept lts lts others.
Proof. by split. Qed.

Lemma kept_trans l1 l2 l3 others : kept l1 l2 others -> kept l2 l3 others -> kept l1 l3 others.
Proof. intros [? H1] [? H2]. split; [congruence|]. intros b x Hb Hx. by apply H2, H1. Qed.

Lemma kept_same_file lts lts' others : same_file lts lts' -> kept lts lts' others.
Proof. intros (Hf & Ht & _). split; [done|]. intros b x _ Hx. by rewrite Hf. Qed.

Lemma kept_wrote lts lts' n buf others : wrote lts lts' n buf -> n ∉ others -> kept lts lts' others.
Proof. intros [] Hn. split; [done|]. intros b x Hb. apply wr_other. by intros ->. Qed.

(** What an operation on one tape establishes. *)
Definition tape_done (lts lts' : LogicalTapeSet) (lt' : LogicalTape) (a : atape) (others : list Z)
    : Prop :=
  exists own, pool_ok lts' (held lt' ++ own ++ others) /\ tape_rep (pfile lts') lt' a own /\
    kept lts lts' others.

Lemma pool_in lts used b : pool_ok lts used -> b ∈ used -> 0 <= b < nBlocksAllocated lts.
Proof.
  intros [] Hb. apply (proj1 (Forall_forall _ _) pl_range b). apply elem_of_app. by right.
Qed.

Lemma pool_apart lts l1 l2 b : pool_ok lts (l1 ++ l2) -> b ∈ l1 -> b ∉ l2.
Proof.
  intros [] H1 H2. apply NoDup_app in pl_nodup as (_ & _ & H). apply NoDup_app in H as (_ & H & _).
  by apply (H b).
Qed.

(** ** Bytes in a buffer *)

Lemma zlen_zdrop {A} n (l : list A) : 0 <= n <= zlen l -> zlen (zdrop n l) = zlen l - n.
Proof. unfold zlen, zdrop. rewrite length_drop. lia. Qed.

Lemma ztake_app_r {A} n (l l' : list A) : zlen l <= n -> ztake n (l ++ l') = l ++ ztake (n - zlen l) l'.
Proof. unfold zlen, ztake. intros. rewrite take_app_ge by lia. do 2 f_equal. lia. Qed.

Lemma overwrite_ok data p xs :
  0 <= p -> p + zlen xs <= zlen data ->
  exists d, overwrite data p xs = Ok d /\ zlen d = zlen data /\
    ztake (p + zlen xs) d = ztake p data ++ xs.
Proof.
  intros Hp Hx. pose proof (zlen_nonneg xs). unfold overwrite. destruct (Z.leb_spec 0 p); [|lia].
  destruct (Z.leb_spec (p + zlen xs) (zlen data)); [|lia]. cbn [andb]. eexists. split; [done|]. split.
  - rewrite !zlen_app, zlen_ztake, zlen_zdrop by lia. lia.
  - rewrite ztake_app_r by (rewrite zlen_ztake; lia). rewrite zlen_ztake by lia. f_equal.
    rewrite ztake_app_r by lia. rewrite ztake_nonpos by lia. by rewrite app_nil_r.
Qed.

(** ** The write loop *)

Lemma reserved_wrep f lt lt' buf cs :
  reserved lt lt' -> prealloc_ok lt' -> wrep f lt buf cs -> wrep f lt' buf cs.
Proof. intros (p & n & z & ->) Hpre []. by split. Qed.

Lemma reserved_same_mode lt lt' : reserved lt lt' -> same_mode lt lt'.
Proof. by intros (p & n & z & ->). Qed.

Lemma reserved_cur lt lt' :
  reserved lt lt' -> curBlockNumber lt' = curBlockNumber lt /\ pos lt' = pos lt /\ dirty lt' = dirty lt.
Proof. by intros (p & n & z & ->). Qed.

Lemma wblocks_cur lt cs : curBlockNumber lt ∈ wblocks lt cs.
Proof. unfold wblocks. apply elem_of_app. right. by left. Qed.

(** A full buffer becomes one more block of the chain. *)
Lemma next_block_ok lts lt buf cs others :
  pool_ok lts (held lt ++ wblocks lt cs ++ others) -> wrep (pfile lts) lt buf cs ->
  pos lt = TapeBlockPayloadSize ->
  exists lts' lt' buf', next_block lts lt buf = Ok (lts', lt', buf') /\
    pool_ok lts' (held lt' ++ wblocks lt' (cs ++ [(curBlockNumber lt, b_data buf)]) ++ others) /\
    wrep (pfile lts') lt' buf' (cs ++ [(curBlockNumber lt, b_data buf)]) /\
    pos lt' = 0 /\ same_mode lt lt' /\ kept lts lts' others.
Proof.
  intros Hp Hw Hpos. unfold next_block. rewrite (wp_dirty _ _ _ _ Hw) by (rewrite Hpos; done). cbn [negb].
  destruct (ltsGetBlock_ok lts lt (wblocks lt cs ++ others) Hp (wp_pre _ _ _ _ Hw))
    as (l1 & lt1 & c & -> & Hp1 & Hpre & Hsf & Hres).
  rewrite rbind_ret. cbv zeta. pose proof (reserved_cur _ _ Hres) as (Hcur & Hpos1 & _).
  set (cur := curBlockNumber lt) in *. rewrite Hcur.
  set (blk := set_b_next c buf).
  assert (Hin : cur ∈ c :: held lt1 ++ wblocks lt cs ++ others).
  { right. apply elem_of_app. right. apply elem_of_app. left. apply wblocks_cur. }
  destruct (ltsWriteBlock_ok l1 _ cur blk Hp1 (pool_in _ _ _ Hp1 Hin)) as (l2 & -> & Hp2 & Hwr).
  rewrite rbind_ret. eexists _, _, _. split; [reflexivity|].
  assert (Hap : cur ∉ (fst <$> cs) ++ c :: held lt1 ++ others).
  { apply (pool_apart l2 [cur]); [|by left]. apply (pool_perm _ _ _ Hp2). unfold wblocks.
    fold cur. solve_Permutation. }
  apply not_elem_of_app in Hap as [Hcs Hrest].
  pose proof Hsf as (Hfile & _ & _).
  split; [|split; [|split; [done|split]]].
  - apply (pool_perm _ _ _ Hp2). unfold wblocks. change (held (set_nbytes _ _)) with (held lt1).
    change (curBlockNumber (set_nbytes _ _)) with c. fold cur. rewrite fmap_app. cbn. solve_Permutation.
  - destruct Hw. split; try done.
    + apply stretch_snoc with (c := cur) (d := b_data buf); [|rewrite (wr_block _ _ _ _ Hwr)|done].
      * apply (stretch_frame (pfile lts)); [|done]. intros b x Hb Hx. apply (wr_other _ _ _ _ Hwr).
        { by intros ->. }
        by rewrite Hfile.
      * unfold blk, set_b_next. by rewrite wp_prev.
    + change (firstBlockNumber lt1 = head_of (cs ++ [(cur, b_data buf)]) c). rewrite head_of_app. cbn.
      destruct Hres as (? & ? & ? & ->). done.
    + change (b_prev (set_b_prev cur blk)) with cur. by rewrite last_of_snoc.
  - apply reserved_same_mode in Hres. exact Hres.
  - apply kept_trans with l1; [by apply kept_same_file|]. apply (kept_wrote _ _ _ _ _ Hwr).
    intros H. apply Hrest. right. apply elem_of_app. by right.
Qed.

(** The struct after [n] bytes were copied into the buffer. *)
Definition copied (n : Z) (lt : LogicalTape) : LogicalTape :=
  let lt := set_pos (pos lt + n) (set_dirty true lt) in
  if nbytes lt <? pos lt then set_nbytes (pos lt) lt else lt.

Lemma copied_fields n lt :
  nbytes lt = pos lt -> 0 < n ->
  copied n lt = set_nbytes (pos lt + n) (set_pos (pos lt + n) (set_dirty true lt)).
Proof.
  intros He Hn. unfold copied. cbv zeta. change (nbytes (set_pos _ _)) with (nbytes lt).
  change (pos (set_pos ?p _)) with p. rewrite He. by destruct (Z.ltb_spec (pos lt) (pos lt + n)); [|lia].
Qed.

Lemma copy_ok f lt buf cs xs :
  wrep f lt buf cs -> xs <> [] -> pos lt + zlen xs <= TapeBlockPayloadSize ->
  exists d, overwrite (b_data buf) (pos lt) xs = Ok d /\
    let lt' := copied (zlen xs) lt in let buf' := mk_block d (b_prev buf) (b_next buf) in
    wrep f lt' buf' cs /\ wbytes lt' buf' cs = wbytes lt buf cs ++ xs /\ 0 < pos lt' /\ same_mode lt lt' /\
    held lt' = held lt /\ wblocks lt' cs = wblocks lt cs.
Proof.
  intros [] Hxs Hle. pose proof (zlen_nonneg xs). unfold payload_ok in wp_data.
  assert (Hx : 0 < zlen xs) by (destruct xs; [done|unfold zlen; cbn; lia]).
  destruct (overwrite_ok (b_data buf) (pos lt) xs) as (d & -> & Hd & Htk); [lia|lia|].
  exists d. split; [done|]. cbv zeta. rewrite copied_fields by done.
  change (pos (set_nbytes ?p _)) with (pos lt + zlen xs).
  split; [|split; [|split; [lia|by repeat split]]].
  - split; try done.
    + unfold payload_ok. cbn [b_data]. lia.
    + change (0 <= pos lt + zlen xs <= TapeBlockPayloadSize). lia.
  - unfold wbytes. cbn [b_data]. change (pos (set_nbytes ?p _)) with (pos lt + zlen xs).
    by rewrite Htk, app_assoc.
Qed.

(** Room for at least one byte in the buffer. *)
Lemma make_room_ok lts lt buf cs others :
  pool_ok lts (held lt ++ wblocks lt cs ++ others) -> wrep (pfile lts) lt buf cs ->
  exists l1 t1 b1 c1,
    (if pos lt >=? TapeBlockPayloadSize then next_block lts lt buf else Ok (lts, lt, buf)) = Ok (l1, t1, b1) /\
    pool_ok l1 (held t1 ++ wblocks t1 c1 ++ others) /\ wrep (pfile l1) t1 b1 c1 /\
    pos t1 < TapeBlockPayloadSize /\ wbytes t1 b1 c1 = wbytes lt buf cs /\ same_mode lt t1 /\
    kept lts l1 others.
Proof.
  intros Hp Hw. pose proof (wp_pos _ _ _ _ Hw). rewrite Z.geb_leb.
  destruct (Z.leb_spec TapeBlockPayloadSize (pos lt)) as [Hfull|Hfree].
  2:{ exists lts, lt, buf, cs. do 4 (split; [done|]). split; [done|]. split; [done|apply kept_refl]. }
  destruct (next_block_ok lts lt buf cs others Hp Hw) as (l1 & t1 & b1 & -> & Hp1 & Hw1 & Hz & Hm & Hk); [lia|].
  eexists l1, t1, b1, _. split; [done|]. split; [exact Hp1|]. split; [done|]. rewrite Hz.
  split; [done|]. split; [|done]. unfold wbytes. rewrite Hz, stretch_bytes_snoc, (ztake_nonpos 0) by lia.
  rewrite app_nil_r. f_equal. symmetry. apply ztake_all. rewrite (wp_data _ _ _ _ Hw). lia.
Qed.

Lemma write_loop_ok fuel lts lt buf cs xs others :
  (length xs < fuel)%nat ->
  pool_ok lts (held lt ++ wblocks lt cs ++ others) -> wrep (pfile lts) lt buf cs ->
  exists lts' lt' buf' cs', write_loop fuel lts lt buf xs = Ok (lts', lt', buf') /\
    pool_ok lts' (held lt' ++ wblocks lt' cs' ++ others) /\ wrep (pfile lts') lt' buf' cs' /\
    wbytes lt' buf' cs' = wbytes lt buf cs ++ xs /\ (xs <> [] \/ 0 < pos lt -> 0 < pos lt') /\
    same_mode lt lt' /\ kept lts lts' others.
Proof.
  revert lts lt buf cs xs. induction fuel as [|fuel IH]; intros lts lt buf cs xs Hf Hp Hw; [lia|].
  cbn [write_loop]. destruct (Z.gtb_spec (zlen xs) 0) as [Hxs|Hxs].
  2:{ assert (xs = []) as -> by (destruct xs; [done|unfold zlen in Hxs; cbn in Hxs; lia]).
      exists lts, lt, buf, cs. rewrite app_nil_r. split; [done|]. do 3 (split; [done|]).
      split; [by intros [?|?]|]. split; [done|apply kept_refl]. }
  destruct (make_room_ok lts lt buf cs others Hp Hw)
    as (l1 & t1 & b1 & c1 & -> & Hp1 & Hw1 & Hlt & Hby & Hm1 & Hk1).
  rewrite rbind_ret. cbv zeta. set (n := Z.min _ _). pose proof (wp_pos _ _ _ _ Hw1).
  assert (Hn : 0 < n <= zlen xs /\ pos t1 + n <= TapeBlockPayloadSize) by lia.
  assert (Hlen : zlen (ztake n xs) = n) by (apply zlen_ztake; lia).
  destruct (copy_ok (pfile l1) t1 b1 c1 (ztake n xs) Hw1) as (d & -> & Hc); [|lia|].
  { intros He. rewrite He in Hlen. unfold zlen in Hlen. cbn in Hlen. lia. }
  rewrite rbind_ret. rewrite Hlen in Hc. cbv zeta in Hc. fold (copied n t1).
  destruct Hc as (Hw2 & Hby2 & Hpos2 & Hm2 & Hh2 & Hcur2).
  rewrite <- Hh2, <- Hcur2 in Hp1.
  edestruct (IH l1 (copied n t1)) as (l3 & t3 & b3 & c3 & -> & Hp3 & Hw3 & Hby3 & Hpos3 & Hm3 & Hk3);
    [|exact Hp1|exact Hw2|].
  { unfold zdrop. rewrite length_drop. unfold zlen in Hn. lia. }
  exists l3, t3, b3, c3. split; [done|]. split; [done|]. split; [done|].
  split; [|split; [|split]].
  - by rewrite Hby3, Hby2, Hby, <- app_assoc, ztake_zdrop.
  - intros _. apply Hpos3. by right.
  - by apply (same_mode_trans _ t1), (same_mode_trans _ (copied n t1)).
  - by apply kept_trans with l1.
Qed.

(** ** Writing *)

(** The loop, from a tape whose current block is in the buffer. *)
Lemma write_body_ok lts lt buf cs xs others :
  pool_ok lts (held lt ++ wblocks lt cs ++ others) -> wrep (pfile lts) lt buf cs -> xs <> [] ->
  offsetBlockNumber lt = 0 -> max_size lt = MaxAllocSize -> writing lt = true -> frozen lt = false ->
  buffer_size lt = BLCKSZ ->
  exists lts' lt',
    (if negb (buffer_size lt =? BLCKSZ) then Crash
     else
       do! ' (lts, lt, buf) <- write_loop (S (length xs)) lts lt buf xs ;;
       Ok (lts, set_buffer (Some buf) lt, tt)) = Ok (lts', lt', tt) /\
    tape_done lts lts' lt' (AWriting (wbytes lt buf cs ++ xs)) others.
Proof.
  intros Hp Hw Hxs Ho Hmx Hwr Hfr Hbs. rewrite Hbs, Z.eqb_refl. cbn [negb].
  destruct (write_loop_ok (S (length xs)) lts lt buf cs xs others)
    as (l1 & t1 & b1 & c1 & -> & Hp1 & Hw1 & Hby & Hpos & (Hm1 & Hm2 & Hm3 & Hm4 & Hm5) & Hk); [lia|done|done|].
  rewrite rbind_ret. eexists _, _. split; [reflexivity|].
  exists (wblocks t1 c1). split; [exact Hp1|]. split; [|done].
  split; [cbn; congruence|]. split; [cbn; congruence|]. split; [exact (wp_pre _ _ _ _ Hw1)|].
  split; [cbn; congruence|]. split; [cbn; congruence|]. right. exists c1, b1.
  split; [done|]. split; [cbn; congruence|]. split; [destruct Hw1; by split|].
  split; [apply Hpos; by left|]. split; [|done]. by rewrite <- Hby.
Qed.

Section memory.
Context (junk : list Z) (Hjunk : payload_ok junk).

Lemma tape_write_ok lts lt bs own xs others :
  pool_ok lts (held lt ++ own ++ others) -> tape_rep (pfile lts) lt (AWriting bs) own -> xs <> [] ->
  exists lts' lt', tape_write junk lts lt xs = Ok (lts', lt', tt) /\
    tape_done lts lts' lt' (AWriting (bs ++ xs)) others.
Proof.
  intros Hp (Ho & Hmx & Hpre & Hwr & Hfr & H) Hxs. unfold tape_write. rewrite Hwr, Ho. cbn [negb andb Z.eqb].
  destruct H as [(Hcur & Hfi & Hpos & Hnb & Hdi & Hbuf & -> & ->) |
                 (cs & buf & Hbuf & Hbs & Hw & Hpos & -> & ->)]; rewrite Hbuf.
  - change (curBlockNumber (set_buffer_size BLCKSZ lt)) with (curBlockNumber lt).
    change (firstBlockNumber (set_buffer_size BLCKSZ lt)) with (firstBlockNumber lt).
    change (pos (set_buffer_size BLCKSZ lt)) with (pos lt).
    rewrite Hcur, Hfi, Hpos. cbn [Z.eqb Z.opp Pos.eqb andb negb].
    destruct (ltsGetBlock_ok lts (set_buffer_size BLCKSZ lt) others Hp Hpre)
      as (l1 & t1 & c & -> & Hp1 & Hpre1 & Hsf & (p & n & z & ->)).
    rewrite !rbind_ret. set (t2 := set_firstBlockNumber c _). set (b2 := set_b_prev (-1) _).
    destruct (write_body_ok l1 t2 b2 [] xs others) as (l3 & t3 & -> & own3 & Hp3 & Hr3 & Hk3); try done.
    + apply (pool_perm _ _ _ Hp1). change (held t2) with (held (set_prealloc p (set_nprealloc n
        (set_prealloc_size z (set_buffer_size BLCKSZ lt))))). change (wblocks t2 []) with [c].
      cbn [app]. by rewrite <- Permutation_middle.
    + split; try done.
      * change (0 <= pos lt <= TapeBlockPayloadSize). by rewrite Hpos.
      * change (nbytes lt = pos lt). congruence.
      * change (0 < pos lt -> dirty lt = true). lia.
    + exists l3, t3. split; [done|]. exists own3. split; [done|]. split.
      * assert (Hz : wbytes t2 b2 [] = []).
        { unfold wbytes. change (pos t2) with (pos lt). rewrite Hpos. by rewrite ztake_nonpos by lia. }
        by rewrite Hz in Hr3.
      * apply kept_trans with l1; [by apply kept_same_file|done].
  - assert (Hc : (curBlockNumber lt =? -1) = false).
    { apply Z.eqb_neq. assert (0 <= curBlockNumber lt < nBlocksAllocated lts); [|lia].
      apply (pool_in _ _ _ Hp). apply elem_of_app. right. apply elem_of_app. left. apply wblocks_cur. }
    rewrite Hc, rbind_ret. by apply write_body_ok.
Qed.
End memory.

(** ** The end of the write phase *)

Lemma flush_ok lts lt buf cs others :
  pool_ok lts (held lt ++ wblocks lt cs ++ others) -> wrep (pfile lts) lt buf cs ->
  buffer lt = Some buf -> 0 < pos lt ->
  exists lts', flush lts lt = Ok lts' /\ pool_ok lts' (held lt ++ wblocks lt cs ++ others) /\
    complete (pfile lts') cs (curBlockNumber lt) (b_data buf) (pos lt) /\ kept lts lts' others.
Proof.
  intros Hp Hw Hbuf Hpos. pose proof Hw as []. unfold flush. rewrite wp_dirty, Hbuf by done.
  set (cur := curBlockNumber lt) in *.
  assert (Hin : cur ∈ held lt ++ wblocks lt cs ++ others).
  { apply elem_of_app. right. apply elem_of_app. left. apply wblocks_cur. }
  destruct (ltsWriteBlock_ok lts _ cur (TapeBlockSetNBytes buf (nbytes lt)) Hp (pool_in _ _ _ Hp Hin))
    as (l1 & -> & Hp1 & Hwr).
  assert (Hap : cur ∉ (fst <$> cs) ++ held lt ++ others).
  { apply (pool_apart l1 [cur]); [|by left]. apply (pool_perm _ _ _ Hp1). unfold wblocks. fold cur.
    solve_Permutation. }
  apply not_elem_of_app in Hap as [Hcs Hrest]. apply not_elem_of_app in Hrest as [_ Hoth].
  exists l1. split; [done|]. split; [done|]. split; [|by apply (kept_wrote _ _ _ _ _ Hwr)].
  split; [|split; [|split; [done|lia]]].
  - apply (stretch_frame (pfile lts)); [|done]. intros b x Hb Hx. apply (wr_other _ _ _ _ Hwr); [|done].
    by intros ->.
  - rewrite (wr_block _ _ _ _ Hwr). unfold TapeBlockSetNBytes. by rewrite wp_prev, wp_nbytes.
Qed.

Lemma complete_not_nil f cs b d n : complete f cs b d n -> stretch_bytes cs ++ ztake n d <> [].
Proof.
  intros (_ & _ & Hd & Hn) H. apply app_nil in H as [_ H]. assert (Hl : zlen (ztake n d) = n).
  { apply zlen_ztake. unfold payload_ok in Hd. lia. }
  rewrite H in Hl. unfold zlen in Hl. cbn in Hl. lia.
Qed.

(** The preallocated blocks are given back. *)
Lemma release_prealloc_ok lts lt used :
  pool_ok lts (held lt ++ used) -> prealloc_ok lt ->
  exists lts' p n z,
    match prealloc lt with
    | None => Ok (lts, lt, tt)
    | Some pre =>
      do! lts <- release_all pre (Z.to_nat (nprealloc lt)) lts ;;
      Ok (lts, set_prealloc_size 0 (set_nprealloc 0 (set_prealloc None lt)), tt)
    end = Ok (lts', set_prealloc_size z (set_nprealloc n (set_prealloc p lt)), tt) /\ p = None /\
    pool_ok lts' used /\ same_file lts lts'.
Proof.
  intros Hp Hpre. unfold held, prealloc_ok in *. destruct (prealloc lt) as [pre|] eqn:Hl.
  2:{ exists lts, None, (nprealloc lt), (prealloc_size lt). split; [destruct lt; by rewrite <- Hl|]. done. }
  destruct Hpre as (Hn & _).
  destruct (release_all_ok pre (Z.to_nat (nprealloc lt)) lts used) as (l1 & -> & Hp1 & Hs1 & _).
  { by rewrite Z2Nat.id by lia. }
  { lia. }
  rewrite rbind_ret. by exists l1, None, 0, 0.
Qed.

Lemma read_buffer_size_min lt size :
  max_size lt = MaxAllocSize -> BLCKSZ <= read_buffer_size lt size /\
  (frozen lt = true -> read_buffer_size lt size = BLCKSZ).
Proof.
  intros Hm. unfold read_buffer_size. destruct (frozen lt); [split; [lia|done]|]. split; [|done].
  rewrite Hm. unfold BLCKSZ, MaxAllocSize. set (s := Z.min _ _).
  assert (8192 <= s) by (subst s; lia). clearbody s. pose proof (Z.div_mod s 8192).
  assert (1 <= s / 8192) by (apply Z.div_le_lower_bound; lia). lia.
Qed.

Lemma tape_rewind_for_read_writing_ok lts lt bs own size others :
  pool_ok lts (held lt ++ own ++ others) -> tape_rep (pfile lts) lt (AWriting bs) own ->
  exists lts' lt', tape_rewind_for_read lts lt size = Ok (lts', lt', tt) /\
    tape_done lts lts' lt' (AReading bs) others.
Proof.
  intros Hp (Ho & Hmx & Hpre & Hwr & Hfr & H). unfold tape_rewind_for_read. cbv zeta. rewrite Hwr.
  destruct (read_buffer_size_min lt size Hmx) as [Hsz _]. set (sz := read_buffer_size lt size) in *.
  assert (Hfl : exists l1, flush lts lt = Ok l1 /\ pool_ok l1 (held lt ++ own ++ others) /\
    forward (pfile l1) (firstBlockNumber lt) own bs /\ kept lts l1 others).
  { destruct H as [(Hcur & Hfi & Hpos & Hnb & Hdi & Hbuf & -> & ->) |
                   (cs & buf & Hbuf & Hbs & Hw & Hpos & -> & ->)].
    - exists lts. unfold flush. rewrite Hdi. split; [done|]. split; [done|]. split; [by split|apply kept_refl].
    - destruct (flush_ok lts lt buf cs others Hp Hw Hbuf Hpos) as (l1 & -> & Hp1 & Hc & Hk).
      exists l1. split; [done|]. split; [done|]. split; [|done]. rewrite (wp_first _ _ _ _ Hw).
      by apply complete_forward. }
  destruct Hfl as (l1 & -> & Hp1 & Hfw & Hk). rewrite !rbind_ret.
  set (t1 := set_buffer_size sz (set_buffer None (set_writing false lt))).
  destruct (release_prealloc_ok l1 t1 (own ++ others) Hp1 Hpre) as (l2 & p & n & z & -> & -> & Hp2 & Hs2).
  eexists _, _. split; [reflexivity|]. exists own. split; [exact Hp2|].
  split; [|apply kept_trans with l1; [done|by apply kept_same_file]].
  destruct Hs2 as (Hf2 & _). rewrite Hf2.
  do 3 (split; [done|]). do 3 (split; [done|]). split; [exact Hsz|]. by left.
Qed.

Lemma tape_rewind_for_read_frozen_ok lts lt bs p own size others :
  pool_ok lts (held lt ++ own ++ others) -> tape_rep (pfile lts) lt (AFrozen bs p) own ->
  exists lts' lt', tape_rewind_for_read lts lt size = Ok (lts', lt', tt) /\ held lt' = [] /\
    pool_ok lts' (own ++ others) /\ tape_rep (pfile lts') lt' (AFrozen bs 0) own /\ kept lts lts' others.
Proof.
  intros Hp (Ho & Hmx & Hpre & Hwr & Hfr & Hbs & cs & b & d & n & Hc & -> & Hfi & -> & _).
  unfold tape_rewind_for_read. cbv zeta. rewrite Hwr, Hfr.
  destruct (read_buffer_size_min lt size Hmx) as [_ Hsz]. rewrite (Hsz Hfr). rewrite rbind_ret.
  set (t1 := set_buffer_size BLCKSZ (set_buffer None lt)).
  destruct (release_prealloc_ok lts t1 _ Hp Hpre) as (l2 & p2 & n2 & z & -> & -> & Hp2 & Hs2).
  eexists _, _. split; [reflexivity|]. split; [done|]. split; [exact Hp2|].
  split; [|by apply kept_same_file].
  destruct Hs2 as (Hf2 & _). rewrite Hf2.
  do 3 (split; [done|]). do 3 (split; [done|]). exists cs, b, d, n. do 4 (split; [done|]). by left.
Qed.

(** The unread blocks are forgotten. *)
Lemma tape_rewind_for_write_ok lts lt rest own others :
  pool_ok lts (held lt ++ own ++ others) -> tape_rep (pfile lts) lt (AReading rest) own ->
  exists lt', tape_rewind_for_write lt = Ok lt' /\ tape_done lts lts lt' (AWriting []) others.
Proof.
  intros Hp (Ho & Hmx & Hpre & Hwr & Hfr & Hnp & _). unfold tape_rewind_for_write. rewrite Hwr, Hfr.
  cbn [orb]. eexists. split; [reflexivity|]. exists []. split; [|split; [|apply kept_refl]].
  - change (held (set_buffer_size _ _)) with (held lt). unfold held in *. rewrite Hnp in *.
    by apply (pool_forget_all lts own).
  - do 3 (split; [done|]). split; [done|]. split; [done|]. by left.
Qed.

Lemma complete_head f cs b d n :
  complete f cs b d n ->
  exists blk, zget f (head_of cs b) = Some blk /\ zget ((fst <$> cs) ++ [b]) 0 = Some (head_of cs b) /\
    (0 <? zlen cs) = negb (TapeBlockIsLast blk) /\
    TapeBlockGetNBytes blk = if 0 <? zlen cs then TapeBlockPayloadSize else n.
Proof.
  intros (Hs & Hb & Hd & Hn). unfold TapeBlockGetNBytes. destruct cs as [|[c e] cs].
  - exists (mk_block d (-1) (- n)). split; [done|]. split; [done|]. unfold TapeBlockIsLast. cbn [b_next].
    destruct (Z.ltb_spec (- n) 0); [|lia]. split; [done|]. by rewrite Z.opp_involutive.
  - destruct Hs as (Hc & He & Hs). eexists. split; [exact Hc|]. split; [done|].
    assert (Hnl : TapeBlockIsLast (mk_block e (-1) (head_of cs b)) = false).
    { unfold TapeBlockIsLast. cbn. apply Z.ltb_ge. destruct cs as [|[c2 e2] cs]; cbn.
      - pose proof (zget_bounds _ _ _ Hb). lia.
      - destruct Hs as (Hc2 & _). pose proof (zget_bounds _ _ _ Hc2). lia. }
    rewrite Hnl. assert ((0 <? zlen ((c, e) :: cs)) = true) as ->; [|done].
    apply Z.ltb_lt. unfold zlen. cbn. lia.
Qed.

Lemma tape_freeze_ok lts lt bs own others :
  pool_ok lts (held lt ++ own ++ others) -> tape_rep (pfile lts) lt (AWriting bs) own -> bs <> [] ->
  exists lts' lt', tape_freeze lts lt = Ok (lts', lt', tt) /\
    tape_done lts lts' lt' (AFrozen bs 0) others.
Proof.
  intros Hp (Ho & Hmx & Hpre & Hwr & Hfr & H) Hne. unfold tape_freeze. rewrite Hwr, Ho. cbn [negb andb Z.eqb].
  destruct H as [(_ & _ & _ & _ & _ & _ & -> & _)|(cs & buf & Hbuf & Hbs & Hw & Hpos & -> & ->)]; [done|].
  destruct (flush_ok lts lt buf cs others Hp Hw Hbuf Hpos) as (l1 & -> & Hp1 & Hc & Hk).
  rewrite rbind_ret. cbv zeta. set (lt1 := set_nbytes 0 (set_pos 0 _)).
  destruct (complete_head _ _ _ _ _ Hc) as (blk & Hget & Hown & Hlast & Hnb).
  pose proof (zget_bounds _ _ _ Hget) as Hb0. rewrite <- (wp_first _ _ _ _ Hw) in *.
  change (firstBlockNumber lt1) with (firstBlockNumber lt).
  destruct (Z.eqb_spec (firstBlockNumber lt) (-1)); [lia|].
  change (curBlockNumber lt1) with (firstBlockNumber lt). unfold ltsReadBlock, buffile_read.
  destruct (Z.ltb_spec (firstBlockNumber lt) 0); [lia|]. rewrite Hget, rbind_ret.
  eexists _, _. split; [reflexivity|]. exists (wblocks lt cs). split; [exact Hp1|]. split; [|done].
  do 3 (split; [done|]). do 3 (split; [done|]).
  exists cs, (curBlockNumber lt), (b_data buf), (pos lt). split; [done|]. split; [done|].
  split; [exact (wp_first _ _ _ _ Hw)|]. split; [done|]. right. exists 0, blk.
  split; [done|]. split; [exact Hget|]. split; [exact Hown|]. cbn [pos set_buffer set_nbytes set_nextBlockNumber].
  split; [done|]. split; [apply zlen_nonneg|].
  change (nbytes (set_buffer _ _)) with (TapeBlockGetNBytes blk).
  change (nextBlockNumber (set_buffer _ _)) with (if TapeBlockIsLast blk then -1 else b_next blk).
  pose proof (wp_pos _ _ _ _ Hw). rewrite Hnb, Hlast.
  destruct (TapeBlockIsLast blk); cbn [negb]; (split; [change (pos lt1) with 0; done || lia|]);
    [left; done|done].
Qed.
