(* ===== verification/LogTapeRead.v ===== *)
(** * Reading a tape

    Reading a tape that is not frozen: the read buffer is filled with as many
    blocks as fit, and each block read is given back to the pool at once. *)

From Stdlib Require Import ZArith Lia.
From stdpp Require Import base list sorting strings.
From S2P Require Import Prelude HeapTheory LogTapeBlocks LogTapeFree LogTapeRep LogTapeWrite.

Local Open Scope Z_scope.

Lemma ltsReadBlock_ok lts b blk : zget (pfile lts) b = Some blk -> ltsReadBlock lts b = Ok blk.
Proof.
  intros H. pose proof (zget_bounds _ _ _ H). unfold ltsReadBlock, buffile_read. rewrite H.
  by destruct (Z.ltb_spec b 0); [lia|].
Qed.

(** Filling the buffer changes these fields only. *)
Definition filled (lt lt' : LogicalTape) : Prop :=
  exists c x n, lt' = set_nextBlockNumber x (set_nbytes n (set_curBlockNumber c lt)).

Lemma filled_refl lt : filled lt lt.
Proof. exists (curBlockNumber lt), (nextBlockNumber lt), (nbytes lt). by destruct lt. Qed.

Lemma filled_trans l1 l2 l3 : filled l1 l2 -> filled l2 l3 -> filled l1 l3.
Proof. intros (c & x & n & ->) (c' & x' & n' & ->). by exists c', x', n'. Qed.

(** ** Filling the buffer *)

(** [nbytes] bytes are in the buffer, the blocks [own] on the file. *)
Definition pending (f : list Block) (lt : LogicalTape) (buf : Block) (own : list Z) (bytes : list Z) : Prop :=
  exists r, forward f (nextBlockNumber lt) own r /\ 0 <= nbytes lt <= zlen (b_data buf) /\
    bytes = ztake (nbytes lt) (b_data buf) ++ r.

Lemma ztake_app_ge_take {A} n (l l' : list A) m :
  0 <= n <= zlen l -> 0 <= m -> ztake (n + m) (ztake n l ++ l') = ztake n l ++ ztake m l'.
Proof.
  intros Hn Hm. rewrite ztake_app_r by (rewrite zlen_ztake by lia; lia).
  rewrite zlen_ztake by lia. do 2 f_equal. lia.
Qed.

Lemma fill_loop_ok fuel lts lt buf own bytes others :
  frozen lt = false -> offsetBlockNumber lt = 0 ->
  nbytes lt + BLCKSZ <= buffer_size lt -> (Z.to_nat (buffer_size lt - nbytes lt) < fuel)%nat ->
  pool_ok lts (own ++ others) -> pending (pfile lts) lt buf own bytes ->
  exists lts' lt' buf' own', fill_loop fuel lts lt buf = Ok (lts', lt', buf') /\
    pool_ok lts' (own' ++ others) /\ same_file lts lts' /\ pending (pfile lts) lt' buf' own' bytes /\
    filled lt lt' /\ nbytes lt <= nbytes lt' /\ (own <> [] -> nbytes lt < nbytes lt').
Proof.
  revert lts lt buf own. induction fuel as [|fuel IH]; intros lts lt buf own Hfr Ho Hsz Hf Hp
    (r & Hfw & Hnb & ->); [lia|].
  cbn [fill_loop]. cbv zeta. destruct own as [|b own].
  { destruct Hfw as [Hnx ->]. rewrite Hnx. cbn [Z.eqb Z.opp Pos.eqb]. exists lts, lt, buf, [].
    split; [done|]. split; [done|]. split; [done|]. split; [by exists []|]. split; [apply filled_refl|]. split; [lia|done]. }
  destruct Hfw as (Hnx & blk & rest & Hget & Hd & -> & Hif). pose proof (zget_bounds _ _ _ Hget) as Hb0.
  rewrite Ho, Hfr, Hnx. destruct (Z.eqb_spec b (-1)); [lia|].
  destruct (Z.gtb_spec (nbytes lt + BLCKSZ) (buffer_size lt)); [lia|]. cbn [negb].
  rewrite Z.add_0_r, (ltsReadBlock_ok _ _ _ Hget), rbind_ret.
  destruct (ltsReleaseBlock_ok lts (own ++ others) b Hp) as (l1 & -> & Hp1 & Hs1 & _). rewrite rbind_ret.
  set (buf1 := mk_block _ _ _). set (t1 := set_curBlockNumber b lt).
  change (nbytes t1) with (nbytes lt). set (t2 := set_nbytes _ t1).
  assert (Hgn : 0 < TapeBlockGetNBytes blk <= TapeBlockPayloadSize).
  { unfold TapeBlockGetNBytes in *. destruct (TapeBlockIsLast blk); [lia|]. done. }
  unfold payload_ok in Hd. assert (HB : BLCKSZ = 8192) by reflexivity.
  assert (Hd1 : zlen (b_data buf1) = nbytes lt + TapeBlockPayloadSize).
  { cbn [b_data buf1]. rewrite zlen_app, zlen_ztake by lia. lia. }
  assert (Hby : ztake (nbytes t2) (b_data buf1) ++ rest =
    ztake (nbytes lt) (b_data buf) ++ ztake (TapeBlockGetNBytes blk) (b_data blk) ++ rest).
  { change (nbytes t2) with (nbytes lt + TapeBlockGetNBytes blk). cbn [b_data buf1].
    by rewrite ztake_app_ge_take, <- app_assoc by lia. }
  change (nbytes t2) with (nbytes lt + TapeBlockGetNBytes blk) in *.
  destruct Hs1 as (Hs1 & Hs1').
  destruct (TapeBlockIsLast blk) eqn:Hlast.
  { destruct Hif as (-> & -> & _). eexists l1, _, buf1, []. split; [reflexivity|]. split; [done|].
    split; [by split|]. split; [|split; [by exists b, (-1), (nbytes lt + TapeBlockGetNBytes blk)|]].
    - exists []. split; [done|]. split; [cbn [nbytes set_nextBlockNumber t2 set_nbytes]; lia|]. by rewrite <- Hby.
    - cbn [nbytes set_nextBlockNumber t2 set_nbytes]. lia. }
  set (t3 := set_nextBlockNumber (b_next blk) t2).
  assert (Hpe : pending (pfile l1) t3 buf1 own
    (ztake (nbytes lt) (b_data buf) ++ ztake (TapeBlockGetNBytes blk) (b_data blk) ++ rest)).
  { exists rest. rewrite Hs1. split; [done|]. change (nbytes t3) with (nbytes lt + TapeBlockGetNBytes blk).
    split; [lia|done]. }
  assert (Hfd : filled lt t3) by (by exists b, (b_next blk), (nbytes lt + TapeBlockGetNBytes blk)).
  change (buffer_size t3) with (buffer_size lt). change (nbytes t3) with (nbytes lt + TapeBlockGetNBytes blk) in *.
  destruct (Z.gtb_spec (buffer_size lt - (nbytes lt + TapeBlockGetNBytes blk)) BLCKSZ) as [Hmore|Hfull].
  - destruct (IH l1 t3 buf1 own) as (l2 & t4 & buf2 & own2 & -> & Hp2 & Hs2 & Hpe2 & Hfd2 & Hle & _);
      try done; change (nbytes t3) with (nbytes lt + TapeBlockGetNBytes blk) in *;
      change (buffer_size t3) with (buffer_size lt); try lia.
    exists l2, t4, buf2, own2. split; [done|]. split; [done|].
    split; [apply same_file_trans with l1; [by split|done]|]. rewrite Hs1 in Hpe2. split; [done|].
    split; [by apply filled_trans with t3|]. lia.
  - eexists l1, t3, buf1, own. split; [reflexivity|]. split; [done|]. split; [by split|]. rewrite Hs1 in Hpe.
    split; [exact Hpe|]. split; [done|]. change (nbytes t3) with (nbytes lt + TapeBlockGetNBytes blk). lia.
Qed.

(** ** The read loop *)

(** The bytes between [pos] and [nbytes] of the buffer, then those on the
    file. *)
Definition reading (f : list Block) (lt : LogicalTape) (buf : Block) (own : list Z) (rest : list Z) : Prop :=
  exists r, forward f (nextBlockNumber lt) own r /\ 0 <= pos lt <= nbytes lt /\
    nbytes lt <= zlen (b_data buf) /\
    rest = ztake (nbytes lt - pos lt) (zdrop (pos lt) (b_data buf)) ++ r.

(** Everything else in the struct stays. *)
Definition repositioned (lt lt' : LogicalTape) : Prop :=
  exists p c x n, lt' = set_pos p (set_nextBlockNumber x (set_nbytes n (set_curBlockNumber c lt))).

Lemma repositioned_refl lt : repositioned lt lt.
Proof. exists (pos lt), (curBlockNumber lt), (nextBlockNumber lt), (nbytes lt). by destruct lt. Qed.

Lemma repositioned_trans l1 l2 l3 : repositioned l1 l2 -> repositioned l2 l3 -> repositioned l1 l3.
Proof. intros (p & c & x & n & ->) (p' & c' & x' & n' & ->). by exists p', c', x', n'. Qed.

Lemma repositioned_same_mode lt lt' : repositioned lt lt' -> same_mode lt lt'.
Proof. by intros (p & c & x & n & ->). Qed.

Lemma repositioned_prealloc lt lt' :
  repositioned lt lt' -> prealloc lt' = prealloc lt.
Proof. by intros (p & c & x & n & ->). Qed.

Lemma repositioned_held lt lt' : repositioned lt lt' -> held lt' = held lt.
Proof. by intros (p & c & x & n & ->). Qed.

Lemma ltsReadFillBuffer_ok lts lt buf own r others :
  frozen lt = false -> offsetBlockNumber lt = 0 -> BLCKSZ <= buffer_size lt ->
  pool_ok lts (own ++ others) -> forward (pfile lts) (nextBlockNumber lt) own r ->
  exists lts' lt' buf' own',
    ltsReadFillBuffer lts lt buf = Ok (lts', lt', buf', nbytes lt' >? 0) /\
    pool_ok lts' (own' ++ others) /\ same_file lts lts' /\ reading (pfile lts) lt' buf' own' r /\
    repositioned lt lt' /\ pos lt' = 0 /\ (r <> [] -> 0 < nbytes lt').
Proof.
  intros Hfr Ho Hsz Hp Hfw. unfold ltsReadFillBuffer. cbv zeta. set (t1 := set_nbytes 0 (set_pos 0 lt)).
  change (buffer_size t1) with (buffer_size lt). pose proof (zlen_nonneg (b_data buf)).
  assert (HB : 0 < BLCKSZ) by reflexivity.
  destruct (fill_loop_ok (S (Z.to_nat (buffer_size lt))) lts t1 buf own r others)
    as (l2 & t2 & buf2 & own2 & -> & Hp2 & Hs2 & (r2 & Hfw2 & Hnb2 & Heq) & (c & x & n & ->) & Hle & Hlt); try done.
  - change (buffer_size t1) with (buffer_size lt). change (nbytes t1) with 0. lia.
  - exists r. split; [done|]. change (nbytes t1) with 0. split; [lia|]. by rewrite ztake_nonpos by lia.
  - rewrite rbind_ret. eexists l2, _, buf2, own2. split; [reflexivity|]. split; [done|]. split; [done|].
    change (pos _) with 0. split; [|split; [by exists 0, c, x, n|split; [done|]]].
    + exists r2. change (pos _) with 0. split; [done|]. split; [lia|]. split; [lia|].
      rewrite Z.sub_0_r. exact Heq.
    + intros Hr. apply Hlt. intros ->. destruct Hfw as [_ ->]. done.
Qed.

Lemma reading_nil f lt buf own rest :
  reading f lt buf own rest -> nbytes lt <= pos lt -> forward f (nextBlockNumber lt) own rest.
Proof. intros (r & Hfw & Hpos & Hnb & ->) Hle. by rewrite ztake_nonpos by lia. Qed.

Lemma zdrop_zdrop {A} m n (l : list A) : 0 <= m -> 0 <= n -> zdrop n (zdrop m l) = zdrop (m + n) l.
Proof. unfold zdrop. intros. rewrite drop_drop. f_equal. lia. Qed.

Lemma zdrop_0 {A} (l : list A) : zdrop 0 l = l.
Proof. done. Qed.

Lemma zdrop_app_l {A} n (l l' : list A) : n <= zlen l -> zdrop n (l ++ l') = zdrop n l ++ l'.
Proof. unfold zlen, zdrop. intros. apply drop_app_le. lia. Qed.

Lemma zdrop_app_r {A} n (l l' : list A) : zlen l <= n -> zdrop n (l ++ l') = zdrop (n - zlen l) l'.
Proof. unfold zlen, zdrop. intros. rewrite drop_app_ge by lia. f_equal. lia. Qed.

Lemma zdrop_ztake {A} m n (l : list A) : 0 <= m -> zdrop m (ztake n l) = ztake (n - m) (zdrop m l).
Proof.
  intros Hm. apply zlist_eq. intros i Hi. rewrite zget_zdrop by lia.
  destruct (Z.lt_ge_cases (m + i) n).
  - rewrite !zget_ztake by lia. by rewrite zget_zdrop by lia.
  - by rewrite !zget_ztake_ge by lia.
Qed.

Lemma ztake_cut {A} m n (l : list A) : 0 <= m <= n -> ztake n l = ztake m l ++ ztake (n - m) (zdrop m l).
Proof.
  intros Hm. rewrite <- (ztake_zdrop m (ztake n l)). rewrite ztake_ztake by lia.
  by rewrite zdrop_ztake by lia.
Qed.

Lemma reading_advance f lt buf own rest n :
  reading f lt buf own rest -> 0 <= n <= nbytes lt - pos lt ->
  ztake n (zdrop (pos lt) (b_data buf)) = ztake n rest /\
  reading f (set_pos (pos lt + n) lt) buf own (zdrop n rest) /\ n <= zlen rest.
Proof.
  intros (r & Hfw & Hpos & Hnb & ->) Hn.
  assert (Hl : zlen (ztake (nbytes lt - pos lt) (zdrop (pos lt) (b_data buf))) = nbytes lt - pos lt).
  { apply zlen_ztake. rewrite zlen_zdrop by lia. lia. }
  split; [|split].
  - rewrite ztake_app_l by lia. by rewrite ztake_ztake by lia.
  - exists r. cbn [nextBlockNumber pos nbytes set_pos]. split; [done|]. split; [lia|]. split; [lia|].
    rewrite zdrop_app_l by lia. rewrite zdrop_ztake by lia. rewrite zdrop_zdrop by lia. do 2 f_equal. lia.
  - rewrite zlen_app. pose proof (zlen_nonneg r). lia.
Qed.

Lemma read_loop_ok fuel lts lt buf own rest size out others :
  frozen lt = false -> offsetBlockNumber lt = 0 -> BLCKSZ <= buffer_size lt -> (Z.to_nat size < fuel)%nat ->
  pool_ok lts (own ++ others) -> reading (pfile lts) lt buf own rest ->
  exists lts' lt' buf' own', read_loop fuel lts lt buf size out = Ok (lts', lt', buf', out ++ ztake size rest) /\
    pool_ok lts' (own' ++ others) /\ same_file lts lts' /\ reading (pfile lts) lt' buf' own' (zdrop size rest) /\
    repositioned lt lt'.
Proof.
  revert lts lt buf own rest size out.
  induction fuel as [|fuel IH]; intros lts lt buf own rest size out Hfr Ho Hsz Hf Hp Hr; [lia|].
  cbn [read_loop]. destruct (Z.gtb_spec size 0) as [Hpos|Hneg].
  2:{ exists lts, lt, buf, own. rewrite ztake_nonpos, app_nil_r by lia.
      replace (zdrop size rest) with rest by (unfold zdrop; by replace (Z.to_nat size) with 0%nat by lia).
      split; [done|]. do 3 (split; [done|]). apply repositioned_refl. }
  assert (Hfill : exists l1 t1 b1 own1 more,
    (if pos lt >=? nbytes lt then ltsReadFillBuffer lts lt buf else Ok (lts, lt, buf, true)) = Ok (l1, t1, b1, more) /\
    pool_ok l1 (own1 ++ others) /\ same_file lts l1 /\ reading (pfile lts) t1 b1 own1 rest /\ repositioned lt t1 /\
    if more then pos t1 < nbytes t1 else rest = []).
  { rewrite Z.geb_leb. destruct (Z.leb_spec (nbytes lt) (pos lt)) as [He|Hne].
    2:{ exists lts, lt, buf, own, true. do 4 (split; [done|]). split; [apply repositioned_refl|done]. }
    destruct (ltsReadFillBuffer_ok lts lt buf own rest others) as (l1 & t1 & b1 & own1 & -> & Hp1 & Hs1 & Hr1 & Hm1 & Hz & Hn1);
      try done; [by apply (reading_nil _ lt buf)|].
    eexists l1, t1, b1, own1, _. split; [done|]. do 4 (split; [done|]).
    destruct (Z.gtb_spec (nbytes t1) 0); [lia|]. destruct rest; [done|]. exfalso.
    assert (0 < nbytes t1) by (by apply Hn1). lia. }
  destruct Hfill as (l1 & t1 & b1 & own1 & more & -> & Hp1 & Hs1 & Hr1 & Hm1 & Hmore). rewrite rbind_ret.
  destruct more; cbn [negb].
  2:{ subst rest. eexists l1, t1, b1, own1.
      assert (ztake size [] = @nil Z) as -> by (unfold ztake; by rewrite take_nil).
      assert (zdrop size [] = @nil Z) as -> by (unfold zdrop; by rewrite drop_nil).
      rewrite app_nil_r. by split. }
  cbv zeta. set (n := Z.min _ _). pose proof Hs1 as (Hf1 & _).
  destruct (reading_advance _ _ _ _ _ n Hr1) as (-> & Hr2 & Hnl); [lia|].
  pose proof (repositioned_same_mode _ _ Hm1) as (_ & Hfr1 & Ho1 & _ & Hsz1).
  destruct (IH l1 (set_pos (pos t1 + n) t1) b1 own1 (zdrop n rest) (size - n) (out ++ ztake n rest))
    as (l3 & t3 & b3 & own3 & -> & Hp3 & Hs3 & Hr3 & Hm3); [cbn; congruence|cbn; congruence| |lia|done| |].
  { change (BLCKSZ <= buffer_size t1). by rewrite Hsz1. }
  { by rewrite Hf1. }
  rewrite Hf1 in Hr3. exists l3, t3, b3, own3.
  split; [|split; [done|split; [by apply same_file_trans with l1|split]]].
  - rewrite <- app_assoc. by rewrite <- (ztake_cut n size) by lia.
  - rewrite zdrop_zdrop in Hr3 by lia. by replace (n + (size - n)) with size in Hr3 by lia.
  - apply repositioned_trans with t1; [done|]. apply repositioned_trans with (set_pos (pos t1 + n) t1); [|done].
    exists (pos t1 + n), (curBlockNumber t1), (nextBlockNumber t1), (nbytes t1). by destruct t1.
Qed.

(** ** Reading *)

Lemma get_buffer_reading_ok junk lts lt rest own others :
  pool_ok lts (held lt ++ own ++ others) -> tape_rep (pfile lts) lt (AReading rest) own ->
  exists lts' lt' buf own', get_buffer junk lts lt = Ok (lts', lt', buf) /\
    pool_ok lts' (own' ++ others) /\ same_file lts lts' /\ reading (pfile lts) lt' buf own' rest /\
    same_mode lt lt' /\ prealloc lt' = None.
Proof.
  intros Hp (Ho & Hmx & Hpre & Hwr & Hfr & Hnp & Hsz & H). unfold held in Hp. rewrite Hnp in Hp.
  unfold get_buffer. destruct H as [[Hbuf Hfw] | (buf & r & Hbuf & Hpos & Hnb & Hfw & ->)]; rewrite Hbuf.
  - unfold ltsInitReadBuffer. cbv zeta. assert (HB : 0 < BLCKSZ) by reflexivity.
    destruct (Z.leb_spec (buffer_size lt) 0); [lia|].
    destruct (ltsReadFillBuffer_ok lts (set_nextBlockNumber (firstBlockNumber lt) lt) (palloc_block junk)
      own rest others) as (l1 & t1 & b1 & own1 & -> & Hp1 & Hs1 & Hr1 & Hm1 & _); try done.
    rewrite rbind_ret. exists l1, t1, b1, own1. split; [done|]. do 3 (split; [done|]).
    pose proof (repositioned_prealloc _ _ Hm1) as Hn1. split; [exact (repositioned_same_mode _ _ Hm1)|].
    rewrite Hn1. exact Hnp.
  - exists lts, lt, buf, own. split; [done|]. split; [done|]. split; [done|]. split; [by exists r|]. by split.
Qed.

Lemma reading_rep f lt lt' buf own rest :
  offsetBlockNumber lt = 0 -> max_size lt = MaxAllocSize -> writing lt = false -> frozen lt = false ->
  BLCKSZ <= buffer_size lt -> same_mode lt lt' -> prealloc lt' = None -> reading f lt' buf own rest ->
  tape_rep f (set_buffer (Some buf) lt') (AReading rest) own.
Proof.
  intros Ho Hmx Hwr Hfr Hsz (M1 & M2 & M3 & M4 & M5) Hnp (r & Hfw & Hpos & Hnb & ->).
  split; [cbn; congruence|]. split; [cbn; congruence|].
  split; [unfold prealloc_ok; cbn [prealloc set_buffer]; by rewrite Hnp|].
  split; [cbn; congruence|]. split; [cbn; congruence|]. split; [done|].
  split; [change (BLCKSZ <= buffer_size lt'); by rewrite M5|]. right. by exists buf, r.
Qed.

Lemma tape_read_reading_ok junk lts lt rest own size others :
  pool_ok lts (held lt ++ own ++ others) -> tape_rep (pfile lts) lt (AReading rest) own ->
  exists lts' lt', tape_read junk lts lt size = Ok (lts', lt', ztake size rest) /\
    tape_done lts lts' lt' (AReading (zdrop size rest)) others.
Proof.
  intros Hp Hrep. pose proof Hrep as (Ho & Hmx & Hpre & Hwr & Hfr & Hnp & Hsz & _).
  unfold tape_read. rewrite Hwr.
  destruct (get_buffer_reading_ok junk lts lt rest own others Hp Hrep)
    as (l1 & t1 & b1 & own1 & -> & Hp1 & Hs1 & Hr1 & Hm1 & Hn1).
  rewrite rbind_ret. pose proof Hs1 as (Hf1 & _). pose proof Hm1 as (M1 & M2 & M3 & M4 & M5).
  destruct (read_loop_ok (S (Z.to_nat size)) l1 t1 b1 own1 rest size [] others)
    as (l2 & t2 & b2 & own2 & -> & Hp2 & Hs2 & Hr2 & Hm2); [congruence|congruence|by rewrite M5|lia|done|by rewrite Hf1|].
  rewrite rbind_ret. eexists _, _. split; [reflexivity|]. exists own2.
  pose proof (repositioned_prealloc _ _ Hm2) as Hn2.
  assert (Hs : same_file lts l2) by (by apply same_file_trans with l1). pose proof Hs as (Hf2 & _).
  split; [|split; [|by apply kept_same_file]].
  - unfold held. cbn [prealloc set_buffer]. rewrite Hn2, Hn1. exact Hp2.
  - apply (reading_rep _ lt); try done; [|congruence|by rewrite Hf2, <- Hf1].
    apply (same_mode_trans _ t1); [done|by apply repositioned_same_mode].
Qed.
