(* ===== verification/LogTapeFrozen.v ===== *)
(** * Frozen tapes

    A frozen tape keeps its blocks and can be read from any position: reading,
    moving back and seeking to a position told before. *)

From Stdlib Require Import ZArith Lia.
From stdpp Require Import base list sorting strings.
From S2P Require Import Prelude HeapTheory LogTapeBlocks LogTapeFree LogTapeRep LogTapeWrite LogTapeRead.

Local Open Scope Z_scope.

Local Abbreviation PS := TapeBlockPayloadSize.

Lemma PS_pos : 0 < PS.
Proof. reflexivity. Qed.

(** ** The blocks of a complete tape by index *)

Lemma stretch_zlen f p cs nx : stretch f p cs nx -> zlen (stretch_bytes cs) = zlen cs * PS.
Proof.
  revert p. induction cs as [|[b d] cs IH]; intros p Hs; [done|]. destruct Hs as (_ & Hd & Hs).
  change (stretch_bytes ((b, d) :: cs)) with (d ++ stretch_bytes cs). rewrite zlen_app, (IH _ Hs), Hd.
  unfold zlen. cbn [length]. lia.
Qed.

Lemma own_head (cs : list (Z * list Z)) b : zget ((fst <$> cs) ++ [b]) 0 = Some (head_of cs b).
Proof. by destruct cs as [|[c e] cs]. Qed.

(** What block [c], the [i]-th of the tape, holds. *)
Record nth_block (own : list Z) (last n i : Z) (blk : Block) (bs : list Z) : Prop := {
  nb_data : payload_ok (b_data blk);
  nb_prev : if i =? 0 then b_prev blk = -1 else zget own (i - 1) = Some (b_prev blk);
  nb_next : if i <? last then zget own (i + 1) = Some (b_next blk) /\ 0 <= b_next blk else b_next blk = - n;
  nb_bytes : zdrop (i * PS) bs = ztake (if i <? last then PS else n) (b_data blk) ++ zdrop ((i + 1) * PS) bs
}.

Lemma prev_of_chain (cs : list (Z * list Z)) (xs : list Z) :
  if zlen cs =? 0 then last_of (-1) cs = -1
  else zget ((fst <$> cs) ++ xs) (zlen cs - 1) = Some (last_of (-1) cs).
Proof.
  destruct cs as [|[c d] cs _] using rev_ind; [done|].
  rewrite zlen_app. pose proof (zlen_nonneg cs). change (zlen [(c, d)]) with 1.
  destruct (Z.eqb_spec (zlen cs + 1) 0); [lia|]. rewrite last_of_snoc, fmap_app, <- app_assoc.
  replace (zlen cs + 1 - 1) with (zlen (fst <$> cs)) by (rewrite zlen_fmap; lia). apply zget_middle.
Qed.

Lemma complete_nth f cs b d n i c :
  complete f cs b d n -> zget ((fst <$> cs) ++ [b]) i = Some c ->
  exists blk, zget f c = Some blk /\
    nth_block ((fst <$> cs) ++ [b]) (zlen cs) n i blk (stretch_bytes cs ++ ztake n d).
Proof.
  intros (Hs & Hb & Hd & Hn) Hi. pose proof (zget_bounds _ _ _ Hi) as Hib. rewrite zlen_app, zlen_fmap in Hib.
  change (zlen [b]) with 1 in Hib. pose proof PS_pos. unfold payload_ok in Hd.
  destruct (Z.lt_ge_cases i (zlen cs)) as [Hlt|Hge].
  - rewrite zget_app_l in Hi by (by rewrite zlen_fmap). rewrite zget_fmap in Hi.
    destruct (zget cs i) as [[c' e]|] eqn:Hc; [|done]. cbn in Hi. injection Hi as ->.
    destruct (zget_split _ _ _ Hc) as (cs1 & cs2 & -> & <-). apply stretch_app in Hs as (Hs1 & Hs2).
    destruct Hs2 as (Hblk & He & Hs2). eexists. split; [exact Hblk|].
    assert (Hnx : 0 <= head_of cs2 b).
    { destruct cs2 as [|[c2 e2] cs2]; cbn; [pose proof (zget_bounds _ _ _ Hb); lia|].
      destruct Hs2 as (Hc2 & _). pose proof (zget_bounds _ _ _ Hc2). lia. }
    apply Z.ltb_lt in Hlt. split; cbn [b_data b_prev b_next]; rewrite ?Hlt.
    + exact He.
    + rewrite fmap_app, <- app_assoc. apply prev_of_chain.
    + split; [|done]. rewrite fmap_app, <- app_assoc. cbn [fmap list_fmap fst app].
      rewrite zget_app_r by (rewrite zlen_fmap; lia). rewrite zlen_fmap.
      replace (zlen cs1 + 1 - zlen cs1) with 1 by lia. by destruct cs2 as [|[c2 e2] cs2].
    + unfold stretch_bytes. rewrite fmap_app, concat_app. cbn [fmap list_fmap snd concat].
      fold (stretch_bytes cs1) (stretch_bytes cs2). rewrite <- !app_assoc.
      pose proof (stretch_zlen _ _ _ _ Hs1) as Hl1. unfold payload_ok in He.
      rewrite (zdrop_app_r (zlen cs1 * PS)) by lia. rewrite (zdrop_app_r ((zlen cs1 + 1) * PS)) by lia.
      rewrite Hl1. replace (zlen cs1 * PS - zlen cs1 * PS) with 0 by lia.
      rewrite zdrop_0, zdrop_app_r by lia. rewrite (ztake_all PS e) by lia.
      replace ((zlen cs1 + 1) * PS - zlen cs1 * PS - zlen e) with 0 by lia. by rewrite zdrop_0.
  - assert (i = zlen cs) as -> by lia. replace (zlen cs) with (zlen (fst <$> cs)) in Hi by apply zlen_fmap.
    rewrite zget_middle in Hi. injection Hi as <-. eexists. split; [exact Hb|].
    split; cbn [b_data b_prev b_next]; rewrite ?Z.ltb_irrefl; [done|apply prev_of_chain|done|].
    pose proof (stretch_zlen _ _ _ _ Hs) as Hl.
    rewrite !zdrop_app_r by lia. rewrite Hl, Z.sub_diag, zdrop_0.
    rewrite <- (app_nil_r (ztake n d)) at 1. f_equal. unfold zdrop. symmetry. apply drop_ge.
    assert (zlen (ztake n d) = n) by (apply zlen_ztake; lia). unfold zlen in *. lia.
Qed.

(** ** The block in the buffer *)

Section frozen.
Context (f : list Block) (cs : list (Z * list Z)) (b : Z) (d : list Z) (n : Z).
Context (Hc : complete f cs b d n).

Local Abbreviation own := ((fst <$> cs) ++ [b]).
Local Abbreviation bs := (stretch_bytes cs ++ ztake n d).
Local Abbreviation at_ lt := (frozen_at f lt (zlen cs) n own bs).

Lemma frozen_zlen : zlen bs = zlen cs * PS + n.
Proof.
  destruct Hc as (Hs & _ & Hd & Hn). unfold payload_ok in Hd.
  rewrite zlen_app, (stretch_zlen _ _ _ _ Hs), zlen_ztake; lia.
Qed.

Lemma frozen_nth lt i buf p : at_ lt i buf p -> nth_block own (zlen cs) n i buf bs /\ 0 <= i <= zlen cs.
Proof.
  intros (Hcur & Hi & _). destruct (complete_nth f cs b d n i _ Hc Hi) as (blk & Hblk & Hnth).
  rewrite Hcur in Hblk. injection Hblk as <-. split; [done|]. pose proof (zget_bounds _ _ _ Hi) as Hb.
  rewrite zlen_app, zlen_fmap in Hb. change (zlen [b]) with 1 in Hb. lia.
Qed.

Lemma frozen_pos lt i buf p : at_ lt i buf p -> pos lt <= if i <? zlen cs then PS else n.
Proof.
  intros H. destruct (frozen_nth _ _ _ _ H) as [_ Hi]. destruct H as (_ & _ & Hp & Hle & Hpos & H).
  rewrite frozen_zlen in Hle. destruct (Z.ltb_spec i (zlen cs)); [lia|]. assert (i = zlen cs) as -> by lia. lia.
Qed.

(** The bytes that follow in the buffer are those that follow on the tape. *)
Lemma frozen_bytes lt i buf p m :
  at_ lt i buf p -> 0 <= m -> pos lt + m <= (if i <? zlen cs then PS else n) ->
  ztake m (zdrop p bs) = ztake m (zdrop (pos lt) (b_data buf)).
Proof.
  intros H Hm Hle. destruct (frozen_nth _ _ _ _ H) as [[Hd _ _ Hby] Hi]. destruct H as (_ & _ & -> & _ & Hpos & _).
  pose proof PS_pos. destruct Hc as (_ & _ & _ & Hn). unfold payload_ok in Hd.
  set (L := if i <? zlen cs then PS else n) in *. assert (HL : 0 <= L <= PS).
  { subst L. destruct (i <? zlen cs); lia. }
  rewrite <- zdrop_zdrop by lia. rewrite Hby.
  rewrite zdrop_app_l by (rewrite zlen_ztake; lia). rewrite zdrop_ztake by lia.
  rewrite ztake_app_l by (rewrite zlen_ztake; rewrite ?zlen_zdrop; lia). by rewrite ztake_ztake by lia.
Qed.

Lemma frozen_move lt i buf p m :
  at_ lt i buf p -> 0 <= pos lt + m <= (if i <? zlen cs then PS else n) ->
  at_ (set_pos (pos lt + m) lt) i buf (p + m).
Proof.
  intros H Hm. destruct (frozen_nth _ _ _ _ H) as [_ Hi]. destruct H as (Hcur & Hi' & -> & Hle & Hpos & H).
  destruct Hc as (_ & _ & _ & Hn). rewrite frozen_zlen in *. unfold frozen_at. cbn [pos nbytes curBlockNumber nextBlockNumber set_pos].
  split; [done|]. split; [done|]. split; [lia|]. rewrite frozen_zlen. pose proof PS_pos.
  destruct (Z.ltb_spec i (zlen cs)).
  - split; [nia|]. split; [lia|done].
  - assert (i = zlen cs) as -> by lia. split; [lia|]. split; [lia|done].
Qed.

Lemma nth_block_last i blk :
  nth_block own (zlen cs) n i blk bs -> TapeBlockIsLast blk = negb (i <? zlen cs).
Proof.
  intros [_ _ Hnx _]. destruct Hc as (_ & _ & _ & Hn). unfold TapeBlockIsLast.
  destruct (i <? zlen cs); cbn [negb]; [apply Z.ltb_ge|apply Z.ltb_lt]; lia.
Qed.

(** The next block is read into the buffer. *)
Lemma fill_frozen lts lt buf i c :
  pfile lts = f -> frozen lt = true -> offsetBlockNumber lt = 0 -> buffer_size lt = BLCKSZ ->
  zget own i = Some c -> nextBlockNumber lt = c ->
  exists lt' buf', ltsReadFillBuffer lts lt buf = Ok (lts, lt', buf', true) /\ repositioned lt lt' /\
    at_ lt' i buf' (i * PS) /\ pos lt' = 0.
Proof.
  intros Hf Hfr Ho Hsz Hi Hnx. destruct (complete_nth f cs b d n i c Hc Hi) as (blk & Hblk & Hnth).
  pose proof (zget_bounds _ _ _ Hblk) as Hc0. unfold ltsReadFillBuffer. cbv zeta.
  cbn [fill_loop]. cbv zeta. change (nextBlockNumber (set_nbytes _ _)) with (nextBlockNumber lt).
  change (buffer_size (set_nbytes _ _)) with (buffer_size lt). change (nbytes (set_nbytes _ _)) with 0.
  change (offsetBlockNumber (set_nbytes _ _)) with (offsetBlockNumber lt).
  change (frozen (set_nbytes _ _)) with (frozen lt). rewrite Ho, Hfr, Hnx, Hsz, Z.add_0_r.
  destruct (Z.eqb_spec c (-1)); [lia|]. change (0 + BLCKSZ >? BLCKSZ) with false. cbv iota. cbn [negb].
  rewrite (ltsReadBlock_ok lts c blk) by (by rewrite Hf). rewrite !rbind_ret.
  rewrite ztake_nonpos by lia. cbn [app].
  replace (mk_block (b_data blk) (b_prev blk) (b_next blk)) with blk by (by destruct blk).
  pose proof (nth_block_last _ _ Hnth) as Hlast. pose proof Hnth as [_ _ Hnext _].
  pose proof (zget_bounds _ _ _ Hi) as Hib. rewrite zlen_app, zlen_fmap in Hib. change (zlen [b]) with 1 in Hib.
  destruct Hc as (_ & _ & _ & Hn). pose proof PS_pos. unfold TapeBlockGetNBytes.
  rewrite Hlast. destruct (Z.ltb_spec i (zlen cs)) as [Hlt|Hge]; cbn [negb].
  - cbn [nbytes buffer_size set_nextBlockNumber set_nbytes set_curBlockNumber set_pos]. rewrite Hsz.
    change (BLCKSZ - (0 + PS) >? BLCKSZ) with false. cbv iota. rewrite rbind_ret.
    eexists _, blk. split; [reflexivity|]. split; [by exists 0, c, (b_next blk), PS|]. split; [|done].
    unfold frozen_at. cbn [curBlockNumber pos nbytes nextBlockNumber set_nextBlockNumber set_nbytes set_curBlockNumber set_pos].
    rewrite frozen_zlen. do 2 (split; [done|]). split; [lia|]. split; [nia|]. split; [lia|].
    by destruct (Z.ltb_spec i (zlen cs)); [|lia].
  - rewrite rbind_ret. rewrite Hnext.
    cbn [nbytes set_nextBlockNumber set_nbytes set_curBlockNumber set_pos].
    assert ((0 + - - n >? 0) = true) as -> by (apply Z.gtb_lt; lia).
    eexists _, blk. split; [reflexivity|]. split; [by exists 0, c, (-1), (0 + - - n)|]. split; [|done].
    unfold frozen_at. cbn [curBlockNumber pos nbytes nextBlockNumber set_nextBlockNumber set_nbytes set_curBlockNumber set_pos].
    rewrite frozen_zlen. assert (i = zlen cs) as -> by lia. do 2 (split; [done|]). split; [lia|]. split; [lia|].
    split; [lia|]. destruct (Z.ltb_spec (zlen cs) (zlen cs)); [lia|]. left. split; [lia|done].
Qed.

Lemma read_loop_frozen fuel lts lt buf i p size out :
  pfile lts = f -> frozen lt = true -> offsetBlockNumber lt = 0 -> buffer_size lt = BLCKSZ ->
  (Z.to_nat size < fuel)%nat -> at_ lt i buf p -> 0 <= size -> p + size <= zlen bs ->
  exists lt' buf' i', read_loop fuel lts lt buf size out = Ok (lts, lt', buf', out ++ ztake size (zdrop p bs)) /\
    repositioned lt lt' /\ at_ lt' i' buf' (p + size).
Proof.
  revert lt buf i p size out. induction fuel as [|fuel IH]; intros lt buf i p size out Hf Hfr Ho Hsz Hfu Hat H0 Hle; [lia|].
  cbn [read_loop]. destruct (Z.gtb_spec size 0) as [Hpos|Hz].
  2:{ assert (size = 0) as -> by lia. exists lt, buf, i. rewrite ztake_nonpos, app_nil_r, Z.add_0_r by lia.
      split; [done|]. split; [apply repositioned_refl|done]. }
  assert (Hfill : exists t1 b1 i1,
    (if pos lt >=? nbytes lt then ltsReadFillBuffer lts lt buf else Ok (lts, lt, buf, true)) = Ok (lts, t1, b1, true) /\
    repositioned lt t1 /\ at_ t1 i1 b1 p /\ pos t1 < nbytes t1).
  { destruct (frozen_nth _ _ _ _ Hat) as [Hnth Hi]. pose proof PS_pos. destruct Hc as (_ & _ & _ & Hn).
    rewrite Z.geb_leb. destruct (Z.leb_spec (nbytes lt) (pos lt)) as [He|Hne].
    2:{ exists lt, buf, i. split; [done|]. split; [apply repositioned_refl|]. by split. }
    rewrite frozen_zlen in Hle. pose proof Hat as (_ & _ & Hp & Hp' & Hpo & Hcase). rewrite frozen_zlen in Hp'.
    destruct Hnth as [_ _ Hnext _]. destruct (Z.ltb_spec i (zlen cs)) as [Hlt|Hge].
    2:{ exfalso. assert (i = zlen cs) as -> by lia. lia. }
    destruct Hcase as (Hnb & Hnx). destruct Hnext as (Hown & _). rewrite <- Hnx in Hown.
    destruct (fill_frozen lts lt buf (i + 1) (nextBlockNumber lt) Hf Hfr Ho Hsz Hown eq_refl)
      as (t1 & b1 & -> & Hm & Hat1 & Hp1).
    exists t1, b1, (i + 1). split; [done|]. split; [done|]. assert (p = (i + 1) * PS) as -> by lia.
    split; [done|]. pose proof (frozen_pos _ _ _ _ Hat1). destruct Hat1 as (_ & _ & _ & _ & _ & Hcase).
    destruct (i + 1 <? zlen cs); lia. }
  destruct Hfill as (t1 & b1 & i1 & -> & Hm1 & Hat1 & Hlt1). rewrite rbind_ret. cbn [negb]. cbv zeta.
  set (m := Z.min _ _). pose proof (repositioned_same_mode _ _ Hm1) as (_ & M2 & M3 & _ & M5).
  assert (Hroom : pos t1 + m <= if i1 <? zlen cs then PS else n).
  { pose proof (frozen_nth _ _ _ _ Hat1) as [_ Hi]. rewrite frozen_zlen in Hle.
    pose proof Hat1 as (_ & _ & Hp & _ & _ & Hcase). destruct (Z.ltb_spec i1 (zlen cs)); [lia|].
    assert (i1 = zlen cs) as -> by lia. lia. }
  rewrite <- (frozen_bytes _ _ _ _ m Hat1) by lia.
  pose proof Hat1 as (_ & _ & _ & _ & Hpo & _).
  destruct (IH (set_pos (pos t1 + m) t1) b1 i1 (p + m) (size - m) (out ++ ztake m (zdrop p bs)))
    as (t2 & b2 & i2 & -> & Hm2 & Hat2); [done|cbn; congruence|cbn; congruence|cbn; congruence|lia| |lia|lia|].
  { apply frozen_move; [done|lia]. }
  exists t2, b2, i2. split; [|split].
  - rewrite <- app_assoc. pose proof Hat as (_ & _ & Hp & _ & Hpl & _).
    pose proof (frozen_nth _ _ _ _ Hat) as [_ Hi]. pose proof PS_pos.
    rewrite <- zdrop_zdrop by nia. by rewrite <- (ztake_cut m size) by lia.
  - apply repositioned_trans with t1; [done|]. apply repositioned_trans with (set_pos (pos t1 + m) t1); [|done].
    exists (pos t1 + m), (curBlockNumber t1), (nextBlockNumber t1), (nbytes t1). by destruct t1.
  - by replace (p + m + (size - m)) with (p + size) in Hat2 by lia.
Qed.

(** Moving back: block [i] is in the buffer, [seekpos] bytes before the old
    position. *)
Lemma backspace_loop_frozen fuel lts lt buf i size seekpos :
  pfile lts = f -> firstBlockNumber lt = head_of cs b -> (Z.to_nat i < fuel)%nat ->
  at_ (set_pos 0 lt) i buf (i * PS) -> 0 <= size -> 0 <= seekpos ->
  seekpos - size <= (if i <? zlen cs then PS else n) ->
  exists lt' buf' i', backspace_loop fuel lts lt buf size seekpos = Ok (lt', buf', Z.min size (i * PS + seekpos)) /\
    repositioned lt lt' /\ at_ lt' i' buf' (i * PS + seekpos - Z.min size (i * PS + seekpos)).
Proof.
  revert lt buf i seekpos. induction fuel as [|fuel IH]; intros lt buf i seekpos Hf Hfi Hfu Hat H0 Hs0 Hroom; [lia|].
  pose proof PS_pos. destruct (frozen_nth _ _ _ _ Hat) as [Hnth Hi]. cbn [backspace_loop].
  assert (Hmove : forall q, repositioned lt (set_pos q lt)).
  { intros q. exists q, (curBlockNumber lt), (nextBlockNumber lt), (nbytes lt). by destruct lt. }
  destruct (Z.gtb_spec size seekpos) as [Hgt|Hle].
  2:{ rewrite Z.min_l by nia. eexists _, buf, i. split; [reflexivity|]. split; [apply Hmove|].
      replace (i * PS + seekpos - size) with (i * PS + (seekpos - size)) by lia.
      apply (frozen_move _ _ _ _ (seekpos - size) Hat). cbn [pos set_pos]. lia. }
  destruct Hnth as [_ Hprev _ _]. cbv zeta. destruct (Z.eqb_spec i 0) as [->|Hne].
  - rewrite Hprev. cbn [Z.eqb Z.opp Pos.eqb]. pose proof Hat as (_ & Hown & _).
    assert (Hcur : curBlockNumber lt = firstBlockNumber lt).
    { rewrite own_head in Hown. injection Hown as Hown. by rewrite Hfi. }
    rewrite Hcur, Z.eqb_refl. cbn [negb]. rewrite Z.mul_0_l, Z.add_0_l, Z.min_r by lia.
    eexists _, buf, 0. split; [reflexivity|]. split; [apply Hmove|]. by rewrite Z.sub_diag.
  - destruct (complete_nth f cs b d n (i - 1) _ Hc Hprev) as (blk & Hblk & Hnth').
    pose proof (zget_bounds _ _ _ Hblk). destruct (Z.eqb_spec (b_prev buf) (-1)); [lia|].
    rewrite (ltsReadBlock_ok lts _ blk) by (by rewrite Hf). rewrite rbind_ret.
    pose proof (nb_next _ _ _ _ _ _ Hnth') as Hnext. destruct (Z.ltb_spec (i - 1) (zlen cs)) as [Hlt|]; [|lia].
    destruct Hnext as (Hnext & _). replace (i - 1 + 1) with i in Hnext by lia.
    pose proof Hat as (_ & Hown & _). rewrite Hown in Hnext. injection Hnext as Hnext.
    change (curBlockNumber (set_pos 0 lt)) with (curBlockNumber lt) in Hnext. rewrite <- Hnext, Z.eqb_refl. cbn [negb].
    set (t1 := set_nextBlockNumber _ _).
    destruct (IH t1 blk (i - 1) (seekpos + PS)) as (t2 & b2 & i2 & -> & Hm & Hat2); try done; try lia.
    + unfold frozen_at. subst t1. cbn [curBlockNumber pos nbytes nextBlockNumber set_pos set_nextBlockNumber set_nbytes set_curBlockNumber].
      rewrite frozen_zlen. destruct Hc as (_ & _ & _ & Hn). do 2 (split; [done|]). split; [lia|]. split; [nia|].
      split; [lia|]. by destruct (Z.ltb_spec (i - 1) (zlen cs)); [|lia].
    + destruct (Z.ltb_spec (i - 1) (zlen cs)); lia.
    + exists t2, b2, i2. replace ((i - 1) * PS + (seekpos + PS)) with (i * PS + seekpos) in * by lia.
      split; [done|]. split; [|done]. apply repositioned_trans with t1; [|done].
      exists (pos lt), (b_prev buf), (nextBlockNumber t1), PS. subst t1. by destruct lt.
Qed.

(** A block of the tape holds no more blocks than the file. *)
Lemma frozen_blocks_written : NoDup own -> zlen own <= zlen f.
Proof.
  intros Hnd. assert (Hsub : own ⊆+ seqZ 0 (zlen f)).
  { apply NoDup_submseteq; [done|]. intros x Hx. apply elem_zget in Hx as (i & Hi & _).
    destruct (complete_nth f cs b d n i x Hc Hi) as (blk & Hblk & _). apply elem_of_seqZ.
    apply zget_bounds in Hblk. lia. }
  apply submseteq_length in Hsub. rewrite length_seqZ in Hsub. unfold zlen in *. lia.
Qed.

(** The buffer of a frozen tape, read again after a rewind. *)
Lemma get_buffer_frozen junk lts lt p :
  pfile lts = f -> frozen lt = true -> offsetBlockNumber lt = 0 -> buffer_size lt = BLCKSZ ->
  firstBlockNumber lt = head_of cs b ->
  ((buffer lt = None /\ p = 0) \/ (exists i buf, buffer lt = Some buf /\ at_ lt i buf p)) ->
  exists lt' buf i, get_buffer junk lts lt = Ok (lts, lt', buf) /\ repositioned lt lt' /\ at_ lt' i buf p.
Proof.
  intros Hf Hfr Ho Hsz Hfi [[Hbuf ->]|(i & buf & Hbuf & Hat)]; unfold get_buffer; rewrite Hbuf.
  2:{ exists lt, buf, i. split; [done|]. split; [apply repositioned_refl|done]. }
  unfold ltsInitReadBuffer. rewrite Hsz. change (BLCKSZ <=? 0) with false. cbv zeta iota. set (t1 := set_nextBlockNumber (firstBlockNumber lt) lt).
  destruct (fill_frozen lts t1 (palloc_block junk) 0 (head_of cs b)) as (t2 & b2 & -> & Hm & Hat & _); try done.
  { apply own_head. }
  rewrite rbind_ret. exists t2, b2, 0. split; [done|]. split; [|done].
  apply repositioned_trans with t1; [|done].
  exists (pos lt), (curBlockNumber lt), (firstBlockNumber lt), (nbytes lt). by destruct lt.
Qed.
End frozen.

(** ** Operations on a frozen tape *)

Lemma frozen_rep f lt lt' cs b d n i buf p :
  tape_rep f lt (AFrozen (stretch_bytes cs ++ ztake n d) p) ((fst <$> cs) ++ [b]) ->
  complete f cs b d n -> firstBlockNumber lt = head_of cs b -> repositioned lt lt' ->
  forall q, frozen_at f lt' (zlen cs) n ((fst <$> cs) ++ [b]) (stretch_bytes cs ++ ztake n d) i buf q ->
  tape_rep f (set_buffer (Some buf) lt') (AFrozen (stretch_bytes cs ++ ztake n d) q) ((fst <$> cs) ++ [b]).
Proof.
  intros (Ho & Hmx & Hpre & Hwr & Hfr & Hbs & _) Hc Hfi (p' & c' & x' & n' & ->) q Hat.
  do 3 (split; [done|]). do 3 (split; [done|]). exists cs, b, d, n. do 4 (split; [done|]). right. by exists i, buf.
Qed.

(** A frozen tape with its buffer loaded. *)
Lemma frozen_load junk lts lt bs p own :
  tape_rep (pfile lts) lt (AFrozen bs p) own ->
  exists cs b d n lt' buf i, own = (fst <$> cs) ++ [b] /\ bs = stretch_bytes cs ++ ztake n d /\
    complete (pfile lts) cs b d n /\ firstBlockNumber lt = head_of cs b /\
    get_buffer junk lts lt = Ok (lts, lt', buf) /\ repositioned lt lt' /\
    frozen_at (pfile lts) lt' (zlen cs) n own bs i buf p /\
    frozen lt' = true /\ offsetBlockNumber lt' = 0 /\ buffer_size lt' = BLCKSZ /\ writing lt = false.
Proof.
  intros (Ho & Hmx & Hpre & Hwr & Hfr & Hbs & cs & b & d & n & Hc & -> & Hfi & -> & H).
  destruct (get_buffer_frozen (pfile lts) cs b d n Hc junk lts lt p) as (t1 & buf & i & -> & Hm & Hat); try done.
  exists cs, b, d, n, t1, buf, i. do 4 (split; [done|]). do 3 (split; [done|]).
  by destruct Hm as (? & ? & ? & ? & ->).
Qed.

Lemma tape_read_frozen_ok junk lts lt bs p own size :
  tape_rep (pfile lts) lt (AFrozen bs p) own -> 0 <= size -> p + size <= zlen bs ->
  exists lt', tape_read junk lts lt size = Ok (lts, lt', ztake size (zdrop p bs)) /\ held lt' = held lt /\
    tape_rep (pfile lts) lt' (AFrozen bs (p + size)) own.
Proof.
  intros Hrep H0 Hle.
  destruct (frozen_load junk lts lt bs p own Hrep) as (cs & b & d & n & t1 & buf & i & -> & -> & Hc & Hfi & Hget & Hm & Hat & Hfr & Ho & Hbs & Hwr).
  unfold tape_read. rewrite Hwr, Hget, rbind_ret.
  destruct (read_loop_frozen (pfile lts) cs b d n Hc (S (Z.to_nat size)) lts t1 buf i p size []) as (t2 & b2 & i2 & -> & Hm2 & Hat2); try done; [lia|].
  rewrite rbind_ret. eexists. split; [reflexivity|].
  assert (Hm3 : repositioned lt t2) by (by apply repositioned_trans with t1). split; [exact (repositioned_held _ _ Hm3)|].
  by apply (frozen_rep _ lt _ _ _ _ _ i2 b2 p).
Qed.

Lemma pool_written lts used l : pool_ok lts (l ++ used) -> NoDup l.
Proof. intros [_ _ _ _ H _ _]. apply NoDup_app in H as (_ & _ & H). by apply NoDup_app in H as (H & _). Qed.

Lemma tape_backspace_ok junk lts lt bs p own size others :
  pool_ok lts (held lt ++ own ++ others) -> tape_rep (pfile lts) lt (AFrozen bs p) own -> 0 <= size ->
  exists lt', tape_backspace junk lts lt size = Ok (lts, lt', Z.min size p) /\ held lt' = held lt /\
    tape_rep (pfile lts) lt' (AFrozen bs (p - Z.min size p)) own.
Proof.
  intros Hp Hrep H0. pose proof Hrep as (_ & _ & _ & _ & Hfr0 & Hbs0 & _).
  destruct (frozen_load junk lts lt bs p own Hrep) as (cs & b & d & n & t1 & buf & i & -> & -> & Hc & Hfi & Hget & Hm & Hat & Hfr & Ho & Hbs & Hwr).
  unfold tape_backspace. rewrite Hfr0, Hbs0, Z.eqb_refl. cbn [andb negb]. rewrite Hget, rbind_ret.
  pose proof (frozen_nth _ _ _ _ _ Hc _ _ _ _ Hat) as [_ Hi]. pose proof (frozen_pos _ _ _ _ _ Hc _ _ _ _ Hat) as Hlim.
  pose proof Hat as (Hcur & Hown & Hp' & Hpl & Hpos & Hcase). pose proof PS_pos.
  destruct (Z.leb_spec size (pos t1)) as [Hin|Hout].
  - rewrite Z.min_l by nia. eexists. split; [reflexivity|].
    assert (Hm3 : repositioned lt (set_pos (pos t1 - size) t1)).
    { apply repositioned_trans with t1; [done|]. exists (pos t1 - size), (curBlockNumber t1), (nextBlockNumber t1), (nbytes t1). by destruct t1. }
    split; [exact (repositioned_held _ _ Hm3)|]. apply (frozen_rep _ lt _ _ _ _ _ i buf p); try done.
    apply (frozen_move _ _ _ _ _ Hc t1 i buf p (- size)); [done|lia].
  - destruct (backspace_loop_frozen (pfile lts) cs b d n Hc (S (S (Z.to_nat (nBlocksWritten lts)))) lts t1 buf i size (pos t1))
      as (t2 & b2 & i2 & -> & Hm2 & Hat2); try done; try lia.
    + destruct Hm as (? & ? & ? & ? & ->). exact Hfi.
    + pose proof (frozen_blocks_written _ _ _ _ _ Hc) as Hbl. rewrite (proj1 (pl_file _ _ Hp)).
      assert (Hnd : NoDup ((fst <$> cs) ++ [b])).
      { apply (pool_written lts (held lt ++ others)). apply (pool_perm _ _ _ Hp). solve_Permutation. }
      specialize (Hbl Hnd). rewrite zlen_app, zlen_fmap in Hbl. change (zlen [b]) with 1 in Hbl. lia.
    + replace (i * PS) with (i * PS + pos t1 + - pos t1) by lia. rewrite <- Hp'.
      replace (set_pos 0 t1) with (set_pos (pos t1 + - pos t1) t1) by (f_equal; lia).
      apply (frozen_move _ _ _ _ _ Hc t1 i buf p (- pos t1)); [done|lia].
    + rewrite rbind_ret. replace (i * PS + pos t1) with p in * by lia. eexists. split; [reflexivity|].
      assert (Hm3 : repositioned lt t2) by (by apply repositioned_trans with t1). split; [exact (repositioned_held _ _ Hm3)|].
      by apply (frozen_rep _ lt _ _ _ _ _ i2 b2 p).
Qed.

(** [tok], a block number and an offset in it, stands for byte [p]. *)
Definition stands_for (own bs : list Z) (tok : Z * Z) (p : Z) : Prop :=
  exists i, zget own i = Some tok.1 /\ p = i * PS + tok.2 /\ 0 <= tok.2 <= PS /\ p <= zlen bs.

Lemma tape_tell_ok junk lts lt bs p own :
  tape_rep (pfile lts) lt (AFrozen bs p) own ->
  exists lt' tok, tape_tell junk lts lt = Ok (lts, lt', tok) /\ held lt' = held lt /\
    stands_for own bs tok p /\ tape_rep (pfile lts) lt' (AFrozen bs p) own.
Proof.
  intros Hrep.
  destruct (frozen_load junk lts lt bs p own Hrep) as (cs & b & d & n & t1 & buf & i & -> & -> & Hc & Hfi & Hget & Hm & Hat & Hfr & Ho & Hbs & Hwr).
  unfold tape_tell. rewrite Hget, rbind_ret, Ho, Hbs, Z.eqb_refl. cbn [negb andb Z.eqb].
  eexists _, _. split; [reflexivity|]. split; [exact (repositioned_held _ _ Hm)|]. split.
  - pose proof (frozen_pos _ _ _ _ _ Hc _ _ _ _ Hat) as Hlim. destruct Hc as (_ & _ & _ & Hn).
    destruct Hat as (_ & Hown & Hp & Hpl & Hpos & _). exists i. cbn [fst snd]. split; [done|]. split; [done|].
    split; [|done]. destruct (i <? zlen cs); lia.
  - by apply (frozen_rep _ lt _ _ _ _ _ i buf p).
Qed.

Lemma tape_seek_ok junk lts lt bs p own c o q others :
  pool_ok lts (held lt ++ own ++ others) -> tape_rep (pfile lts) lt (AFrozen bs p) own ->
  stands_for own bs (c, o) q ->
  exists lt', tape_seek junk lts lt c o = Ok (lts, lt', tt) /\ held lt' = held lt /\
    tape_rep (pfile lts) lt' (AFrozen bs q) own.
Proof.
  intros Hpool Hrep (j & Hj & Hq & Hoff & Hql). cbn [fst snd] in *.
  pose proof Hrep as (_ & _ & _ & _ & Hfr0 & Hbs0 & _).
  destruct (frozen_load junk lts lt bs p own Hrep) as (cs & b & d & n & t1 & buf & i & -> & -> & Hc & Hfi & Hget & Hm & Hat & Hfr & Ho & Hbs & Hwr).
  unfold tape_seek. rewrite Hfr0, Hbs0, Z.eqb_refl.
  destruct (Z.leb_spec 0 o); [|lia]. destruct (Z.leb_spec o PS); [|lia]. cbn [andb negb]. rewrite Hget, rbind_ret.
  pose proof Hat as (Hcur & Hown & Hp & Hpl & Hpos & Hcase). pose proof PS_pos.
  assert (Hjn : 0 <= j <= zlen cs).
  { pose proof (zget_bounds _ _ _ Hj) as Hb. rewrite zlen_app, zlen_fmap in Hb. change (zlen [b]) with 1 in Hb. lia. }
  pose proof Hc as (_ & _ & _ & Hn). rewrite (frozen_zlen _ _ _ _ _ Hc) in Hql.
  destruct (Z.eqb_spec c (curBlockNumber t1)) as [->|Hne]; cbn [negb].
  - assert (j = i) as ->.
    { assert (Hnd : NoDup ((fst <$> cs) ++ [b])).
      { apply (pool_written lts (held lt ++ others)). apply (pool_perm _ _ _ Hpool). solve_Permutation. }
      pose proof (zget_bounds _ _ _ Hown). unfold zget in Hj, Hown.
      destruct (Z.leb_spec 0 j), (Z.leb_spec 0 i); try done.
      pose proof (NoDup_lookup _ _ _ _ Hnd Hj Hown). lia. }
    assert (Hlim : o <= nbytes t1 /\ o <= if i <? zlen cs then PS else n).
    { destruct (Z.ltb_spec i (zlen cs)); [lia|]. assert (i = zlen cs) as -> by lia. lia. }
    rewrite rbind_ret. destruct (Z.gtb_spec o (nbytes t1)); [lia|]. eexists. split; [reflexivity|].
    assert (Hm3 : repositioned lt (set_pos o t1)).
    { apply repositioned_trans with t1; [done|]. exists o, (curBlockNumber t1), (nextBlockNumber t1), (nbytes t1). by destruct t1. }
    split; [exact (repositioned_held _ _ Hm3)|]. apply (frozen_rep _ lt _ _ _ _ _ i buf p); try done.
    replace q with (p + (o - pos t1)) by lia. replace o with (pos t1 + (o - pos t1)) at 1 by lia.
    apply (frozen_move _ _ _ _ _ Hc t1 i buf p (o - pos t1)); [done|lia].
  - destruct (complete_nth _ cs b d n j c Hc Hj) as (blk & Hblk & Hnth).
    rewrite (ltsReadBlock_ok lts c blk Hblk), !rbind_ret. cbv zeta.
    destruct (Z.gtb_spec o (nbytes (set_nextBlockNumber (b_next blk) (set_nbytes PS (set_curBlockNumber c t1))))) as [Hbad|_].
    { cbn in Hbad. lia. }
    eexists. split; [reflexivity|].
    assert (Hm3 : repositioned lt (set_pos o (set_nextBlockNumber (b_next blk) (set_nbytes PS (set_curBlockNumber c t1))))).
    { apply repositioned_trans with t1; [done|]. by exists o, c, (b_next blk), PS. }
    split; [exact (repositioned_held _ _ Hm3)|]. apply (frozen_rep _ lt _ _ _ _ _ j blk p); try done.
    unfold frozen_at. cbn [curBlockNumber pos nbytes nextBlockNumber set_pos set_nextBlockNumber set_nbytes set_curBlockNumber].
    rewrite (frozen_zlen _ _ _ _ _ Hc). do 5 (split; [done || lia|]).
    pose proof (nb_next _ _ _ _ _ _ Hnth) as Hnx. destruct (Z.ltb_spec j (zlen cs)); [done|]. by right.
Qed.
