(* ===== verification/LogTapeSet.v ===== *)
(** * A tape set implements independent byte tapes

    [aspec] is what logtape.c promises: each tape is a sequence of bytes of its
    own, whatever is done to the other tapes.  [set_rep] relates a tape set to
    such tapes: every tape owns blocks, and no block is owned twice or free at
    the same time.  Every call that [aspec] allows succeeds and returns what
    [aspec] says, in every state that can be reached. *)

From Stdlib Require Import ZArith Lia.
From stdpp Require Import base list sorting strings relations.
From S2P Require Import Prelude HeapTheory LogTapeBlocks LogTapeFree LogTapeRep LogTapeWrite LogTapeRead LogTapeFrozen.

Local Open Scope Z_scope.

(** ** The abstract machine *)

Inductive lop :=
| OWrite (t : Z) (xs : list Z)
| ORewindForRead (t size : Z)
| ORewindForWrite (t : Z)
| ORead (t size : Z)
| OFreeze (t : Z)
| OBackspace (t size : Z)
| OTell (t : Z)
| OSeek (t blocknum offset : Z)
| OForgetFreeSpace
| OExtend (n : Z).

Inductive lres :=
| RUnit
| RBytes (xs : list Z)
| RMoved (n : Z)
| RTold (tok : Z * Z).

(** The calls of logtape.c. *)
Definition run_op (junk : list Z) (lts : LogicalTapeSet) (op : lop) : res (LogicalTapeSet * lres) :=
  match op with
  | OWrite t xs => do! ' (lts, _) <- LogicalTapeWrite junk lts t xs ;; Ok (lts, RUnit)
  | ORewindForRead t size => do! ' (lts, _) <- LogicalTapeRewindForRead lts t size ;; Ok (lts, RUnit)
  | ORewindForWrite t => do! ' (lts, _) <- LogicalTapeRewindForWrite lts t ;; Ok (lts, RUnit)
  | ORead t size => do! ' (lts, xs) <- LogicalTapeRead junk lts t size ;; Ok (lts, RBytes xs)
  | OFreeze t => do! ' (lts, _) <- LogicalTapeFreeze lts t ;; Ok (lts, RUnit)
  | OBackspace t size => do! ' (lts, n) <- LogicalTapeBackspace junk lts t size ;; Ok (lts, RMoved n)
  | OTell t => do! ' (lts, tok) <- LogicalTapeTell junk lts t ;; Ok (lts, RTold tok)
  | OSeek t b o => do! ' (lts, _) <- LogicalTapeSeek junk lts t b o ;; Ok (lts, RUnit)
  | OForgetFreeSpace => Ok (LogicalTapeSetForgetFreeSpace lts, RUnit)
  | OExtend n => Ok (LogicalTapeSetExtend lts n, RUnit)
  end.

(** The tapes, and the positions told so far: [(t, tok, p)] says that [tok] is
    byte [p] of tape [t]. *)
Record aset := mk_aset {
  a_tapes : list atape;
  a_told : list (Z * (Z * Z) * Z)
}.

Definition on (s : aset) (t : Z) (a : atape) : aset := mk_aset (zset (a_tapes s) t a) (a_told s).

Inductive aspec (s : aset) : lop -> lres -> aset -> Prop :=
| A_write t bs xs :
    zget (a_tapes s) t = Some (AWriting bs) -> xs <> [] ->
    aspec s (OWrite t xs) RUnit (on s t (AWriting (bs ++ xs)))
| A_rewind_read t bs size :
    zget (a_tapes s) t = Some (AWriting bs) ->
    aspec s (ORewindForRead t size) RUnit (on s t (AReading bs))
| A_rewind_frozen t bs p size :
    zget (a_tapes s) t = Some (AFrozen bs p) ->
    aspec s (ORewindForRead t size) RUnit (on s t (AFrozen bs 0))
| A_rewind_write t rest :
    zget (a_tapes s) t = Some (AReading rest) ->
    aspec s (ORewindForWrite t) RUnit (on s t (AWriting []))
| A_read t rest size :
    zget (a_tapes s) t = Some (AReading rest) ->
    aspec s (ORead t size) (RBytes (ztake size rest)) (on s t (AReading (zdrop size rest)))
| A_read_frozen t bs p size :
    zget (a_tapes s) t = Some (AFrozen bs p) -> 0 <= size -> p + size <= zlen bs ->
    aspec s (ORead t size) (RBytes (ztake size (zdrop p bs))) (on s t (AFrozen bs (p + size)))
| A_freeze t bs :
    zget (a_tapes s) t = Some (AWriting bs) -> bs <> [] ->
    aspec s (OFreeze t) RUnit (on s t (AFrozen bs 0))
| A_backspace t bs p size :
    zget (a_tapes s) t = Some (AFrozen bs p) -> 0 <= size ->
    aspec s (OBackspace t size) (RMoved (Z.min size p)) (on s t (AFrozen bs (p - Z.min size p)))
| A_tell t bs p tok :
    zget (a_tapes s) t = Some (AFrozen bs p) ->
    aspec s (OTell t) (RTold tok) (mk_aset (a_tapes s) ((t, tok, p) :: a_told s))
| A_seek t bs p q b o :
    zget (a_tapes s) t = Some (AFrozen bs p) -> (t, (b, o), q) ∈ a_told s ->
    aspec s (OSeek t b o) RUnit (on s t (AFrozen bs q))
| A_forget : aspec s OForgetFreeSpace RUnit s
| A_extend n :
    aspec s (OExtend n) RUnit
      (mk_aset (a_tapes s ++ replicate (Z.to_nat n) (AWriting [])) (a_told s)).

(** One call, with the step it stands for; the memory [palloc] returns is
    arbitrary. *)
Inductive lstep : LogicalTapeSet * aset -> LogicalTapeSet * aset -> Prop :=
| lstep_call lts s junk op lts' r s' :
    payload_ok junk -> run_op junk lts op = Ok (lts', r) -> aspec s op r s' ->
    lstep (lts, s) (lts', s').

Definition created (ntapes : Z) (preallocate : bool) : LogicalTapeSet * aset :=
  (LogicalTapeSetCreate ntapes preallocate, mk_aset (replicate (Z.to_nat ntapes) (AWriting [])) []).

(** The states of a set, with what they stand for. *)
Definition reachable (ntapes : Z) (preallocate : bool) (lts : LogicalTapeSet) (s : aset) : Prop :=
  rtc lstep (created ntapes preallocate) (lts, s).

(** ** What a set stands for *)

Definition blocks (lt : LogicalTape) (own : list Z) : list Z := held lt ++ own.

Definition all_blocks (lts : LogicalTapeSet) (owns : list (list Z)) : list (list Z) :=
  zip_with blocks (tapes lts) owns.

Record set_rep (lts : LogicalTapeSet) (s : aset) (owns : list (list Z)) : Prop := {
  sr_len : zlen owns = zlen (tapes lts) /\ zlen (a_tapes s) = zlen (tapes lts);
  sr_tape : forall t lt a own, zget (tapes lts) t = Some lt -> zget (a_tapes s) t = Some a ->
    zget owns t = Some own -> tape_rep (pfile lts) lt a own;
  sr_pool : pool_ok lts (concat (all_blocks lts owns));
  sr_told : forall t tok p, (t, tok, p) ∈ a_told s ->
    exists bs q own, zget (a_tapes s) t = Some (AFrozen bs q) /\ zget owns t = Some own /\
      stands_for own bs tok p
}.

(** ** From one tape to the set *)

Lemma zset_zip_with {A B C} (g : A -> B -> C) l k i x y :
  zip_with g (zset l i x) (zset k i y) = zset (zip_with g l k) i (g x y).
Proof. unfold zset. destruct (Z.leb 0 i); [|done]. by rewrite insert_zip_with. Qed.

(** The blocks of the other tapes. *)
Definition others_of (lts : LogicalTapeSet) (owns : list (list Z)) (t : Z) : list Z :=
  concat (zset (all_blocks lts owns) t []).

Lemma blocks_split lts owns t lt own :
  zget (tapes lts) t = Some lt -> zget owns t = Some own ->
  concat (all_blocks lts owns) ≡ₚ held lt ++ own ++ others_of lts owns t.
Proof.
  intros Hlt Hown. unfold others_of. rewrite app_assoc.
  assert (Hz : zget (all_blocks lts owns) t = Some (blocks lt own)) by (by apply zget_zip_with).
  pose proof (concat_zset _ t _ [] Hz) as Hp. cbn [app] in Hp. by rewrite Hp.
Qed.

Lemma blocks_put lts lts' owns t lt lt' own own' :
  zget (tapes lts) t = Some lt -> zget owns t = Some own -> tapes lts' = zset (tapes lts) t lt' ->
  concat (all_blocks lts' (zset owns t own')) ≡ₚ held lt' ++ own' ++ others_of lts owns t.
Proof.
  intros Hlt Hown Htp. unfold all_blocks, others_of. rewrite Htp, zset_zip_with. fold (all_blocks lts owns).
  pose proof (zget_bounds _ _ _ (zget_zip_with blocks _ _ _ _ _ Hlt Hown)) as Hb. fold (all_blocks lts owns) in Hb.
  assert (Hz : zget (zset (all_blocks lts owns) t []) t = Some []) by (by apply zget_zset_eq).
  pose proof (concat_zset _ t _ (blocks lt' own') Hz) as Hp. cbn [app] in Hp.
  replace (zset (zset (all_blocks lts owns) t []) t (blocks lt' own')) with
    (zset (all_blocks lts owns) t (blocks lt' own')) in Hp by (by rewrite zset_zset_eq).
  rewrite Hp. unfold blocks. by rewrite <- app_assoc.
Qed.

Lemma other_in lts owns t t' lt own b :
  t <> t' -> zget (tapes lts) t' = Some lt -> zget owns t' = Some own -> b ∈ own ->
  b ∈ others_of lts owns t.
Proof.
  intros Hne Hlt Hown Hb. unfold others_of. apply elem_of_concat. exists (blocks lt own).
  split; [apply elem_of_app; by right|]. apply (zget_elem _ t'). rewrite zget_zset_ne by done.
  by apply zget_zip_with.
Qed.

(** An operation on a tape that stands for [a] and owns blocks with [pre];
    [post] is about these blocks, the result and what the tape stands for
    now. *)
Definition tape_op_if {R} (pre : list Z -> Prop)
    (k : LogicalTapeSet -> LogicalTape -> res (LogicalTapeSet * LogicalTape * R))
    (a : atape) (post : list Z -> R -> atape -> Prop) : Prop :=
  forall lts lt own others,
  pre own -> pool_ok lts (held lt ++ own ++ others) -> tape_rep (pfile lts) lt a own ->
  exists lts' lt' r a' own', k lts lt = Ok (lts', lt', r) /\ post own r a' /\
    pool_ok lts' (held lt' ++ own' ++ others) /\ tape_rep (pfile lts') lt' a' own' /\
    kept lts lts' others /\
    forall bs p, a = AFrozen bs p -> own' = own /\ exists q, a' = AFrozen bs q.

Definition tape_op {R} (k : LogicalTapeSet -> LogicalTape -> res (LogicalTapeSet * LogicalTape * R)) :=
  tape_op_if (fun _ => True) k.

Lemma on_tape_ok {R} pre (k : LogicalTapeSet -> LogicalTape -> res (LogicalTapeSet * LogicalTape * R))
    a post lts s owns t :
  tape_op_if pre k a post -> set_rep lts s owns -> zget (a_tapes s) t = Some a ->
  (forall own, zget owns t = Some own -> pre own) ->
  exists lts' r a' own owns', on_tape lts t k = Ok (lts', r) /\ zget owns t = Some own /\ post own r a' /\
    set_rep lts' (on s t a') owns' /\ (forall bs p, a = AFrozen bs p -> owns' = owns).
Proof.
  intros Hk [[Hl1 Hl2] Htape Hpool Htold] Ha Hpre. pose proof (zget_bounds _ _ _ Ha) as Hb.
  destruct (zget_is_Some (tapes lts) t) as [lt Hlt]; [lia|].
  destruct (zget_is_Some owns t) as [own Hown]; [lia|].
  pose proof (Htape t lt a own Hlt Ha Hown) as Hrep.
  pose proof (pool_perm _ _ _ Hpool (blocks_split _ _ _ _ _ Hlt Hown)) as Hp.
  destruct (Hk lts lt own (others_of lts owns t) (Hpre own Hown) Hp Hrep)
    as (l1 & t1 & r & a' & own' & Hrun & Hpost & Hp1 & Hr1 & [Ht1 Hkeep] & Hfroz).
  unfold on_tape. rewrite (aget_Ok _ _ _ Hlt), rbind_ret, Hrun, rbind_ret, Ht1.
  rewrite aset_Ok, rbind_ret by lia.
  eexists _, r, a', own, (zset owns t own'). split; [reflexivity|]. split; [done|]. split; [done|].
  assert (Hsame : forall bs p, a = AFrozen bs p -> zset owns t own' = owns).
  { intros bs p Hfz. destruct (Hfroz bs p Hfz) as [-> _]. by apply zset_id. }
  split; [|done]. split; cbn [tapes set_tapes]; change (a_tapes (on s t a')) with (zset (a_tapes s) t a');
    change (a_told (on s t a')) with (a_told s).
  - rewrite !zlen_zset. by split.
  - intros t2 lt2 a2 own2 Hlt2 Ha2 Hown2. cbn [pfile set_tapes]. destruct (Z.eq_dec t t2) as [->|Hne].
    + rewrite zget_zset_eq in Hlt2 by lia. rewrite zget_zset_eq in Ha2 by lia.
      rewrite zget_zset_eq in Hown2 by lia. by simplify_eq.
    + rewrite zget_zset_ne in Hlt2 by done. rewrite zget_zset_ne in Ha2 by done.
      rewrite zget_zset_ne in Hown2 by done. apply (tape_rep_frame (pfile lts)).
      * intros b x Hb2. apply Hkeep. by apply (other_in lts owns t t2 lt2 own2).
      * by apply (Htape t2).
  - pose proof (pool_perm _ _ (concat (all_blocks (set_tapes (zset (tapes lts) t t1) l1) (zset owns t own'))) Hp1) as Hp2.
    destruct Hp2; [|by split]. symmetry. by apply (blocks_put lts _ owns t lt t1 own own').
  - intros t2 tok p Hin. destruct (Htold t2 tok p Hin) as (bs & q & own2 & Hz & Ho & Hst).
    destruct (Z.eq_dec t t2) as [->|Hne].
    + rewrite Ha in Hz. injection Hz as ->. destruct (Hfroz bs q eq_refl) as [-> [q' ->]].
      exists bs, q', own2. rewrite !zget_zset_eq by lia. rewrite Hown in Ho. by injection Ho as ->.
    + exists bs, q, own2. by rewrite !zget_zset_ne by done.
Qed.

(** ** The operations *)

(** A [tape_done] result on a tape that was not frozen. *)
Lemma tape_op_done {R} (k : LogicalTapeSet -> LogicalTape -> res (LogicalTapeSet * LogicalTape * R)) a r a' :
  (forall bs p, a <> AFrozen bs p) ->
  (forall lts lt own others, pool_ok lts (held lt ++ own ++ others) -> tape_rep (pfile lts) lt a own ->
    exists lts' lt', k lts lt = Ok (lts', lt', r) /\ tape_done lts lts' lt' a' others) ->
  tape_op k a (fun _ r' a'' => r' = r /\ a'' = a').
Proof.
  intros Hnf Hk lts lt own others _ Hp Hrep.
  destruct (Hk lts lt own others Hp Hrep) as (l1 & t1 & Hrun & own1 & Hp1 & Hr1 & Hk1).
  exists l1, t1, r, a', own1. do 5 (split; [done|]). intros bs p Ha. by apply Hnf in Ha.
Qed.

(** A frozen tape moves, and nothing else happens. *)
Lemma tape_op_moved {R} (k : LogicalTapeSet -> LogicalTape -> res (LogicalTapeSet * LogicalTape * R)) bs p q
    (pre : list Z -> Prop) (post : list Z -> R -> Prop) :
  (forall lts lt own others, pre own -> pool_ok lts (held lt ++ own ++ others) -> tape_rep (pfile lts) lt (AFrozen bs p) own ->
    exists lt' r, k lts lt = Ok (lts, lt', r) /\ held lt' = held lt /\ post own r /\
      tape_rep (pfile lts) lt' (AFrozen bs q) own) ->
  tape_op_if pre k (AFrozen bs p) (fun own r a' => post own r /\ a' = AFrozen bs q).
Proof.
  intros Hk lts lt own others Hpre Hp Hrep.
  destruct (Hk lts lt own others Hpre Hp Hrep) as (t1 & r & Hrun & Hh & Hpost & Hr1).
  exists lts, t1, r, (AFrozen bs q), own. rewrite Hh. do 2 (split; [done|]). do 2 (split; [done|]).
  split; [apply kept_refl|]. intros bs' p' [= -> ->]. eauto.
Qed.

Lemma write_op junk bs xs :
  payload_ok junk -> xs <> [] ->
  tape_op (fun lts lt => tape_write junk lts lt xs) (AWriting bs) (fun _ r a => r = tt /\ a = AWriting (bs ++ xs)).
Proof.
  intros Hj Hxs. apply tape_op_done; [done|]. intros lts lt own others Hp Hrep. by apply tape_write_ok with own.
Qed.

Lemma rewind_read_op bs size :
  tape_op (fun lts lt => tape_rewind_for_read lts lt size) (AWriting bs) (fun _ r a => r = tt /\ a = AReading bs).
Proof.
  apply tape_op_done; [done|]. intros lts lt own others Hp Hrep. by apply tape_rewind_for_read_writing_ok with own.
Qed.

Lemma rewind_frozen_op bs p size :
  tape_op (fun lts lt => tape_rewind_for_read lts lt size) (AFrozen bs p) (fun _ r a => r = tt /\ a = AFrozen bs 0).
Proof.
  intros lts lt own others _ Hp Hrep.
  destruct (tape_rewind_for_read_frozen_ok lts lt bs p own size others Hp Hrep) as (l1 & t1 & Hrun & Hh & Hp1 & Hr1 & Hk).
  exists l1, t1, tt, (AFrozen bs 0), own. rewrite Hh. do 5 (split; [done|]). intros bs' p' [= -> ->]. eauto.
Qed.

Lemma rewind_write_op rest :
  tape_op (fun lts lt => do! lt <- tape_rewind_for_write lt ;; Ok (lts, lt, tt)) (AReading rest)
    (fun _ r a => r = tt /\ a = AWriting []).
Proof.
  apply tape_op_done; [done|]. intros lts lt own others Hp Hrep.
  destruct (tape_rewind_for_write_ok lts lt rest own others Hp Hrep) as (t1 & -> & Hd). rewrite rbind_ret. eauto.
Qed.

Lemma read_op junk rest size :
  tape_op (fun lts lt => tape_read junk lts lt size) (AReading rest)
    (fun _ r a => r = ztake size rest /\ a = AReading (zdrop size rest)).
Proof.
  apply tape_op_done; [done|]. intros lts lt own others Hp Hrep. by apply tape_read_reading_ok with own.
Qed.

Lemma read_frozen_op junk bs p size :
  0 <= size -> p + size <= zlen bs ->
  tape_op (fun lts lt => tape_read junk lts lt size) (AFrozen bs p)
    (fun _ r a => r = ztake size (zdrop p bs) /\ a = AFrozen bs (p + size)).
Proof.
  intros H0 Hle. apply (tape_op_moved _ _ _ _ _ (fun _ r => r = _)). intros lts lt own others _ Hp Hrep.
  destruct (tape_read_frozen_ok junk lts lt bs p own size Hrep H0 Hle) as (t1 & Hrun & Hh & Hr1). eauto 10.
Qed.

Lemma freeze_op bs :
  bs <> [] -> tape_op tape_freeze (AWriting bs) (fun _ r a => r = tt /\ a = AFrozen bs 0).
Proof.
  intros Hne. apply tape_op_done; [done|]. intros lts lt own others Hp Hrep. by apply tape_freeze_ok with own.
Qed.

Lemma backspace_op junk bs p size :
  0 <= size ->
  tape_op (fun lts lt => tape_backspace junk lts lt size) (AFrozen bs p)
    (fun _ r a => r = Z.min size p /\ a = AFrozen bs (p - Z.min size p)).
Proof.
  intros H0. apply (tape_op_moved _ _ _ _ _ (fun _ r => r = _)). intros lts lt own others _ Hp Hrep.
  destruct (tape_backspace_ok junk lts lt bs p own size others Hp Hrep H0) as (t1 & Hrun & Hh & Hr1). eauto 10.
Qed.

Lemma tell_op junk bs p :
  tape_op (tape_tell junk) (AFrozen bs p) (fun own r a => stands_for own bs r p /\ a = AFrozen bs p).
Proof.
  apply (tape_op_moved _ _ _ _ _ (fun own r => stands_for own bs r p)). intros lts lt own others _ Hp Hrep.
  destruct (tape_tell_ok junk lts lt bs p own Hrep) as (t1 & tok & Hrun & Hh & Hst & Hr1). eauto 10.
Qed.

Lemma seek_op junk bs p c o q :
  tape_op_if (fun own => stands_for own bs (c, o) q) (fun lts lt => tape_seek junk lts lt c o) (AFrozen bs p)
    (fun _ r a => r = tt /\ a = AFrozen bs q).
Proof.
  apply (tape_op_moved _ _ _ _ _ (fun _ r => r = _)). intros lts lt own others Hst Hp Hrep.
  destruct (tape_seek_ok junk lts lt bs p own c o q others Hp Hrep Hst) as (t1 & Hrun & Hh & Hr1). eauto 10.
Qed.

(** ** Every step *)

Definition steps_to (junk : list Z) (lts : LogicalTapeSet) (s : aset) (op : lop) (r0 : lres) (s0 : aset) : Prop :=
  exists lts' r s' owns', run_op junk lts op = Ok (lts', r) /\ aspec s op r s' /\ set_rep lts' s' owns' /\
    (r = r0 -> s' = s0).

Lemma on_tape_steps {R} (k : LogicalTapeSet -> LogicalTape -> res (LogicalTapeSet * LogicalTape * R)) pre
    junk lts s owns op t a a' (res : R -> lres) x :
  set_rep lts s owns -> zget (a_tapes s) t = Some a -> (forall own, zget owns t = Some own -> pre own) ->
  tape_op_if pre k a (fun _ r b => r = x /\ b = a') ->
  run_op junk lts op = (do! ' (lts, r) <- on_tape lts t k ;; Ok (lts, res r)) ->
  aspec s op (res x) (on s t a') -> steps_to junk lts s op (res x) (on s t a').
Proof.
  intros Hrep Ha Hpre Hk Hrun Hsp.
  destruct (on_tape_ok pre k a _ lts s owns t Hk Hrep Ha Hpre) as (l1 & r & a1 & own & owns1 & Hon & _ & (-> & ->) & Hr1 & _).
  rewrite Hon, rbind_ret in Hrun. by exists l1, (res x), (on s t a'), owns1.
Qed.

Lemma init_tape_rep f : tape_rep f ltsInitTape (AWriting []) [].
Proof. do 3 (split; [done|]). split; [done|]. split; [done|]. by left. Qed.

Lemma zget_replicate {A} n (x y : A) i : zget (replicate n x) i = Some y -> y = x.
Proof. unfold zget. destruct (Z.leb 0 i); [|done]. intros H. by apply lookup_replicate in H as [? _]. Qed.

Lemma zget_app_cases {A} (l k : list A) i x :
  zget (l ++ k) i = Some x -> zget l i = Some x \/ (zlen l <= i /\ zget k (i - zlen l) = Some x).
Proof.
  intros H. destruct (Z.lt_ge_cases i (zlen l)).
  - left. by rewrite zget_app_l in H by done.
  - right. by rewrite zget_app_r in H by done.
Qed.

Lemma new_blocks n : concat (zip_with blocks (replicate n ltsInitTape) (replicate n [])) = [].
Proof. by induction n. Qed.

Lemma extend_rep lts s owns n :
  set_rep lts s owns ->
  set_rep (LogicalTapeSetExtend lts n)
    (mk_aset (a_tapes s ++ replicate (Z.to_nat n) (AWriting [])) (a_told s))
    (owns ++ replicate (Z.to_nat n) []).
Proof.
  intros [[Hl1 Hl2] Htape Hpool Htold]. unfold LogicalTapeSetExtend. set (m := Z.to_nat n).
  split; cbn [a_tapes a_told]; change (tapes (set_tapes ?ts lts)) with ts.
  - rewrite !zlen_app, Hl1, Hl2. unfold zlen. by rewrite !length_replicate.
  - change (pfile (set_tapes _ lts)) with (pfile lts). intros t lt a own Hlt Ha Hown.
    pose proof (zget_bounds _ _ _ Hown).
    apply zget_app_cases in Hlt as [Hlt|[Hge Hlt]].
    + pose proof (zget_bounds _ _ _ Hlt). rewrite zget_app_l in Ha by lia. rewrite zget_app_l in Hown by lia. by apply (Htape t).
    + rewrite zget_app_r in Ha by lia. rewrite zget_app_r in Hown by lia.
      apply zget_replicate in Hlt as ->, Ha as ->, Hown as ->. apply init_tape_rep.
  - assert (Heq : concat (all_blocks (set_tapes (tapes lts ++ replicate m ltsInitTape) lts) (owns ++ replicate m []))
      = concat (all_blocks lts owns)).
    { unfold all_blocks. change (tapes (set_tapes ?ts lts)) with ts.
      rewrite zip_with_app by (unfold zlen in Hl1; lia). rewrite concat_app, new_blocks. by rewrite app_nil_r. }
    rewrite Heq. by destruct Hpool.
  - intros t tok p Hin. destruct (Htold t tok p Hin) as (bs & q & own & Ha & Hown & Hst).
    pose proof (zget_bounds _ _ _ Ha). pose proof (zget_bounds _ _ _ Hown).
    exists bs, q, own. by rewrite !zget_app_l by lia.
Qed.

Lemma create_rep ntapes pre :
  set_rep (LogicalTapeSetCreate ntapes pre) (mk_aset (replicate (Z.to_nat ntapes) (AWriting [])) [])
    (replicate (Z.to_nat ntapes) []).
Proof.
  assert (H0 : set_rep (LogicalTapeSetCreate 0 pre) (mk_aset [] []) []).
  { split; try done.
    - intros t lt a own Hlt. unfold zget in Hlt. cbn in Hlt. by destruct (Z.leb 0 t).
    - assert (Hf : free (LogicalTapeSetCreate 0 pre) ++ concat (all_blocks (LogicalTapeSetCreate 0 pre) []) = [])
        by reflexivity.
      split; try done; rewrite ?Hf; [apply heap_ok_leaves; cbn; lia|by apply NoDup_nil_2].
    - intros t tok p Hin. by apply not_elem_of_nil in Hin. }
  exact (extend_rep _ _ _ ntapes H0).
Qed.

Lemma tell_steps junk lts s owns t bs p tok0 :
  set_rep lts s owns -> zget (a_tapes s) t = Some (AFrozen bs p) ->
  steps_to junk lts s (OTell t) (RTold tok0) (mk_aset (a_tapes s) ((t, tok0, p) :: a_told s)).
Proof.
  intros Hrep Ha.
  destruct (on_tape_ok _ _ _ _ lts s owns t (tell_op junk bs p) Hrep Ha) as (l1 & tok & a1 & own & owns1 & Hon & Hown & (Hst & ->) & Hr1 & Hsame); [done|].
  exists l1, (RTold tok), (mk_aset (a_tapes s) ((t, tok, p) :: a_told s)), owns1.
  split; [cbn [run_op]; unfold LogicalTapeTell; by rewrite Hon|]. split; [by apply (A_tell s t bs)|].
  split; [|by intros [= ->]]. rewrite (Hsame bs p eq_refl) in *.
  assert (Heq : on s t (AFrozen bs p) = s) by (unfold on; rewrite zset_id by done; by destruct s).
  rewrite Heq in Hr1. destruct Hr1 as [Hl Htape Hpool Htold]. split; try done.
  cbn [a_tapes a_told]. intros t2 tok2 p2 [Hin|Hin]%elem_of_cons; [|by apply Htold]. injection Hin as -> -> ->.
  by exists bs, p, own.
Qed.

Lemma seek_steps junk lts s owns t bs p q b o :
  set_rep lts s owns -> zget (a_tapes s) t = Some (AFrozen bs p) -> (t, (b, o), q) ∈ a_told s ->
  steps_to junk lts s (OSeek t b o) RUnit (on s t (AFrozen bs q)).
Proof.
  intros Hrep Ha Hin.
  eapply (on_tape_steps _ (fun own => stands_for own bs (b, o) q) junk lts s owns (OSeek t b o) t (AFrozen bs p)
    (AFrozen bs q) (fun _ => RUnit) tt Hrep Ha).
  - intros own Hown. destruct (sr_told _ _ _ Hrep _ _ _ Hin) as (bs' & q' & own' & Ha' & Hown' & Hst).
    by simplify_eq.
  - apply seek_op.
  - done.
  - by apply (A_seek s t bs p).
Qed.

(** One call on one tape, whose lemma is [lem]. *)
Ltac lift res x lem :=
  eapply (on_tape_steps _ (fun _ => True) _ _ _ _ _ _ _ _ res x); [eassumption|eassumption|done| | |];
  [eapply lem; eassumption|reflexivity|eassumption].

(** Every step the abstract machine allows is taken, with an allowed result. *)
Lemma step_ok junk lts s owns op r0 s0 :
  payload_ok junk -> set_rep lts s owns -> aspec s op r0 s0 -> steps_to junk lts s op r0 s0.
Proof.
  intros Hj Hrep Hsp. pose proof Hsp as Hsp0.
  destruct Hsp as [t bs xs Ha Hxs|t bs size Ha|t bs p size Ha|t rest Ha|t rest size Ha|t bs p size Ha H0 Hle|t bs Ha Hne
    |t bs p size Ha H0|t bs p tok Ha|t bs p q b o Ha Hin| |n].
  - lift (fun _ : unit => RUnit) tt write_op.
  - lift (fun _ : unit => RUnit) tt rewind_read_op.
  - lift (fun _ : unit => RUnit) tt rewind_frozen_op.
  - lift (fun _ : unit => RUnit) tt rewind_write_op.
  - lift RBytes (ztake size rest) read_op.
  - lift RBytes (ztake size (zdrop p bs)) read_frozen_op.
  - lift (fun _ : unit => RUnit) tt freeze_op.
  - lift RMoved (Z.min size p) backspace_op.
  - by apply (tell_steps _ _ _ owns t bs).
  - by apply (seek_steps _ _ _ owns t bs p).
  - exists (LogicalTapeSetForgetFreeSpace lts), RUnit, s, owns. split; [done|]. split; [done|].
    split; [|done]. destruct Hrep as [? ? [] ?]. by split.
  - eexists _, RUnit, _, _. split; [reflexivity|]. split; [exact Hsp0|]. split; [by apply extend_rep|done].
Qed.

Lemma lstep_rep lts s owns lts' s' :
  set_rep lts s owns -> lstep (lts, s) (lts', s') -> exists owns', set_rep lts' s' owns'.
Proof.
  intros Hrep Hst. inversion Hst as [? ? junk op ? r ? Hj Hrun Hsp]; subst.
  destruct (step_ok junk lts s owns op r s' Hj Hrep Hsp) as (l1 & r1 & s1 & owns1 & Hrun1 & _ & Hr1 & Heq).
  rewrite Hrun in Hrun1. injection Hrun1 as <- <-. rewrite <- (Heq eq_refl). eauto.
Qed.

Lemma reachable_rep ntapes pre lts s : reachable ntapes pre lts s -> exists owns, set_rep lts s owns.
Proof.
  unfold reachable. intros H. change (match (lts, s) with (l, a) => exists owns, set_rep l a owns end).
  revert H. generalize (lts, s) as x. apply rtc_ind_r.
  - eexists. apply create_rep.
  - intros [l1 s1] [l2 s2] _ Hst [owns Hrep]. by apply (lstep_rep l1 s1 owns).
Qed.

Lemma reachable_step ntapes pre lts s junk op r0 s0 :
  reachable ntapes pre lts s -> payload_ok junk -> aspec s op r0 s0 ->
  exists lts' r s', run_op junk lts op = Ok (lts', r) /\ aspec s op r s' /\ reachable ntapes pre lts' s' /\
    (r = r0 -> s' = s0).
Proof.
  intros Hre Hj Hsp. destruct (reachable_rep _ _ _ _ Hre) as [owns Hrep].
  destruct (step_ok junk lts s owns op r0 s0 Hj Hrep Hsp) as (l1 & r1 & s1 & owns1 & Hrun & Hsp1 & Hr1 & Heq).
  exists l1, r1, s1. split; [done|]. split; [done|]. split; [|done].
  eapply rtc_r; [exact Hre|]. by apply (lstep_call lts s junk op l1 r1 s1).
Qed.

(** ** The set refines byte tapes *)

Definition zeros : list Z := replicate (Z.to_nat TapeBlockPayloadSize) 0.

Lemma zeros_ok : payload_ok zeros.
Proof. unfold payload_ok, zeros, zlen. rewrite length_replicate. reflexivity. Qed.

(** C34. Refinement.  In every state of a tape set that calls can lead to, every
    call the abstract machine of independent byte tapes allows succeeds,
    returns a result that machine allows, and leads to a state that stands for
    the machine's next state; whatever [palloc] leaves in fresh buffers. *)
Theorem logtape_refines_byte_tapes ntapes preallocate lts s junk op r0 s0 :
  reachable ntapes preallocate lts s -> payload_ok junk -> aspec s op r0 s0 ->
  exists lts' r s', run_op junk lts op = Ok (lts', r) /\ aspec s op r s' /\
    reachable ntapes preallocate lts' s' /\ (r = r0 -> s' = s0).
Proof. apply reachable_step. Qed.

Lemma logtape_refines_byte_tapes_witness :
  exists lts' r s', run_op zeros (LogicalTapeSetCreate 2 true) (OWrite 1 [7; 8]) = Ok (lts', r) /\
    aspec (mk_aset [AWriting []; AWriting []] []) (OWrite 1 [7; 8]) r s' /\ reachable 2 true lts' s' /\
    (r = RUnit -> s' = mk_aset [AWriting []; AWriting [7; 8]] []).
Proof.
  apply (logtape_refines_byte_tapes 2 true _ _ zeros).
  - apply rtc_refl.
  - apply zeros_ok.
  - apply (A_write (mk_aset [AWriting []; AWriting []] []) 1 [] [7; 8]); [reflexivity|discriminate].
Defined.

(** C35. Invariant.  In every reachable state there is an assignment of blocks to
    the tapes under which each tape stands for its bytes, no block belongs to
    two tapes, is on the free list twice, or is both free and in use, and all
    of them lie below [nBlocksAllocated]; the free list is a heap. *)
Theorem tapes_share_no_block ntapes preallocate lts s :
  reachable ntapes preallocate lts s ->
  exists owns, zlen owns = zlen (tapes lts) /\ zlen (a_tapes s) = zlen (tapes lts) /\
    (forall t lt a own, zget (tapes lts) t = Some lt -> zget (a_tapes s) t = Some a ->
       zget owns t = Some own -> tape_rep (pfile lts) lt a own) /\
    NoDup (free lts ++ concat (all_blocks lts owns)) /\
    Forall (fun b => 0 <= b < nBlocksAllocated lts) (free lts ++ concat (all_blocks lts owns)) /\
    heap_ok Z.le (freeBlocks lts) 0 (nFreeBlocks lts).
Proof.
  intros Hre. destruct (reachable_rep _ _ _ _ Hre) as [owns [[? ?] Htape [] _]]. exists owns. by repeat (split; [done|]).
Qed.

(** A set of two tapes after real writes: one block and one byte on tape 0, then
    one byte on tape 1. *)
Definition block_and_byte : list Z := replicate (Z.to_nat (TapeBlockPayloadSize + 1)) 7.

Definition after_call (lts : LogicalTapeSet) (op : lop) : LogicalTapeSet :=
  match run_op zeros lts op with Ok (lts', _) => lts' | _ => lts end.

Definition one_written : LogicalTapeSet := after_call (LogicalTapeSetCreate 2 false) (OWrite 0 block_and_byte).
Definition both_written : LogicalTapeSet := after_call one_written (OWrite 1 [9]).

Lemma both_written_reachable :
  reachable 2 false both_written (mk_aset [AWriting block_and_byte; AWriting [9]] []).
Proof.
  apply rtc_l with (one_written, mk_aset [AWriting block_and_byte; AWriting []] []); [|apply rtc_once].
  - apply (lstep_call _ _ zeros (OWrite 0 block_and_byte) _ RUnit); [apply zeros_ok|vm_compute; reflexivity|].
    apply (A_write (created 2 false).2 0 [] block_and_byte); [reflexivity|discriminate].
  - apply (lstep_call _ _ zeros (OWrite 1 [9]) _ RUnit); [apply zeros_ok|vm_compute; reflexivity|].
    apply (A_write (mk_aset [AWriting block_and_byte; AWriting []] []) 1 [] [9]); [reflexivity|discriminate].
Qed.

Lemma both_written_tapes :
  exists lt0 lt1, zget (tapes both_written) 0 = Some lt0 /\ zget (tapes both_written) 1 = Some lt1 /\
    zlen (tapes both_written) = 2 /\ firstBlockNumber lt0 = 0 /\ curBlockNumber lt0 = 1 /\ curBlockNumber lt1 = 2.
Proof. vm_compute. eexists _, _. repeat (split; [reflexivity|]). reflexivity. Qed.

(** A tape with bytes written to it owns its first and its current block. *)
Lemma writing_owns f lt bs own :
  tape_rep f lt (AWriting bs) own -> bs <> [] -> firstBlockNumber lt ∈ own /\ curBlockNumber lt ∈ own.
Proof.
  intros (_ & _ & _ & _ & _ & [(_ & _ & _ & _ & _ & _ & -> & _)|(cs & buf & _ & _ & Hw & _ & _ & ->)]) Hne; [done|].
  unfold wblocks. rewrite (wp_first _ _ _ _ Hw). split; [|apply elem_of_app; right; by left].
  destruct cs as [|[b d] cs]; cbn; by left.
Qed.

Lemma two_owners {A} (l : list A) : zlen l = 2 -> exists a b, l = [a; b].
Proof. unfold zlen. destruct l as [|a [|b [|c l]]]; cbn; intros H; try lia. eauto. Qed.

Lemma tapes_share_no_block_witness :
  exists own0 own1, 0 ∈ own0 /\ 1 ∈ own0 /\ 2 ∈ own1 /\
    NoDup (free both_written ++ concat (all_blocks both_written [own0; own1])).
Proof.
  destruct (tapes_share_no_block 2 false both_written _ both_written_reachable) as (owns & Hl & _ & Htape & Hn & _).
  destruct both_written_tapes as (lt0 & lt1 & Ht0 & Ht1 & Hz & Hf0 & Hc0 & Hc1). rewrite Hz in Hl.
  destruct (two_owners owns Hl) as (own0 & own1 & ->). clear Hl. exists own0, own1.
  destruct (writing_owns _ _ _ _ (Htape 0 lt0 _ own0 Ht0 eq_refl eq_refl)) as [H0 H1]; [intros [=]|].
  destruct (writing_owns _ _ _ _ (Htape 1 lt1 _ own1 Ht1 eq_refl eq_refl)) as [_ H2]; [intros [=]|].
  rewrite Hf0 in H0. rewrite Hc0 in H1. rewrite Hc1 in H2.
  exact (conj H0 (conj H1 (conj H2 Hn))).
Defined.
