(* ===== verification/LogTapeSpec.v ===== *)
(** * What a tape set guarantees

    The theorems about logtape.c: refinement of independent byte tapes, the
    ownership of blocks, round trips through interleaved writes and through
    [LogicalTapeTell] and [LogicalTapeSeek], and two places where the code does
    not do what its comments say. *)

From Stdlib Require Import ZArith Lia.
From stdpp Require Import base list sorting strings relations.
From S2P Require Import Prelude HeapTheory LogTapeBlocks LogTapeFree LogTapeRep LogTapeWrite LogTapeRead LogTapeFrozen LogTapeSet.

Local Open Scope Z_scope.

(** A sequence of calls and their results. *)
Fixpoint run_ops (junk : list Z) (lts : LogicalTapeSet) (ops : list lop) : res (LogicalTapeSet * list lres) :=
  match ops with
  | [] => Ok (lts, [])
  | op :: ops =>
    do! ' (lts, r) <- run_op junk lts op ;;
    do! ' (lts, rs) <- run_ops junk lts ops ;;
    Ok (lts, r :: rs)
  end.

Lemma run_ops_app junk lts ops1 ops2 l1 rs1 :
  run_ops junk lts ops1 = Ok (l1, rs1) ->
  run_ops junk lts (ops1 ++ ops2) = (do! ' (l2, rs2) <- run_ops junk l1 ops2 ;; Ok (l2, rs1 ++ rs2)).
Proof.
  revert lts rs1. induction ops1 as [|op ops1 IH]; intros lts rs1.
  { intros [= <- <-]. cbn [run_ops app]. by destruct (run_ops junk lts ops2) as [[? ?]| | |]. }
  cbn [run_ops app]. destruct (run_op junk lts op) as [[l r]| | |]; try done. rewrite !rbind_ret.
  destruct (run_ops junk l ops1) as [[l' rs]| | |] eqn:He; try done. rewrite rbind_ret. intros [= -> <-].
  rewrite (IH l rs He). by destruct (run_ops junk l1 ops2) as [[? ?]| | |].
Qed.

(** ** Round trips *)

(** The bytes that the writes [ws] put on tape [t]. *)
Definition written (t : Z) (ws : list (Z * list Z)) : list Z :=
  concat (snd <$> filter (fun w => w.1 = t) ws).

Definition write_call (w : Z * list Z) : lop := OWrite w.1 w.2.

Definition writable (s : aset) (w : Z * list Z) : Prop :=
  w.2 <> [] /\ exists bs, zget (a_tapes s) w.1 = Some (AWriting bs).

Lemma written_cons t u xs ws :
  written t ((u, xs) :: ws) = (if decide (u = t) then xs else []) ++ written t ws.
Proof. unfold written. rewrite filter_cons. cbn [fst]. by destruct (decide (u = t)). Qed.

Lemma writes_ok ntapes preallocate junk ws lts s :
  reachable ntapes preallocate lts s -> payload_ok junk -> Forall (writable s) ws ->
  exists lts' s', run_ops junk lts (write_call <$> ws) = Ok (lts', (fun _ => RUnit) <$> ws) /\
    reachable ntapes preallocate lts' s' /\
    forall u bs, zget (a_tapes s) u = Some (AWriting bs) ->
      zget (a_tapes s') u = Some (AWriting (bs ++ written u ws)).
Proof.
  intros Hre Hj. revert lts s Hre. induction ws as [|[t xs] ws IH]; intros lts s Hre Hws.
  { exists lts, s. split; [done|]. split; [done|]. intros u bs Hu. by rewrite app_nil_r. }
  apply Forall_cons in Hws as [[Hxs [bs Ht]] Hws]. cbn [fst snd] in *.
  destruct (reachable_step _ _ _ _ junk _ _ _ Hre Hj (A_write s t bs xs Ht Hxs)) as (l1 & r & s1 & Hrun & Hsp & Hre1 & Heq).
  assert (r = RUnit) as -> by (by inversion Hsp). rewrite (Heq eq_refl) in *. clear Heq Hsp.
  pose proof (zget_bounds _ _ _ Ht).
  destruct (IH l1 _ Hre1) as (l2 & s2 & Hrun2 & Hre2 & Hby).
  { eapply Forall_impl; [exact Hws|]. intros [u ys] [Hys [bu Hu]]. split; [done|]. cbn [fst] in *.
    change (a_tapes (on s t ?x)) with (zset (a_tapes s) t x). destruct (Z.eq_dec t u) as [->|Hne].
    - rewrite zget_zset_eq by done. eauto.
    - rewrite zget_zset_ne by done. eauto. }
  exists l2, s2. split; [|split; [done|]].
  - cbn [fmap list_fmap run_ops]. unfold write_call at 1. cbn [fst snd]. by rewrite Hrun, rbind_ret, Hrun2, rbind_ret.
  - intros u bu Hu. rewrite written_cons. destruct (decide (t = u)) as [->|Hne].
    + rewrite Hu in Ht. injection Ht as ->. rewrite app_assoc. apply Hby. by apply zget_zset_eq.
    + apply Hby. change (a_tapes (on s t ?x)) with (zset (a_tapes s) t x). by rewrite zget_zset_ne.
Qed.

(** Round trip.  Writes to several tapes can be interleaved in any way; once
    a tape is rewound, with a read buffer of any size, reading it returns what
    was written to that tape, in order, and nothing past its end. *)
Theorem interleaved_writes_read_back ntapes preallocate lts s junk ws t size n :
  reachable ntapes preallocate lts s -> payload_ok junk -> Forall (writable s) ws ->
  zget (a_tapes s) t = Some (AWriting []) ->
  exists lts', run_ops junk lts ((write_call <$> ws) ++ [ORewindForRead t size; ORead t n]) =
    Ok (lts', ((fun _ => RUnit) <$> ws) ++ [RUnit; RBytes (ztake n (written t ws))]).
Proof.
  intros Hre Hj Hws Ht. destruct (writes_ok _ _ junk ws lts s Hre Hj Hws) as (l1 & s1 & Hrun & Hre1 & Hby).
  specialize (Hby t [] Ht). cbn [app] in Hby.
  destruct (reachable_step _ _ _ _ junk _ _ _ Hre1 Hj (A_rewind_read s1 t _ size Hby)) as (l2 & r2 & s2 & Hrun2 & Hsp2 & Hre2 & Heq2).
  assert (r2 = RUnit) as -> by (by inversion Hsp2). rewrite (Heq2 eq_refl) in *. pose proof (zget_bounds _ _ _ Hby).
  assert (Ht2 : zget (a_tapes (on s1 t (AReading (written t ws)))) t = Some (AReading (written t ws))) by (by apply zget_zset_eq).
  destruct (reachable_step _ _ _ _ junk _ _ _ Hre2 Hj (A_read _ t _ n Ht2)) as (l3 & r3 & s3 & Hrun3 & Hsp3 & _ & _).
  assert (r3 = RBytes (ztake n (written t ws))) as ->.
  { inversion Hsp3 as [| | | |? ? ? Hz|? ? ? ? Hz| | | | | |]; subst; rewrite Ht2 in Hz; [by injection Hz as ->|done]. }
  exists l3. rewrite (run_ops_app _ _ _ _ _ _ Hrun). cbn [run_ops]. by rewrite Hrun2, rbind_ret, Hrun3, !rbind_ret.
Qed.

Lemma interleaved_writes_read_back_witness :
  exists lts', run_ops zeros (LogicalTapeSetCreate 2 false)
    [OWrite 0 [1; 2]; OWrite 1 [3]; OWrite 0 [4]; ORewindForRead 0 65536; ORead 0 10] =
  Ok (lts', [RUnit; RUnit; RUnit; RUnit; RBytes [1; 2; 4]]).
Proof.
  apply (interleaved_writes_read_back 2 false _ (created 2 false).2 zeros [(0, [1; 2]); (1, [3]); (0, [4])] 0 65536 10).
  - apply rtc_refl.
  - apply zeros_ok.
  - repeat apply Forall_cons_2; [..|apply Forall_nil_2]; (split; [discriminate|exists []; reflexivity]).
  - reflexivity.
Defined.

Definition is_frozen (s : aset) (t : Z) (bs : list Z) : Prop :=
  exists p, zget (a_tapes s) t = Some (AFrozen bs p).

Lemma on_frozen s t a a' u bs :
  zget (a_tapes s) t = Some a -> is_frozen s u bs ->
  (forall bs p, a = AFrozen bs p -> exists q, a' = AFrozen bs q) -> is_frozen (on s t a') u bs.
Proof.
  intros Ha [p Hu] Hk. pose proof (zget_bounds _ _ _ Ha). unfold is_frozen.
  change (a_tapes (on s t a')) with (zset (a_tapes s) t a'). destruct (Z.eq_dec t u) as [->|Hne].
  - rewrite Ha in Hu. injection Hu as ->. destruct (Hk bs p eq_refl) as [q ->]. exists q. by apply zget_zset_eq.
  - exists p. by rewrite zget_zset_ne.
Qed.

(** A frozen tape stays so, and what was told stays true. *)
Lemma aspec_frozen s op r s' u bs :
  aspec s op r s' -> is_frozen s u bs -> is_frozen s' u bs /\ forall x, x ∈ a_told s -> x ∈ a_told s'.
Proof.
  intros Hsp Hu. destruct Hsp; (split; [|by intros; try apply elem_of_cons; auto]);
    try (eapply on_frozen; [eassumption|assumption|intros ? ? [=]; subst; eauto]); try done.
  destruct Hu as [p Hu]. exists p. cbn [a_tapes]. pose proof (zget_bounds _ _ _ Hu). by rewrite zget_app_l by lia.
Qed.

(** Any further calls. *)
Definition evolves : LogicalTapeSet * aset -> LogicalTapeSet * aset -> Prop := rtc lstep.

Lemma evolves_frozen x y u bs :
  evolves x y -> is_frozen x.2 u bs -> is_frozen y.2 u bs /\ forall z, z ∈ a_told x.2 -> z ∈ a_told y.2.
Proof.
  induction 1 as [x|x y z Hst _ IH]; [done|]. intros Hu. inversion Hst as [? s ? op ? r s' _ _ Hsp]; subst.
  cbn [snd] in *. destruct (aspec_frozen _ _ _ _ _ _ Hsp Hu) as [Hu1 Hk1]. destruct (IH Hu1) as [Hu2 Hk2].
  split; [done|]. intros w Hw. by apply Hk2, Hk1.
Qed.

(** C39. Round trip.  A position told by [LogicalTapeTell] stays good: after any
    further calls on the set, [LogicalTapeSeek] to it succeeds and reading
    continues with the byte that came next when it was told. *)
Theorem tell_seek_roundtrip ntapes preallocate lts s junk t bs p lts1 tok lts2 s2 n :
  reachable ntapes preallocate lts s -> payload_ok junk -> zget (a_tapes s) t = Some (AFrozen bs p) ->
  run_op junk lts (OTell t) = Ok (lts1, RTold tok) ->
  evolves (lts1, mk_aset (a_tapes s) ((t, tok, p) :: a_told s)) (lts2, s2) ->
  0 <= n -> p + n <= zlen bs ->
  exists lts3 lts4, LogicalTapeSeek junk lts2 t tok.1 tok.2 = Ok (lts3, tt) /\
    LogicalTapeRead junk lts3 t n = Ok (lts4, ztake n (zdrop p bs)).
Proof.
  intros Hre Hj Ht Htell Hev Hn Hle. set (s1 := mk_aset (a_tapes s) ((t, tok, p) :: a_told s)) in *.
  assert (Hre1 : reachable ntapes preallocate lts1 s1).
  { eapply rtc_r; [exact Hre|]. apply (lstep_call lts s junk _ _ _ _ Hj Htell). by apply (A_tell s t bs). }
  assert (Hre2 : reachable ntapes preallocate lts2 s2) by (unfold reachable, evolves in *; by etrans).
  destruct (evolves_frozen _ _ t bs Hev) as [[q Hq] Hk]; [by exists p|].
  assert (Hin1 : (t, tok, p) ∈ a_told s1) by (by left). cbn [snd] in *.
  specialize (Hk _ Hin1). destruct tok as [b o].
  destruct (reachable_step _ _ _ _ junk _ _ _ Hre2 Hj (A_seek s2 t bs q p b o Hq Hk)) as (l3 & r3 & s3 & Hrun3 & Hsp3 & Hre3 & Heq3).
  assert (r3 = RUnit) as -> by (by inversion Hsp3). rewrite (Heq3 eq_refl) in *. pose proof (zget_bounds _ _ _ Hq).
  assert (Ht3 : zget (a_tapes (on s2 t (AFrozen bs p))) t = Some (AFrozen bs p)) by (by apply zget_zset_eq).
  destruct (reachable_step _ _ _ _ junk _ _ _ Hre3 Hj (A_read_frozen _ t bs p n Ht3 Hn Hle)) as (l4 & r4 & s4 & Hrun4 & Hsp4 & _ & _).
  assert (r4 = RBytes (ztake n (zdrop p bs))) as ->.
  { inversion Hsp4 as [| | | |? ? ? Hz|? ? ? ? Hz| | | | | |]; subst; rewrite Ht3 in Hz; [done|by injection Hz as <- <-]. }
  exists l3, l4. cbn [run_op] in Hrun3, Hrun4. cbn [fst snd]. split.
  - destruct (LogicalTapeSeek junk lts2 t b o) as [[l []]| | |]; try done. rewrite rbind_ret in Hrun3. by injection Hrun3 as ->.
  - destruct (LogicalTapeRead junk l3 t n) as [[l ys]| | |]; try done. rewrite rbind_ret in Hrun4. by injection Hrun4 as -> ->.
Qed.

(** A call whose result the machine determines. *)
Lemma reachable_call ntapes pre lts s junk op r0 s0 :
  reachable ntapes pre lts s -> payload_ok junk -> aspec s op r0 s0 ->
  (forall r s', aspec s op r s' -> r = r0) ->
  exists lts', run_op junk lts op = Ok (lts', r0) /\ reachable ntapes pre lts' s0.
Proof.
  intros Hre Hj Hsp Hdet. destruct (reachable_step _ _ _ _ _ _ _ _ Hre Hj Hsp) as (l1 & r & s1 & Hrun & Hsp1 & Hre1 & Heq).
  assert (r = r0) as -> by (by apply Hdet in Hsp1). rewrite <- (Heq eq_refl). eauto.
Qed.

(** The bytes 10, 20, 30 on a frozen tape, at byte 1. *)
Definition demo_tapes (p : Z) : aset := mk_aset [AFrozen [10; 20; 30] p] [].

Lemma demo_reachable : exists lts, reachable 1 false lts (demo_tapes 1).
Proof.
  destruct (reachable_call 1 false _ _ zeros (OWrite 0 [10; 20; 30]) RUnit (mk_aset [AWriting [10; 20; 30]] []) (rtc_refl _ _) zeros_ok) as (l1 & _ & H1).
  { by apply (A_write (created 1 false).2 0 [] [10; 20; 30]). }
  { intros r s' H. by inversion H. }
  destruct (reachable_call 1 false _ _ zeros (OFreeze 0) RUnit (demo_tapes 0) H1 zeros_ok) as (l2 & _ & H2).
  { by apply (A_freeze (mk_aset [AWriting [10; 20; 30]] []) 0 [10; 20; 30]). }
  { intros r s' H. by inversion H. }
  destruct (reachable_call 1 false _ _ zeros (ORead 0 1) (RBytes [10]) (demo_tapes 1) H2 zeros_ok) as (l3 & _ & H3).
  { apply (A_read_frozen (demo_tapes 0) 0 [10; 20; 30] 0 1); [done|lia|discriminate]. }
  { intros r s' H. inversion H as [| | | |? ? ? Hz|? ? ? ? Hz| | | | | |]; subst; cbn in Hz; [done|]. by injection Hz as <- <-. }
  by exists l3.
Qed.

Lemma tell_seek_roundtrip_witness :
  exists lts lts1 tok lts2 lts3 lts4, run_op zeros lts (OTell 0) = Ok (lts1, RTold tok) /\
    run_op zeros lts1 (ORead 0 2) = Ok (lts2, RBytes [20; 30]) /\
    LogicalTapeSeek zeros lts2 0 tok.1 tok.2 = Ok (lts3, tt) /\
    LogicalTapeRead zeros lts3 0 2 = Ok (lts4, [20; 30]).
Proof.
  destruct demo_reachable as [lts Hre].
  destruct (reachable_step _ _ _ _ zeros _ _ _ Hre zeros_ok (A_tell (demo_tapes 1) 0 [10; 20; 30] 1 (0, 0) eq_refl))
    as (lts1 & r & s1 & Htell & Hsp & Hre1 & _).
  inversion Hsp as [| | | | | | | |t' bs' p' tok Hz| | |]; subst. cbn in Hz. injection Hz as <- <-.
  set (s1 := mk_aset (a_tapes (demo_tapes 1)) [(0, tok, 1)]) in *.
  destruct (reachable_call _ _ _ _ zeros (ORead 0 2) (RBytes [20; 30]) (on s1 0 (AFrozen [10; 20; 30] 3)) Hre1 zeros_ok) as (lts2 & Hread & Hre2).
  { apply (A_read_frozen s1 0 [10; 20; 30] 1 2); [done|lia|discriminate]. }
  { intros r s' H. inversion H as [| | | |? ? ? Hz|? ? ? ? Hz| | | | | |]; subst; cbn in Hz; [done|]. by injection Hz as <- <-. }
  destruct (tell_seek_roundtrip 1 false lts (demo_tapes 1) zeros 0 [10; 20; 30] 1 lts1 tok lts2 (on s1 0 (AFrozen [10; 20; 30] 3)) 2
    Hre zeros_ok eq_refl Htell) as (lts3 & lts4 & Hseek & Hr4).
  - apply rtc_once. apply (lstep_call _ _ zeros (ORead 0 2) _ (RBytes [20; 30])); [apply zeros_ok|exact Hread|].
    apply (A_read_frozen s1 0 [10; 20; 30] 1 2); [done|lia|discriminate].
  - lia.
  - discriminate.
  - exists lts, lts1, tok, lts2, lts3, lts4. done.
Defined.

(** ** Where the code differs from its comments *)

Definition results (lts : LogicalTapeSet) (ops : list lop) : option (list lres) :=
  match run_ops zeros lts ops with Ok (_, rs) => Some rs | _ => None end.

(** Error.  The last block of this frozen tape holds one byte.  Reading on to
    it returns that byte and then the end of the tape; after a seek to it from
    another block, [LogicalTapeRead] returns bytes that were never written to
    the tape instead: [LogicalTapeSeek] takes the block for a full one. *)
Theorem seek_to_last_block_loses_end_of_tape :
  let write_and_freeze := [OWrite 0 (replicate (Z.to_nat (TapeBlockPayloadSize + 1)) 7); OFreeze 0] in
  results (LogicalTapeSetCreate 1 false)
    (write_and_freeze ++ [ORead 0 TapeBlockPayloadSize; OTell 0; ORead 0 5]) =
    Some [RUnit; RUnit; RBytes (replicate (Z.to_nat TapeBlockPayloadSize) 7); RTold (0, TapeBlockPayloadSize); RBytes [7]] /\
  results (LogicalTapeSetCreate 1 false) (write_and_freeze ++ [OSeek 0 1 0; ORead 0 5]) =
    Some [RUnit; RUnit; RUnit; RBytes [7; 7; 7; 7; 7]].
Proof. split; vm_compute; reflexivity. Qed.

(** Error.  [LogicalTapeFreeze] fails on a tape nothing was written to: it
    goes on to read block -1 of the file, although its comment promises to
    reset an empty tape. *)
Theorem freeze_of_empty_tape_fails ntapes preallocate lts s junk t :
  reachable ntapes preallocate lts s -> zget (a_tapes s) t = Some (AWriting []) ->
  run_ops junk lts [OFreeze t] = Error "could not seek to block of temporary file".
Proof.
  intros Hre Ht. destruct (reachable_rep _ _ _ _ Hre) as [owns [[Hl1 Hl2] Htape _ _]]. pose proof (zget_bounds _ _ _ Ht).
  destruct (zget_is_Some (tapes lts) t) as [lt Hlt]; [lia|]. destruct (zget_is_Some owns t) as [own Hown]; [lia|].
  destruct (Htape t lt _ own Hlt Ht Hown) as (Ho & _ & _ & Hw & _ & [(Hcur & Hfi & _ & _ & Hdi & _)|(cs & buf & _ & _ & Hwr & Hpos & Hnil & _)]).
  - cbn [run_ops run_op]. unfold LogicalTapeFreeze, on_tape. rewrite (aget_Ok _ _ _ Hlt), rbind_ret. unfold tape_freeze, flush.
    rewrite Hw, Ho, Hdi. cbn [negb andb Z.eqb]. rewrite rbind_ret. cbv zeta. change (firstBlockNumber (set_nbytes _ _)) with (firstBlockNumber lt).
    rewrite Hfi. change (curBlockNumber (if -1 =? -1 then ?x else ?y)) with (firstBlockNumber lt). by rewrite Hfi.
  - exfalso. symmetry in Hnil. unfold wbytes in Hnil. apply app_nil in Hnil as [_ Hnil].
    pose proof (wp_pos _ _ _ _ Hwr). pose proof (wp_data _ _ _ _ Hwr) as Hd. unfold payload_ok in Hd.
    assert (Hz : zlen (ztake (pos lt) (b_data buf)) = pos lt) by (apply zlen_ztake; lia).
    rewrite Hnil in Hz. unfold zlen in Hz. cbn in Hz. lia.
Qed.

Lemma freeze_of_empty_tape_fails_witness :
  run_ops zeros (LogicalTapeSetCreate 2 false) [OFreeze 1] = Error "could not seek to block of temporary file".
Proof. apply (freeze_of_empty_tape_fails 2 false _ (created 2 false).2); [apply rtc_refl|reflexivity]. Defined.
