(* ===== verification/LogTapeCells.v ===== *)
(** * The tapes of the sort are tapes of logtape.c

    tuplesort.c is modelled over [LogTape], where a tape holds length words and
    tuple bodies.  In memory these are bytes: [image] is their memory image, of
    which only the size matters here.  Every call of [LogTape] that succeeds is
    a call of logtape.c that succeeds, on the blocks of one file, with the image
    of the same result.  A position is told by [LogTape] for one placement of the
    blocks of a tape and by logtape.c for the placement its own allocation led
    to: what is sought later is the position each of them told. *)

From Stdlib Require Import ZArith Lia.
From stdpp Require Import base list sorting strings relations.
From S2P Require Import Prelude HeapTheory SortSupport LogTape.
From S2P Require Import LogTapeBlocks LogTapeFree LogTapeRep LogTapeWrite LogTapeRead LogTapeFrozen LogTapeSet LogTapeSpec.

Local Open Scope Z_scope.

(** The calls tuplesort.c makes on a tape set; [CSeek t k] seeks the position
    that the [k]-th call before it told. *)
Inductive cop :=
| CWrite (t : Z) (c : cell)
| CRewindForRead (t : Z)
| CRewindForWrite (t : Z)
| CFreeze (t : Z)
| CRead (t : Z)
| CBackspace (t size : Z)
| CTell (t : Z)
| CSeek (t : Z) (k : nat)
| CForgetFreeSpace.

Inductive cres :=
| CUnit
| CCell (c : option cell)
| CMoved (n : Z)
| CTold (tok : Z * Z).

(** The calls made so far, each with the size of the read buffer, should it be a
    rewind, and its result. *)
Definition history : Type := list (Z * cop * cres).

Definition crun (place : Z -> Z) (hist : history) (lts : LogTape.LogicalTapeSet) (op : cop)
    : res (LogTape.LogicalTapeSet * cres) :=
  match op with
  | CWrite t c => do! lts <- LogTape.LogicalTapeWrite lts t c ;; Ok (lts, CUnit)
  | CRewindForRead t => do! lts <- LogTape.LogicalTapeRewindForRead lts t ;; Ok (lts, CUnit)
  | CRewindForWrite t => do! lts <- LogTape.LogicalTapeRewindForWrite lts t ;; Ok (lts, CUnit)
  | CFreeze t => do! lts <- LogTape.LogicalTapeFreeze lts t ;; Ok (lts, CUnit)
  | CRead t => do! ' (lts, c) <- LogTape.LogicalTapeRead lts t ;; Ok (lts, CCell c)
  | CBackspace t size => do! ' (lts, n) <- LogTape.LogicalTapeBackspace lts t size ;; Ok (lts, CMoved n)
  | CTell t => do! tok <- LogTape.LogicalTapeTell place lts t ;; Ok (lts, CTold tok)
  | CSeek t k =>
    match hist !! k with
    | Some (_, CTell u, CTold (b, o)) =>
      if u =? t then do! lts <- LogTape.LogicalTapeSeek place lts t b o ;; Ok (lts, CUnit) else Crash
    | _ => Crash
    end
  | CForgetFreeSpace => Ok (LogTape.LogicalTapeSetForgetFreeSpace lts, CUnit)
  end.

Section images.
Context (image : cell -> list Z).

Definition images (cs : list cell) : list Z := concat (image <$> cs).

(** The call of logtape.c; a read asks for the size of the item that is next,
    or for a length word at the end.  [rs] are the results logtape.c gave so
    far. *)
Definition byte_call (rs : list lres) (size : Z) (op : cop) (r : cres) : res lop :=
  match op with
  | CWrite t c => Ok (OWrite t (image c))
  | CRewindForRead t => Ok (ORewindForRead t size)
  | CRewindForWrite t => Ok (ORewindForWrite t)
  | CFreeze t => Ok (OFreeze t)
  | CRead t => Ok (ORead t (match r with CCell (Some c) => cell_size c | _ => sizeof_uint end))
  | CBackspace t n => Ok (OBackspace t n)
  | CTell t => Ok (OTell t)
  | CSeek t k => match rs !! k with Some (RTold (b, o)) => Ok (OSeek t b o) | _ => Crash end
  | CForgetFreeSpace => Ok OForgetFreeSpace
  end.

(** The same result: the same bytes, the same distance, or some position. *)
Definition same_result (r : cres) (x : lres) : Prop :=
  match r with
  | CUnit => x = RUnit
  | CCell c => x = RBytes (match c with Some c => image c | None => [] end)
  | CMoved n => x = RMoved n
  | CTold _ => exists tok, x = RTold tok
  end.

(** The calls of a run of the sort, made on the blocks. *)
Fixpoint run_calls (junk : list Z) (lts : LogicalTapeSet) (rs : list lres) (tr : history)
    : res (LogicalTapeSet * list lres) :=
  match tr with
  | [] => Ok (lts, rs)
  | (size, op, r) :: tr =>
    do! call <- byte_call rs size op r ;;
    do! ' (lts, x) <- run_op junk lts call ;;
    run_calls junk lts (rs ++ [x]) tr
  end.

(** An item whose image has its size. *)
Definition sized (c : cell) : Prop := 0 < cell_size c /\ zlen (image c) = cell_size c.

Definition cell_rep (ct : LogTape.LogicalTape) (a : atape) : Prop :=
  Forall sized (cells ct) /\
  match a with
  | AWriting bs => LogTape.writing ct = true /\ LogTape.frozen ct = false /\ bs = images (cells ct)
  | AReading rest => LogTape.writing ct = false /\ LogTape.frozen ct = false /\
      0 <= tpos ct <= tape_size (cells ct) /\ rest = zdrop (tpos ct) (images (cells ct))
  | AFrozen bs p => LogTape.writing ct = false /\ LogTape.frozen ct = true /\ bs = images (cells ct) /\
      p = tpos ct /\ 0 <= tpos ct <= tape_size (cells ct) /\ block_loaded ct
  end.

Definition cells_rep (cts : LogTape.LogicalTapeSet) (s : aset) : Prop := Forall2 cell_rep cts (a_tapes s).

(** What the callers observe: items are written with their size, no tape is
    frozen empty, and a frozen tape is not read past its end. *)
Definition observes (cts : LogTape.LogicalTapeSet) (op : cop) : Prop :=
  match op with
  | CWrite _ c => sized c
  | CFreeze t => forall ct, zget cts t = Some ct -> cells ct <> []
  | CRead t => forall ct, zget cts t = Some ct -> LogTape.frozen ct = true -> tpos ct < tape_size (cells ct)
  | CBackspace _ n => 0 <= n
  | _ => True
  end.

Lemma images_zlen cs : Forall sized cs -> zlen (images cs) = tape_size cs.
Proof.
  induction 1 as [|c cs [_ Hc] _ IH]; [done|]. change (images (c :: cs)) with (image c ++ images cs).
  rewrite zlen_app, IH, Hc. done.
Qed.

Lemma images_snoc cs c : images (cs ++ [c]) = images cs ++ image c.
Proof. unfold images. rewrite fmap_app, concat_app. cbn. by rewrite app_nil_r. Qed.

Lemma cell_at_images cs p c :
  Forall sized cs -> 0 <= p -> cell_at cs p = Some c ->
  ztake (cell_size c) (zdrop p (images cs)) = image c /\ p + cell_size c <= tape_size cs /\ 0 < cell_size c.
Proof.
  intros H. revert p. induction H as [|d cs [Hd0 Hd] Hcs IH]; intros p Hp Hc; [done|]. cbn [cell_at] in Hc.
  change (images (d :: cs)) with (image d ++ images cs). change (tape_size (d :: cs)) with (cell_size d + tape_size cs).
  pose proof (images_zlen cs Hcs) as Hl. pose proof (zlen_nonneg (images cs)).
  destruct (Z.eqb_spec p 0) as [->|Hne].
  - injection Hc as ->. rewrite zdrop_0, <- Hd, ztake_app_all. split; [done|]. lia.
  - destruct (Z.lt_ge_cases (p - cell_size d) 0) as [Hneg|Hge].
    { exfalso. assert (Hin : forall q, q < 0 -> cell_at cs q = None); [|by rewrite Hin in Hc].
      clear -Hcs. induction Hcs as [|e cs [He _] _ IH]; intros q Hq; [done|]. cbn [cell_at].
      destruct (Z.eqb_spec q 0); [lia|]. apply IH. lia. }
    destruct (IH _ Hge Hc) as (Ht & Hle & Hpos). rewrite zdrop_app_r by lia. rewrite Hd. split; [done|]. lia.
Qed.

Lemma with_tape_inv cts t k cts' :
  LogTape.with_tape cts t k = Ok cts' ->
  exists ct ct', zget cts t = Some ct /\ k ct = Ok ct' /\ cts' = zset cts t ct'.
Proof.
  unfold LogTape.with_tape, aget. destruct (zget cts t) as [ct|] eqn:Hct; [|done]. rewrite rbind_ret.
  destruct (k ct) as [ct'| | |] eqn:Hk; try done. rewrite rbind_ret.
  pose proof (zget_bounds _ _ _ Hct). rewrite aset_Ok by done. intros [= <-]. by exists ct, ct'.
Qed.

Lemma cells_rep_get cts s t ct :
  cells_rep cts s -> zget cts t = Some ct -> exists a, zget (a_tapes s) t = Some a /\ cell_rep ct a.
Proof. intros H Hct. by apply (Forall2_zget_l cell_rep cts _ t ct). Qed.

Lemma cells_rep_put cts s t ct a :
  cells_rep cts s -> cell_rep ct a -> cells_rep (zset cts t ct) (on s t a).
Proof.
  intros H Hc. unfold cells_rep, on, zset. cbn [a_tapes]. destruct (Z.leb 0 t); [|done]. by apply Forall2_insert.
Qed.

(** The positions told so far, by [LogTape] and by logtape.c, are the same
    places on the same tapes. *)
Definition told_rep (place : Z -> Z) (hist : history) (rs : list lres) (s : aset) : Prop :=
  forall k size u b o, hist !! k = Some (size, CTell u, CTold (b, o)) ->
  exists tok n, rs !! k = Some (RTold tok) /\ b = place n /\ 0 <= n /\
    (u, tok, n * LogTape.TapeBlockPayloadSize + o) ∈ a_told s.

Definition placed (place : Z -> Z) : Prop := forall m n, 0 <= m -> 0 <= n -> place m = place n -> m = n.

(** A call of [LogTape] that tells no position is a step of the byte tapes. *)
Definition simulated (op : cop) : Prop :=
  forall place hist rs cts cts' r s size, placed place -> crun place hist cts op = Ok (cts', r) ->
  cells_rep cts s -> told_rep place hist rs s -> observes cts op ->
  exists call x s', byte_call rs size op r = Ok call /\ (forall t, call <> OTell t) /\
    same_result r x /\ aspec s call x s' /\ cells_rep cts' s'.

Lemma start_loaded w f cs : block_loaded (LogTape.mk_tape w f cs 0 0).
Proof. unfold block_loaded, LogTape.TapeBlockPayloadSize. cbn. lia. Qed.

Lemma write_step t c : simulated (CWrite t c).
Proof.
  intros place hist rs cts cts' r s size Hpl Hrun Hrep Htold Hobs. cbn [crun] in Hrun.
  destruct (LogTape.LogicalTapeWrite cts t c) as [l| | |] eqn:Hw; try done. rewrite rbind_ret in Hrun. injection Hrun as -> <-.
  apply with_tape_inv in Hw as (ct & ct' & Hct & Hk & ->). destruct (LogTape.writing ct) eqn:Hwr; [|done]. injection Hk as <-.
  destruct (cells_rep_get _ _ _ _ Hrep Hct) as (a & Ha & Hs & Hc).
  destruct a as [bs|rest|bs p]; [|by destruct Hc; congruence|by destruct Hc; congruence].
  destruct Hc as (_ & Hfr & ->). eexists _, _, _. do 2 (split; [done|]). split; [done|]. split; [apply (A_write s t _ _ Ha)|].
  - intros He. destruct Hobs as [H1 H2]. rewrite He in H2. unfold zlen in H2. cbn in H2. lia.
  - apply cells_rep_put; [done|]. split; [apply Forall_app; split; [done|by constructor]|].
    cbn [LogTape.writing LogTape.frozen cells]. by rewrite images_snoc.
Qed.

Lemma rewind_read_step t : simulated (CRewindForRead t).
Proof.
  intros place hist rs cts cts' r s size Hpl Hrun Hrep Htold Hobs. cbn [crun] in Hrun.
  destruct (LogTape.LogicalTapeRewindForRead cts t) as [l| | |] eqn:Hw; try done. rewrite rbind_ret in Hrun. injection Hrun as -> <-.
  apply with_tape_inv in Hw as (ct & ct' & Hct & Hk & ->).
  destruct (LogTape.writing ct || LogTape.frozen ct) eqn:Hwr; [|done]. injection Hk as <-.
  destruct (cells_rep_get _ _ _ _ Hrep Hct) as (a & Ha & Hs & Hc). pose proof (images_zlen _ Hs) as Hz.
  pose proof (zlen_nonneg (images (cells ct))). destruct a as [bs|rest|bs p].
  - destruct Hc as (_ & Hfr & ->). eexists _, _, _. do 2 (split; [done|]). split; [done|]. split; [by apply (A_rewind_read s t)|]. apply cells_rep_put; [done|].
    split; [done|]. cbn [LogTape.writing LogTape.frozen cells tpos]. split; [done|]. split; [done|]. split; [lia|done].
  - destruct Hc as (Hw & Hf & _). rewrite Hw, Hf in Hwr. done.
  - destruct Hc as (_ & Hfr & -> & _). eexists _, _, _. do 2 (split; [done|]). split; [done|]. split; [by apply (A_rewind_frozen s t (images (cells ct)) p)|]. apply cells_rep_put; [done|].
    split; [done|]. cbn [LogTape.writing LogTape.frozen cells tpos]. do 4 (split; [done|]). split; [lia|apply start_loaded].
Qed.

Lemma rewind_write_step t : simulated (CRewindForWrite t).
Proof.
  intros place hist rs cts cts' r s size Hpl Hrun Hrep Htold Hobs. cbn [crun] in Hrun.
  destruct (LogTape.LogicalTapeRewindForWrite cts t) as [l| | |] eqn:Hw; try done. rewrite rbind_ret in Hrun. injection Hrun as -> <-.
  apply with_tape_inv in Hw as (ct & ct' & Hct & Hk & ->).
  destruct (LogTape.writing ct || LogTape.frozen ct) eqn:Hwr; [done|]. injection Hk as <-. apply orb_false_iff in Hwr as [Hwr Hfr].
  destruct (cells_rep_get _ _ _ _ Hrep Hct) as (a & Ha & Hs & Hc).
  destruct a as [bs|rest|bs p]; [by destruct Hc; congruence| |by destruct Hc as (_ & ? & _); congruence].
  eexists _, _, _. do 2 (split; [done|]). split; [done|]. split; [by apply (A_rewind_write s t rest)|]. apply cells_rep_put; [done|]. by split.
Qed.

Lemma freeze_step t : simulated (CFreeze t).
Proof.
  intros place hist rs cts cts' r s size Hpl Hrun Hrep Htold Hobs. cbn [crun] in Hrun.
  destruct (LogTape.LogicalTapeFreeze cts t) as [l| | |] eqn:Hw; try done. rewrite rbind_ret in Hrun. injection Hrun as -> <-.
  apply with_tape_inv in Hw as (ct & ct' & Hct & Hk & ->). destruct (LogTape.writing ct) eqn:Hwr; [|done]. injection Hk as <-.
  destruct (cells_rep_get _ _ _ _ Hrep Hct) as (a & Ha & Hs & Hc). specialize (Hobs ct Hct).
  destruct a as [bs|rest|bs p]; [|by destruct Hc; congruence|by destruct Hc; congruence].
  destruct Hc as (_ & Hfr & ->). pose proof (images_zlen _ Hs) as Hz. pose proof (zlen_nonneg (images (cells ct))).
  eexists _, _, _. do 2 (split; [done|]). split; [done|]. split; [apply (A_freeze s t _ Ha)|].
  - destruct Hs as [|c cs [Hc1 Hc2] _]; [done|]. intros He. change (image c ++ images cs = []) in He.
    apply app_nil in He as [He _]. rewrite He in Hc2. unfold zlen in Hc2. cbn in Hc2. lia.
  - apply cells_rep_put; [done|]. split; [done|]. cbn [LogTape.writing LogTape.frozen cells tpos]. do 4 (split; [done|]).
    split; [lia|apply start_loaded].
Qed.

Lemma read_step t : simulated (CRead t).
Proof.
  intros place hist rs cts cts' r s size Hpl Hrun Hrep Htold Hobs. cbn [crun] in Hrun.
  destruct (LogTape.LogicalTapeRead cts t) as [[l c]| | |] eqn:Hw; try done. rewrite rbind_ret in Hrun. injection Hrun as -> <-.
  unfold LogTape.LogicalTapeRead, aget in Hw. destruct (zget cts t) as [ct|] eqn:Hct; [|done]. rewrite rbind_ret in Hw.
  destruct (LogTape.writing ct) eqn:Hwr; [done|]. destruct (cells_rep_get _ _ _ _ Hrep Hct) as (a & Ha & Hs & Hc).
  specialize (Hobs ct Hct). pose proof (images_zlen _ Hs) as Hz.
  destruct (Z.eqb_spec (tpos ct) (tape_size (cells ct))) as [Hend|Hin].
  - injection Hw as -> <-. destruct a as [bs|rest|bs p]; [by destruct Hc; congruence| |].
    2:{ destruct Hc as (_ & Hfr & _). specialize (Hobs Hfr). lia. }
    destruct Hc as (_ & Hfr & Hpos & ->). cbn [byte_call same_result].
    assert (Hnil : zdrop (tpos ct) (images (cells ct)) = []) by (unfold zdrop; apply drop_ge; unfold zlen in Hz; lia).
    rewrite Hnil in *. exists (ORead t sizeof_uint), (RBytes []), (on s t (AReading [])).
    do 3 (split; [done|]). split.
    + exact (A_read s t [] sizeof_uint Ha).
    + rewrite <- (zset_id cts' t ct Hct). apply cells_rep_put; [done|]. split; [done|]. by rewrite Hnil.
  - destruct (cell_at (cells ct) (tpos ct)) as [c'|] eqn:Hcell; [|done].
    pose proof (zget_bounds _ _ _ Hct). rewrite aset_Ok, rbind_ret in Hw by done. injection Hw as <- <-. cbn [byte_call same_result].
    destruct a as [bs|rest|bs p]; [by destruct Hc; congruence| |].
    + destruct Hc as (_ & Hfr & Hpos & ->). destruct (cell_at_images _ _ _ Hs (proj1 Hpos) Hcell) as (Htk & Hle & Hsz).
      eexists _, _, _. do 2 (split; [done|]). split; [done|]. split; [rewrite <- Htk; by apply (A_read s t)|]. apply cells_rep_put; [done|]. split; [done|].
      cbn [LogTape.writing LogTape.frozen cells tpos]. split; [done|]. split; [done|]. split; [lia|]. by rewrite zdrop_zdrop by lia.
    + destruct Hc as (_ & Hfr & -> & -> & Hpos & _). destruct (cell_at_images _ _ _ Hs (proj1 Hpos) Hcell) as (Htk & Hle & Hsz).
      eexists _, _, _. do 2 (split; [done|]). split; [done|]. split; [rewrite <- Htk; apply (A_read_frozen s t); [done|lia|lia]|]. apply cells_rep_put; [done|]. split; [done|].
      cbn [LogTape.writing LogTape.frozen cells tpos]. do 4 (split; [done|]). split; [lia|].
      unfold block_loaded. cbn [tblk tpos]. apply byte_block. lia.
Qed.

Lemma backspace_step t n : simulated (CBackspace t n).
Proof.
  intros place hist rs cts cts' r s size Hpl Hrun Hrep Htold Hobs. cbn [crun] in Hrun.
  destruct (LogTape.LogicalTapeBackspace cts t n) as [[l m]| | |] eqn:Hw; try done. rewrite rbind_ret in Hrun. injection Hrun as -> <-.
  unfold LogTape.LogicalTapeBackspace, aget in Hw. destruct (zget cts t) as [ct|] eqn:Hct; [|done]. rewrite rbind_ret in Hw.
  destruct (LogTape.frozen ct) eqn:Hfr; [|done]. cbn [negb] in Hw. pose proof (zget_bounds _ _ _ Hct).
  rewrite aset_Ok, rbind_ret in Hw by done. injection Hw as <- <-.
  destruct (cells_rep_get _ _ _ _ Hrep Hct) as (a & Ha & Hs & Hc).
  destruct a as [bs|rest|bs p]; [by destruct Hc as (_ & ? & _); congruence|by destruct Hc as (_ & ? & _); congruence|].
  destruct Hc as (_ & _ & -> & -> & Hpos & Hld). cbn in Hobs. eexists _, _, _. do 2 (split; [done|]). split; [done|].
  split; [by apply (A_backspace s t)|]. apply cells_rep_put; [done|]. split; [done|].
  cbn [LogTape.writing LogTape.frozen cells tpos]. do 4 (split; [done|]). split; [lia|]. apply loaded_back; [done|lia].
Qed.

Lemma seek_step t k : simulated (CSeek t k).
Proof.
  intros place hist rs cts cts' r s size Hpl Hrun Hrep Htold Hobs. cbn [crun] in Hrun.
  destruct (hist !! k) as [[[sz [| | | | | |u| |]] [| | |[b o]]]|] eqn:Hk; try done.
  destruct (Z.eqb_spec u t) as [->|]; [|done].
  destruct (LogTape.LogicalTapeSeek place cts t b o) as [l| | |] eqn:Hw; try done. rewrite rbind_ret in Hrun. injection Hrun as -> <-.
  destruct (Htold k sz t b o Hk) as ([b' o'] & n & Hrs & -> & Hn & Hin).
  apply with_tape_inv in Hw as (ct & ct' & Hct & Hseek & ->). cbv zeta in Hseek.
  destruct (LogTape.frozen ct) eqn:Hfr; [|done]. cbn [negb orb] in Hseek.
  destruct (Z.ltb_spec o 0); [done|]. destruct (Z.ltb_spec LogTape.TapeBlockPayloadSize o); [done|]. cbn [orb] in Hseek.
  destruct (find_block _ _ _) as [m|] eqn:Hfind; [|done]. apply find_block_Some in Hfind as [Hm Hplace].
  apply Hpl in Hplace as ->; [|lia|done].
  destruct (Z.leb_spec (n * LogTape.TapeBlockPayloadSize + o) (tape_size (cells ct))) as [Hle|]; [|by destruct (n =? tblk ct)].
  injection Hseek as <-. destruct (cells_rep_get _ _ _ _ Hrep Hct) as (a & Ha & Hs & Hc).
  destruct a as [bs|rest|bs p]; [by destruct Hc as (_ & ? & _); congruence|by destruct Hc as (_ & ? & _); congruence|].
  destruct Hc as (_ & _ & -> & -> & _). cbn [byte_call]. rewrite Hrs. eexists _, _, _. do 2 (split; [done|]). split; [done|].
  split; [by apply (A_seek s t (images (cells ct)) (tpos ct))|]. apply cells_rep_put; [done|]. split; [done|].
  cbn [LogTape.writing LogTape.frozen cells tpos]. do 4 (split; [done|]). unfold block_loaded. cbn [tblk tpos].
  unfold LogTape.TapeBlockPayloadSize in *. lia.
Qed.

Lemma forget_step : simulated CForgetFreeSpace.
Proof.
  intros place hist rs cts cts' r s size _ Hrun Hrep _ _. cbn [crun] in Hrun. unfold LogTape.LogicalTapeSetForgetFreeSpace in Hrun.
  injection Hrun as <- <-. eexists _, _, s. do 3 (split; [done|]). split; [apply A_forget|done].
Qed.

Lemma cell_step op : (forall t, op <> CTell t) -> simulated op.
Proof.
  intros Hnt. destruct op; [apply write_step|apply rewind_read_step|apply rewind_write_step|apply freeze_step|
    apply read_step|apply backspace_step|by destruct (Hnt t)|apply seek_step|apply forget_step].
Qed.

(** A position that is told is that of the byte tape. *)
Lemma tell_inv place hist cts cts' r s t :
  crun place hist cts (CTell t) = Ok (cts', r) -> cells_rep cts s ->
  exists bs n o, cts' = cts /\ r = CTold (place n, o) /\ 0 <= n /\
    zget (a_tapes s) t = Some (AFrozen bs (n * LogTape.TapeBlockPayloadSize + o)).
Proof.
  cbn [crun]. unfold LogTape.LogicalTapeTell, aget. destruct (zget cts t) as [ct|] eqn:Hct; [|done]. rewrite rbind_ret.
  destruct (LogTape.frozen ct) eqn:Hfr; [|done]. rewrite rbind_ret. intros [= -> <-] Hrep.
  destruct (cells_rep_get _ _ _ _ Hrep Hct) as (a & Ha & Hs & Hc).
  destruct a as [bs|rest|bs p]; [by destruct Hc as (_ & ? & _); congruence|by destruct Hc as (_ & ? & _); congruence|].
  destruct Hc as (_ & _ & -> & -> & _ & Hl0 & Hl). exists (images (cells ct)), (tblk ct), (tpos ct - tblk ct * LogTape.TapeBlockPayloadSize).
  do 3 (split; [done|]). by replace (tblk ct * LogTape.TapeBlockPayloadSize + (tpos ct - tblk ct * LogTape.TapeBlockPayloadSize)) with (tpos ct) by lia.
Qed.

Lemma aspec_res_det s op r1 s1 r2 s2 :
  (forall t, op <> OTell t) -> aspec s op r1 s1 -> aspec s op r2 s2 -> r1 = r2.
Proof.
  intros Hnt H1 H2. inversion H1; subst; inversion H2; subst; try done; try (by destruct (Hnt t)); congruence.
Qed.

Lemma create_cells n pre : cells_rep (LogTape.LogicalTapeSetCreate n) (created n pre).2.
Proof.
  unfold cells_rep, LogTape.LogicalTapeSetCreate. cbn [created snd a_tapes]. apply Forall2_replicate.
  split; [constructor|]. by repeat split.
Qed.

Lemma aspec_told s op r s' x : aspec s op r s' -> x ∈ a_told s -> x ∈ a_told s'.
Proof. intros Hsp Hx. destruct Hsp; cbn [on a_told]; try done. by right. Qed.

(** The history grows by a call and its result. *)
Lemma told_rep_app place hist rs s size op r x s' :
  told_rep place hist rs s -> length hist = length rs -> (forall y, y ∈ a_told s -> y ∈ a_told s') ->
  (forall u b o, op = CTell u -> r = CTold (b, o) -> exists tok n, x = RTold tok /\ b = place n /\ 0 <= n /\
     (u, tok, n * LogTape.TapeBlockPayloadSize + o) ∈ a_told s') ->
  told_rep place (hist ++ [(size, op, r)]) (rs ++ [x]) s'.
Proof.
  intros Ht Hlen Hmono Hnew k sz u b o Hk. apply lookup_app_Some in Hk as [Hk|[Hge Hk]].
  - destruct (Ht k sz u b o Hk) as (tok & n & Hrs & Hb & Hn & Hin). exists tok, n.
    split; [by apply lookup_app_l_Some|]. split; [done|]. split; [done|]. by apply Hmono.
  - apply list_lookup_singleton_Some in Hk as [Hi [= -> -> ->]].
    destruct (Hnew u b o eq_refl eq_refl) as (tok & n & -> & Hrest). exists tok, n. split; [|done].
    rewrite lookup_app_r by lia. rewrite <- Hlen. by replace (k - length hist)%nat with O by lia.
Qed.

(** A run over [LogTape] with its blocks placed by [place], after [hist]. *)
Inductive tape_trace (place : Z -> Z) : history -> LogTape.LogicalTapeSet -> history -> LogTape.LogicalTapeSet -> Prop :=
| trace_nil hist cts : tape_trace place hist cts [] cts
| trace_call hist cts size op r cts1 tr cts2 :
    observes cts op -> crun place hist cts op = Ok (cts1, r) ->
    tape_trace place (hist ++ [(size, op, r)]) cts1 tr cts2 ->
    tape_trace place hist cts ((size, op, r) :: tr) cts2.

Section runs.
Context (ntapes : Z) (pre : bool) (junk : list Z) (Hjunk : payload_ok junk) (place : Z -> Z) (Hplace : placed place).

(** One call on both sides. *)
Lemma call_refines hist rs cts cts' size op r lts s :
  crun place hist cts op = Ok (cts', r) -> observes cts op -> reachable ntapes pre lts s -> cells_rep cts s ->
  told_rep place hist rs s -> length hist = length rs ->
  exists call lts' x s', byte_call rs size op r = Ok call /\ run_op junk lts call = Ok (lts', x) /\ same_result r x /\
    reachable ntapes pre lts' s' /\ cells_rep cts' s' /\ told_rep place (hist ++ [(size, op, r)]) (rs ++ [x]) s'.
Proof.
  intros Hrun Hobs Hre Hrep Htold Hlen. assert (Hop : (exists t, op = CTell t) \/ forall t, op <> CTell t) by (destruct op; eauto; by right).
  destruct Hop as [[t ->]|Hnt].
  - destruct (tell_inv _ _ _ _ _ _ _ Hrun Hrep) as (bs & n & o & -> & -> & Hn & Ha).
    destruct (reachable_step _ _ _ _ junk _ _ _ Hre Hjunk (A_tell s t bs _ (0, 0) Ha)) as (l1 & x & s1 & Hr1 & Hsp & Hre1 & _).
    inversion Hsp as [| | | | | | | |? ? p tok Ha'| | |]; subst. rewrite Ha in Ha'. injection Ha' as _ <-.
    eexists _, l1, _, _. split; [reflexivity|]. split; [exact Hr1|]. split; [by eexists|]. split; [exact Hre1|]. split; [done|].
    apply (told_rep_app place hist rs s); [done|done|by intros; right|].
    intros u b o' [= <-] [= <- <-]. exists tok, n. do 3 (split; [done|]). by left.
  - destruct (cell_step op) with place hist rs cts cts' r s size as (call & x & s1 & Hcall & Hct & Hsame & Hsp & Hrep1); try done.
    destruct (reachable_call ntapes pre lts s junk _ _ _ Hre Hjunk Hsp) as (l1 & Hr1 & Hre1).
    { intros r' s' Hsp'. by refine (aspec_res_det _ _ _ _ _ _ _ Hsp' Hsp). }
    exists call, l1, x, s1. do 5 (split; [done|]). apply (told_rep_app place hist rs s); [done|done| |].
    + intros y. by apply (aspec_told _ _ _ _ y Hsp).
    + intros u b o -> _. by destruct (Hnt u).
Qed.

Lemma trace_refines hist rs cts tr cts' lts s :
  tape_trace place hist cts tr cts' -> reachable ntapes pre lts s -> cells_rep cts s -> told_rep place hist rs s ->
  length hist = length rs ->
  exists lts' s' xs, run_calls junk lts rs tr = Ok (lts', rs ++ xs) /\ Forall2 same_result (snd <$> tr) xs /\
    reachable ntapes pre lts' s' /\ cells_rep cts' s'.
Proof.
  intros Htr. revert rs lts s. induction Htr as [hist cts|hist cts size op r cts1 tr cts2 Hobs Hrun Htr IH];
    intros rs lts s Hre Hrep Htold Hlen.
  { exists lts, s, []. rewrite app_nil_r. by split. }
  destruct (call_refines hist rs cts cts1 size op r lts s Hrun Hobs Hre Hrep Htold Hlen)
    as (call & l1 & x & s1 & Hcall & Hr1 & Hx & Hre1 & Hrep1 & Htold1).
  destruct (IH (rs ++ [x]) l1 s1 Hre1 Hrep1 Htold1) as (l2 & s2 & xs & Hr2 & Hxs & Hre2 & Hrep2).
  { rewrite !length_app. cbn. lia. }
  exists l2, s2, (x :: xs). split; [|split; [by constructor|done]].
  cbn [run_calls]. by rewrite Hcall, rbind_ret, Hr1, rbind_ret, Hr2, <- app_assoc.
Qed.
End runs.
End images.

(** C33. Refinement.  logtape.c implements the tapes the sort is modelled over.
    Take any run, from a fresh set, of the tape calls tuplesort.c uses (write,
    rewind for read and for write, freeze, read, backspace, tell, seek and forget
    free space) that [LogTape] accepts and in which items are written with their
    size, no tape is frozen empty and no frozen tape is read past its end.  The
    same calls of logtape.c on the memory images of the items, each seek going to
    the position logtape.c itself told, succeed one after the other and return
    the images of the same results, in a set whose blocks stand for the tapes
    reached. *)
Theorem logtape_implements_sort_tapes (image : cell -> list Z) place ntapes preallocate junk tr cts' :
  placed place -> tape_trace image place [] (LogTape.LogicalTapeSetCreate ntapes) tr cts' -> payload_ok junk ->
  exists lts' s' rs, run_calls image junk (LogicalTapeSetCreate ntapes preallocate) [] tr = Ok (lts', rs) /\
    Forall2 (same_result image) (snd <$> tr) rs /\
    reachable ntapes preallocate lts' s' /\ cells_rep image cts' s'.
Proof.
  intros Hpl Htr Hj. apply (trace_refines image ntapes preallocate junk Hj place Hpl [] [] _ tr cts' _ (created ntapes preallocate).2 Htr);
    [apply rtc_refl|apply create_cells|by intros k ? ? ? ?|done].
Qed.

(** A length word as four bytes, a body as its size in bytes. *)
Definition demo_image (c : cell) : list Z :=
  match c with
  | LenWord len => [len mod 256; (len / 256) mod 256; (len / 65536) mod 256; (len / 16777216) mod 256]
  | Body t => replicate (Z.to_nat (cell_size (Body t))) 1
  end.

(** Two tapes written, one of them frozen, read, told, moved back and sought. *)
Definition demo_calls : history :=
  [(0, CWrite 1 (LenWord 513), CUnit); (0, CWrite 0 (LenWord 5), CUnit); (0, CFreeze 1, CUnit);
   (0, CRead 1, CCell (Some (LenWord 513))); (0, CTell 1, CTold (3, 4)); (0, CBackspace 1 10, CMoved 4);
   (0, CSeek 1 4, CUnit); (8192, CRewindForRead 0, CUnit); (0, CForgetFreeSpace, CUnit);
   (0, CRead 0, CCell (Some (LenWord 5))); (0, CRead 0, CCell None)].

Lemma logtape_implements_sort_tapes_witness :
  exists lts' s' rs, run_calls demo_image zeros (LogicalTapeSetCreate 2 false) [] demo_calls = Ok (lts', rs) /\
    Forall2 (same_result demo_image) (snd <$> demo_calls) rs /\ reachable 2 false lts' s' /\
    cells_rep demo_image [LogTape.mk_tape false false [LenWord 5] 4 0; LogTape.mk_tape false true [LenWord 513] 4 0] s'.
Proof.
  apply (logtape_implements_sort_tapes demo_image (fun n => 2 * n + 3) 2 false zeros demo_calls).
  - intros m n _ _ Heq. lia.
  - unfold demo_calls. repeat (eapply trace_call; [|reflexivity|]); [split; reflexivity|split; reflexivity|..].
    + intros ct [= <-]. discriminate.
    + intros ct [= <-] _. reflexivity.
    + exact I.
    + discriminate.
    + exact I.
    + exact I.
    + exact I.
    + intros ct [= <-]. discriminate.
    + intros ct [= <-]. discriminate.
    + apply trace_nil.
  - apply zeros_ok.
Defined.
