(* ===== verification/TuplesortState.v ===== *)
(** * The state of a sort: [Tuplesortstate] of utils/sort/tuplesort.c

    The record has the fields of the C struct that a serial heap-tuple sort
    uses, one assignment function per field, and the memory accounting the
    sort does against [work_mem].  Memory contexts, the slab allocator's free
    list (a recycler of tuple memory) and the parallel-sort fields are not
    part of it.  A [NULL] [memtuples] is the empty list: every array the code
    allocates has at least one entry. *)

From Stdlib Require Import ZArith Lia.
From stdpp Require Import base list sorting strings.
From S2P Require Import Prelude SortSupport LogTape.

Local Open Scope Z_scope.

Inductive TupSortStatus :=
| TSS_INITIAL
| TSS_BOUNDED
| TSS_BUILDRUNS
| TSS_SORTEDINMEM
| TSS_SORTEDONTAPE
| TSS_FINALMERGE.

#[global] Instance TupSortStatus_eq_dec : EqDecision TupSortStatus.
Proof. solve_decision. Defined.

(** ** Allocation sizes

    The space [GetMemoryChunkSpace] reports for a chunk of an allocation set
    with the default block sizes: small requests are rounded up to a power of
    two, large ones get a block of their own; the chunk header comes on top. *)
Definition sizeof_SortTuple : Z := 24.
Definition ALLOC_CHUNK_LIMIT : Z := 8192.
Definition ALLOC_CHUNKHDRSZ : Z := 16.
Definition ALLOC_MINBITS : Z := 3.

Definition MAXALIGN (len : Z) : Z := Z.land (len + 7) (Z.lnot 7).

Definition AllocSetFreeIndex (size : Z) : Z :=
  if size >? Z.shiftl 1 ALLOC_MINBITS then Z.log2 (size - 1) - ALLOC_MINBITS + 1 else 0.

Definition AllocSetChunkSize (size : Z) : Z :=
  if size >? ALLOC_CHUNK_LIMIT then MAXALIGN size
  else Z.shiftl (Z.shiftl 1 ALLOC_MINBITS) (AllocSetFreeIndex size).

Definition GetMemoryChunkSpace (size : Z) : Z := AllocSetChunkSize size + ALLOC_CHUNKHDRSZ.

Definition BLCKSZ : Z := 8192.
Definition INITIAL_MEMTUPSIZE : Z := Z.max 1024 (ALLOC_CHUNK_LIMIT / sizeof_SortTuple + 1).
Definition MINORDER : Z := 6.
Definition MAXORDER : Z := 500.
Definition TAPE_BUFFER_OVERHEAD : Z := BLCKSZ.
Definition MERGE_BUFFER_SIZE : Z := BLCKSZ * 32.
Definition SLAB_SLOT_SIZE : Z := 1024.
Definition MaxAllocHugeSize : Z := INT64_MAX.

(** What the sort calls but is not in its source: the quicksort routines the
    build generates, the floating-point product [memtupsize * grow_ratio]
    (truncated, by [memtupsize], [allowedMem] and [memNowUsed]), the number of
    blocks a tape set occupies, which is only reported, and the block of the
    file that holds the [n]-th block of the result tape, which depends on the
    blocks that were free when it was written. *)
Record SortEnv := mk_env {
  qsort_tuple : (SortTuple -> SortTuple -> Z) -> list SortTuple -> list SortTuple;
  qsort_ssup : SortSupportData -> list SortTuple -> list SortTuple;
  scaled_size : Z -> Z -> Z -> Z;
  LogicalTapeSetBlocks : LogicalTapeSet -> Z;
  tape_block : Z -> Z
}.

(** The single-key comparison of the generated [qsort_ssup]. *)
Definition cmp_ssup (k : SortSupportData) (a b : SortTuple) : Z :=
  ApplySortComparator (datum1 a) (isnull1 a) (datum1 b) (isnull1 b) k.

(** A sort routine sorts: the result is an ordered rearrangement.  No block of
    the file holds two blocks of a tape. *)
Class SortEnvOk (E : SortEnv) : Prop := {
  qsort_tuple_perm : forall cmp l, qsort_tuple E cmp l ≡ₚ l;
  qsort_tuple_sorted : forall cmp l, Comparator cmp ->
    StronglySorted (cle cmp) (qsort_tuple E cmp l);
  qsort_ssup_perm : forall k l, qsort_ssup E k l ≡ₚ l;
  qsort_ssup_sorted : forall k l, Comparator (cmp_ssup k) ->
    StronglySorted (cle (cmp_ssup k)) (qsort_ssup E k l);
  tape_block_inj : forall m n, 0 <= m -> 0 <= n -> tape_block E m = tape_block E n -> m = n
}.

Record Tuplesortstate := mk_ts {
  status : TupSortStatus;
  randomAccess : bool;
  bounded : bool;
  boundUsed : bool;
  bound : Z;
  availMem : Z;
  allowedMem : Z;
  maxTapes : Z;
  tapeRange : Z;
  maxSpace : Z;
  isMaxSpaceDisk : bool;
  maxSpaceStatus : TupSortStatus;
  tapeset : option LogicalTapeSet;
  memtuples : list SortTuple;
  memtupcount : Z;
  memtupsize : Z;
  growmemtuples : bool;
  slabAllocatorUsed : bool;
  read_buffer_size : Z;
  currentRun : Z;
  mergeactive : list bool;
  Level : Z;
  destTape : Z;
  tp_fib : list Z;
  tp_runs : list Z;
  tp_dummy : list Z;
  tp_tapenum : list Z;
  activeTapes : Z;
  result_tape : Z;
  current : Z;
  eof_reached : bool;
  markpos_block : Z;
  markpos_offset : Z;
  markpos_eof : bool;
  sortKeys : list SortSupportData;
  onlyKey : bool;
  abbrevNext : Z
}.

(** Assignments to the fields. *)
Definition set_status (v : TupSortStatus) (s : Tuplesortstate) : Tuplesortstate :=
  mk_ts v (randomAccess s) (bounded s) (boundUsed s) (bound s) (availMem s) (allowedMem s)
    (maxTapes s) (tapeRange s) (maxSpace s) (isMaxSpaceDisk s) (maxSpaceStatus s) (tapeset s)
    (memtuples s) (memtupcount s) (memtupsize s) (growmemtuples s) (slabAllocatorUsed s)
    (read_buffer_size s) (currentRun s) (mergeactive s) (Level s) (destTape s) (tp_fib s)
    (tp_runs s) (tp_dummy s) (tp_tapenum s) (activeTapes s) (result_tape s) (current s)
    (eof_reached s) (markpos_block s) (markpos_offset s) (markpos_eof s) (sortKeys s) (onlyKey
    s) (abbrevNext s).
Definition set_randomAccess (v : bool) (s : Tuplesortstate) : Tuplesortstate :=
  mk_ts (status s) v (bounded s) (boundUsed s) (bound s) (availMem s) (allowedMem s) (maxTapes
    s) (tapeRange s) (maxSpace s) (isMaxSpaceDisk s) (maxSpaceStatus s) (tapeset s) (memtuples
    s) (memtupcount s) (memtupsize s) (growmemtuples s) (slabAllocatorUsed s) (read_buffer_size
    s) (currentRun s) (mergeactive s) (Level s) (destTape s) (tp_fib s) (tp_runs s) (tp_dummy
    s) (tp_tapenum s) (activeTapes s) (result_tape s) (current s) (eof_reached s)
    (markpos_block s) (markpos_offset s) (markpos_eof s) (sortKeys s) (onlyKey s) (abbrevNext
    s).
Definition set_bounded (v : bool) (s : Tuplesortstate) : Tuplesortstate :=
  mk_ts (status s) (randomAccess s) v (boundUsed s) (bound s) (availMem s) (allowedMem s)
    (maxTapes s) (tapeRange s) (maxSpace s) (isMaxSpaceDisk s) (maxSpaceStatus s) (tapeset s)
    (memtuples s) (memtupcount s) (memtupsize s) (growmemtuples s) (slabAllocatorUsed s)
    (read_buffer_size s) (currentRun s) (mergeactive s) (Level s) (destTape s) (tp_fib s)
    (tp_runs s) (tp_dummy s) (tp_tapenum s) (activeTapes s) (result_tape s) (current s)
    (eof_reached s) (markpos_block s) (markpos_offset s) (markpos_eof s) (sortKeys s) (onlyKey
    s) (abbrevNext s).
Definition set_boundUsed (v : bool) (s : Tuplesortstate) : Tuplesortstate :=
  mk_ts (status s) (randomAccess s) (bounded s) v (bound s) (availMem s) (allowedMem s)
    (maxTapes s) (tapeRange s) (maxSpace s) (isMaxSpaceDisk s) (maxSpaceStatus s) (tapeset s)
    (memtuples s) (memtupcount s) (memtupsize s) (growmemtuples s) (slabAllocatorUsed s)
    (read_buffer_size s) (currentRun s) (mergeactive s) (Level s) (destTape s) (tp_fib s)
    (tp_runs s) (tp_dummy s) (tp_tapenum s) (activeTapes s) (result_tape s) (current s)
    (eof_reached s) (markpos_block s) (markpos_offset s) (markpos_eof s) (sortKeys s) (onlyKey
    s) (abbrevNext s).
Definition set_bound (v : Z) (s : Tuplesortstate) : Tuplesortstate :=
  mk_ts (status s) (randomAccess s) (bounded s) (boundUsed s) v (availMem s) (allowedMem s)
    (maxTapes s) (tapeRange s) (maxSpace s) (isMaxSpaceDisk s) (maxSpaceStatus s) (tapeset s)
    (memtuples s) (memtupcount s) (memtupsize s) (growmemtuples s) (slabAllocatorUsed s)
    (read_buffer_size s) (currentRun s) (mergeactive s) (Level s) (destTape s) (tp_fib s)
    (tp_runs s) (tp_dummy s) (tp_tapenum s) (activeTapes s) (result_tape s) (current s)
    (eof_reached s) (markpos_block s) (markpos_offset s) (markpos_eof s) (sortKeys s) (onlyKey
    s) (abbrevNext s).
Definition set_availMem (v : Z) (s : Tuplesortstate) : Tuplesortstate :=
  mk_ts (status s) (randomAccess s) (bounded s) (boundUsed s) (bound s) v (allowedMem s)
    (maxTapes s) (tapeRange s) (maxSpace s) (isMaxSpaceDisk s) (maxSpaceStatus s) (tapeset s)
    (memtuples s) (memtupcount s) (memtupsize s) (growmemtuples s) (slabAllocatorUsed s)
    (read_buffer_size s) (currentRun s) (mergeactive s) (Level s) (destTape s) (tp_fib s)
    (tp_runs s) (tp_dummy s) (tp_tapenum s) (activeTapes s) (result_tape s) (current s)
    (eof_reached s) (markpos_block s) (markpos_offset s) (markpos_eof s) (sortKeys s) (onlyKey
    s) (abbrevNext s).
Definition set_allowedMem (v : Z) (s : Tuplesortstate) : Tuplesortstate :=
  mk_ts (status s) (randomAccess s) (bounded s) (boundUsed s) (bound s) (availMem s) v
    (maxTapes s) (tapeRange s) (maxSpace s) (isMaxSpaceDisk s) (maxSpaceStatus s) (tapeset s)
    (memtuples s) (memtupcount s) (memtupsize s) (growmemtuples s) (slabAllocatorUsed s)
    (read_buffer_size s) (currentRun s) (mergeactive s) (Level s) (destTape s) (tp_fib s)
    (tp_runs s) (tp_dummy s) (tp_tapenum s) (activeTapes s) (result_tape s) (current s)
    (eof_reached s) (markpos_block s) (markpos_offset s) (markpos_eof s) (sortKeys s) (onlyKey
    s) (abbrevNext s).
Definition set_maxTapes (v : Z) (s : Tuplesortstate) : Tuplesortstate :=
  mk_ts (status s) (randomAccess s) (bounded s) (boundUsed s) (bound s) (availMem s)
    (allowedMem s) v (tapeRange s) (maxSpace s) (isMaxSpaceDisk s) (maxSpaceStatus s) (tapeset
    s) (memtuples s) (memtupcount s) (memtupsize s) (growmemtuples s) (slabAllocatorUsed s)
    (read_buffer_size s) (currentRun s) (mergeactive s) (Level s) (destTape s) (tp_fib s)
    (tp_runs s) (tp_dummy s) (tp_tapenum s) (activeTapes s) (result_tape s) (current s)
    (eof_reached s) (markpos_block s) (markpos_offset s) (markpos_eof s) (sortKeys s) (onlyKey
    s) (abbrevNext s).
Definition set_tapeRange (v : Z) (s : Tuplesortstate) : Tuplesortstate :=
  mk_ts (status s) (randomAccess s) (bounded s) (boundUsed s) (bound s) (availMem s)
    (allowedMem s) (maxTapes s) v (maxSpace s) (isMaxSpaceDisk s) (maxSpaceStatus s) (tapeset
    s) (memtuples s) (memtupcount s) (memtupsize s) (growmemtuples s) (slabAllocatorUsed s)
    (read_buffer_size s) (currentRun s) (mergeactive s) (Level s) (destTape s) (tp_fib s)
    (tp_runs s) (tp_dummy s) (tp_tapenum s) (activeTapes s) (result_tape s) (current s)
    (eof_reached s) (markpos_block s) (markpos_offset s) (markpos_eof s) (sortKeys s) (onlyKey
    s) (abbrevNext s).
Definition set_maxSpace (v : Z) (s : Tuplesortstate) : Tuplesortstate :=
  mk_ts (status s) (randomAccess s) (bounded s) (boundUsed s) (bound s) (availMem s)
    (allowedMem s) (maxTapes s) (tapeRange s) v (isMaxSpaceDisk s) (maxSpaceStatus s) (tapeset
    s) (memtuples s) (memtupcount s) (memtupsize s) (growmemtuples s) (slabAllocatorUsed s)
    (read_buffer_size s) (currentRun s) (mergeactive s) (Level s) (destTape s) (tp_fib s)
    (tp_runs s) (tp_dummy s) (tp_tapenum s) (activeTapes s) (result_tape s) (current s)
    (eof_reached s) (markpos_block s) (markpos_offset s) (markpos_eof s) (sortKeys s) (onlyKey
    s) (abbrevNext s).
Definition set_isMaxSpaceDisk (v : bool) (s : Tuplesortstate) : Tuplesortstate :=
  mk_ts (status s) (randomAccess s) (bounded s) (boundUsed s) (bound s) (availMem s)
    (allowedMem s) (maxTapes s) (tapeRange s) (maxSpace s) v (maxSpaceStatus s) (tapeset s)
    (memtuples s) (memtupcount s) (memtupsize s) (growmemtuples s) (slabAllocatorUsed s)
    (read_buffer_size s) (currentRun s) (mergeactive s) (Level s) (destTape s) (tp_fib s)
    (tp_runs s) (tp_dummy s) (tp_tapenum s) (activeTapes s) (result_tape s) (current s)
    (eof_reached s) (markpos_block s) (markpos_offset s) (markpos_eof s) (sortKeys s) (onlyKey
    s) (abbrevNext s).
Definition set_maxSpaceStatus (v : TupSortStatus) (s : Tuplesortstate) : Tuplesortstate :=
  mk_ts (status s) (randomAccess s) (bounded s) (boundUsed s) (bound s) (availMem s)
    (allowedMem s) (maxTapes s) (tapeRange s) (maxSpace s) (isMaxSpaceDisk s) v (tapeset s)
    (memtuples s) (memtupcount s) (memtupsize s) (growmemtuples s) (slabAllocatorUsed s)
    (read_buffer_size s) (currentRun s) (mergeactive s) (Level s) (destTape s) (tp_fib s)
    (tp_runs s) (tp_dummy s) (tp_tapenum s) (activeTapes s) (result_tape s) (current s)
    (eof_reached s) (markpos_block s) (markpos_offset s) (markpos_eof s) (sortKeys s) (onlyKey
    s) (abbrevNext s).
Definition set_tapeset (v : option LogicalTapeSet) (s : Tuplesortstate) : Tuplesortstate :=
  mk_ts (status s) (randomAccess s) (bounded s) (boundUsed s) (bound s) (availMem s)
    (allowedMem s) (maxTapes s) (tapeRange s) (maxSpace s) (isMaxSpaceDisk s) (maxSpaceStatus
    s) v (memtuples s) (memtupcount s) (memtupsize s) (growmemtuples s) (slabAllocatorUsed s)
    (read_buffer_size s) (currentRun s) (mergeactive s) (Level s) (destTape s) (tp_fib s)
    (tp_runs s) (tp_dummy s) (tp_tapenum s) (activeTapes s) (result_tape s) (current s)
    (eof_reached s) (markpos_block s) (markpos_offset s) (markpos_eof s) (sortKeys s) (onlyKey
    s) (abbrevNext s).
Definition set_memtuples (v : list SortTuple) (s : Tuplesortstate) : Tuplesortstate :=
  mk_ts (status s) (randomAccess s) (bounded s) (boundUsed s) (bound s) (availMem s)
    (allowedMem s) (maxTapes s) (tapeRange s) (maxSpace s) (isMaxSpaceDisk s) (maxSpaceStatus
    s) (tapeset s) v (memtupcount s) (memtupsize s) (growmemtuples s) (slabAllocatorUsed s)
    (read_buffer_size s) (currentRun s) (mergeactive s) (Level s) (destTape s) (tp_fib s)
    (tp_runs s) (tp_dummy s) (tp_tapenum s) (activeTapes s) (result_tape s) (current s)
    (eof_reached s) (markpos_block s) (markpos_offset s) (markpos_eof s) (sortKeys s) (onlyKey
    s) (abbrevNext s).
Definition set_memtupcount (v : Z) (s : Tuplesortstate) : Tuplesortstate :=
  mk_ts (status s) (randomAccess s) (bounded s) (boundUsed s) (bound s) (availMem s)
    (allowedMem s) (maxTapes s) (tapeRange s) (maxSpace s) (isMaxSpaceDisk s) (maxSpaceStatus
    s) (tapeset s) (memtuples s) v (memtupsize s) (growmemtuples s) (slabAllocatorUsed s)
    (read_buffer_size s) (currentRun s) (mergeactive s) (Level s) (destTape s) (tp_fib s)
    (tp_runs s) (tp_dummy s) (tp_tapenum s) (activeTapes s) (result_tape s) (current s)
    (eof_reached s) (markpos_block s) (markpos_offset s) (markpos_eof s) (sortKeys s) (onlyKey
    s) (abbrevNext s).
Definition set_memtupsize (v : Z) (s : Tuplesortstate) : Tuplesortstate :=
  mk_ts (status s) (randomAccess s) (bounded s) (boundUsed s) (bound s) (availMem s)
    (allowedMem s) (maxTapes s) (tapeRange s) (maxSpace s) (isMaxSpaceDisk s) (maxSpaceStatus
    s) (tapeset s) (memtuples s) (memtupcount s) v (growmemtuples s) (slabAllocatorUsed s)
    (read_buffer_size s) (currentRun s) (mergeactive s) (Level s) (destTape s) (tp_fib s)
    (tp_runs s) (tp_dummy s) (tp_tapenum s) (activeTapes s) (result_tape s) (current s)
    (eof_reached s) (markpos_block s) (markpos_offset s) (markpos_eof s) (sortKeys s) (onlyKey
    s) (abbrevNext s).
Definition set_growmemtuples (v : bool) (s : Tuplesortstate) : Tuplesortstate :=
  mk_ts (status s) (randomAccess s) (bounded s) (boundUsed s) (bound s) (availMem s)
    (allowedMem s) (maxTapes s) (tapeRange s) (maxSpace s) (isMaxSpaceDisk s) (maxSpaceStatus
    s) (tapeset s) (memtuples s) (memtupcount s) (memtupsize s) v (slabAllocatorUsed s)
    (read_buffer_size s) (currentRun s) (mergeactive s) (Level s) (destTape s) (tp_fib s)
    (tp_runs s) (tp_dummy s) (tp_tapenum s) (activeTapes s) (result_tape s) (current s)
    (eof_reached s) (markpos_block s) (markpos_offset s) (markpos_eof s) (sortKeys s) (onlyKey
    s) (abbrevNext s).
Definition set_slabAllocatorUsed (v : bool) (s : Tuplesortstate) : Tuplesortstate :=
  mk_ts (status s) (randomAccess s) (bounded s) (boundUsed s) (bound s) (availMem s)
    (allowedMem s) (maxTapes s) (tapeRange s) (maxSpace s) (isMaxSpaceDisk s) (maxSpaceStatus
    s) (tapeset s) (memtuples s) (memtupcount s) (memtupsize s) (growmemtuples s) v
    (read_buffer_size s) (currentRun s) (mergeactive s) (Level s) (destTape s) (tp_fib s)
    (tp_runs s) (tp_dummy s) (tp_tapenum s) (activeTapes s) (result_tape s) (current s)
    (eof_reached s) (markpos_block s) (markpos_offset s) (markpos_eof s) (sortKeys s) (onlyKey
    s) (abbrevNext s).
Definition set_read_buffer_size (v : Z) (s : Tuplesortstate) : Tuplesortstate :=
  mk_ts (status s) (randomAccess s) (bounded s) (boundUsed s) (bound s) (availMem s)
    (allowedMem s) (maxTapes s) (tapeRange s) (maxSpace s) (isMaxSpaceDisk s) (maxSpaceStatus
    s) (tapeset s) (memtuples s) (memtupcount s) (memtupsize s) (growmemtuples s)
    (slabAllocatorUsed s) v (currentRun s) (mergeactive s) (Level s) (destTape s) (tp_fib s)
    (tp_runs s) (tp_dummy s) (tp_tapenum s) (activeTapes s) (result_tape s) (current s)
    (eof_reached s) (markpos_block s) (markpos_offset s) (markpos_eof s) (sortKeys s) (onlyKey
    s) (abbrevNext s).
Definition set_currentRun (v : Z) (s : Tuplesortstate) : Tuplesortstate :=
  mk_ts (status s) (randomAccess s) (bounded s) (boundUsed s) (bound s) (availMem s)
    (allowedMem s) (maxTapes s) (tapeRange s) (maxSpace s) (isMaxSpaceDisk s) (maxSpaceStatus
    s) (tapeset s) (memtuples s) (memtupcount s) (memtupsize s) (growmemtuples s)
    (slabAllocatorUsed s) (read_buffer_size s) v (mergeactive s) (Level s) (destTape s) (tp_fib
    s) (tp_runs s) (tp_dummy s) (tp_tapenum s) (activeTapes s) (result_tape s) (current s)
    (eof_reached s) (markpos_block s) (markpos_offset s) (markpos_eof s) (sortKeys s) (onlyKey
    s) (abbrevNext s).
Definition set_mergeactive (v : list bool) (s : Tuplesortstate) : Tuplesortstate :=
  mk_ts (status s) (randomAccess s) (bounded s) (boundUsed s) (bound s) (availMem s)
    (allowedMem s) (maxTapes s) (tapeRange s) (maxSpace s) (isMaxSpaceDisk s) (maxSpaceStatus
    s) (tapeset s) (memtuples s) (memtupcount s) (memtupsize s) (growmemtuples s)
    (slabAllocatorUsed s) (read_buffer_size s) (currentRun s) v (Level s) (destTape s) (tp_fib
    s) (tp_runs s) (tp_dummy s) (tp_tapenum s) (activeTapes s) (result_tape s) (current s)
    (eof_reached s) (markpos_block s) (markpos_offset s) (markpos_eof s) (sortKeys s) (onlyKey
    s) (abbrevNext s).
Definition set_Level (v : Z) (s : Tuplesortstate) : Tuplesortstate :=
  mk_ts (status s) (randomAccess s) (bounded s) (boundUsed s) (bound s) (availMem s)
    (allowedMem s) (maxTapes s) (tapeRange s) (maxSpace s) (isMaxSpaceDisk s) (maxSpaceStatus
    s) (tapeset s) (memtuples s) (memtupcount s) (memtupsize s) (growmemtuples s)
    (slabAllocatorUsed s) (read_buffer_size s) (currentRun s) (mergeactive s) v (destTape s)
    (tp_fib s) (tp_runs s) (tp_dummy s) (tp_tapenum s) (activeTapes s) (result_tape s) (current
    s) (eof_reached s) (markpos_block s) (markpos_offset s) (markpos_eof s) (sortKeys s)
    (onlyKey s) (abbrevNext s).
Definition set_destTape (v : Z) (s : Tuplesortstate) : Tuplesortstate :=
  mk_ts (status s) (randomAccess s) (bounded s) (boundUsed s) (bound s) (availMem s)
    (allowedMem s) (maxTapes s) (tapeRange s) (maxSpace s) (isMaxSpaceDisk s) (maxSpaceStatus
    s) (tapeset s) (memtuples s) (memtupcount s) (memtupsize s) (growmemtuples s)
    (slabAllocatorUsed s) (read_buffer_size s) (currentRun s) (mergeactive s) (Level s) v
    (tp_fib s) (tp_runs s) (tp_dummy s) (tp_tapenum s) (activeTapes s) (result_tape s) (current
    s) (eof_reached s) (markpos_block s) (markpos_offset s) (markpos_eof s) (sortKeys s)
    (onlyKey s) (abbrevNext s).
Definition set_tp_fib (v : list Z) (s : Tuplesortstate) : Tuplesortstate :=
  mk_ts (status s) (randomAccess s) (bounded s) (boundUsed s) (bound s) (availMem s)
    (allowedMem s) (maxTapes s) (tapeRange s) (maxSpace s) (isMaxSpaceDisk s) (maxSpaceStatus
    s) (tapeset s) (memtuples s) (memtupcount s) (memtupsize s) (growmemtuples s)
    (slabAllocatorUsed s) (read_buffer_size s) (currentRun s) (mergeactive s) (Level s)
    (destTape s) v (tp_runs s) (tp_dummy s) (tp_tapenum s) (activeTapes s) (result_tape s)
    (current s) (eof_reached s) (markpos_block s) (markpos_offset s) (markpos_eof s) (sortKeys
    s) (onlyKey s) (abbrevNext s).
Definition set_tp_runs (v : list Z) (s : Tuplesortstate) : Tuplesortstate :=
  mk_ts (status s) (randomAccess s) (bounded s) (boundUsed s) (bound s) (availMem s)
    (allowedMem s) (maxTapes s) (tapeRange s) (maxSpace s) (isMaxSpaceDisk s) (maxSpaceStatus
    s) (tapeset s) (memtuples s) (memtupcount s) (memtupsize s) (growmemtuples s)
    (slabAllocatorUsed s) (read_buffer_size s) (currentRun s) (mergeactive s) (Level s)
    (destTape s) (tp_fib s) v (tp_dummy s) (tp_tapenum s) (activeTapes s) (result_tape s)
    (current s) (eof_reached s) (markpos_block s) (markpos_offset s) (markpos_eof s) (sortKeys
    s) (onlyKey s) (abbrevNext s).
Definition set_tp_dummy (v : list Z) (s : Tuplesortstate) : Tuplesortstate :=
  mk_ts (status s) (randomAccess s) (bounded s) (boundUsed s) (bound s) (availMem s)
    (allowedMem s) (maxTapes s) (tapeRange s) (maxSpace s) (isMaxSpaceDisk s) (maxSpaceStatus
    s) (tapeset s) (memtuples s) (memtupcount s) (memtupsize s) (growmemtuples s)
    (slabAllocatorUsed s) (read_buffer_size s) (currentRun s) (mergeactive s) (Level s)
    (destTape s) (tp_fib s) (tp_runs s) v (tp_tapenum s) (activeTapes s) (result_tape s)
    (current s) (eof_reached s) (markpos_block s) (markpos_offset s) (markpos_eof s) (sortKeys
    s) (onlyKey s) (abbrevNext s).
Definition set_tp_tapenum (v : list Z) (s : Tuplesortstate) : Tuplesortstate :=
  mk_ts (status s) (randomAccess s) (bounded s) (boundUsed s) (bound s) (availMem s)
    (allowedMem s) (maxTapes s) (tapeRange s) (maxSpace s) (isMaxSpaceDisk s) (maxSpaceStatus
    s) (tapeset s) (memtuples s) (memtupcount s) (memtupsize s) (growmemtuples s)
    (slabAllocatorUsed s) (read_buffer_size s) (currentRun s) (mergeactive s) (Level s)
    (destTape s) (tp_fib s) (tp_runs s) (tp_dummy s) v (activeTapes s) (result_tape s) (current
    s) (eof_reached s) (markpos_block s) (markpos_offset s) (markpos_eof s) (sortKeys s)
    (onlyKey s) (abbrevNext s).
Definition set_activeTapes (v : Z) (s : Tuplesortstate) : Tuplesortstate :=
  mk_ts (status s) (randomAccess s) (bounded s) (boundUsed s) (bound s) (availMem s)
    (allowedMem s) (maxTapes s) (tapeRange s) (maxSpace s) (isMaxSpaceDisk s) (maxSpaceStatus
    s) (tapeset s) (memtuples s) (memtupcount s) (memtupsize s) (growmemtuples s)
    (slabAllocatorUsed s) (read_buffer_size s) (currentRun s) (mergeactive s) (Level s)
    (destTape s) (tp_fib s) (tp_runs s) (tp_dummy s) (tp_tapenum s) v (result_tape s) (current
    s) (eof_reached s) (markpos_block s) (markpos_offset s) (markpos_eof s) (sortKeys s)
    (onlyKey s) (abbrevNext s).
Definition set_result_tape (v : Z) (s : Tuplesortstate) : Tuplesortstate :=
  mk_ts (status s) (randomAccess s) (bounded s) (boundUsed s) (bound s) (availMem s)
    (allowedMem s) (maxTapes s) (tapeRange s) (maxSpace s) (isMaxSpaceDisk s) (maxSpaceStatus
    s) (tapeset s) (memtuples s) (memtupcount s) (memtupsize s) (growmemtuples s)
    (slabAllocatorUsed s) (read_buffer_size s) (currentRun s) (mergeactive s) (Level s)
    (destTape s) (tp_fib s) (tp_runs s) (tp_dummy s) (tp_tapenum s) (activeTapes s) v (current
    s) (eof_reached s) (markpos_block s) (markpos_offset s) (markpos_eof s) (sortKeys s)
    (onlyKey s) (abbrevNext s).
Definition set_current (v : Z) (s : Tuplesortstate) : Tuplesortstate :=
  mk_ts (status s) (randomAccess s) (bounded s) (boundUsed s) (bound s) (availMem s)
    (allowedMem s) (maxTapes s) (tapeRange s) (maxSpace s) (isMaxSpaceDisk s) (maxSpaceStatus
    s) (tapeset s) (memtuples s) (memtupcount s) (memtupsize s) (growmemtuples s)
    (slabAllocatorUsed s) (read_buffer_size s) (currentRun s) (mergeactive s) (Level s)
    (destTape s) (tp_fib s) (tp_runs s) (tp_dummy s) (tp_tapenum s) (activeTapes s)
    (result_tape s) v (eof_reached s) (markpos_block s) (markpos_offset s) (markpos_eof s)
    (sortKeys s) (onlyKey s) (abbrevNext s).
Definition set_eof_reached (v : bool) (s : Tuplesortstate) : Tuplesortstate :=
  mk_ts (status s) (randomAccess s) (bounded s) (boundUsed s) (bound s) (availMem s)
    (allowedMem s) (maxTapes s) (tapeRange s) (maxSpace s) (isMaxSpaceDisk s) (maxSpaceStatus
    s) (tapeset s) (memtuples s) (memtupcount s) (memtupsize s) (growmemtuples s)
    (slabAllocatorUsed s) (read_buffer_size s) (currentRun s) (mergeactive s) (Level s)
    (destTape s) (tp_fib s) (tp_runs s) (tp_dummy s) (tp_tapenum s) (activeTapes s)
    (result_tape s) (current s) v (markpos_block s) (markpos_offset s) (markpos_eof s)
    (sortKeys s) (onlyKey s) (abbrevNext s).
Definition set_markpos_block (v : Z) (s : Tuplesortstate) : Tuplesortstate :=
  mk_ts (status s) (randomAccess s) (bounded s) (boundUsed s) (bound s) (availMem s)
    (allowedMem s) (maxTapes s) (tapeRange s) (maxSpace s) (isMaxSpaceDisk s) (maxSpaceStatus
    s) (tapeset s) (memtuples s) (memtupcount s) (memtupsize s) (growmemtuples s)
    (slabAllocatorUsed s) (read_buffer_size s) (currentRun s) (mergeactive s) (Level s)
    (destTape s) (tp_fib s) (tp_runs s) (tp_dummy s) (tp_tapenum s) (activeTapes s)
    (result_tape s) (current s) (eof_reached s) v (markpos_offset s) (markpos_eof s) (sortKeys
    s) (onlyKey s) (abbrevNext s).
Definition set_markpos_offset (v : Z) (s : Tuplesortstate) : Tuplesortstate :=
  mk_ts (status s) (randomAccess s) (bounded s) (boundUsed s) (bound s) (availMem s)
    (allowedMem s) (maxTapes s) (tapeRange s) (maxSpace s) (isMaxSpaceDisk s) (maxSpaceStatus
    s) (tapeset s) (memtuples s) (memtupcount s) (memtupsize s) (growmemtuples s)
    (slabAllocatorUsed s) (read_buffer_size s) (currentRun s) (mergeactive s) (Level s)
    (destTape s) (tp_fib s) (tp_runs s) (tp_dummy s) (tp_tapenum s) (activeTapes s)
    (result_tape s) (current s) (eof_reached s) (markpos_block s) v (markpos_eof s) (sortKeys
    s) (onlyKey s) (abbrevNext s).
Definition set_markpos_eof (v : bool) (s : Tuplesortstate) : Tuplesortstate :=
  mk_ts (status s) (randomAccess s) (bounded s) (boundUsed s) (bound s) (availMem s)
    (allowedMem s) (maxTapes s) (tapeRange s) (maxSpace s) (isMaxSpaceDisk s) (maxSpaceStatus
    s) (tapeset s) (memtuples s) (memtupcount s) (memtupsize s) (growmemtuples s)
    (slabAllocatorUsed s) (read_buffer_size s) (currentRun s) (mergeactive s) (Level s)
    (destTape s) (tp_fib s) (tp_runs s) (tp_dummy s) (tp_tapenum s) (activeTapes s)
    (result_tape s) (current s) (eof_reached s) (markpos_block s) (markpos_offset s) v
    (sortKeys s) (onlyKey s) (abbrevNext s).
Definition set_sortKeys (v : list SortSupportData) (s : Tuplesortstate) : Tuplesortstate :=
  mk_ts (status s) (randomAccess s) (bounded s) (boundUsed s) (bound s) (availMem s)
    (allowedMem s) (maxTapes s) (tapeRange s) (maxSpace s) (isMaxSpaceDisk s) (maxSpaceStatus
    s) (tapeset s) (memtuples s) (memtupcount s) (memtupsize s) (growmemtuples s)
    (slabAllocatorUsed s) (read_buffer_size s) (currentRun s) (mergeactive s) (Level s)
    (destTape s) (tp_fib s) (tp_runs s) (tp_dummy s) (tp_tapenum s) (activeTapes s)
    (result_tape s) (current s) (eof_reached s) (markpos_block s) (markpos_offset s)
    (markpos_eof s) v (onlyKey s) (abbrevNext s).
Definition set_onlyKey (v : bool) (s : Tuplesortstate) : Tuplesortstate :=
  mk_ts (status s) (randomAccess s) (bounded s) (boundUsed s) (bound s) (availMem s)
    (allowedMem s) (maxTapes s) (tapeRange s) (maxSpace s) (isMaxSpaceDisk s) (maxSpaceStatus
    s) (tapeset s) (memtuples s) (memtupcount s) (memtupsize s) (growmemtuples s)
    (slabAllocatorUsed s) (read_buffer_size s) (currentRun s) (mergeactive s) (Level s)
    (destTape s) (tp_fib s) (tp_runs s) (tp_dummy s) (tp_tapenum s) (activeTapes s)
    (result_tape s) (current s) (eof_reached s) (markpos_block s) (markpos_offset s)
    (markpos_eof s) (sortKeys s) v (abbrevNext s).
Definition set_abbrevNext (v : Z) (s : Tuplesortstate) : Tuplesortstate :=
  mk_ts (status s) (randomAccess s) (bounded s) (boundUsed s) (bound s) (availMem s)
    (allowedMem s) (maxTapes s) (tapeRange s) (maxSpace s) (isMaxSpaceDisk s) (maxSpaceStatus
    s) (tapeset s) (memtuples s) (memtupcount s) (memtupsize s) (growmemtuples s)
    (slabAllocatorUsed s) (read_buffer_size s) (currentRun s) (mergeactive s) (Level s)
    (destTape s) (tp_fib s) (tp_runs s) (tp_dummy s) (tp_tapenum s) (activeTapes s)
    (result_tape s) (current s) (eof_reached s) (markpos_block s) (markpos_offset s)
    (markpos_eof s) (sortKeys s) (onlyKey s) v.

Definition LACKMEM (s : Tuplesortstate) : bool :=
  (availMem s <? 0) && negb (slabAllocatorUsed s).
Definition USEMEM (amt : Z) (s : Tuplesortstate) : Tuplesortstate :=
  set_availMem (availMem s - amt) s.
Definition FREEMEM (amt : Z) (s : Tuplesortstate) : Tuplesortstate :=
  set_availMem (availMem s + amt) s.

Definition COMPARETUP (s : Tuplesortstate) : SortTuple -> SortTuple -> Z :=
  comparetup_heap (sortKeys s).

(** The space of the array the state currently holds. *)
Definition memtuples_space (s : Tuplesortstate) : Z :=
  GetMemoryChunkSpace (zlen (memtuples s) * sizeof_SortTuple).

Definition null_stup : SortTuple := mk_stup None 0 false 0.

(** An allocated, not yet written array. *)
Definition palloc_memtuples (n : Z) : list SortTuple := replicate (Z.to_nat n) null_stup.

Arguments palloc_memtuples : simpl never.
Arguments INITIAL_MEMTUPSIZE : simpl never.
Arguments GetMemoryChunkSpace : simpl never.
Arguments memtuples_space : simpl never.
