(* ===== verification/Tuplesort.v ===== *)
(** * utils/sort/tuplesort.c: sorting heap tuples

    The operations of a serial heap-tuple sort: a [Tuplesortstate] is begun,
    optionally given a bound, fed with [tuplesort_puttupleslot], finished by
    [tuplesort_performsort] and read with [tuplesort_gettuple_common].  Every
    function takes and returns the state. *)

From Stdlib Require Import ZArith Lia.
From stdpp Require Import base list sorting strings.
From S2P Require Import Prelude HeapTheory SortSupport TuplesortHeap LogTape TuplesortState.

Local Open Scope Z_scope.

(** ** Beginning a sort *)

(** A [palloc0]'d state. *)
Definition zero_state : Tuplesortstate :=
  mk_ts TSS_INITIAL false false false 0 0 0 0 0 0 false TSS_INITIAL None [] 0 0 false false 0 0
    [] 0 0 [] [] [] [] 0 0 0 false 0 0 false [] false 0.

Definition tuplesort_begin_batch (s : Tuplesortstate) : res Tuplesortstate :=
  let s := set_boundUsed false (set_bounded false (set_status TSS_INITIAL s)) in
  let s := set_availMem (allowedMem s) s in
  let s := set_tapeset None s in
  let s := set_memtupcount 0 s in
  let s := set_slabAllocatorUsed false (set_growmemtuples true s) in
  let s :=
    if negb (zlen (memtuples s) =? 0) && negb (memtupsize s =? INITIAL_MEMTUPSIZE) then
      set_memtupsize INITIAL_MEMTUPSIZE (set_memtuples [] s)
    else s in
  let s :=
    if zlen (memtuples s) =? 0 then
      let s := set_memtuples (palloc_memtuples (memtupsize s)) s in
      USEMEM (memtuples_space s) s
    else s in
  if LACKMEM s then Error "insufficient memory allowed for sort"
  else Ok (set_result_tape (-1) (set_currentRun 0 s)).

Definition tuplesort_begin_common (workMem : Z) (randomAccess : bool) : res Tuplesortstate :=
  let s := set_randomAccess randomAccess zero_state in
  let s := set_allowedMem (Z.max workMem 64 * 1024) s in
  let s := set_memtuples [] (set_memtupsize INITIAL_MEMTUPSIZE s) in
  tuplesort_begin_batch s.

(** [keys] is the [SortSupport] array as prepared from the catalogs. *)
Definition tuplesort_begin_heap (keys : list SortSupportData) (workMem : Z)
    (randomAccess : bool) : res Tuplesortstate :=
  do! s <- tuplesort_begin_common workMem randomAccess ;;
  let s := set_abbrevNext 10 s in
  let s := set_sortKeys keys s in
  match keys with
  | [] => Crash
  | k :: _ =>
    Ok (if (zlen keys =? 1) && negb (bool_decide (is_Some (abbrev_converter k)))
        then set_onlyKey true s else s)
  end.

Definition tuplesort_set_bound (s : Tuplesortstate) (bound : Z) : Tuplesortstate :=
  if bound >? INT_MAX / 2 then s
  else
    let s := set_bound (int32 bound) (set_bounded true s) in
    set_sortKeys (disable_abbrev_keys (sortKeys s)) s.

Definition tuplesort_used_bound (s : Tuplesortstate) : bool := boundUsed s.

(** The VBASE addition: has the bounded heap as many tuples as the bound? *)
Definition tuplesort_heapfull (s : Tuplesortstate) : bool := memtupcount s >=? bound s.

Definition free_sort_tuple (s : Tuplesortstate) (stup : SortTuple) : Tuplesortstate * SortTuple :=
  match tuple stup with
  | Some t =>
    (FREEMEM (GetMemoryChunkSpace (t_len t)) s,
     mk_stup None (datum1 stup) (isnull1 stup) (srctape stup))
  | None => (s, stup)
  end.

Definition ts_reversedirection (s : Tuplesortstate) : Tuplesortstate :=
  set_sortKeys (reversedirection (sortKeys s)) s.

(** ** Copying a slot's tuple into the sort *)

(** Returns the state and whether abbreviation was given up. *)
Definition consider_abort_common (s : Tuplesortstate) : res (Tuplesortstate * bool) :=
  match sortKeys s with
  | [] => Crash
  | k :: _ =>
    if bool_decide (status s = TSS_INITIAL) && (memtupcount s >=? abbrevNext s) then
      let s := set_abbrevNext (int64 (abbrevNext s * 2)) s in
      match abbrev_abort k with
      | None => Crash
      | Some abort =>
        if negb (abort (memtupcount s)) then Ok (s, false)
        else Ok (set_sortKeys (disable_abbrev_keys (sortKeys s)) s, true)
      end
    else Ok (s, false)
  end.

(** Recompute [datum1] of the first [n] entries from their tuples. *)
Fixpoint restore_datum1 (attno : Z) (n : nat) (m : list SortTuple) : list SortTuple :=
  match n, m with
  | S n, mtup :: m =>
    let '(d, isnull) := heap_getattr (tuple_of mtup) attno in
    mk_stup (tuple mtup) d isnull (srctape mtup) :: restore_datum1 attno n m
  | _, _ => m
  end.

Definition copytup_heap (s : Tuplesortstate) (slot : MinimalTuple)
    : res (Tuplesortstate * SortTuple) :=
  let s := USEMEM (GetMemoryChunkSpace (t_len slot)) s in
  match sortKeys s with
  | [] => Crash
  | k :: _ =>
    let '(original, isnull1) := heap_getattr slot (ssup_attno k) in
    match abbrev_converter k with
    | None => Ok (s, mk_stup (Some slot) original isnull1 0)
    | Some converter =>
      if isnull1 then Ok (s, mk_stup (Some slot) original isnull1 0)
      else
        do! ' (s, aborted) <- consider_abort_common s ;;
        if (negb aborted : bool) then Ok (s, mk_stup (Some slot) (converter original) isnull1 0)
        else
          Ok (set_memtuples
                (restore_datum1 (ssup_attno k) (Z.to_nat (memtupcount s)) (memtuples s)) s,
              mk_stup (Some slot) original isnull1 0)
    end
  end.

(** ** The in-memory array *)

Section operations.
Variable E : SortEnv.

Definition grow_memtuples (s : Tuplesortstate) : res (Tuplesortstate * bool) :=
  let memtupsize := memtupsize s in
  let memNowUsed := allowedMem s - availMem s in
  if negb (growmemtuples s) then Ok (s, false)
  else
    let '(newmemtupsize, s) :=
      if memNowUsed <=? availMem s then
        if memtupsize <? INT_MAX / 2 then (memtupsize * 2, s)
        else (INT_MAX, set_growmemtuples false s)
      else
        let scaled := scaled_size E memtupsize (allowedMem s) memNowUsed in
        (if scaled <? INT_MAX then scaled else INT_MAX, set_growmemtuples false s) in
    if newmemtupsize <=? memtupsize then Ok (set_growmemtuples false s, false)
    else
      let '(newmemtupsize, s) :=
        if newmemtupsize >=? MaxAllocHugeSize / sizeof_SortTuple then
          (int32 (MaxAllocHugeSize / sizeof_SortTuple), set_growmemtuples false s)
        else (newmemtupsize, s) in
      if availMem s <? (newmemtupsize - memtupsize) * sizeof_SortTuple then
        Ok (set_growmemtuples false s, false)
      else
        let s := FREEMEM (memtuples_space s) s in
        let s := set_memtupsize newmemtupsize s in
        let s := set_memtuples
                   (memtuples s ++ palloc_memtuples (newmemtupsize - zlen (memtuples s))) s in
        let s := USEMEM (memtuples_space s) s in
        if LACKMEM s then Error "unexpected out-of-memory situation in tuplesort"
        else Ok (s, true).

Definition ts_heap_insert (s : Tuplesortstate) (r : tupref SortTuple) : res Tuplesortstate :=
  do! ' (m, n) <- tuplesort_heap_insert (COMPARETUP s) (memtuples s) (memtupcount s) r ;;
  Ok (set_memtupcount n (set_memtuples m s)).

Definition ts_heap_replace_top (s : Tuplesortstate) (r : tupref SortTuple)
    : res Tuplesortstate :=
  do! m <- tuplesort_heap_replace_top (COMPARETUP s) (memtuples s) (memtupcount s) r ;;
  Ok (set_memtuples m s).

Definition ts_heap_delete_top (s : Tuplesortstate) : res Tuplesortstate :=
  do! ' (m, n) <- tuplesort_heap_delete_top (COMPARETUP s) (memtuples s) (memtupcount s) ;;
  Ok (set_memtupcount n (set_memtuples m s)).

(** One turn of the loop of [make_bounded_heap]. *)
Definition make_bounded_heap_step (s : Tuplesortstate) (i : Z) : res Tuplesortstate :=
  if memtupcount s <? bound s then
    do! stup <- aget (memtuples s) i ;;
    ts_heap_insert s (Local_var stup)
  else
    do! mi <- aget (memtuples s) i ;;
    do! m0 <- aget (memtuples s) 0 ;;
    if COMPARETUP s mi m0 <=? 0 then
      let '(s, mi) := free_sort_tuple s mi in
      do! m <- aset (memtuples s) i mi ;;
      Ok (set_memtuples m s)
    else ts_heap_replace_top s (Slot i).

Fixpoint make_bounded_heap_loop (fuel : nat) (s : Tuplesortstate) (i tupcount : Z)
    : res Tuplesortstate :=
  match fuel with
  | O => NoFuel
  | S fuel =>
    if i <? tupcount then
      do! s <- make_bounded_heap_step s i ;;
      make_bounded_heap_loop fuel s (i + 1) tupcount
    else Ok s
  end.

Definition make_bounded_heap (s : Tuplesortstate) : res Tuplesortstate :=
  let tupcount := memtupcount s in
  let s := ts_reversedirection s in
  let s := set_memtupcount 0 s in
  do! s <- make_bounded_heap_loop (S (Z.to_nat tupcount)) s 0 tupcount ;;
  Ok (set_status TSS_BOUNDED s).

Fixpoint sort_bounded_heap_loop (fuel : nat) (s : Tuplesortstate) : res Tuplesortstate :=
  match fuel with
  | O => NoFuel
  | S fuel =>
    if memtupcount s >? 1 then
      do! stup <- aget (memtuples s) 0 ;;
      do! s <- ts_heap_delete_top s ;;
      do! m <- aset (memtuples s) (memtupcount s) stup ;;
      sort_bounded_heap_loop fuel (set_memtuples m s)
    else Ok s
  end.

Definition sort_bounded_heap (s : Tuplesortstate) : res Tuplesortstate :=
  let tupcount := memtupcount s in
  do! s <- sort_bounded_heap_loop (S (Z.to_nat tupcount)) s ;;
  let s := set_memtupcount tupcount s in
  let s := ts_reversedirection s in
  Ok (set_boundUsed true (set_status TSS_SORTEDINMEM s)).

(** [qsort] on the first [memtupcount] entries of the array. *)
Definition tuplesort_sort_memtuples (s : Tuplesortstate) : res Tuplesortstate :=
  if memtupcount s >? 1 then
    if memtupcount s >? zlen (memtuples s) then Crash
    else
      let live := ztake (memtupcount s) (memtuples s) in
      let rest := drop (Z.to_nat (memtupcount s)) (memtuples s) in
      if onlyKey s then
        match sortKeys s with
        | [] => Crash
        | k :: _ => Ok (set_memtuples (qsort_ssup E k live ++ rest) s)
        end
      else Ok (set_memtuples (qsort_tuple E (COMPARETUP s) live ++ rest) s)
  else Ok s.
End operations.

(** ** Runs on tapes *)

Definition on_tapes {A} (s : Tuplesortstate) (k : LogicalTapeSet -> res (LogicalTapeSet * A))
    : res (Tuplesortstate * A) :=
  match tapeset s with
  | None => Crash
  | Some lts => do! ' (lts, a) <- k lts ;; Ok (set_tapeset (Some lts) s, a)
  end.

Definition upd_tapes (s : Tuplesortstate) (k : LogicalTapeSet -> res LogicalTapeSet)
    : res Tuplesortstate :=
  match tapeset s with
  | None => Crash
  | Some lts => do! lts <- k lts ;; Ok (set_tapeset (Some lts) s)
  end.

Definition getlen (s : Tuplesortstate) (tapenum : Z) (eofOK : bool) : res (Tuplesortstate * Z) :=
  do! ' (s, c) <- on_tapes s (fun lts => LogicalTapeRead lts tapenum) ;;
  match c with
  | None => Error "unexpected end of tape"
  | Some (Body _) => Crash
  | Some (LenWord len) =>
    if (len =? 0) && negb eofOK then Error "unexpected end of data" else Ok (s, len)
  end.

Definition markrunend (s : Tuplesortstate) (tapenum : Z) : res Tuplesortstate :=
  upd_tapes s (fun lts => LogicalTapeWrite lts tapenum (LenWord 0)).

Definition writetup_heap (s : Tuplesortstate) (tapenum : Z) (stup : SortTuple)
    : res Tuplesortstate :=
  match tuple stup with
  | None => Crash
  | Some tup =>
    let tupbodylen := uint32 (t_len tup - MINIMAL_TUPLE_DATA_OFFSET) in
    let tuplen := uint32 (tupbodylen + sizeof_uint) in
    do! s <- upd_tapes s (fun lts => LogicalTapeWrite lts tapenum (LenWord tuplen)) ;;
    do! s <- upd_tapes s (fun lts => LogicalTapeWrite lts tapenum (Body tup)) ;;
    do! s <-
      (if randomAccess s
       then upd_tapes s (fun lts => LogicalTapeWrite lts tapenum (LenWord tuplen))
       else Ok s) ;;
    Ok (if slabAllocatorUsed s then s else FREEMEM (GetMemoryChunkSpace (t_len tup)) s)
  end.

Definition readtup_heap (s : Tuplesortstate) (tapenum len : Z)
    : res (Tuplesortstate * SortTuple) :=
  let tupbodylen := uint32 (len - sizeof_uint) in
  do! ' (s, c) <- on_tapes s (fun lts => LogicalTapeRead lts tapenum) ;;
  match c with
  | None => Error "unexpected end of data"
  | Some (LenWord _) => Crash
  | Some (Body tup) =>
    if negb (cell_size (Body tup) =? tupbodylen) then Crash
    else
      do! s <-
        (if randomAccess s then
           do! ' (s, c) <- on_tapes s (fun lts => LogicalTapeRead lts tapenum) ;;
           match c with
           | None => Error "unexpected end of data"
           | Some (Body _) => Crash
           | Some (LenWord _) => Ok s
           end
         else Ok s) ;;
      match sortKeys s with
      | [] => Crash
      | k :: _ =>
        let '(d, isnull) := heap_getattr tup (ssup_attno k) in
        Ok (s, mk_stup (Some tup) d isnull 0)
      end
  end.

Definition tuplesort_merge_order (allowedMem : Z) : Z :=
  let mOrder := int32 (Z.quot (allowedMem - TAPE_BUFFER_OVERHEAD)
                  (MERGE_BUFFER_SIZE + TAPE_BUFFER_OVERHEAD)) in
  Z.min (Z.max mOrder MINORDER) MAXORDER.

Definition inittapestate (s : Tuplesortstate) (maxTapes : Z) : Tuplesortstate :=
  let tapeSpace := maxTapes * TAPE_BUFFER_OVERHEAD in
  let s := if tapeSpace + memtuples_space s <? allowedMem s then USEMEM tapeSpace s else s in
  let n := Z.to_nat maxTapes in
  let s := set_mergeactive (replicate n false) s in
  let s := set_tp_fib (replicate n 0) s in
  let s := set_tp_runs (replicate n 0) s in
  let s := set_tp_dummy (replicate n 0) s in
  let s := set_tp_tapenum (replicate n 0) s in
  set_tapeRange (maxTapes - 1) (set_maxTapes maxTapes s).

(** A serial sort always prepares to merge. *)
Definition inittapes (s : Tuplesortstate) : res Tuplesortstate :=
  let maxTapes := tuplesort_merge_order (allowedMem s) + 1 in
  let s := inittapestate s maxTapes in
  let s := set_tapeset (Some (LogicalTapeSetCreate maxTapes)) s in
  let s := set_currentRun 0 s in
  let n := Z.to_nat maxTapes in
  let s := set_tp_runs (replicate n 0) s in
  let s := set_tp_tapenum (Z.of_nat <$> seq 0 n) s in
  do! fib <- aset (replicate n 1) (tapeRange s) 0 ;;
  do! dummy <- aset (replicate n 1) (tapeRange s) 0 ;;
  let s := set_tp_dummy dummy (set_tp_fib fib s) in
  Ok (set_status TSS_BUILDRUNS (set_destTape 0 (set_Level 1 s))).

(** Step D4 of Algorithm D, for tapes [j] and up. *)
Fixpoint increase_level (fuel : nat) (fib dummy : list Z) (a j tapeRange : Z)
    : res (list Z * list Z) :=
  match fuel with
  | O => NoFuel
  | S fuel =>
    if j <? tapeRange then
      do! f1 <- aget fib (j + 1) ;;
      do! f0 <- aget fib j ;;
      do! dummy <- aset dummy j (int32 (a + f1 - f0)) ;;
      do! fib <- aset fib j (int32 (a + f1)) ;;
      increase_level fuel fib dummy a (j + 1) tapeRange
    else Ok (fib, dummy)
  end.

Definition selectnewtape (s : Tuplesortstate) : res Tuplesortstate :=
  do! d0 <- aget (tp_dummy s) (destTape s) ;;
  do! d1 <- aget (tp_dummy s) (destTape s + 1) ;;
  if d0 <? d1 then Ok (set_destTape (destTape s + 1) s)
  else if negb (d0 =? 0) then Ok (set_destTape 0 s)
  else
    let s := set_Level (int32 (Level s + 1)) s in
    do! a <- aget (tp_fib s) 0 ;;
    do! ' (fib, dummy) <-
      increase_level (S (Z.to_nat (tapeRange s))) (tp_fib s) (tp_dummy s) a 0 (tapeRange s) ;;
    Ok (set_destTape 0 (set_tp_dummy dummy (set_tp_fib fib s))).

(** Write entries [i], [i+1], ... of the sorted array to tape [tapenum]. *)
Fixpoint dump_loop (fuel : nat) (s : Tuplesortstate) (tapenum i memtupwrite : Z)
    : res Tuplesortstate :=
  match fuel with
  | O => NoFuel
  | S fuel =>
    if i <? memtupwrite then
      do! mi <- aget (memtuples s) i ;;
      do! s <- writetup_heap s tapenum mi ;;
      dump_loop fuel (set_memtupcount (memtupcount s - 1) s) tapenum (i + 1) memtupwrite
    else Ok s
  end.

Definition dumptuples (E : SortEnv) (s : Tuplesortstate) (alltuples : bool)
    : res Tuplesortstate :=
  if (memtupcount s <? memtupsize s) && negb (LACKMEM s) && negb alltuples then Ok s
  else if currentRun s =? INT_MAX then
    Error "cannot have more than 2147483647 runs for an external sort"
  else
    let s := set_currentRun (currentRun s + 1) s in
    do! s <- tuplesort_sort_memtuples E s ;;
    do! tapenum <- aget (tp_tapenum s) (destTape s) ;;
    do! s <- dump_loop (S (Z.to_nat (memtupcount s))) s tapenum 0 (memtupcount s) ;;
    do! s <- markrunend s tapenum ;;
    do! r <- aget (tp_runs s) (destTape s) ;;
    do! runs <- aset (tp_runs s) (destTape s) (int32 (r + 1)) ;;
    do! d <- aget (tp_dummy s) (destTape s) ;;
    do! dummy <- aset (tp_dummy s) (destTape s) (int32 (d - 1)) ;;
    let s := set_tp_dummy dummy (set_tp_runs runs s) in
    if alltuples then Ok s else selectnewtape s.

(** Read the next tuple of the run that tape [srcTape] contributes. *)
Definition mergereadnext (s : Tuplesortstate) (srcTape : Z)
    : res (Tuplesortstate * option SortTuple) :=
  do! active <- aget (mergeactive s) srcTape ;;
  if negb active then Ok (s, None)
  else
    do! ' (s, tuplen) <- getlen s srcTape true ;;
    if tuplen =? 0 then
      do! act <- aset (mergeactive s) srcTape false ;;
      Ok (set_mergeactive act s, None)
    else
      do! ' (s, stup) <- readtup_heap s srcTape tuplen ;;
      Ok (s, Some stup).

Definition set_srctape (n : Z) (a : SortTuple) : SortTuple :=
  mk_stup (tuple a) (datum1 a) (isnull1 a) n.

(** [beginmerge]: count down the runs, mark the active tapes ... *)
Fixpoint beginmerge_mark (fuel : nat) (s : Tuplesortstate) (tapenum active : Z)
    : res (Tuplesortstate * Z) :=
  match fuel with
  | O => NoFuel
  | S fuel =>
    if tapenum <? tapeRange s then
      do! d <- aget (tp_dummy s) tapenum ;;
      if d >? 0 then
        do! dummy <- aset (tp_dummy s) tapenum (d - 1) ;;
        beginmerge_mark fuel (set_tp_dummy dummy s) (tapenum + 1) active
      else
        do! r <- aget (tp_runs s) tapenum ;;
        do! runs <- aset (tp_runs s) tapenum (int32 (r - 1)) ;;
        do! srcTape <- aget (tp_tapenum s) tapenum ;;
        do! act <- aset (mergeactive s) srcTape true ;;
        beginmerge_mark fuel (set_mergeactive act (set_tp_runs runs s)) (tapenum + 1) (active + 1)
    else Ok (s, active)
  end.

(** ... then put the first tuple of each active tape into the heap. *)
Fixpoint beginmerge_load (fuel : nat) (s : Tuplesortstate) (srcTape : Z) : res Tuplesortstate :=
  match fuel with
  | O => NoFuel
  | S fuel =>
    if srcTape <? maxTapes s then
      do! ' (s, tup) <- mergereadnext s srcTape ;;
      do! s <-
        match tup with
        | Some tup => ts_heap_insert s (Local_var (set_srctape srcTape tup))
        | None => Ok s
        end ;;
      beginmerge_load fuel s (srcTape + 1)
    else Ok s
  end.

Definition beginmerge (s : Tuplesortstate) : res Tuplesortstate :=
  let s := set_mergeactive (replicate (length (mergeactive s)) false) s in
  do! ' (s, active) <- beginmerge_mark (S (Z.to_nat (tapeRange s))) s 0 0 ;;
  let s := set_activeTapes active s in
  beginmerge_load (S (Z.to_nat (maxTapes s))) s 0.

Fixpoint mergeonerun_loop (fuel : nat) (s : Tuplesortstate) (destTape : Z)
    : res Tuplesortstate :=
  match fuel with
  | O => NoFuel
  | S fuel =>
    if memtupcount s >? 0 then
      do! top <- aget (memtuples s) 0 ;;
      do! s <- writetup_heap s destTape top ;;
      do! ' (s, next) <- mergereadnext s (srctape top) ;;
      do! s <-
        match next with
        | Some stup => ts_heap_replace_top s (Local_var (set_srctape (srctape top) stup))
        | None => ts_heap_delete_top s
        end ;;
      mergeonerun_loop fuel s destTape
    else Ok s
  end.

(** The number of items on all tapes bounds the tuples of one merge. *)
Definition tape_items (s : Tuplesortstate) : nat :=
  match tapeset s with
  | Some lts => foldr (fun lt n => length (cells lt) + n)%nat O lts
  | None => O
  end.

Definition mergeonerun (s : Tuplesortstate) : res Tuplesortstate :=
  do! destTape <- aget (tp_tapenum s) (tapeRange s) ;;
  do! s <- beginmerge s ;;
  do! s <- mergeonerun_loop (S (tape_items s)) s destTape ;;
  do! s <- markrunend s destTape ;;
  do! r <- aget (tp_runs s) (tapeRange s) ;;
  do! runs <- aset (tp_runs s) (tapeRange s) (int32 (r + 1)) ;;
  Ok (set_tp_runs runs s).

Definition init_slab_allocator (s : Tuplesortstate) (numSlots : Z) : Tuplesortstate :=
  let s := if numSlots >? 0 then USEMEM (numSlots * SLAB_SLOT_SIZE) s else s in
  set_slabAllocatorUsed true s.

Fixpoint rewind_all (fuel : nat) (s : Tuplesortstate) (tapenum : Z) : res Tuplesortstate :=
  match fuel with
  | O => NoFuel
  | S fuel =>
    if tapenum <? tapeRange s then
      do! s <- upd_tapes s (fun lts => LogicalTapeRewindForRead lts tapenum) ;;
      rewind_all fuel s (tapenum + 1)
    else Ok s
  end.

(** Is there just one (real or dummy) run left on each input tape? *)
Fixpoint allOneRun (fuel : nat) (s : Tuplesortstate) (tapenum : Z) : res bool :=
  match fuel with
  | O => NoFuel
  | S fuel =>
    if tapenum <? tapeRange s then
      do! r <- aget (tp_runs s) tapenum ;;
      do! d <- aget (tp_dummy s) tapenum ;;
      if negb (int32 (r + d) =? 1) then Ok false else allOneRun fuel s (tapenum + 1)
    else Ok true
  end.

Fixpoint allDummy (fuel : nat) (s : Tuplesortstate) (tapenum : Z) : res bool :=
  match fuel with
  | O => NoFuel
  | S fuel =>
    if tapenum <? tapeRange s then
      do! d <- aget (tp_dummy s) tapenum ;;
      if d =? 0 then Ok false else allDummy fuel s (tapenum + 1)
    else Ok true
  end.

Fixpoint drop_dummies (fuel : nat) (s : Tuplesortstate) (tapenum : Z) : res Tuplesortstate :=
  match fuel with
  | O => NoFuel
  | S fuel =>
    if tapenum <? tapeRange s then
      do! d <- aget (tp_dummy s) tapenum ;;
      do! dummy <- aset (tp_dummy s) tapenum (int32 (d - 1)) ;;
      drop_dummies fuel (set_tp_dummy dummy s) (tapenum + 1)
    else Ok s
  end.

(** Step D5: merge runs onto tape[T] until tape[P] is empty. *)
Fixpoint merge_until_empty (fuel : nat) (s : Tuplesortstate) : res Tuplesortstate :=
  match fuel with
  | O => NoFuel
  | S fuel =>
    do! r <- aget (tp_runs s) (tapeRange s - 1) ;;
    do! d <- aget (tp_dummy s) (tapeRange s - 1) ;;
    if negb (r =? 0) || negb (d =? 0) then
      let n := S (Z.to_nat (tapeRange s)) in
      do! all <- allDummy n s 0 ;;
      do! s <-
        (if (all : bool) then
           do! dT <- aget (tp_dummy s) (tapeRange s) ;;
           do! dummy <- aset (tp_dummy s) (tapeRange s) (int32 (dT + 1)) ;;
           drop_dummies n (set_tp_dummy dummy s) 0
         else mergeonerun s) ;;
      merge_until_empty fuel s
    else Ok s
  end.

(** The cyclic shift of the tape units of step D6: the last entry goes first. *)
Fixpoint shift_units (fuel : nat) (l : list Z) (tapenum : Z) : res (list Z) :=
  match fuel with
  | O => NoFuel
  | S fuel =>
    if tapenum >? 0 then
      do! v <- aget l (tapenum - 1) ;;
      do! l <- aset l tapenum v ;;
      shift_units fuel l (tapenum - 1)
    else Ok l
  end.

Definition rotate_units (l : list Z) (tapeRange : Z) : res (list Z) :=
  do! sv <- aget l tapeRange ;;
  do! l <- shift_units (S (Z.to_nat tapeRange)) l tapeRange ;;
  aset l 0 sv.

(** The outer loop of [mergeruns]: [true] when the final merge is left to be
    done on the fly. *)
Fixpoint mergeruns_loop (fuel : nat) (s : Tuplesortstate) : res (Tuplesortstate * bool) :=
  match fuel with
  | O => NoFuel
  | S fuel =>
    let n := S (Z.to_nat (tapeRange s)) in
    do! one <- (if negb (randomAccess s) then allOneRun n s 0 else Ok false) ;;
    if (one : bool) then
      do! s <- upd_tapes s (fun lts => Ok (LogicalTapeSetForgetFreeSpace lts)) ;;
      do! s <- beginmerge s ;;
      Ok (set_status TSS_FINALMERGE s, true)
    else
      do! r <- aget (tp_runs s) (tapeRange s - 1) ;;
      do! d <- aget (tp_dummy s) (tapeRange s - 1) ;;
      do! s <- merge_until_empty (S (Z.to_nat (r + d))) s ;;
      let s := set_Level (int32 (Level s - 1)) s in
      if Level s =? 0 then Ok (s, false)
      else
        do! tT <- aget (tp_tapenum s) (tapeRange s) ;;
        do! s <- upd_tapes s (fun lts => LogicalTapeRewindForRead lts tT) ;;
        do! tP <- aget (tp_tapenum s) (tapeRange s - 1) ;;
        do! s <- upd_tapes s (fun lts => LogicalTapeRewindForWrite lts tP) ;;
        do! runs <- aset (tp_runs s) (tapeRange s - 1) 0 ;;
        do! runs <- rotate_units runs (tapeRange s) ;;
        do! nums <- rotate_units (tp_tapenum s) (tapeRange s) ;;
        do! dummy <- rotate_units (tp_dummy s) (tapeRange s) ;;
        mergeruns_loop fuel (set_tp_dummy dummy (set_tp_runs runs (set_tp_tapenum nums s)))
  end.

Fixpoint release_others (fuel : nat) (s : Tuplesortstate) (tapenum : Z) : res Tuplesortstate :=
  match fuel with
  | O => NoFuel
  | S fuel =>
    if tapenum <? maxTapes s then
      do! s <-
        (if negb (tapenum =? result_tape s)
         then upd_tapes s (fun lts => LogicalTapeRewindForWrite lts tapenum) else Ok s) ;;
      release_others fuel s (tapenum + 1)
    else Ok s
  end.

(** Before the merge: disable abbreviation, replace the array by a heap with
    one slot per input tape, and give the rest of the memory to the read
    buffers. *)
Definition mergeruns_setup (s : Tuplesortstate) : Tuplesortstate :=
  let s :=
    match sortKeys s with
    | k :: _ =>
      match abbrev_converter k with
      | Some _ => set_sortKeys (disable_abbrev_keys (sortKeys s)) s
      | None => s
      end
    | [] => s
    end in
  let s := FREEMEM (memtuples_space s) s in
  let s := set_memtuples [] s in
  let '(numInputTapes, s) :=
    if Level s =? 1 then
      let numInputTapes := currentRun s in
      let numTapes := numInputTapes + 1 in
      (numInputTapes, FREEMEM ((maxTapes s - numTapes) * TAPE_BUFFER_OVERHEAD) s)
    else (tapeRange s, s) in
  let s := init_slab_allocator s (numInputTapes + 1) in
  let s := set_memtupsize numInputTapes s in
  let s := set_memtuples (palloc_memtuples numInputTapes) s in
  let s := USEMEM (memtuples_space s) s in
  let s := set_read_buffer_size (Z.max (Z.quot (availMem s) numInputTapes) 0) s in
  USEMEM (read_buffer_size s * numInputTapes) s.

(** After the last pass: the result is on tape[T]; freeze it and release the
    other tapes. *)
Definition mergeruns_finish (s : Tuplesortstate) : res Tuplesortstate :=
  do! rt <- aget (tp_tapenum s) (tapeRange s) ;;
  let s := set_result_tape rt s in
  do! s <- upd_tapes s (fun lts => LogicalTapeFreeze lts rt) ;;
  let s := set_status TSS_SORTEDONTAPE s in
  release_others (S (Z.to_nat (maxTapes s))) s 0.

Definition mergeruns (s : Tuplesortstate) : res Tuplesortstate :=
  let s := mergeruns_setup s in
  do! s <- rewind_all (S (Z.to_nat (tapeRange s))) s 0 ;;
  do! ' (s, onthefly) <- mergeruns_loop (S (Z.to_nat (Level s))) s ;;
  if (onthefly : bool) then Ok s else mergeruns_finish s.

(** ** Accepting tuples and finishing the sort *)

(** Save a tuple into the unsorted array, enlarging it when one free slot is
    left. *)
Definition put_initial_store (E : SortEnv) (s : Tuplesortstate) (tup : SortTuple)
    : res Tuplesortstate :=
  do! s <-
    (if memtupcount s >=? memtupsize s - 1 then
       do! ' (s, _) <- grow_memtuples E s ;; Ok s
     else Ok s) ;;
  do! m <- aset (memtuples s) (memtupcount s) tup ;;
  Ok (set_memtupcount (memtupcount s + 1) (set_memtuples m s)).

(** Is it time to switch over to a bounded heapsort? *)
Definition time_for_heap (s : Tuplesortstate) : bool :=
  bounded s &&
  ((memtupcount s >? int32 (bound s * 2)) || ((memtupcount s >? bound s) && LACKMEM s)).

Definition puttuple_common (E : SortEnv) (s : Tuplesortstate) (tup : SortTuple)
    : res Tuplesortstate :=
  match status s with
  | TSS_INITIAL =>
    do! s <- put_initial_store E s tup ;;
    if time_for_heap s then make_bounded_heap s
    else if (memtupcount s <? memtupsize s) && negb (LACKMEM s) then Ok s
    else
      do! s <- inittapes s ;;
      dumptuples E s false
  | TSS_BOUNDED =>
    do! m0 <- aget (memtuples s) 0 ;;
    if COMPARETUP s tup m0 <=? 0 then
      let '(s, _) := free_sort_tuple s tup in Ok s
    else
      let '(s, m0) := free_sort_tuple s m0 in
      do! m <- aset (memtuples s) 0 m0 ;;
      ts_heap_replace_top (set_memtuples m s) (Local_var tup)
  | TSS_BUILDRUNS =>
    do! m <- aset (memtuples s) (memtupcount s) tup ;;
    let s := set_memtupcount (memtupcount s + 1) (set_memtuples m s) in
    dumptuples E s false
  | _ => Error "invalid tuplesort state"
  end.

Definition tuplesort_puttupleslot (E : SortEnv) (s : Tuplesortstate) (slot : MinimalTuple)
    : res Tuplesortstate :=
  do! ' (s, stup) <- copytup_heap s slot ;;
  puttuple_common E s stup.

Definition tuplesort_performsort (E : SortEnv) (s : Tuplesortstate) : res Tuplesortstate :=
  match status s with
  | TSS_INITIAL =>
    do! s <- tuplesort_sort_memtuples E s ;;
    let s := set_status TSS_SORTEDINMEM s in
    let s := set_eof_reached false (set_current 0 s) in
    Ok (set_markpos_eof false (set_markpos_offset 0 (set_markpos_block 0 s)))
  | TSS_BOUNDED =>
    do! s <- sort_bounded_heap s ;;
    let s := set_eof_reached false (set_current 0 s) in
    let s := set_markpos_eof false (set_markpos_offset 0 s) in
    Ok (set_status TSS_SORTEDINMEM s)
  | TSS_BUILDRUNS =>
    do! s <- dumptuples E s true ;;
    do! s <- mergeruns s ;;
    let s := set_eof_reached false s in
    Ok (set_markpos_eof false (set_markpos_offset 0 (set_markpos_block 0 s)))
  | _ => Error "invalid tuplesort state"
  end.

(** ** Reading the result *)

Definition sbackspace (s : Tuplesortstate) (size : Z) : res (Tuplesortstate * Z) :=
  on_tapes s (fun lts => LogicalTapeBackspace lts (result_tape s) size).

(** The tuple whose trailing length word is next on the result tape. *)
Definition read_prior (s : Tuplesortstate) : res (Tuplesortstate * option SortTuple) :=
  do! ' (s, tuplen) <- getlen s (result_tape s) false ;;
  do! ' (s, nmoved) <- sbackspace s tuplen ;;
  if negb (nmoved =? tuplen) then Error "bogus tuple length in backward scan"
  else
    do! ' (s, stup) <- readtup_heap s (result_tape s) tuplen ;;
    Ok (s, Some stup).

(** [None] is a [false] return. *)
Definition tuplesort_gettuple_common (s : Tuplesortstate) (forward : bool)
    : res (Tuplesortstate * option SortTuple) :=
  match status s with
  | TSS_SORTEDINMEM =>
    if forward then
      if current s <? memtupcount s then
        do! stup <- aget (memtuples s) (current s) ;;
        Ok (set_current (current s + 1) s, Some stup)
      else
        let s := set_eof_reached true s in
        if bounded s && (current s >=? bound s) then
          Error "retrieved too many tuples in a bounded sort"
        else Ok (s, None)
    else
      if current s <=? 0 then Ok (s, None)
      else if eof_reached s then
        let s := set_eof_reached false s in
        do! stup <- aget (memtuples s) (current s - 1) ;;
        Ok (s, Some stup)
      else
        let s := set_current (current s - 1) s in
        if current s <=? 0 then Ok (s, None)
        else
          do! stup <- aget (memtuples s) (current s - 1) ;;
          Ok (s, Some stup)
  | TSS_SORTEDONTAPE =>
    if forward then
      if eof_reached s then Ok (s, None)
      else
        do! ' (s, tuplen) <- getlen s (result_tape s) true ;;
        if negb (tuplen =? 0) then
          do! ' (s, stup) <- readtup_heap s (result_tape s) tuplen ;;
          Ok (s, Some stup)
        else Ok (set_eof_reached true s, None)
    else if eof_reached s then
      do! ' (s, nmoved) <- sbackspace s (2 * sizeof_uint) ;;
      if nmoved =? 0 then Ok (s, None)
      else if negb (nmoved =? 2 * sizeof_uint) then Error "unexpected tape position"
      else read_prior (set_eof_reached false s)
    else
      do! ' (s, nmoved) <- sbackspace s sizeof_uint ;;
      if nmoved =? 0 then Ok (s, None)
      else if negb (nmoved =? sizeof_uint) then Error "unexpected tape position"
      else
        do! ' (s, tuplen) <- getlen s (result_tape s) false ;;
        do! ' (s, nmoved) <- sbackspace s (tuplen + 2 * sizeof_uint) ;;
        if nmoved =? tuplen + sizeof_uint then Ok (s, None)
        else if negb (nmoved =? tuplen + 2 * sizeof_uint) then
          Error "bogus tuple length in backward scan"
        else read_prior s
  | TSS_FINALMERGE =>
    if memtupcount s >? 0 then
      do! top <- aget (memtuples s) 0 ;;
      do! ' (s, next) <- mergereadnext s (srctape top) ;;
      match next with
      | None =>
        do! s <- ts_heap_delete_top s ;;
        do! s <- upd_tapes s (fun lts => LogicalTapeRewindForWrite lts (srctape top)) ;;
        Ok (s, Some top)
      | Some newtup =>
        do! s <- ts_heap_replace_top s (Local_var (set_srctape (srctape top) newtup)) ;;
        Ok (s, Some top)
      end
    else Ok (s, None)
  | _ => Error "invalid tuplesort state"
  end.

(** The slot's new contents ([None] is a cleared slot) and the abbreviated
    key passed back with them. *)
Definition tuplesort_gettupleslot (s : Tuplesortstate) (forward : bool)
    : res (Tuplesortstate * option (MinimalTuple * option Datum)) :=
  do! ' (s, stup) <- tuplesort_gettuple_common s forward ;;
  match stup with
  | Some a =>
    match tuple a with
    | Some tup =>
      match sortKeys s with
      | [] => Crash
      | k :: _ =>
        Ok (s, Some (tup, match abbrev_converter k with Some _ => Some (datum1 a) | None => None end))
      end
    | None => Ok (s, None)
    end
  | None => Ok (s, None)
  end.

Fixpoint skip_loop (n : nat) (s : Tuplesortstate) (forward : bool) : res (Tuplesortstate * bool) :=
  match n with
  | O => Ok (s, true)
  | S n =>
    do! ' (s, stup) <- tuplesort_gettuple_common s forward ;;
    match stup with
    | None => Ok (s, false)
    | Some _ => skip_loop n s forward
    end
  end.

Definition tuplesort_skiptuples (s : Tuplesortstate) (ntuples : Z) (forward : bool)
    : res (Tuplesortstate * bool) :=
  match status s with
  | TSS_SORTEDINMEM =>
    if memtupcount s - current s >=? ntuples then
      Ok (set_current (current s + ntuples) s, true)
    else
      let s := set_eof_reached true (set_current (memtupcount s) s) in
      if bounded s && (current s >=? bound s) then
        Error "retrieved too many tuples in a bounded sort"
      else Ok (s, false)
  | TSS_SORTEDONTAPE | TSS_FINALMERGE => skip_loop (Z.to_nat ntuples) s forward
  | _ => Error "invalid tuplesort state"
  end.

Definition tuplesort_rescan (s : Tuplesortstate) : res Tuplesortstate :=
  match status s with
  | TSS_SORTEDINMEM =>
    Ok (set_markpos_eof false (set_markpos_offset 0 (set_eof_reached false (set_current 0 s))))
  | TSS_SORTEDONTAPE =>
    do! s <- upd_tapes s (fun lts => LogicalTapeRewindForRead lts (result_tape s)) ;;
    let s := set_markpos_block 0 (set_eof_reached false s) in
    Ok (set_markpos_eof false (set_markpos_offset 0 s))
  | _ => Error "invalid tuplesort state"
  end.

Definition tuplesort_markpos (E : SortEnv) (s : Tuplesortstate) : res Tuplesortstate :=
  match status s with
  | TSS_SORTEDINMEM =>
    Ok (set_markpos_eof (eof_reached s) (set_markpos_offset (current s) s))
  | TSS_SORTEDONTAPE =>
    do! ' (s, p) <- on_tapes s (fun lts =>
                      do! p <- LogicalTapeTell (tape_block E) lts (result_tape s) ;; Ok (lts, p)) ;;
    let '(blk, off) := (p : Z * Z) in
    Ok (set_markpos_eof (eof_reached s) (set_markpos_offset off (set_markpos_block blk s)))
  | _ => Error "invalid tuplesort state"
  end.

Definition tuplesort_restorepos (E : SortEnv) (s : Tuplesortstate) : res Tuplesortstate :=
  match status s with
  | TSS_SORTEDINMEM =>
    Ok (set_eof_reached (markpos_eof s) (set_current (markpos_offset s) s))
  | TSS_SORTEDONTAPE =>
    do! s <- upd_tapes s (fun lts =>
               LogicalTapeSeek (tape_block E) lts (result_tape s) (markpos_block s)
                 (markpos_offset s)) ;;
    Ok (set_eof_reached (markpos_eof s) s)
  | _ => Error "invalid tuplesort state"
  end.

(** ** Statistics and reuse *)

Inductive TuplesortMethod :=
| SORT_TYPE_STILL_IN_PROGRESS
| SORT_TYPE_TOP_N_HEAPSORT
| SORT_TYPE_QUICKSORT
| SORT_TYPE_EXTERNAL_SORT
| SORT_TYPE_EXTERNAL_MERGE.

Inductive TuplesortSpaceType :=
| SORT_SPACE_TYPE_DISK
| SORT_SPACE_TYPE_MEMORY.

Record TuplesortInstrumentation := mk_instr {
  sortMethod : TuplesortMethod;
  spaceType : TuplesortSpaceType;
  spaceUsed : Z
}.

Definition tuplesort_updatemax (E : SortEnv) (s : Tuplesortstate) : Tuplesortstate :=
  let '(isSpaceDisk, spaceUsed) :=
    match tapeset s with
    | Some lts => (true, LogicalTapeSetBlocks E lts * BLCKSZ)
    | None => (false, allowedMem s - availMem s)
    end in
  if (isSpaceDisk && negb (isMaxSpaceDisk s)) ||
     (Bool.eqb isSpaceDisk (isMaxSpaceDisk s) && (spaceUsed >? maxSpace s))
  then set_maxSpaceStatus (status s) (set_isMaxSpaceDisk isSpaceDisk (set_maxSpace spaceUsed s))
  else s.

Definition tuplesort_get_stats (E : SortEnv) (s : Tuplesortstate)
    : Tuplesortstate * TuplesortInstrumentation :=
  let s := tuplesort_updatemax E s in
  let stype := if isMaxSpaceDisk s then SORT_SPACE_TYPE_DISK else SORT_SPACE_TYPE_MEMORY in
  let used := Z.quot (maxSpace s + 1023) 1024 in
  let method :=
    match maxSpaceStatus s with
    | TSS_SORTEDINMEM => if boundUsed s then SORT_TYPE_TOP_N_HEAPSORT else SORT_TYPE_QUICKSORT
    | TSS_SORTEDONTAPE => SORT_TYPE_EXTERNAL_SORT
    | TSS_FINALMERGE => SORT_TYPE_EXTERNAL_MERGE
    | _ => SORT_TYPE_STILL_IN_PROGRESS
    end in
  (s, mk_instr method stype used).

Definition tuplesort_method_name (m : TuplesortMethod) : string :=
  match m with
  | SORT_TYPE_STILL_IN_PROGRESS => "still in progress"
  | SORT_TYPE_TOP_N_HEAPSORT => "top-N heapsort"
  | SORT_TYPE_QUICKSORT => "quicksort"
  | SORT_TYPE_EXTERNAL_SORT => "external sort"
  | SORT_TYPE_EXTERNAL_MERGE => "external merge"
  end.

Definition tuplesort_space_type_name (t : TuplesortSpaceType) : string :=
  match t with
  | SORT_SPACE_TYPE_DISK => "Disk"
  | SORT_SPACE_TYPE_MEMORY => "Memory"
  end.

(** Close the tapes and set the state up for another batch. *)
Definition tuplesort_reset (E : SortEnv) (s : Tuplesortstate) : res Tuplesortstate :=
  let s := tuplesort_updatemax E s in
  tuplesort_begin_batch s.
