(* ===== verification/TapeRuns.v ===== *)
(** * Runs of tuples on the tapes of a sort

    How [writetup_heap] and [markrunend] lay a run out on a tape, and that
    [getlen], [readtup_heap] and [mergereadnext] read it back: the layer
    between the byte positions of the logical tapes and the lists of rows the
    merge works on. *)

From Stdlib Require Import ZArith Lia.
From stdpp Require Import base list sorting strings.
From S2P Require Import Prelude SortSupport TuplesortHeap LogTape TuplesortState Tuplesort.

Local Open Scope Z_scope.

(** ** Layout *)

(** The length word of a tuple, as [writetup_heap] computes it. *)
Definition len_word (t : MinimalTuple) : Z := t_len t - MINIMAL_TUPLE_DATA_OFFSET + sizeof_uint.

(** A tuple that can be in memory: larger than its fixed header, and at most
    as large as an allocation may be. *)
Definition row_ok (t : MinimalTuple) : Prop :=
  MINIMAL_TUPLE_DATA_OFFSET < t_len t <= 1073741823.

(** One tuple; the trailing length word is there for backward scans. *)
Definition enc_row (ra : bool) (t : MinimalTuple) : list cell :=
  LenWord (len_word t) :: Body t :: if ra then [LenWord (len_word t)] else [].

Definition enc_rows (ra : bool) (ts : list MinimalTuple) : list cell := ts ≫= enc_row ra.

(** A run ends with a zero length word. *)
Definition enc_run (ra : bool) (ts : list MinimalTuple) : list cell := enc_rows ra ts ++ [LenWord 0].

Definition enc_runs (ra : bool) (rs : list (list MinimalTuple)) : list cell := rs ≫= enc_run ra.

Definition sized (cs : list cell) : Prop := Forall (fun c => 0 < cell_size c) cs.

Lemma enc_rows_app ra ts us : enc_rows ra (ts ++ us) = enc_rows ra ts ++ enc_rows ra us.
Proof. apply bind_app. Qed.

Lemma enc_rows_1 ra t : enc_rows ra [t] = enc_row ra t.
Proof. unfold enc_rows. cbn [mbind list_bind]. by rewrite app_nil_r. Qed.

Lemma enc_runs_app ra rs qs : enc_runs ra (rs ++ qs) = enc_runs ra rs ++ enc_runs ra qs.
Proof. apply bind_app. Qed.

Lemma enc_row_sized ra t : row_ok t -> sized (enc_row ra t).
Proof.
  unfold row_ok, MINIMAL_TUPLE_DATA_OFFSET. intros Ht.
  destruct ra; repeat constructor; cbn; unfold sizeof_uint, MINIMAL_TUPLE_DATA_OFFSET; lia.
Qed.

(** Every row takes at least one item. *)
Lemma enc_rows_length ra ts : (length ts <= length (enc_rows ra ts))%nat.
Proof.
  induction ts as [|t ts IH]; [done|]. unfold enc_rows in *. cbn. rewrite length_app. cbn. lia.
Qed.

Lemma tape_size_app cs ds : tape_size (cs ++ ds) = tape_size cs + tape_size ds.
Proof. induction cs as [|c cs IH]; cbn; [done|]. unfold tape_size in *. rewrite IH. lia. Qed.

Lemma tape_size_nonneg cs : sized cs -> 0 <= tape_size cs.
Proof. induction 1 as [|c cs Hc _ IH]; cbn; [lia|]. unfold tape_size in IH. lia. Qed.

Lemma cell_at_app cs c ds : sized cs -> cell_at (cs ++ c :: ds) (tape_size cs) = Some c.
Proof.
  induction 1 as [|c' cs Hc Hs IH]; [done|]. cbn. fold (tape_size cs).
  pose proof (tape_size_nonneg cs Hs). destruct (Z.eqb_spec (cell_size c' + tape_size cs) 0); [lia|].
  by replace (cell_size c' + tape_size cs - cell_size c') with (tape_size cs) by lia.
Qed.

(** ** Positions *)

(** The tape is being read and [rest] is what comes next. *)
Definition reads (lt : LogicalTape) (rest : list cell) : Prop :=
  writing lt = false /\ sized (cells lt) /\
  exists done, cells lt = done ++ rest /\ tpos lt = tape_size done /\ block_loaded lt.

(** The tape is being written and holds [cs]. *)
Definition holds (lt : LogicalTape) (cs : list cell) : Prop :=
  writing lt = true /\ frozen lt = false /\ cells lt = cs /\ sized cs.

Lemma reads_length lt rest : reads lt rest -> (length rest <= length (cells lt))%nat.
Proof. intros (_ & _ & done & -> & _). rewrite length_app. lia. Qed.

Lemma LogicalTapeRead_item lts t lt c rest :
  zget lts t = Some lt -> reads lt (c :: rest) ->
  exists lt', LogicalTapeRead lts t = Ok (zset lts t lt', Some c) /\ reads lt' rest /\
    cells lt' = cells lt /\ frozen lt' = frozen lt.
Proof.
  intros Ht (Hw & Hs & done & Hc & Hp & _). unfold LogicalTapeRead. cbv zeta.
  rewrite (aget_Ok _ _ _ Ht). cbn [rbind]. rewrite Hw, Hc, Hp. rewrite Hc in Hs.
  pose proof (zget_bounds _ _ _ Ht).
  apply Forall_app in Hs as Hs'. destruct Hs' as [Hd Hr].
  inversion Hr as [|?? Hc0 Hr']; subst. rewrite tape_size_app. cbn. fold (tape_size rest).
  pose proof (tape_size_nonneg _ Hr').
  destruct (Z.eqb_spec (tape_size done) (tape_size done + (cell_size c + tape_size rest))); [lia|].
  rewrite cell_at_app by done. rewrite aset_Ok by lia. cbn [rbind].
  eexists. split; [done|]. split; [|done]. split; [done|]. split; [done|].
  exists (done ++ [c]). cbn [cells tpos]. rewrite tape_size_app. split; [by rewrite <- app_assoc|].
  split; [cbn; lia|]. pose proof (tape_size_nonneg _ Hd). unfold block_loaded. cbn [tblk tpos]. apply byte_block. lia.
Qed.

Lemma LogicalTapeWrite_item lts t lt cs c :
  zget lts t = Some lt -> holds lt cs -> 0 < cell_size c ->
  exists lt', LogicalTapeWrite lts t c = Ok (zset lts t lt') /\ holds lt' (cs ++ [c]).
Proof.
  intros Ht (Hw & Hf & Hc & Hs) Hpos. unfold LogicalTapeWrite, with_tape.
  rewrite (aget_Ok _ _ _ Ht). cbn [rbind]. rewrite Hw. cbn [rbind].
  pose proof (zget_bounds _ _ _ Ht). rewrite aset_Ok by lia. eexists. split; [done|].
  split; [done|]. split; [done|]. cbn. rewrite Hc. split; [done|].
  apply Forall_app. split; [done|by repeat constructor].
Qed.

(** The same on a tape set whose tape [t] was just replaced. *)
Lemma LogicalTapeRead_again lts t lt c rest :
  0 <= t < zlen lts -> reads lt (c :: rest) ->
  exists lt', LogicalTapeRead (zset lts t lt) t = Ok (zset lts t lt', Some c) /\ reads lt' rest /\
    cells lt' = cells lt /\ frozen lt' = frozen lt.
Proof.
  intros Ht Hr. destruct (LogicalTapeRead_item (zset lts t lt) t lt c rest) as (lt' & Hw & Hr');
    [by apply zget_zset_eq|done|]. rewrite zset_zset_eq in Hw. eauto.
Qed.

Lemma LogicalTapeWrite_again lts t lt cs c :
  0 <= t < zlen lts -> holds lt cs -> 0 < cell_size c ->
  exists lt', LogicalTapeWrite (zset lts t lt) t c = Ok (zset lts t lt') /\ holds lt' (cs ++ [c]).
Proof.
  intros Ht Hh Hc. destruct (LogicalTapeWrite_item (zset lts t lt) t lt cs c) as (lt' & Hw & Hh');
    [by apply zget_zset_eq|done|done|]. rewrite zset_zset_eq in Hw. eauto.
Qed.

Lemma LogicalTapeRewindForRead_ok lts t lt cs :
  zget lts t = Some lt -> holds lt cs ->
  exists lt', LogicalTapeRewindForRead lts t = Ok (zset lts t lt') /\ reads lt' cs /\
    frozen lt' = false.
Proof.
  intros Ht (Hw & Hf & Hc & Hs). unfold LogicalTapeRewindForRead, with_tape.
  rewrite (aget_Ok _ _ _ Ht). cbn [rbind]. rewrite Hw. cbn [orb rbind].
  pose proof (zget_bounds _ _ _ Ht). rewrite aset_Ok by lia. eexists. split; [done|].
  split; [|done]. split; [done|]. cbn. rewrite Hc. split; [done|]. by exists [].
Qed.

Lemma LogicalTapeRewindForWrite_ok lts t lt rest :
  zget lts t = Some lt -> reads lt rest -> frozen lt = false ->
  exists lt', LogicalTapeRewindForWrite lts t = Ok (zset lts t lt') /\ holds lt' [].
Proof.
  intros Ht (Hw & _) Hf. unfold LogicalTapeRewindForWrite, with_tape.
  rewrite (aget_Ok _ _ _ Ht). cbn [rbind]. rewrite Hw, Hf. cbn [orb rbind].
  pose proof (zget_bounds _ _ _ Ht). rewrite aset_Ok by lia. eexists. split; [done|].
  repeat split; try done. constructor.
Qed.

(** ** One tuple *)

Lemma len_word_ok t :
  row_ok t -> uint32 (uint32 (t_len t - MINIMAL_TUPLE_DATA_OFFSET) + sizeof_uint) = len_word t /\
    uint32 (len_word t - sizeof_uint) = t_len t - MINIMAL_TUPLE_DATA_OFFSET /\ len_word t <> 0.
Proof.
  unfold row_ok, len_word, MINIMAL_TUPLE_DATA_OFFSET, sizeof_uint. intros Ht.
  rewrite !uint32_id; rewrite ?uint32_id; lia.
Qed.

Lemma upd_tapes_ok s lts k lts' :
  tapeset s = Some lts -> k lts = Ok lts' -> upd_tapes s k = Ok (set_tapeset (Some lts') s).
Proof. unfold upd_tapes. by intros -> ->. Qed.

Lemma forget_tapes s lts :
  tapeset s = Some lts -> upd_tapes s (fun lts => Ok (LogicalTapeSetForgetFreeSpace lts)) = Ok s.
Proof. intros Hl. unfold upd_tapes. rewrite Hl. cbn [rbind]. unfold LogicalTapeSetForgetFreeSpace. rewrite <- Hl. by destruct s. Qed.

Lemma on_tapes_ok {A} s lts (k : LogicalTapeSet -> res (LogicalTapeSet * A)) lts' a :
  tapeset s = Some lts -> k lts = Ok (lts', a) -> on_tapes s k = Ok (set_tapeset (Some lts') s, a).
Proof. unfold on_tapes. by intros -> ->. Qed.

Lemma upd_tapes_set s lts k lts' :
  k lts = Ok lts' -> upd_tapes (set_tapeset (Some lts) s) k = Ok (set_tapeset (Some lts') s).
Proof. intros Hk. by rewrite (upd_tapes_ok _ lts _ lts'). Qed.

Lemma on_tapes_set {A} s lts (k : LogicalTapeSet -> res (LogicalTapeSet * A)) lts' a :
  k lts = Ok (lts', a) ->
  on_tapes (set_tapeset (Some lts) s) k = Ok (set_tapeset (Some lts') s, a).
Proof. intros Hk. by rewrite (on_tapes_ok _ lts _ lts' a). Qed.

(** Writing leaves the tuple at the end of the tape; outside a merge its
    memory is given back. *)
Lemma writetup_heap_ok s lts t lt cs stup tup :
  tapeset s = Some lts -> zget lts t = Some lt -> holds lt cs ->
  tuple stup = Some tup -> row_ok tup ->
  exists lt', holds lt' (cs ++ enc_row (randomAccess s) tup) /\
    writetup_heap s t stup =
      Ok (let s' := set_tapeset (Some (zset lts t lt')) s in
          if slabAllocatorUsed s then s' else FREEMEM (GetMemoryChunkSpace (t_len tup)) s').
Proof.
  intros Hl Ht Hh Hs Hok. unfold writetup_heap. rewrite Hs.
  destruct (len_word_ok tup Hok) as [Hlw _]. cbv zeta. rewrite Hlw.
  assert (Hb : 0 < cell_size (Body tup)).
  { destruct Hok. cbn. lia. }
  destruct (LogicalTapeWrite_item lts t lt cs (LenWord (len_word tup)) Ht Hh) as (lt1 & Hw1 & Hh1);
    [done|].
  pose proof (zget_bounds _ _ _ Ht) as Hr.
  rewrite (upd_tapes_ok _ _ _ _ Hl Hw1). cbn [rbind].
  destruct (LogicalTapeWrite_again lts t lt1 _ (Body tup) Hr Hh1 Hb) as (lt2 & Hw2 & Hh2).
  rewrite (upd_tapes_set _ _ _ _ Hw2). cbn [rbind].
  change (randomAccess (set_tapeset (Some (zset lts t lt2)) s)) with (randomAccess s).
  destruct (randomAccess s).
  - destruct (LogicalTapeWrite_again lts t lt2 _ (LenWord (len_word tup)) Hr Hh2)
      as (lt3 & Hw3 & Hh3); [done|].
    rewrite (upd_tapes_set _ _ _ _ Hw3). cbn [rbind].
    exists lt3. split; [|done]. by rewrite <- !app_assoc in Hh3.
  - exists lt2. split; [|done]. by rewrite <- !app_assoc in Hh2.
Qed.

Lemma markrunend_ok s lts t lt cs :
  tapeset s = Some lts -> zget lts t = Some lt -> holds lt cs ->
  exists lt', markrunend s t = Ok (set_tapeset (Some (zset lts t lt')) s) /\
    holds lt' (cs ++ [LenWord 0]).
Proof.
  intros Hl Ht Hh. destruct (LogicalTapeWrite_item lts t lt cs (LenWord 0) Ht Hh) as (lt' & Hw & Hh');
    [done|]. exists lt'. split; [|done]. by apply upd_tapes_ok with lts.
Qed.

Lemma getlen_ok s lts t lt len rest eofOK :
  tapeset s = Some lts -> zget lts t = Some lt -> reads lt (LenWord len :: rest) ->
  (len = 0 -> eofOK = true) ->
  exists lt', getlen s t eofOK = Ok (set_tapeset (Some (zset lts t lt')) s, len) /\
    reads lt' rest /\ cells lt' = cells lt /\ frozen lt' = frozen lt.
Proof.
  intros Hl Ht Hr He. destruct (LogicalTapeRead_item lts t lt _ _ Ht Hr) as (lt' & Hrd & Hr' & Hc & Hf).
  exists lt'. split; [|done]. unfold getlen. rewrite (on_tapes_ok _ _ _ _ _ Hl Hrd). cbn [rbind].
  destruct (Z.eqb_spec len 0); [|done]. by rewrite He.
Qed.

(** An entry read from tape caches the full first column. *)
Definition disk_entry (keys : list SortSupportData) (a : SortTuple) (t : MinimalTuple) : Prop :=
  tuple a = Some t /\
  match keys with [] => False | k :: _ => (datum1 a, isnull1 a) = heap_getattr t (ssup_attno k) end.

Lemma disk_entry_is_entry k ks a t :
  abbrev_converter k = None -> disk_entry (k :: ks) a t -> is_entry (k :: ks) a t.
Proof.
  intros Hk [Ha Hd]. split; [done|]. cbn. rewrite Hd.
  destruct (heap_getattr t (ssup_attno k)). by rewrite Hk.
Qed.

Lemma readtup_heap_ok s lts t lt tup rest :
  tapeset s = Some lts -> zget lts t = Some lt -> sortKeys s <> [] -> row_ok tup ->
  reads lt (Body tup :: (if randomAccess s then [LenWord (len_word tup)] else []) ++ rest) ->
  exists lt' a, readtup_heap s t (len_word tup) = Ok (set_tapeset (Some (zset lts t lt')) s, a) /\
    reads lt' rest /\ cells lt' = cells lt /\ frozen lt' = frozen lt /\
    disk_entry (sortKeys s) a tup.
Proof.
  intros Hl Ht Hk Hok Hr. destruct (len_word_ok tup Hok) as (_ & Hlw & _).
  destruct (LogicalTapeRead_item lts t lt _ _ Ht Hr) as (lt1 & Hrd & Hr1 & Hc1 & Hf1).
  pose proof (zget_bounds _ _ _ Ht) as Hb.
  unfold readtup_heap. cbv zeta. rewrite (on_tapes_ok _ _ _ _ _ Hl Hrd). cbn [rbind].
  rewrite Hlw. change (cell_size (Body tup)) with (t_len tup - MINIMAL_TUPLE_DATA_OFFSET).
  rewrite Z.eqb_refl. cbn [negb].
  change (randomAccess (set_tapeset (Some (zset lts t lt1)) s)) with (randomAccess s).
  assert (Hfin : forall lts1 lt2, zget lts1 t = Some lt2 -> reads lt2 rest ->
    exists a, match sortKeys (set_tapeset (Some lts1) s) with
      | [] => Crash
      | k :: _ =>
        let '(d, isnull) := heap_getattr tup (ssup_attno k) in
        Ok (set_tapeset (Some lts1) s, mk_stup (Some tup) d isnull 0)
      end = Ok (set_tapeset (Some lts1) s, a) /\ disk_entry (sortKeys s) a tup).
  { intros lts1 lt2 _ _. change (sortKeys (set_tapeset (Some lts1) s)) with (sortKeys s).
    destruct (sortKeys s) as [|k ks]; [done|]. unfold disk_entry.
    destruct (heap_getattr tup (ssup_attno k)) as [d n]. eexists. by split. }
  destruct (randomAccess s).
  - destruct (LogicalTapeRead_again lts t lt1 (LenWord (len_word tup)) rest Hb Hr1)
      as (lt2 & Hrd2 & Hr2 & Hc2 & Hf2).
    rewrite (on_tapes_set _ _ _ _ _ Hrd2). cbn [rbind].
    destruct (Hfin (zset lts t lt2) lt2) as (a & Ha & Hd); [by apply zget_zset_eq|done|].
    exists lt2, a. split; [exact Ha|]. split; [done|]. by rewrite Hc2, Hf2.
  - cbn [rbind]. destruct (Hfin (zset lts t lt1) lt1) as (a & Ha & Hd); [by apply zget_zset_eq|done|].
    by exists lt1, a.
Qed.

(** ** Whole runs *)

(** A client that writes runs and one that reads them back. *)
Fixpoint write_rows (s : Tuplesortstate) (t : Z) (rows : list MinimalTuple) : res Tuplesortstate :=
  match rows with
  | [] => markrunend s t
  | r :: rows => do! s <- writetup_heap s t (mk_stup (Some r) 0 false 0) ;; write_rows s t rows
  end.

Fixpoint write_runs (s : Tuplesortstate) (t : Z) (runs : list (list MinimalTuple)) : res Tuplesortstate :=
  match runs with
  | [] => Ok s
  | run :: runs => do! s <- write_rows s t run ;; write_runs s t runs
  end.

Fixpoint read_rows (fuel : nat) (s : Tuplesortstate) (t : Z) : res (Tuplesortstate * list MinimalTuple) :=
  match fuel with
  | O => NoFuel
  | S fuel =>
    do! ' (s, len) <- getlen s t true ;;
    if len =? 0 then Ok (s, [])
    else
      do! ' (s, e) <- readtup_heap s t len ;;
      do! ' (s, rows) <- read_rows fuel s t ;;
      Ok (s, tuple_of e :: rows)
  end.

(** One run for each number of rows expected. *)
Fixpoint read_runs (sizes : list nat) (s : Tuplesortstate) (t : Z)
    : res (Tuplesortstate * list (list MinimalTuple)) :=
  match sizes with
  | [] => Ok (s, [])
  | n :: sizes =>
    do! ' (s, run) <- read_rows (S n) s t ;;
    do! ' (s, runs) <- read_runs sizes s t ;;
    Ok (s, run :: runs)
  end.

(** A state whose tape [t] is [lt]. *)
Definition has_tape (s : Tuplesortstate) (t : Z) (lt : LogicalTape) : Prop :=
  exists lts, tapeset s = Some lts /\ zget lts t = Some lt.

(** Writing and reading leave the keys and the layout alone. *)
Definition same_layout (s s' : Tuplesortstate) : Prop :=
  sortKeys s' = sortKeys s /\ randomAccess s' = randomAccess s.

Lemma enc_run_cons ra r rows : enc_run ra (r :: rows) = enc_row ra r ++ enc_run ra rows.
Proof. unfold enc_run, enc_rows. cbn [mbind list_bind]. by rewrite <- app_assoc. Qed.

Lemma write_rows_ok s t lt cs rows :
  has_tape s t lt -> holds lt cs -> Forall row_ok rows ->
  exists s' lt', write_rows s t rows = Ok s' /\ has_tape s' t lt' /\ same_layout s s' /\
    holds lt' (cs ++ enc_run (randomAccess s) rows).
Proof.
  intros Ht Hh Hok. revert s lt cs Ht Hh.
  induction Hok as [|r rows Hr _ IH]; intros s lt cs (lts & Hl & Ht) Hh; pose proof (zget_bounds _ _ _ Ht) as Hb.
  - cbn [write_rows]. destruct (markrunend_ok s lts t lt cs Hl Ht Hh) as (lt' & -> & Hh').
    eexists _, lt'. split; [reflexivity|]. split; [|done]. exists (zset lts t lt').
    split; [done|by apply zget_zset_eq].
  - cbn [write_rows].
    destruct (writetup_heap_ok s lts t lt cs (mk_stup (Some r) 0 false 0) r Hl Ht Hh eq_refl Hr) as (lt1 & Hh1 & ->).
    rewrite rbind_ret. cbv zeta. set (s1 := if slabAllocatorUsed s then _ else _).
    assert (Hs1 : same_layout s s1) by (unfold s1; by destruct (slabAllocatorUsed s)).
    destruct (IH s1 lt1 (cs ++ enc_row (randomAccess s) r)) as (s' & lt' & -> & Ht' & [Hk Hra] & Hh'); [|done|].
    { exists (zset lts t lt1). split; [unfold s1; by destruct (slabAllocatorUsed s)|by apply zget_zset_eq]. }
    exists s', lt'. split; [done|]. split; [done|]. destruct Hs1 as [Hk1 Hra1].
    split; [split; congruence|]. rewrite Hra1 in Hh'. by rewrite enc_run_cons, app_assoc.
Qed.

Lemma write_runs_ok s t lt cs runs :
  has_tape s t lt -> holds lt cs -> Forall (Forall row_ok) runs ->
  exists s' lt', write_runs s t runs = Ok s' /\ has_tape s' t lt' /\ same_layout s s' /\
    holds lt' (cs ++ enc_runs (randomAccess s) runs).
Proof.
  intros Ht Hh Hok. revert s lt cs Ht Hh. induction Hok as [|run runs Hrun _ IH]; intros s lt cs Ht Hh.
  - exists s, lt. split; [done|]. split; [done|]. split; [done|]. by rewrite app_nil_r.
  - cbn [write_runs]. destruct (write_rows_ok s t lt cs run Ht Hh Hrun) as (s1 & lt1 & -> & Ht1 & [Hk1 Hra1] & Hh1).
    rewrite rbind_ret. destruct (IH s1 lt1 _ Ht1 Hh1) as (s' & lt' & -> & Ht' & [Hk Hra] & Hh').
    exists s', lt'. split; [done|]. split; [done|]. split; [split; congruence|].
    rewrite Hra1 in Hh'. by rewrite <- app_assoc in Hh'.
Qed.

Lemma read_rows_ok s t lt rows rest :
  has_tape s t lt -> sortKeys s <> [] -> Forall row_ok rows ->
  reads lt (enc_run (randomAccess s) rows ++ rest) ->
  exists s' lt', read_rows (S (length rows)) s t = Ok (s', rows) /\ has_tape s' t lt' /\
    same_layout s s' /\ reads lt' rest.
Proof.
  intros Ht Hk Hok. revert s lt Ht Hk. induction Hok as [|r rows Hr _ IH];
    intros s lt (lts & Hl & Ht) Hk Hrd; pose proof (zget_bounds _ _ _ Ht) as Hb.
  - cbn [read_rows length]. destruct (getlen_ok s lts t lt 0 rest true Hl Ht Hrd) as (lt' & -> & Hrd' & _); [done|].
    rewrite rbind_ret. eexists _, lt'. split; [reflexivity|]. split; [|done]. exists (zset lts t lt').
    split; [done|by apply zget_zset_eq].
  - destruct (len_word_ok r Hr) as (_ & _ & Hnz).
    rewrite enc_run_cons in Hrd. unfold enc_row in Hrd. cbn [app] in Hrd. rewrite <- app_assoc in Hrd.
    cbn [length]. remember (S (length rows)) as n eqn:Hn. cbn [read_rows].
    destruct (getlen_ok s lts t lt (len_word r) _ true Hl Ht Hrd) as (lt1 & -> & Hrd1 & _); [done|].
    rewrite rbind_ret. destruct (Z.eqb_spec (len_word r) 0); [done|].
    destruct (readtup_heap_ok (set_tapeset (Some (zset lts t lt1)) s) (zset lts t lt1) t lt1 r
      (enc_run (randomAccess s) rows ++ rest)) as (lt2 & a & -> & Hrd2 & _ & _ & [Ha _]).
    { done. } { by apply zget_zset_eq. } { done. } { done. }
    { exact Hrd1. }
    rewrite rbind_ret, zset_zset_eq. subst n.
    destruct (IH (set_tapeset (Some (zset lts t lt2)) (set_tapeset (Some (zset lts t lt1)) s)) lt2)
      as (s' & lt' & -> & Ht' & Hs' & Hrd'); try done.
    { exists (zset lts t lt2). split; [done|by apply zget_zset_eq]. }
    rewrite rbind_ret. exists s', lt'. split; [|done]. unfold tuple_of. by rewrite Ha.
Qed.

Lemma read_runs_ok s t lt runs :
  has_tape s t lt -> sortKeys s <> [] -> Forall (Forall row_ok) runs ->
  reads lt (enc_runs (randomAccess s) runs) ->
  exists s', read_runs (length <$> runs) s t = Ok (s', runs).
Proof.
  intros Ht Hk Hok. revert s lt Ht Hk. induction Hok as [|run runs Hrun _ IH]; intros s lt Ht Hk Hrd.
  { by exists s. }
  cbn [fmap list_fmap read_runs].
  destruct (read_rows_ok s t lt run (enc_runs (randomAccess s) runs) Ht Hk Hrun Hrd)
    as (s1 & lt1 & -> & Ht1 & [Hk1 Hra1] & Hrd1).
  rewrite rbind_ret. destruct (IH s1 lt1 Ht1) as (s' & ->); [congruence|by rewrite Hra1|].
  rewrite rbind_ret. by exists s'.
Qed.

(** Runs written to an empty tape with [writetup_heap] and [markrunend]
    and read back after a rewind with [getlen] and [readtup_heap] are the runs
    written, with and without the trailing length words of random access. *)
Theorem tape_runs_roundtrip s lts t runs :
  tapeset s = Some lts -> zget lts t = Some empty_tape -> sortKeys s <> [] ->
  Forall (Forall row_ok) runs ->
  exists s', (do! s <- write_runs s t runs ;;
              do! s <- upd_tapes s (fun lts => LogicalTapeRewindForRead lts t) ;;
              read_runs (length <$> runs) s t) = Ok (s', runs).
Proof.
  intros Hl Ht Hk Hok.
  destruct (write_runs_ok s t empty_tape [] runs) as (s1 & lt1 & -> & (lts1 & Hl1 & Ht1) & [Hk1 Hra1] & Hh1); try done.
  { by exists lts. } { split; [done|]. split; [done|]. split; [done|constructor]. }
  rewrite rbind_ret. destruct (LogicalTapeRewindForRead_ok lts1 t lt1 _ Ht1 Hh1) as (lt2 & Hrw & Hrd & _).
  rewrite (upd_tapes_ok s1 lts1 _ _ Hl1 Hrw), rbind_ret. pose proof (zget_bounds _ _ _ Ht1).
  apply (read_runs_ok (set_tapeset (Some (zset lts1 t lt2)) s1) t lt2 runs).
  - exists (zset lts1 t lt2). split; [done|by apply zget_zset_eq].
  - change (sortKeys s1 <> []). congruence.
  - done.
  - change (randomAccess (set_tapeset _ s1)) with (randomAccess s1). rewrite Hra1. exact Hrd.
Qed.

(** A state with seven empty tapes. *)
Definition taped (ra : bool) : Tuplesortstate :=
  set_tapeset (Some (LogicalTapeSetCreate 7))
    (set_sortKeys [mk_ssup false false 1 Z.sub None None None] (set_randomAccess ra zero_state)).

Lemma tape_runs_roundtrip_witness :
  let runs := [[mk_mtup 24 [Some 1]; mk_mtup 32 [Some 5]]; []; [mk_mtup 9000 [Some 2]]] in
  exists s', (do! s <- write_runs (taped true) 2 runs ;;
              do! s <- upd_tapes s (fun lts => LogicalTapeRewindForRead lts 2) ;;
              read_runs [2; 0; 1]%nat s 2) = Ok (s', runs).
Proof.
  intros runs. change [2; 0; 1]%nat with (length <$> runs).
  apply (tape_runs_roundtrip (taped true) (LogicalTapeSetCreate 7) 2 runs).
  - reflexivity.
  - reflexivity.
  - discriminate.
  - repeat (constructor; [repeat (constructor; [vm_compute; split; [reflexivity|discriminate]|]); constructor|]).
    constructor.
Defined.
