(* ===== verification/TuplesortMem.v ===== *)
(** * Correctness of the in-memory part of tuplesort.c

    The array phase ([TSS_INITIAL]), the switch to and the operation of the
    bounded heap ([TSS_BOUNDED]), and the sorted result ([TSS_SORTEDINMEM]). *)

From Stdlib Require Import ZArith Lia.
From stdpp Require Import base list sorting strings.
From S2P Require Import Prelude HeapTheory SortSupport TuplesortHeap LogTape TuplesortState Tuplesort.

Local Open Scope Z_scope.

(** ** Memory accounting *)

Lemma MAXALIGN_mult8 n : MAXALIGN (8 * n) = 8 * n.
Proof.
  unfold MAXALIGN. change (Z.lnot 7) with (Z.lnot (Z.ones 3)).
  rewrite <- Z.ldiff_land, Z.ldiff_ones_r by lia.
  rewrite Z.shiftl_mul_pow2, Z.shiftr_div_pow2 by lia. change (2 ^ 3) with 8.
  replace (8 * n + 7) with (7 + n * 8) by lia. rewrite Z.div_add by lia.
  change (7 / 8) with 0. lia.
Qed.

(** The array is always large enough to have a block of its own. *)
Lemma array_space n :
  INITIAL_MEMTUPSIZE <= n -> GetMemoryChunkSpace (n * sizeof_SortTuple) = n * 24 + 16.
Proof.
  unfold INITIAL_MEMTUPSIZE, GetMemoryChunkSpace, AllocSetChunkSize, sizeof_SortTuple,
    ALLOC_CHUNK_LIMIT, ALLOC_CHUNKHDRSZ. intros Hn.
  change (Z.max 1024 (8192 / 24 + 1)) with 1024 in Hn.
  destruct (Z.gtb_spec (n * 24) 8192); [|lia].
  replace (n * 24) with (8 * (3 * n)) by lia. rewrite MAXALIGN_mult8. lia.
Qed.

Lemma chunk_space_pos n : 0 < GetMemoryChunkSpace n.
Proof.
  unfold GetMemoryChunkSpace, AllocSetChunkSize, AllocSetFreeIndex, ALLOC_CHUNKHDRSZ,
    ALLOC_CHUNK_LIMIT, ALLOC_MINBITS. change (Z.shiftl 1 3) with 8.
  destruct (Z.gtb_spec n 8192).
  - unfold MAXALIGN. change (Z.lnot 7) with (Z.lnot (Z.ones 3)).
    rewrite <- Z.ldiff_land, Z.ldiff_ones_r by lia.
    rewrite Z.shiftl_mul_pow2, Z.shiftr_div_pow2 by lia.
    assert (0 <= (n + 7) / 2 ^ 3) by (apply Z.div_pos; lia). lia.
  - destruct (Z.gtb_spec n 8).
    + assert (3 <= Z.log2 (n - 1)) by (apply Z.log2_le_pow2; lia).
      rewrite Z.shiftl_mul_pow2 by lia.
      pose proof (Z.pow_pos_nonneg 2 (Z.log2 (n - 1) - 3 + 1)). lia.
    + change (Z.shiftl 8 0) with 8. lia.
Qed.

(** The space the tuples of a list occupy. *)
Definition tuples_space (ts : list MinimalTuple) : Z :=
  foldr (fun t n => GetMemoryChunkSpace (t_len t) + n) 0 ts.

Lemma tuples_space_app ts us : tuples_space (ts ++ us) = tuples_space ts + tuples_space us.
Proof. induction ts as [|t ts IH]; cbn; [done|]. unfold tuples_space in *. rewrite IH. lia. Qed.

Lemma tuples_space_nonneg ts : 0 <= tuples_space ts.
Proof.
  induction ts as [|t ts IH]; cbn; [lia|]. unfold tuples_space in IH.
  pose proof (chunk_space_pos (t_len t)). lia.
Qed.

Lemma set_memtuples_id s : set_memtuples (memtuples s) s = s.
Proof. by destruct s. Qed.

(** The array fields agree with each other. *)
Record array_ok (s : Tuplesortstate) : Prop := {
  ao_len : zlen (memtuples s) = memtupsize s;
  ao_size : INITIAL_MEMTUPSIZE <= memtupsize s <= INT_MAX;
  ao_slab : slabAllocatorUsed s = false
}.

(** What [grow_memtuples] changes. *)
Definition resized (s : Tuplesortstate) (size : Z) (grow : bool) : Tuplesortstate :=
  set_growmemtuples grow (set_memtupsize size
    (set_memtuples (memtuples s ++ palloc_memtuples (size - memtupsize s))
      (set_availMem (availMem s - (size - memtupsize s) * 24) s))).

Lemma resized_same s g :
  resized s (memtupsize s) g = set_growmemtuples g s.
Proof.
  unfold resized. rewrite Z.sub_diag, Z.mul_0_l, Z.sub_0_r.
  change (palloc_memtuples 0) with (@nil SortTuple). rewrite app_nil_r. by destruct s.
Qed.

Lemma zlen_palloc n : 0 <= n -> zlen (palloc_memtuples n) = n.
Proof. unfold palloc_memtuples, zlen. rewrite length_replicate. lia. Qed.

Lemma resized_array_ok s size g :
  array_ok s -> memtupsize s <= size <= INT_MAX -> array_ok (resized s size g).
Proof.
  intros [Hl Hs Hb] Hsize. split; cbn; [|lia|done].
  rewrite zlen_app, zlen_palloc by lia. lia.
Qed.

(** [grow_memtuples] never raises its out-of-memory error, whatever the
    floating-point computation returns: it either enlarges the array within
    the available memory or leaves it alone. *)
Lemma grow_memtuples_ok E s :
  array_ok s ->
  exists size g b, grow_memtuples E s = Ok (resized s size g, b) /\
    memtupsize s <= size <= INT_MAX /\ (b = true <-> memtupsize s < size) /\
    (b = true -> 0 <= availMem s - (size - memtupsize s) * 24).
Proof.
  intros [Hlen Hsize Hslab]. unfold grow_memtuples.
  assert (Hno : forall g', exists size g b,
    Ok (set_growmemtuples g' s, false) = Ok (resized s size g, b) /\
    memtupsize s <= size <= INT_MAX /\ (b = true <-> memtupsize s < size) /\
    (b = true -> 0 <= availMem s - (size - memtupsize s) * 24)).
  { intros g'. exists (memtupsize s), g', false. rewrite resized_same.
    split; [done|]. split; [lia|]. split; [split; [done|lia]|done]. }
  destruct (growmemtuples s) eqn:Hg; cbn [negb].
  2:{ specialize (Hno false). assert (Hs : set_growmemtuples false s = s).
      { destruct s; cbn in Hg; by subst. }
      by rewrite Hs in Hno. }
  set (sel := if (_ <=? _) then _ else _).
  assert (Hsel : exists size0 g0, sel = (size0, set_growmemtuples g0 s) /\ size0 <= INT_MAX).
  { subst sel. destruct (Z.leb_spec (allowedMem s - availMem s) (availMem s)).
    - destruct (Z.ltb_spec (memtupsize s) (INT_MAX / 2)) as [Hlt|].
      + exists (memtupsize s * 2), true. split.
        * f_equal. destruct s; cbn in Hg; by subst.
        * change (INT_MAX / 2) with 1073741823 in Hlt. unfold INT_MAX. lia.
      + by exists INT_MAX, false.
    - eexists _, false. split; [done|].
      destruct (Z.ltb_spec (scaled_size E (memtupsize s) (allowedMem s)
        (allowedMem s - availMem s)) INT_MAX); lia. }
  clearbody sel. destruct Hsel as (size0 & g0 & -> & Hmax).
  destruct (Z.leb_spec size0 (memtupsize s)) as [|Hgt]; [apply Hno|].
  replace (size0 >=? MaxAllocHugeSize / sizeof_SortTuple) with false.
  2:{ symmetry. rewrite Z.geb_leb. apply Z.leb_gt.
      change (MaxAllocHugeSize / sizeof_SortTuple) with 384307168202282325.
      unfold INT_MAX in *. lia. }
  change (availMem (set_growmemtuples g0 s)) with (availMem s).
  destruct (Z.ltb_spec (availMem s) ((size0 - memtupsize s) * sizeof_SortTuple)) as [|Hfit];
    [apply Hno|].
  unfold sizeof_SortTuple in Hfit. cbv zeta.
  match goal with |- context [LACKMEM ?st] => set (s1 := st) end.
  assert (Hs1 : s1 = resized s size0 g0).
  { subst s1. unfold resized, USEMEM, FREEMEM, memtuples_space. cbn.
    rewrite zlen_app, Hlen, zlen_palloc by lia.
    replace (memtupsize s + (size0 - memtupsize s)) with size0 by lia.
    rewrite !array_space by lia.
    replace (availMem s + (memtupsize s * 24 + 16) - (size0 * 24 + 16))
      with (availMem s - (size0 - memtupsize s) * 24) by lia.
    reflexivity. }
  clearbody s1. subst s1.
  replace (LACKMEM (resized s size0 g0)) with false.
  2:{ symmetry. unfold LACKMEM. cbn. destruct (Z.ltb_spec (availMem s - (size0 - memtupsize s) * 24) 0);
      [lia|done]. }
  exists size0, g0, true. split; [done|]. split; [lia|]. split; [split; [lia|done]|lia].
Qed.

(** ** Selection

    While the direction is reversed the root of the heap is the entry to
    discard next.  [keep cmp kept rest]: nothing discarded belongs before
    (in the reversed order: after) anything kept. *)
Section keep.
Context {A : Type} (cmp : A -> A -> Z) `{!Comparator cmp}.
Implicit Types (x y top e : A) (kept rest : list A).

Definition keep kept rest : Prop := forall x y, x ∈ kept -> y ∈ rest -> cle cmp y x.

Lemma keep_nil kept : keep kept [].
Proof. intros x y _ Hy. by apply not_elem_of_nil in Hy. Qed.

#[global] Instance keep_proper : Proper ((≡ₚ) ==> (≡ₚ) ==> iff) keep.
Proof.
  intros k k' Hk r r' Hr. split; intros H x y Hx Hy; apply H;
    first [by rewrite Hk|by rewrite Hr|by rewrite <- Hk|by rewrite <- Hr].
Qed.

Lemma keep_discard kept rest top e :
  top ∈ kept -> (forall x, x ∈ kept -> cle cmp top x) -> cmp e top <= 0 ->
  keep kept rest -> keep kept (e :: rest).
Proof.
  intros Htop Hmin He H x y Hx [-> | Hy]%elem_of_cons; [|by apply H].
  transitivity top; [exact He|by apply Hmin].
Qed.

Lemma keep_replace kept kept' rest top e :
  (forall x, x ∈ kept -> cle cmp top x) -> 0 < cmp e top ->
  top :: kept' ≡ₚ e :: kept -> top ∈ kept -> keep kept rest -> keep kept' (top :: rest).
Proof.
  intros Hmin He Hp Htop H x y Hx Hy.
  assert (Hte : cle cmp top e) by (by apply cle_gt).
  assert (Hx' : x = e \/ x ∈ kept).
  { apply elem_of_cons. rewrite <- Hp. by right. }
  apply elem_of_cons in Hy as [-> | Hy].
  - destruct Hx' as [-> | ?]; [done|by apply Hmin].
  - destruct Hx' as [-> | ?]; [|by apply H]. transitivity top; [|done]. by apply H.
Qed.
End keep.

(** The state with its array, the number of entries and the memory left
    replaced. *)
Definition upd3 (s : Tuplesortstate) (m : list SortTuple) (n a : Z) : Tuplesortstate :=
  set_availMem a (set_memtupcount n (set_memtuples m s)).

Lemma upd3_id s : upd3 s (memtuples s) (memtupcount s) (availMem s) = s.
Proof. by destruct s. Qed.

Lemma free_sort_tuple_upd3 s m n a e :
  exists a' e', free_sort_tuple (upd3 s m n a) e = (upd3 s m n a', e').
Proof.
  unfold free_sort_tuple. destruct (tuple e) as [t|].
  - by exists (a + GetMemoryChunkSpace (t_len t)), (mk_stup None (datum1 e) (isnull1 e) (srctape e)).
  - by exists a, e.
Qed.

Section bounded_heap.
Variable s : Tuplesortstate.
Let cmp := COMPARETUP s.
Context `{!Comparator cmp}.
Variable m0 : list SortTuple.
Hypothesis Hbound : 1 <= bound s <= zlen m0 /\ bound s < INT_MAX.

(** After [i] turns of the loop of [make_bounded_heap]. *)
Record selecting (i : Z) (m : list SortTuple) (n : Z) : Prop := {
  sl_len : zlen m = zlen m0;
  sl_count : n = Z.min i (bound s);
  sl_heap : heap_ok (cle cmp) m 0 n;
  sl_kept : exists rest, ztake i m0 ≡ₚ ztake n m ++ rest /\ keep cmp (ztake n m) rest;
  sl_tail : forall k, i <= k -> zget m k = zget m0 k
}.

(** The next tuple goes into a heap that is not full. *)
Lemma selecting_insert i m n e m' :
  selecting i m n -> n < bound s -> 0 <= i < zlen m0 -> zget m0 i = Some e -> zlen m' = zlen m ->
  heap_ok (cle cmp) m' 0 (n + 1) -> ztake (n + 1) m' ≡ₚ e :: ztake n m ->
  (forall k, n + 1 <= k -> zget m' k = zget m k) -> selecting (i + 1) m' (n + 1).
Proof.
  intros [Hl Hn Hh (rest & Hp & Hk) Ht] Hlt Hi He Hl' Hh' Hp' Ht'. split; [lia|lia|done| |].
  - exists rest. rewrite Hp'. split; [rewrite (ztake_succ i m0 e He), Hp; solve_Permutation|].
    assert (rest = []) as ->; [|apply keep_nil].
    apply Permutation_length in Hp. rewrite length_app in Hp. unfold ztake in Hp.
    rewrite !length_take in Hp. unfold zlen in *. destruct rest; [done|cbn in Hp; lia].
  - intros k Hkk. rewrite Ht' by lia. by apply Ht; lia.
Qed.

Lemma full_heap_top m top : bound s <= zlen m -> heap_ok (cle cmp) m 0 (bound s) -> zget m 0 = Some top ->
  top ∈ ztake (bound s) m /\ forall x, x ∈ ztake (bound s) m -> cle cmp top x.
Proof.
  intros Hl Hh Htop. split; [apply (zget_elem _ 0); by rewrite zget_ztake by lia|].
  intros x Hx. apply (heap_top_least cmp m (bound s)); auto; lia.
Qed.

(** It is no better than the top of a full heap. *)
Lemma selecting_discard i m e e' top :
  selecting i m (bound s) -> 0 <= i < zlen m0 -> bound s <= i -> zget m0 i = Some e -> zget m 0 = Some top ->
  cle cmp e top -> selecting (i + 1) (zset m i e') (bound s).
Proof.
  intros [Hl Hn Hh (rest & Hp & Hk) Ht] Hi Hbi He Htop Hle. split; [by rewrite zlen_zset|lia| | |].
  - apply (heap_ok_ext (cle cmp) m); [|done]. intros k Hkk. by rewrite zget_zset_ne by lia.
  - exists (e :: rest). rewrite ztake_zset_ge by lia. split; [rewrite (ztake_succ i m0 e He), Hp; solve_Permutation|].
    destruct (full_heap_top m top) as [Hin Hmin]; [lia|done|done|]. by apply (keep_discard cmp _ _ top).
  - intros k Hkk. rewrite zget_zset_ne by lia. apply Ht. lia.
Qed.

(** It replaces the top. *)
Lemma selecting_replace i m e top m' :
  selecting i m (bound s) -> 0 <= i < zlen m0 -> zget m0 i = Some e -> zget m 0 = Some top ->
  0 < cmp e top -> zlen m' = zlen m -> heap_ok (cle cmp) m' 0 (bound s) ->
  top :: ztake (bound s) m' ≡ₚ e :: ztake (bound s) m ->
  (forall k, bound s <= k -> zget m' k = zget m k) -> bound s <= i -> selecting (i + 1) m' (bound s).
Proof.
  intros [Hl Hn Hh (rest & Hp & Hk) Ht] Hi He Htop Hgt Hl' Hh' Hp' Ht' Hbi. split; [lia|lia|done| |].
  - exists (top :: rest). split.
    + transitivity ((top :: ztake (bound s) m') ++ rest); [|solve_Permutation].
      rewrite Hp', (ztake_succ i m0 e He), Hp. solve_Permutation.
    + destruct (full_heap_top m top) as [Hin Hmin]; [lia|done|done|]. by apply (keep_replace cmp (ztake (bound s) m) _ _ top e).
  - intros k Hkk. rewrite Ht' by lia. apply Ht. lia.
Qed.

Lemma make_bounded_heap_step_ok i m n a :
  0 <= i < zlen m0 -> selecting i m n ->
  exists m' n' a', make_bounded_heap_step (upd3 s m n a) i = Ok (upd3 s m' n' a') /\
    selecting (i + 1) m' n'.
Proof.
  intros Hi Hsel. pose proof Hsel as [Hl Hn Hh _ Ht]. destruct (zget_is_Some m0 i Hi) as [e He].
  assert (Hme : zget m i = Some e) by (rewrite Ht by lia; done).
  unfold make_bounded_heap_step.
  change (memtupcount (upd3 s m n a)) with n. change (bound (upd3 s m n a)) with (bound s).
  change (memtuples (upd3 s m n a)) with m. change (COMPARETUP (upd3 s m n a)) with cmp.
  destruct (Z.ltb_spec n (bound s)) as [Hlt|Hge].
  - arr. unfold ts_heap_insert. change (memtupcount (upd3 s m n a)) with n.
    change (memtuples (upd3 s m n a)) with m. change (COMPARETUP (upd3 s m n a)) with cmp.
    destruct (tuplesort_heap_insert_ok cmp m n (Local_var e) e)
      as (m' & -> & Hl' & Hh' & Hp' & Ht'); [lia|lia|done|done|].
    cbn [rbind]. exists m', (n + 1), a. split; [done|]. by apply (selecting_insert i m n e).
  - assert (n = bound s) as -> by lia. destruct (zget_is_Some m 0) as [top Htop]; [lia|].
    arr. destruct (Z.leb_spec (cmp e top) 0) as [Hle|Hgt].
    + destruct (free_sort_tuple_upd3 s m (bound s) a e) as (a' & e' & ->).
      change (memtuples (upd3 s m (bound s) a')) with m. arr.
      exists (zset m i e'), (bound s), a'. split; [done|]. apply (selecting_discard i m e e' top); done || lia.
    + unfold ts_heap_replace_top. change (memtuples (upd3 s m (bound s) a)) with m.
      change (memtupcount (upd3 s m (bound s) a)) with (bound s).
      change (COMPARETUP (upd3 s m (bound s) a)) with cmp.
      destruct (tuplesort_heap_replace_top_ok cmp m (bound s) (Slot i) e top)
        as (m' & -> & Hl' & Hh' & Hp' & Ht'); [lia|lia|split; [lia|done]|done|done|].
      cbn [rbind]. exists m', (bound s), a. split; [done|]. apply (selecting_replace i m e top); done || lia.
Qed.

Lemma make_bounded_heap_loop_ok fuel i tupcount m n a :
  0 <= i <= tupcount -> tupcount <= zlen m0 -> (Z.to_nat (tupcount - i) < fuel)%nat ->
  selecting i m n ->
  exists m' n' a', make_bounded_heap_loop fuel (upd3 s m n a) i tupcount =
    Ok (upd3 s m' n' a') /\ selecting tupcount m' n'.
Proof.
  revert i m n a. induction fuel as [|fuel IH]; intros i m n a Hi Hl Hf Hs; [lia|].
  cbn [make_bounded_heap_loop]. destruct (Z.ltb_spec i tupcount) as [Hlt|Hge].
  - destruct (make_bounded_heap_step_ok i m n a) as (m' & n' & a' & -> & Hs'); [lia|done|].
    cbn [rbind]. apply IH; [lia|done|lia|done].
  - exists m, n, a. split; [done|]. by replace tupcount with i by lia.
Qed.
End bounded_heap.

(** Unheapifying in place: the entries from [n] to [N] are final. *)
Section unheapify.
Variable s : Tuplesortstate.
Let cmp := COMPARETUP s.
Context `{!Comparator cmp}.
Variable N : Z.
Hypothesis HN : N <= INT_MAX.

Definition desc (x y : SortTuple) : Prop := cle cmp y x.

Record unheaping (m : list SortTuple) (n : Z) : Prop := {
  uh_range : 1 <= n <= N /\ N <= zlen m;
  uh_heap : heap_ok (cle cmp) m 0 n;
  uh_sorted : StronglySorted desc (zdrop n (ztake N m));
  uh_keep : keep cmp (ztake n m) (zdrop n (ztake N m))
}.

Lemma ztake_split n (m : list SortTuple) : 0 <= n <= N -> ztake N m = ztake n m ++ zdrop n (ztake N m).
Proof.
  intros Hn. rewrite <- (ztake_ztake n N m) by lia. symmetry. apply ztake_zdrop.
Qed.

(** Store the removed root in the slot it freed. *)
Lemma unheap_step m n m1 top :
  unheaping m n -> 1 < n -> zget m 0 = Some top ->
  zlen m1 = zlen m -> heap_ok (cle cmp) m1 0 (n - 1) ->
  top :: ztake (n - 1) m1 ≡ₚ ztake n m ->
  (forall k, n - 1 <= k -> zget m1 k = zget m k) ->
  unheaping (zset m1 (n - 1) top) (n - 1) /\
  ztake N (zset m1 (n - 1) top) ≡ₚ ztake N m.
Proof.
  intros [[Hr HNl] Hh Hs Hk] Hn Htop Hl Hh1 Hp Ht.
  assert (Hslice : zdrop (n - 1) (ztake N (zset m1 (n - 1) top)) =
                   top :: zdrop n (ztake N m)).
  { rewrite ztake_zset_lt by lia.
    rewrite zset_split by (rewrite zlen_ztake; lia).
    rewrite ztake_ztake by lia. unfold zdrop at 1.
    rewrite drop_app_length'.
    2:{ unfold ztake, zlen in *. rewrite length_take. lia. }
    f_equal. replace (n - 1 + 1) with n by lia.
    apply slice_ext; [lia|]. intros i Hi. apply Ht. lia. }
  assert (Hmin : forall x, x ∈ ztake n m -> cle cmp top x).
  { intros x Hx. apply (heap_top_least cmp m n); auto; lia. }
  assert (Hin : top ∈ ztake n m).
  { apply (zget_elem _ 0). by rewrite zget_ztake by lia. }
  split; [split|].
  - rewrite zlen_zset. lia.
  - apply (heap_ok_ext (cle cmp) m1); [|done]. intros k Hkk.
    by rewrite zget_zset_ne by lia.
  - rewrite Hslice. constructor; [done|]. apply Forall_forall. intros y Hy.
    unfold desc. by apply Hk.
  - rewrite Hslice, ztake_zset_ge by lia.
    assert (Hsub : forall x, x ∈ ztake (n - 1) m1 -> x ∈ ztake n m).
    { intros x Hx. rewrite <- Hp. by right. }
    intros x y Hx [-> | Hy]%elem_of_cons; [by apply Hmin, Hsub|]. apply Hk; [by apply Hsub|done].
  - rewrite (ztake_split (n - 1) (zset m1 (n - 1) top)), Hslice, ztake_zset_ge by lia.
    transitivity (ztake n m ++ zdrop n (ztake N m)); [|by rewrite <- ztake_split by lia].
    rewrite <- Hp. cbn. by rewrite Permutation_middle.
Qed.

Lemma sort_bounded_heap_loop_ok fuel m n a :
  unheaping m n -> (Z.to_nat n <= fuel)%nat ->
  exists m', sort_bounded_heap_loop fuel (upd3 s m n a) = Ok (upd3 s m' 1 a) /\
    zlen m' = zlen m /\ ztake N m' ≡ₚ ztake N m /\ StronglySorted desc (ztake N m').
Proof.
  revert m n. induction fuel as [|fuel IH]; intros m n Hu Hf.
  { destruct Hu as [[? _] _ _ _]. lia. }
  cbn [sort_bounded_heap_loop]. change (memtupcount (upd3 s m n a)) with n.
  change (memtuples (upd3 s m n a)) with m.
  pose proof Hu as [[Hr HNl] Hh Hs Hk].
  destruct (zget_is_Some m 0) as [top Htop]; [lia|].
  destruct (Z.gtb_spec n 1) as [Hgt|Hle].
  - arr. unfold ts_heap_delete_top. change (memtupcount (upd3 s m n a)) with n.
    change (memtuples (upd3 s m n a)) with m. change (COMPARETUP (upd3 s m n a)) with cmp.
    destruct (tuplesort_heap_delete_top_ok cmp m n top)
      as (m1 & -> & Hl1 & Hh1 & Hp1 & Ht1); [lia|lia|done|done|].
    cbn [rbind].
    change (set_memtupcount (n - 1) (set_memtuples m1 (upd3 s m n a)))
      with (upd3 s m1 (n - 1) a).
    change (memtuples (upd3 s m1 (n - 1) a)) with m1.
    change (memtupcount (upd3 s m1 (n - 1) a)) with (n - 1). arr.
    destruct (unheap_step m n m1 top) as [Hu' Hp']; auto.
    change (set_memtuples (zset m1 (n - 1) top) (upd3 s m1 (n - 1) a))
      with (upd3 s (zset m1 (n - 1) top) (n - 1) a).
    destruct (IH (zset m1 (n - 1) top) (n - 1)) as (m' & -> & Hl' & Hpp & Hs'); [done|lia|].
    exists m'. split; [done|]. rewrite zlen_zset in Hl'. split; [lia|].
    split; [by rewrite Hpp|done].
  - assert (n = 1) as -> by lia. exists m. split; [done|]. split; [done|]. split; [done|].
    rewrite (ztake_split 1 m) by lia.
    assert (H1 : ztake 1 m = [top]).
    { change 1 with (0 + 1). by rewrite (ztake_succ 0 m top). }
    rewrite H1 in *. cbn. constructor; [done|]. apply Forall_forall. intros y Hy.
    unfold desc. apply Hk; [by apply list_elem_of_singleton|done].
Qed.
End unheapify.

(** ** What the sort has taken in

    [ins] is the list of tuples put so far, [keys0] the sort columns the sort
    was begun with.  [used] is the tuple space charged against the memory. *)

Record initial_inv (keys0 : list SortSupportData) (s : Tuplesortstate)
    (ins : list MinimalTuple) (used : Z) : Prop := {
  ii_status : status s = TSS_INITIAL;
  ii_array : array_ok s;
  ii_count : 0 <= memtupcount s <= memtupsize s;
  ii_tapes : tapeset s = None;
  ii_used : boundUsed s = false;
  ii_wf : keys_wf keys0;
  ii_keys : sortKeys s = keys0 \/ sortKeys s = disable_abbrev_keys keys0;
  ii_only : onlyKey s = true -> exists k, keys0 = [k] /\ abbrev_converter k = None;
  ii_bound : bounded s = true ->
    1 <= bound s <= INT_MAX / 2 /\ sortKeys s = disable_abbrev_keys keys0;
  ii_mem : availMem s = allowedMem s - (memtupsize s * 24 + 16) - used;
  ii_entries : Forall2 (is_entry (sortKeys s)) (ztake (memtupcount s) (memtuples s)) ins
}.

Record bounded_inv (keys0 : list SortSupportData) (s : Tuplesortstate)
    (ins : list MinimalTuple) : Prop := {
  bi_status : status s = TSS_BOUNDED;
  bi_tapes : tapeset s = None;
  bi_used : boundUsed s = false;
  bi_wf : keys_wf keys0;
  bi_keys : sortKeys s = reversedirection (disable_abbrev_keys keys0);
  bi_bounded : bounded s = true;
  bi_bound : 1 <= bound s <= INT_MAX / 2 /\ bound s <= zlen (memtuples s);
  bi_count : memtupcount s = bound s;
  bi_heap : heap_ok (cle (COMPARETUP s)) (memtuples s) 0 (bound s);
  bi_entries : exists kept rest, ins ≡ₚ kept ++ rest /\
    Forall2 (is_entry (disable_abbrev_keys keys0)) (ztake (bound s) (memtuples s)) kept /\
    forall x y, x ∈ kept -> y ∈ rest -> cle (tcmp keys0) x y
}.

(** In the current keys or in their non-abbreviated form the order is the same. *)
Lemma initial_keys_wf keys0 s ins used :
  initial_inv keys0 s ins used ->
  keys_wf (sortKeys s) /\ tcmp (sortKeys s) = tcmp keys0.
Proof.
  intros []. destruct ii_keys0 as [-> | ->]; [done|].
  rewrite tcmp_disable. split; [by apply keys_wf_disable|done].
Qed.

(** Comparing entries in the reversed direction. *)
Lemma rev_cle keys a b t u :
  keys_wf keys -> is_entry keys a t -> is_entry keys b u ->
  cle (comparetup_heap (reversedirection keys)) a b <-> cle (tcmp keys) u t.
Proof.
  intros Hw Ha Hb. pose proof (tcmp_ok _ Hw) as Hc.
  pose proof (entry_cmp (reversedirection keys) a b t u) as He.
  rewrite !is_entry_reverse in He.
  specialize (He (keys_wf_reverse _ Hw) Ha Hb). rewrite tcmp_reverse in He.
  unfold cle. pose proof (@cmp_flip _ _ Hc t u). pose proof (@cmp_flip _ _ Hc u t). lia.
Qed.

Lemma entry_cle keys a b t u :
  keys_wf keys -> is_entry keys a t -> is_entry keys b u ->
  cle (comparetup_heap keys) a b <-> cle (tcmp keys) t u.
Proof. intros Hw Ha Hb. pose proof (entry_cmp keys a b t u Hw Ha Hb). unfold cle. lia. Qed.

Lemma reversed_comparator keys :
  keys_wf keys -> Comparator (comparetup_heap (reversedirection keys)).
Proof. intros [Hk _]. apply comparetup_heap_ok. by apply reverse_keys_ok. Qed.

Lemma make_bounded_heap_ok keys0 s ins used :
  initial_inv keys0 s ins used -> bounded s = true -> bound s < memtupcount s ->
  exists s', make_bounded_heap s = Ok s' /\ bounded_inv keys0 s' ins /\ bound s' = bound s.
Proof.
  intros Hinv Hb Hgt. pose proof Hinv as []. destruct (ii_bound0 Hb) as [Hbd Hkeys].
  pose proof (keys_wf_disable _ ii_wf0) as Hwf.
  pose proof (ao_len _ ii_array0) as Hlen. change (INT_MAX / 2) with 1073741823 in *.
  unfold make_bounded_heap.
  set (sr := ts_reversedirection s).
  assert (Hsr : sortKeys sr = reversedirection (disable_abbrev_keys keys0)).
  { subst sr. unfold ts_reversedirection. cbn. by rewrite Hkeys. }
  assert (Hcmp : Comparator (COMPARETUP sr)).
  { unfold COMPARETUP. rewrite Hsr. by apply reversed_comparator. }
  change (set_memtupcount 0 sr) with (upd3 sr (memtuples s) 0 (availMem s)).
  destruct (make_bounded_heap_loop_ok sr (memtuples s) ltac:(change (bound sr) with (bound s);
      unfold INT_MAX; lia) (S (Z.to_nat (memtupcount s))) 0 (memtupcount s) (memtuples s) 0
      (availMem s)) as (m' & n' & a' & -> & [Hl Hn Hh (rest & Hp & Hk) Ht]); [lia|lia|lia| |].
  { split; try done; [change (bound sr) with (bound s); lia|apply heap_ok_leaves; lia|].
    exists []. rewrite !ztake_nonpos by lia. split; [done|apply keep_nil]. }
  cbn [rbind]. eexists. split; [done|]. split; [|done].
  change (bound sr) with (bound s) in *. assert (n' = bound s) as -> by lia.
  rewrite Hkeys in ii_entries0.
  destruct (Forall2_perm_l _ _ _ _ Hp ii_entries0) as (ins' & Hpi & Hall).
  apply Forall2_app_inv_l in Hall as (kept & restT & Hkept & Hrest & ->).
  split; cbn; try done.
  - change (INT_MAX / 2) with 1073741823. lia.
  - exists kept, restT. split; [done|]. split; [done|].
    intros x y Hx Hy.
    destruct (Forall2_elem_r _ _ _ _ Hkept Hx) as (xe & Hxe & Hxx).
    destruct (Forall2_elem_r _ _ _ _ Hrest Hy) as (ye & Hye & Hyy).
    pose proof (Hk xe ye Hxe Hye) as Hc. unfold COMPARETUP in Hc. rewrite Hsr in Hc.
    apply (rev_cle _ _ _ y x) in Hc; auto. by rewrite tcmp_disable in Hc.
Qed.

Lemma free_sort_tuple_array s e :
  exists a e', free_sort_tuple s e = (set_availMem a s, e') .
Proof.
  unfold free_sort_tuple. destruct (tuple e) as [t|].
  - by eexists _, _.
  - exists (availMem s), e. by destruct s.
Qed.

(** One more tuple for the bounded heap. *)
(** The top of the heap is the greatest row kept. *)
Lemma bounded_top keys0 s ins kept :
  bounded_inv keys0 s ins -> Forall2 (is_entry (disable_abbrev_keys keys0)) (ztake (bound s) (memtuples s)) kept ->
  exists top tt, zget (memtuples s) 0 = Some top /\ zget kept 0 = Some tt /\
    is_entry (disable_abbrev_keys keys0) top tt /\ forall x, x ∈ kept -> cle (tcmp keys0) x tt.
Proof.
  intros [] Hkept. destruct bi_bound0 as [Hbd Hbl]. pose proof (keys_wf_disable _ bi_wf0) as Hwf.
  assert (Hcmp : Comparator (COMPARETUP s)) by (unfold COMPARETUP; rewrite bi_keys0; by apply reversed_comparator).
  destruct (zget_is_Some (memtuples s) 0) as [top Htop]; [lia|].
  assert (Htk : zget (ztake (bound s) (memtuples s)) 0 = Some top) by (rewrite zget_ztake by lia; done).
  destruct (Forall2_zget_l _ _ _ _ _ Hkept Htk) as (tt & Htt & Hte). exists top, tt. split_and!; try done.
  intros x Hx. destruct (Forall2_elem_r _ _ _ _ Hkept Hx) as (xe & Hxe & Hxx).
  pose proof (heap_top_least (COMPARETUP s) (memtuples s) (bound s) top xe ltac:(lia) bi_heap0 Htop Hxe) as Hc.
  unfold COMPARETUP in Hc. rewrite bi_keys0 in Hc.
  apply (rev_cle _ _ _ tt x) in Hc; auto. by rewrite tcmp_disable in Hc.
Qed.

(** In the reversed order of the heap a comparison of entries is one of rows. *)
Lemma bounded_compare keys0 s ins e1 e2 t1 t2 :
  bounded_inv keys0 s ins -> is_entry (disable_abbrev_keys keys0) e1 t1 -> is_entry (disable_abbrev_keys keys0) e2 t2 ->
  cle (COMPARETUP s) e1 e2 -> cle (tcmp keys0) t2 t1.
Proof.
  intros [] H1 H2 Hc. pose proof (keys_wf_disable _ bi_wf0) as Hwf. unfold COMPARETUP in Hc. rewrite bi_keys0 in Hc.
  apply (rev_cle _ _ _ t1 t2) in Hc; auto. by rewrite tcmp_disable in Hc.
Qed.

(** The rows kept after the top was replaced. *)
Lemma replaced_rows (R : SortTuple -> MinimalTuple -> Prop) m m' n tup top t tt kept :
  0 < n <= zlen m -> zget m 0 = Some top -> zget kept 0 = Some tt -> Forall2 R (ztake n m) kept -> R tup t ->
  ztake n (zset m 0 tup) ≡ₚ ztake n m' ->
  exists kept', tt :: kept' ≡ₚ t :: kept /\ Forall2 R (ztake n m') kept'.
Proof.
  intros Hn Htop Htt Hkept Htup Hp. assert (Htk : zget (ztake n m) 0 = Some top) by (rewrite zget_ztake by lia; done).
  pose proof (replaced_root m n tup top ltac:(lia) Htop) as Hroot. rewrite Hp in Hroot.
  destruct (ztake n m) as [|a0 l0]; [done|]. rewrite zget_0_cons in Htk. simplify_eq.
  inversion Hkept as [|? x0 ? kept0 Hx0 Hkept0]; subst. rewrite zget_0_cons in Htt. simplify_eq.
  assert (Hm' : tup :: l0 ≡ₚ ztake n m').
  { apply (Permutation_cons_inv (a := top)). rewrite Hroot. apply Permutation_swap. }
  destruct (Forall2_perm_l R _ _ (t :: kept0) Hm') as (kept1 & Hpk & Hkept1); [by constructor|].
  exists kept1. split; [rewrite <- Hpk; apply Permutation_swap|done].
Qed.

Lemma puttuple_bounded_ok E keys0 s ins tup t :
  bounded_inv keys0 s ins -> is_entry (disable_abbrev_keys keys0) tup t ->
  exists s', puttuple_common E s tup = Ok s' /\ bounded_inv keys0 s' (ins ++ [t]) /\
    bound s' = bound s.
Proof.
  intros Hinv Htup. pose proof Hinv as []. destruct bi_bound0 as [Hbd Hbl].
  destruct bi_entries0 as (kept & rest & Hp & Hkept & Hsep).
  assert (Hcmp : Comparator (COMPARETUP s)).
  { unfold COMPARETUP. rewrite bi_keys0. apply reversed_comparator. by apply keys_wf_disable. }
  destruct (bounded_top keys0 s ins kept Hinv Hkept) as (top & tt & Htop & Htt & Hte & Hmin).
  assert (Httk : tt ∈ kept) by (by apply (zget_elem _ 0)). pose proof (tcmp_ok _ bi_wf0) as Htc.
  unfold puttuple_common. rewrite bi_status0. arr.
  destruct (Z.leb_spec (COMPARETUP s tup top) 0) as [Hle|Hgt].
  - destruct (free_sort_tuple_array s tup) as (a & e' & ->).
    eexists. split; [done|]. split; [|done]. split; try done.
    exists kept, (rest ++ [t]). split; [rewrite Hp; by rewrite app_assoc|]. split; [done|].
    intros x y Hx [Hy | ->%list_elem_of_singleton]%elem_of_app; [by apply Hsep|].
    transitivity tt; [by apply Hmin|]. by apply (bounded_compare keys0 s ins tup top).
  - destruct (free_sort_tuple_array s top) as (a & e' & ->).
    change (memtuples (set_availMem a s)) with (memtuples s). arr.
    unfold ts_heap_replace_top. cbn [memtuples memtupcount set_memtuples set_availMem].
    change (COMPARETUP (set_memtuples (zset (memtuples s) 0 e') (set_availMem a s)))
      with (COMPARETUP s). rewrite bi_count0.
    destruct (tuplesort_heap_replace_top_root (COMPARETUP s) (zset (memtuples s) 0 e') (bound s)
      (Local_var tup) tup) as (m' & -> & Hl' & Hh' & Hp' & _); [rewrite zlen_zset; lia| |done| |].
    { change (INT_MAX / 2) with 1073741823 in Hbd. unfold INT_MAX. lia. }
    { rewrite zset_zset_eq. by apply heap_ok_replace, heap_ok_below. }
    rewrite zset_zset_eq in Hp'. rewrite zlen_zset in Hl'. cbn [rbind]. eexists. split; [done|]. split; [|done].
    destruct (replaced_rows _ (memtuples s) m' (bound s) tup top t tt kept ltac:(lia) Htop Htt Hkept Htup) as (kept1 & Hpk & Hkept1); [by rewrite Hp'|].
    split; try done; cbn; [split; [done|lia]|]. exists kept1, (tt :: rest). split_and!; [|done|].
    { rewrite Hp. transitivity ((t :: kept) ++ rest); [solve_Permutation|]. rewrite <- Hpk. solve_Permutation. }
    assert (Hct : cle (tcmp keys0) t tt) by (apply (bounded_compare keys0 s ins top tup); try done; by apply cle_gt).
    intros x y Hx Hy. assert (Hxt : cle (tcmp keys0) x tt).
    { assert (Hx' : x ∈ t :: kept) by (rewrite <- Hpk; by right). apply elem_of_cons in Hx' as [-> | Hx']; [done|by apply Hmin]. }
    apply elem_of_cons in Hy as [-> | Hy]; [done|]. transitivity tt; [done|]. by apply Hsep.
Qed.

(** ** Loading the array *)

Lemma restore_datum1_length attno n m : length (restore_datum1 attno n m) = length m.
Proof.
  revert m. induction n as [|n IH]; intros [|a m]; cbn; try done.
  destruct (heap_getattr (tuple_of a) attno). cbn. by rewrite IH.
Qed.

(** Giving up abbreviation rewrites the cached keys of the loaded tuples. *)
Lemma restore_datum1_entries k ks n m ins :
  Forall2 (is_entry (k :: ks)) (take n m) ins ->
  Forall2 (is_entry (disable_abbrev_keys (k :: ks)))
    (take n (restore_datum1 (ssup_attno k) n m)) ins.
Proof.
  revert m ins. induction n as [|n IH]; intros [|a m] ins H; cbn in *;
    inversion H as [|? t ? ins' Ht Hins]; subst; try constructor.
  destruct Ht as [Ht _]. unfold tuple_of. rewrite Ht. cbn.
  destruct (heap_getattr t (ssup_attno k)) as [d isn] eqn:Hg. constructor; [|by apply IH].
  split; [done|]. cbn. by rewrite Hg.
Qed.

Lemma entry_not_abbreviated k ks t d isn src :
  abbrev_converter k = None -> heap_getattr t (ssup_attno k) = (d, isn) ->
  is_entry (k :: ks) (mk_stup (Some t) d isn src) t.
Proof. intros Hc Hg. split; [done|]. cbn. by rewrite Hg, Hc. Qed.

(** A consistent state after [copytup_heap] charged for the tuple. *)
Lemma copytup_heap_ok keys0 s ins used t :
  initial_inv keys0 s ins used ->
  exists s' stup, copytup_heap s t = Ok (s', stup) /\
    initial_inv keys0 s' ins (used + GetMemoryChunkSpace (t_len t)) /\
    is_entry (sortKeys s') stup t /\
    memtupcount s' = memtupcount s /\ memtupsize s' = memtupsize s /\
    bounded s' = bounded s /\ bound s' = bound s /\ allowedMem s' = allowedMem s /\
    randomAccess s' = randomAccess s.
Proof.
  intros Hinv. pose proof Hinv as []. destruct (initial_keys_wf _ _ _ _ Hinv) as [Hwf Htc].
  destruct (kw_abbrev _ Hwf) as (k & ks & Hk & Hab).
  unfold copytup_heap. set (s1 := USEMEM _ s).
  assert (Hinv1 : initial_inv keys0 s1 ins (used + GetMemoryChunkSpace (t_len t))).
  { subst s1. split; try done; [by destruct ii_array0|]. cbn. lia. }
  change (sortKeys s1) with (sortKeys s). rewrite Hk.
  destruct (heap_getattr t (ssup_attno k)) as [d isn] eqn:Hg.
  assert (Hraw : forall conv, abbrev_converter k = conv ->
            conv = None \/ isn = true -> is_entry (k :: ks) (mk_stup (Some t) d isn 0) t).
  { intros conv Hc Hor. split; [done|]. cbn. rewrite Hg, Hc.
    destruct conv; [|done]. by destruct Hor as [? | ->]. }
  destruct (abbrev_converter k) as [conv|] eqn:Hconv.
  2:{ exists s1. eexists. split; [done|]. split; [done|]. change (sortKeys s1) with (sortKeys s).
      rewrite Hk. split; [by apply (Hraw None); auto|done]. }
  destruct isn eqn:Hisn.
  { exists s1. eexists. split; [done|]. split; [done|]. change (sortKeys s1) with (sortKeys s).
    rewrite Hk. split; [by apply (Hraw (Some conv)); auto|done]. }
  assert (Hkeys0 : sortKeys s = keys0 /\ bounded s = false).
  { destruct ii_keys0 as [? | Hd].
    - split; [done|]. destruct (bounded s) eqn:Hb; [|done].
      destruct (ii_bound0 eq_refl) as [_ Hd]. rewrite Hd in Hk.
      destruct keys0 as [|k0 ks0]; [done|]. cbn in Hk. injection Hk as <- _. by cbn in Hconv.
    - rewrite Hd in Hk. destruct keys0 as [|k0 ks0]; [done|]. cbn in Hk. injection Hk as <- _. by cbn in Hconv. }
  destruct Hkeys0 as [Hkeys0 Hnb].
  unfold consider_abort_common. change (sortKeys s1) with (sortKeys s). rewrite Hk.
  change (status s1) with (status s). change (memtupcount s1) with (memtupcount s).
  assert (Hshort : is_entry (k :: ks) (mk_stup (Some t) (conv d) false 0) t).
  { split; [done|]. cbn. by rewrite Hg, Hconv. }
  destruct (bool_decide (status s = TSS_INITIAL) && (memtupcount s >=? abbrevNext s1)).
  2:{ cbn [rbind negb]. exists s1. eexists. split; [done|]. split; [done|].
      change (sortKeys s1) with (sortKeys s). rewrite Hk. done. }
  unfold abbrev_ok in Hab. rewrite Hconv in Hab. destruct Hab as [[abort Habort] _].
  rewrite Habort. cbn [memtupcount set_abbrevNext].
  change (memtupcount s1) with (memtupcount s).
  destruct (abort (memtupcount s)); cbn [negb rbind].
  - eexists _, _. split; [done|]. cbn -[Z.add]. split.
    + destruct ii_array0 as [Hl Hs Hb]. split; cbn -[Z.add]; try done.
      * split; cbn; [|lia|done].
        unfold zlen in *. by rewrite restore_datum1_length.
      * right. by rewrite Hkeys0.
      * intros Hb'. rewrite Hnb in Hb'. done.
      * lia.
      * rewrite Hk. rewrite Hk in ii_entries0. unfold ztake in *. by apply restore_datum1_entries.
    + rewrite Hk. split; [|done]. split; [done|]. cbn. by rewrite Hg.
  - eexists _, _. split; [done|]. split.
    + destruct Hinv1 as [? [] ? ? ? ? ? ? ? ? ?]. split; try done; by split.
    + change (sortKeys _) with (sortKeys s). rewrite Hk. done.
Qed.

(** [put_initial_store] on a consistent state that has a free slot. *)
Lemma put_initial_store_ok E keys0 s ins used stup t :
  initial_inv keys0 s ins used -> is_entry (sortKeys s) stup t ->
  memtupcount s < memtupsize s ->
  exists s', put_initial_store E s stup = Ok s' /\ initial_inv keys0 s' (ins ++ [t]) used /\
    memtupcount s' = memtupcount s + 1 /\ bounded s' = bounded s /\ bound s' = bound s /\
    allowedMem s' = allowedMem s /\
    (memtupcount s + 1 < memtupsize s -> memtupsize s' = memtupsize s) /\
    memtupsize s <= memtupsize s' /\ randomAccess s' = randomAccess s.
Proof.
  intros Hinv Hent Hroom. pose proof Hinv as []. unfold put_initial_store.
  assert (Hg : exists size g, memtupsize s <= size <= INT_MAX /\
     (memtupcount s + 1 < memtupsize s -> size = memtupsize s) /\
     (if memtupcount s >=? memtupsize s - 1 then
        do! ' (s, _) <- grow_memtuples E s ;; Ok s else Ok s) = Ok (resized s size g)).
  { rewrite Z.geb_leb. destruct (Z.leb_spec (memtupsize s - 1) (memtupcount s)).
    - destruct (grow_memtuples_ok E s ii_array0) as (size & g & b & -> & Hs & _).
      exists size, g. split; [done|]. split; [lia|done].
    - exists (memtupsize s), (growmemtuples s). destruct ii_array0. split; [lia|].
      split; [done|]. rewrite resized_same. by destruct s. }
  destruct Hg as (size & g & Hsz & Hsame & ->). cbn [rbind].
  pose proof (resized_array_ok s size g ii_array0 Hsz) as Hao.
  pose proof (ao_len _ ii_array0) as Hlen. pose proof (ao_size _ ii_array0) as Hsize.
  change (memtupcount (resized s size g)) with (memtupcount s).
  pose proof (ao_len _ Hao) as Hlen'. change (memtupsize (resized s size g)) with size in Hlen'.
  rewrite aset_Ok by lia. cbn [rbind]. eexists. split; [done|].
  split; [|cbn; repeat split; done || lia]. split; try done.
  - destruct Hao as [H1 H2 H3]. split; cbn in *; [by rewrite zlen_zset|done|done].
  - cbn. lia.
  - cbn. lia.
  - cbn [sortKeys memtupcount memtuples set_memtupcount set_memtuples resized
         set_growmemtuples set_memtupsize set_availMem].
    rewrite (ztake_succ _ _ stup) by (apply zget_zset_eq; cbn in *; lia).
    rewrite ztake_zset_ge by lia. rewrite ztake_app_l by lia.
    apply Forall2_app; [done|]. by constructor.
Qed.

(** A put into a sort that is still loading its array: it stays an array,
    becomes a bounded heap, or has to go to tape. *)
Lemma puttupleslot_initial E keys0 s ins t :
  initial_inv keys0 s ins (tuples_space ins) -> memtupcount s < memtupsize s ->
  exists s2, initial_inv keys0 s2 (ins ++ [t]) (tuples_space (ins ++ [t])) /\
    memtupcount s2 = memtupcount s + 1 /\ bounded s2 = bounded s /\ bound s2 = bound s /\
    allowedMem s2 = allowedMem s /\
    (memtupcount s + 1 < memtupsize s -> memtupsize s2 = memtupsize s) /\
    memtupsize s <= memtupsize s2 /\ randomAccess s2 = randomAccess s /\
    tuplesort_puttupleslot E s t =
      if time_for_heap s2 then make_bounded_heap s2
      else if (memtupcount s2 <? memtupsize s2) && negb (LACKMEM s2) then Ok s2
      else do! s <- inittapes s2 ;; dumptuples E s false.
Proof.
  intros Hinv Hroom.
  destruct (copytup_heap_ok keys0 s ins _ t Hinv)
    as (s1 & stup & Hcopy & Hinv1 & Hent & Hc & Hsz & Hb & Hbd & Hal & Hra).
  destruct (put_initial_store_ok E keys0 s1 ins _ stup t Hinv1 Hent)
    as (s2 & Hst & Hinv2 & Hc2 & Hb2 & Hbd2 & Hal2 & Hsame & Hge & Hra2); [lia|].
  exists s2. split.
  { rewrite tuples_space_app. cbn. by rewrite Z.add_0_r. }
  split; [lia|]. split; [congruence|]. split; [congruence|]. split; [congruence|].
  split; [lia|]. split; [lia|]. split; [congruence|].
  unfold tuplesort_puttupleslot. rewrite Hcopy. cbn [rbind]. unfold puttuple_common.
  rewrite (ii_status _ _ _ _ Hinv1), Hst. done.
Qed.

Lemma puttupleslot_bounded E keys0 s ins t :
  bounded_inv keys0 s ins ->
  exists s', tuplesort_puttupleslot E s t = Ok s' /\ bounded_inv keys0 s' (ins ++ [t]) /\
    bound s' = bound s.
Proof.
  intros Hinv. pose proof Hinv as []. unfold tuplesort_puttupleslot, copytup_heap.
  set (s1 := USEMEM _ s).
  assert (Hinv1 : bounded_inv keys0 s1 ins) by (destruct Hinv; by split).
  change (sortKeys s1) with (sortKeys s). rewrite bi_keys0.
  destruct (kw_abbrev _ bi_wf0) as (k & ks & -> & _). cbn [disable_abbrev_keys].
  cbn [reversedirection fmap list_fmap]. change (ssup_attno (reverse_key (disable_abbrev k)))
    with (ssup_attno k).
  destruct (heap_getattr t (ssup_attno k)) as [d isn] eqn:Hg.
  cbn [abbrev_converter reverse_key disable_abbrev rbind].
  destruct (puttuple_bounded_ok E (k :: ks) s1 ins (mk_stup (Some t) d isn 0) t)
    as (s' & Hput & Hinv' & Hb); [done|by apply entry_not_abbreviated|].
  by exists s'.
Qed.

(** ** Beginning *)

Lemma initial_size_nonneg : 0 <= INITIAL_MEMTUPSIZE.
Proof. change INITIAL_MEMTUPSIZE with 1024. lia. Qed.

(** The state of a fresh batch. *)
Definition fresh_batch (s : Tuplesortstate) : Tuplesortstate :=
  set_result_tape (-1) (set_currentRun 0 (set_availMem (allowedMem s - 24592)
    (set_memtuples (palloc_memtuples INITIAL_MEMTUPSIZE) (set_slabAllocatorUsed false
      (set_growmemtuples true (set_memtupcount 0 (set_tapeset None (set_boundUsed false
        (set_bounded false (set_status TSS_INITIAL s)))))))))).

Lemma tuplesort_begin_batch_fresh s :
  memtuples s = [] -> memtupsize s = INITIAL_MEMTUPSIZE -> 65536 <= allowedMem s ->
  tuplesort_begin_batch s = Ok (fresh_batch s).
Proof.
  intros Hm Hsz Hmem. unfold tuplesort_begin_batch. cbn. rewrite Hm.
  change (zlen (@nil SortTuple) =? 0) with true. cbn. rewrite Hm.
  change (zlen (@nil SortTuple) =? 0) with true. cbn.
  rewrite Hsz. unfold memtuples_space. cbn.
  rewrite zlen_palloc by apply initial_size_nonneg. rewrite array_space by lia.
  change (INITIAL_MEMTUPSIZE * 24 + 16) with 24592. unfold LACKMEM; cbn.
  destruct (Z.ltb_spec (allowedMem s - 24592) 0); [lia|done].
Qed.

Lemma tuplesort_begin_heap_ok keys workMem ra :
  keys_wf keys ->
  exists s, tuplesort_begin_heap keys workMem ra = Ok s /\ initial_inv keys s [] 0 /\
    memtupcount s = 0 /\ memtupsize s = INITIAL_MEMTUPSIZE /\ bounded s = false /\ bound s = 0 /\
    allowedMem s = Z.max workMem 64 * 1024 /\ randomAccess s = ra.
Proof.
  intros Hwf. pose proof Hwf as [Hok (k & ks & -> & Hab)].
  unfold tuplesort_begin_heap, tuplesort_begin_common.
  rewrite tuplesort_begin_batch_fresh by (done || (cbn; lia)).
  cbn [rbind]. eexists. split; [done|].
  match goal with |- context [set_sortKeys (k :: ks) ?x] => set (s1 := x) end.
  assert (Hinv : forall o, (o = true -> exists k0, k :: ks = [k0] /\ abbrev_converter k0 = None) ->
    initial_inv (k :: ks) (set_onlyKey o (set_sortKeys (k :: ks) s1)) [] 0).
  { intros o Ho. split; try done.
    - by left.
    - change (Z.max workMem 64 * 1024 - 24592 =
        Z.max workMem 64 * 1024 - (INITIAL_MEMTUPSIZE * 24 + 16) - 0).
      change (INITIAL_MEMTUPSIZE * 24 + 16) with 24592. lia. }
  destruct ((zlen (k :: ks) =? 1) && _) eqn:Ho.
  - split; [|done]. apply Hinv. intros _. apply andb_true_iff in Ho as [H1 H2].
    apply Z.eqb_eq in H1. destruct ks as [|k' ks].
    2:{ rewrite !zlen_cons in H1. pose proof (zlen_nonneg ks). lia. }
    exists k. split; [done|]. apply negb_true_iff, bool_decide_eq_false in H2.
    destruct (abbrev_converter k); [|done]. destruct H2; eauto.
  - split; [|done]. apply (Hinv false). done.
Qed.

Lemma tuplesort_set_bound_ok keys0 s used b :
  initial_inv keys0 s [] used -> 1 <= b <= INT_MAX / 2 ->
  let s' := tuplesort_set_bound s b in
  initial_inv keys0 s' [] used /\ bounded s' = true /\ bound s' = b /\
  memtupcount s' = memtupcount s /\ memtupsize s' = memtupsize s /\ allowedMem s' = allowedMem s.
Proof.
  intros Hinv Hb. pose proof Hinv as []. unfold tuplesort_set_bound.
  destruct (Z.gtb_spec b (INT_MAX / 2)); [lia|].
  change (INT_MAX / 2) with 1073741823 in *.
  rewrite int32_id by (unfold is_int32, INT_MIN, INT_MAX; lia).
  split; [|done]. split; try done.
  - by destruct ii_array0.
  - right. cbn. destruct ii_keys0 as [-> | ->]; [done|by rewrite disable_abbrev_idem].
  - intros _. split; [done|]. cbn.
    destruct ii_keys0 as [-> | ->]; [done|by rewrite disable_abbrev_idem].
  - cbn. inversion ii_entries0 as [Hnil|]. constructor.
Qed.

(** ** The sorted result *)

Record result_inv (keys0 : list SortSupportData) (s : Tuplesortstate)
    (out : list MinimalTuple) : Prop := {
  ri_status : status s = TSS_SORTEDINMEM;
  ri_wf : keys_wf keys0;
  ri_keys : sortKeys s = keys0 \/ sortKeys s = disable_abbrev_keys keys0;
  ri_count : memtupcount s = zlen out;
  ri_entries : Forall2 (is_entry (sortKeys s)) (ztake (memtupcount s) (memtuples s)) out;
  ri_sorted : StronglySorted (cle (tcmp keys0)) out
}.

(** The cursor fields of a result nobody has read yet. *)
Record at_start (s : Tuplesortstate) : Prop := {
  as_current : current s = 0;
  as_eof : eof_reached s = false;
  as_mark : markpos_offset s = 0;
  as_markeof : markpos_eof s = false
}.

(** With a single, not abbreviated column the cheaper comparison is the same. *)
Lemma cmp_ssup_single k a b :
  abbrev_converter k = None -> cmp_ssup k a b = comparetup_heap [k] a b.
Proof.
  intros Hc. unfold cmp_ssup. cbn. rewrite Hc.
  by destruct (Z.eqb_spec (ApplySortComparator (datum1 a) (isnull1 a) (datum1 b) (isnull1 b) k) 0)
    as [-> |].
Qed.

Lemma StronglySorted_ext {A} (R Q : A -> A -> Prop) l :
  (forall a b, R a b -> Q a b) -> StronglySorted R l -> StronglySorted Q l.
Proof.
  intros HRQ. induction 1 as [|a l Hs IH Hall]; constructor; [done|].
  eapply Forall_impl; [exact Hall|auto].
Qed.

Section sorting.
Context (E : SortEnv) `{!SortEnvOk E}.

Lemma tuplesort_sort_memtuples_ok s :
  keys_wf (sortKeys s) -> 0 <= memtupcount s <= zlen (memtuples s) ->
  (onlyKey s = true -> exists k, sortKeys s = [k] /\ abbrev_converter k = None) ->
  exists m, tuplesort_sort_memtuples E s = Ok (set_memtuples m s) /\
    zlen m = zlen (memtuples s) /\
    ztake (memtupcount s) m ≡ₚ ztake (memtupcount s) (memtuples s) /\
    StronglySorted (cle (COMPARETUP s)) (ztake (memtupcount s) m).
Proof.
  intros Hwf Hn Ho. unfold tuplesort_sort_memtuples.
  set (live := ztake (memtupcount s) (memtuples s)).
  set (rest := drop (Z.to_nat (memtupcount s)) (memtuples s)).
  assert (Hgen : forall sorted, sorted ≡ₚ live -> StronglySorted (cle (COMPARETUP s)) sorted ->
    zlen (sorted ++ rest) = zlen (memtuples s) /\
    ztake (memtupcount s) (sorted ++ rest) ≡ₚ live /\
    StronglySorted (cle (COMPARETUP s)) (ztake (memtupcount s) (sorted ++ rest))).
  { intros l Hp Hs. assert (Hl : zlen l = memtupcount s).
    { unfold zlen. rewrite Hp. fold (zlen live). subst live. by apply zlen_ztake. }
    assert (Ht : ztake (memtupcount s) (l ++ rest) = l) by (rewrite <- Hl; apply ztake_app_all).
    rewrite Ht. split; [|done]. rewrite zlen_app, Hl. subst rest. unfold zlen in *.
    rewrite length_drop. lia. }
  destruct (Z.gtb_spec (memtupcount s) 1).
  2:{ exists (memtuples s). rewrite set_memtuples_id. do 3 (split; [done|]).
      fold live. assert (length live <= 1)%nat by (subst live; unfold ztake; rewrite length_take; lia).
      destruct live as [|a [|b l]]; cbn in *; [constructor|by repeat constructor|lia]. }
  destruct (Z.gtb_spec (memtupcount s) (zlen (memtuples s))); [lia|].
  destruct (onlyKey s) eqn:Hok.
  - destruct (Ho eq_refl) as (k & Hk & Hc). rewrite Hk. eexists. split; [done|].
    assert (Hcmp : forall a b, comparetup_heap [k] a b = cmp_ssup k a b)
      by (intros; by rewrite cmp_ssup_single).
    apply Hgen; [apply qsort_ssup_perm|]. unfold COMPARETUP. rewrite Hk.
    eapply StronglySorted_ext; [|apply qsort_ssup_sorted].
    + unfold cle. intros a b. by rewrite Hcmp.
    + eapply (comparator_ext _ _ (fun a b => eq_sym (Hcmp a b))).
      apply comparetup_heap_ok. rewrite <- Hk. apply Hwf.
  - eexists. split; [done|]. apply Hgen; [apply qsort_tuple_perm|].
    apply qsort_tuple_sorted. apply comparetup_heap_ok, Hwf.
Qed.

Lemma performsort_initial keys0 s ins used :
  initial_inv keys0 s ins used ->
  exists s' out, tuplesort_performsort E s = Ok s' /\ result_inv keys0 s' out /\ at_start s' /\
    out ≡ₚ ins /\ boundUsed s' = false /\ bounded s' = bounded s /\ bound s' = bound s.
Proof.
  intros Hinv. pose proof Hinv as []. destruct (initial_keys_wf _ _ _ _ Hinv) as [Hwf Htc].
  unfold tuplesort_performsort. rewrite ii_status0.
  destruct (tuplesort_sort_memtuples_ok s) as (m & -> & Hl & Hp & Hs).
  { done. }
  { destruct ii_array0. lia. }
  { intros Ho. destruct (ii_only0 Ho) as (k & -> & Hc).
    destruct ii_keys0 as [-> | ->]; [by exists k|by exists (disable_abbrev k)]. }
  cbn [rbind]. symmetry in Hp.
  destruct (Forall2_perm_l _ _ _ _ Hp ii_entries0) as (out & Hpo & Hout).
  eexists _, out. split; [done|]. split; [|done].
  split; cbn; try done.
  - rewrite <- (Forall2_zlen _ _ _ Hout). symmetry. apply zlen_ztake. destruct ii_array0. lia.
  - eapply Forall2_sorted; [|exact Hout|exact Hs].
    intros a a' b b' Ha Ha' Hle. rewrite <- Htc. by apply (entry_cle _ a a' b b').
Qed.

Lemma performsort_bounded keys0 s ins :
  bounded_inv keys0 s ins ->
  exists s' out, tuplesort_performsort E s = Ok s' /\ result_inv keys0 s' out /\ at_start s' /\
    topn (tcmp keys0) (bound s) ins out /\ boundUsed s' = true /\ bounded s' = true /\
    bound s' = bound s.
Proof.
  intros []. destruct bi_bound0 as [Hb Hbl].
  destruct bi_entries0 as (kept & rest & Hp & Hkept & Hsep).
  pose proof (keys_wf_disable _ bi_wf0) as Hwf.
  assert (Hcmp : Comparator (COMPARETUP s)).
  { unfold COMPARETUP. rewrite bi_keys0. by apply reversed_comparator. }
  unfold tuplesort_performsort. rewrite bi_status0. unfold sort_bounded_heap. rewrite bi_count0.
  pose proof (upd3_id s) as Hid. rewrite bi_count0 in Hid.
  assert (Hd : zdrop (bound s) (ztake (bound s) (memtuples s)) = []).
  { unfold zdrop, ztake. apply drop_ge. rewrite length_take. lia. }
  change (INT_MAX / 2) with 1073741823 in *.
  destruct (sort_bounded_heap_loop_ok s (bound s) ltac:(unfold INT_MAX; lia)
    (S (Z.to_nat (bound s))) (memtuples s) (bound s) (availMem s))
    as (m & Hloop & Hl & Hpm & Hs); [|lia|].
  { split; [lia|done|rewrite Hd; constructor|rewrite Hd; apply keep_nil]. }
  rewrite Hid in Hloop. rewrite Hloop. cbn [rbind]. symmetry in Hpm.
  destruct (Forall2_perm_l _ _ _ _ Hpm Hkept) as (out & Hpo & Hout).
  eexists _, out. split; [done|].
  assert (Hsk : reversedirection (sortKeys s) = disable_abbrev_keys keys0)
    by (rewrite bi_keys0; apply reversedirection_involutive).
  assert (Hlen : zlen out = bound s).
  { rewrite <- (Forall2_zlen _ _ _ Hout). apply zlen_ztake. lia. }
  assert (Hsorted : StronglySorted (cle (tcmp keys0)) out).
  { eapply Forall2_sorted; [|exact Hout|exact Hs].
    intros a a' b b' Ha Ha' Hle. unfold desc, COMPARETUP in Hle. rewrite bi_keys0 in Hle.
    apply (rev_cle _ _ _ b' b) in Hle; auto. by rewrite tcmp_disable in Hle. }
  split; [|split; [done|split; [|done]]].
  - split; [done|done|right; exact Hsk|by rewrite Hlen| |done].
    change (Forall2 (is_entry (reversedirection (sortKeys s))) (ztake (bound s) m) out).
    by rewrite Hsk.
  - split; [done|]. split.
    + rewrite Hlen. unfold zlen. rewrite Hp, length_app.
      apply Permutation_length in Hpo. unfold zlen in Hlen. lia.
    + exists rest. split; [by rewrite Hp, Hpo|]. intros x y Hx Hy. apply Hsep; [|done].
      by rewrite Hpo.
Qed.
End sorting.

(** ** Growing the array *)

(** C36. Growing the tuple array never raises the out-of-memory error and never
    overflows, whatever the floating-point estimate returns: the array keeps
    its tuples (nothing but the array and its accounting changes), stays within [INT_MAX] entries, is charged to the memory budget
    entry by entry, and a budget that was not exceeded is not exceeded by
    growing. *)
Theorem grow_memtuples_total E s :
  array_ok s ->
  exists s' grown, grow_memtuples E s = Ok (s', grown) /\ array_ok s' /\
    (exists size grow, s' = resized s size grow) /\
    memtupsize s <= memtupsize s' <= INT_MAX /\ (grown = true <-> memtupsize s < memtupsize s') /\
    ztake (memtupsize s) (memtuples s') = memtuples s /\
    availMem s' + memtupsize s' * 24 = availMem s + memtupsize s * 24 /\
    (0 <= availMem s -> 0 <= availMem s').
Proof.
  intros Hok. destruct (grow_memtuples_ok E s Hok) as (size & g & b & -> & Hsz & Hb & Hav).
  exists (resized s size g), b. split; [done|]. split; [by apply resized_array_ok|].
  split; [by exists size, g|]. cbn. split; [done|]. split; [done|]. split; [|split; [lia|]].
  - rewrite <- (ao_len _ Hok). apply ztake_app_all.
  - intros Ha. destruct b; [by apply Hav|]. assert (~ memtupsize s < size) by (by intros ?%Hb). lia.
Qed.

(** A sort of integers just begun. *)
Definition begun : Tuplesortstate :=
  match tuplesort_begin_heap [mk_ssup false false 1 Z.sub None None None] 4096 false with
  | Ok s => s
  | _ => zero_state
  end.

Lemma grow_memtuples_total_witness :
  exists s' grown, grow_memtuples (mk_env (fun _ l => l) (fun _ l => l) (fun _ _ _ => 0) (fun _ => 0) (fun n => n)) begun =
    Ok (s', grown) /\ array_ok s' /\ (exists size grow, s' = resized begun size grow) /\
    1024 <= memtupsize s' <= INT_MAX /\ (grown = true <-> 1024 < memtupsize s') /\
    ztake 1024 (memtuples s') = memtuples begun /\
    availMem s' + memtupsize s' * 24 = availMem begun + 1024 * 24 /\
    (0 <= availMem begun -> 0 <= availMem s').
Proof.
  apply (grow_memtuples_total _ begun). split.
  - vm_compute. reflexivity.
  - vm_compute. split; discriminate.
  - vm_compute. reflexivity.
Defined.
