(* ===== verification/RunMerge.v ===== *)
(** * Merging one run from each tape

    [beginmerge], [mergeonerun] and the final merge of [gettuple_common] merge
    the runs at the read positions of several tapes through the heap of
    tuplesort.c.  An [mtape] is a tape together with the rows still to be read
    of the run it takes part with, the runs that follow on it, and the rows of
    an unfinished run on an output tape. *)

From Stdlib Require Import ZArith Lia.
From stdpp Require Import base list sorting strings.
From S2P Require Import Prelude HeapTheory SortSupport TuplesortHeap LogTape TuplesortState Tuplesort TapeRuns TuplesortMem.

Local Open Scope Z_scope.

Record mtape := mk_mt {
  mt_lt : LogicalTape;
  mt_read : bool;
  mt_act : bool;
  mt_rem : list MinimalTuple;
  mt_runs : list (list MinimalTuple);
  mt_out : list MinimalTuple
}.

(** The tapes of the set, and which of them are active. *)
Definition tapes_of (T : list mtape) : LogicalTapeSet := mt_lt <$> T.
Definition acts_of (T : list mtape) : list bool := mt_act <$> T.

(** The rows of the active runs that have not been read. *)
Definition left_rows (T : list mtape) : list MinimalTuple := concat (mt_rem <$> T).

(** The fields of the state a merge changes. *)
Definition mst (s : Tuplesortstate) (T : list mtape) (m : list SortTuple) (n : Z) : Tuplesortstate :=
  set_mergeactive (acts_of T) (set_memtupcount n (set_memtuples m
    (set_tapeset (Some (tapes_of T)) s))).

Lemma mst_set_tapes s T T' m n :
  acts_of T' = acts_of T -> set_tapeset (Some (tapes_of T')) (mst s T m n) = mst s T' m n.
Proof. intros Ha. unfold mst. by rewrite Ha. Qed.

Section merge.
Variable s0 : Tuplesortstate.
Local Abbreviation keys := (sortKeys s0).
Local Abbreviation ra := (randomAccess s0).
Local Abbreviation le := (cle (tcmp (sortKeys s0))).
Implicit Types (T : list mtape) (x : mtape) (m : list SortTuple) (n t b : Z) (e : SortTuple).

Definition run_ok (r : list MinimalTuple) : Prop := Forall row_ok r /\ StronglySorted le r.

Definition mtape_ok x : Prop :=
  run_ok (mt_rem x) /\ Forall run_ok (mt_runs x) /\
  if mt_read x then
    frozen (mt_lt x) = false /\ (mt_act x = false -> mt_rem x = []) /\
    reads (mt_lt x)
      ((if mt_act x then enc_rows ra (mt_rem x) ++ [LenWord 0] else []) ++ enc_runs ra (mt_runs x))
  else
    mt_act x = false /\ mt_rem x = [] /\
    holds (mt_lt x) (enc_runs ra (mt_runs x) ++ enc_rows ra (mt_out x)).

Hypothesis Hwf : keys_wf keys.
Hypothesis Hfull : forall k ks, keys = k :: ks -> abbrev_converter k = None.

Lemma merge_keys : exists k ks, keys = k :: ks /\ abbrev_converter k = None.
Proof. destruct (kw_abbrev _ Hwf) as (k & ks & Hk & _). exists k, ks. eauto. Qed.

(** The tape after one read. *)
Definition advanced x (lt : LogicalTape) (act : bool) (rem : list MinimalTuple) : mtape :=
  mk_mt lt true act rem (mt_runs x) [].

Lemma mst_read T m n t x lt act rem :
  set_tapeset (Some (zset (tapes_of T) t lt)) (mst s0 T m n) =
    set_mergeactive (acts_of T) (set_memtupcount n (set_memtuples m
      (set_tapeset (Some (tapes_of (zset T t (advanced x lt act rem)))) s0))).
Proof. unfold tapes_of. by rewrite fmap_zset. Qed.

Lemma acts_of_same T t x y :
  zget T t = Some x -> mt_act y = mt_act x -> acts_of (zset T t y) = acts_of T.
Proof.
  intros Hx Hy. unfold acts_of. rewrite fmap_zset, Hy. apply zset_id. by rewrite zget_fmap, Hx.
Qed.

Lemma run_ok_tail r rs : run_ok (r :: rs) -> row_ok r /\ run_ok rs /\ Forall (le r) rs.
Proof.
  intros [Hr Hs]. inversion Hr; subst. apply StronglySorted_inv in Hs as [Hs Hall].
  split; [done|]. by split.
Qed.

(** ** Reading the next row of a run *)

Lemma mergereadnext_inactive T m n t x :
  zget T t = Some x -> mt_act x = false ->
  mergereadnext (mst s0 T m n) t = Ok (mst s0 T m n, None).
Proof.
  intros Hx Ha. unfold mergereadnext.
  change (mergeactive (mst s0 T m n)) with (acts_of T). unfold acts_of.
  rewrite (aget_Ok _ _ (mt_act x)) by (by rewrite zget_fmap, Hx). cbn [rbind]. by rewrite Ha.
Qed.

(** The run is exhausted: the tape becomes inactive. *)
Lemma mergereadnext_end T m n t x :
  zget T t = Some x -> mtape_ok x -> mt_act x = true -> mt_rem x = [] ->
  exists lt, let x' := advanced x lt false [] in
    mergereadnext (mst s0 T m n) t = Ok (mst s0 (zset T t x') m n, None) /\
    mtape_ok x' /\ cells lt = cells (mt_lt x).
Proof.
  intros Hx (Hrun & Hruns & Hok) Ha Hrem. pose proof (zget_bounds _ _ _ Hx) as Hb.
  destruct (mt_read x); [|by destruct Hok as [? _]; congruence].
  destruct Hok as (Hf & _ & Hr). rewrite Ha, Hrem in Hr. cbn [app enc_rows mbind list_bind] in Hr.
  assert (Hlt : zget (tapes_of T) t = Some (mt_lt x)) by (unfold tapes_of; by rewrite zget_fmap, Hx).
  destruct (getlen_ok (mst s0 T m n) (tapes_of T) t (mt_lt x) 0 _ true eq_refl Hlt Hr)
    as (lt & Hg & Hr' & Hc & Hf'); [done|].
  exists lt. cbv zeta. split; [|split; [|done]].
  - unfold mergereadnext. change (mergeactive (mst s0 T m n)) with (acts_of T). unfold acts_of at 1.
    rewrite (aget_Ok _ _ (mt_act x)) by (by rewrite zget_fmap, Hx). cbn [rbind]. rewrite Ha.
    cbn [negb]. rewrite Hg. cbn [rbind Z.eqb].
    change (mergeactive (set_tapeset (Some (zset (tapes_of T) t lt)) (mst s0 T m n))) with (acts_of T).
    rewrite aset_Ok by (unfold acts_of; by rewrite zlen_fmap). cbn [rbind].
    do 2 f_equal. unfold mst, acts_of, tapes_of. by rewrite !fmap_zset.
  - split; [by repeat constructor|]. split; [done|]. cbn. split; [congruence|done].
Qed.

Lemma mergereadnext_row T m n t x r rs :
  zget T t = Some x -> mtape_ok x -> mt_act x = true -> mt_rem x = r :: rs ->
  exists lt a, let x' := advanced x lt true rs in
    mergereadnext (mst s0 T m n) t = Ok (mst s0 (zset T t x') m n, Some a) /\
    mtape_ok x' /\ cells lt = cells (mt_lt x) /\ disk_entry keys a r.
Proof.
  intros Hx (Hrun & Hruns & Hok) Ha Hrem. pose proof (zget_bounds _ _ _ Hx) as Hb.
  destruct (mt_read x); [|by destruct Hok as [? _]; congruence].
  rewrite Hrem in Hrun. apply run_ok_tail in Hrun as (Hrow & Hrun & _).
  destruct Hok as (Hf & _ & Hr). rewrite Ha, Hrem in Hr.
  unfold enc_rows in Hr. cbn [mbind list_bind] in Hr. fold (enc_rows ra rs) in Hr.
  unfold enc_row in Hr. cbn [app] in Hr.
  assert (Hlt : zget (tapes_of T) t = Some (mt_lt x)) by (unfold tapes_of; by rewrite zget_fmap, Hx).
  destruct (len_word_ok r Hrow) as (_ & _ & Hnz).
  destruct (getlen_ok (mst s0 T m n) (tapes_of T) t (mt_lt x) (len_word r) _ true eq_refl Hlt Hr)
    as (lt1 & Hg & Hr1 & Hc1 & Hf1); [done|].
  destruct merge_keys as (k & ks & Hk & Hc).
  destruct (readtup_heap_ok (set_tapeset (Some (zset (tapes_of T) t lt1)) (mst s0 T m n))
    (zset (tapes_of T) t lt1) t lt1 r
    ((enc_rows ra rs ++ [LenWord 0]) ++ enc_runs ra (mt_runs x)))
    as (lt & a & Hrd & Hr2 & Hc2 & Hf2 & Hd).
  { done. }
  { apply zget_zset_eq. unfold tapes_of. by rewrite zlen_fmap. }
  { change (keys <> []). by rewrite Hk. }
  { done. }
  { change (randomAccess _) with ra. rewrite <- !app_assoc in Hr1. rewrite <- !app_assoc. exact Hr1. }
  exists lt, a. cbv zeta. split; [|split; [|split; [congruence|done]]].
  - unfold mergereadnext. change (mergeactive (mst s0 T m n)) with (acts_of T). unfold acts_of at 1.
    rewrite (aget_Ok _ _ (mt_act x)) by (by rewrite zget_fmap, Hx). cbn [rbind]. rewrite Ha.
    cbn [negb]. rewrite Hg. cbn [rbind]. destruct (Z.eqb_spec (len_word r) 0); [done|].
    rewrite Hrd. cbn [rbind]. rewrite zset_zset_eq. do 2 f_equal.
    unfold mst. rewrite (acts_of_same T t x) by (done || by rewrite Ha).
    unfold tapes_of. by rewrite fmap_zset.
  - split; [done|]. split; [done|]. cbn. split; [congruence|done].
Qed.

(** ** The merge heap *)

(** The rows in the heap. *)
Definition heap_rows m n : list MinimalTuple := tuple_of <$> ztake n m.

Definition srcs m n : list Z := srctape <$> ztake n m.

(** An entry of the heap: a row of the run its tape is active with, sorting
    before what is left of that run. *)
Definition entry_ok T b e : Prop :=
  disk_entry keys e (tuple_of e) /\ row_ok (tuple_of e) /\ srctape e < b /\
  exists x, zget T (srctape e) = Some x /\ mt_act x = true /\ Forall (le (tuple_of e)) (mt_rem x).

(** The first [b] tapes have been loaded: exactly one entry of the heap for
    each of them that is active.  [L] bounds the active tapes. *)
Record minv (L : list Z) T m n b : Prop := {
  mi_tapes : Forall mtape_ok T;
  mi_n : 0 <= n <= zlen m;
  mi_size : zlen m <= INT_MAX;
  mi_heap : heap_ok (cle (COMPARETUP s0)) m 0 n;
  mi_entries : Forall (entry_ok T b) (ztake n m);
  mi_loaded : forall t x, zget T t = Some x -> mt_act x = true -> t < b -> t ∈ srcs m n;
  mi_nodup : NoDup (srcs m n);
  mi_cap : zlen L <= zlen m;
  mi_active : forall t x, zget T t = Some x -> mt_act x = true -> t ∈ L
}.

Lemma full_entry e r : disk_entry keys e r -> is_entry keys e r.
Proof.
  destruct merge_keys as (k & ks & Hk & Hc). rewrite Hk. by apply disk_entry_is_entry.
Qed.

#[local] Instance merge_cmp : Comparator (COMPARETUP s0).
Proof. apply comparetup_heap_ok, Hwf. Qed.

#[local] Instance merge_tcmp : Comparator (tcmp keys).
Proof. by apply tcmp_ok. Qed.

(** The root sorts before every row of the merge. *)
Lemma merge_top_least L T m n top r :
  minv L T m n (zlen T) -> 0 < n -> zget m 0 = Some top ->
  r ∈ heap_rows m n ++ left_rows T -> le (tuple_of top) r.
Proof.
  intros [] Hn Htop Hr.
  assert (Hheap : forall e, e ∈ ztake n m -> le (tuple_of top) (tuple_of e)).
  { intros e He. pose proof (heap_top_least (COMPARETUP s0) m n top e) as Hle.
    assert (Ht : top ∈ ztake n m).
    { apply zget_elem with 0. by rewrite zget_ztake by lia. }
    destruct (proj1 (Forall_forall _ _) mi_entries0 _ He) as (Hd & _).
    destruct (proj1 (Forall_forall _ _) mi_entries0 _ Ht) as (Hd' & _).
    apply (entry_cle keys top e _ _ Hwf); [by apply full_entry..|]. apply Hle; auto; lia. }
  apply elem_of_app in Hr as [(e & -> & He)%list_elem_of_fmap | Hr]; [by apply Hheap|].
  unfold left_rows in Hr. apply elem_of_concat in Hr as (rs & Hr & Hrs).
  apply list_elem_of_fmap in Hrs as (x & -> & Hx). apply elem_zget in Hx as (t & Hx & Ht).
  pose proof (Forall_zget _ _ _ _ mi_tapes0 Hx) as (_ & _ & Hok).
  assert (Ha : mt_act x = true).
  { destruct (mt_act x) eqn:Ha; [done|]. exfalso.
    assert (Hnil : mt_rem x = []) by (destruct (mt_read x); naive_solver).
    rewrite Hnil in Hr. by apply not_elem_of_nil in Hr. }
  assert (Hin : t ∈ srcs m n) by (eapply mi_loaded0; [done..|lia]).
  apply list_elem_of_fmap in Hin as (e & -> & He).
  destruct (proj1 (Forall_forall _ _) mi_entries0 _ He) as (_ & _ & _ & x' & Hx' & _ & Hall).
  replace x' with x in Hall by congruence.
  transitivity (tuple_of e); [by apply Hheap|]. by apply (proj1 (Forall_forall _ _) Hall).
Qed.

(** Changing one tape. *)
Lemma left_rows_set T t x y :
  zget T t = Some x -> mt_rem x ++ left_rows (zset T t y) ≡ₚ mt_rem y ++ left_rows T.
Proof.
  intros Hx. unfold left_rows. rewrite fmap_zset. apply concat_zset. by rewrite zget_fmap, Hx.
Qed.

Lemma entry_ok_other T b t y e :
  srctape e <> t -> entry_ok T b e -> entry_ok (zset T t y) b e.
Proof.
  intros Hne (Hd & Hr & Hb & x & Hx & H). do 3 (split; [done|]). exists x.
  by rewrite zget_zset_ne by congruence.
Qed.

Lemma entry_ok_mono T b b' e : b <= b' -> entry_ok T b e -> entry_ok T b' e.
Proof. intros Hb (Hd & Hr & Hs & Hx). do 2 (split; [done|]). split; [lia|done]. Qed.

(** One tape moves on: the entries [news] of tape [t] join the entries [rest]
    of the other tapes. *)
Lemma minv_update L T m n b t x x' m' n' b' news rest :
  minv L T m n b -> zget T t = Some x -> (mt_act x' = true -> mt_act x = true) -> mtape_ok x' ->
  b <= b' ->
  Forall (fun e => entry_ok T b e /\ srctape e <> t) rest -> NoDup (srctape <$> rest) ->
  (forall t' y, zget T t' = Some y -> t' <> t -> mt_act y = true -> t' < b' ->
     t' ∈ srctape <$> rest) ->
  ztake n' m' ≡ₚ news ++ rest ->
  srctape <$> news = (if mt_act x' then [t] else []) ->
  Forall (entry_ok (zset T t x') b') news ->
  heap_ok (cle (COMPARETUP s0)) m' 0 n' -> 0 <= n' <= zlen m' -> zlen m' = zlen m ->
  minv L (zset T t x') m' n' b'.
Proof.
  intros Hinv Hx Hact Hok Hb Hrest Hnd Hload Hp Hnews Hent Hheap Hn' Hlen. pose proof Hinv as [].
  pose proof (zget_bounds _ _ _ Hx) as Ht.
  assert (Hsrcs : srcs m' n' ≡ₚ (if mt_act x' then [t] else []) ++ (srctape <$> rest)).
  { unfold srcs. by rewrite Hp, fmap_app, Hnews. }
  split; [by apply Forall_zset|done|lia|done| | | |lia|].
  - rewrite Hp. apply Forall_app. split; [done|]. eapply Forall_impl; [exact Hrest|].
    intros e [He Hne]. apply entry_ok_other; [done|]. by apply entry_ok_mono with b.
  - intros t' y Hy Ha Hlt. rewrite Hsrcs. apply elem_of_app.
    destruct (Z.eq_dec t t') as [<- | Hne].
    + left. rewrite zget_zset_eq in Hy by done. injection Hy as <-. rewrite Ha. by left.
    + right. rewrite zget_zset_ne in Hy by done. by eapply Hload; eauto.
  - rewrite Hsrcs. destruct (mt_act x'); [|done]. cbn. constructor; [|done].
    intros (e & -> & He)%list_elem_of_fmap.
    by destruct (proj1 (Forall_forall _ _) Hrest _ He) as [_ []].
  - intros t' y Hy Ha. destruct (Z.eq_dec t t') as [<- | Hne].
    + rewrite zget_zset_eq in Hy by done. injection Hy as <-. eauto.
    + rewrite zget_zset_ne in Hy by done. eauto.
Qed.

(** The entries other than the root. *)
Lemma minv_rest L T m n top rest :
  minv L T m n (zlen T) -> ztake n m ≡ₚ top :: rest ->
  Forall (fun e => entry_ok T (zlen T) e /\ srctape e <> srctape top) rest /\
  NoDup (srctape <$> rest) /\
  (forall t' y, zget T t' = Some y -> t' <> srctape top -> mt_act y = true ->
     t' < zlen T -> t' ∈ srctape <$> rest).
Proof.
  intros [] Hp. assert (Hs : srcs m n ≡ₚ srctape top :: (srctape <$> rest)).
  { unfold srcs. by rewrite Hp. }
  rewrite Hs in mi_nodup0. apply NoDup_cons in mi_nodup0 as [Hnin Hnd].
  rewrite Hp in mi_entries0. inversion mi_entries0 as [|?? _ Hrest]; subst.
  split; [|split; [done|]].
  - apply Forall_forall. intros e He. split; [by apply (proj1 (Forall_forall _ _) Hrest)|].
    intros Heq. apply Hnin. rewrite <- Heq. apply list_elem_of_fmap. by exists e.
  - intros t' y Hy Hne Ha Ht'. specialize (mi_loaded0 t' y Hy Ha Ht'). rewrite Hs in mi_loaded0.
    by apply elem_of_cons in mi_loaded0 as [-> |].
Qed.

(** What reading leaves: idle tapes are untouched, and no tape loses a run
    other than the one it is active with. *)
Definition msame x x' : Prop :=
  mt_read x' = mt_read x /\ mt_runs x' = mt_runs x /\ cells (mt_lt x') = cells (mt_lt x) /\
  (mt_act x = false -> x' = x).

Definition same_tapes (d : Z) T T' : Prop :=
  zlen T' = zlen T /\
  forall t x, t <> d -> zget T t = Some x -> exists x', zget T' t = Some x' /\ msame x x'.

Lemma same_tapes_refl d T : same_tapes d T T.
Proof. split; [done|]. intros t x _ Hx. exists x. by repeat split. Qed.

Lemma same_tapes_trans d T1 T2 T3 : same_tapes d T1 T2 -> same_tapes d T2 T3 -> same_tapes d T1 T3.
Proof.
  intros [Hl1 H1] [Hl2 H2]. split; [congruence|]. intros t x Hd Hx.
  destruct (H1 t x Hd Hx) as (y & Hy & Hr & Hru & Hc & Hi).
  destruct (H2 t y Hd Hy) as (z & Hz & Hr' & Hru' & Hc' & Hi').
  exists z. split; [done|]. do 3 (split; [congruence|]). intros Ha.
  rewrite Hi' by (by rewrite Hi). by apply Hi.
Qed.

Lemma same_tapes_set d T t x x' :
  zget T t = Some x -> msame x x' \/ t = d -> same_tapes d T (zset T t x').
Proof.
  intros Hx Hs. pose proof (zget_bounds _ _ _ Hx). split; [apply zlen_zset|]. intros t' y Hd Hy.
  destruct (Z.eq_dec t t') as [<- | Hne].
  - exists x'. rewrite zget_zset_eq by done. destruct Hs; [|done]. by replace y with x by congruence.
  - exists y. rewrite zget_zset_ne by done. by repeat split.
Qed.

Lemma same_tapes_weaken d T T' : same_tapes (-1) T T' -> same_tapes d T T'.
Proof.
  intros [Hl H]. split; [done|]. intros t x _ Hx. apply H; [|done].
  pose proof (zget_bounds _ _ _ Hx). lia.
Qed.

Lemma active_reads x : mtape_ok x -> mt_act x = true -> mt_read x = true.
Proof. intros (_ & _ & Hok) Ha. destruct (mt_read x); [done|]. destruct Hok. congruence. Qed.

Lemma advanced_same x lt act rem :
  mtape_ok x -> mt_act x = true -> cells lt = cells (mt_lt x) -> msame x (advanced x lt act rem).
Proof.
  intros Hok Ha Hc. split; [by rewrite (active_reads x)|]. do 2 (split; [done|]). congruence.
Qed.

(** One turn of a merge: the root is replaced by the next row of its tape, or
    removed when the run is exhausted. *)
Lemma merge_step L T m n top :
  minv L T m n (zlen T) -> 0 < n -> zget m 0 = Some top ->
  exists T' m' n' next,
    mergereadnext (mst s0 T m n) (srctape top) = Ok (mst s0 T' m n, next) /\
    match next with
    | Some a => ts_heap_replace_top (mst s0 T' m n) (Local_var (set_srctape (srctape top) a))
    | None => ts_heap_delete_top (mst s0 T' m n)
    end = Ok (mst s0 T' m' n') /\
    minv L T' m' n' (zlen T') /\ same_tapes (-1) T T' /\
    heap_rows m n ++ left_rows T ≡ₚ tuple_of top :: heap_rows m' n' ++ left_rows T' /\
    zlen m' = zlen m /\ (next = None -> forall x, zget T' (srctape top) = Some x -> mt_act x = false).
Proof.
  intros Hinv Hn Htop. pose proof Hinv as [].
  assert (Hin : top ∈ ztake n m).
  { apply zget_elem with 0. by rewrite zget_ztake by lia. }
  destruct (proj1 (Forall_forall _ _) mi_entries0 _ Hin) as (Hd & Hrow & Hlt & x & Hx & Ha & Hall).
  pose proof (zget_bounds _ _ _ Hx) as Hb. pose proof (Forall_zget _ _ _ _ mi_tapes0 Hx) as Hok.
  apply elem_of_Permutation in Hin as [rest Hrest].
  destruct (minv_rest L T m n top rest Hinv Hrest) as (Hre & Hrn & Hrl).
  set (t := srctape top) in *.
  destruct (mt_rem x) as [|r rs] eqn:Hrem.
  - destruct (mergereadnext_end T m n t x Hx Hok Ha Hrem) as (lt & Hread & Hok' & Hc).
    set (x' := advanced x lt false []) in *.
    destruct (tuplesort_heap_delete_top_ok (COMPARETUP s0) m n top) as (m' & Hdel & Hl & Hh & Hp & _);
      [lia|lia|done|done|].
    exists (zset T t x'), m', (n - 1), None. split; [done|].
    assert (Hp' : ztake (n - 1) m' ≡ₚ rest).
    { apply (Permutation_cons_inv (a := top)). by rewrite Hp, Hrest. }
    split; [unfold ts_heap_delete_top; cbn [mst memtuples memtupcount set_mergeactive
              set_memtupcount set_memtuples]; change (COMPARETUP (mst s0 (zset T t x') m n))
              with (COMPARETUP s0); by rewrite Hdel|].
    rewrite zlen_zset. split; [|split; [|split; [|split; [done|]]]].
    + apply minv_update with m n (zlen T) x [] rest; try done; lia.
    + apply same_tapes_set with x; [done|]. left. by apply advanced_same.
    + pose proof (left_rows_set T t x x' Hx) as Hlr. rewrite Hrem in Hlr. cbn in Hlr.
      rewrite Hlr. unfold heap_rows. by rewrite Hrest, Hp'.
    + intros _ y Hy. rewrite zget_zset_eq in Hy by done. by injection Hy as <-.
  - destruct (mergereadnext_row T m n t x r rs Hx Hok Ha Hrem) as (lt & a & Hread & Hok' & Hc & Hda).
    set (x' := advanced x lt true rs) in *.
    pose proof Hok as (Hrun & _ & _). rewrite Hrem in Hrun.
    apply run_ok_tail in Hrun as (Hrowr & _ & Hlers).
    set (new := set_srctape t a).
    destruct (tuplesort_heap_replace_top_ok (COMPARETUP s0) m n (Local_var new) new top)
      as (m' & Hrep & Hl & Hh & Hp & _); [lia|lia|done|done|done|].
    exists (zset T t x'), m', n, (Some a). split; [done|].
    assert (Hp' : ztake n m' ≡ₚ new :: rest).
    { apply (Permutation_cons_inv (a := top)). rewrite Hp, Hrest. apply Permutation_swap. }
    assert (Hnew : tuple_of new = r).
    { destruct Hda as [Hta _]. unfold tuple_of, new, set_srctape. cbn. by rewrite Hta. }
    split; [unfold ts_heap_replace_top; cbn [mst memtuples memtupcount set_mergeactive
              set_memtupcount set_memtuples]; change (COMPARETUP (mst s0 (zset T t x') m n))
              with (COMPARETUP s0); fold t new; by rewrite Hrep|].
    rewrite zlen_zset. split; [|split; [|split; [|by split]]].
    + apply minv_update with m n (zlen T) x [new] rest; try done; [|lia].
      constructor; [|done]. split; [by rewrite Hnew|]. split; [by rewrite Hnew|].
      split; [done|]. exists x'. split; [by apply zget_zset_eq|]. by rewrite Hnew.
    + apply same_tapes_set with x; [done|]. left. by apply advanced_same.
    + pose proof (left_rows_set T t x x' Hx) as Hlr. rewrite Hrem in Hlr. cbn [app] in Hlr.
      change (mt_rem x') with rs in Hlr. unfold heap_rows.
      rewrite Hrest, Hp', !fmap_cons, Hnew. cbn [app]. apply perm_skip.
      apply (Permutation_app_inv_l rs). rewrite (Permutation_app_comm (tuple_of <$> rest)).
      rewrite app_assoc, <- Hlr. clear. solve_Permutation.
Qed.

(** ** Loading the heap *)

Lemma minv_extend L T m n b b' :
  minv L T m n b -> b <= b' ->
  (forall t x, zget T t = Some x -> mt_act x = true -> b <= t < b' -> False) ->
  minv L T m n b'.
Proof.
  intros [] Hb Hno. split; try done.
  - eapply Forall_impl; [exact mi_entries0|]. intros e. by apply entry_ok_mono.
  - intros t x Hx Ha Ht. destruct (Z.lt_ge_cases t b); [by eauto|]. exfalso. eapply Hno; eauto.
Qed.

(** An active tape not loaded yet has a free slot. *)
Lemma minv_room L T m n b x :
  minv L T m n b -> zget T b = Some x -> mt_act x = true -> n < zlen m.
Proof.
  intros [] Hx Ha.
  assert (Hnd : NoDup (b :: srcs m n)).
  { constructor; [|done]. intros (e & He & Hin)%list_elem_of_fmap.
    destruct (proj1 (Forall_forall _ _) mi_entries0 _ Hin) as (_ & _ & Hlt & _). lia. }
  assert (Hincl : b :: srcs m n ⊆+ L).
  { apply NoDup_submseteq; [done|]. intros t [-> | Ht]%elem_of_cons; [by eauto|].
    apply list_elem_of_fmap in Ht as (e & -> & Hin).
    destruct (proj1 (Forall_forall _ _) mi_entries0 _ Hin) as (_ & _ & _ & y & Hy & Hay & _).
    by eauto. }
  apply submseteq_length in Hincl. cbn in Hincl. unfold srcs in Hincl. rewrite length_fmap in Hincl.
  pose proof (zlen_ztake n m mi_n0) as Hz. unfold zlen in *. lia.
Qed.

Lemma loaded_rest L T m n b :
  minv L T m n b ->
  Forall (fun e => entry_ok T b e /\ srctape e <> b) (ztake n m) /\
  forall t y, zget T t = Some y -> t <> b -> mt_act y = true -> t < b + 1 ->
    t ∈ srctape <$> ztake n m.
Proof.
  intros []. split.
  - eapply Forall_impl; [exact mi_entries0|]. intros e He. split; [done|].
    destruct He as (_ & _ & Hlt & _). lia.
  - intros t y Hy Hne Ha Ht. apply (mi_loaded0 t y); [done..|lia].
Qed.

Lemma load_step L T m n b :
  minv L T m n b -> 0 <= b < zlen T ->
  exists T' m' n' next,
    mergereadnext (mst s0 T m n) b = Ok (mst s0 T' m n, next) /\
    match next with
    | Some tup => ts_heap_insert (mst s0 T' m n) (Local_var (set_srctape b tup))
    | None => Ok (mst s0 T' m n)
    end = Ok (mst s0 T' m' n') /\
    minv L T' m' n' (b + 1) /\ same_tapes (-1) T T' /\
    heap_rows m n ++ left_rows T ≡ₚ heap_rows m' n' ++ left_rows T' /\ zlen m' = zlen m.
Proof.
  intros Hinv Hb. pose proof Hinv as []. destruct (zget_is_Some T b Hb) as [x Hx].
  pose proof (Forall_zget _ _ _ _ mi_tapes0 Hx) as Hok.
  destruct (loaded_rest L T m n b Hinv) as [Hre Hrl].
  destruct (mt_act x) eqn:Ha.
  2:{ exists T, m, n, None. split; [by apply mergereadnext_inactive with x|]. split; [done|].
      split; [|split; [apply same_tapes_refl|done]]. apply minv_extend with b; [done|lia|].
      intros t y Hy Hay Ht. assert (t = b) as -> by lia. congruence. }
  destruct (mt_rem x) as [|r rs] eqn:Hrem.
  - destruct (mergereadnext_end T m n b x Hx Hok Ha Hrem) as (lt & Hread & Hok' & Hc).
    set (x' := advanced x lt false []) in *. exists (zset T b x'), m, n, None.
    split; [done|]. split; [done|]. split; [|split; [|split; [|done]]].
    + apply minv_update with m n b x [] (ztake n m); try done; lia.
    + apply same_tapes_set with x; [done|]. left. by apply advanced_same.
    + pose proof (left_rows_set T b x x' Hx) as Hlr. rewrite Hrem in Hlr. cbn in Hlr. by rewrite Hlr.
  - destruct (mergereadnext_row T m n b x r rs Hx Hok Ha Hrem) as (lt & a & Hread & Hok' & Hc & Hda).
    set (x' := advanced x lt true rs) in *. set (new := set_srctape b a).
    pose proof Hok as (Hrun & _ & _). rewrite Hrem in Hrun.
    apply run_ok_tail in Hrun as (Hrowr & _ & Hlers).
    pose proof (minv_room L T m n b x Hinv Hx Ha) as Hroom.
    destruct (tuplesort_heap_insert_ok (COMPARETUP s0) m n (Local_var new) new)
      as (m' & Hins & Hl & Hh & Hp & _); [lia|lia|done|done|].
    assert (Hnew : tuple_of new = r).
    { destruct Hda as [Hta _]. unfold tuple_of, new, set_srctape. cbn. by rewrite Hta. }
    exists (zset T b x'), m', (n + 1), (Some a). split; [done|].
    split; [unfold ts_heap_insert; cbn [mst memtuples memtupcount set_mergeactive
              set_memtupcount set_memtuples]; change (COMPARETUP (mst s0 (zset T b x') m n))
              with (COMPARETUP s0); fold new; by rewrite Hins|].
    split; [|split; [|split; [|done]]].
    + apply minv_update with m n b x [new] (ztake n m); try done; try lia.
      constructor; [|done]. split; [by rewrite Hnew|]. split; [by rewrite Hnew|].
      split; [cbn; lia|]. exists x'. split; [by apply zget_zset_eq|]. by rewrite Hnew.
    + apply same_tapes_set with x; [done|]. left. by apply advanced_same.
    + pose proof (left_rows_set T b x x' Hx) as Hlr. rewrite Hrem in Hlr. cbn [app] in Hlr.
      change (mt_rem x') with rs in Hlr. unfold heap_rows. rewrite Hp, fmap_cons, Hnew. cbn [app].
      apply (Permutation_app_inv_l rs). rewrite (Permutation_app_comm (tuple_of <$> _)).
      rewrite app_assoc, <- Hlr. clear. solve_Permutation.
Qed.

Lemma beginmerge_load_ok fuel L T m n b :
  minv L T m n b -> 0 <= b <= zlen T -> zlen T = maxTapes s0 ->
  (Z.to_nat (zlen T - b) < fuel)%nat ->
  exists T' m' n', beginmerge_load fuel (mst s0 T m n) b = Ok (mst s0 T' m' n') /\
    minv L T' m' n' (zlen T') /\ same_tapes (-1) T T' /\
    heap_rows m n ++ left_rows T ≡ₚ heap_rows m' n' ++ left_rows T' /\ zlen m' = zlen m.
Proof.
  revert T m n b. induction fuel as [|fuel IH]; intros T m n b Hinv Hb Hmax Hf; [lia|].
  cbn [beginmerge_load]. change (maxTapes (mst s0 T m n)) with (maxTapes s0). rewrite <- Hmax.
  destruct (Z.ltb_spec b (zlen T)) as [Hlt|Hge].
  - destruct (load_step L T m n b Hinv) as (T1 & m1 & n1 & next & -> & Hins & Hinv1 & Hs1 & Hp1 & Hl1);
      [lia|]. rewrite rbind_ret, Hins. cbn [rbind]. pose proof Hs1 as [Hlen1 _].
    destruct (IH T1 m1 n1 (b + 1)) as (T' & m' & n' & -> & Hinv' & Hs' & Hp' & Hl');
      [done|lia|congruence|lia|].
    exists T', m', n'. split; [done|]. split; [done|].
    split; [by apply same_tapes_trans with T1|]. split; [by rewrite Hp1|congruence].
  - exists T, m, n. replace b with (zlen T) in Hinv by lia.
    split; [done|]. split; [done|]. split; [apply same_tapes_refl|done].
Qed.

(** The items on the tapes bound the rows of a merge. *)
Lemma left_rows_items T m n : Forall mtape_ok T ->
  (length (left_rows T) <= tape_items (mst s0 T m n))%nat.
Proof.
  change (tape_items (mst s0 T m n))
    with (foldr (fun lt k => length (cells lt) + k)%nat O (tapes_of T)).
  induction 1 as [|x T (_ & _ & Hok) _ IH]; [done|].
  unfold left_rows, tapes_of in *. cbn. rewrite length_app.
  assert (length (mt_rem x) <= length (cells (mt_lt x)))%nat; [|lia].
  destruct (mt_read x).
  - destruct Hok as (_ & Hnil & Hr). destruct (mt_act x); [|rewrite Hnil by done; cbn; lia].
    apply reads_length in Hr. rewrite !length_app in Hr. pose proof (enc_rows_length ra (mt_rem x)). lia.
  - destruct Hok as (_ & -> & _). cbn. lia.
Qed.

Lemma same_items T T' m m' n n' :
  same_tapes (-1) T T' -> tape_items (mst s0 T' m' n') = tape_items (mst s0 T m n).
Proof.
  intros [Hl Hs]. change (tape_items (mst s0 ?U _ _))
    with (foldr (fun lt k => length (cells lt) + k)%nat O (tapes_of U)).
  assert (H : Forall2 (fun x' x => cells (mt_lt x') = cells (mt_lt x)) T' T).
  { apply Forall2_of_zget; [done|]. intros t x' x Hx' Hx.
    destruct (Hs t x) as (y & Hy & _ & _ & Hc & _); [pose proof (zget_bounds _ _ _ Hx); lia|done|].
    congruence. }
  clear -H. unfold tapes_of. induction H as [|x' x T' T Hx _ IH]; [done|]. cbn. by rewrite Hx, IH.
Qed.

(** ** Merging onto an output tape *)

Hypothesis Hslab : slabAllocatorUsed s0 = true.

(** Writing to an idle output tape does not disturb the merge. *)
Lemma minv_idle L T m n b d y y' :
  minv L T m n b -> zget T d = Some y -> mt_act y = false -> mt_act y' = false -> mtape_ok y' ->
  minv L (zset T d y') m n b.
Proof.
  intros Hinv Hy Ha Ha' Hok. pose proof Hinv as [].
  assert (Hne : forall e, e ∈ ztake n m -> srctape e <> d).
  { intros e He Heq. destruct (proj1 (Forall_forall _ _) mi_entries0 _ He) as (_ & _ & _ & x & Hx & Hax & _).
    rewrite Heq in Hx. congruence. }
  pose proof (zget_bounds _ _ _ Hy) as Hd.
  assert (Hact : forall t x, zget (zset T d y') t = Some x -> mt_act x = true -> zget T t = Some x).
  { intros t x Hx Hax. rewrite zget_zset in Hx by done. destruct (Z.eqb_spec d t); [congruence|done]. }
  split; try done.
  - by apply Forall_zset.
  - apply Forall_forall. intros e He. apply entry_ok_other; [by apply Hne|].
    by apply (proj1 (Forall_forall _ _) mi_entries0).
  - intros t x Hx Hax Ht. by apply (mi_loaded0 t x); [apply Hact|..].
  - intros t x Hx Hax. by apply (mi_active0 t x); [apply Hact|].
Qed.

(** The output tape with one more row of the run being written. *)
Lemma write_row T m n d y e :
  zget T d = Some y -> mt_read y = false -> mtape_ok y -> tuple e = Some (tuple_of e) ->
  row_ok (tuple_of e) ->
  exists lt, let y' := mk_mt lt false false [] (mt_runs y) (mt_out y ++ [tuple_of e]) in
    writetup_heap (mst s0 T m n) d e = Ok (mst s0 (zset T d y') m n) /\ mtape_ok y'.
Proof.
  intros Hy Hr (Hrun & Hruns & Hok) He Hrow. rewrite Hr in Hok. destruct Hok as (Ha & Hrem & Hh).
  assert (Hlt : zget (tapes_of T) d = Some (mt_lt y)) by (unfold tapes_of; by rewrite zget_fmap, Hy).
  destruct (writetup_heap_ok (mst s0 T m n) (tapes_of T) d (mt_lt y) _ e (tuple_of e) eq_refl
    Hlt Hh He Hrow) as (lt & Hh' & Hw).
  exists lt. cbv zeta. change (slabAllocatorUsed (mst s0 T m n)) with (slabAllocatorUsed s0) in Hw.
  rewrite Hslab in Hw. rewrite Hw. split.
  - f_equal. unfold mst. rewrite (acts_of_same T d y) by (done || cbn; congruence).
    unfold tapes_of. by rewrite fmap_zset.
  - split; [by repeat constructor|]. split; [done|]. cbn. split; [done|]. split; [done|].
    change (holds lt (enc_runs ra (mt_runs y) ++ enc_rows ra (mt_out y ++ [tuple_of e]))).
    rewrite enc_rows_app. change (randomAccess (mst s0 T m n)) with ra in Hh'.
    rewrite enc_rows_1. by rewrite app_assoc.
Qed.

(** All rows of the merge are on the output tape, in order. *)
Record merged T d y T' (rows : list MinimalTuple) : Prop := {
  me_tapes : Forall mtape_ok T';
  me_idle : forall t x, zget T' t = Some x -> mt_act x = false;
  me_same : same_tapes d T T';
  me_out : exists y', zget T' d = Some y' /\ mt_read y' = false /\ mt_runs y' = mt_runs y /\
    mt_out y' ≡ₚ mt_out y ++ rows /\ StronglySorted le (mt_out y')
}.

(** The rows of a merge, as they will be on the output tape. *)
Lemma rows_ok T : Forall mtape_ok T -> Forall row_ok (left_rows T).
Proof.
  induction 1 as [|x T ((Hr & _) & _) _ IH]; [constructor|].
  unfold left_rows. cbn. by apply Forall_app.
Qed.

Lemma minv_empty L T m : minv L T m 0 (zlen T) ->
  (forall t x, zget T t = Some x -> mt_act x = false) /\ left_rows T = [].
Proof.
  intros []. assert (Hidle : forall t x, zget T t = Some x -> mt_act x = false).
  { intros t x Hx. destruct (mt_act x) eqn:Ha; [|done]. pose proof (zget_bounds _ _ _ Hx).
    specialize (mi_loaded0 t x Hx Ha ltac:(lia)). unfold srcs in mi_loaded0.
    rewrite ztake_nonpos in mi_loaded0 by lia. by apply not_elem_of_nil in mi_loaded0. }
  split; [done|]. unfold left_rows. apply concat_nil_Forall, Forall_fmap, Forall_forall.
  intros x Hx. apply elem_zget in Hx as (t & Hx & _). cbn.
  pose proof (Forall_zget _ _ _ _ mi_tapes0 Hx) as (_ & _ & Hok). specialize (Hidle t x Hx).
  destruct (mt_read x); naive_solver.
Qed.

Lemma mergeonerun_loop_ok fuel L T m n d y :
  minv L T m n (zlen T) -> zget T d = Some y -> mt_read y = false ->
  StronglySorted le (mt_out y) ->
  (forall o r, o ∈ mt_out y -> r ∈ heap_rows m n ++ left_rows T -> le o r) ->
  (Z.to_nat n + length (left_rows T) < fuel)%nat ->
  exists T' m', mergeonerun_loop fuel (mst s0 T m n) d = Ok (mst s0 T' m' 0) /\
    merged T d y T' (heap_rows m n ++ left_rows T) /\ zlen m' = zlen m.
Proof.
  revert T m n y. induction fuel as [|fuel IH]; intros T m n y Hinv Hy Hr Hs Hlow Hf; [lia|].
  cbn [mergeonerun_loop]. change (memtupcount (mst s0 T m n)) with n.
  pose proof Hinv as []. destruct (Z.gtb_spec n 0) as [Hn|Hn].
  2:{ assert (n = 0) as -> by lia. destruct (minv_empty L T m Hinv) as [Hidle Hleft].
      exists T, m. split; [done|]. split; [|done]. split; try done; [apply same_tapes_refl|].
      exists y. do 3 (split; [done|]). split; [|done]. rewrite Hleft. unfold heap_rows.
      rewrite ztake_nonpos by lia. cbn. by rewrite app_nil_r. }
  destruct (zget_is_Some m 0) as [top Htop]; [lia|].
  change (memtuples (mst s0 T m n)) with m. rewrite (aget_Ok _ _ _ Htop), rbind_ret.
  assert (Hin : top ∈ ztake n m).
  { apply zget_elem with 0. by rewrite zget_ztake by lia. }
  destruct (proj1 (Forall_forall _ _) mi_entries0 _ Hin) as ((Htu & _) & Hrow & _).
  pose proof (Forall_zget _ _ _ _ mi_tapes0 Hy) as Hyok.
  assert (Hya : mt_act y = false).
  { destruct Hyok as (_ & _ & Hyok). rewrite Hr in Hyok. apply Hyok. }
  destruct (write_row T m n d y top Hy Hr Hyok Htu Hrow) as (lt & -> & Hok').
  set (y' := mk_mt lt false false [] (mt_runs y) (mt_out y ++ [tuple_of top])) in *.
  rewrite rbind_ret. pose proof (zget_bounds _ _ _ Hy) as Hd.
  pose proof (minv_idle L T m n (zlen T) d y y' Hinv Hy Hya eq_refl Hok') as Hinv1.
  replace (zlen T) with (zlen (zset T d y')) in Hinv1 by apply zlen_zset.
  destruct (merge_step L (zset T d y') m n top Hinv1 Hn Htop)
    as (T1 & m1 & n1 & next & -> & Hop & Hinv' & Hs1 & Hp & Hl & _).
  rewrite rbind_ret, Hop, rbind_ret.
  assert (Hleft : left_rows (zset T d y') ≡ₚ left_rows T).
  { pose proof (left_rows_set T d y y' Hy) as Hlr. destruct Hyok as (_ & _ & Hyok).
    rewrite Hr in Hyok. destruct Hyok as (_ & Hrem & _). by rewrite Hrem in Hlr. }
  rewrite Hleft in Hp.
  destruct Hs1 as [Hlen1 Hs1]. assert (Hd1 : d <> -1) by lia.
  assert (Hy1 : zget T1 d = Some y').
  { destruct (Hs1 d y' Hd1) as (y1 & Hy1 & _ & _ & _ & Hi); [by apply zget_zset_eq|].
    by rewrite Hy1, Hi. }
  destruct (IH T1 m1 n1 y' Hinv' Hy1) as (T' & m' & -> & [Ht' Hi' Hsame' Hout'] & Hl').
  - done.
  - cbn. apply StronglySorted_app_2; [done|repeat constructor|].
    intros o r Ho Hr1. apply Hlow; [done|]. apply list_elem_of_singleton in Hr1 as ->.
    rewrite Hp. by left.
  - cbn. intros o r Ho Hr1. apply elem_of_app in Ho as [Ho | ->%list_elem_of_singleton].
    + apply Hlow; [done|]. rewrite Hp. by right.
    + apply (merge_top_least L T m n top r Hinv Hn Htop). rewrite Hp. by right.
  - apply Permutation_length in Hp. cbn in Hp. rewrite !length_app in Hp. unfold heap_rows in Hp.
    rewrite !length_fmap in Hp. destruct Hinv' as [_ Hn1 _ _ _ _ _ _ _].
    pose proof (zlen_ztake n m mi_n0). pose proof (zlen_ztake n1 m1 Hn1). unfold zlen in *. lia.
  - exists T', m'. split; [done|]. split; [|congruence]. split; [done|done| |].
    + apply same_tapes_trans with (zset T d y'); [apply same_tapes_set with y; auto|].
      apply same_tapes_trans with T1; [|done]. apply same_tapes_weaken. by split.
    + destruct Hout' as (y2 & Hy2 & Hr2 & Hru2 & Ho2 & Hs2). exists y2.
      do 3 (split; [done|]). split; [|done]. rewrite Ho2, Hp. cbn. by rewrite <- app_assoc.
Qed.
End merge.
