(* ===== verification/Polyphase.v ===== *)
(** * Polyphase merging: steps D5 and D6 of Algorithm D in tuplesort.c

    The tape units of the algorithm are positions in the arrays [tp_tapenum],
    [tp_dummy] and [tp_runs]; a unit stands for the tape whose number
    [tp_tapenum] holds.  [mtape] lists are indexed by tape number.  At rest no
    tape is active and the number of runs of every unit is the number of runs
    on its tape. *)

From Stdlib Require Import ZArith Lia.
From stdpp Require Import base list sorting strings.
From S2P Require Import Prelude HeapTheory SortSupport TuplesortHeap LogTape TuplesortState Tuplesort TapeRuns TuplesortMem RunMerge.

Local Open Scope Z_scope.

Definition blank_tape : mtape := mk_mt empty_tape false false [] [] [].

Definition tget (T : list mtape) (t : Z) : mtape := default blank_tape (zget T t).

(** The number of real runs of each unit. *)
Definition runs_of (T : list mtape) (nums : list Z) : list Z :=
  (fun t => zlen (mt_runs (tget T t))) <$> nums.

(** Real and dummy runs of each unit. *)
Definition counts (T : list mtape) (nums dum : list Z) : list Z :=
  zip_with (fun t d => zlen (mt_runs (tget T t)) + d) nums dum.

(** All rows of all runs. *)
Definition all_rows (T : list mtape) : list MinimalTuple := concat ((fun x => concat (mt_runs x)) <$> T).

(** The arrays of Algorithm D. *)
Definition ust (s : Tuplesortstate) (nums dum runs : list Z) (at_ : Z) : Tuplesortstate :=
  set_activeTapes at_ (set_tp_runs runs (set_tp_dummy dum (set_tp_tapenum nums s))).

(** A state of the merge phase. *)
Definition pst (s : Tuplesortstate) (nums dum : list Z) (at_ : Z) (T : list mtape)
    (m : list SortTuple) (n : Z) : Tuplesortstate :=
  mst (ust s nums dum (runs_of T nums) at_) T m n.

Lemma set_mergeactive_id s acts : mergeactive s = acts -> set_mergeactive acts s = s.
Proof. intros <-. by destruct s. Qed.

Lemma set_activeTapes_pst s nums dum a b T m n :
  set_activeTapes b (pst s nums dum a T m n) = mst (ust s nums dum (runs_of T nums) b) T m n.
Proof. reflexivity. Qed.

(** The fields of a state of the merge phase. *)
Lemma pst_range s nums dum a T m n : tapeRange (pst s nums dum a T m n) = tapeRange s.
Proof. reflexivity. Qed.

Lemma pst_dummy s nums dum a T m n : tp_dummy (pst s nums dum a T m n) = dum.
Proof. reflexivity. Qed.

Lemma pst_runs s nums dum a T m n : tp_runs (pst s nums dum a T m n) = runs_of T nums.
Proof. reflexivity. Qed.

Lemma pst_tapenum s nums dum a T m n : tp_tapenum (pst s nums dum a T m n) = nums.
Proof. reflexivity. Qed.

Lemma pst_acts s nums dum a T m n : mergeactive (pst s nums dum a T m n) = acts_of T.
Proof. reflexivity. Qed.

Lemma pst_set_dummy s nums dum dum' a T m n :
  set_tp_dummy dum' (pst s nums dum a T m n) = pst s nums dum' a T m n.
Proof. reflexivity. Qed.

Lemma mst_set_runs s nums dum runs a T m n :
  set_tp_runs (runs_of T nums) (mst (ust s nums dum runs a) T m n) = pst s nums dum a T m n.
Proof. reflexivity. Qed.

Create Rewrite HintDb pstdb.
#[export] Hint Rewrite pst_range pst_dummy pst_runs pst_tapenum pst_acts pst_set_dummy : pstdb.

(** Read the fields of the state in the goal. *)
Ltac pst_simpl := autorewrite with pstdb.

(** A merge does not look at the arrays of Algorithm D. *)
Lemma minv_ust s nums dum runs a L T m n b :
  minv (ust s nums dum runs a) L T m n b <-> minv s L T m n b.
Proof. split; intros []; by split. Qed.

(** ** Arrays of units *)

Lemma zlen_zip_with {A B D} (f : A -> B -> D) (l : list A) (k : list B) :
  zlen l = zlen k -> zlen (zip_with f l k) = zlen k.
Proof. unfold zlen. rewrite length_zip_with. lia. Qed.

Lemma tget_zget T t : 0 <= t < zlen T -> zget T t = Some (tget T t).
Proof. intros Ht. unfold tget. by destruct (zget_is_Some T t Ht) as [x ->]. Qed.

Lemma tget_Some T t x : zget T t = Some x -> tget T t = x.
Proof. unfold tget. by intros ->. Qed.

Lemma tget_zset T t u x :
  0 <= t < zlen T -> tget (zset T t x) u = if Z.eqb t u then x else tget T u.
Proof. intros Ht. unfold tget. rewrite zget_zset by done. by destruct (Z.eqb t u). Qed.

(** [nums] assigns the tapes [0 .. n-1] to units. *)
Definition assigns (nums : list Z) (n : Z) : Prop := nums ≡ₚ seqZ 0 n.

Lemma assigns_bound nums n k t : assigns nums n -> zget nums k = Some t -> 0 <= t < n.
Proof.
  intros Ha Ht. apply zget_elem in Ht. rewrite Ha in Ht. apply elem_of_seqZ in Ht. lia.
Qed.

Lemma assigns_len nums n : 0 <= n -> assigns nums n -> zlen nums = n.
Proof. intros Hn Ha. unfold zlen. rewrite Ha, length_seqZ. lia. Qed.

Lemma assigns_inj nums n j k t :
  assigns nums n -> zget nums j = Some t -> zget nums k = Some t -> j = k.
Proof.
  intros Ha Hj Hk. pose proof (zget_bounds _ _ _ Hj). pose proof (zget_bounds _ _ _ Hk).
  assert (Hnd : NoDup nums) by (rewrite Ha; apply NoDup_seqZ).
  unfold zget in Hj, Hk. destruct (Z.leb_spec 0 j), (Z.leb_spec 0 k); try lia.
  pose proof (NoDup_lookup _ _ _ _ Hnd Hj Hk). lia.
Qed.

Lemma assigns_unit nums n t : assigns nums n -> 0 <= t < n -> exists k, zget nums k = Some t.
Proof.
  intros Ha Ht. destruct (elem_zget nums t) as (k & Hk & _); [|by exists k].
  rewrite Ha. apply elem_of_seqZ. lia.
Qed.

(** Changing the tape of unit [k]. *)
Lemma runs_of_zset T nums n k t x :
  assigns nums n -> zlen T = n -> zget nums k = Some t ->
  runs_of (zset T t x) nums = zset (runs_of T nums) k (zlen (mt_runs x)).
Proof.
  intros Ha Hl Hk. pose proof (assigns_bound _ _ _ _ Ha Hk) as Ht.
  pose proof (zget_bounds _ _ _ Hk) as Hkb.
  apply zlist_eq. intros i Hi. unfold runs_of.
  rewrite zget_zset by (by rewrite zlen_fmap). rewrite !zget_fmap.
  destruct (zget nums i) as [u|] eqn:Hu; cbn.
  - rewrite tget_zset by lia. destruct (Z.eqb_spec t u) as [<-|Hne], (Z.eqb_spec k i) as [<-|Hki];
      try done.
    + by destruct Hki; apply (assigns_inj nums n k i t).
    + congruence.
  - destruct (Z.eqb_spec k i); [congruence|done].
Qed.

(** ** Beginning a merge: counting down the runs *)

Section poly.
Variable s : Tuplesortstate.
Local Abbreviation range := (tapeRange s).
Local Abbreviation mt_ok := (mtape_ok s).
Local Abbreviation le := (cle (tcmp (sortKeys s))).
Implicit Types (T : list mtape) (x : mtape) (nums dum : list Z) (j k t d : Z).

(** The tape takes part with its first run. *)
Definition activate x : mtape :=
  mk_mt (mt_lt x) (mt_read x) true (default [] (head (mt_runs x))) (tail (mt_runs x)) (mt_out x).

Lemma activate_ok x :
  mt_ok x -> mt_read x = true -> mt_act x = false -> mt_runs x <> [] -> mt_ok (activate x).
Proof.
  intros (_ & Hruns & Hok) Hr Ha Hne. rewrite Hr in Hok. destruct Hok as (Hf & _ & Hrd).
  rewrite Ha in Hrd. unfold mtape_ok. cbn. rewrite Hr. destruct (mt_runs x) as [|r rs]; [done|].
  inversion Hruns; subst. cbn in *. split; [done|]. split; [done|]. split; [done|]. split; [done|].
  exact Hrd.
Qed.

(** Unit [k] with [d] dummy runs is counted down by units [j .. range-1]. *)
Definition chosen j k d : bool := Z.leb j k && Z.ltb k range && Z.eqb d 0.
Definition dummied j k d : bool := Z.leb j k && Z.ltb k range && Z.ltb 0 d.

Record marked j T nums dum T' dum' : Prop := {
  mk_len : zlen T' = zlen T;
  mk_dlen : zlen dum' = zlen dum;
  mk_dummy : forall k d, zget dum k = Some d ->
    zget dum' k = Some (if dummied j k d then d - 1 else d);
  mk_tape : forall k t d, zget nums k = Some t -> zget dum k = Some d ->
    tget T' t = if chosen j k d then activate (tget T t) else tget T t
}.

Lemma marked_nil j T nums dum : range <= j -> marked j T nums dum T dum.
Proof.
  intros Hj. split; try done.
  - intros k d Hk. unfold dummied. by destruct (Z.leb_spec j k), (Z.ltb_spec k range); try lia.
  - intros k t d _ _. unfold chosen. by destruct (Z.leb_spec j k), (Z.ltb_spec k range); try lia.
Qed.

(** Unit [j] loses a dummy run. *)
Lemma marked_dummy j T nums dum T' dum' d :
  0 <= j < range -> zget dum j = Some d -> 0 < d ->
  marked (j + 1) T nums (zset dum j (d - 1)) T' dum' -> marked j T nums dum T' dum'.
Proof.
  intros Hj Hd Hpos []. pose proof (zget_bounds _ _ _ Hd) as Hb. split.
  - done.
  - by rewrite mk_dlen0, zlen_zset.
  - intros k e Hk. unfold dummied. destruct (Z.eq_dec j k) as [<-|Hjk].
    + rewrite (mk_dummy0 j (d - 1)) by (by apply zget_zset_eq).
      assert (e = d) as -> by congruence. unfold dummied.
      destruct (Z.leb_spec (j + 1) j), (Z.leb_spec j j), (Z.ltb_spec j range), (Z.ltb_spec 0 d); lia || done.
    + rewrite (mk_dummy0 k e) by (by rewrite zget_zset_ne). unfold dummied.
      destruct (Z.leb_spec (j + 1) k), (Z.leb_spec j k); lia || done.
  - intros k u e Hu Hk. unfold chosen. destruct (Z.eq_dec j k) as [<-|Hjk].
    + rewrite (mk_tape0 j u (d - 1)) by (done || by apply zget_zset_eq).
      assert (e = d) as -> by congruence. unfold chosen.
      destruct (Z.leb_spec (j + 1) j), (Z.leb_spec j j), (Z.ltb_spec j range), (Z.eqb_spec d 0); lia || done.
    + rewrite (mk_tape0 k u e) by (done || by rewrite zget_zset_ne). unfold chosen.
      destruct (Z.leb_spec (j + 1) k), (Z.leb_spec j k); lia || done.
Qed.

(** Activating the tape of unit [j] leaves the other units alone. *)
Lemma activate_other T nums n j t k u :
  assigns nums n -> zlen T = n -> zget nums j = Some t -> zget nums k = Some u -> k <> j ->
  tget (zset T t (activate (tget T t))) u = tget T u.
Proof.
  intros Ha Hl Ht Hu Hkj. rewrite tget_zset by (rewrite Hl; by eapply assigns_bound).
  destruct (Z.eqb_spec t u) as [<-|]; [|done]. by destruct Hkj; apply (assigns_inj nums n k j t).
Qed.

Lemma activate_self T nums n j t :
  assigns nums n -> zlen T = n -> zget nums j = Some t ->
  tget (zset T t (activate (tget T t))) t = activate (tget T t).
Proof.
  intros Ha Hl Ht. rewrite tget_zset by (rewrite Hl; by eapply assigns_bound). by rewrite Z.eqb_refl.
Qed.

(** Unit [j] takes part with its next real run. *)
Lemma marked_run j T nums dum T' dum' n t :
  assigns nums n -> zlen T = n -> 0 <= j < range -> zget dum j = Some 0 -> zget nums j = Some t ->
  marked (j + 1) (zset T t (activate (tget T t))) nums dum T' dum' -> marked j T nums dum T' dum'.
Proof.
  intros Ha Hl Hj Hd Ht []. split.
  - by rewrite mk_len0, zlen_zset.
  - done.
  - intros k e Hk. rewrite (mk_dummy0 k e) by done. unfold dummied.
    destruct (Z.eq_dec j k) as [<-|Hjk].
    + assert (e = 0) as -> by congruence. by rewrite !andb_false_r.
    + destruct (Z.leb_spec (j + 1) k), (Z.leb_spec j k); lia || done.
  - intros k u e Hu Hk. rewrite (mk_tape0 k u e) by done. unfold chosen.
    destruct (Z.eq_dec j k) as [<-|Hjk].
    + assert (e = 0) as -> by congruence. assert (u = t) as -> by congruence.
      rewrite (activate_self T nums n j) by done.
      destruct (Z.leb_spec (j + 1) j), (Z.leb_spec j j), (Z.ltb_spec j range); lia || done.
    + rewrite (activate_other T nums n j t k u) by (done || lia).
      destruct (Z.leb_spec (j + 1) k), (Z.leb_spec j k); lia || done.
Qed.

(** The assignments of one turn for a real run. *)
Lemma activate_state nums dum at_ T m n j t :
  assigns nums n -> zlen T = n -> zget nums j = Some t ->
  mt_runs (tget T t) <> [] -> zlen (mt_runs (tget T t)) <= INT_MAX ->
  set_mergeactive (zset (acts_of T) t true)
    (set_tp_runs (zset (runs_of T nums) j (int32 (zlen (mt_runs (tget T t)) - 1)))
      (pst s nums dum at_ T m 0)) =
  pst s nums dum at_ (zset T t (activate (tget T t))) m 0.
Proof.
  intros Ha Hl Ht Hne Hmax. pose proof (assigns_bound _ _ _ _ Ha Ht) as Hb.
  assert (Hz : zlen (mt_runs (activate (tget T t))) = zlen (mt_runs (tget T t)) - 1).
  { cbn. destruct (mt_runs (tget T t)); [done|]. rewrite zlen_cons. cbn. lia. }
  unfold pst. rewrite (runs_of_zset T nums n j t) by done. rewrite Hz.
  pose proof (zlen_nonneg (mt_runs (tget T t))).
  rewrite int32_id by (unfold is_int32, INT_MIN, INT_MAX in *; lia).
  unfold mst, acts_of, tapes_of. rewrite !fmap_zset.
  rewrite (zset_id (mt_lt <$> T)); [done|]. by rewrite zget_fmap, tget_zget by lia.
Qed.

Lemma beginmerge_mark_ok fuel T nums dum at_ m j a n :
  assigns nums n -> zlen T = n -> zlen dum = n -> range < n ->
  0 <= j <= range -> (Z.to_nat (range - j) < fuel)%nat ->
  Forall (fun d => 0 <= d) dum ->
  (forall k t, zget nums k = Some t -> zlen (mt_runs (tget T t)) <= INT_MAX) ->
  (forall k t, zget nums k = Some t -> zget dum k = Some 0 -> j <= k < range ->
     mt_runs (tget T t) <> []) ->
  exists T' dum' a', beginmerge_mark fuel (pst s nums dum at_ T m 0) j a =
      Ok (pst s nums dum' at_ T' m 0, a') /\ marked j T nums dum T' dum'.
Proof.
  revert T dum j a. induction fuel as [|fuel IH]; intros T dum j a Ha Hl Hd Hr Hj Hf Hpos Hmax Hne;
    [lia|].
  cbn [beginmerge_mark]. pst_simpl.
  destruct (Z.ltb_spec j range) as [Hlt|Hge].
  2:{ exists T, dum, a. split; [done|]. by apply marked_nil. }
  destruct (zget_is_Some dum j) as [d Hdj]; [lia|].
  assert (Hn : zlen nums = n) by (apply assigns_len; [lia|done]).
  destruct (zget_is_Some nums j) as [t Htj]; [lia|].
  pose proof (assigns_bound _ _ _ _ Ha Htj) as Ht.
  pst_simpl. rewrite (aget_Ok _ _ _ Hdj), rbind_ret.
  destruct (Z.gtb_spec d 0) as [Hd0|Hd0].
  - rewrite aset_Ok by lia. rewrite rbind_ret.
    destruct (IH T (zset dum j (d - 1)) (j + 1) a) as (T' & dum' & a' & Hm & Hmk); auto; try lia.
    { by rewrite zlen_zset. }
    { apply Forall_zset; [done|lia]. }
    { intros k u Hu Hk Hkr. apply (Hne k u Hu); [|lia]. by rewrite zget_zset_ne in Hk by lia. }
    exists T', dum', a'. split; [exact Hm|]. apply marked_dummy with d; [lia|done..].
  - assert (d = 0) as ->.
    { pose proof (Forall_zget _ _ _ _ Hpos Hdj). cbn in *. lia. }
    pst_simpl.
    assert (Hrj : zget (runs_of T nums) j = Some (zlen (mt_runs (tget T t)))).
    { unfold runs_of. by rewrite zget_fmap, Htj. }
    rewrite (aget_Ok _ _ _ Hrj), rbind_ret.
    rewrite aset_Ok by (unfold runs_of; rewrite zlen_fmap; lia). rewrite rbind_ret.
    pst_simpl.
    rewrite (aget_Ok _ _ _ Htj), rbind_ret.
    pst_simpl.
    rewrite aset_Ok by (unfold acts_of; rewrite zlen_fmap; lia). rewrite rbind_ret.
    specialize (Hne j t Htj Hdj ltac:(lia)) as Hnej.
    rewrite (activate_state nums dum at_ T m n j t) by eauto.
    destruct (IH (zset T t (activate (tget T t))) dum (j + 1) (a + 1))
      as (T' & dum' & a' & Hm & Hmk); auto; try lia.
    { by rewrite zlen_zset. }
    { intros k u Hu. destruct (Z.eq_dec k j) as [->|Hkj].
      - assert (u = t) as -> by congruence. rewrite (activate_self T nums n j) by done.
        specialize (Hmax j t Htj). cbn. destruct (mt_runs (tget T t)); [done|].
        rewrite zlen_cons in Hmax. cbn. lia.
      - rewrite (activate_other T nums n j t k u) by done. eauto. }
    { intros k u Hu Hk Hkr. rewrite (activate_other T nums n j t k u) by (done || lia).
      apply (Hne k u); [done..|lia]. }
    exists T', dum', a'. split; [exact Hm|]. apply marked_run with n t; [done|done|lia|done..].
Qed.

(** ** The tapes between two merges *)

Record poly T nums dum : Prop := {
  po_tapes : Forall mt_ok T;
  po_idle : Forall (fun x => mt_act x = false /\ (mt_read x = false -> mt_out x = [])) T;
  po_len : zlen T = range + 1;
  po_max : maxTapes s = range + 1;
  po_range : 1 <= range;
  po_nums : assigns nums (range + 1);
  po_dlen : zlen dum = range + 1;
  po_dpos : Forall (fun d => 0 <= d) dum;
  po_read : forall k t, zget nums k = Some t -> mt_read (tget T t) = (k <? range);
  po_small : forall c, c ∈ counts T nums dum -> c <= INT_MAX
}.

Record base_ok : Prop := {
  bo_keys : keys_wf (sortKeys s);
  bo_full : forall key ks, sortKeys s = key :: ks -> abbrev_converter key = None;
  bo_slab : slabAllocatorUsed s = true
}.

(** The units that take part in a merge with a real run, and their tapes. *)
Definition zeros dum : list Z := filter (fun k => zget dum k = Some 0) (seqZ 0 range).
Definition chosen_tapes nums dum : list Z := (fun k => default 0 (zget nums k)) <$> zeros dum.

(** Every unit, with its tape and its dummy runs. *)
Lemma poly_unit T nums dum k :
  poly T nums dum -> 0 <= k <= range ->
  exists t d, zget nums k = Some t /\ zget dum k = Some d /\ 0 <= d /\ 0 <= t < zlen T /\
    zget (counts T nums dum) k = Some (zlen (mt_runs (tget T t)) + d).
Proof.
  intros [] Hk. pose proof (assigns_len nums (range + 1) ltac:(lia) po_nums0) as Hn.
  destruct (zget_is_Some nums k) as [t Ht]; [lia|]. destruct (zget_is_Some dum k) as [d Hd]; [lia|].
  exists t, d. do 2 (split; [done|]). split; [by apply (Forall_zget _ _ _ _ po_dpos0 Hd)|].
  split; [rewrite po_len0; by eapply assigns_bound|]. unfold counts.
  exact (zget_zip_with _ _ _ _ _ _ Ht Hd).
Qed.

(** Every tape belongs to a unit. *)
Lemma poly_tape T nums dum t x :
  poly T nums dum -> zget T t = Some x ->
  exists k d, 0 <= k <= range /\ zget nums k = Some t /\ zget dum k = Some d /\ 0 <= d /\ tget T t = x.
Proof.
  intros Hp Hx. pose proof (zget_bounds _ _ _ Hx) as Ht. pose proof Hp as [].
  destruct (assigns_unit nums (range + 1) t) as [k Hk]; [done|lia|].
  pose proof (zget_bounds _ _ _ Hk) as Hkb.
  rewrite (assigns_len nums (range + 1)) in Hkb by (done || lia).
  destruct (poly_unit T nums dum k Hp) as (t' & d & Ht' & Hd & Hd0 & _); [lia|].
  exists k, d. split; [lia|]. split; [done|]. do 2 (split; [done|]). by apply tget_Some.
Qed.

Lemma poly_idle_tape T nums dum t x :
  poly T nums dum -> zget T t = Some x -> mt_act x = false /\ mt_rem x = [].
Proof.
  intros [] Hx. destruct (Forall_zget _ _ _ _ po_idle0 Hx) as [Ha _].
  destruct (Forall_zget _ _ _ _ po_tapes0 Hx) as (_ & _ & Hok). split; [done|].
  destruct (mt_read x); naive_solver.
Qed.

Lemma marked_bounds T nums dum T' dum' t :
  poly T nums dum -> marked 0 T nums dum T' dum' -> 0 <= t < zlen T ->
  exists k d, 0 <= k <= range /\ zget nums k = Some t /\ zget dum k = Some d /\ 0 <= d /\
    zget T t = Some (tget T t) /\
    zget T' t = Some (if chosen 0 k d then activate (tget T t) else tget T t).
Proof.
  intros Hp [] Ht. destruct (zget_is_Some T t Ht) as [x Hx].
  destruct (poly_tape T nums dum t x Hp Hx) as (k & d & Hk & Hn & Hd & Hd0 & Hg).
  exists k, d. do 4 (split; [done|]). rewrite Hg. split; [done|].
  rewrite tget_zget by lia. f_equal. by rewrite (mk_tape0 k t d Hn Hd), Hg.
Qed.

Lemma marked_output T nums dum T' dum' d y :
  poly T nums dum -> marked 0 T nums dum T' dum' -> zget nums range = Some d -> zget T d = Some y ->
  zget T' d = Some y.
Proof.
  intros Hp Hm Hd Hy. pose proof (zget_bounds _ _ _ Hy).
  destruct (marked_bounds T nums dum T' dum' d Hp Hm) as (k & e & Hk & Hn & He & _ & Hg & ->); [done|].
  assert (k = range) as ->.
  { by apply (assigns_inj nums (range + 1) k range d); [apply (po_nums _ _ _ Hp)|..]. }
  unfold chosen. rewrite Z.ltb_irrefl, andb_false_r. cbn. congruence.
Qed.

Definition nonempty_units T nums dum : Prop :=
  forall k c, 0 <= k < range -> zget (counts T nums dum) k = Some c -> 1 <= c.

Lemma chosen_run T nums dum k t d :
  poly T nums dum -> nonempty_units T nums dum -> 0 <= k <= range ->
  zget nums k = Some t -> zget dum k = Some d -> chosen 0 k d = true ->
  mt_runs (tget T t) <> [] /\ mt_read (tget T t) = true /\ d = 0 /\ k < range.
Proof.
  intros Hp Hne Hk Ht Hd Hc. unfold chosen in Hc.
  apply andb_true_iff in Hc as [[_ Hlt]%andb_true_iff Hz]. apply Z.ltb_lt in Hlt. apply Z.eqb_eq in Hz.
  destruct (poly_unit T nums dum k Hp Hk) as (t' & d' & Ht' & Hd' & _ & _ & Hcnt).
  assert (t' = t) as -> by congruence. assert (d' = d) as -> by congruence.
  specialize (Hne k _ ltac:(lia) Hcnt). split.
  - intros Hnil. rewrite Hnil in Hne. change (zlen (@nil (list MinimalTuple))) with 0 in Hne. lia.
  - split; [|done]. rewrite (po_read _ _ _ Hp k t Ht). by apply Z.ltb_lt.
Qed.

(** The runs chosen are what the merge has to read. *)
Lemma marked_tapes T nums dum T' dum' :
  poly T nums dum -> nonempty_units T nums dum -> marked 0 T nums dum T' dum' ->
  Forall mt_ok T' /\ all_rows T ≡ₚ left_rows T' ++ all_rows T' /\
  (forall t x, zget T' t = Some x -> mt_act x = true -> t ∈ chosen_tapes nums dum).
Proof.
  intros Hp Hne Hm. pose proof (mk_len _ _ _ _ _ _ Hm) as Hlen.
  split; [|split].
  - apply Forall_of_zget. intros t x Hx. pose proof (zget_bounds _ _ _ Hx).
    destruct (marked_bounds T nums dum T' dum' t Hp Hm) as (k & d & Hk & Hn & Hd & Hd0 & Hg & Hg');
      [lia|]. rewrite Hx in Hg'. injection Hg' as ->.
    pose proof (Forall_zget _ _ _ _ (po_tapes _ _ _ Hp) Hg) as Hok.
    destruct (chosen 0 k d) eqn:Hc; [|done].
    destruct (chosen_run T nums dum k t d Hp Hne Hk Hn Hd Hc) as (Hr & Hrd & _).
    apply activate_ok; [done..| |done]. by apply (poly_idle_tape T nums dum t).
  - unfold all_rows, left_rows.
    assert (H2 : Forall2 (fun x x' => concat (mt_runs x) = mt_rem x' ++ concat (mt_runs x')) T T').
    { apply Forall2_of_zget; [done|]. intros t x x' Hx Hx'. pose proof (zget_bounds _ _ _ Hx).
      destruct (marked_bounds T nums dum T' dum' t Hp Hm) as (k & d & Hk & Hn & Hd & Hd0 & Hg & Hg');
        [lia|]. rewrite Hx' in Hg'. injection Hg' as ->. rewrite Hx in Hg. injection Hg as ->.
      destruct (chosen 0 k d) eqn:Hc.
      - destruct (chosen_run T nums dum k t d Hp Hne Hk Hn Hd Hc) as (Hr & _).
        cbn. by destruct (mt_runs (tget T t)).
      - destruct (poly_idle_tape T nums dum t _ Hp Hx) as [_ ->]. done. }
    clear -H2. induction H2 as [|x x' T T' Hx H IH]; [done|]. cbn. rewrite Hx, IH. solve_Permutation.
  - intros t x Hx Ha. pose proof (zget_bounds _ _ _ Hx).
    destruct (marked_bounds T nums dum T' dum' t Hp Hm) as (k & d & Hk & Hn & Hd & Hd0 & Hg & Hg');
      [lia|]. rewrite Hx in Hg'. injection Hg' as ->.
    destruct (chosen 0 k d) eqn:Hc.
    2:{ destruct (poly_idle_tape T nums dum t _ Hp Hg). congruence. }
    destruct (chosen_run T nums dum k t d Hp Hne Hk Hn Hd Hc) as (_ & _ & -> & Hlt).
    unfold chosen_tapes, zeros. apply list_elem_of_fmap. exists k. rewrite Hn. split; [done|].
    apply list_elem_of_filter. split; [done|]. apply elem_of_seqZ. lia.
Qed.

(** Reading does not change which runs follow on a tape. *)
Lemma same_runs_of T T' nums :
  assigns nums (zlen T) -> same_tapes (-1) T T' -> runs_of T' nums = runs_of T nums.
Proof.
  intros Ha [Hl Hs]. unfold runs_of. apply list_fmap_ext. intros i t Ht.
  assert (Hb : 0 <= t < zlen T).
  { assert (Hin : t ∈ nums) by (apply list_elem_of_lookup; eauto).
    rewrite Ha in Hin. apply elem_of_seqZ in Hin. lia. }
  destruct (Hs t (tget T t)) as (x' & Hx' & _ & Hr & _); [lia|by apply tget_zget|].
  by rewrite (tget_Some _ _ _ Hx'), Hr.
Qed.

Lemma acts_of_idle T nums dum :
  poly T nums dum -> replicate (length (acts_of T)) false = acts_of T.
Proof.
  intros [_ Hidle _ _ _ _ _ _ _ _]. unfold acts_of. rewrite length_fmap.
  induction Hidle as [|x T [Ha _] _ IH]; [done|]. cbn. by rewrite Ha, IH.
Qed.

Hypothesis Hbase : base_ok.

Lemma beginmerge_ok T nums dum at_ m :
  poly T nums dum -> nonempty_units T nums dum -> zlen (zeros dum) <= zlen m <= INT_MAX ->
  exists T1 dum' T' m' n' a, beginmerge (pst s nums dum at_ T m 0) = Ok (pst s nums dum' a T' m' n') /\
    marked 0 T nums dum T1 dum' /\ minv s (chosen_tapes nums dum) T' m' n' (zlen T') /\
    same_tapes (-1) T1 T' /\ left_rows T1 ≡ₚ heap_rows m' n' ++ left_rows T' /\ zlen m' = zlen m.
Proof.
  intros Hp Hne Hcap. pose proof Hp as []. destruct Hbase.
  unfold beginmerge. cbv zeta. pst_simpl.
  rewrite (acts_of_idle T nums dum Hp).
  rewrite (set_mergeactive_id (pst s nums dum at_ T m 0) (acts_of T)) by reflexivity.
  pst_simpl.
  destruct (beginmerge_mark_ok (S (Z.to_nat range)) T nums dum at_ m 0 0 (range + 1))
    as (T1 & dum' & a & -> & Hm); try done; try lia.
  { intros k t Ht. pose proof (zget_bounds _ _ _ Ht) as Hk.
    rewrite (assigns_len nums (range + 1)) in Hk by (done || lia).
    destruct (poly_unit T nums dum k Hp) as (t' & d & Ht' & Hd & Hd0 & _ & Hc); [lia|].
    apply zget_elem, po_small0 in Hc. assert (t' = t) as -> by congruence. lia. }
  { intros k t Ht Hd Hk. apply (chosen_run T nums dum k t 0 Hp Hne ltac:(lia) Ht Hd).
    unfold chosen. destruct (Z.leb_spec 0 k), (Z.ltb_spec k range); lia || done. }
  rewrite rbind_ret. destruct (marked_tapes T nums dum T1 dum' Hp Hne Hm) as (Hok & _ & Hact).
  pose proof (mk_len _ _ _ _ _ _ Hm) as Hlen.
  set (s1 := ust s nums dum' (runs_of T1 nums) a).
  rewrite (set_activeTapes_pst s nums dum' at_ a). fold s1.
  change (maxTapes (mst s1 T1 m 0)) with (maxTapes s).
  destruct (beginmerge_load_ok s1 bo_keys0 bo_full0 (S (Z.to_nat (maxTapes s)))
    (chosen_tapes nums dum) T1 m 0 0) as (T' & m' & n' & -> & Hinv & Hs & Hrows & Hl).
  { pose proof (zlen_nonneg m).
    split; [done|lia|lia|apply heap_ok_leaves; lia|constructor| |constructor| |done].
    - intros t x Hx _ Ht. pose proof (zget_bounds _ _ _ Hx). lia.
    - unfold chosen_tapes. rewrite zlen_fmap. lia. }
  { pose proof (zlen_nonneg T1). lia. } { by rewrite Hlen, po_len0. } { rewrite Hlen. lia. }
  exists T1, dum', T', m', n', a. split.
  { unfold pst. rewrite (same_runs_of T1 T'); [done| |done]. by rewrite Hlen, po_len0. }
  split; [done|]. split; [exact (proj1 (minv_ust _ _ _ _ _ _ _ _ _ _) Hinv)|]. split; [done|]. split; [|done].
  unfold heap_rows at 1 in Hrows. rewrite ztake_nonpos in Hrows by lia. exact Hrows.
Qed.

(** The end-of-run marker makes the rows written a run. *)
Lemma finish_run s1 T m n d y :
  sortKeys s1 = sortKeys s -> randomAccess s1 = randomAccess s ->
  zget T d = Some y -> mt_read y = false -> mt_ok y -> Forall row_ok (mt_out y) ->
  StronglySorted le (mt_out y) ->
  exists lt, let y' := mk_mt lt false false [] (mt_runs y ++ [mt_out y]) [] in
    markrunend (mst s1 T m n) d = Ok (mst s1 (zset T d y') m n) /\ mt_ok y'.
Proof.
  intros Hk Hra Hy Hr (_ & Hruns & Hok) Hrows Hsort. rewrite Hr in Hok.
  destruct Hok as (Ha & Hrem & Hh).
  assert (Hlt : zget (tapes_of T) d = Some (mt_lt y)) by (unfold tapes_of; by rewrite zget_fmap, Hy).
  destruct (markrunend_ok (mst s1 T m n) (tapes_of T) d (mt_lt y) _ eq_refl Hlt Hh) as (lt & Hm & Hh').
  exists lt. cbv zeta. rewrite Hm. split.
  - f_equal. unfold mst. rewrite (acts_of_same T d y) by (done || cbn; congruence).
    unfold tapes_of. by rewrite fmap_zset.
  - split; [by repeat constructor|]. split.
    + cbn. apply Forall_app. split; [done|]. by repeat constructor.
    + cbn. split; [done|]. split; [done|].
      change (holds lt (enc_runs (randomAccess s) (mt_runs y ++ [mt_out y]) ++ [])).
      rewrite app_nil_r, enc_runs_app. unfold enc_runs at 2. cbn [mbind list_bind].
      rewrite app_nil_r. unfold enc_run. by rewrite app_assoc.
Qed.

(** What one merge, or one turn with dummy runs only, does to the counts. *)
Definition counted_down (c c' : list Z) : Prop :=
  forall k v, 0 <= k <= range -> zget c k = Some v ->
    zget c' k = Some (if k <? range then v - 1 else v + 1).

Lemma zeros_le dum : zlen (zeros dum) <= Z.max 0 range.
Proof.
  unfold zlen, zeros. pose proof (length_filter (fun k => zget dum k = Some 0) (seqZ 0 range)).
  rewrite length_seqZ in *. lia.
Qed.

(** All runs: the tapes after the merge against the tapes before it. *)
Lemma all_rows_set T T' d y y' :
  zlen T' = zlen T -> zget T d = Some y -> zget T' d = Some y' ->
  (forall t x, t <> d -> zget T t = Some x -> exists x', zget T' t = Some x' /\ mt_runs x' = mt_runs x) ->
  concat (mt_runs y) ++ all_rows T' ≡ₚ concat (mt_runs y') ++ all_rows T.
Proof.
  intros Hl Hy Hy' Hs. unfold all_rows.
  assert (Heq : (fun x => concat (mt_runs x)) <$> T' =
    zset ((fun x => concat (mt_runs x)) <$> T) d (concat (mt_runs y'))).
  { pose proof (zget_bounds _ _ _ Hy). apply zlist_eq. intros t Ht.
    rewrite zget_zset by (by rewrite zlen_fmap). rewrite !zget_fmap.
    destruct (Z.eqb_spec d t) as [<-|Hne]; [by rewrite Hy'|].
    destruct (zget T t) as [x|] eqn:Hx.
    - destruct (Hs t x) as (x' & -> & Hr); [done..|]. cbn. by rewrite Hr.
    - rewrite zget_None; [done|]. intros Hb. rewrite Hl in Hb.
      destruct (zget_is_Some T t Hb). congruence. }
  rewrite Heq. apply concat_zset. by rewrite zget_fmap, Hy.
Qed.

(** The run counts after the output tape got one more run. *)
Lemma output_runs_of T T' nums n d y' c :
  assigns nums n -> zlen T = n -> zget nums range = Some d -> zget T' d = Some y' ->
  zlen (mt_runs y') = c -> same_tapes d T T' ->
  runs_of T' nums = zset (runs_of T nums) range c.
Proof.
  intros Ha Hl Hd Hy Hc [Hl' Hs]. apply zlist_eq. intros k Hk. unfold runs_of.
  pose proof (zget_bounds _ _ _ Hd). rewrite zget_zset by (by rewrite zlen_fmap). rewrite !zget_fmap.
  destruct (zget nums k) as [t|] eqn:Ht; cbn.
  2:{ destruct (Z.eqb_spec range k); [congruence|done]. }
  destruct (Z.eqb_spec range k) as [<-|Hne].
  - assert (t = d) as -> by congruence. by rewrite (tget_Some _ _ _ Hy), Hc.
  - pose proof (assigns_bound _ _ _ _ Ha Ht) as Htb.
    assert (t <> d) by (intros ->; by apply Hne; apply (assigns_inj nums n range k d)).
    destruct (Hs t (tget T t)) as (x' & Hx' & _ & Hr & _); [done|apply tget_zget; lia|].
    by rewrite (tget_Some _ _ _ Hx'), Hr.
Qed.

(** Merging what is in the heap and on the active tapes onto tape [d]. *)
Lemma merge_to_tape s1 L T m n d y :
  s1 = ust s (tp_tapenum s1) (tp_dummy s1) (tp_runs s1) (activeTapes s1) ->
  minv s L T m n (zlen T) -> zget T d = Some y -> mt_read y = false -> mt_out y = [] ->
  Forall row_ok (heap_rows m n) ->
  (Z.to_nat n + length (left_rows T) <= tape_items (mst s1 T m n))%nat ->
  exists T' m' y' r,
    (do! st <- mergeonerun_loop (S (tape_items (mst s1 T m n))) (mst s1 T m n) d ;; markrunend st d) =
      Ok (mst s1 T' m' 0) /\
    zlen m' = zlen m /\ Forall mt_ok T' /\ (forall t x, zget T' t = Some x -> mt_act x = false) /\
    zget T' d = Some y' /\ mt_read y' = false /\ mt_out y' = [] /\ mt_runs y' = mt_runs y ++ [r] /\
    r ≡ₚ heap_rows m n ++ left_rows T /\ same_tapes d T T'.
Proof.
  intros Hs1 Hinv Hy Hyr Hyo Hrows Hfuel. destruct Hbase.
  revert Hfuel. generalize (tape_items (mst s1 T m n)) as items. intros items Hfuel.
  assert (Hinv1 : minv s1 L T m n (zlen T)) by (rewrite Hs1; by apply minv_ust).
  assert (Hk1 : sortKeys s1 = sortKeys s) by (by rewrite Hs1).
  assert (Hr1 : randomAccess s1 = randomAccess s) by (by rewrite Hs1).
  assert (Hb1 : slabAllocatorUsed s1 = slabAllocatorUsed s) by (by rewrite Hs1).
  assert (Hmt : forall x, mtape_ok s1 x <-> mt_ok x) by (intros; rewrite Hs1; done).
  clear Hs1.
  destruct (mergeonerun_loop_ok s1 ltac:(by rewrite Hk1) ltac:(by rewrite Hk1) ltac:(by rewrite Hb1)
    (S items) L T m n d y Hinv1 Hy Hyr)
    as (T3 & m3 & -> & [Hok3 Hidle3 Hs3 (y3 & Hy3 & Hr3 & Hru3 & Ho3 & Hso3)] & Hl3).
  { rewrite Hyo. constructor. }
  { rewrite Hyo. intros o r Ho. by apply not_elem_of_nil in Ho. }
  { lia. }
  rewrite rbind_ret. rewrite Hyo in Ho3. cbn [app] in Ho3. rewrite Hk1 in Hso3.
  pose proof Hinv as [Htp _ _ _ _ _ _ _ _].
  destruct (finish_run s1 T3 m3 0 d y3 Hk1 Hr1 Hy3 Hr3) as (lt & -> & Hok4); [|..|done|].
  { apply Hmt. by apply (Forall_zget _ _ _ _ Hok3 Hy3). }
  { rewrite Ho3. apply Forall_app. split; [done|]. by apply (rows_ok s). }
  rewrite Hru3 in Hok4 |- *. set (y4 := mk_mt lt false false [] (mt_runs y ++ [mt_out y3]) []) in *.
  pose proof (zget_bounds _ _ _ Hy3) as Hd3.
  exists (zset T3 d y4), m3, y4, (mt_out y3). split; [done|]. split; [done|].
  split; [apply Forall_zset; [|done]; eapply Forall_impl; [exact Hok3|]; intros x; apply Hmt|].
  split.
  { intros t x Hx. rewrite zget_zset in Hx by done.
    destruct (Z.eqb_spec d t); [by injection Hx as <-|by apply (Hidle3 t)]. }
  split; [by apply zget_zset_eq|]. do 3 (split; [done|]). split; [done|].
  apply same_tapes_trans with T3; [done|]. apply same_tapes_set with y3; [done|by right].
Qed.

Lemma mergeonerun_ok T nums dum at_ m d y :
  poly T nums dum -> nonempty_units T nums dum -> zlen (zeros dum) <= zlen m <= INT_MAX ->
  zget nums range = Some d -> zget T d = Some y -> zlen (mt_runs y) < INT_MAX ->
  exists T1 dum' T' m' a y', mergeonerun (pst s nums dum at_ T m 0) = Ok (pst s nums dum' a T' m' 0) /\
    marked 0 T nums dum T1 dum' /\ zlen m' = zlen m /\
    Forall mt_ok T' /\ (forall t x, zget T' t = Some x -> mt_act x = false) /\
    zget T' d = Some y' /\ mt_read y' = false /\ mt_out y' = [] /\
    (exists r, mt_runs y' = mt_runs y ++ [r]) /\ same_tapes d T1 T' /\ all_rows T' ≡ₚ all_rows T.
Proof.
  intros Hp Hne Hcap Hd Hy Hmax. pose proof Hp as [].
  unfold mergeonerun. pst_simpl.
  rewrite (aget_Ok _ _ _ Hd), rbind_ret.
  destruct (beginmerge_ok T nums dum at_ m Hp Hne Hcap)
    as (T1 & dum' & T2 & m2 & n2 & a & -> & Hm & Hinv & Hs & Hrows & Hl). rewrite rbind_ret.
  destruct (marked_tapes T nums dum T1 dum' Hp Hne Hm) as (Hok1 & Hall & _).
  pose proof (mk_len _ _ _ _ _ _ Hm) as Hlen1. pose proof Hs as [Hlen2 Hs2].
  assert (Hyr : mt_read y = false).
  { rewrite <- (tget_Some _ _ _ Hy), (po_read0 range d Hd). apply Z.ltb_irrefl. }
  destruct (poly_idle_tape T nums dum d y Hp Hy) as [Hya _].
  assert (Hyo : mt_out y = []) by (apply (Forall_zget _ _ _ _ po_idle0 Hy); done).
  assert (Hy1 : zget T1 d = Some y) by (by eapply marked_output).
  assert (Hy2 : zget T2 d = Some y).
  { pose proof (zget_bounds _ _ _ Hy). destruct (Hs2 d y) as (y2 & Hy2 & _ & _ & _ & Hi); [lia|done|].
    by rewrite Hy2, Hi. }
  set (s1 := ust s nums dum' (runs_of T2 nums) a).
  change (pst s nums dum' a T2 m2 n2) with (mst s1 T2 m2 n2).
  destruct (merge_to_tape s1 (chosen_tapes nums dum) T2 m2 n2 d y)
    as (T3 & m3 & y3 & r & Hrun & Hl3 & Hok3 & Hidle3 & Hy3 & Hr3 & Ho3 & Hru3 & Hpr & Hs3); try done.
  { pose proof (rows_ok s T1 Hok1) as Hro. rewrite Hrows in Hro. by apply Forall_app in Hro as [? _]. }
  { rewrite (same_items s1 T1 T2 m2 m2 n2 n2 Hs).
    pose proof (left_rows_items s1 T1 m2 n2 Hok1) as Hle. apply Permutation_length in Hrows.
    rewrite length_app in Hrows. unfold heap_rows in Hrows. rewrite length_fmap in Hrows.
    destruct Hinv as [_ Hn2 _ _ _ _ _ _ _]. pose proof (zlen_ztake n2 m2 Hn2). unfold zlen in *. lia. }
  rewrite <- (rbind_assoc (mergeonerun_loop _ _ _) (fun st => markrunend st d)), Hrun, rbind_ret.
  change (tp_runs (mst s1 T3 m3 0)) with (runs_of T2 nums).
  change (tapeRange (mst s1 T3 m3 0)) with range.
  assert (Hrd : zget (runs_of T2 nums) range = Some (zlen (mt_runs y))).
  { unfold runs_of. rewrite zget_fmap, Hd. cbn. by rewrite (tget_Some _ _ _ Hy2). }
  rewrite (aget_Ok _ _ _ Hrd), rbind_ret. pose proof (zget_bounds _ _ _ Hrd).
  rewrite aset_Ok by done. rewrite rbind_ret. pose proof (zlen_nonneg (mt_runs y)).
  rewrite int32_id by (unfold is_int32, INT_MIN, INT_MAX in *; lia).
  exists T1, dum', T3, m3, a, y3. split.
  { rewrite <- (output_runs_of T2 T3 nums (range + 1) d y3 (zlen (mt_runs y) + 1)).
    - unfold s1. by rewrite mst_set_runs.
    - done.
    - by rewrite Hlen2, Hlen1.
    - done.
    - done.
    - rewrite Hru3, zlen_app. done.
    - done. }
  split; [done|]. split; [congruence|]. do 5 (split; [done|]). split; [by exists r|].
  split; [apply same_tapes_trans with T2; [by apply same_tapes_weaken|done]|].
  destruct Hs3 as [Hlen3 Hs3].
  pose proof (all_rows_set T1 T3 d y y3) as Har. rewrite Hru3, concat_app in Har. cbn in Har.
  rewrite app_nil_r, <- app_assoc in Har.
  apply (Permutation_app_inv_l (concat (mt_runs y))). rewrite Har.
  - rewrite Hall, Hpr, Hrows. done.
  - congruence.
  - done.
  - done.
  - intros t x Ht Hx. pose proof (zget_bounds _ _ _ Hx).
    destruct (Hs2 t x) as (x2 & Hx2 & _ & Hrx2 & _); [lia|done|].
    destruct (Hs3 t x2) as (x3 & Hx3 & _ & Hrx3 & _); [done..|]. exists x3. split; [done|congruence].
Qed.

(** ** One turn of step D5 *)

Definition has_run T : Prop := exists t x, zget T t = Some x /\ mt_runs x <> [].

(** A turn takes one run or dummy run from each input and adds one to the
    output. *)
Record turned T nums dum T' dum' : Prop := {
  tu_poly : poly T' nums dum';
  tu_counts : counted_down (counts T nums dum) (counts T' nums dum');
  tu_rows : all_rows T' ≡ₚ all_rows T;
  tu_run : has_run T -> has_run T'
}.

Lemma counted_small T nums dum c' :
  poly T nums dum -> counted_down (counts T nums dum) c' -> zlen c' = range + 1 ->
  (forall v, zget (counts T nums dum) range = Some v -> v < INT_MAX) ->
  forall v, v ∈ c' -> v <= INT_MAX.
Proof.
  intros Hp Hc Hl Hlast v Hv. apply elem_zget in Hv as (k & Hk & Hkb).
  destruct (poly_unit T nums dum k Hp) as (t & d & _ & _ & _ & _ & Hcnt); [lia|].
  rewrite (Hc k _ ltac:(lia) Hcnt) in Hk. injection Hk as <-.
  pose proof (po_small _ _ _ Hp _ (zget_elem _ _ _ Hcnt)).
  destruct (Z.ltb_spec k range); [lia|]. assert (k = range) as -> by lia.
  specialize (Hlast _ Hcnt). lia.
Qed.

Lemma counts_len T nums dum : poly T nums dum -> zlen (counts T nums dum) = range + 1.
Proof.
  intros []. unfold counts. rewrite zlen_zip_with; [done|].
  rewrite po_dlen0. apply assigns_len; [lia|done].
Qed.

(** The input units after a merge. *)
Lemma merged_input T nums dum T1 dum' T' d k :
  poly T nums dum -> nonempty_units T nums dum -> marked 0 T nums dum T1 dum' ->
  zget nums range = Some d -> same_tapes d T1 T' -> 0 <= k < range ->
  exists t e, zget nums k = Some t /\ t <> d /\ zget dum k = Some e /\
    zget dum' k = Some (if 0 <? e then e - 1 else e) /\ mt_read (tget T' t) = true /\
    zlen (mt_runs (tget T' t)) + (if 0 <? e then e - 1 else e) =
      zlen (mt_runs (tget T t)) + e - 1.
Proof.
  intros Hp Hne Hm Hd [Hl Hs] Hk. pose proof Hp as [].
  destruct (poly_unit T nums dum k Hp) as (t & e & Ht & He & He0 & Htb & Hc); [lia|].
  assert (Htd : t <> d).
  { intros ->. assert (k = range) by (by apply (assigns_inj nums (range + 1) k range d)). lia. }
  exists t, e. do 3 (split; [done|]). destruct Hm.
  assert (Hdu : dummied 0 k e = (0 <? e)).
  { unfold dummied. by destruct (Z.leb_spec 0 k), (Z.ltb_spec k range); try lia. }
  assert (Hch : chosen 0 k e = (e =? 0)).
  { unfold chosen. by destruct (Z.leb_spec 0 k), (Z.ltb_spec k range); try lia. }
  split; [by rewrite (mk_dummy0 k e He), Hdu|].
  destruct (Hs t (tget T1 t)) as (x' & Hx' & Hrd & Hru & _); [done|apply tget_zget; lia|].
  rewrite (tget_Some _ _ _ Hx'), Hrd, Hru, (mk_tape0 k t e Ht He), Hch.
  specialize (po_read0 k t Ht). rewrite (proj2 (Z.ltb_lt _ _)) in po_read0 by lia.
  specialize (Hne k _ Hk Hc).
  destruct (Z.eqb_spec e 0) as [-> | He1].
  - split; [done|]. cbn. destruct (mt_runs (tget T t)) as [|r rs]; [done|]. rewrite zlen_cons. cbn. lia.
  - split; [done|]. destruct (Z.ltb_spec 0 e); lia.
Qed.

Lemma run_turn T nums dum at_ m :
  poly T nums dum -> nonempty_units T nums dum -> zlen (zeros dum) <= zlen m <= INT_MAX ->
  (forall v, zget (counts T nums dum) range = Some v -> v < INT_MAX) ->
  exists T' dum' a m', mergeonerun (pst s nums dum at_ T m 0) = Ok (pst s nums dum' a T' m' 0) /\
    turned T nums dum T' dum' /\ zlen m' = zlen m.
Proof.
  intros Hp Hne Hcap Hlast. pose proof Hp as [].
  destruct (poly_unit T nums dum range Hp) as (d & e & Hd & He & He0 & Hdb & Hcd); [lia|].
  pose proof (tget_zget T d Hdb) as Hy. specialize (Hlast _ Hcd) as Hmax.
  destruct (mergeonerun_ok T nums dum at_ m d (tget T d) Hp Hne Hcap Hd Hy)
    as (T1 & dum' & T' & m' & a & y' & Hrun & Hm & Hl & Hok & Hidle & Hy' & Hyr & Hyo & [r Hru] & Hs & Har);
    [lia|].
  exists T', dum', a, m'. split; [exact Hrun|]. split; [|done].
  assert (Hcount : counted_down (counts T nums dum) (counts T' nums dum')).
  { intros k v Hk Hv. destruct (Z.ltb_spec k range).
    - destruct (merged_input T nums dum T1 dum' T' d k) as (t & f & Ht & _ & Hf & Hf' & _ & Hsum);
        [done..|lia|].
      unfold counts in Hv |- *. rewrite (zget_zip_with _ _ _ _ _ _ Ht Hf) in Hv. injection Hv as <-.
      rewrite (zget_zip_with _ _ _ _ _ _ Ht Hf'). by rewrite Hsum.
    - assert (k = range) as -> by lia. assert (Hv' : v = zlen (mt_runs (tget T d)) + e) by congruence.
      assert (Hf' : zget dum' range = Some e).
      { rewrite (mk_dummy _ _ _ _ _ _ Hm range e He). unfold dummied. by rewrite Z.ltb_irrefl, andb_false_r. }
      unfold counts. rewrite (zget_zip_with _ _ _ _ _ _ Hd Hf').
      rewrite (tget_Some _ _ _ Hy'), Hru, zlen_app. change (zlen [r]) with 1. f_equal. lia. }
  assert (Hlen' : zlen T' = zlen T) by (destruct Hs as [-> _]; apply (mk_len _ _ _ _ _ _ Hm)).
  assert (Hdl : zlen dum' = range + 1) by (rewrite (mk_dlen _ _ _ _ _ _ Hm); done).
  assert (Hin : forall t k, zget nums k = Some t -> t <> d -> 0 <= k < range).
  { intros t k Ht Htd. pose proof (zget_bounds _ _ _ Ht) as Hkb.
    rewrite (assigns_len nums (range + 1)) in Hkb by (done || lia).
    destruct (Z.eq_dec k range) as [->|]; [congruence|lia]. }
  split; [|done|done|].
  - split; try done.
    + apply Forall_of_zget. intros t x Hx. split; [by apply (Hidle t)|]. intros Hrd.
      destruct (Z.eq_dec t d) as [->|Htd]; [congruence|]. exfalso.
      pose proof (zget_bounds _ _ _ Hx). destruct (assigns_unit nums (range + 1) t) as [k Ht]; [done|lia|].
      destruct (merged_input T nums dum T1 dum' T' d k) as (t' & f & Ht' & _ & _ & _ & Hrd' & _);
        [done..|by apply (Hin t)|]. assert (t' = t) as -> by congruence.
      rewrite (tget_Some _ _ _ Hx) in Hrd'. congruence.
    + congruence.
    + apply Forall_of_zget. intros k f Hf. pose proof (zget_bounds _ _ _ Hf).
      destruct (zget_is_Some dum k) as [f0 Hf0]; [lia|].
      rewrite (mk_dummy _ _ _ _ _ _ Hm k f0 Hf0) in Hf. injection Hf as <-.
      pose proof (Forall_zget _ _ _ _ po_dpos0 Hf0). cbn in *. unfold dummied.
      destruct (Z.ltb_spec 0 f0); [destruct (_ && true); lia|rewrite andb_false_r; lia].
    + intros k t Ht. destruct (Z.eq_dec t d) as [->|Htd].
      * assert (k = range) as -> by (by apply (assigns_inj nums (range + 1) k range d)).
        by rewrite (tget_Some _ _ _ Hy'), Hyr, Z.ltb_irrefl.
      * pose proof (Hin t k Ht Htd).
        destruct (merged_input T nums dum T1 dum' T' d k) as (t' & f & Ht' & _ & _ & _ & Hrd' & _);
          [done..|]. assert (t' = t) as -> by congruence. rewrite Hrd'. symmetry. apply Z.ltb_lt. lia.
    + apply (counted_small T nums dum); [done|done| |done].
      unfold counts. rewrite zlen_zip_with; [done|]. rewrite Hdl. apply assigns_len; [lia|done].
  - intros _. exists d, y'. split; [done|]. rewrite Hru. by destruct (mt_runs (tget T d)).
Qed.

(** ** Turns with dummy runs only *)

Lemma allDummy_ok fuel st dum j :
  tp_dummy st = dum -> tapeRange st = range -> range < zlen dum -> 0 <= j <= range ->
  (Z.to_nat (range - j) < fuel)%nat ->
  exists b, allDummy fuel st j = Ok b /\
    (b = true <-> forall k e, j <= k < range -> zget dum k = Some e -> e <> 0).
Proof.
  intros Hd Hr Hlen. revert j. induction fuel as [|fuel IH]; intros j Hj Hf; [lia|].
  cbn [allDummy]. rewrite Hr, Hd. destruct (Z.ltb_spec j range) as [Hlt|Hge].
  - destruct (zget_is_Some dum j) as [e He]; [lia|]. rewrite (aget_Ok _ _ _ He), rbind_ret.
    destruct (Z.eqb_spec e 0) as [-> | Hne].
    + exists false. split; [done|]. split; [done|]. intros Hall. exfalso. by apply (Hall j 0); [lia|..].
    + destruct (IH (j + 1)) as (b & -> & Hb); [lia|lia|]. exists b. split; [done|]. rewrite Hb. split.
      * intros Hall k f Hk Hf0. destruct (Z.eq_dec k j) as [->|]; [congruence|]. apply (Hall k); [lia|done].
      * intros Hall k f Hk. apply Hall. lia.
  - exists true. split; [done|]. split; [|done]. intros _ k e Hk. lia.
Qed.

Lemma drop_dummies_ok fuel nums dum at_ T m j :
  range < zlen dum -> 0 <= j <= range -> (Z.to_nat (range - j) < fuel)%nat ->
  (forall k e, j <= k < range -> zget dum k = Some e -> 0 < e <= INT_MAX) ->
  exists dum', drop_dummies fuel (pst s nums dum at_ T m 0) j = Ok (pst s nums dum' at_ T m 0) /\
    zlen dum' = zlen dum /\
    forall k e, zget dum k = Some e ->
      zget dum' k = Some (if (j <=? k) && (k <? range) then e - 1 else e).
Proof.
  revert dum j. induction fuel as [|fuel IH]; intros dum j Hlen Hj Hf Hpos; [lia|].
  cbn [drop_dummies]. pst_simpl.
  destruct (Z.ltb_spec j range) as [Hlt|Hge].
  - destruct (zget_is_Some dum j) as [e He]; [lia|]. rewrite (aget_Ok _ _ _ He), rbind_ret.
    specialize (Hpos j e ltac:(lia) He) as He0. unfold INT_MAX in *.
    rewrite int32_id by (unfold is_int32, INT_MIN, INT_MAX in *; lia).
    rewrite aset_Ok by lia. rewrite rbind_ret.
    pst_simpl.
    destruct (IH (zset dum j (e - 1)) (j + 1)) as (dum' & -> & Hl & Hd'); try lia.
    { by rewrite zlen_zset. }
    { intros k f Hk. rewrite zget_zset_ne by lia. apply Hpos. lia. }
    exists dum'. split; [done|]. split; [by rewrite Hl, zlen_zset|]. intros k f Hf0.
    destruct (Z.eq_dec j k) as [<-|Hne].
    + rewrite (Hd' j (e - 1)) by (apply zget_zset_eq; lia). assert (f = e) as -> by congruence.
      destruct (Z.leb_spec (j + 1) j), (Z.leb_spec j j), (Z.ltb_spec j range); lia || done.
    + rewrite (Hd' k f) by (by rewrite zget_zset_ne).
      destruct (Z.leb_spec (j + 1) k), (Z.leb_spec j k), (Z.ltb_spec k range); lia || done.
  - exists dum. split; [done|]. split; [done|]. intros k e He.
    destruct (Z.leb_spec j k), (Z.ltb_spec k range); lia || done.
Qed.

Lemma dummy_turn T nums dum at_ m dT :
  poly T nums dum -> (forall k e, 0 <= k < range -> zget dum k = Some e -> e <> 0) ->
  (forall v, zget (counts T nums dum) range = Some v -> v < INT_MAX) ->
  zget dum range = Some dT ->
  exists dum', drop_dummies (S (Z.to_nat range))
      (pst s nums (zset dum range (dT + 1)) at_ T m 0) 0 = Ok (pst s nums dum' at_ T m 0) /\
    turned T nums dum T dum'.
Proof.
  intros Hp Hall Hlast HdT. pose proof Hp as [].
  assert (Hsmall : forall k e, 0 <= k <= range -> zget dum k = Some e -> 0 <= e <= INT_MAX).
  { intros k e Hk He. destruct (poly_unit T nums dum k Hp Hk) as (t & e' & _ & He' & He0 & _ & Hc).
    assert (e' = e) as -> by congruence. apply zget_elem, po_small0 in Hc.
    pose proof (zlen_nonneg (mt_runs (tget T t))). lia. }
  destruct (drop_dummies_ok (S (Z.to_nat range)) nums (zset dum range (dT + 1)) at_ T m 0)
    as (dum' & Hdrop & Hl & Hd'); try lia.
  { rewrite zlen_zset. lia. }
  { intros k e Hk. rewrite zget_zset_ne by lia. intros He.
    specialize (Hsmall k e ltac:(lia) He). specialize (Hall k e ltac:(lia) He). lia. }
  rewrite zlen_zset in Hl. exists dum'. split; [exact Hdrop|].
  assert (Hget : forall k e, 0 <= k <= range -> zget dum k = Some e ->
    zget dum' k = Some (if k <? range then e - 1 else e + 1)).
  { intros k e Hk He. destruct (Z.ltb_spec k range) as [Hlt|Hge].
    - rewrite (Hd' k e) by (by rewrite zget_zset_ne by lia).
      destruct (Z.leb_spec 0 k), (Z.ltb_spec k range); lia || done.
    - assert (k = range) as -> by lia. assert (e = dT) as -> by congruence.
      rewrite (Hd' range (dT + 1)) by (apply zget_zset_eq; lia). by rewrite Z.ltb_irrefl, andb_false_r. }
  assert (Hcount : counted_down (counts T nums dum) (counts T nums dum')).
  { intros k v Hk Hv. destruct (poly_unit T nums dum k Hp Hk) as (t & e & Ht & He & He0 & _ & Hc).
    unfold counts. rewrite (zget_zip_with _ _ _ _ _ _ Ht (Hget k e Hk He)).
    rewrite Hc in Hv. injection Hv as <-. f_equal. destruct (k <? range); lia. }
  split; [|done|done|done]. split; try done.
  - lia.
  - apply Forall_of_zget. intros k f Hf. pose proof (zget_bounds _ _ _ Hf).
    destruct (zget_is_Some dum k) as [e He]; [lia|]. rewrite (Hget k e ltac:(lia) He) in Hf.
    injection Hf as <-. specialize (Hsmall k e ltac:(lia) He).
    destruct (Z.ltb_spec k range); [|lia]. specialize (Hall k e ltac:(lia) He). lia.
  - apply (counted_small T nums dum); [done|done| |done].
    unfold counts. rewrite zlen_zip_with; [lia|]. rewrite Hl, po_dlen0. apply assigns_len; [lia|done].
Qed.

(** ** Step D5: merge until the last input is used up *)

(** The heap array is large enough for the turns to come. *)
Definition room (m : list SortTuple) dum (q : Z) : Prop :=
  zlen m <= INT_MAX /\
  (1 <= q -> range <= zlen m \/ (q = 1 /\ zlen (zeros dum) <= zlen m)).

Definition counted (q : Z) (c c' : list Z) : Prop :=
  forall k v, 0 <= k <= range -> zget c k = Some v ->
    zget c' k = Some (if k <? range then v - q else v + q).

(** One turn of the loop of step D5. *)
Lemma turn_ok T nums dum at_ m q o :
  poly T nums dum -> nonempty_units T nums dum -> 1 <= q ->
  zget (counts T nums dum) range = Some o -> o + q <= INT_MAX -> room m dum q ->
  exists T' dum' a m',
    (do! all <- allDummy (S (Z.to_nat range)) (pst s nums dum at_ T m 0) 0 ;;
     if (all : bool) then
       do! dT <- aget dum range ;;
       do! dummy <- aset dum range (int32 (dT + 1)) ;;
       drop_dummies (S (Z.to_nat range)) (set_tp_dummy dummy (pst s nums dum at_ T m 0)) 0
     else mergeonerun (pst s nums dum at_ T m 0)) = Ok (pst s nums dum' a T' m' 0) /\
    turned T nums dum T' dum' /\ zlen m' = zlen m.
Proof.
  intros Hp Hne Hq Ho Hmax [Hm Hroom]. pose proof Hp as [].
  assert (Hlast : forall v, zget (counts T nums dum) range = Some v -> v < INT_MAX).
  { intros v Hv. assert (v = o) as -> by congruence. lia. }
  destruct (allDummy_ok (S (Z.to_nat range)) (pst s nums dum at_ T m 0) dum 0) as (b & -> & Hb);
    [done|done|lia|lia|lia|]. rewrite rbind_ret. destruct b.
  - destruct (poly_unit T nums dum range Hp) as (d & dT & _ & HdT & Hd0 & _ & Hc); [lia|].
    rewrite (aget_Ok _ _ _ HdT), rbind_ret. specialize (Hlast _ Hc).
    pose proof (zlen_nonneg (mt_runs (tget T d))). unfold INT_MAX in *.
    rewrite int32_id by (unfold is_int32, INT_MIN, INT_MAX; lia).
    rewrite aset_Ok by lia. rewrite rbind_ret.
    destruct (dummy_turn T nums dum at_ m dT Hp) as (dum' & Hdrop & Ht); [by apply Hb| |done|].
    { unfold INT_MAX. intros v Hv. assert (v = o) as -> by congruence. lia. }
    exists T, dum', at_, m. split; [exact Hdrop|done].
  - destruct (run_turn T nums dum at_ m Hp Hne) as (T' & dum' & a & m' & -> & Ht & Hl); [|done|].
    { pose proof (zeros_le dum). lia. }
    by exists T', dum', a, m'.
Qed.

Lemma merge_until_empty_ok fuel T nums dum at_ m q o :
  poly T nums dum -> has_run T ->
  zget (counts T nums dum) (range - 1) = Some q -> (Z.to_nat q < fuel)%nat ->
  (forall k v, 0 <= k < range -> zget (counts T nums dum) k = Some v -> q <= v) ->
  zget (counts T nums dum) range = Some o -> o + q <= INT_MAX -> room m dum q ->
  exists T' dum' a m', merge_until_empty fuel (pst s nums dum at_ T m 0) =
      Ok (pst s nums dum' a T' m' 0) /\
    poly T' nums dum' /\ counted q (counts T nums dum) (counts T' nums dum') /\
    all_rows T' ≡ₚ all_rows T /\ has_run T' /\ zlen m' = zlen m.
Proof.
  revert T dum at_ m q o. induction fuel as [|fuel IH];
    intros T dum at_ m q o Hp Hrun Hq Hf Hge Ho Hmax Hroom; [lia|].
  pose proof Hp as []. cbn [merge_until_empty].
  pst_simpl.
  destruct (poly_unit T nums dum (range - 1) Hp) as (t & e & Ht & He & He0 & _ & Hc); [lia|].
  assert (Hqe : q = zlen (mt_runs (tget T t)) + e) by congruence.
  pose proof (zlen_nonneg (mt_runs (tget T t))) as Hz.
  rewrite (aget_Ok (runs_of T nums) (range - 1) (zlen (mt_runs (tget T t))))
    by (unfold runs_of; by rewrite zget_fmap, Ht).
  rewrite rbind_ret, (aget_Ok _ _ _ He), rbind_ret.
  destruct (negb (zlen (mt_runs (tget T t)) =? 0) || negb (e =? 0)) eqn:Hmore.
  2:{ exists T, dum, at_, m. split; [done|]. split; [done|]. split; [|done].
      apply orb_false_iff in Hmore as [H1 H2]. apply negb_false_iff, Z.eqb_eq in H1, H2.
      intros k v Hk Hv. rewrite Hv. f_equal. destruct (k <? range); lia. }
  assert (Hq1 : 1 <= q).
  { apply orb_true_iff in Hmore as [Hm|Hm]; apply negb_true_iff, Z.eqb_neq in Hm; lia. }
  assert (Hne : nonempty_units T nums dum).
  { intros k v Hk Hv. specialize (Hge k v Hk Hv). lia. }
  assert (Hlast : forall v, zget (counts T nums dum) range = Some v -> v < INT_MAX).
  { intros v Hv. assert (v = o) as -> by congruence. lia. }
  destruct (turn_ok T nums dum at_ m q o) as (T1 & dum1 & a1 & m1 & Hturn & [] & Hl1); try done.
  rewrite <- (rbind_assoc (allDummy _ _ _)), Hturn, rbind_ret.
  destruct (poly_unit T1 nums dum1 (range - 1) tu_poly0) as (t1 & e1 & _ & _ & _ & _ & Hc1); [lia|].
  rewrite (tu_counts0 (range - 1) q ltac:(lia) Hq) in Hc1.
  destruct (Z.ltb_spec (range - 1) range) as [_|]; [|lia].
  destruct (IH T1 dum1 a1 m1 (q - 1) (o + 1)) as (T' & dum' & a & m' & -> & Hp' & Hc' & Hr' & Hrun' & Hl').
  - done.
  - by apply tu_run0.
  - rewrite (tu_counts0 (range - 1) q) by (done || lia).
    by destruct (Z.ltb_spec (range - 1) range) as [_|]; [|lia].
  - lia.
  - intros k v Hk Hv. destruct (poly_unit T nums dum k Hp) as (t2 & e2 & _ & _ & _ & _ & Hc2); [lia|].
    specialize (Hge k _ Hk Hc2). rewrite (tu_counts0 k _ ltac:(lia) Hc2) in Hv.
    destruct (Z.ltb_spec k range); [|lia]. injection Hv as <-. lia.
  - rewrite (tu_counts0 range o) by (done || lia). by rewrite Z.ltb_irrefl.
  - lia.
  - destruct Hroom as [Hm Hor]. split; [lia|]. intros Hq2. left.
    destruct (Hor ltac:(lia)) as [? | [? _]]; lia.
  - exists T', dum', a, m'. split; [done|]. split; [done|]. split; [|split; [by rewrite Hr'|]].
    + intros k v Hk Hv. rewrite (Hc' k _ Hk (tu_counts0 k v Hk Hv)). f_equal.
      destruct (k <? range); lia.
    + split; [done|congruence].
Qed.
End poly.
