(* ===== verification/MergeRuns.v ===== *)
(** * The merge phase of an external sort: [mergeruns]

    The polyphase distribution: at level [L] the units hold the numbers of
    runs [fibv L], the generalized Fibonacci numbers of Algorithm D.  A pass of
    step D5 and the exchange of units of step D6 turn [fibv (L + 1)] into
    [fibv L]; at level 0 one run is left. *)

From Stdlib Require Import ZArith Lia.
From stdpp Require Import base list sorting strings.
From S2P Require Import Prelude HeapTheory SortSupport TuplesortHeap LogTape TuplesortState Tuplesort TapeRuns TuplesortMem RunMerge Polyphase.

Local Open Scope Z_scope.

(** ** Perfect distributions *)

(** For [r] input units. *)
Fixpoint fibv (r : nat) (L : nat) : list Z :=
  match L with
  | O => 1 :: replicate r 0
  | S L =>
    match fibv r L with
    | [] => []
    | a :: tl => ((fun x => a + x) <$> tl) ++ [0]
    end
  end.

Lemma fibv_shape r L :
  (1 <= r)%nat ->
  exists a tl, fibv r L = a :: tl /\ length tl = r /\ 1 <= a /\ Forall (fun x => 0 <= x) tl /\
    zget tl (Z.of_nat r - 1) = Some 0.
Proof.
  intros Hr. induction L as [|L (a & tl & Heq & Hl & Ha & Hpos & Hlast)].
  - exists 1, (replicate r 0). split; [done|]. split; [apply length_replicate|]. split; [lia|].
    split; [by apply Forall_replicate|]. unfold zget. destruct (Z.leb_spec 0 (Z.of_nat r - 1)); [|lia].
    apply lookup_replicate. split; [done|lia].
  - cbn [fibv]. rewrite Heq. destruct tl as [|b tl]; [cbn in Hl; lia|].
    exists (a + b), (((fun x => a + x) <$> tl) ++ [0]). split; [done|].
    inversion Hpos as [|?? Hb Htl]; subst. split; [rewrite length_app, length_fmap; cbn; lia|].
    split; [lia|]. split.
    + apply Forall_app. split; [|by repeat constructor]. apply Forall_fmap.
      eapply Forall_impl; [exact Htl|]. cbn. lia.
    + rewrite zget_app_r by (rewrite zlen_fmap; unfold zlen; cbn; lia).
      rewrite zlen_fmap. unfold zlen. cbn [length].
      by replace (Z.of_nat (S (length tl)) - 1 - Z.of_nat (length tl)) with 0 by lia.
Qed.

(** ** Exchanging the units *)

(** The last entry goes first. *)
Definition rot (range : Z) (l : list Z) : list Z := zdrop range l ++ ztake range l.

Lemma shift_units_ok fuel l k :
  0 <= k < zlen l -> (Z.to_nat k < fuel)%nat ->
  exists l', shift_units fuel l k = Ok l' /\ zlen l' = zlen l /\
    forall i, 0 <= i -> zget l' i = if (1 <=? i) && (i <=? k) then zget l (i - 1) else zget l i.
Proof.
  revert l k. induction fuel as [|fuel IH]; intros l k Hk Hf; [lia|].
  cbn [shift_units]. destruct (Z.gtb_spec k 0) as [H0|H0].
  - destruct (zget_is_Some l (k - 1)) as [v Hv]; [lia|]. rewrite (aget_Ok _ _ _ Hv), rbind_ret.
    rewrite aset_Ok by lia. rewrite rbind_ret.
    destruct (IH (zset l k v) (k - 1)) as (l' & -> & Hl & Hg); [rewrite zlen_zset; lia|lia|].
    rewrite zlen_zset in Hl. exists l'. split; [done|]. split; [done|]. intros i Hi. rewrite Hg by done.
    rewrite !zget_zset by lia.
    destruct (Z.leb_spec 1 i), (Z.leb_spec i (k - 1)), (Z.leb_spec i k); cbn [andb]; try lia;
      destruct (Z.eqb_spec k (i - 1)), (Z.eqb_spec k i); try lia; try done.
    by replace (i - 1) with (k - 1) by lia.
  - exists l. split; [done|]. split; [done|]. intros i Hi.
    by destruct (Z.leb_spec 1 i), (Z.leb_spec i k); cbn [andb]; try lia.
Qed.

Lemma rot_snoc range l x : zlen l = range -> rot range (l ++ [x]) = x :: l.
Proof.
  intros <-. unfold rot, zdrop, ztake, zlen. rewrite Nat2Z.id, drop_app_length, take_app_length. done.
Qed.

Lemma rotate_units_ok range l x :
  0 <= range -> zlen l = range -> rotate_units (l ++ [x]) range = Ok (x :: l).
Proof.
  intros Hr Hl. unfold rotate_units.
  assert (Hx : zget (l ++ [x]) range = Some x).
  { rewrite zget_app_r by lia. by rewrite Hl, Z.sub_diag. }
  rewrite (aget_Ok _ _ _ Hx), rbind_ret.
  assert (Hlen : zlen (l ++ [x]) = range + 1).
  { rewrite zlen_app, Hl. done. }
  destruct (shift_units_ok (S (Z.to_nat range)) (l ++ [x]) range) as (l' & -> & Hl' & Hg); [lia|lia|].
  rewrite rbind_ret, aset_Ok by lia. f_equal. apply zlist_eq. intros i Hi.
  rewrite zget_zset by lia. rewrite Hg by done. destruct (Z.eqb_spec 0 i) as [<-|Hne]; [done|].
  change (x :: l) with ([x] ++ l). rewrite (zget_app_r [x] l) by (change (zlen [x]) with 1; lia).
  change (zlen [x]) with 1. destruct (Z.leb_spec 1 i); [|lia]. destruct (Z.leb_spec i range); cbn [andb].
  - by rewrite zget_app_l by lia.
  - rewrite zget_None by lia. rewrite zget_None by lia. done.
Qed.

(** An array of units, last one apart. *)
Lemma units_snoc range (l : list Z) :
  0 <= range -> zlen l = range + 1 -> exists l0 x, l = l0 ++ [x] /\ zlen l0 = range.
Proof.
  intros Hr Hl. destruct (zget_is_Some l range) as [x Hx]; [lia|].
  exists (ztake range l), x. split; [|apply zlen_ztake; lia].
  rewrite <- (ztake_succ range l x Hx). symmetry. apply ztake_all. lia.
Qed.

(** ** Step D6 *)

(** Tapes that hold the same runs. *)
Definition same_runs (T T' : list mtape) : Prop :=
  zlen T' = zlen T /\ forall t, mt_runs (tget T' t) = mt_runs (tget T t).

Lemma same_runs_runs_of T T' nums : same_runs T T' -> runs_of T' nums = runs_of T nums.
Proof. intros [_ H]. unfold runs_of. apply list_fmap_ext. intros _ t _. by rewrite H. Qed.

Lemma same_runs_counts T T' nums dum : same_runs T T' -> counts T' nums dum = counts T nums dum.
Proof.
  intros [_ H]. unfold counts. revert dum. induction nums as [|t nums IH]; intros [|d dum]; [done..|].
  cbn. by rewrite H, IH.
Qed.

Lemma same_runs_set T t x x' :
  zget T t = Some x -> mt_runs x' = mt_runs x -> same_runs T (zset T t x').
Proof.
  intros Hx Hr. pose proof (zget_bounds _ _ _ Hx). split; [apply zlen_zset|]. intros u.
  rewrite tget_zset by done. destruct (Z.eqb_spec t u) as [<-|]; [|done].
  by rewrite Hr, (tget_Some _ _ _ Hx).
Qed.

Lemma same_runs_trans T1 T2 T3 : same_runs T1 T2 -> same_runs T2 T3 -> same_runs T1 T3.
Proof. intros [H1 H1'] [H2 H2']. split; [congruence|]. intros t. by rewrite H2', H1'. Qed.

Lemma same_runs_get T T' t x :
  same_runs T T' -> zget T t = Some x -> exists x', zget T' t = Some x' /\ mt_runs x' = mt_runs x.
Proof.
  intros [Hl H] Hx. pose proof (zget_bounds _ _ _ Hx). exists (tget T' t).
  split; [apply tget_zget; lia|]. by rewrite H, (tget_Some _ _ _ Hx).
Qed.

Lemma same_runs_rows T T' : same_runs T T' -> all_rows T' = all_rows T.
Proof.
  intros Hs. unfold all_rows. f_equal. apply zlist_eq. intros t _. rewrite !zget_fmap.
  destruct (zget T t) as [x|] eqn:Hx.
  - destruct (same_runs_get T T' t x Hs Hx) as (x' & -> & Hr). cbn. by rewrite Hr.
  - destruct (zget T' t) as [x'|] eqn:Hx'; [|done]. apply zget_bounds in Hx'. destruct Hs as [Hl _].
    rewrite Hl in Hx'. destruct (zget_is_Some T t Hx'). congruence.
Qed.

Lemma same_runs_has T T' : same_runs T T' -> has_run T -> has_run T'.
Proof.
  intros Hs (t & x & Hx & Hr). destruct (same_runs_get T T' t x Hs Hx) as (x' & Hx' & Hr').
  exists t, x'. split; [done|]. by rewrite Hr'.
Qed.

(** [upd_tapes] on a state of the merge phase, when the tape keeps its runs. *)
Lemma upd_tapes_pst s nums dum a T m n k t lt x x' :
  k (tapes_of T) = Ok (zset (tapes_of T) t lt) -> zget T t = Some x ->
  mt_lt x' = lt -> mt_act x' = mt_act x -> mt_runs x' = mt_runs x ->
  upd_tapes (pst s nums dum a T m n) k = Ok (pst s nums dum a (zset T t x') m n).
Proof.
  intros Hk Hx Hlt Ha Hr. rewrite (upd_tapes_ok (pst s nums dum a T m n) (tapes_of T) k _ eq_refl Hk).
  f_equal. unfold pst. rewrite (same_runs_runs_of T (zset T t x')) by (by apply same_runs_set with x).
  rewrite <- (mst_set_tapes _ T (zset T t x')) by (by apply acts_of_same with x).
  unfold tapes_of. by rewrite fmap_zset, Hlt.
Qed.

(** The facts of a [poly] hypothesis, by name. *)
Ltac poly_facts H :=
  pose proof (po_tapes _ _ _ _ H) as Ptapes; pose proof (po_idle _ _ _ _ H) as Pidle;
  pose proof (po_len _ _ _ _ H) as Plen; pose proof (po_max _ _ _ _ H) as Pmax;
  pose proof (po_range _ _ _ _ H) as Prange; pose proof (po_nums _ _ _ _ H) as Pnums;
  pose proof (po_dlen _ _ _ _ H) as Pdlen; pose proof (po_dpos _ _ _ _ H) as Pdpos;
  pose proof (po_read _ _ _ _ H) as Pread; pose proof (po_small _ _ _ _ H) as Psmall.

Section exchange.
Variable s : Tuplesortstate.
Local Abbreviation range := (tapeRange s).
Implicit Types (T : list mtape) (nums dum : list Z).

(** The output tape becomes an input. *)
Lemma rewind_output T nums dum a m t :
  poly s T nums dum -> zget nums range = Some t ->
  exists x', upd_tapes (pst s nums dum a T m 0) (fun lts => LogicalTapeRewindForRead lts t) =
      Ok (pst s nums dum a (zset T t x') m 0) /\
    mtape_ok s x' /\ mt_read x' = true /\ mt_act x' = false /\ mt_runs x' = mt_runs (tget T t).
Proof.
  intros Hp Ht. poly_facts Hp. pose proof (assigns_bound _ _ _ _ Pnums Ht) as Hb.
  pose proof (tget_zget T t ltac:(lia)) as Hx. set (x := tget T t) in *.
  pose proof (Forall_zget _ _ _ _ Ptapes Hx) as (Hrem & Hruns & Hok).
  assert (Hr : mt_read x = false) by (unfold x; rewrite (Pread range t Ht); apply Z.ltb_irrefl).
  destruct (Forall_zget _ _ _ _ Pidle Hx) as [Ha Ho]. rewrite Hr in Hok.
  destruct Hok as (_ & Hnil & Hh). rewrite Ho in Hh by done. rewrite app_nil_r in Hh.
  assert (Hlt : zget (tapes_of T) t = Some (mt_lt x)) by (unfold tapes_of; by rewrite zget_fmap, Hx).
  destruct (LogicalTapeRewindForRead_ok (tapes_of T) t (mt_lt x) _ Hlt Hh) as (lt & Hrw & Hrd & Hf).
  exists (mk_mt lt true false [] (mt_runs x) []). split.
  - by apply upd_tapes_pst with lt x.
  - split; [|done]. split; [by repeat constructor|]. split; [done|]. cbn. done.
Qed.

(** A used-up input tape becomes the output. *)
Lemma rewind_input T nums dum a m t x :
  zget T t = Some x -> mtape_ok s x -> mt_read x = true -> mt_act x = false -> mt_runs x = [] ->
  exists x', upd_tapes (pst s nums dum a T m 0) (fun lts => LogicalTapeRewindForWrite lts t) =
      Ok (pst s nums dum a (zset T t x') m 0) /\
    mtape_ok s x' /\ mt_read x' = false /\ mt_act x' = false /\ mt_runs x' = [] /\ mt_out x' = [].
Proof.
  intros Hx (Hrem & Hruns & Hok) Hr Ha Hnil. rewrite Hr in Hok. destruct Hok as (Hf & _ & Hrd).
  assert (Hlt : zget (tapes_of T) t = Some (mt_lt x)) by (unfold tapes_of; by rewrite zget_fmap, Hx).
  destruct (LogicalTapeRewindForWrite_ok (tapes_of T) t (mt_lt x) _ Hlt Hrd Hf) as (lt & Hrw & Hh).
  exists (mk_mt lt false false [] [] []). split.
  - apply upd_tapes_pst with lt x; done || by rewrite Ha || by rewrite Hnil.
  - split; [|done]. split; [by repeat constructor|]. split; [constructor|done].
Qed.

Lemma set_units_pst nums dum a T m nums' dum' runs' T' :
  runs' = runs_of T' nums' -> T' = T ->
  set_tp_dummy dum' (set_tp_runs runs' (set_tp_tapenum nums' (pst s nums dum a T m 0))) =
  pst s nums' dum' a T' m 0.
Proof. by intros -> ->. Qed.

Lemma zip_with_snoc {A B D} (f : A -> B -> D) l k x y :
  length l = length k -> zip_with f (l ++ [x]) (k ++ [y]) = zip_with f l k ++ [f x y].
Proof. intros H. by rewrite zip_with_app. Qed.

(** The units after the exchange. *)
Lemma exchange_poly T ns ds tT dT tP x1 x2 :
  poly s T (ns ++ [tT]) (ds ++ [dT]) -> zlen ns = range -> zlen ds = range ->
  zget ns (range - 1) = Some tP -> tP <> tT ->
  mtape_ok s x1 -> mt_read x1 = true -> mt_act x1 = false ->
  mtape_ok s x2 -> mt_read x2 = false -> mt_act x2 = false -> mt_out x2 = [] ->
  same_runs T (zset (zset T tT x1) tP x2) ->
  poly s (zset (zset T tT x1) tP x2) (tT :: ns) (dT :: ds).
Proof.
  intros Hp Hnsl Hdsl HtP Hne Hok1 Hr1 Ha1 Hok2 Hr2 Ha2 Ho2 Hsame. poly_facts Hp.
  assert (HtT : zget (ns ++ [tT]) range = Some tT).
  { rewrite zget_app_r by lia. by rewrite Hnsl, Z.sub_diag. }
  pose proof (assigns_bound _ _ _ _ Pnums HtT) as HtTb.
  assert (HtP' : zget (ns ++ [tT]) (range - 1) = Some tP) by (by rewrite zget_app_l by lia).
  pose proof (assigns_bound _ _ _ _ Pnums HtP') as HtPb.
  assert (Hcount : counts (zset (zset T tT x1) tP x2) (tT :: ns) (dT :: ds) ≡ₚ
    counts T (ns ++ [tT]) (ds ++ [dT])).
  { rewrite (same_runs_counts T) by done. unfold counts.
    rewrite zip_with_snoc by (unfold zlen in *; lia). cbn. by rewrite Permutation_cons_append. }
  split; try done.
  - by repeat apply Forall_zset.
  - repeat apply Forall_zset; [done|by rewrite Ha1, Hr1|by rewrite Ha2, Ho2].
  - by rewrite !zlen_zset.
  - unfold assigns in *. by rewrite <- Pnums, <- Permutation_cons_append.
  - rewrite zlen_app in Pdlen. rewrite zlen_cons. change (zlen [dT]) with 1 in Pdlen. lia.
  - apply Forall_app in Pdpos as [? Hd]. inversion Hd; subst. by constructor.
  - intros k t Ht. rewrite !tget_zset by (rewrite ?zlen_zset; lia).
    change (tT :: ns) with ([tT] ++ ns) in Ht. pose proof (zget_bounds _ _ _ Ht) as Hk.
    destruct (Z.eq_dec k 0) as [-> | Hk0].
    + injection Ht as <-. destruct (Z.eqb_spec tP tT); [done|]. rewrite Z.eqb_refl, Hr1.
      symmetry. apply Z.ltb_lt. lia.
    + rewrite zget_app_r in Ht by (change (zlen [tT]) with 1; lia). change (zlen [tT]) with 1 in Ht.
      pose proof (zget_bounds _ _ _ Ht) as Hk1.
      assert (Ht' : zget (ns ++ [tT]) (k - 1) = Some t) by (by rewrite zget_app_l by lia).
      destruct (Z.eqb_spec tP t) as [<-|HtPn].
      * pose proof (assigns_inj _ _ _ _ _ Pnums Ht' HtP'). rewrite Hr2. symmetry. apply Z.ltb_ge. lia.
      * destruct (Z.eqb_spec tT t) as [<-|_]; [pose proof (assigns_inj _ _ _ _ _ Pnums Ht' HtT); lia|].
        rewrite (Pread _ _ Ht'). destruct (Z.eq_dec k range) as [->|]; [congruence|].
        rewrite (proj2 (Z.ltb_lt _ _)) by lia. symmetry. apply Z.ltb_lt. lia.
  - intros v Hv. rewrite Hcount in Hv. by apply Psmall.
Qed.

(** Rewinding and exchanging units: the output becomes unit 0, the used-up
    last input the output. *)
Lemma exchange_ok (k : Tuplesortstate -> res (Tuplesortstate * bool)) T nums dum a m c x :
  poly s T nums dum -> counts T nums dum = c ++ [x] -> zget c (range - 1) = Some 0 ->
  exists T' nums' dum',
    (do! tT <- aget nums range ;;
     do! s1 <- upd_tapes (pst s nums dum a T m 0) (fun lts => LogicalTapeRewindForRead lts tT) ;;
     do! tP <- aget (tp_tapenum s1) (tapeRange s1 - 1) ;;
     do! s1 <- upd_tapes s1 (fun lts => LogicalTapeRewindForWrite lts tP) ;;
     do! runs <- aset (tp_runs s1) (tapeRange s1 - 1) 0 ;;
     do! runs <- rotate_units runs (tapeRange s1) ;;
     do! nums <- rotate_units (tp_tapenum s1) (tapeRange s1) ;;
     do! dummy <- rotate_units (tp_dummy s1) (tapeRange s1) ;;
     k (set_tp_dummy dummy (set_tp_runs runs (set_tp_tapenum nums s1)))) =
    k (pst s nums' dum' a T' m 0) /\
    poly s T' nums' dum' /\ counts T' nums' dum' = x :: c /\ same_runs T T'.
Proof.
  intros Hp Hc Hlast. poly_facts Hp.
  pose proof (assigns_len nums (range + 1) ltac:(lia) Pnums) as Hnl.
  destruct (units_snoc range nums) as (ns & tT & Hns & Hnsl); [lia..|].
  destruct (units_snoc range dum) as (ds & dT & Hds & Hdsl); [lia..|].
  assert (HtT : zget nums range = Some tT).
  { rewrite Hns, zget_app_r by lia. by rewrite Hnsl, Z.sub_diag. }
  destruct (poly_unit s T nums dum (range - 1) Hp) as (tP & dP & HtP & HdP & HdP0 & HtPb & HcP); [lia|].
  assert (HtPr : mt_runs (tget T tP) = [] /\ dP = 0).
  { rewrite Hc, zget_app_l in HcP.
    - rewrite Hlast in HcP. injection HcP as HcP. pose proof (zlen_nonneg (mt_runs (tget T tP))).
      split; [apply zlen_0_inv; lia|lia].
    - apply zget_bounds in Hlast. lia. }
  destruct HtPr as [HtPr ->].
  assert (Hne : tP <> tT).
  { intros ->. pose proof (assigns_inj _ _ _ _ _ Pnums HtT HtP). lia. }
  pose proof (assigns_bound _ _ _ _ Pnums HtT) as HtTb. rewrite <- Plen in HtTb.
  destruct (rewind_output T nums dum a m tT Hp HtT) as (x1 & Hrw1 & Hok1 & Hr1 & Ha1 & Hru1).
  set (T1 := zset T tT x1) in *.
  assert (HP1 : zget T1 tP = Some (tget T tP)).
  { unfold T1. rewrite zget_zset_ne by done. by apply tget_zget. }
  destruct (rewind_input T1 nums dum a m tP (tget T tP) HP1) as (x2 & Hrw2 & Hok2 & Hr2 & Ha2 & Hru2 & Ho2).
  { by apply (Forall_zget _ _ _ _ Ptapes (tget_zget T tP HtPb)). }
  { rewrite (Pread _ _ HtP). apply Z.ltb_lt. lia. }
  { by apply (Forall_zget _ _ _ _ Pidle (tget_zget T tP HtPb)). }
  { done. }
  set (T2 := zset T1 tP x2) in *.
  assert (Hsame : same_runs T T2).
  { apply same_runs_trans with T1.
    - apply same_runs_set with (tget T tT); [by apply tget_zget|done].
    - apply same_runs_set with (tget T tP); [done|by rewrite Hru2]. }
  assert (Hl2 : zlen T2 = range + 1) by (destruct Hsame; lia).
  exists T2, (tT :: ns), (dT :: ds). rewrite (aget_Ok _ _ _ HtT), rbind_ret, Hrw1, rbind_ret.
  pst_simpl. rewrite (aget_Ok _ _ _ HtP), rbind_ret, Hrw2, rbind_ret. pst_simpl.
  rewrite aset_Ok by (unfold runs_of; rewrite zlen_fmap; lia). rewrite rbind_ret.
  assert (Hz : zset (runs_of T2 nums) (range - 1) 0 = runs_of T2 nums).
  { apply zset_id. unfold runs_of. rewrite zget_fmap, HtP. cbn. destruct Hsame as [_ ->].
    by rewrite HtPr. }
  rewrite Hz, Hns, Hds. unfold runs_of at 1. rewrite fmap_app. cbn [fmap list_fmap].
  rewrite (rotate_units_ok range) by (rewrite ?zlen_fmap; lia). rewrite rbind_ret.
  rewrite (rotate_units_ok range ns) by lia. rewrite rbind_ret.
  rewrite (rotate_units_ok range ds) by lia. rewrite rbind_ret.
  split; [f_equal; by apply set_units_pst|].
  assert (Hsplit : counts T nums dum = zip_with (fun t d => zlen (mt_runs (tget T t)) + d) ns ds ++
    [zlen (mt_runs (tget T tT)) + dT]).
  { rewrite Hns, Hds. unfold counts.
    rewrite (zip_with_snoc (fun t d => zlen (mt_runs (tget T t)) + d)); [done|unfold zlen in *; lia]. }
  rewrite Hc in Hsplit. apply app_inj_tail in Hsplit as [-> ->].
  split; [|split; [|done]].
  - apply exchange_poly; try done.
    + by rewrite <- Hns, <- Hds.
    + by rewrite Hns, zget_app_l in HtP by lia.
  - rewrite (same_runs_counts T) by done. done.
Qed.
End exchange.

(** ** The loop of [mergeruns] *)

Lemma pst_Level s nums dum a T m n : Level (pst s nums dum a T m n) = Level s.
Proof. reflexivity. Qed.

Lemma pst_set_Level s nums dum a T m n l :
  set_Level l (pst s nums dum a T m n) = pst (set_Level l s) nums dum a T m n.
Proof. reflexivity. Qed.

Lemma pst_ra s nums dum a T m n : randomAccess (pst s nums dum a T m n) = randomAccess s.
Proof. reflexivity. Qed.

#[export] Hint Rewrite pst_Level pst_set_Level pst_ra : pstdb.

(** The level is not part of the merge invariants. *)
Lemma poly_level s T nums dum l : poly (set_Level l s) T nums dum <-> poly s T nums dum.
Proof. split; intros H; poly_facts H; by split. Qed.

Lemma base_level s l : base_ok s -> base_ok (set_Level l s).
Proof. intros [Hk Hf Hs]. by split. Qed.

Lemma allOneRun_ok fuel s nums dum a T m j :
  poly s T nums dum -> 0 <= j <= tapeRange s -> (Z.to_nat (tapeRange s - j) < fuel)%nat ->
  exists b, allOneRun fuel (pst s nums dum a T m 0) j = Ok b /\
    (b = true <-> forall k v, j <= k < tapeRange s -> zget (counts T nums dum) k = Some v -> v = 1).
Proof.
  intros Hp. poly_facts Hp. revert j. induction fuel as [|fuel IH]; intros j Hj Hf; [lia|].
  cbn [allOneRun]. pst_simpl. destruct (Z.ltb_spec j (tapeRange s)) as [Hlt|Hge].
  2:{ exists true. split; [done|]. split; [|done]. intros _ k v Hk. lia. }
  destruct (poly_unit s T nums dum j Hp) as (t & d & Ht & Hd & Hd0 & _ & Hc); [lia|].
  rewrite (aget_Ok (runs_of T nums) j (zlen (mt_runs (tget T t))))
    by (unfold runs_of; by rewrite zget_fmap, Ht).
  rewrite rbind_ret, (aget_Ok _ _ _ Hd), rbind_ret.
  pose proof (Psmall _ (zget_elem _ _ _ Hc)). pose proof (zlen_nonneg (mt_runs (tget T t))).
  rewrite int32_id by (unfold is_int32, INT_MIN, INT_MAX in *; lia).
  destruct (Z.eqb_spec (zlen (mt_runs (tget T t)) + d) 1) as [H1|H1]; cbn [negb].
  - destruct (IH (j + 1)) as (b & -> & Hb); [lia|lia|]. exists b. split; [done|]. rewrite Hb. split.
    + intros Hall k v Hk Hv. destruct (Z.eq_dec k j) as [->|]; [congruence|]. apply (Hall k); [lia|done].
    + intros Hall k v Hk. apply Hall. lia.
  - exists false. split; [done|]. split; [done|]. intros Hall. by destruct H1; apply (Hall j); [lia|].
Qed.

(** The final merge can be done while the result is read. *)
Definition merging_state (s st : Tuplesortstate) (rows : list MinimalTuple) : Prop :=
  exists l nums dum a T m n L, st = set_status TSS_FINALMERGE (pst (set_Level l s) nums dum a T m n) /\
    zlen T = maxTapes s /\ randomAccess s = false /\
    minv s L T m n (zlen T) /\ heap_rows m n ++ left_rows T ≡ₚ rows.

(** One run is left, on the output tape. *)
Definition single_run_state (s st : Tuplesortstate) (rows : list MinimalTuple) : Prop :=
  exists nums dum a T m d y r, st = pst (set_Level 0 s) nums dum a T m 0 /\
    poly s T nums dum /\ zget nums (tapeRange s) = Some d /\ zget T d = Some y /\
    mt_runs y = [r] /\ r ≡ₚ rows.

(** With one real or dummy run on every input, everything is merged at once. *)
Lemma all_one_rows s T nums dum T1 dum' :
  poly s T nums dum -> marked s 0 T nums dum T1 dum' ->
  (forall k v, 0 <= k < tapeRange s -> zget (counts T nums dum) k = Some v -> v = 1) ->
  zget (counts T nums dum) (tapeRange s) = Some 0 -> all_rows T1 = [].
Proof.
  intros Hp Hm Hall Hlast. unfold all_rows. apply concat_nil_Forall, Forall_fmap, Forall_of_zget.
  intros t x Hx. cbn. pose proof (zget_bounds _ _ _ Hx) as Ht. pose proof (mk_len _ _ _ _ _ _ _ Hm).
  destruct (marked_bounds s T nums dum T1 dum' t Hp Hm) as (k & d & Hk & Hn & Hd & Hd0 & _ & Hg'); [lia|].
  rewrite Hx in Hg'. injection Hg' as ->.
  destruct (poly_unit s T nums dum k Hp) as (t' & d' & Hn' & Hd' & _ & _ & Hc); [lia|].
  assert (t' = t) as -> by congruence. assert (d' = d) as -> by congruence.
  pose proof (zlen_nonneg (mt_runs (tget T t))) as Hz.
  destruct (Z.eq_dec k (tapeRange s)) as [->|Hne].
  - unfold chosen. rewrite Z.ltb_irrefl, andb_false_r. cbn.
    rewrite Hlast in Hc. injection Hc as Hc. by rewrite (zlen_0_inv (mt_runs (tget T t))) by lia.
  - specialize (Hall k _ ltac:(lia) Hc). unfold chosen.
    destruct (Z.leb_spec 0 k), (Z.ltb_spec k (tapeRange s)); try lia. cbn [andb].
    destruct (Z.eqb_spec d 0) as [-> | Hd1].
    + cbn. destruct (mt_runs (tget T t)) as [|r rs]; [done|]. rewrite zlen_cons in Hall.
      cbn. by rewrite (zlen_0_inv rs) by lia.
    + by rewrite (zlen_0_inv (mt_runs (tget T t))) by lia.
Qed.

(** Beginning the final merge. *)
Lemma final_merge_ok s nums dum a T m :
  base_ok s -> poly s T nums dum -> randomAccess s = false ->
  zlen (zeros s dum) <= zlen m <= INT_MAX ->
  (forall k v, 0 <= k < tapeRange s -> zget (counts T nums dum) k = Some v -> v = 1) ->
  zget (counts T nums dum) (tapeRange s) = Some 0 ->
  exists st, beginmerge (pst s nums dum a T m 0) = Ok st /\
    merging_state s (set_status TSS_FINALMERGE st) (all_rows T).
Proof.
  intros Hb Hp Hra Hcap Hall Hlast. poly_facts Hp.
  assert (Hne : nonempty_units s T nums dum).
  { intros k v Hk Hv. rewrite (Hall k v Hk Hv). lia. }
  destruct (beginmerge_ok s Hb T nums dum a m Hp Hne Hcap)
    as (T1 & dum' & T' & m' & n' & a' & Hbm & Hm & Hinv & Hs & Hrows & Hl).
  eexists. split; [exact Hbm|].
  destruct (marked_tapes s T nums dum T1 dum' Hp Hne Hm) as (_ & Hr & _).
  rewrite (all_one_rows s T nums dum T1 dum' Hp Hm Hall Hlast), app_nil_r in Hr.
  exists (Level s), nums, dum', a', T', m', n', (chosen_tapes s nums dum).
  split; [by destruct s|]. split.
  { destruct Hs as [-> _]. rewrite (mk_len _ _ _ _ _ _ _ Hm). lia. }
  do 2 (split; [done|]). by rewrite Hr.
Qed.

(** The counts before and after a pass, in terms of the next level. *)
Record level_counts (s : Tuplesortstate) T nums dum (q : Z) (tl : list Z) : Prop := {
  lc_counts : counts T nums dum = ((fun x => q + x) <$> tl) ++ [0];
  lc_len : zlen tl = tapeRange s;
  lc_pos : Forall (fun x => 0 <= x) tl;
  lc_last : zget tl (tapeRange s - 1) = Some 0;
  lc_q : 1 <= q
}.

Lemma level_counts_get s T nums dum q tl :
  1 <= tapeRange s -> level_counts s T nums dum q tl ->
  zget (counts T nums dum) (tapeRange s) = Some 0 /\
  zget (counts T nums dum) (tapeRange s - 1) = Some q /\
  forall k v, 0 <= k < tapeRange s -> zget (counts T nums dum) k = Some v ->
    exists w, zget tl k = Some w /\ v = q + w /\ 0 <= w.
Proof.
  intros Hr []. rewrite lc_counts0. split; [|split].
  - rewrite zget_app_r by (rewrite zlen_fmap; lia). by rewrite zlen_fmap, lc_len0, Z.sub_diag.
  - rewrite zget_app_l by (rewrite zlen_fmap; lia). rewrite zget_fmap, lc_last0. cbn. f_equal. lia.
  - intros k v Hk. rewrite zget_app_l by (rewrite zlen_fmap; lia). rewrite zget_fmap.
    destruct (zget tl k) as [w|] eqn:Hw; [|done]. intros [= <-]. exists w.
    split; [done|]. split; [done|]. by apply (Forall_zget _ _ _ _ lc_pos0 Hw).
Qed.

(** After the pass the counts are the next level's, not yet rotated. *)
Lemma level_counted s T nums dum q tl T' dum' :
  poly s T nums dum -> poly s T' nums dum' -> level_counts s T nums dum q tl ->
  counted s q (counts T nums dum) (counts T' nums dum') -> counts T' nums dum' = tl ++ [q].
Proof.
  intros Hp Hp' Hlc Hc. pose proof Hlc as []. pose proof (po_range _ _ _ _ Hp) as Hr.
  destruct (level_counts_get s T nums dum q tl Hr Hlc) as (Hlast & _ & Hin).
  pose proof (counts_len s T' nums dum' Hp') as Hl'.
  apply zlist_eq. intros k Hk. destruct (Z.lt_ge_cases k (tapeRange s)) as [Hlt|Hge].
  - destruct (poly_unit s T nums dum k Hp) as (t & d & _ & _ & _ & _ & Hck); [lia|].
    rewrite (Hc k _ ltac:(lia) Hck), zget_app_l by lia.
    destruct (Hin k _ ltac:(lia) Hck) as (w & -> & -> & _).
    destruct (Z.ltb_spec k (tapeRange s)); [f_equal; lia|lia].
  - destruct (Z.eq_dec k (tapeRange s)) as [->|].
    + rewrite (Hc (tapeRange s) _ ltac:(lia) Hlast), Z.ltb_irrefl, zget_app_r by lia.
      by rewrite lc_len0, Z.sub_diag.
    + rewrite !zget_None; [done| |lia]. rewrite zlen_app. change (zlen [q]) with 1. lia.
Qed.

Lemma fibv_level s T nums dum L :
  1 <= tapeRange s -> counts T nums dum = fibv (Z.to_nat (tapeRange s)) (S L) ->
  exists q tl, fibv (Z.to_nat (tapeRange s)) L = q :: tl /\ level_counts s T nums dum q tl.
Proof.
  intros Hr Hc. destruct (fibv_shape (Z.to_nat (tapeRange s)) L) as (q & tl & Hf & Hl & Hq & Hpos & Hlast);
    [lia|]. exists q, tl. split; [done|]. cbn in Hc. rewrite Hf in Hc. split; try done.
  - unfold zlen. lia.
  - by replace (Z.of_nat (Z.to_nat (tapeRange s)) - 1) with (tapeRange s - 1) in Hlast by lia.
Qed.

(** At level 0 only the output holds anything. *)
Lemma last_level s T nums dum :
  poly s T nums dum -> has_run T -> counts T nums dum = replicate (Z.to_nat (tapeRange s)) 0 ++ [1] ->
  exists d y r, zget nums (tapeRange s) = Some d /\ zget T d = Some y /\ mt_runs y = [r] /\
    r ≡ₚ all_rows T.
Proof.
  intros Hp (t0 & x0 & Hx0 & Hrun) Hc. poly_facts Hp.
  assert (Hzl : zlen (replicate (Z.to_nat (tapeRange s)) 0) = tapeRange s).
  { unfold zlen. rewrite length_replicate. lia. }
  assert (Hempty : forall k t d, 0 <= k < tapeRange s -> zget nums k = Some t -> zget dum k = Some d ->
    mt_runs (tget T t) = []).
  { intros k t d Hk Ht Hd. destruct (poly_unit s T nums dum k Hp) as (t' & d' & Ht' & Hd' & Hd0 & _ & Hck);
      [lia|]. assert (t' = t) as -> by congruence.
    rewrite Hc, zget_app_l in Hck by lia. unfold zget in Hck. destruct (Z.leb_spec 0 k); [|lia].
    rewrite lookup_replicate_2 in Hck by lia. injection Hck as Hck.
    pose proof (zlen_nonneg (mt_runs (tget T t))). apply zlen_0_inv. lia. }
  destruct (poly_unit s T nums dum (tapeRange s) Hp) as (d & e & Hd & He & He0 & Hdb & Hck); [lia|].
  rewrite Hc, zget_app_r, Hzl, Z.sub_diag in Hck by lia. injection Hck as Hck.
  assert (Hother : forall t x, t <> d -> zget T t = Some x -> mt_runs x = []).
  { intros t x Htd Hx. destruct (poly_tape s T nums dum t x Hp Hx) as (k & f & Hk & Hn & Hf & _ & <-).
    apply (Hempty k t f); [|done..]. destruct (Z.eq_dec k (tapeRange s)) as [->|]; [congruence|lia]. }
  assert (Ht0 : t0 = d).
  { destruct (Z.eq_dec t0 d); [done|]. by rewrite (Hother t0 x0) in Hrun. }
  subst t0. rewrite (tget_Some _ _ _ Hx0) in Hck. destruct (mt_runs x0) as [|r rs] eqn:Hr; [done|].
  rewrite zlen_cons in Hck. pose proof (zlen_nonneg rs).
  exists d, x0, r. do 2 (split; [done|]). rewrite Hr, (zlen_0_inv rs) by lia. split; [done|].
  unfold all_rows.
  rewrite <- (app_nil_l (concat _)). rewrite <- (concat_zset _ d (concat (mt_runs x0)) []).
  - rewrite Hr, (zlen_0_inv rs) by lia. cbn. rewrite app_nil_r.
    assert (Hnil : concat (zset ((fun x => concat (mt_runs x)) <$> T) d []) = []).
    { apply concat_nil_Forall, Forall_of_zget. intros t l. rewrite zget_zset by (by rewrite zlen_fmap).
      destruct (Z.eqb_spec d t); [by intros [= <-]|]. rewrite zget_fmap.
      destruct (zget T t) as [x|] eqn:Hx; [|done]. intros [= <-]. by rewrite (Hother t x). }
    by rewrite Hnil, app_nil_r.
  - by rewrite zget_fmap, Hx0.
Qed.

(** Whether the last merge is left to the fetches: only if one run is left on
    every input. *)
Lemma fly_decision s nums dum a T m :
  poly s T nums dum ->
  exists b, (if negb (randomAccess s) then
      allOneRun (S (Z.to_nat (tapeRange s))) (pst s nums dum a T m 0) 0 else Ok false) = Ok b /\
    (b = true -> randomAccess s = false /\
       forall k v, 0 <= k < tapeRange s -> zget (counts T nums dum) k = Some v -> v = 1).
Proof.
  intros Hp. poly_facts Hp. destruct (randomAccess s); [by exists false|]. cbn [negb].
  destruct (allOneRun_ok (S (Z.to_nat (tapeRange s))) s nums dum a T m 0 Hp) as (one & Hone & Hb1); [lia|lia|].
  exists one. split; [done|]. intros ->. split; [done|]. by apply Hb1.
Qed.

(** The outcome does not depend on the level the merge started from. *)
Lemma merged_level s l (fly : bool) st rows rows' :
  rows ≡ₚ rows' ->
  (if fly then merging_state (set_Level l s) st rows else single_run_state (set_Level l s) st rows) ->
  if fly then merging_state s st rows' else single_run_state s st rows'.
Proof.
  intros Hrr Hst. destruct fly.
  - destruct Hst as (l' & n2 & d2 & a2 & U & m2 & k2 & L2 & -> & HU & Hra & Hinv & Hrows).
    exists l', n2, d2, a2, U, m2, k2, L2. do 3 (split; [done|]).
    split; [destruct Hinv; by split|]. by rewrite Hrows.
  - destruct Hst as (n2 & d2 & a2 & U & m2 & dd & y & r & -> & HpU & Hd2 & Hy & Hyr & Hrows).
    exists n2, d2, a2, U, m2, dd, y, r. split; [done|].
    split; [exact (proj1 (poly_level _ _ _ _ _) HpU)|]. do 3 (split; [done|]). by rewrite Hrows.
Qed.

Lemma mergeruns_loop_ok fuel s nums dum a T m L :
  base_ok s -> poly s T nums dum -> has_run T ->
  Level s = Z.of_nat (S L) -> Level s <= INT_MAX ->
  counts T nums dum = fibv (Z.to_nat (tapeRange s)) (S L) ->
  zlen m <= INT_MAX -> tapeRange s <= zlen m \/ (L = O /\ zlen (zeros s dum) <= zlen m) ->
  (S L < fuel)%nat ->
  exists st fly, mergeruns_loop fuel (pst s nums dum a T m 0) = Ok (st, fly) /\
    if (fly : bool) then merging_state s st (all_rows T) else single_run_state s st (all_rows T).
Proof.
  revert s nums dum a T m L. induction fuel as [|fuel IH];
    intros s nums dum a T m L Hb Hp Hrun HL HLmax Hcnt Hm Hroom Hf; [lia|].
  poly_facts Hp. cbn [mergeruns_loop]. cbv zeta. pst_simpl.
  destruct (fibv_level s T nums dum L Prange Hcnt) as (q & tl & Hfib & Hlc).
  destruct (level_counts_get s T nums dum q tl Prange Hlc) as (Hlast & Hq & Hge).
  destruct (fly_decision s nums dum a T m Hp) as (b & -> & Hbone). rewrite rbind_ret. destruct b.
  { destruct (Hbone eq_refl) as [Hra Hall]. pose proof (zeros_le s dum).
    rewrite (forget_tapes _ (tapes_of T)), rbind_ret by done.
    destruct (final_merge_ok s nums dum a T m Hb Hp Hra) as (st & -> & Hst); [lia|done|done|].
    by exists (set_status TSS_FINALMERGE st), true. }
  destruct (poly_unit s T nums dum (tapeRange s - 1) Hp) as (t & d & Ht & Hd & Hd0 & _ & Hck); [lia|].
  rewrite (aget_Ok (runs_of T nums) (tapeRange s - 1) (zlen (mt_runs (tget T t))))
    by (unfold runs_of; by rewrite zget_fmap, Ht).
  rewrite rbind_ret, (aget_Ok _ _ _ Hd), rbind_ret.
  assert (Hqe : zlen (mt_runs (tget T t)) + d = q) by congruence. rewrite Hqe.
  destruct (merge_until_empty_ok s Hb (S (Z.to_nat q)) T nums dum a m q 0)
    as (T1 & dum1 & a1 & m1 & -> & Hp1 & Hc1 & Hr1 & Hrun1 & Hl1); try done.
  { lia. }
  { intros k v Hk Hv. destruct (Hge k v Hk Hv) as (w & _ & -> & Hw). lia. }
  { pose proof (Psmall q (zget_elem _ _ _ Hq)). lia. }
  { split; [done|]. intros _. destruct Hroom as [? | [-> Hz]]; [by left|right].
    cbn in Hfib. injection Hfib as <- _. done. }
  rewrite rbind_ret. pose proof (level_counted s T nums dum q tl T1 dum1 Hp Hp1 Hlc Hc1) as Hc1'.
  pst_simpl. rewrite HL. rewrite int32_id by (unfold is_int32, INT_MIN, INT_MAX in *; lia).
  replace (Z.of_nat (S L) - 1) with (Z.of_nat L) by lia.
  destruct L as [|L].
  - cbn [Z.of_nat Z.eqb]. cbn in Hfib. injection Hfib as <- <-.
    destruct (last_level s T1 nums dum1 Hp1 Hrun1 Hc1') as (dd & y & r & Hdd & Hy & Hyr & Hrr).
    exists (pst (set_Level 0 s) nums dum1 a1 T1 m1 0), false. split; [done|].
    exists nums, dum1, a1, T1, m1, dd, y, r. do 5 (split; [done|]). by rewrite Hrr.
  - destruct (Z.eqb_spec (Z.of_nat (S L)) 0); [lia|].
    set (s1 := set_Level (Z.of_nat (S L)) s).
    destruct (exchange_ok s1 (mergeruns_loop fuel) T1 nums dum1 a1 m1 tl q)
      as (T2 & nums2 & dum2 & -> & Hp2 & Hc2 & Hs2).
    { by apply poly_level. }
    { done. }
    { apply (lc_last _ _ _ _ _ _ Hlc). }
    destruct (IH s1 nums2 dum2 a1 T2 m1 L) as (st & fly & -> & Hst); try done.
    + by apply base_level.
    + by apply (same_runs_has T1).
    + unfold s1. cbn. lia.
    + by rewrite Hc2, <- Hfib.
    + lia.
    + left. destruct Hroom as [? | [? _]]; [|done]. rewrite Hl1. done.
    + lia.
    + exists st, fly. split; [done|]. rewrite (same_runs_rows T1 T2 Hs2) in Hst.
      by apply (merged_level s (Z.of_nat (S L)) fly st (all_rows T1)).
Qed.
