(* ===== verification/ExternalMerge.v ===== *)
(** * [mergeruns] from the runs on tape to a readable result

    What [mergeruns] needs of the runs built before it ([built]), and what it
    leaves: a heap from which the final merge is read ([merging]), or one
    sorted run on a frozen tape ([on_tape]). *)

From Stdlib Require Import ZArith Lia.
From stdpp Require Import base list sorting strings.
From S2P Require Import Prelude HeapTheory SortSupport TuplesortHeap LogTape TuplesortState Tuplesort TapeRuns TuplesortMem RunMerge Polyphase MergeRuns.

Local Open Scope Z_scope.

(** A tape that runs are being written to. *)
Definition write_tape (s : Tuplesortstate) (x : mtape) : Prop :=
  mtape_ok s x /\ mt_read x = false /\ mt_act x = false /\ mt_out x = [].

Definition units (s : Tuplesortstate) : list Z := seqZ 0 (tapeRange s + 1).

(** All runs are on the tapes of the input units. *)
Record built (s : Tuplesortstate) (T : list mtape) (L : nat) : Prop := {
  bu_keys : keys_wf (sortKeys s);
  bu_tapes : tapeset s = Some (tapes_of T);
  bu_acts : mergeactive s = acts_of T;
  bu_nums : tp_tapenum s = units s;
  bu_runs : tp_runs s = runs_of T (units s);
  bu_count : memtupcount s = 0;
  bu_write : Forall (write_tape s) T;
  bu_len : zlen T = tapeRange s + 1;
  bu_max : maxTapes s = tapeRange s + 1;
  bu_range : 1 <= tapeRange s <= INT_MAX;
  bu_dlen : zlen (tp_dummy s) = tapeRange s + 1;
  bu_dpos : Forall (fun d => 0 <= d) (tp_dummy s);
  bu_level : Level s = Z.of_nat (S L) /\ Level s <= INT_MAX;
  bu_counts : counts T (units s) (tp_dummy s) = fibv (Z.to_nat (tapeRange s)) (S L);
  bu_small : forall c, c ∈ counts T (units s) (tp_dummy s) -> c <= INT_MAX;
  bu_run : has_run T;
  bu_cur : 1 <= currentRun s <= INT_MAX;
  bu_zeros : zlen (zeros s (tp_dummy s)) <= currentRun s
}.

(** The result is read off a heap of tape heads. *)
Definition merging (s : Tuplesortstate) (rows : list MinimalTuple) : Prop :=
  status s = TSS_FINALMERGE /\ base_ok s /\
  exists T m n L, s = mst s T m n /\ minv s L T m n (zlen T) /\ heap_rows m n ++ left_rows T ≡ₚ rows.

(** The result is one run on the frozen result tape. *)
Record on_tape (s : Tuplesortstate) (out : list MinimalTuple) : Prop := {
  ot_status : status s = TSS_SORTEDONTAPE;
  ot_keys : keys_wf (sortKeys s);
  ot_tape : exists lts lt, tapeset s = Some lts /\ zget lts (result_tape s) = Some lt /\
    frozen lt = true /\ reads lt (enc_run (randomAccess s) out) /\
    cells lt = enc_run (randomAccess s) out;
  ot_run : run_ok s out
}.

(** ** Rewinding the inputs *)

Lemma pst_id s nums dum T :
  tapeset s = Some (tapes_of T) -> mergeactive s = acts_of T -> tp_tapenum s = nums ->
  tp_dummy s = dum -> tp_runs s = runs_of T nums ->
  s = pst s nums dum (activeTapes s) T (memtuples s) (memtupcount s).
Proof. destruct s; cbn. intros -> -> -> -> ->. done. Qed.

Definition rewound_tape (s : Tuplesortstate) (x : mtape) : Prop :=
  mtape_ok s x /\ mt_read x = true /\ mt_act x = false.

Lemma rewind_one s nums dum a T m t x :
  zget T t = Some x -> write_tape s x ->
  exists x', upd_tapes (pst s nums dum a T m 0) (fun lts => LogicalTapeRewindForRead lts t) =
      Ok (pst s nums dum a (zset T t x') m 0) /\ rewound_tape s x' /\ mt_runs x' = mt_runs x.
Proof.
  intros Hx ((Hrem & Hruns & Hok) & Hr & Ha & Ho). rewrite Hr in Hok.
  destruct Hok as (_ & Hnil & Hh). rewrite Ho, app_nil_r in Hh.
  assert (Hlt : zget (tapes_of T) t = Some (mt_lt x)) by (unfold tapes_of; by rewrite zget_fmap, Hx).
  destruct (LogicalTapeRewindForRead_ok (tapes_of T) t (mt_lt x) _ Hlt Hh) as (lt & Hrw & Hrd & Hf).
  exists (mk_mt lt true false [] (mt_runs x) []). split; [|split; [|done]].
  - by apply upd_tapes_pst with lt x.
  - split; [|done]. split; [by repeat constructor|]. split; [done|]. cbn. done.
Qed.

Lemma rewind_all_ok fuel s nums dum a T m j :
  0 <= j <= tapeRange s -> tapeRange s < zlen T -> (Z.to_nat (tapeRange s - j) < fuel)%nat ->
  (forall t x, j <= t -> zget T t = Some x -> write_tape s x) ->
  exists T', rewind_all fuel (pst s nums dum a T m 0) j = Ok (pst s nums dum a T' m 0) /\
    same_runs T T' /\
    forall t x, zget T t = Some x -> exists x', zget T' t = Some x' /\
      if (j <=? t) && (t <? tapeRange s) then rewound_tape s x' else x' = x.
Proof.
  revert T j. induction fuel as [|fuel IH]; intros T j Hj Hr Hf Hw; [lia|].
  cbn [rewind_all]. pst_simpl. destruct (Z.ltb_spec j (tapeRange s)) as [Hlt|Hge].
  2:{ exists T. split; [done|]. split; [by split|]. intros t x Hx. exists x. split; [done|].
      by destruct (Z.leb_spec j t), (Z.ltb_spec t (tapeRange s)); cbn [andb]; try lia. }
  destruct (zget_is_Some T j) as [x Hx]; [lia|].
  destruct (rewind_one s nums dum a T m j x Hx) as (x' & -> & Hrw & Hru); [by apply (Hw j)|].
  rewrite rbind_ret. pose proof (zget_bounds _ _ _ Hx).
  destruct (IH (zset T j x') (j + 1)) as (T' & -> & Hs & Hg).
  { lia. } { rewrite zlen_zset. lia. } { lia. }
  { intros t y Ht. rewrite zget_zset_ne by lia. apply Hw. lia. }
  exists T'. split; [done|].
  split; [apply same_runs_trans with (zset T j x'); [by apply same_runs_set with x|done]|].
  intros t y Hy. destruct (Z.eq_dec j t) as [<-|Hne].
  - destruct (Hg j x') as (z & Hz & Hif); [by apply zget_zset_eq|]. exists z. split; [done|].
    destruct (Z.leb_spec (j + 1) j), (Z.leb_spec j j), (Z.ltb_spec j (tapeRange s)); try lia.
    cbn [andb] in *. by subst z.
  - destruct (Hg t y) as (z & Hz & Hif); [by rewrite zget_zset_ne|]. exists z. split; [done|].
    by destruct (Z.leb_spec (j + 1) t), (Z.leb_spec j t); try lia.
Qed.

Lemma units_get s k t : zget (units s) k = Some t -> t = k /\ 0 <= k <= tapeRange s.
Proof.
  unfold units, zget. destruct (Z.leb_spec 0 k); [|done]. intros Ht.
  apply lookup_seqZ in Ht as [-> Hk]. lia.
Qed.

(** The units once the inputs are rewound. *)
Lemma rewound_poly s T T' L :
  built s T L -> same_runs T T' ->
  (forall t x, zget T t = Some x -> exists x', zget T' t = Some x' /\
     if (0 <=? t) && (t <? tapeRange s) then rewound_tape s x' else x' = x) ->
  poly s T' (units s) (tp_dummy s).
Proof.
  intros [] Hs Hg. pose proof Hs as [Hl _].
  assert (Hat : forall t x', zget T' t = Some x' ->
    if t <? tapeRange s then rewound_tape s x' else write_tape s x').
  { intros t x' Hx'. pose proof (zget_bounds _ _ _ Hx') as Hb. rewrite Hl in Hb.
    destruct (zget_is_Some T t Hb) as [x Hx]. destruct (Hg t x Hx) as (y & Hy & Hif).
    assert (y = x') as -> by congruence. destruct (Z.leb_spec 0 t); [|lia]. cbn [andb] in Hif.
    destruct (t <? tapeRange s); [done|]. subst x'. by apply (Forall_zget _ _ _ _ bu_write0 Hx). }
  split; try done; try lia.
  - apply Forall_of_zget. intros t x Hx. specialize (Hat t x Hx).
    destruct (t <? tapeRange s); apply Hat.
  - apply Forall_of_zget. intros t x Hx. specialize (Hat t x Hx).
    destruct (t <? tapeRange s); [|by destruct Hat as (_ & _ & ? & ?)].
    destruct Hat as (_ & Hr & ?). split; [done|]. congruence.
  - unfold assigns, units. done.
  - intros k t Ht. destruct (units_get s k t Ht) as [-> Hk].
    rewrite <- (Hl) in bu_len0. pose proof (tget_zget T' k ltac:(lia)) as Hx. specialize (Hat k _ Hx).
    destruct (k <? tapeRange s); apply Hat.
  - intros c. rewrite (same_runs_counts T T') by done. apply bu_small0.
Qed.

(** ** Preparing the merge *)

Lemma setup_fields s :
  let s1 := mergeruns_setup s in
  let n := if Level s =? 1 then currentRun s else tapeRange s in
  s1 = set_sortKeys (sortKeys s1) (set_availMem (availMem s1) (set_slabAllocatorUsed true
    (set_memtupsize n (set_memtuples (palloc_memtuples n)
      (set_read_buffer_size (read_buffer_size s1) s))))) /\
  sortKeys s1 =
    match sortKeys s with
    | k :: _ => match abbrev_converter k with
                | Some _ => disable_abbrev_keys (sortKeys s)
                | None => sortKeys s
                end
    | [] => sortKeys s
    end.
Proof.
  cbv zeta. unfold mergeruns_setup, init_slab_allocator.
  destruct (sortKeys s) as [|k ks] eqn:Hks; [|destruct (abbrev_converter k) eqn:Hk];
    change (Level _) with (Level s); destruct (Level s =? 1); destruct (_ >? 0); destruct s;
    cbn in *; subst; done.
Qed.

(** ** Invariants that depend on the state only through the order *)

Lemma mtape_ok_ext s s' x :
  tcmp (sortKeys s') = tcmp (sortKeys s) -> randomAccess s' = randomAccess s ->
  mtape_ok s x -> mtape_ok s' x.
Proof. intros Hk Hr. unfold mtape_ok, run_ok. by rewrite Hk, Hr. Qed.

Lemma setup_keys s :
  keys_wf (sortKeys s) ->
  tcmp (sortKeys (mergeruns_setup s)) = tcmp (sortKeys s) /\
  keys_wf (sortKeys (mergeruns_setup s)) /\
  forall k ks, sortKeys (mergeruns_setup s) = k :: ks -> abbrev_converter k = None.
Proof.
  intros Hwf. destruct (setup_fields s) as [_ ->]. destruct (kw_abbrev _ Hwf) as (k & ks & Hk & _).
  rewrite Hk in Hwf |- *. destruct (abbrev_converter k) eqn:Hc.
  - rewrite tcmp_disable. split; [done|]. split; [by apply keys_wf_disable|].
    intros k' ks' Hk'. cbn in Hk'. by simplify_eq.
  - split; [done|]. split; [done|]. intros k' ks' Hk'. by simplify_eq.
Qed.

Lemma setup_base s : keys_wf (sortKeys s) -> base_ok (mergeruns_setup s).
Proof.
  intros Hwf. destruct (setup_keys s Hwf) as (_ & Hk & Hf). destruct (setup_fields s) as [Hs _].
  split; [done|done|]. by rewrite Hs.
Qed.

Lemma setup_built s T L : built s T L -> built (mergeruns_setup s) T L.
Proof.
  intros []. destruct (setup_keys s bu_keys0) as (Ht & Hk & _). destruct (setup_fields s) as [Hs _].
  revert Ht Hk. rewrite Hs. intros Ht Hk. cbn in Ht, Hk.
  split; try done. eapply Forall_impl; [exact bu_write0|]. intros x (Hok & Hrest).
  split; [|done]. by eapply mtape_ok_ext; [..|exact Hok].
Qed.

(** ** Freezing the result *)

Lemma LogicalTapeFreeze_ok lts t lt cs :
  zget lts t = Some lt -> holds lt cs ->
  exists lt', LogicalTapeFreeze lts t = Ok (zset lts t lt') /\ frozen lt' = true /\ reads lt' cs /\
    cells lt' = cs.
Proof.
  intros Ht (Hw & Hf & Hc & Hs). unfold LogicalTapeFreeze, with_tape.
  rewrite (aget_Ok _ _ _ Ht). cbn [rbind]. rewrite Hw. cbn [rbind].
  pose proof (zget_bounds _ _ _ Ht). rewrite aset_Ok by lia. eexists. split; [done|].
  cbn. rewrite Hc. split; [done|]. split; [|done]. split; [done|]. cbn. split; [done|]. by exists [].
Qed.

Lemma release_others_ok fuel s lts d j :
  tapeset s = Some lts -> result_tape s = d -> maxTapes s = zlen lts -> 0 <= j <= zlen lts ->
  (Z.to_nat (zlen lts - j) < fuel)%nat ->
  (forall t lt, j <= t -> t <> d -> zget lts t = Some lt -> writing lt = false /\ frozen lt = false) ->
  exists lts', release_others fuel s j = Ok (set_tapeset (Some lts') s) /\ zget lts' d = zget lts d.
Proof.
  revert s lts j. induction fuel as [|fuel IH]; intros s lts j Hl Hd Hmax Hj Hf Hrd; [lia|].
  cbn [release_others]. rewrite Hmax, Hd. destruct (Z.ltb_spec j (zlen lts)) as [Hlt|Hge].
  2:{ exists lts. split; [|done]. f_equal. destruct s; cbn in *. by subst. }
  destruct (zget_is_Some lts j) as [lt Hx]; [lia|].
  destruct (Z.eqb_spec j d) as [->|Hne]; cbn [negb].
  - rewrite rbind_ret. destruct (IH s lts (d + 1)) as (lts' & -> & Hg); try done; try lia.
    { intros t lt' Ht. apply Hrd. lia. } by exists lts'.
  - destruct (Hrd j lt ltac:(lia) Hne Hx) as [Hw Hfr].
    assert (Hrw : LogicalTapeRewindForWrite lts j = Ok (zset lts j empty_tape)).
    { unfold LogicalTapeRewindForWrite, with_tape. rewrite (aget_Ok _ _ _ Hx). cbn [rbind].
      rewrite Hw, Hfr. cbn [orb rbind]. by rewrite aset_Ok by lia. }
    rewrite (upd_tapes_ok s lts _ _ Hl Hrw), rbind_ret.
    destruct (IH (set_tapeset (Some (zset lts j empty_tape)) s) (zset lts j empty_tape) (j + 1))
      as (lts' & Hrel & Hg); try done; rewrite ?zlen_zset; try done; try lia.
    { intros t lt' Ht Htd. rewrite zget_zset_ne by lia. apply Hrd; [lia|done]. }
    exists lts'. split; [exact Hrel|]. by rewrite Hg, zget_zset_ne by done.
Qed.

Lemma mergeruns_finish_ok s st rows :
  keys_wf (sortKeys s) -> single_run_state s st rows ->
  exists s' out, mergeruns_finish st = Ok s' /\ on_tape s' out /\ out ≡ₚ rows /\
    sortKeys s' = sortKeys s /\ randomAccess s' = randomAccess s.
Proof.
  intros Hwf (nums & dum & a & T & m & d & y & r & -> & Hp & Hd & Hy & Hyr & Hrows).
  poly_facts Hp. pose proof (zget_bounds _ _ _ Hy) as Hdb.
  pose proof (Forall_zget _ _ _ _ Ptapes Hy) as (_ & Hruns & Hok).
  assert (Hr : mt_read y = false).
  { rewrite <- (tget_Some _ _ _ Hy), (Pread _ _ Hd). apply Z.ltb_irrefl. }
  destruct (Forall_zget _ _ _ _ Pidle Hy) as [_ Ho]. rewrite Hr in Hok.
  destruct Hok as (_ & _ & Hh). rewrite Ho, app_nil_r, Hyr in Hh by done.
  unfold enc_runs in Hh. cbn [mbind list_bind] in Hh. rewrite app_nil_r in Hh.
  rewrite Hyr in Hruns. inversion Hruns as [|?? Hrun _]; subst.
  assert (Hlt : zget (tapes_of T) d = Some (mt_lt y)) by (unfold tapes_of; by rewrite zget_fmap, Hy).
  destruct (LogicalTapeFreeze_ok (tapes_of T) d (mt_lt y) _ Hlt Hh) as (lt & Hfr & Hf & Hrd & Hc).
  unfold mergeruns_finish. pst_simpl. change (tapeRange (set_Level 0 s)) with (tapeRange s).
  rewrite (aget_Ok _ _ _ Hd), rbind_ret. cbv zeta.
  set (s1 := set_result_tape d (pst (set_Level 0 s) nums dum a T m 0)).
  rewrite (upd_tapes_ok s1 (tapes_of T) _ _ eq_refl Hfr), rbind_ret.
  set (lts := zset (tapes_of T) d lt). set (s2 := set_status TSS_SORTEDONTAPE (set_tapeset (Some lts) s1)).
  change (maxTapes s2) with (maxTapes s).
  assert (Hll : zlen lts = maxTapes s).
  { unfold lts, tapes_of. rewrite zlen_zset, zlen_fmap. lia. }
  destruct (release_others_ok (S (Z.to_nat (maxTapes s))) s2 lts d 0) as (lts' & Hrel & Hg); try done; try lia.
  { intros t lt' _ Htd. unfold lts, tapes_of. rewrite zget_zset_ne, zget_fmap by done.
    destruct (zget T t) as [x|] eqn:Hx; [|done]. intros [= <-].
    destruct (poly_tape s T nums dum t x Hp Hx) as (k & e & Hk & Hn & _ & _ & Hg).
    assert (Hxr : mt_read x = true).
    { rewrite <- Hg, (Pread k t Hn). apply Z.ltb_lt.
      destruct (Z.eq_dec k (tapeRange s)) as [->|]; [congruence|lia]. }
    destruct (Forall_zget _ _ _ _ Ptapes Hx) as (_ & _ & Hxok). rewrite Hxr in Hxok.
    destruct Hxok as (Hxf & _ & Hxw & _). done. }
  exists (set_tapeset (Some lts') s2), r. split; [exact Hrel|]. split; [|done].
  split; [done|done| |done]. exists lts', lt. split; [done|]. split; [|done].
  change (result_tape (set_tapeset (Some lts') s2)) with d. rewrite Hg. unfold lts. apply zget_zset_eq.
  unfold tapes_of. by rewrite zlen_fmap.
Qed.

(** ** The whole of [mergeruns] *)

Lemma merging_state_merging s st rows :
  base_ok s -> merging_state s st rows -> merging st rows.
Proof.
  intros Hb (l & nums & dum & a & T & m & n & L & -> & _ & _ & Hinv & Hrows).
  split; [done|]. split; [destruct Hb; by split|]. exists T, m, n, L. split; [done|].
  split; [destruct Hinv; by split|done].
Qed.

Lemma mergeruns_ok s T L :
  built s T L ->
  exists s', mergeruns s = Ok s' /\ tcmp (sortKeys s') = tcmp (sortKeys s) /\
    randomAccess s' = randomAccess s /\
    ((merging s' (all_rows T) /\ randomAccess s = false) \/
     exists out, on_tape s' out /\ out ≡ₚ all_rows T).
Proof.
  intros Hbu. pose proof (bu_keys _ _ _ Hbu) as Hwf.
  destruct (setup_keys s Hwf) as (Htc & Hwf1 & _). pose proof (setup_base s Hwf) as Hbase.
  pose proof (setup_built s T L Hbu) as Hbu1. destruct (setup_fields s) as [Hs1 _].
  assert (Hra : randomAccess (mergeruns_setup s) = randomAccess s) by (by rewrite Hs1).
  assert (Hm : memtuples (mergeruns_setup s) =
    palloc_memtuples (if Level s =? 1 then currentRun s else tapeRange s)) by (by rewrite Hs1).
  assert (Hlv : Level (mergeruns_setup s) = Level s) by (by rewrite Hs1).
  assert (Hcr : currentRun (mergeruns_setup s) = currentRun s) by (by rewrite Hs1).
  assert (Hrg : tapeRange (mergeruns_setup s) = tapeRange s) by (by rewrite Hs1).
  clear Hs1. unfold mergeruns. set (s1 := mergeruns_setup s) in *. pose proof Hbu1 as [].
  set (dum := tp_dummy s1) in *.
  assert (Hpst : s1 = pst s1 (units s1) dum (activeTapes s1) T (memtuples s1) 0).
  { replace 0 with (memtupcount s1). by apply pst_id. }
  assert (Hgo : exists T1, rewind_all (S (Z.to_nat (tapeRange s1))) s1 0 =
      Ok (pst s1 (units s1) dum (activeTapes s1) T1 (memtuples s1) 0) /\
    same_runs T T1 /\ poly s1 T1 (units s1) dum).
  { destruct (rewind_all_ok (S (Z.to_nat (tapeRange s1))) s1 (units s1) dum (activeTapes s1) T
      (memtuples s1) 0) as (T1 & Hrw & Hsr & Hg); try lia.
    { intros t x _ Hx. by apply (Forall_zget _ _ _ _ bu_write0 Hx). }
    exists T1. rewrite <- Hpst in Hrw. split; [done|]. split; [done|]. by apply (rewound_poly s1 T T1 L). }
  destruct Hgo as (T1 & -> & Hsr & Hp). rewrite rbind_ret. pst_simpl.
  destruct bu_level0 as [HL HLm].
  destruct (mergeruns_loop_ok (S (Z.to_nat (Level s1))) s1 (units s1) dum (activeTapes s1) T1
    (memtuples s1) L) as (st & fly & -> & Hst); try done.
  { by apply (same_runs_has T). }
  { by rewrite (same_runs_counts T). }
  { rewrite Hm. rewrite zlen_palloc; destruct (Level s =? 1); lia. }
  { rewrite Hm. destruct (Z.eqb_spec (Level s) 1) as [HL1|HL1].
    - right. split; [lia|]. rewrite zlen_palloc; lia.
    - left. rewrite zlen_palloc; lia. }
  { lia. }
  rewrite rbind_ret. rewrite (same_runs_rows T T1 Hsr) in Hst. destruct fly.
  - exists st. split; [done|]. pose proof Hst as (l & nums & dum' & a & U & m & n & L' & Heq & _ & Hf & _).
    split; [by rewrite Heq|]. split; [by rewrite Heq|]. left.
    split; [by apply merging_state_merging with s1|congruence].
  - destruct (mergeruns_finish_ok s1 st (all_rows T) bu_keys0 Hst) as (s' & out & -> & Hon & Hperm & Hk & Hr').
    exists s'. split; [done|]. split; [by rewrite Hk|]. split; [congruence|]. right. by exists out.
Qed.
