(* ===== verification/Distribution.v ===== *)
(** * Distributing the initial runs: steps D2 to D4 of Algorithm D

    [selectnewtape] chooses the tape of the next run so that the dummy runs
    stay spread evenly, and moves to the next perfect distribution when none
    is left.  The invariant [dist_ok] on the dummy counts shows that the chosen
    unit always has a dummy run to replace; the numbers stay within [int]
    because a level is only raised when every run counted is real. *)

From Stdlib Require Import ZArith Lia.
From stdpp Require Import base list sorting strings.
From S2P Require Import Prelude SortSupport LogTape TuplesortState Tuplesort TuplesortMem Polyphase MergeRuns.

Local Open Scope Z_scope.

(** ** Sums *)

Definition zsum (l : list Z) : Z := foldr Z.add 0 l.

Lemma zsum_app l k : zsum (l ++ k) = zsum l + zsum k.
Proof. induction l as [|x l IH]; cbn; [done|]. unfold zsum in *. rewrite IH. lia. Qed.

Lemma zsum_nonneg l : Forall (fun x => 0 <= x) l -> 0 <= zsum l.
Proof. induction 1; cbn; [lia|]. unfold zsum in *. lia. Qed.

Lemma zsum_zset l i x y : zget l i = Some x -> zsum (zset l i y) = zsum l - x + y.
Proof.
  intros Hx. pose proof (zget_bounds _ _ _ Hx) as Hi. rewrite <- (zset_id l i x Hx) at 2.
  rewrite !zset_split by done. rewrite !zsum_app. cbn. lia.
Qed.

Lemma zsum_ge l i x : Forall (fun x => 0 <= x) l -> zget l i = Some x -> x <= zsum l.
Proof.
  intros Hp Hx. pose proof (zsum_zset l i x 0 Hx).
  assert (0 <= zsum (zset l i 0)) by (apply zsum_nonneg, Forall_zset; [done|lia]). lia.
Qed.

Lemma zsum_ge2 l i j x y :
  Forall (fun x => 0 <= x) l -> i <> j -> zget l i = Some x -> zget l j = Some y -> x + y <= zsum l.
Proof.
  intros Hp Hij Hx Hy. pose proof (zsum_zset l i x 0 Hx).
  assert (y <= zsum (zset l i 0)); [|lia].
  apply zsum_ge with j; [apply Forall_zset; [done|lia]|by rewrite zget_zset_ne].
Qed.

(** Distinct positions with at least one each. *)
Lemma zsum_positions l ks :
  Forall (fun x => 0 <= x) l -> NoDup ks ->
  (forall k, k ∈ ks -> exists x, zget l k = Some x /\ 1 <= x) -> zlen ks <= zsum l.
Proof.
  intros Hp Hnd. revert l Hp. induction Hnd as [|k ks Hk Hnd IH]; intros l Hp H.
  - by apply zsum_nonneg.
  - destruct (H k) as (x & Hx & H1); [by left|]. pose proof (zsum_zset l k x 0 Hx).
    rewrite zlen_cons. assert (zlen ks <= zsum (zset l k 0)); [|lia].
    apply IH; [apply Forall_zset; [done|lia]|]. intros k' Hk'.
    rewrite zget_zset_ne by (by intros <-). apply H. by right.
Qed.

(** ** The step from one level to the next *)

Definition nextv (f : list Z) : list Z :=
  match f with
  | [] => []
  | a :: tl => ((fun x => a + x) <$> tl) ++ [0]
  end.

Lemma fibv_S r L : fibv r (S L) = nextv (fibv r L).
Proof. done. Qed.

Lemma nextv_add f g d :
  length f = length d -> g = zip_with Z.add f d -> nextv g = zip_with Z.add (nextv f) (nextv d).
Proof.
  intros Hl ->. destruct f as [|a f], d as [|b d]; try done. cbn in Hl |- *.
  rewrite zip_with_app by (rewrite !length_fmap; lia). f_equal.
  assert (Hl' : length f = length d) by lia. clear Hl. revert d Hl'.
  induction f as [|x f IH]; intros [|y d] Hl; try done. cbn. cbn in Hl. rewrite IH by lia. f_equal. lia.
Qed.

Lemma nextv_length f : length (nextv f) = length f.
Proof. destruct f; [done|]. cbn. rewrite length_app, length_fmap. cbn. lia. Qed.

Definition falling (d : list Z) : Prop :=
  forall k x y, 0 <= k -> zget d k = Some x -> zget d (k + 1) = Some y -> y <= x.

(** The dummy runs a new level starts with. *)
Record level_dummies (r : Z) (d : list Z) : Prop := {
  ld_len : zlen d = r + 1;
  ld_falling : falling d;
  ld_last : zget d r = Some 0;
  ld_head : exists x, zget d 0 = Some x /\ 1 <= x
}.

Lemma zget_nextv a tl k :
  0 <= k < zlen tl -> zget (nextv (a :: tl)) k = (fun x => a + x) <$> zget tl k.
Proof. intros Hk. cbn. rewrite zget_app_l by (rewrite zlen_fmap; lia). apply zget_fmap. Qed.

Lemma zget_nextv_last a tl : zget (nextv (a :: tl)) (zlen tl) = Some 0.
Proof. cbn. rewrite zget_app_r by (by rewrite zlen_fmap). by rewrite zlen_fmap, Z.sub_diag. Qed.

Lemma zget_tail {A} (a : A) tl k : 0 <= k -> zget tl k = zget (a :: tl) (k + 1).
Proof.
  intros Hk. change (a :: tl) with ([a] ++ tl). rewrite zget_app_r by (change (zlen [a]) with 1; lia).
  change (zlen [a]) with 1. f_equal. lia.
Qed.

Lemma level_dummies_next r d : 1 <= r -> level_dummies r d -> level_dummies r (nextv d).
Proof.
  intros Hr [Hl Hf Hlast (a & Ha & Ha1)]. destruct d as [|a' tl]; [done|]. injection Ha as ->.
  rewrite zlen_cons in Hl. assert (Htl : zlen tl = r) by lia.
  split.
  - unfold zlen. rewrite nextv_length. cbn. unfold zlen in Htl. lia.
  - intros k x y Hk Hx Hy. destruct (Z.lt_ge_cases (k + 1) (zlen tl)) as [Hlt|Hge].
    + rewrite zget_nextv in Hx, Hy by lia.
      destruct (zget tl k) as [x0|] eqn:Hx0; [|done]. destruct (zget tl (k + 1)) as [y0|] eqn:Hy0; [|done].
      injection Hx as <-. injection Hy as <-.
      rewrite (zget_tail a) in Hx0 by lia. rewrite (zget_tail a) in Hy0 by lia.
      pose proof (Hf (k + 1) x0 y0 ltac:(lia) Hx0 Hy0). lia.
    + pose proof (zget_bounds _ _ _ Hy) as Hyb. unfold zlen in Hyb. rewrite nextv_length in Hyb.
      cbn in Hyb. unfold zlen in *. assert (Hk1 : k + 1 = zlen tl) by (unfold zlen; lia).
      rewrite Hk1, zget_nextv_last in Hy. injection Hy as <-.
      rewrite zget_nextv in Hx by (unfold zlen; lia). destruct (zget tl k) as [x0|] eqn:Hx0; [|done].
      injection Hx as <-. rewrite (zget_tail a) in Hx0 by lia.
      replace (k + 1) with r in Hx0 by (unfold zlen in Hk1; lia). rewrite Hlast in Hx0.
      injection Hx0 as <-. lia.
  - by rewrite <- Htl, zget_nextv_last.
  - rewrite zget_nextv by lia. destruct (zget_is_Some tl 0) as [y Hy]; [lia|]. rewrite Hy. cbn.
    eexists. split; [done|].
    assert (Hy0 : 0 <= y); [|lia].
    assert (Hpos : forall n k z, (Z.to_nat (r - k) <= n)%nat -> 0 <= k <= r ->
      zget (a :: tl) k = Some z -> 0 <= z).
    { induction n as [|n IH]; intros k z Hn Hk Hz.
      - assert (k = r) as -> by lia. rewrite Hlast in Hz. by injection Hz as <-.
      - destruct (Z.eq_dec k r) as [->|]; [rewrite Hlast in Hz; by injection Hz as <-|].
        destruct (zget_is_Some (a :: tl) (k + 1)) as [z' Hz']; [rewrite zlen_cons; lia|].
        pose proof (Hf k z z' ltac:(lia) Hz Hz'). pose proof (IH (k + 1) z' ltac:(lia) ltac:(lia) Hz'). lia. }
    rewrite (zget_tail a) in Hy by lia. apply (Hpos (Z.to_nat r) (0 + 1) y); [lia|lia|done].
Qed.

(** The difference of two successive levels. *)
Lemma fibv_diff r L :
  2 <= r ->
  exists d, fibv (Z.to_nat r) (S (S L)) = zip_with Z.add (fibv (Z.to_nat r) (S L)) d /\
    level_dummies r d.
Proof.
  intros Hr. induction L as [|L (d & Heq & Hd)].
  - assert (Hrep : Z.to_nat r = S (S (Z.to_nat r - 2))) by lia. set (q := (Z.to_nat r - 2)%nat) in *.
    exists (replicate (S q) 1 ++ [0; 0]). split.
    + rewrite !fibv_S. cbn [fibv]. rewrite Hrep. cbn. f_equal.
      clear. induction q as [|q IH]; [done|]. cbn. by rewrite IH.
    + assert (Hq : zlen (replicate (S q) 1) = r - 1) by (unfold zlen; rewrite length_replicate; lia).
      assert (Hg : forall k, 0 <= k < r - 1 -> zget (replicate (S q) 1 ++ [0; 0]) k = Some 1).
      { intros k Hk. rewrite zget_app_l by lia. unfold zget. destruct (Z.leb_spec 0 k); [|lia].
        apply lookup_replicate_2. lia. }
      assert (Hz : forall k, r - 1 <= k <= r -> zget (replicate (S q) 1 ++ [0; 0]) k = Some 0).
      { intros k Hk. rewrite zget_app_r by lia. rewrite Hq.
        assert (k - (r - 1) = 0 \/ k - (r - 1) = 1) as [-> | ->] by lia; done. }
      split.
      * rewrite zlen_app, Hq. change (zlen [0; 0]) with 2. lia.
      * intros k x y Hk Hx Hy. pose proof (zget_bounds _ _ _ Hy) as Hb.
        rewrite zlen_app, Hq in Hb. change (zlen [0; 0]) with 2 in Hb.
        destruct (Z.lt_ge_cases k (r - 1)).
        -- rewrite Hg in Hx by lia. injection Hx as <-.
           destruct (Z.lt_ge_cases (k + 1) (r - 1)); [rewrite Hg in Hy by lia|rewrite Hz in Hy by lia];
             injection Hy as <-; lia.
        -- rewrite Hz in Hx, Hy by lia. simplify_eq. lia.
      * apply Hz. lia.
      * exists 1. split; [apply Hg; lia|lia].
  - exists (nextv d). split; [|apply level_dummies_next; [lia|done]].
    apply (nextv_add (fibv (Z.to_nat r) (S L)) (fibv (Z.to_nat r) (S (S L))) d); [|done]. destruct Hd.
    destruct (fibv_shape (Z.to_nat r) (S L)) as (a & tl & -> & Hl & _); [lia|].
    cbn. unfold zlen in *. lia.
Qed.

(** ** Choosing the next tape *)

(** The next run goes to unit [j]: the units before it have one dummy run
    less than [j], from [j] on the numbers fall to 0. *)
Record dist_ok (r : Z) (dum : list Z) (j : Z) : Prop := {
  do_len : zlen dum = r + 1;
  do_dest : 0 <= j < r;
  do_some : exists x, zget dum j = Some x /\ 1 <= x;
  do_before : forall k x y, 0 <= k < j -> zget dum k = Some x -> zget dum j = Some y -> x + 1 = y;
  do_after : forall k x y, j <= k -> zget dum k = Some x -> zget dum (k + 1) = Some y -> y <= x;
  do_last : zget dum r = Some 0
}.

Lemma level_dist r d : 1 <= r -> level_dummies r d -> dist_ok r d 0.
Proof. intros Hr []. split; try done; lia. Qed.

(** From [j] on no unit has more than [j]; all have at least 0. *)
Lemma dist_range r dum j k x :
  dist_ok r dum j -> j <= k -> zget dum k = Some x ->
  0 <= x /\ forall y, zget dum j = Some y -> x <= y.
Proof.
  intros [] Hk Hx. pose proof (zget_bounds _ _ _ Hx) as Hb. split.
  - assert (H : forall n k x, (Z.to_nat (r - k) <= n)%nat -> j <= k <= r -> zget dum k = Some x -> 0 <= x).
    { induction n as [|n IH]; intros k' x' Hn Hk' Hx'.
      - assert (k' = r) as -> by lia. rewrite do_last0 in Hx'. by injection Hx' as <-.
      - destruct (Z.eq_dec k' r) as [->|]; [rewrite do_last0 in Hx'; by injection Hx' as <-|].
        destruct (zget_is_Some dum (k' + 1)) as [z Hz]; [lia|].
        pose proof (do_after0 k' x' z ltac:(lia) Hx' Hz). pose proof (IH (k' + 1) z ltac:(lia) ltac:(lia) Hz).
        lia. }
    apply (H (Z.to_nat (r - k)) k x); [lia|lia|done].
  - intros y Hy.
    assert (H : forall n k x, (Z.to_nat (k - j) <= n)%nat -> j <= k <= r -> zget dum k = Some x -> x <= y).
    { induction n as [|n IH]; intros k' x' Hn Hk' Hx'.
      - assert (k' = j) as -> by lia. assert (x' = y) as -> by congruence. lia.
      - destruct (Z.eq_dec k' j) as [->|]; [assert (x' = y) as -> by congruence; lia|].
        destruct (zget_is_Some dum (k' - 1)) as [z Hz]; [lia|].
        pose proof (do_after0 (k' - 1) z x' ltac:(lia) Hz) as Hle.
        replace (k' - 1 + 1) with k' in Hle by lia. specialize (Hle Hx').
        pose proof (IH (k' - 1) z ltac:(lia) ltac:(lia) Hz). lia. }
    apply (H (Z.to_nat (k - j)) k x); [lia|lia|done].
Qed.

Lemma dist_pos r dum j : dist_ok r dum j -> Forall (fun x => 0 <= x) dum.
Proof.
  intros Hd. apply Forall_of_zget. intros k x Hx. pose proof (zget_bounds _ _ _ Hx).
  destruct (Z.lt_ge_cases k j).
  - pose proof (do_some _ _ _ Hd) as (y & Hy & Hy1).
    pose proof (do_before _ _ _ Hd k x y ltac:(lia) Hx Hy). lia.
  - by apply (dist_range r dum j k x Hd).
Qed.

(** After a run has taken the place of a dummy run of unit [j]. *)
Section taken.
Context (r : Z) (dum : list Z) (j v : Z).
Hypothesis Hd : dist_ok r dum j.
Hypothesis Hv : zget dum j = Some v.
Local Abbreviation dum' := (zset dum j (v - 1)).

Lemma taken_get k x :
  zget dum' k = Some x -> (0 <= k <= j -> x = v - 1) /\ (j < k -> zget dum k = Some x).
Proof.
  intros Hx. pose proof (zget_bounds _ _ _ Hv). rewrite zget_zset in Hx by done.
  destruct (Z.eqb_spec j k) as [<-|Hne].
  - injection Hx as <-. split; [done|lia].
  - split; [|done]. intros Hk. pose proof (do_before _ _ _ Hd k x v ltac:(lia) Hx Hv). lia.
Qed.

Lemma taken_next x :
  zget dum' (j + 1) = Some x -> v - 1 < x -> dist_ok r dum' (j + 1).
Proof.
  intros Hx Hlt. destruct (taken_get _ _ Hx) as [_ Hx0]. specialize (Hx0 ltac:(lia)).
  destruct Hd as [Hl Hj (v' & Hv' & Hv1) Hbefore Hafter Hlast].
  assert (v' = v) as -> by congruence.
  assert (x <= v) by (apply (Hafter j v x); [lia|done..]).
  assert (Hjr : j + 1 < r).
  { destruct (Z.eq_dec (j + 1) r) as [Heq|]; [|lia]. rewrite Heq, Hlast in Hx0. injection Hx0 as <-. lia. }
  split.
  - by rewrite zlen_zset.
  - lia.
  - exists x. split; [done|lia].
  - intros k y z Hk Hy Hz. destruct (taken_get _ _ Hy) as [Hy0 _]. rewrite Hy0 by lia.
    assert (z = x) as -> by congruence. lia.
  - intros k y z Hk Hy Hz. destruct (taken_get _ _ Hy) as [_ Hy0], (taken_get _ _ Hz) as [_ Hz0].
    apply (Hafter k y z); [lia|apply Hy0; lia|apply Hz0; lia].
  - rewrite zget_zset_ne by lia. done.
Qed.

Lemma taken_again x :
  zget dum' (j + 1) = Some x -> x <= v - 1 -> v - 1 <> 0 -> dist_ok r dum' 0.
Proof.
  intros Hx Hle Hnz. destruct (taken_get _ _ Hx) as [_ Hx0]. specialize (Hx0 ltac:(lia)).
  pose proof Hd as [Hl Hj (v' & Hv' & Hv1) Hbefore Hafter Hlast]. assert (v' = v) as -> by congruence.
  split.
  - by rewrite zlen_zset.
  - lia.
  - destruct (zget_is_Some dum' 0) as [y Hy]; [rewrite zlen_zset; lia|]. exists y. split; [done|].
    destruct (taken_get _ _ Hy) as [Hy0 _]. rewrite Hy0 by lia. lia.
  - intros k y z Hk. lia.
  - intros k y z Hk Hy Hz. destruct (taken_get _ _ Hy) as [Hy1 Hy2], (taken_get _ _ Hz) as [Hz1 Hz2].
    destruct (Z.lt_ge_cases j k).
    + apply (Hafter k y z); [lia|apply Hy2; lia|apply Hz2; lia].
    + rewrite Hy1 by lia. destruct (Z.eq_dec k j) as [->|].
      * assert (z = x) as -> by congruence. done.
      * rewrite Hz1 by lia. lia.
  - rewrite zget_zset_ne by lia. done.
Qed.

(** No dummy run is left. *)
Lemma taken_none x :
  zget dum' (j + 1) = Some x -> x <= v - 1 -> v - 1 = 0 -> Forall (fun d => d = 0) dum'.
Proof.
  intros Hx Hle Hz. apply Forall_of_zget. intros k y Hy. destruct (taken_get _ _ Hy) as [Hy1 Hy2].
  pose proof (zget_bounds _ _ _ Hy). destruct (Z.lt_ge_cases j k) as [Hjk|]; [|rewrite Hy1; lia].
  specialize (Hy2 Hjk). destruct (dist_range r dum j k y Hd ltac:(lia) Hy2) as [H0 _].
  destruct (taken_get _ _ Hx) as [_ Hx0]. specialize (Hx0 ltac:(lia)).
  assert (Hmono : forall n k y, (Z.to_nat (k - j) <= n)%nat -> j < k -> zget dum k = Some y -> y <= x).
  { clear -Hd Hx0. induction n as [|n IH]; intros k y Hn Hk Hy; [lia|].
    destruct (Z.eq_dec k (j + 1)) as [->|]; [assert (y = x) as -> by congruence; lia|].
    pose proof (zget_bounds _ _ _ Hy). pose proof (do_dest _ _ _ Hd).
    destruct (zget_is_Some dum (k - 1)) as [z Hz]; [lia|].
    pose proof (do_after _ _ _ Hd (k - 1) z y ltac:(lia) Hz) as Hle.
    replace (k - 1 + 1) with k in Hle by lia. specialize (Hle Hy).
    pose proof (IH (k - 1) z ltac:(lia) ltac:(lia) Hz). lia. }
  pose proof (Hmono (Z.to_nat (k - j)) k y ltac:(lia) Hjk Hy2). lia.
Qed.
End taken.

(** ** Raising the level *)

Lemma increase_level_ok fuel fib dum a j r :
  0 <= j <= r -> r < zlen fib -> r < zlen dum -> (Z.to_nat (r - j) < fuel)%nat ->
  (forall k x y, j <= k < r -> zget fib k = Some x -> zget fib (k + 1) = Some y ->
     0 <= x /\ 0 <= a + y <= INT_MAX /\ x <= INT_MAX) ->
  exists fib' dum', increase_level fuel fib dum a j r = Ok (fib', dum') /\
    zlen fib' = zlen fib /\ zlen dum' = zlen dum /\
    (forall k, ~ (j <= k < r) -> zget fib' k = zget fib k /\ zget dum' k = zget dum k) /\
    (forall k x y, j <= k < r -> zget fib k = Some x -> zget fib (k + 1) = Some y ->
       zget fib' k = Some (a + y) /\ zget dum' k = Some (a + y - x)).
Proof.
  revert fib dum j. induction fuel as [|fuel IH]; intros fib dum j Hj Hf Hdl Hfu Hb; [lia|].
  cbn [increase_level]. destruct (Z.ltb_spec j r) as [Hlt|Hge].
  2:{ exists fib, dum. do 4 (split; [done|]). intros k x y Hk. lia. }
  destruct (zget_is_Some fib (j + 1)) as [f1 Hf1]; [lia|].
  destruct (zget_is_Some fib j) as [f0 Hf0]; [lia|].
  rewrite (aget_Ok _ _ _ Hf1), rbind_ret, (aget_Ok _ _ _ Hf0), rbind_ret.
  destruct (Hb j f0 f1 ltac:(lia) Hf0 Hf1) as (H0 & H1 & H2).
  rewrite !int32_id by (unfold is_int32, INT_MIN, INT_MAX in *; lia).
  rewrite !aset_Ok by lia. rewrite !rbind_ret.
  destruct (IH (zset fib j (a + f1)) (zset dum j (a + f1 - f0)) (j + 1))
    as (fib' & dum' & -> & Hl1 & Hl2 & Hout & Hin); rewrite ?zlen_zset; try lia.
  { intros k x y Hk Hx Hy. rewrite zget_zset_ne in Hx by lia. rewrite zget_zset_ne in Hy by lia.
    apply (Hb k x y ltac:(lia) Hx Hy). }
  rewrite !zlen_zset in *. exists fib', dum'. do 3 (split; [done|]). split.
  - intros k Hk. destruct (Hout k ltac:(lia)) as [-> ->]. rewrite !zget_zset_ne by lia. done.
  - intros k x y Hk Hx Hy. destruct (Z.eq_dec k j) as [->|Hne].
    + destruct (Hout j ltac:(lia)) as [-> ->]. rewrite !zget_zset_eq by lia.
      assert (x = f0) as -> by congruence. assert (y = f1) as -> by congruence. done.
    + apply (Hin k x y); [lia|by rewrite zget_zset_ne by lia..].
Qed.

Lemma fibv_facts r L :
  1 <= r ->
  zlen (fibv (Z.to_nat r) L) = r + 1 /\ zget (fibv (Z.to_nat r) L) r = Some 0 /\
  Forall (fun x => 0 <= x) (fibv (Z.to_nat r) L).
Proof.
  intros Hr. destruct (fibv_shape (Z.to_nat r) L) as (a & tl & -> & Hl & Ha & Hpos & Hlast); [lia|].
  rewrite Z2Nat.id in Hlast by lia. split; [rewrite zlen_cons; unfold zlen; lia|].
  split; [|constructor; [lia|done]]. rewrite (zget_tail a) in Hlast by lia.
  by replace (r - 1 + 1) with r in Hlast by lia.
Qed.

(** Step D4 from one perfect distribution to the next: the new runs are the
    dummy runs to fill. *)
Lemma increase_level_fib r L a dum :
  2 <= r -> zget (fibv (Z.to_nat r) (S L)) 0 = Some a -> zlen dum = r + 1 -> zget dum r = Some 0 ->
  zsum (fibv (Z.to_nat r) (S L)) <= INT_MAX ->
  exists d, increase_level (S (Z.to_nat r)) (fibv (Z.to_nat r) (S L)) dum a 0 r =
      Ok (fibv (Z.to_nat r) (S (S L)), d) /\
    level_dummies r d /\
    fibv (Z.to_nat r) (S (S L)) = zip_with Z.add (fibv (Z.to_nat r) (S L)) d.
Proof.
  intros Hr Ha Hdl Hd0 Hsum. destruct (fibv_facts r (S L)) as (Hl & Hlast & Hpos); [lia|].
  destruct (fibv_diff r L Hr) as (d & Heq & Hld). pose proof (ld_len _ _ Hld) as Hdl'.
  set (F := fibv (Z.to_nat r) (S L)) in *.
  destruct (increase_level_ok (S (Z.to_nat r)) F dum a 0 r) as (fib' & dum' & -> & Hl1 & Hl2 & Hout & Hin); try lia.
  { intros k x y Hk Hx Hy. pose proof (Forall_zget _ _ _ _ Hpos Hx). pose proof (Forall_zget _ _ _ _ Hpos Hy).
    pose proof (Forall_zget _ _ _ _ Hpos Ha). pose proof (zsum_ge _ _ _ Hpos Hx).
    pose proof (zsum_ge2 _ 0 (k + 1) _ _ Hpos ltac:(lia) Ha Hy). cbn in *. lia. }
  exists d. split; [|done]. destruct F as [|a' tl] eqn:HF; [done|]. injection Ha as ->.
  assert (Hnext : fibv (Z.to_nat r) (S (S L)) = nextv (a :: tl)) by (rewrite fibv_S; by rewrite <- HF).
  rewrite zlen_cons in Hl. assert (Htl : zlen tl = r) by lia.
  assert (Hfib : fib' = nextv (a :: tl)).
  { apply zlist_eq. intros k Hk0. destruct (Z.lt_ge_cases k r) as [Hk|Hk].
    - destruct (zget_is_Some (a :: tl) k) as [x Hx]; [rewrite zlen_cons; lia|].
      destruct (zget_is_Some tl k) as [y Hy]; [lia|].
      destruct (Hin k x y) as [-> _]; [lia|done|by rewrite <- zget_tail|].
      rewrite zget_nextv by lia. by rewrite Hy.
    - destruct (Hout k ltac:(lia)) as [-> _]. destruct (Z.eq_dec k r) as [->|].
      + rewrite Hlast. by rewrite <- Htl, zget_nextv_last.
      + rewrite !zget_None; [done| |rewrite zlen_cons; lia]. unfold zlen. rewrite nextv_length. cbn.
        unfold zlen in Htl. lia. }
  rewrite Hfib, <- Hnext. do 2 f_equal. apply zlist_eq. intros k Hk0.
  destruct (Z.lt_ge_cases k r) as [Hk|Hk].
  - destruct (zget_is_Some (a :: tl) k) as [x Hx]; [rewrite zlen_cons; lia|].
    destruct (zget_is_Some tl k) as [y Hy]; [lia|]. destruct (zget_is_Some d k) as [e He]; [lia|].
    destruct (Hin k x y) as [_ ->]; [lia|done|by rewrite <- zget_tail|]. rewrite He. f_equal.
    pose proof (zget_zip_with Z.add (a :: tl) d k x e Hx He) as Hz. rewrite <- Heq, Hnext, zget_nextv, Hy in Hz by lia.
    injection Hz. lia.
  - destruct (Hout k ltac:(lia)) as [_ ->]. destruct (Z.eq_dec k r) as [->|].
    + rewrite Hd0. symmetry. apply (ld_last _ _ Hld).
    + rewrite !zget_None by lia. done.
Qed.

(** ** [selectnewtape] *)

(** The arrays of the distribution. *)
Definition dst (s : Tuplesortstate) (L : nat) (dum : list Z) (j : Z) : Tuplesortstate :=
  set_destTape j (set_tp_dummy dum
    (set_tp_fib (fibv (Z.to_nat (tapeRange s)) (S L)) (set_Level (Z.of_nat (S L)) s))).

Lemma dst_id s L j :
  tp_fib s = fibv (Z.to_nat (tapeRange s)) (S L) -> Level s = Z.of_nat (S L) ->
  set_destTape j s = dst s L (tp_dummy s) j.
Proof. unfold dst. intros <- <-. by destruct s. Qed.

(** The run just written took a dummy run of unit [destTape].  Either another
    unit of this level is chosen, or every unit is full and the distribution
    goes one level up. *)
Lemma selectnewtape_ok s L dum v :
  2 <= tapeRange s -> tp_fib s = fibv (Z.to_nat (tapeRange s)) (S L) ->
  Level s = Z.of_nat (S L) -> Level s < INT_MAX ->
  dist_ok (tapeRange s) dum (destTape s) -> zget dum (destTape s) = Some v ->
  tp_dummy s = zset dum (destTape s) (v - 1) ->
  (Forall (fun d => d = 0) (tp_dummy s) -> zsum (tp_fib s) <= INT_MAX) ->
  exists L' dum' j', selectnewtape s = Ok (dst s L' dum' j') /\
    dist_ok (tapeRange s) dum' j' /\
    ((L' = L /\ dum' = tp_dummy s) \/
     (L' = S L /\ Forall (fun d => d = 0) (tp_dummy s) /\
      fibv (Z.to_nat (tapeRange s)) (S (S L)) = zip_with Z.add (tp_fib s) dum')).
Proof.
  intros Hr Hfib HL HLm Hd Hv Hdum Hsum. pose proof (do_dest _ _ _ Hd) as Hj. pose proof (do_len _ _ _ Hd) as Hlen.
  assert (Hv' : zget (tp_dummy s) (destTape s) = Some (v - 1)) by (rewrite Hdum; apply zget_zset_eq; lia).
  destruct (zget_is_Some (tp_dummy s) (destTape s + 1)) as [x Hx]; [rewrite Hdum, zlen_zset; lia|].
  pose proof Hx as Hx'. rewrite Hdum in Hx'.
  unfold selectnewtape. rewrite (aget_Ok _ _ _ Hv'), rbind_ret, (aget_Ok _ _ _ Hx), rbind_ret.
  destruct (Z.ltb_spec (v - 1) x) as [Hlt|Hge].
  { exists L, (tp_dummy s), (destTape s + 1). split; [by rewrite (dst_id s L)|]. split; [|by left].
    rewrite Hdum. by apply (taken_next _ _ _ v Hd Hv x). }
  destruct (Z.eqb_spec (v - 1) 0) as [Hz|Hnz]; cbn [negb].
  2:{ exists L, (tp_dummy s), 0. split; [by rewrite (dst_id s L)|]. split; [|by left].
      rewrite Hdum. by apply (taken_again _ _ _ v Hd Hv x). }
  assert (Hall : Forall (fun d => d = 0) (tp_dummy s)).
  { rewrite Hdum. by apply (taken_none _ _ _ v Hd Hv x). }
  specialize (Hsum Hall). cbv zeta.
  destruct (fibv_facts (tapeRange s) (S L)) as (Hfl & _ & _); [lia|].
  destruct (zget_is_Some (tp_fib s) 0) as [a Ha]; [rewrite Hfib; lia|].
  change (tp_fib (set_Level _ s)) with (tp_fib s). rewrite (aget_Ok _ _ _ Ha), rbind_ret.
  change (tp_dummy (set_Level _ s)) with (tp_dummy s). change (tapeRange (set_Level _ s)) with (tapeRange s).
  rewrite Hfib in Ha, Hsum |- *.
  destruct (increase_level_fib (tapeRange s) L a (tp_dummy s)) as (d & -> & Hld & Heq); try done.
  { by rewrite Hdum, zlen_zset. }
  { rewrite Hdum, zget_zset_ne by lia. apply (do_last _ _ _ Hd). }
  rewrite rbind_ret. exists (S L), d, 0. split.
  - unfold dst. rewrite HL, int32_id by (unfold is_int32, INT_MIN, INT_MAX in *; lia).
    by replace (Z.of_nat (S L) + 1) with (Z.of_nat (S (S L))) by lia.
  - split; [apply level_dist; [lia|done]|]. by right.
Qed.

Lemma fibv_small r L :
  1 <= r -> zsum (fibv (Z.to_nat r) L) <= INT_MAX ->
  Forall (fun c => c <= INT_MAX) (fibv (Z.to_nat r) (S L)).
Proof.
  intros Hr Hs. destruct (fibv_facts r L Hr) as (Hl & _ & Hpos).
  rewrite fibv_S. destruct (fibv (Z.to_nat r) L) as [|a tl] eqn:HF; [constructor|].
  cbn [nextv]. apply Forall_app. split; [|repeat constructor; unfold INT_MAX; lia].
  apply Forall_fmap, Forall_of_zget. intros k y Hy. pose proof (zget_bounds _ _ _ Hy).
  rewrite (zget_tail a) in Hy by lia. cbn.
  pose proof (zsum_ge2 (a :: tl) 0 (k + 1) a y Hpos ltac:(lia) eq_refl Hy). lia.
Qed.

(** Every input unit has a run or a dummy run. *)
Lemma fibv_units r L k :
  1 <= r -> 0 <= k < r -> exists c, zget (fibv (Z.to_nat r) (S L)) k = Some c /\ 1 <= c.
Proof.
  intros Hr Hk. destruct (fibv_shape (Z.to_nat r) L) as (a & tl & HF & Hl & Ha & Hpos & _); [lia|].
  rewrite fibv_S, HF. assert (Htl : zlen tl = r) by (unfold zlen; lia).
  rewrite zget_nextv by lia. destruct (zget_is_Some tl k) as [y Hy]; [lia|]. rewrite Hy. cbn.
  exists (a + y). split; [done|]. pose proof (Forall_zget _ _ _ _ Hpos Hy). cbn in *. lia.
Qed.

Lemma zsum_zip_add l k : length l = length k -> zsum (zip_with Z.add l k) = zsum l + zsum k.
Proof.
  revert k. induction l as [|x l IH]; intros [|y k] Hl; try done. cbn in *. unfold zsum in *.
  rewrite IH by lia. lia.
Qed.

Lemma zip_add_zeros l k :
  length l = length k -> Forall (fun d => d = 0) k -> zip_with Z.add l k = l.
Proof.
  revert k. induction l as [|x l IH]; intros [|y k] Hl Hz; try done. inversion Hz; subst. cbn in *.
  rewrite IH by (done || lia). f_equal. lia.
Qed.
