(* ===== verification/RunBuild.v ===== *)
(** * Building the initial runs: [inittapes], [dumptuples] and the puts
    between them

    Once the array of a sort is full its contents are sorted and written as a
    run to the tape [selectnewtape] chose.  [laid] says how the runs lie on the
    tapes, [building] adds the tuples in memory and the choice of the next
    tape.  Every put keeps [building]; the last dump leaves what the merge
    phase starts from ([built]). *)

From Stdlib Require Import ZArith Lia.
From stdpp Require Import base list sorting strings.
From S2P Require Import Prelude HeapTheory SortSupport TuplesortHeap LogTape TuplesortState Tuplesort TapeRuns TuplesortMem RunMerge Polyphase MergeRuns ExternalMerge Distribution.

Local Open Scope Z_scope.

(** ** Writing out the sorted array *)

(** The fields [dump_loop] changes. *)
Definition wst (s : Tuplesortstate) (lts : LogicalTapeSet) (n a : Z) : Tuplesortstate :=
  set_memtupcount n (set_availMem a (set_tapeset (Some lts) s)).

Definition written (e : SortTuple) (r : MinimalTuple) : Prop := tuple e = Some r /\ row_ok r.

Lemma dump_loop_ok fuel s lts t lt cs rs n a i N :
  zget lts t = Some lt -> holds lt cs -> slabAllocatorUsed s = false ->
  0 <= i <= N -> N <= zlen (memtuples s) -> (Z.to_nat (N - i) < fuel)%nat ->
  Forall2 written (zdrop i (ztake N (memtuples s))) rs ->
  exists lt' a', dump_loop fuel (wst s lts n a) t i N = Ok (wst s (zset lts t lt') (n - (N - i)) a') /\
    holds lt' (cs ++ enc_rows (randomAccess s) rs).
Proof.
  intros Ht Hh Hslab Hi HN Hf Hrs. pose proof (zget_bounds _ _ _ Ht) as Hb.
  revert lts lt cs rs n a i Ht Hh Hb Hi Hf Hrs. induction fuel as [|fuel IH];
    intros lts lt cs rs n a i Ht Hh Hb Hi Hf Hrs; [lia|].
  cbn [dump_loop]. destruct (Z.ltb_spec i N) as [Hlt|Hge].
  - change (memtuples (wst s lts n a)) with (memtuples s).
    destruct (zget_is_Some (memtuples s) i) as [e He]; [lia|]. rewrite (aget_Ok _ _ _ He), rbind_ret.
    assert (He' : zget (ztake N (memtuples s)) i = Some e) by (by rewrite zget_ztake).
    rewrite (zdrop_cons _ _ _ He') in Hrs. apply Forall2_cons_inv_l in Hrs as (r & rs' & [He1 Hr] & Hrs & ->).
    destruct (writetup_heap_ok (wst s lts n a) lts t lt cs e r eq_refl Ht Hh He1 Hr) as (lt1 & Hh1 & ->).
    rewrite rbind_ret. cbv zeta. change (slabAllocatorUsed (wst s lts n a)) with (slabAllocatorUsed s).
    change (randomAccess (wst s lts n a)) with (randomAccess s) in Hh1.
    rewrite Hslab.
    destruct (IH (zset lts t lt1) lt1 _ rs' (n - 1) (a + GetMemoryChunkSpace (t_len r)) (i + 1)
      ltac:(by apply zget_zset_eq) Hh1) as (lt' & a' & Hd & Hh'); [by rewrite zlen_zset|lia|lia|done|].
    exists lt', a'. rewrite zset_zset_eq in Hd. rewrite <- app_assoc in Hh'. split; [|exact Hh'].
    replace (n - (N - i)) with (n - 1 - (N - (i + 1))) by lia. exact Hd.
  - exists lt, a. rewrite zset_id by done. replace (n - (N - i)) with n by lia. split; [done|].
    assert (Hnil : zdrop i (ztake N (memtuples s)) = []).
    { apply zlen_0_inv. unfold zdrop, ztake, zlen. rewrite length_drop, length_take. lia. }
    rewrite Hnil in Hrs. inversion Hrs; subst. by rewrite app_nil_r.
Qed.

(** ** The runs on the tapes *)

Record laid (s : Tuplesortstate) (T : list mtape) (L : nat) : Prop := {
  la_keys : keys_wf (sortKeys s);
  la_only : onlyKey s = true -> exists k, sortKeys s = [k] /\ abbrev_converter k = None;
  la_array : array_ok s;
  la_tapes : tapeset s = Some (tapes_of T);
  la_acts : mergeactive s = acts_of T;
  la_nums : tp_tapenum s = units s;
  la_runs : tp_runs s = runs_of T (units s);
  la_write : Forall (write_tape s) T;
  la_len : zlen T = tapeRange s + 1;
  la_max : maxTapes s = tapeRange s + 1;
  la_range : 2 <= tapeRange s <= INT_MAX;
  la_dlen : zlen (tp_dummy s) = tapeRange s + 1;
  la_dpos : Forall (fun d => 0 <= d) (tp_dummy s);
  la_level : Level s = Z.of_nat (S L);
  la_fib : tp_fib s = fibv (Z.to_nat (tapeRange s)) (S L);
  la_counts : counts T (units s) (tp_dummy s) = tp_fib s;
  la_small : Forall (fun c => c <= INT_MAX) (tp_fib s);
  la_cur : currentRun s = zsum (tp_runs s)
}.

(** The rows in memory. *)
Record loaded (s : Tuplesortstate) (mem : list MinimalTuple) : Prop := {
  lo_count : 0 <= memtupcount s <= memtupsize s;
  lo_entries : Forall2 (is_entry (sortKeys s)) (ztake (memtupcount s) (memtuples s)) mem;
  lo_rows : Forall row_ok mem
}.

Record building (s : Tuplesortstate) (T : list mtape) (L : nat) (mem : list MinimalTuple) : Prop := {
  bd_status : status s = TSS_BUILDRUNS;
  bd_laid : laid s T L;
  bd_dist : dist_ok (tapeRange s) (tp_dummy s) (destTape s);
  bd_level : Level s <= currentRun s + 1;
  bd_cur : currentRun s <= zlen (all_rows T);
  bd_loaded : loaded s mem
}.

(** A tape with one more run. *)
Definition more_runs (x : mtape) (lt : LogicalTape) (run : list MinimalTuple) : mtape :=
  mk_mt lt false false [] (mt_runs x ++ [run]) [].

Lemma write_tape_more s x lt run :
  write_tape s x -> run_ok s run -> holds lt (enc_runs (randomAccess s) (mt_runs x) ++ enc_run (randomAccess s) run) ->
  write_tape s (more_runs x lt run).
Proof.
  intros ((Hrem & Hruns & _) & _) Hr Hh. split; [|done]. split; [by repeat constructor|].
  split; [apply Forall_app; split; [done|by apply Forall_singleton]|]. cbn -[enc_runs]. do 2 (split; [done|]).
  rewrite enc_runs_app, app_nil_r. unfold enc_runs at 2. cbn [mbind list_bind].
  by rewrite app_nil_r.
Qed.

Lemma units_assigns s : assigns (units s) (tapeRange s + 1).
Proof. by unfold assigns, units. Qed.

Lemma zget_units s k : 0 <= k <= tapeRange s -> zget (units s) k = Some k.
Proof.
  intros Hk. unfold units, zget. destruct (Z.leb_spec 0 k); [|lia].
  apply lookup_seqZ. lia.
Qed.

Lemma zlen_units s : 0 <= tapeRange s -> zlen (units s) = tapeRange s + 1.
Proof. intros. apply assigns_len; [lia|apply units_assigns]. Qed.

(** A unit's run takes the place of a dummy run. *)
Lemma counts_more T s j d x :
  0 <= j <= tapeRange s -> zlen T = tapeRange s + 1 -> zget (tp_dummy s) j = Some d ->
  zlen (mt_runs x) = zlen (mt_runs (tget T j)) + 1 ->
  counts (zset T j x) (units s) (zset (tp_dummy s) j (d - 1)) = counts T (units s) (tp_dummy s).
Proof.
  intros Hj Hl Hd Hx. pose proof (zget_bounds _ _ _ Hd) as Hdb. apply zlist_eq. intros k Hk.
  pose proof (zlen_units s ltac:(lia)) as Hul. unfold counts.
  destruct (Z.lt_ge_cases k (Z.min (tapeRange s + 1) (zlen (tp_dummy s)))) as [Hlt|Hge].
  - pose proof (zget_units s k ltac:(lia)) as Hu. destruct (zget_is_Some (tp_dummy s) k) as [e He]; [lia|].
    rewrite (zget_zip_with _ _ _ k k e Hu He).
    assert (He' : zget (zset (tp_dummy s) j (d - 1)) k = Some (if Z.eqb j k then d - 1 else e)).
    { rewrite zget_zset by done. by destruct (Z.eqb j k). }
    rewrite (zget_zip_with _ _ _ k k _ Hu He'). f_equal. rewrite tget_zset by lia.
    destruct (Z.eqb_spec j k) as [<-|]; [|done]. assert (e = d) as -> by congruence. lia.
  - rewrite !zget_None; [done|..]; unfold zlen in *; rewrite length_zip_with; try rewrite length_insert; lia || idtac.
    rewrite ?length_insert. unfold zset. destruct (Z.leb 0 j); rewrite ?length_insert; lia.
Qed.

Lemma zget_counts s T k d :
  0 <= k <= tapeRange s -> zget (tp_dummy s) k = Some d ->
  zget (counts T (units s) (tp_dummy s)) k = Some (zlen (mt_runs (tget T k)) + d).
Proof.
  intros Hk Hd. unfold counts. exact (zget_zip_with _ _ _ k k d (zget_units s k Hk) Hd).
Qed.

Lemma zget_runs s T k :
  0 <= k <= tapeRange s -> zget (runs_of T (units s)) k = Some (zlen (mt_runs (tget T k))).
Proof. intros Hk. unfold runs_of. rewrite zget_fmap, zget_units by done. done. Qed.

(** ** One run *)

Section dump.
Context (E : SortEnv) `{!SortEnvOk E}.

(** Sorting the rows in memory. *)
Lemma sort_loaded s mem :
  keys_wf (sortKeys s) -> array_ok s -> loaded s mem ->
  (onlyKey s = true -> exists k, sortKeys s = [k] /\ abbrev_converter k = None) ->
  exists m run, tuplesort_sort_memtuples E s = Ok (set_memtuples m s) /\
    zlen m = zlen (memtuples s) /\ run ≡ₚ mem /\ run_ok s run /\
    Forall2 written (ztake (memtupcount s) m) run.
Proof.
  intros Hwf Hao [Hn Hent Hrows] Ho. pose proof (ao_len _ Hao) as Hlen.
  destruct (tuplesort_sort_memtuples_ok E s Hwf) as (m & Hs & Hl & Hp & Hss); [lia|done|].
  symmetry in Hp. destruct (Forall2_perm_l _ _ _ _ Hp Hent) as (run & Hrp & Hrun).
  assert (Hok : Forall row_ok run) by (by rewrite <- Hrp).
  exists m, run. do 2 (split; [done|]). split; [done|]. split.
  - split; [done|]. eapply Forall2_sorted; [|exact Hrun|exact Hss].
    intros a a' b b' Ha Ha' Hle. by apply (entry_cle _ a a' b b').
  - clear -Hrun Hok. induction Hrun as [|e r es rs [He _] _ IH]; [done|].
    inversion Hok; subst. constructor; [done|auto].
Qed.

(** The state after a dump. *)
Definition dumped (s : Tuplesortstate) (m : list SortTuple) (lts : LogicalTapeSet) (a : Z)
    (runs dum : list Z) : Tuplesortstate :=
  set_tp_dummy dum (set_tp_runs runs (wst (set_memtuples m (set_currentRun (currentRun s + 1) s)) lts 0 a)).

Lemma dumped_laid s T L m lt a v x run :
  laid s T L -> 0 <= destTape s < tapeRange s -> zget (tp_dummy s) (destTape s) = Some v -> 1 <= v ->
  zget T (destTape s) = Some x -> zlen m = zlen (memtuples s) ->
  write_tape s (more_runs x lt run) ->
  let T' := zset T (destTape s) (more_runs x lt run) in
  laid (dumped s m (tapes_of T') a (zset (tp_runs s) (destTape s) (zlen (mt_runs x) + 1))
          (zset (tp_dummy s) (destTape s) (v - 1))) T' L.
Proof.
  intros [] Hj Hv Hv1 Hx Hm Hw T'. pose proof (tget_Some _ _ _ Hx) as Hg.
  assert (Hruns : zset (tp_runs s) (destTape s) (zlen (mt_runs x) + 1) = runs_of T' (units s)).
  { unfold T'. rewrite (runs_of_zset T (units s) (tapeRange s + 1) (destTape s)) by
      (apply units_assigns || done || (apply zget_units; lia)).
    rewrite la_runs0. f_equal. cbn. by rewrite zlen_app. }
  assert (Hr : zget (tp_runs s) (destTape s) = Some (zlen (mt_runs x))).
  { rewrite la_runs0, zget_runs, Hg by lia. done. }
  assert (Hacts : acts_of T' = acts_of T).
  { apply (acts_of_same T (destTape s) x); [done|]. cbn.
    by destruct (Forall_zget _ _ _ _ la_write0 Hx) as (_ & _ & -> & _). }
  split; try done.
  - destruct la_array0. split; try done. cbn. by rewrite Hm.
  - cbn. by rewrite Hacts.
  - unfold T'. apply Forall_zset; [|done]. exact la_write0.
  - unfold T'. by rewrite zlen_zset.
  - cbn. by rewrite zlen_zset.
  - cbn. apply Forall_zset; [done|lia].
  - unfold T'. cbn [dumped tp_dummy tp_fib set_tp_dummy].
    change (units _) with (units s). rewrite counts_more; [done|lia|done|done|]. cbn.
    rewrite zlen_app, Hg. done.
  - cbn. rewrite (zsum_zset _ _ _ _ Hr), la_cur0. lia.
Qed.

Lemma dumptuples_dumps s T L mem v all :
  laid s T L -> loaded s mem -> currentRun s < INT_MAX -> 0 <= destTape s < tapeRange s ->
  zget (tp_dummy s) (destTape s) = Some v -> 1 <= v ->
  (memtupcount s <? memtupsize s) && negb (LACKMEM s) && negb all = false ->
  exists m lt a run x, zget T (destTape s) = Some x /\ run ≡ₚ mem /\ run_ok s run /\
    let T' := zset T (destTape s) (more_runs x lt run) in
    let s1 := dumped s m (tapes_of T') a (zset (tp_runs s) (destTape s) (zlen (mt_runs x) + 1))
                (zset (tp_dummy s) (destTape s) (v - 1)) in
    dumptuples E s all = (if all then Ok s1 else selectnewtape s1) /\ laid s1 T' L.
Proof.
  intros Hla Hlo Hcur Hj Hv Hv1 Hguard. pose proof Hla as [].
  destruct (zget_is_Some T (destTape s)) as [x Hx]; [lia|].
  set (s1 := set_currentRun (currentRun s + 1) s).
  destruct (sort_loaded s1 mem) as (m & run & Hsort & Hm & Hrp & Hrun & Hwr); try done.
  { destruct la_array0. by split. } { destruct Hlo. by split. }
  pose proof (Forall_zget _ _ _ _ la_write0 Hx) as Hw. pose proof Hw as ((_ & _ & Hok) & Hrd & _ & Ho).
  rewrite Hrd in Hok. destruct Hok as (_ & _ & Hh). rewrite Ho, app_nil_r in Hh.
  assert (Hlt : zget (tapes_of T) (destTape s) = Some (mt_lt x)) by (unfold tapes_of; by rewrite zget_fmap, Hx).
  pose proof (lo_count _ _ Hlo) as Hn. pose proof (ao_len _ la_array0) as Hal.
  set (s2 := set_memtuples m s1).
  destruct (dump_loop_ok (S (Z.to_nat (memtupcount s))) s2 (tapes_of T) (destTape s) (mt_lt x) _ run
    (memtupcount s) (availMem s) 0 (memtupcount s) Hlt Hh) as (lt1 & a & Hdump & Hh1).
  { apply (ao_slab _ la_array0). } { lia. } { change (memtuples s2) with m. rewrite Hm. cbn. lia. } { lia. }
  { exact Hwr. }
  assert (Hwst : wst s2 (tapes_of T) (memtupcount s) (availMem s) = s2).
  { unfold wst. rewrite <- la_tapes0. by destruct s. }
  rewrite Hwst in Hdump. replace (memtupcount s - (memtupcount s - 0)) with 0 in Hdump by lia.
  assert (Hlt1 : zget (zset (tapes_of T) (destTape s) lt1) (destTape s) = Some lt1).
  { apply zget_zset_eq. unfold tapes_of. rewrite zlen_fmap. lia. }
  destruct (markrunend_ok (wst s2 (zset (tapes_of T) (destTape s) lt1) 0 a) _ (destTape s) lt1 _ eq_refl
    Hlt1 Hh1) as (lt & Hmark & Hh2).
  rewrite zset_zset_eq in Hmark. rewrite <- app_assoc in Hh2.
  assert (Hg : zget (tp_runs s) (destTape s) = Some (zlen (mt_runs x))).
  { rewrite la_runs0, zget_runs by lia. by rewrite (tget_Some _ _ _ Hx). }
  pose proof (zget_counts s T (destTape s) v ltac:(lia) Hv) as Hc. rewrite la_counts0 in Hc.
  pose proof (Forall_zget _ _ _ _ la_small0 Hc) as Hcs. cbn in Hcs. rewrite (tget_Some _ _ _ Hx) in Hcs.
  pose proof (zlen_nonneg (mt_runs x)).
  pose proof (zget_bounds _ _ _ Hv) as Hvb. pose proof (zget_bounds _ _ _ Hg) as Hgb.
  exists m, lt, a, run, x. do 3 (split; [done|]). cbv zeta. split.
  2:{ apply dumped_laid; try done. by apply write_tape_more. }
  unfold dumptuples. rewrite Hguard. destruct (Z.eqb_spec (currentRun s) INT_MAX); [lia|].
  fold s1. rewrite Hsort, rbind_ret. fold s2. change (destTape s2) with (destTape s).
  change (tp_tapenum s2) with (tp_tapenum s). change (memtupcount s2) with (memtupcount s).
  rewrite la_nums0, (aget_Ok _ _ _ (zget_units s (destTape s) ltac:(lia))), rbind_ret, Hdump, rbind_ret.
  rewrite Hmark, rbind_ret.
  set (s3 := set_tapeset _ _). change (tp_runs s3) with (tp_runs s). change (destTape s3) with (destTape s).
  change (tp_dummy s3) with (tp_dummy s).
  rewrite (aget_Ok _ _ _ Hg), rbind_ret, aset_Ok, rbind_ret by done.
  rewrite (aget_Ok _ _ _ Hv), rbind_ret, aset_Ok, rbind_ret by done.
  rewrite !int32_id by (unfold is_int32, INT_MIN, INT_MAX in *; lia).
  unfold tapes_of. rewrite fmap_zset. reflexivity.
Qed.
End dump.

(** ** The numbers of runs *)

Lemma counts_as_runs s T dum :
  counts T (units s) dum = zip_with Z.add (runs_of T (units s)) dum.
Proof. unfold counts, runs_of. by rewrite zip_with_fmap_l. Qed.

Lemma runs_of_length s T : length (runs_of T (units s)) = Z.to_nat (tapeRange s + 1).
Proof. unfold runs_of, units. by rewrite length_fmap, length_seqZ. Qed.

(** When no dummy run is left, every run of the distribution is real. *)
Lemma laid_full s T L :
  laid s T L -> Forall (fun d => d = 0) (tp_dummy s) -> tp_runs s = tp_fib s.
Proof.
  intros [] Hz. rewrite <- la_counts0, counts_as_runs, zip_add_zeros; [done| |done].
  rewrite runs_of_length. unfold zlen in la_dlen0. lia.
Qed.

Lemma laid_runs_pos s T L : laid s T L -> Forall (fun x => 0 <= x) (tp_runs s).
Proof.
  intros Hla. rewrite (la_runs _ _ _ Hla). apply Forall_fmap, Forall_true. intros t. apply zlen_nonneg.
Qed.

(** The next tape is chosen. *)
Lemma laid_select s T L dum v :
  laid s T L -> Level s <= currentRun s -> currentRun s < INT_MAX ->
  dist_ok (tapeRange s) dum (destTape s) -> zget dum (destTape s) = Some v ->
  tp_dummy s = zset dum (destTape s) (v - 1) ->
  exists s' L', selectnewtape s = Ok s' /\ laid s' T L' /\
    dist_ok (tapeRange s') (tp_dummy s') (destTape s') /\ Level s' <= currentRun s' + 1 /\
    exists L' dum' j', s' = dst s L' dum' j'.
Proof.
  intros Hla HL Hcur Hd Hv Hdum. pose proof Hla as [].
  destruct (selectnewtape_ok s L dum v) as (L' & dum' & j' & -> & Hd' & Hcase); try done; try lia.
  { intros Hz. rewrite <- (laid_full s T L Hla Hz), <- la_cur0. lia. }
  exists (dst s L' dum' j'), L'. split; [done|].
  assert (Hcur' : currentRun (dst s L' dum' j') = currentRun s) by done.
  split; [|split; [exact Hd'|split; [|by exists L', dum', j']]].
  2:{ rewrite Hcur'. change (Z.of_nat (S L') <= currentRun s + 1).
      destruct Hcase as [[-> _] | [-> _]]; lia. }
  pose proof (do_len _ _ _ Hd') as Hdl. pose proof (dist_pos _ _ _ Hd') as Hdp.
  destruct Hcase as [[-> ->] | (-> & Hz & Heq)].
  - split; try done; [by destruct la_array0|..]; cbn [dst tp_fib set_destTape set_tp_dummy set_tp_fib];
      rewrite <- la_fib0; done.
  - assert (Hsum : zsum (fibv (Z.to_nat (tapeRange s)) (S L)) <= INT_MAX).
    { rewrite <- la_fib0, <- (laid_full s T L Hla Hz), <- la_cur0. lia. }
    split; try done; [by destruct la_array0| |].
    + cbn [dst tp_fib tp_dummy set_destTape set_tp_dummy set_tp_fib]. change (units (dst _ _ _ _)) with (units s).
      rewrite counts_as_runs, Heq. f_equal. by rewrite <- la_runs0, (laid_full s T L Hla Hz).
    + apply fibv_small; [lia|done].
Qed.

Lemma all_rows_more T j x lt run :
  zget T j = Some x -> all_rows (zset T j (more_runs x lt run)) ≡ₚ all_rows T ++ run.
Proof.
  intros Hx. unfold all_rows. rewrite fmap_zset.
  pose proof (concat_zset ((fun x => concat (mt_runs x)) <$> T) j (concat (mt_runs x))
    (concat (mt_runs x) ++ run)) as Hc. rewrite zget_fmap, Hx in Hc. specialize (Hc eq_refl).
  cbn [more_runs mt_runs]. rewrite concat_app. cbn [concat]. rewrite app_nil_r.
  apply (Permutation_app_inv_l (concat (mt_runs x))). rewrite Hc, <- app_assoc.
  apply Permutation_app_head, Permutation_app_comm.
Qed.

Lemma dst_cur s L dum j : currentRun (dst s L dum j) = currentRun s.
Proof. done. Qed.

Section put.
Context (E : SortEnv) `{!SortEnvOk E}.

Definition kept (s s' : Tuplesortstate) : Prop :=
  sortKeys s' = sortKeys s /\ randomAccess s' = randomAccess s.

(** [dumptuples] between two puts: either there is room left, or the rows in
    memory become a run. *)
Lemma dumptuples_more s T L mem :
  building s T L mem -> mem <> [] -> zlen (all_rows T ++ mem) < INT_MAX ->
  exists s' T' L' mem', dumptuples E s false = Ok s' /\ building s' T' L' mem' /\
    memtupcount s' < memtupsize s' /\ all_rows T' ++ mem' ≡ₚ all_rows T ++ mem /\ kept s s'.
Proof.
  intros Hbd Hne Hmax. pose proof Hbd as [Hst Hla Hd HL Hcur Hlo].
  destruct ((memtupcount s <? memtupsize s) && negb (LACKMEM s) && negb false) eqn:Hg.
  { exists s, T, L, mem. unfold dumptuples. rewrite Hg. apply andb_true_iff in Hg as [Hg _].
    apply andb_true_iff in Hg as [Hg%Z.ltb_lt _]. do 3 (split; [done|]). by split. }
  pose proof (do_some _ _ _ Hd) as (v & Hv & Hv1). pose proof (do_dest _ _ _ Hd) as Hj.
  pose proof (zlen_nonneg mem) as Hmem. rewrite zlen_app in Hmax.
  assert (Hmem1 : 1 <= zlen mem).
  { destruct mem; [done|]. rewrite zlen_cons. pose proof (zlen_nonneg mem). lia. }
  destruct (dumptuples_dumps E s T L mem v false) as (m & lt & a & run & x & Hx & Hrp & Hrun & Hdump & Hla1);
    try done; try lia.
  rewrite Hdump. set (s1 := dumped _ _ _ _ _ _) in *. set (T' := zset T _ _) in *. 
  assert (Hrows : all_rows T' ≡ₚ all_rows T ++ mem).
  { unfold T'. by rewrite all_rows_more, Hrp. }
  assert (Hl : zlen (all_rows T') = zlen (all_rows T) + zlen mem).
  { rewrite <- zlen_app. unfold zlen. by rewrite Hrows. }
  assert (Hc1 : currentRun s1 = currentRun s + 1) by done.
  assert (Hl1 : Level s1 = Level s) by done.
  destruct (laid_select s1 T' L (tp_dummy s) v Hla1) as (s' & L' & -> & Hla' & Hd' & HL' & Heq); try done; try lia.
  destruct Heq as (? & dum' & j' & ->).
  pose proof (ao_size _ (la_array _ _ _ Hla')) as Hsz. change INITIAL_MEMTUPSIZE with 1024 in Hsz.
  assert (Hn : memtupcount (dst s1 x0 dum' j') = 0) by done.
  exists (dst s1 x0 dum' j'), T', L', []. split; [done|]. split; [|split; [lia|split; [by rewrite app_nil_r|done]]].
  split; try done.
  - rewrite dst_cur. lia.
  - split; [lia| |constructor]. rewrite Hn. constructor.
Qed.

(** Abbreviation is not given up any more. *)
Lemma copytup_building s t :
  status s = TSS_BUILDRUNS -> keys_wf (sortKeys s) ->
  exists stup, copytup_heap s t = Ok (USEMEM (GetMemoryChunkSpace (t_len t)) s, stup) /\
    is_entry (sortKeys s) stup t.
Proof.
  intros Hst Hwf. destruct (kw_abbrev _ Hwf) as (k & ks & Hk & _). unfold copytup_heap.
  set (s1 := USEMEM _ s). change (sortKeys s1) with (sortKeys s). rewrite Hk.
  destruct (heap_getattr t (ssup_attno k)) as [d isn] eqn:Hg.
  destruct (abbrev_converter k) as [conv|] eqn:Hconv.
  2:{ eexists. split; [done|]. by apply entry_not_abbreviated. }
  destruct isn eqn:Hisn.
  { eexists. split; [done|]. split; [done|]. cbn. by rewrite Hg, Hconv. }
  unfold consider_abort_common. change (sortKeys s1) with (sortKeys s). rewrite Hk.
  change (status s1) with (status s). rewrite Hst. cbn [bool_decide andb].
  rewrite bool_decide_eq_false_2 by done. cbn [andb rbind negb]. eexists. split; [done|].
  split; [done|]. cbn. by rewrite Hg, Hconv.
Qed.

(** The rows in memory after one more was stored. *)
Lemma loaded_store s mem e t :
  array_ok s -> loaded s mem -> memtupcount s < memtupsize s -> is_entry (sortKeys s) e t -> row_ok t ->
  let s' := set_memtupcount (memtupcount s + 1) (set_memtuples (zset (memtuples s) (memtupcount s) e) s) in
  aset (memtuples s) (memtupcount s) e = Ok (zset (memtuples s) (memtupcount s) e) /\
  array_ok s' /\ loaded s' (mem ++ [t]).
Proof.
  intros [Hl Hs Hsl] [Hn He Hr] Hroom Het Hok s'. split; [apply aset_Ok; lia|]. split.
  - split; [|done|done]. cbn. by rewrite zlen_zset.
  - split; [cbn; lia| |apply Forall_app; split; [done|by apply Forall_singleton]].
    cbn [s' memtupcount memtuples sortKeys set_memtupcount set_memtuples].
    rewrite (ztake_succ _ _ e) by (apply zget_zset_eq; lia). rewrite ztake_zset_ge by lia.
    apply Forall2_app; [done|]. by constructor.
Qed.

Lemma building_store s T L mem e t a :
  building s T L mem -> memtupcount s < memtupsize s -> is_entry (sortKeys s) e t -> row_ok t ->
  let s1 := set_availMem a s in
  let s' := set_memtupcount (memtupcount s + 1) (set_memtuples (zset (memtuples s) (memtupcount s) e) s1) in
  aset (memtuples s1) (memtupcount s1) e = Ok (zset (memtuples s) (memtupcount s) e) /\
  building s' T L (mem ++ [t]).
Proof.
  intros [Hst Hla Hd HL Hcur Hlo] Hroom He Hr s1 s'. pose proof (la_array _ _ _ Hla) as Hao.
  destruct (loaded_store s1 mem e t) as (Ha & Hao' & Hlo'); try done.
  { destruct Hao. by split. } { destruct Hlo. by split. }
  split; [exact Ha|]. split; try done. destruct Hla. by split.
Qed.

Lemma puttupleslot_building s T L mem t :
  building s T L mem -> memtupcount s < memtupsize s -> row_ok t ->
  zlen (all_rows T ++ mem) + 1 < INT_MAX ->
  exists s' T' L' mem', tuplesort_puttupleslot E s t = Ok s' /\ building s' T' L' mem' /\
    memtupcount s' < memtupsize s' /\ all_rows T' ++ mem' ≡ₚ (all_rows T ++ mem) ++ [t] /\ kept s s'.
Proof.
  intros Hbd Hroom Hr Hmax. pose proof (bd_status _ _ _ _ Hbd) as Hst.
  destruct (copytup_building s t Hst (la_keys _ _ _ (bd_laid _ _ _ _ Hbd))) as (e & Hcopy & He).
  set (a := availMem s - GetMemoryChunkSpace (t_len t)).
  destruct (building_store s T L mem e t a Hbd Hroom He Hr) as [Hset Hbd'].
  destruct (dumptuples_more _ T L (mem ++ [t]) Hbd') as (s' & T' & L' & mem' & Hd & Hb & Hro & Hp & Hk).
  { by destruct mem. } { rewrite app_assoc, zlen_app. change (zlen [t]) with 1. lia. }
  exists s', T', L', mem'. split; [|split; [done|split; [done|split; [by rewrite <- app_assoc|exact Hk]]]].
  unfold tuplesort_puttupleslot. rewrite Hcopy, rbind_ret. unfold puttuple_common.
  change (status (USEMEM _ s)) with (status s). rewrite Hst. unfold USEMEM. fold a.
  rewrite Hset, rbind_ret. exact Hd.
Qed.
End put.

(** ** The first tapes *)

Lemma merge_order_range m : MINORDER <= tuplesort_merge_order m <= MAXORDER.
Proof. unfold tuplesort_merge_order, MINORDER, MAXORDER. lia. Qed.

(** The distribution of level 1: one (dummy) run for each input unit. *)
Definition level1 (r : nat) : list Z := replicate r 1 ++ [0].

Lemma level1_set r : zset (replicate (S r) 1) (Z.of_nat r) 0 = level1 r.
Proof.
  unfold level1, zset. destruct (Z.leb_spec 0 (Z.of_nat r)); [|lia]. rewrite Nat2Z.id.
  rewrite replicate_S_end. rewrite insert_app_r_alt by (by rewrite length_replicate).
  by rewrite length_replicate, Nat.sub_diag.
Qed.

Lemma level1_fibv r : level1 r = fibv r 1.
Proof. unfold level1. cbn. by rewrite fmap_replicate. Qed.

Lemma level1_dummies r : (1 <= r)%nat -> level_dummies (Z.of_nat r) (level1 r).
Proof.
  intros Hr. assert (Hlen : zlen (replicate r 1) = Z.of_nat r) by (unfold zlen; by rewrite length_replicate).
  assert (Hone : forall k, 0 <= k < Z.of_nat r -> zget (level1 r) k = Some 1).
  { intros k Hk. unfold level1. rewrite zget_app_l by lia. unfold zget. destruct (Z.leb_spec 0 k); [|lia].
    apply lookup_replicate_2. lia. }
  assert (Hlast : zget (level1 r) (Z.of_nat r) = Some 0).
  { unfold level1. rewrite zget_app_r by lia. by rewrite Hlen, Z.sub_diag. }
  assert (Hl : zlen (level1 r) = Z.of_nat r + 1).
  { unfold level1. rewrite zlen_app, Hlen. done. }
  split; [done| |done|exists 1; split; [apply Hone; lia|lia]].
  intros k x y Hk Hx Hy. pose proof (zget_bounds _ _ _ Hy). rewrite Hone in Hx by lia. injection Hx as <-.
  destruct (Z.eq_dec (k + 1) (Z.of_nat r)) as [He|]; [rewrite He, Hlast in Hy|rewrite Hone in Hy by lia];
    injection Hy as <-; lia.
Qed.

(** The state after [inittapes], for [r] input units. *)
Definition init_state (s : Tuplesortstate) (r : nat) (a : Z) : Tuplesortstate :=
  set_status TSS_BUILDRUNS (set_destTape 0 (set_Level 1 (set_tp_dummy (level1 r) (set_tp_fib (level1 r)
    (set_tp_tapenum (seqZ 0 (Z.of_nat r + 1)) (set_tp_runs (replicate (S r) 0) (set_currentRun 0
      (set_tapeset (Some (replicate (S r) empty_tape)) (set_tapeRange (Z.of_nat r)
        (set_maxTapes (Z.of_nat r + 1) (set_mergeactive (replicate (S r) false) (set_availMem a s)))))))))))).

Lemma inittapes_state s :
  exists r a, inittapes s = Ok (init_state s r a) /\ (6 <= r <= 500)%nat.
Proof.
  pose proof (merge_order_range (allowedMem s)) as Hr. unfold MINORDER, MAXORDER in Hr.
  set (o := tuplesort_merge_order (allowedMem s)) in *. exists (Z.to_nat o).
  set (a := if (o + 1) * TAPE_BUFFER_OVERHEAD + memtuples_space s <? allowedMem s
            then availMem s - (o + 1) * TAPE_BUFFER_OVERHEAD else availMem s).
  exists a. split; [|lia]. unfold inittapes. fold o. cbv zeta.
  unfold inittapestate.
  replace (Z.to_nat (o + 1)) with (S (Z.to_nat o)) by lia. replace (o + 1 - 1) with o by lia.
  cbn [tapeRange set_tapeRange set_tp_tapenum set_tp_runs set_currentRun set_tapeset].
  rewrite aset_Ok by (unfold zlen; rewrite length_replicate; lia). rewrite rbind_ret, rbind_ret.
  replace (zset (replicate (S (Z.to_nat o)) 1) o 0) with (level1 (Z.to_nat o)).
  2:{ rewrite <- level1_set. by rewrite Z2Nat.id by lia. }
  unfold init_state, LogicalTapeSetCreate. rewrite Z2Nat.id by lia.
  replace (Z.of_nat <$> seq 0 (S (Z.to_nat o))) with (seqZ 0 (o + 1)).
  2:{ unfold seqZ. replace (Z.to_nat (o + 1)) with (S (Z.to_nat o)) by lia. apply list_fmap_ext. intros. lia. }
  replace (Z.to_nat (o + 1)) with (S (Z.to_nat o)) by lia.
  unfold a. by destruct ((o + 1) * TAPE_BUFFER_OVERHEAD + memtuples_space s <? allowedMem s); destruct s.
Qed.

Lemma all_rows_blank n : all_rows (replicate n blank_tape) = [].
Proof. unfold all_rows. rewrite fmap_replicate. by induction n. Qed.

Lemma zsum_replicate0 n : zsum (replicate n 0) = 0.
Proof. induction n as [|n IH]; [done|]. cbn. exact IH. Qed.

Lemma init_laid s r a keys0 ins used :
  initial_inv keys0 s ins used -> (6 <= r <= 500)%nat ->
  laid (init_state s r a) (replicate (S r) blank_tape) 0.
Proof.
  intros Hinv Hr. destruct (initial_keys_wf _ _ _ _ Hinv) as [Hwf _].
  pose proof (ii_only _ _ _ _ Hinv) as Honly. pose proof (ii_array _ _ _ _ Hinv) as Hao.
  pose proof (ii_keys _ _ _ _ Hinv) as Hkeys.
  destruct (level1_dummies r ltac:(lia)).
  assert (Hu : units (init_state s r a) = seqZ 0 (Z.of_nat r + 1)) by done.
  assert (Hrun : runs_of (replicate (S r) blank_tape) (seqZ 0 (Z.of_nat r + 1)) = replicate (S r) 0).
  { apply list_eq. intros i. unfold runs_of. rewrite list_lookup_fmap.
    destruct (decide (i < S r)%nat) as [Hi|Hi].
    - rewrite lookup_replicate_2 by done. rewrite lookup_seqZ_lt by lia. cbn [fmap option_fmap option_map]. unfold tget, zget.
      destruct (Z.leb_spec 0 (0 + Z.of_nat i)); [|lia]. rewrite lookup_replicate_2 by lia. done.
    - rewrite lookup_seqZ_ge by lia. symmetry. apply lookup_ge_None. rewrite length_replicate. lia. }
  split; try done.
  - intros Ho. destruct (Honly Ho) as (k & Hk0 & Hc). change (sortKeys (init_state s r a)) with (sortKeys s).
    destruct Hkeys as [-> | ->]; rewrite Hk0; [by exists k|by exists (disable_abbrev k)].
  - by destruct Hao.
  - cbn. unfold tapes_of. by rewrite fmap_replicate.
  - cbn. unfold acts_of. by rewrite fmap_replicate.
  - apply Forall_replicate. split; [|done]. split; [by repeat constructor|]. split; [by constructor|].
    cbn. do 2 (split; [done|]). split; [done|]. split; [done|]. split; [done|constructor].
  - unfold zlen. rewrite length_replicate. cbn. lia.
  - cbn. unfold INT_MAX. lia.
  - apply Forall_app. split; [by apply Forall_replicate|by repeat constructor].
  - change (level1 r = fibv (Z.to_nat (Z.of_nat r)) 1). rewrite Nat2Z.id. apply level1_fibv.
  - rewrite counts_as_runs, Hu, Hrun. change (zip_with Z.add (replicate (S r) 0) (level1 r) = level1 r).
    clear. unfold level1.
    rewrite replicate_S_end, zip_with_app by (by rewrite !length_replicate). f_equal.
    by rewrite zip_with_replicate.
  - apply Forall_app. split; [apply Forall_replicate|repeat constructor]; unfold INT_MAX; lia.
  - symmetry. apply (zsum_replicate0 (S r)).
Qed.

Lemma inittapes_ok s keys0 ins used :
  initial_inv keys0 s ins used -> Forall row_ok ins ->
  exists s' T, inittapes s = Ok s' /\ building s' T 0 ins /\ all_rows T = [] /\ kept s s'.
Proof.
  intros Hinv Hrows. destruct (inittapes_state s) as (r & a & Hin & Hr).
  pose proof (init_laid s r a keys0 ins used Hinv Hr) as Hla.
  pose proof (ii_count _ _ _ _ Hinv). pose proof (ii_entries _ _ _ _ Hinv).
  exists (init_state s r a), (replicate (S r) blank_tape).
  split; [done|]. split; [|split; [apply all_rows_blank|done]].
  split; try done.
  - apply level_dist; [cbn; lia|]. apply level1_dummies. lia.
  - rewrite all_rows_blank. done.
Qed.

(** ** The last run *)

(** The units without dummy runs all have a run. *)
Lemma laid_zeros s T L : laid s T L -> zlen (zeros s (tp_dummy s)) <= currentRun s.
Proof.
  intros Hla. pose proof (laid_runs_pos s T L Hla) as Hpos. destruct Hla.
  rewrite la_cur0. apply zsum_positions; [done|apply NoDup_filter, NoDup_seqZ|].
  intros k Hk. unfold zeros in Hk. apply list_elem_of_filter in Hk as [Hd Hk%elem_of_seqZ].
  destruct (fibv_units (tapeRange s) L k) as (c & Hc & Hc1); [lia|lia|].
  rewrite <- la_fib0, <- la_counts0 in Hc. rewrite (zget_counts s T k 0) in Hc by (done || lia).
  injection Hc as <-. exists (zlen (mt_runs (tget T k))).
  rewrite la_runs0, zget_runs by lia. split; [done|lia].
Qed.

Lemma laid_built s T L :
  laid s T L -> memtupcount s = 0 -> has_run T -> 1 <= currentRun s <= INT_MAX ->
  Level s <= INT_MAX -> built s T L.
Proof.
  intros Hla Hn Hrun Hcur HL. pose proof (laid_zeros s T L Hla). destruct Hla.
  split; try done; try lia.
  - by rewrite la_counts0.
  - intros c Hc. rewrite la_counts0 in Hc. by apply (proj1 (Forall_forall _ _) la_small0).
Qed.

Lemma dumptuples_last E `{!SortEnvOk E} s T L mem :
  building s T L mem -> zlen (all_rows T ++ mem) < INT_MAX ->
  exists s' T', dumptuples E s true = Ok s' /\ built s' T' L /\
    all_rows T' ≡ₚ all_rows T ++ mem /\ kept s s'.
Proof.
  intros [Hst Hla Hd HL Hcur Hlo] Hmax. rewrite zlen_app in Hmax. pose proof (zlen_nonneg mem).
  pose proof (do_some _ _ _ Hd) as (v & Hv & Hv1). pose proof (do_dest _ _ _ Hd) as Hj.
  destruct (dumptuples_dumps E s T L mem v true) as (m & lt & a & run & x & Hx & Hrp & Hrun & Hdump & Hla1);
    try done; try lia.
  rewrite Hdump. set (s1 := dumped _ _ _ _ _ _) in *. set (T' := zset T _ _) in *.
  exists s1, T'. split; [done|]. split; [|split; [unfold T'; by rewrite all_rows_more, Hrp|done]].
  pose proof (zget_bounds _ _ _ Hx).
  assert (Hpos : 0 <= currentRun s).
  { rewrite (la_cur _ _ _ Hla). by apply zsum_nonneg, (laid_runs_pos s T L). }
  apply laid_built; try done.
  - exists (destTape s), (more_runs x lt run). split; [by apply zget_zset_eq|]. cbn. by destruct (mt_runs x).
  - change (currentRun s1) with (currentRun s + 1). lia.
  - change (Level s1) with (Level s). lia.
Qed.
