(* ===== verification/TuplesortCursor.v ===== *)
(** * Reading the result of a sort

    [tuplesort_gettuple_common] over an in-memory result, with
    [tuplesort_markpos], [tuplesort_restorepos] and [tuplesort_rescan],
    implements the scrollable cursor of SQL; the whole life of an in-memory
    top-N sort delivers the answer of ORDER BY ... LIMIT. *)

From Stdlib Require Import ZArith Lia.
From stdpp Require Import base list sorting strings.
From S2P Require Import Prelude HeapTheory SortSupport TuplesortHeap LogTape TuplesortState Tuplesort TuplesortMem.

Local Open Scope Z_scope.

(** ** The specification: a scrollable cursor over a list of rows

    The position is the number of the current row: 0 is before the first
    row, [n + 1] after the last. *)
Module Scroll.
Inductive op := Next | Prior | Mark | Restore | Rewind.

Record state := mk { pos : Z; mark : Z }.

(** The row fetched, if any. *)
Definition step {A} (rows : list A) (c : state) (o : op) : state * option A :=
  let n := zlen rows in
  match o with
  | Next => let p := Z.min (pos c + 1) (n + 1) in (mk p (mark c), zget rows (p - 1))
  | Prior => let p := Z.max (pos c - 1) 0 in (mk p (mark c), zget rows (p - 1))
  | Mark => (mk (pos c) (pos c), None)
  | Restore => (mk (mark c) (mark c), None)
  | Rewind => (mk 0 0, None)
  end.

Fixpoint run {A} (rows : list A) (c : state) (ops : list op) : list (option A) :=
  match ops with
  | [] => []
  | o :: ops => let '(c, r) := step rows c o in r :: run rows c ops
  end.
End Scroll.

(** ** The implementation *)

Definition cursor_step (E : SortEnv) (s : Tuplesortstate) (o : Scroll.op)
    : res (Tuplesortstate * option MinimalTuple) :=
  match o with
  | Scroll.Next =>
    do! ' (s, r) <- tuplesort_gettupleslot s true ;; Ok (s, fst <$> r)
  | Scroll.Prior =>
    do! ' (s, r) <- tuplesort_gettupleslot s false ;; Ok (s, fst <$> r)
  | Scroll.Mark => do! s <- tuplesort_markpos E s ;; Ok (s, None)
  | Scroll.Restore => do! s <- tuplesort_restorepos E s ;; Ok (s, None)
  | Scroll.Rewind => do! s <- tuplesort_rescan s ;; Ok (s, None)
  end.

Fixpoint cursor_run (E : SortEnv) (s : Tuplesortstate) (ops : list Scroll.op)
    : res (list (option MinimalTuple)) :=
  match ops with
  | [] => Ok []
  | o :: ops =>
    do! ' (s, r) <- cursor_step E s o ;;
    do! rs <- cursor_run E s ops ;;
    Ok (r :: rs)
  end.

(** The row position that [current] and [eof_reached] stand for. *)
Definition row_pos (n cur : Z) (eof : bool) : Z := if eof then n + 1 else cur.

(** On an empty result the two end positions cannot be told apart. *)
Definition pos_ok (n cur : Z) (eof : bool) (p : Z) : Prop :=
  0 <= cur <= n /\ (eof = true -> cur = n) /\
  (p = row_pos n cur eof \/ (n = 0 /\ 0 <= p <= 1)).

Record cursor_sim (keys0 : list SortSupportData) (s : Tuplesortstate) (out : list MinimalTuple)
    (c : Scroll.state) : Prop := {
  cs_result : result_inv keys0 s out;
  cs_nolimit : bounded s = true -> zlen out < bound s;
  cs_pos : pos_ok (zlen out) (current s) (eof_reached s) (Scroll.pos c);
  cs_mark : pos_ok (zlen out) (markpos_offset s) (markpos_eof s) (Scroll.mark c)
}.

Section cursor.
Context (E : SortEnv) (keys0 : list SortSupportData).
Implicit Types (s : Tuplesortstate) (out : list MinimalTuple).

Lemma result_slot s out i :
  result_inv keys0 s out -> 0 <= i < zlen out ->
  exists a t, zget (memtuples s) i = Some a /\ zget out i = Some t /\ tuple a = Some t.
Proof.
  intros Hr Hi. destruct (zget_is_Some out i Hi) as [t Ht].
  pose proof (ri_entries _ _ _ Hr) as He. pose proof (ri_count _ _ _ Hr).
  apply Forall2_flip in He.
  destruct (Forall2_zget_l _ _ _ _ _ He Ht) as (a & Ha & [Hat _]).
  exists a, t. rewrite zget_ztake in Ha by lia. done.
Qed.

Lemma result_key s out : result_inv keys0 s out -> exists k ks, sortKeys s = k :: ks.
Proof.
  intros [_ Hwf Hk _ _ _]. destruct (kw_abbrev _ Hwf) as (k & ks & -> & _).
  destruct Hk as [-> | ->]; eauto.
Qed.

(** Moving the cursor does not touch the result. *)
Lemma result_inv_cursor s out c e :
  result_inv keys0 s out -> result_inv keys0 (set_eof_reached e (set_current c s)) out.
Proof. by intros []. Qed.

(** Storing a fetched entry into the slot. *)
Lemma gettupleslot_fetched s s' fwd a t :
  tuplesort_gettuple_common s fwd = Ok (s', Some a) -> tuple a = Some t ->
  (exists k ks, sortKeys s' = k :: ks) ->
  exists ab, tuplesort_gettupleslot s fwd = Ok (s', Some (t, ab)).
Proof.
  intros Hg Ha (k & ks & Hk). unfold tuplesort_gettupleslot. rewrite Hg. cbn [rbind].
  rewrite Ha, Hk. eauto.
Qed.

Lemma gettupleslot_none s s' fwd :
  tuplesort_gettuple_common s fwd = Ok (s', None) ->
  tuplesort_gettupleslot s fwd = Ok (s', None).
Proof. intros Hg. unfold tuplesort_gettupleslot. by rewrite Hg. Qed.

Lemma gettuple_forward_row s out :
  result_inv keys0 s out -> 0 <= current s < zlen out ->
  exists t ab, tuplesort_gettupleslot s true =
    Ok (set_current (current s + 1) s, Some (t, ab)) /\ zget out (current s) = Some t.
Proof.
  intros Hr Hc. destruct (result_slot s out _ Hr Hc) as (a & t & Ha & Ht & Hat).
  destruct (gettupleslot_fetched s (set_current (current s + 1) s) true a t) as [ab Hab].
  - unfold tuplesort_gettuple_common. rewrite (ri_status _ _ _ Hr), (ri_count _ _ _ Hr).
    destruct (Z.ltb_spec (current s) (zlen out)); [|lia]. by arr.
  - done.
  - apply (result_key s out Hr).
  - by exists t, ab.
Qed.

Lemma gettuple_forward_end s out :
  result_inv keys0 s out -> zlen out <= current s ->
  tuplesort_gettupleslot s true =
    if bounded s && (current s >=? bound s)
    then Error "retrieved too many tuples in a bounded sort"
    else Ok (set_eof_reached true s, None).
Proof.
  intros Hr Hc. unfold tuplesort_gettupleslot, tuplesort_gettuple_common.
  rewrite (ri_status _ _ _ Hr), (ri_count _ _ _ Hr).
  destruct (Z.ltb_spec (current s) (zlen out)); [lia|].
  change (bounded (set_eof_reached true s)) with (bounded s).
  change (bound (set_eof_reached true s)) with (bound s).
  change (current (set_eof_reached true s)) with (current s).
  by destruct (bounded s && (current s >=? bound s)).
Qed.

(** Backward from the end: the last row again. *)
Lemma gettuple_backward_eof s out :
  result_inv keys0 s out -> eof_reached s = true -> 0 < current s <= zlen out ->
  exists t ab, tuplesort_gettupleslot s false =
    Ok (set_eof_reached false s, Some (t, ab)) /\ zget out (current s - 1) = Some t.
Proof.
  intros Hr He Hc. destruct (result_slot s out (current s - 1) Hr) as (a & t & Ha & Ht & Hat);
    [lia|].
  destruct (gettupleslot_fetched s (set_eof_reached false s) false a t) as [ab Hab].
  - unfold tuplesort_gettuple_common. rewrite (ri_status _ _ _ Hr), He.
    destruct (Z.leb_spec (current s) 0); [lia|].
    change (memtuples (set_eof_reached false s)) with (memtuples s).
    change (current (set_eof_reached false s)) with (current s). by arr.
  - done.
  - apply (result_key s out Hr).
  - by exists t, ab.
Qed.

Lemma gettuple_backward_row s out :
  result_inv keys0 s out -> eof_reached s = false -> 1 < current s <= zlen out ->
  exists t ab, tuplesort_gettupleslot s false =
    Ok (set_current (current s - 1) s, Some (t, ab)) /\ zget out (current s - 2) = Some t.
Proof.
  intros Hr He Hc. destruct (result_slot s out (current s - 2) Hr) as (a & t & Ha & Ht & Hat);
    [lia|].
  destruct (gettupleslot_fetched s (set_current (current s - 1) s) false a t) as [ab Hab].
  - unfold tuplesort_gettuple_common. rewrite (ri_status _ _ _ Hr), He.
    destruct (Z.leb_spec (current s) 0); [lia|].
    change (memtuples (set_current (current s - 1) s)) with (memtuples s).
    change (current (set_current (current s - 1) s)) with (current s - 1).
    destruct (Z.leb_spec (current s - 1) 0); [lia|].
    replace (current s - 1 - 1) with (current s - 2) by lia. by arr.
  - done.
  - apply (result_key s out Hr).
  - by exists t, ab.
Qed.

Lemma gettuple_backward_start s out :
  result_inv keys0 s out -> current s <= 0 ->
  tuplesort_gettupleslot s false = Ok (s, None).
Proof.
  intros Hr Hc. apply gettupleslot_none. unfold tuplesort_gettuple_common.
  rewrite (ri_status _ _ _ Hr). by destruct (Z.leb_spec (current s) 0); [|lia].
Qed.

Lemma gettuple_backward_first s out :
  result_inv keys0 s out -> eof_reached s = false -> current s = 1 ->
  tuplesort_gettupleslot s false = Ok (set_current 0 s, None).
Proof.
  intros Hr He Hc. apply gettupleslot_none. unfold tuplesort_gettuple_common.
  rewrite (ri_status _ _ _ Hr), He, Hc. done.
Qed.

Lemma sim_move s out c cur eof p :
  cursor_sim keys0 s out c -> pos_ok (zlen out) cur eof p ->
  cursor_sim keys0 (set_eof_reached eof (set_current cur s)) out (Scroll.mk p (Scroll.mark c)).
Proof. intros [] Hp. split; try done. by apply result_inv_cursor. Qed.

(** The limit of a bounded sort is not in the way of a fetch from row [q]. *)
Definition may_fetch s out (q : Z) : Prop :=
  bounded s = true -> zlen out < bound s \/ q < bound s <= zlen out.

Lemma get_next s out q :
  result_inv keys0 s out -> pos_ok (zlen out) (current s) (eof_reached s) q ->
  may_fetch s out q ->
  exists c e r, tuplesort_gettupleslot s true = Ok (set_eof_reached e (set_current c s), r) /\
    fst <$> r = zget out (Z.min (q + 1) (zlen out + 1) - 1) /\
    pos_ok (zlen out) c e (Z.min (q + 1) (zlen out + 1)).
Proof.
  intros Hr (Hc & He & Hp) Hn. pose proof (zlen_nonneg out) as Hz. unfold row_pos in Hp.
  destruct (Z.lt_ge_cases (current s) (zlen out)) as [Hlt|Hge].
  - destruct (gettuple_forward_row s out Hr) as (t & ab & -> & Ht); [lia|].
    assert (Hef : eof_reached s = false).
    { destruct (eof_reached s); [specialize (He eq_refl); lia|done]. }
    rewrite Hef in Hp. assert (q = current s) as -> by lia.
    exists (current s + 1), false, (Some (t, ab)). split; [|split].
    + rewrite <- Hef. by destruct s.
    + rewrite Z.min_l by lia. rewrite Z.add_simpl_r. by rewrite Ht.
    + unfold pos_ok, row_pos. lia.
  - rewrite (gettuple_forward_end s out Hr) by lia.
    replace (bounded s && (current s >=? bound s)) with false.
    2:{ destruct (bounded s) eqn:Hb; [|done]. destruct (Hn Hb) as [?|?].
        - cbn. symmetry. rewrite Z.geb_leb. apply Z.leb_gt. lia.
        - destruct (eof_reached s); lia. }
    exists (current s), true, None. split; [by destruct s|].
    assert (Hmin : Z.min (q + 1) (zlen out + 1) = zlen out + 1 \/ zlen out = 0 /\
              Z.min (q + 1) (zlen out + 1) = 1) by (destruct (eof_reached s); lia).
    split; [by rewrite zget_None by lia|]. unfold pos_ok, row_pos. lia.
Qed.

Lemma get_prior s out q :
  result_inv keys0 s out -> pos_ok (zlen out) (current s) (eof_reached s) q ->
  exists c e r, tuplesort_gettupleslot s false = Ok (set_eof_reached e (set_current c s), r) /\
    fst <$> r = zget out (Z.max (q - 1) 0 - 1) /\
    pos_ok (zlen out) c e (Z.max (q - 1) 0).
Proof.
  intros Hr (Hc & He & Hp). pose proof (zlen_nonneg out) as Hz. unfold row_pos in Hp.
  destruct (Z.le_gt_cases (current s) 0) as [H0|H0].
  { rewrite (gettuple_backward_start s out Hr) by lia.
    exists (current s), (eof_reached s), None. split; [by destruct s|].
    assert (Z.max (q - 1) 0 = 0) as ->
      by (destruct (eof_reached s); [specialize (He eq_refl)|]; lia).
    split; [by rewrite zget_None by lia|]. unfold pos_ok, row_pos.
    destruct (eof_reached s); [specialize (He eq_refl)|]; lia. }
  destruct (eof_reached s) eqn:Hef.
  - specialize (He eq_refl).
    destruct (gettuple_backward_eof s out Hr Hef) as (t & ab & -> & Ht); [lia|].
    assert (q = zlen out + 1) as -> by lia. rewrite Z.max_l by lia.
    exists (current s), false, (Some (t, ab)). split; [by destruct s|].
    split; [by rewrite Z.add_simpl_r, <- He, Ht|]. unfold pos_ok, row_pos. lia.
  - assert (q = current s) as -> by lia. destruct (Z.eq_dec (current s) 1) as [H1|H1].
    + rewrite (gettuple_backward_first s out Hr Hef H1), H1.
      exists 0, false, None. split; [rewrite <- Hef; by destruct s|].
      split; [by rewrite zget_None by lia|]. unfold pos_ok, row_pos. lia.
    + destruct (gettuple_backward_row s out Hr Hef) as (t & ab & -> & Ht); [lia|].
      rewrite Z.max_l by lia. exists (current s - 1), false, (Some (t, ab)).
      split; [rewrite <- Hef; by destruct s|]. split.
      * replace (current s - 1 - 1) with (current s - 2) by lia. by rewrite Ht.
      * unfold pos_ok, row_pos. lia.
Qed.

Lemma sim_next s out c :
  cursor_sim keys0 s out c ->
  exists s', cursor_step E s Scroll.Next = Ok (s', snd (Scroll.step out c Scroll.Next)) /\
    cursor_sim keys0 s' out (fst (Scroll.step out c Scroll.Next)).
Proof.
  intros Hs. pose proof Hs as [Hr Hn Hp _].
  destruct (get_next s out _ Hr Hp) as (cur & e & r & Hg & Hrow & Hp'); [by left; auto|].
  cbn [cursor_step]. rewrite Hg. cbn. rewrite Hrow. eexists. split; [done|]. by apply sim_move.
Qed.

Lemma sim_prior s out c :
  cursor_sim keys0 s out c ->
  exists s', cursor_step E s Scroll.Prior = Ok (s', snd (Scroll.step out c Scroll.Prior)) /\
    cursor_sim keys0 s' out (fst (Scroll.step out c Scroll.Prior)).
Proof.
  intros Hs. pose proof Hs as [Hr Hn Hp _].
  destruct (get_prior s out _ Hr Hp) as (cur & e & r & Hg & Hrow & Hp').
  cbn [cursor_step]. rewrite Hg. cbn. rewrite Hrow. eexists. split; [done|]. by apply sim_move.
Qed.

Lemma sim_step s out c o :
  cursor_sim keys0 s out c ->
  exists s', cursor_step E s o = Ok (s', snd (Scroll.step out c o)) /\
    cursor_sim keys0 s' out (fst (Scroll.step out c o)).
Proof.
  intros Hs. destruct o; [by apply sim_next|by apply sim_prior|..];
    destruct Hs as [Hr Hn Hp Hm]; cbn;
    unfold tuplesort_markpos, tuplesort_restorepos, tuplesort_rescan;
    rewrite (ri_status _ _ _ Hr); cbn; eexists; (split; [done|]).
  - split; try done. by destruct Hr.
  - split; try done. by apply result_inv_cursor.
  - pose proof (zlen_nonneg out).
    split; [by destruct Hr|done|..]; cbn; unfold pos_ok, row_pos; lia.
Qed.

Lemma cursor_sim_start s out :
  result_inv keys0 s out -> at_start s -> (bounded s = true -> zlen out < bound s) ->
  cursor_sim keys0 s out (Scroll.mk 0 0).
Proof.
  intros Hr [Hc He Hm Hme] Hn. pose proof (zlen_nonneg out).
  split; try done; cbn; unfold pos_ok, row_pos; rewrite ?Hc, ?He, ?Hm, ?Hme; lia.
Qed.

Lemma cursor_run_sim s out c ops :
  cursor_sim keys0 s out c -> cursor_run E s ops = Ok (Scroll.run out c ops).
Proof.
  revert s c. induction ops as [|o ops IH]; intros s c Hs; [done|].
  cbn [cursor_run Scroll.run]. destruct (sim_step s out c o Hs) as (s' & -> & Hs').
  destruct (Scroll.step out c o) as [c' r]. cbn in *. by rewrite (IH s' c' Hs').
Qed.
End cursor.

(** ** A whole sort *)

(** Feed a list of tuples. *)
Fixpoint put_all (E : SortEnv) (s : Tuplesortstate) (ts : list MinimalTuple)
    : res Tuplesortstate :=
  match ts with
  | [] => Ok s
  | t :: ts => do! s <- tuplesort_puttupleslot E s t ;; put_all E s ts
  end.

Lemma put_all_app E s ts us :
  put_all E s (ts ++ us) = (do! s <- put_all E s ts ;; put_all E s us).
Proof.
  revert s. induction ts as [|t ts IH]; intros s; cbn; [done|].
  rewrite rbind_assoc. destruct (tuplesort_puttupleslot E s t); cbn; auto.
Qed.

(** Loading in memory: an array with room left, or a bounded heap. *)
Definition load_inv (keys0 : list SortSupportData) (s : Tuplesortstate)
    (ins : list MinimalTuple) : Prop :=
  (initial_inv keys0 s ins (tuples_space ins) /\ memtupcount s < memtupsize s /\
   memtupcount s = zlen ins /\
   (bounded s = true -> memtupcount s <= 2 * bound s)) \/
  (bounded_inv keys0 s ins /\ bound s <= zlen ins).

(** The tuple [t] does not make the sort spill: there is an array slot, and
    memory, or already more tuples than the bound asks for. *)
Definition put_fits (s : Tuplesortstate) (ins : list MinimalTuple) (t : MinimalTuple) : Prop :=
  status s = TSS_INITIAL ->
  memtupcount s + 1 < memtupsize s /\
  (memtupsize s * 24 + 16 + tuples_space (ins ++ [t]) <= allowedMem s \/
   (bounded s = true /\ bound s < memtupcount s + 1)).

Lemma load_put E keys0 s ins t :
  load_inv keys0 s ins -> put_fits s ins t ->
  exists s', tuplesort_puttupleslot E s t = Ok s' /\ load_inv keys0 s' (ins ++ [t]) /\
    bounded s' = bounded s /\ bound s' = bound s /\
    (status s' = TSS_INITIAL -> memtupsize s' = memtupsize s /\ allowedMem s' = allowedMem s /\
       status s = TSS_INITIAL).
Proof.
  intros [(Hi & Hroom & Hn & H2b)|(Hb & Hbn)] Hfit.
  - destruct (Hfit (ii_status _ _ _ _ Hi)) as [Hslot Hmem].
    destruct (puttupleslot_initial E keys0 s ins t Hi Hroom)
      as (s2 & Hi2 & Hc2 & Hb2 & Hbd2 & Hal2 & Hsz2 & _ & _ & ->).
    specialize (Hsz2 Hslot).
    assert (Hn2 : memtupcount s2 = zlen (ins ++ [t])).
    { rewrite zlen_app. change (zlen [t]) with 1. lia. }
    assert (Hint : bounded s2 = true -> int32 (bound s2 * 2) = 2 * bound s2).
    { intros Hb. destruct (ii_bound _ _ _ _ Hi2 Hb) as [? _].
      change (INT_MAX / 2) with 1073741823 in *.
      rewrite int32_id by (unfold is_int32, INT_MIN, INT_MAX; lia). lia. }
    destruct (time_for_heap s2) eqn:Hheap.
    + unfold time_for_heap in Hheap. apply andb_true_iff in Hheap as [Hb Hor].
      specialize (Hint Hb). destruct (ii_bound _ _ _ _ Hi2 Hb) as [Hbd _].
      assert (Hgt : bound s2 < memtupcount s2).
      { rewrite Hint in Hor. apply orb_true_iff in Hor as [Hgt|[Hgt _]%andb_true_iff].
        - destruct (Z.gtb_spec (memtupcount s2) (2 * bound s2)); [lia|done].
        - destruct (Z.gtb_spec (memtupcount s2) (bound s2)); [lia|done]. }
      destruct (make_bounded_heap_ok keys0 s2 (ins ++ [t]) _ Hi2 Hb Hgt) as (s' & -> & Hinv' & Hbs).
      exists s'. split; [done|]. split; [right; split; [done|lia]|].
      split; [rewrite (bi_bounded _ _ _ Hinv'); congruence|]. split; [congruence|].
      rewrite (bi_status _ _ _ Hinv'). done.
    + assert (Hlack : LACKMEM s2 = false).
      { unfold LACKMEM. destruct (Z.ltb_spec (availMem s2) 0) as [Hneg|]; [|done].
        rewrite (ii_mem _ _ _ _ Hi2), Hal2, Hsz2 in Hneg.
        destruct Hmem as [? | [Hb Hgt]]; [lia|]. exfalso.
        unfold time_for_heap in Hheap. rewrite Hb2, Hb in Hheap. cbn [andb] in Hheap.
        apply orb_false_iff in Hheap as [_ Hl].
        destruct (Z.gtb_spec (memtupcount s2) (bound s2)); [|lia]. cbn [andb] in Hl.
        unfold LACKMEM in Hl. rewrite (ao_slab _ (ii_array _ _ _ _ Hi2)) in Hl.
        destruct (Z.ltb_spec (availMem s2) 0) as [|Hpos]; [done|].
        rewrite (ii_mem _ _ _ _ Hi2), Hal2, Hsz2 in Hpos. lia. }
      rewrite Hlack. destruct (Z.ltb_spec (memtupcount s2) (memtupsize s2)); [|lia].
      exists s2. split; [done|]. split.
      * left. split; [done|]. split; [done|]. split; [done|]. intros Hb. specialize (Hint Hb).
        unfold time_for_heap in Hheap. rewrite Hb, Hint in Hheap. cbn [andb] in Hheap.
        apply orb_false_iff in Hheap as [Hgt _].
        destruct (Z.gtb_spec (memtupcount s2) (2 * bound s2)); [done|lia].
      * split; [done|]. split; [done|]. intros _. split; [done|]. split; [done|].
        apply (ii_status _ _ _ _ Hi).
  - destruct (puttupleslot_bounded E keys0 s ins t Hb) as (s' & -> & Hb' & Hbs).
    exists s'. split; [done|]. split.
    { right. split; [done|]. rewrite zlen_app. change (zlen [t]) with 1. lia. }
    split; [by rewrite (bi_bounded _ _ _ Hb), (bi_bounded _ _ _ Hb')|]. split; [done|].
    rewrite (bi_status _ _ _ Hb'). done.
Qed.

(** Memory for a top-[b] sort of tuples of at most [c] bytes of chunk space. *)
Record topn_budget (workMem b c : Z) (ts : list MinimalTuple) : Prop := {
  tb_bound : 1 <= b <= 510;
  tb_size : Forall (fun t => GetMemoryChunkSpace (t_len t) <= c) ts;
  tb_mem : 24592 + b * c <= Z.max workMem 64 * 1024
}.

Lemma tuples_space_le c ts :
  Forall (fun t => GetMemoryChunkSpace (t_len t) <= c) ts -> tuples_space ts <= zlen ts * c.
Proof.
  induction 1 as [|t ts Ht _ IH]; [done|]. rewrite zlen_cons. cbn. unfold tuples_space in IH. lia.
Qed.

(** In a bounded sort within its budget every tuple fits. *)
Lemma budget_fits keys0 workMem b c s ins t ts :
  topn_budget workMem b c (ins ++ t :: ts) -> load_inv keys0 s ins ->
  bounded s = true -> bound s = b ->
  (status s = TSS_INITIAL ->
     memtupsize s = INITIAL_MEMTUPSIZE /\ allowedMem s = Z.max workMem 64 * 1024) ->
  put_fits s ins t.
Proof.
  intros [Hbb Hsz Hmem] Hl Hb Hbd Hst Hini. destruct (Hst Hini) as [-> ->].
  destruct Hl as [(Hi & _ & Hn & H2)|(Hbi & _)]; [|by rewrite (bi_status _ _ _ Hbi) in Hini].
  specialize (H2 Hb). change INITIAL_MEMTUPSIZE with 1024.
  split; [lia|]. destruct (Z.lt_ge_cases (bound s) (memtupcount s + 1)); [by right|left].
  replace (ins ++ t :: ts) with ((ins ++ [t]) ++ ts) in Hsz by (by rewrite <- app_assoc).
  apply Forall_app in Hsz as [Hsz _]. pose proof (tuples_space_le c _ Hsz) as Hle.
  rewrite zlen_app in Hle. change (zlen [t]) with 1 in Hle.
  assert (0 <= c).
  { apply Forall_app in Hsz as [_ Ht]. inversion Ht as [|?? Hc ?]; subst.
    pose proof (chunk_space_pos (t_len t)). lia. }
  nia.
Qed.

Lemma put_all_topn E keys0 workMem b c s ins ts :
  topn_budget workMem b c (ins ++ ts) -> load_inv keys0 s ins ->
  bounded s = true -> bound s = b ->
  (status s = TSS_INITIAL ->
     memtupsize s = INITIAL_MEMTUPSIZE /\ allowedMem s = Z.max workMem 64 * 1024) ->
  exists s', put_all E s ts = Ok s' /\ load_inv keys0 s' (ins ++ ts) /\
    bounded s' = true /\ bound s' = b.
Proof.
  revert s ins. induction ts as [|t ts IH]; intros s ins Hbud Hl Hb Hbd Hst.
  { exists s. by rewrite app_nil_r. }
  cbn [put_all]. pose proof (budget_fits keys0 workMem b c s ins t ts Hbud Hl Hb Hbd Hst) as Hfit.
  destruct (load_put E keys0 s ins t Hl Hfit) as (s1 & -> & Hl1 & Hb1 & Hbd1 & Hst1).
  cbn [rbind]. destruct (IH s1 (ins ++ [t])) as (s' & -> & Hl' & Hb' & Hbd'); auto.
  - by rewrite <- app_assoc.
  - congruence.
  - congruence.
  - intros Hini. destruct (Hst1 Hini) as (-> & -> & Hini0). by apply Hst.
  - exists s'. rewrite <- app_assoc in Hl'. done.
Qed.

(** Finishing gives an ordered answer whose first [bound] rows are the top ones. *)
Lemma load_performsort E `{!SortEnvOk E} keys0 s ins :
  load_inv keys0 s ins -> bounded s = true ->
  exists s' out, tuplesort_performsort E s = Ok s' /\ result_inv keys0 s' out /\ at_start s' /\
    topn (tcmp keys0) (bound s) ins (ztake (bound s) out) /\
    zlen out = (if boundUsed s' then bound s else zlen ins) /\
    bounded s' = true /\ bound s' = bound s /\
    (2 * bound s < zlen ins -> boundUsed s' = true).
Proof.
  intros [(Hi & _ & Hcnt & H2b)|(Hb & Hbn)] Hbd.
  - destruct (performsort_initial E keys0 s ins _ Hi)
      as (s' & out & -> & Hr & Has & Hp & Hu & Hb' & Hbd').
    exists s', out. do 3 (split; [done|]). destruct (ii_bound _ _ _ _ Hi Hbd) as [? _].
    split.
    + apply (topn_of_sorted (tcmp keys0)); [lia|apply Hr|done].
    + rewrite Hu. split; [unfold zlen; by rewrite Hp|]. split; [congruence|]. split; [done|].
      specialize (H2b Hbd). lia.
  - destruct (performsort_bounded E keys0 s ins Hb)
      as (s' & out & -> & Hr & Has & Htop & Hu & Hb' & Hbd').
    exists s', out. do 3 (split; [done|]). rewrite (topn_ztake (tcmp keys0) _ ins) by done.
    split; [done|]. rewrite Hu. split; [|done]. destruct Htop as (_ & -> & _). lia.
Qed.

(** Begin a sort limited to [b] tuples, feed it and finish it. *)
Definition top_sort (E : SortEnv) (keys : list SortSupportData) (workMem : Z)
    (ra : bool) (b : Z) (ins : list MinimalTuple) : res Tuplesortstate :=
  do! s <- tuplesort_begin_heap keys workMem ra ;;
  do! s <- put_all E (tuplesort_set_bound s b) ins ;;
  tuplesort_performsort E s.

(** Fetch up to [n] rows. *)
Fixpoint fetch (n : nat) (s : Tuplesortstate) : res (Tuplesortstate * list MinimalTuple) :=
  match n with
  | O => Ok (s, [])
  | S n =>
    do! ' (s, r) <- tuplesort_gettupleslot s true ;;
    match r with
    | None => Ok (s, [])
    | Some (t, _) => do! ' (s, ts) <- fetch n s ;; Ok (s, t :: ts)
    end
  end.

(** A sort that has just been begun and given its bound. *)
Lemma begin_bounded_ok keys workMem ra b :
  keys_wf keys -> 1 <= b <= 510 ->
  exists s0, tuplesort_begin_heap keys workMem ra = Ok s0 /\
    load_inv keys (tuplesort_set_bound s0 b) [] /\
    bounded (tuplesort_set_bound s0 b) = true /\ bound (tuplesort_set_bound s0 b) = b /\
    memtupsize (tuplesort_set_bound s0 b) = INITIAL_MEMTUPSIZE /\
    allowedMem (tuplesort_set_bound s0 b) = Z.max workMem 64 * 1024.
Proof.
  intros Hwf Hb. destruct (tuplesort_begin_heap_ok keys workMem ra Hwf)
    as (s0 & Hbeg & Hi & Hc & Hsz & Hb0 & _ & Hal & _).
  destruct (tuplesort_set_bound_ok keys s0 0 b Hi) as (Hi1 & Hb1 & Hbd1 & Hc1 & Hsz1 & Hal1).
  { change (INT_MAX / 2) with 1073741823. lia. }
  exists s0. split; [done|]. split; [|by rewrite Hsz1, Hal1].
  left. split; [done|]. rewrite Hc1, Hsz1, Hc, Hsz. change INITIAL_MEMTUPSIZE with 1024.
  split; [lia|]. split; [done|]. lia.
Qed.

Lemma top_sort_ok E `{!SortEnvOk E} keys workMem ra b c ins :
  keys_wf keys -> topn_budget workMem b c ins ->
  exists s out, top_sort E keys workMem ra b ins = Ok s /\ result_inv keys s out /\ at_start s /\
    topn (tcmp keys) b ins (ztake b out) /\
    zlen out = (if boundUsed s then b else zlen ins) /\ bounded s = true /\ bound s = b /\
    (2 * b < zlen ins -> boundUsed s = true).
Proof.
  intros Hwf Hbud. unfold top_sort. pose proof (tb_bound _ _ _ _ Hbud) as Hb.
  destruct (begin_bounded_ok keys workMem ra b Hwf Hb) as (s0 & -> & Hl & Hb1 & Hbd1 & Hsz & Hal).
  cbn [rbind].
  destruct (put_all_topn E keys workMem b c (tuplesort_set_bound s0 b) [] ins)
    as (s1 & -> & Hl1 & Hbs & Hbds); auto.
  cbn [rbind]. subst b.
  destruct (load_performsort E keys s1 ins Hl1 Hbs) as (s' & out & -> & Hr & Has & Ht & Hz & ? & ? & ?).
  by exists s', out.
Qed.

Lemma fetch_rows keys0 n s out :
  result_inv keys0 s out -> 0 <= current s -> current s + Z.of_nat n <= zlen out ->
  exists s', fetch n s = Ok (s', ztake (Z.of_nat n) (zdrop (current s) out)) /\
    result_inv keys0 s' out /\ current s' = current s + Z.of_nat n /\
    bounded s' = bounded s /\ bound s' = bound s.
Proof.
  revert s. induction n as [|n IH]; intros s Hr Hc Hn.
  { exists s. cbn. split; [done|]. split; [done|]. split; [lia|done]. }
  cbn [fetch].
  destruct (gettuple_forward_row keys0 s out Hr) as (t & ab & -> & Ht); [lia|]. cbn [rbind].
  destruct (IH (set_current (current s + 1) s)) as (s' & -> & Hr' & Hc' & Hb' & Hbd').
  - by destruct Hr.
  - cbn. lia.
  - cbn. lia.
  - cbn [rbind current set_current]. exists s'. split.
    + do 2 f_equal. unfold zdrop, ztake, zget in *. destruct (Z.leb_spec 0 (current s)); [|lia].
      rewrite !Nat2Z.id. rewrite (drop_S out t (Z.to_nat (current s))) by done.
      replace (Z.to_nat (current s + 1)) with (S (Z.to_nat (current s))) by lia. done.
    + split; [done|]. cbn in Hc', Hb', Hbd'. split; [lia|]. done.
Qed.

(** ** A concrete sort environment *)

Definition merge_env : SortEnv :=
  mk_env (fun cmp l => merge_sort (cle cmp) l) (fun k l => merge_sort (cle (cmp_ssup k)) l)
    (fun size _ _ => size) (fun _ => 0) (fun n => 2 * n + 3).

#[global] Instance merge_env_ok : SortEnvOk merge_env.
Proof.
  split; cbn; intros *; try apply merge_sort_Permutation; [intros Hc; apply (StronglySorted_merge_sort _)..|lia].
Qed.

(** One ascending integer column. *)
Definition int_key : SortSupportData := mk_ssup false false 1 Z.sub None None None.
Definition int_row (z : Z) : MinimalTuple := mk_mtup 32 [Some z].

Lemma int_key_wf : keys_wf [int_key].
Proof.
  split; [|by exists int_key, []]. constructor; [|constructor]. split; [apply _|done].
Qed.

(** ** Properties *)

(** A bounded sort that fits its memory budget always succeeds, and the
    rows fetched from it are the answer of ORDER BY ... LIMIT b over the
    tuples put in: sorted, the first b (or all) of them, with nothing left
    out that sorts before a row delivered. *)
Theorem tuplesort_topn E `{!SortEnvOk E} keys workMem ra b c ins :
  keys_wf keys -> topn_budget workMem b c ins ->
  exists s s' rows, top_sort E keys workMem ra b ins = Ok s /\
    fetch (Z.to_nat (Z.min b (zlen ins))) s = Ok (s', rows) /\
    topn (tcmp keys) b ins rows.
Proof.
  intros Hwf Hbud. pose proof (tb_bound _ _ _ _ Hbud).
  destruct (top_sort_ok E keys workMem ra b c ins Hwf Hbud)
    as (s & out & -> & Hr & [Hc _ _ _] & Ht & Hz & Hb & Hbd & _).
  assert (Hmin : Z.min b (zlen out) = Z.min b (zlen ins)).
  { destruct Ht as (_ & Hl & _). rewrite zlen_ztake_min in Hl by lia. lia. }
  pose proof (zlen_nonneg ins).
  destruct (fetch_rows keys (Z.to_nat (Z.min b (zlen ins))) s out Hr) as (s' & Hf & _);
    [lia|lia|].
  exists s, s', (ztake b out). split; [done|]. split; [|done]. rewrite Hf, Hc.
  do 2 f_equal. change (zdrop 0 out) with out. rewrite Z2Nat.id by lia.
  destruct (Z.le_ge_cases b (zlen ins)).
  - by rewrite Z.min_l by lia.
  - assert (zlen out <= zlen ins) by (destruct (boundUsed s); lia).
    rewrite Z.min_r by lia. rewrite !ztake_all by lia. done.
Qed.

Lemma tuplesort_topn_witness :
  exists s s' rows,
    top_sort merge_env [int_key] 4096 false 2 (int_row <$> [5; 3; 9; 1; 4; 7; 2]) = Ok s /\
    fetch 2 s = Ok (s', rows) /\
    topn (tcmp [int_key]) 2 (int_row <$> [5; 3; 9; 1; 4; 7; 2]) rows.
Proof.
  change (fetch 2) with (fetch (Z.to_nat (Z.min 2 (zlen (int_row <$> [5; 3; 9; 1; 4; 7; 2]))))).
  apply (tuplesort_topn merge_env [int_key] 4096 false 2 48 (int_row <$> [5; 3; 9; 1; 4; 7; 2])).
  - apply int_key_wf.
  - split; [lia| |vm_compute; discriminate].
    repeat (constructor; [vm_compute; discriminate|]). constructor.
Defined.

(** An in-memory result is a scrollable cursor: every sequence of forward
    and backward fetches, marks, restores and rescans returns the rows the SQL
    cursor returns, as long as the sort's bound is not exhausted. *)
Theorem tuplesort_scroll_refines E keys s out ops :
  result_inv keys s out -> at_start s -> (bounded s = true -> zlen out < bound s) ->
  cursor_run E s ops = Ok (Scroll.run out (Scroll.mk 0 0) ops).
Proof.
  intros Hr Has Hn. apply (cursor_run_sim E keys). by apply cursor_sim_start.
Qed.

(** Three rows sorted in memory. *)
Definition three_sorted : res Tuplesortstate :=
  do! s <- tuplesort_begin_heap [int_key] 4096 true ;;
  do! s <- put_all merge_env s (int_row <$> [3; 1; 2]) ;;
  tuplesort_performsort merge_env s.

Lemma three_sorted_ok :
  exists s, three_sorted = Ok s /\ result_inv [int_key] s (int_row <$> [1; 2; 3]) /\ at_start s /\
    bounded s = false.
Proof.
  eexists. split; [vm_compute; reflexivity|]. split; [|by split].
  split; [done|apply int_key_wf|by left|done| |].
  - vm_compute. repeat (constructor; [by split|]). constructor.
  - repeat (constructor; [|repeat (constructor; [vm_compute; discriminate|]); constructor]).
    constructor.
Qed.

Lemma tuplesort_scroll_refines_witness :
  exists s, three_sorted = Ok s /\
    cursor_run merge_env s [Scroll.Next; Scroll.Next; Scroll.Mark; Scroll.Next; Scroll.Next; Scroll.Prior;
                  Scroll.Restore; Scroll.Prior] =
    Ok [Some (int_row 1); Some (int_row 2); None; Some (int_row 3); None; Some (int_row 3);
        None; Some (int_row 1)].
Proof.
  destruct three_sorted_ok as (s & Hs & Hr & Has & Hb). exists s. split; [exact Hs|].
  rewrite (tuplesort_scroll_refines merge_env [int_key] s (int_row <$> [1; 2; 3])); [reflexivity|..].
  - exact Hr.
  - exact Has.
  - intros Hbt. congruence.
Defined.

(** A bounded sort refuses to be read past its bound: when exactly [b]
    rows survive, the fetch after the last of them raises an error instead of
    reporting the end of the data. *)
Theorem tuplesort_bound_overrun E `{!SortEnvOk E} keys workMem ra b c ins :
  keys_wf keys -> topn_budget workMem b c ins -> (zlen ins = b \/ 2 * b < zlen ins) ->
  exists s s' rows, top_sort E keys workMem ra b ins = Ok s /\
    fetch (Z.to_nat b) s = Ok (s', rows) /\
    tuplesort_gettupleslot s' true = Error "retrieved too many tuples in a bounded sort".
Proof.
  intros Hwf Hbud Hn. pose proof (tb_bound _ _ _ _ Hbud).
  destruct (top_sort_ok E keys workMem ra b c ins Hwf Hbud)
    as (s & out & -> & Hr & [Hc _ _ _] & Ht & Hz & Hb & Hbd & Hused).
  assert (Hlen : zlen out = b).
  { destruct Hn as [Hn|Hn]; [|by rewrite (Hused Hn) in Hz]. destruct (boundUsed s); congruence. }
  destruct (fetch_rows keys (Z.to_nat b) s out Hr) as (s' & Hf & Hr' & Hc' & Hb' & Hbd');
    [lia|lia|].
  eexists s, s', _. split; [done|]. split; [exact Hf|].
  rewrite (gettuple_forward_end keys s' out Hr') by lia.
  rewrite Hb', Hb, Hbd', Hbd. cbn [andb]. rewrite Z.geb_leb.
  by destruct (Z.leb_spec b (current s')); [|lia].
Qed.

Lemma tuplesort_bound_overrun_witness :
  exists s s' rows,
    top_sort merge_env [int_key] 4096 false 2 (int_row <$> [5; 3; 9; 1; 4; 7; 2]) = Ok s /\
    fetch 2 s = Ok (s', rows) /\
    tuplesort_gettupleslot s' true = Error "retrieved too many tuples in a bounded sort".
Proof.
  apply (tuplesort_bound_overrun merge_env [int_key] 4096 false 2 48
           (int_row <$> [5; 3; 9; 1; 4; 7; 2])).
  - apply int_key_wf.
  - split; [lia| |vm_compute; discriminate].
    repeat (constructor; [vm_compute; discriminate|]). constructor.
  - right. vm_compute. reflexivity.
Defined.
