(* ===== verification/TuplesortExternal.v ===== *)
(** * External sorts, from the first put to the last row read

    The phases of an external sort put together: loading in memory, building
    runs, merging, and reading the result off the final merge or off the
    result tape.  However little memory the sort is given, it delivers a
    sorted permutation of its input. *)

From Stdlib Require Import ZArith Lia.
From stdpp Require Import base list sorting strings.
From S2P Require Import Prelude HeapTheory SortSupport TuplesortHeap LogTape TuplesortState Tuplesort TapeRuns TuplesortMem RunMerge Polyphase MergeRuns ExternalMerge Distribution RunBuild TuplesortCursor.

Local Open Scope Z_scope.

(** ** Reading rows in order *)

(** [R s rest]: the rows [rest] are still to be read from [s].  A fetch takes a
    row that sorts before the others, or reports the end. *)
Definition delivers (cmp : MinimalTuple -> MinimalTuple -> Z)
    (R : Tuplesortstate -> list MinimalTuple -> Prop) : Prop :=
  forall s rest, R s rest ->
    (rest = [] /\ exists s', tuplesort_gettupleslot s true = Ok (s', None) /\ R s' []) \/
    (exists s' t ab rest', tuplesort_gettupleslot s true = Ok (s', Some (t, ab)) /\
       R s' rest' /\ rest ≡ₚ t :: rest' /\ Forall (cle cmp t) rest').

Lemma fetch_delivered cmp R s rest :
  delivers cmp R -> R s rest ->
  exists s' out, fetch (S (length rest)) s = Ok (s', out) /\ out ≡ₚ rest /\
    StronglySorted (cle cmp) out.
Proof.
  intros HR. remember (length rest) as n eqn:Hn. revert s rest Hn.
  induction n as [|n IH]; intros s rest Hn Hs;
    (destruct (HR s rest Hs) as [(-> & s' & Hg & _) | (s' & t & ab & rest' & Hg & Hs' & Hp & Hall)]);
    try (cbn in Hn; lia).
  - exists s', []. cbn. rewrite Hg. cbn. split; [done|]. split; [done|constructor].
  - apply Permutation_length in Hp. cbn in Hp. lia.
  - destruct (IH s' rest') as (s2 & out & Hf & Hpo & Hso); [apply Permutation_length in Hp; cbn in Hp; lia|done|].
    exists s2, (t :: out). split; [|split; [by rewrite Hp, Hpo|constructor; [done|by rewrite Hpo]]].
    remember (S n) as m eqn:Hm. cbn [fetch]. rewrite Hg, rbind_ret, Hf. done.
Qed.

(** Every row comes, then the end, for ever. *)
Lemma run_delivered E cmp R s rest k :
  delivers cmp R -> R s rest ->
  exists out, cursor_run E s (replicate (length rest + k) Scroll.Next) =
      Ok ((Some <$> out) ++ replicate k None) /\
    out ≡ₚ rest /\ StronglySorted (cle cmp) out.
Proof.
  intros HR. remember (length rest) as n eqn:Hn. revert s rest Hn.
  induction n as [|n IH]; intros s rest Hn Hs.
  - apply eq_sym, length_zero_iff_nil in Hn as ->. exists []. split; [|split; [done|constructor]].
    cbn [fmap list_fmap app Nat.add]. revert s Hs. induction k as [|k IHk]; intros s Hs; [done|].
    destruct (HR s [] Hs) as [(_ & s' & Hg & Hs') | (s' & t & ab & rest' & _ & _ & Hp & _)].
    2:{ by apply Permutation_nil_cons in Hp. }
    cbn [replicate cursor_run cursor_step]. rewrite Hg. cbn [rbind fmap option_fmap option_map].
    rewrite (IHk s' Hs'). done.
  - destruct (HR s rest Hs) as [(-> & _) | (s' & t & ab & rest' & Hg & Hs' & Hp & Hall)]; [done|].
    destruct (IH s' rest') as (out & Hrun & Hpo & Hso); [apply Permutation_length in Hp; cbn in Hp; lia|done|].
    exists (t :: out). split; [|split; [by rewrite Hp, Hpo|constructor; [done|by rewrite Hpo]]].
    cbn [Nat.add replicate cursor_run cursor_step]. rewrite Hg. cbn [rbind fmap option_fmap option_map fst].
    rewrite Hrun. done.
Qed.

(** ** The in-memory result *)

Definition in_memory (keys0 : list SortSupportData) (s : Tuplesortstate) (rest : list MinimalTuple) : Prop :=
  exists out, result_inv keys0 s out /\ bounded s = false /\ 0 <= current s <= zlen out /\
    rest = zdrop (current s) out.

Lemma in_memory_delivers keys0 : delivers (tcmp keys0) (in_memory keys0).
Proof.
  intros s rest (out & Hr & Hb & Hc & ->). destruct (Z.lt_ge_cases (current s) (zlen out)) as [Hlt|Hge].
  - right. destruct (gettuple_forward_row keys0 s out Hr) as (t & ab & Hg & Ht); [lia|].
    exists (set_current (current s + 1) s), t, ab, (zdrop (current s + 1) out). split; [done|].
    rewrite (zdrop_cons out (current s) t Ht). split; [|split; [done|]].
    + exists out. split; [by destruct Hr|]. split; [done|]. split; [cbn; lia|done].
    + pose proof (ri_sorted _ _ _ Hr) as Hs. rewrite <- (ztake_zdrop (current s) out) in Hs.
      rewrite (zdrop_cons out (current s) t Ht) in Hs. clear -Hs.
      induction (ztake (current s) out) as [|x l IH]; cbn in Hs.
      * by apply StronglySorted_inv in Hs as [_ Hs].
      * apply StronglySorted_inv in Hs as [Hs _]. auto.
  - left. assert (Hnil : zdrop (current s) out = []).
    { apply zlen_0_inv. unfold zdrop, zlen in *. rewrite length_drop. lia. }
    split; [done|]. rewrite (gettuple_forward_end keys0 s out Hr) by lia. rewrite Hb. cbn [andb].
    eexists. split; [reflexivity|]. exists out. split; [by destruct Hr|]. by split.
Qed.

(** ** The final merge *)

(** Fetching the root of the merge heap. *)
Definition merges (cmp : MinimalTuple -> MinimalTuple -> Z) (s : Tuplesortstate)
    (rest : list MinimalTuple) : Prop := merging s rest /\ tcmp (sortKeys s) = cmp.

Lemma minv_state s s' L T m n b :
  sortKeys s' = sortKeys s -> randomAccess s' = randomAccess s -> minv s L T m n b -> minv s' L T m n b.
Proof.
  intros Hk Hr []. unfold mtape_ok, run_ok, entry_ok, COMPARETUP in *.
  split; unfold mtape_ok, run_ok, entry_ok, COMPARETUP; rewrite ?Hk, ?Hr; done.
Qed.

(** A tape whose run is used up is given back. *)
Lemma release_tape s L T m n t x :
  slabAllocatorUsed s = true -> minv s L T m n (zlen T) -> zget T t = Some x -> mt_act x = false -> mt_read x = true ->
  exists T', upd_tapes (mst s T m n) (fun lts => LogicalTapeRewindForWrite lts t) = Ok (mst s T' m n) /\
    minv s L T' m n (zlen T') /\ left_rows T' ≡ₚ left_rows T.
Proof.
  intros Hslab Hinv Hx Ha Hr.
  pose proof (Forall_zget _ _ _ _ (mi_tapes _ _ _ _ _ _ Hinv) Hx) as (Hrem & _ & Hok).
  rewrite Hr in Hok. destruct Hok as (Hf & Hnil & Hrd).
  assert (Hlt : zget (tapes_of T) t = Some (mt_lt x)) by (unfold tapes_of; by rewrite zget_fmap, Hx).
  destruct (LogicalTapeRewindForWrite_ok (tapes_of T) t (mt_lt x) _ Hlt Hrd Hf) as (lt & Hw & Hh).
  set (x' := mk_mt lt false false [] [] []). exists (zset T t x'). split; [|split].
  - rewrite (upd_tapes_ok (mst s T m n) (tapes_of T) _ _ eq_refl Hw). f_equal.
    unfold mst. rewrite (acts_of_same T t x) by (done || by rewrite Ha).
    unfold tapes_of. by rewrite fmap_zset.
  - rewrite zlen_zset. apply (minv_idle s Hslab L T m n (zlen T) t x x'); try done.
    split; [by repeat constructor|]. split; [constructor|]. cbn. done.
  - pose proof (left_rows_set T t x x' Hx) as Hl. by rewrite (Hnil Ha) in Hl.
Qed.

(** The fields a fetch looks at. *)
Lemma mst_status s T m n : status (mst s T m n) = status s.
Proof. reflexivity. Qed.

Lemma mst_count s T m n : memtupcount (mst s T m n) = n.
Proof. reflexivity. Qed.

Lemma mst_tuples s T m n : memtuples (mst s T m n) = m.
Proof. reflexivity. Qed.

Lemma merging_next s L T m n top :
  base_ok s -> status s = TSS_FINALMERGE -> minv s L T m n (zlen T) -> 0 < n -> zget m 0 = Some top ->
  exists T' m' n', tuplesort_gettuple_common (mst s T m n) true = Ok (mst s T' m' n', Some top) /\
    minv s L T' m' n' (zlen T') /\
    heap_rows m n ++ left_rows T ≡ₚ tuple_of top :: heap_rows m' n' ++ left_rows T'.
Proof.
  intros [Hwf Hfull Hslab] Hst Hinv Hn Htop. pose proof (mi_entries _ _ _ _ _ _ Hinv) as Hent.
  assert (Hin : top ∈ ztake n m) by (apply zget_elem with 0; by rewrite zget_ztake by lia).
  destruct (proj1 (Forall_forall _ _) Hent _ Hin) as (_ & _ & _ & x & Hx & Ha & _).
  pose proof (zget_bounds _ _ _ Hx) as Hxb.
  destruct (merge_step s Hwf Hfull L T m n top Hinv Hn Htop)
    as (T1 & m1 & n1 & next & Hread & Hop & Hinv1 & Hs1 & Hp & _ & Hidle).
  unfold tuplesort_gettuple_common. rewrite mst_status, Hst, mst_count.
  destruct (Z.gtb_spec n 0); [|lia]. rewrite mst_tuples, (aget_Ok _ _ _ Htop), rbind_ret, Hread, rbind_ret.
  destruct next as [a|].
  - rewrite Hop, rbind_ret. by exists T1, m1, n1.
  - rewrite Hop, rbind_ret. destruct Hs1 as [Hl1 Hs1].
    destruct (Hs1 (srctape top) x ltac:(lia) Hx) as (x1 & Hx1 & Hrd & _).
    destruct (release_tape s L T1 m1 n1 (srctape top) x1) as (T' & -> & Hinv' & Hleft); try done.
    { by apply Hidle. }
    { rewrite Hrd. apply (active_reads s); [|done]. by apply (Forall_zget _ _ _ _ (mi_tapes _ _ _ _ _ _ Hinv) Hx). }
    rewrite rbind_ret. exists T', m1, n1. split; [done|]. split; [done|]. by rewrite Hp, Hleft.
Qed.

Lemma merges_delivers cmp : delivers cmp (merges cmp).
Proof.
  intros s rest [(Hst & Hbase & T & m & n & L & Heq & Hinv & Hrows) Hcmp].
  pose proof (mi_n _ _ _ _ _ _ Hinv) as Hn. pose proof Hbase as [Hwf Hfull Hslab].
  destruct (Z.eq_dec n 0) as [Hn0|Hn0].
  - left. subst n. destruct (minv_empty s L T m Hinv) as [_ Hleft]. rewrite Hleft in Hrows.
    unfold heap_rows in Hrows. rewrite ztake_nonpos in Hrows by lia. cbn in Hrows.
    apply Permutation_nil in Hrows. split; [done|]. exists s. split.
    2:{ split; [|done]. split; [done|]. split; [done|]. exists T, m, 0, L. split; [done|]. split; [done|].
        rewrite Hleft. unfold heap_rows. by rewrite ztake_nonpos by lia. }
    apply gettupleslot_none. unfold tuplesort_gettuple_common. rewrite Hst.
    assert (Hc : memtupcount s = 0) by (by rewrite Heq). rewrite Hc. done.
  - right. destruct (zget_is_Some m 0) as [top Htop]; [lia|].
    destruct (merging_next s L T m n top Hbase Hst Hinv ltac:(lia) Htop) as (T' & m' & n' & Hg & Hinv' & Hp).
    rewrite <- Heq in Hg.
    assert (Hin : top ∈ ztake n m) by (apply zget_elem with 0; by rewrite zget_ztake by lia).
    destruct (proj1 (Forall_forall _ _) (mi_entries _ _ _ _ _ _ Hinv) _ Hin) as ((Htu & _) & _).
    destruct (kw_abbrev _ Hwf) as (k & ks & Hk & _).
    destruct (gettupleslot_fetched s (mst s T' m' n') true top (tuple_of top) Hg Htu) as [ab Hslot].
    { exists k, ks. exact Hk. }
    exists (mst s T' m' n'), (tuple_of top), ab, (heap_rows m' n' ++ left_rows T').
    split; [done|]. split; [|split; [by rewrite <- Hrows, Hp|]].
    + split; [|done]. split; [done|]. split; [by split|]. exists T', m', n', L. split; [done|].
      split; [|done]. by apply (minv_state s).
    + apply Forall_forall. intros r Hr. rewrite <- Hcmp.
      apply (merge_top_least s Hwf Hfull L T m n top r Hinv); [lia|done|]. rewrite Hp. by right.
Qed.

(** ** The result tape, read forwards *)

(** The rows [rest] are what is left on the result tape; after the end marker
    the end is remembered. *)
Definition reads_tape (cmp : MinimalTuple -> MinimalTuple -> Z) (s : Tuplesortstate)
    (rest : list MinimalTuple) : Prop :=
  status s = TSS_SORTEDONTAPE /\
  ((eof_reached s = true /\ rest = []) \/
   (eof_reached s = false /\ sortKeys s <> [] /\
    Forall row_ok rest /\ StronglySorted (cle cmp) rest /\
    exists lts lt, tapeset s = Some lts /\ zget lts (result_tape s) = Some lt /\
      reads lt (enc_run (randomAccess s) rest))).

Lemma reads_tape_delivers cmp : delivers cmp (reads_tape cmp).
Proof.
  intros s rest (Hst & [[He ->] | (He & Hk & Hok & Hs & lts & lt & Hl & Hlt & Hr)]).
  { left. split; [done|]. exists s. split; [|split; [done|by left]]. apply gettupleslot_none.
    unfold tuplesort_gettuple_common. by rewrite Hst, He. }
  pose proof (zget_bounds _ _ _ Hlt) as Hb. destruct rest as [|t rest].
  - left. split; [done|]. cbn in Hr.
    destruct (getlen_ok s lts (result_tape s) lt 0 [] true Hl Hlt Hr) as (lt' & Hg & _); [done|].
    exists (set_eof_reached true (set_tapeset (Some (zset lts (result_tape s) lt')) s)).
    split; [|split; [exact Hst|by left]].
    apply gettupleslot_none. unfold tuplesort_gettuple_common. rewrite Hst, He, Hg, rbind_ret. done.
  - right. inversion Hok as [|?? Ht Hok']; subst. apply StronglySorted_inv in Hs as [Hs Hall].
    unfold enc_run, enc_rows in Hr. cbn [mbind list_bind] in Hr. fold (enc_rows (randomAccess s) rest) in Hr.
    rewrite <- app_assoc in Hr. unfold enc_row in Hr. cbn [app] in Hr.
    destruct (len_word_ok t Ht) as (_ & _ & Hnz).
    destruct (getlen_ok s lts (result_tape s) lt (len_word t) _ true Hl Hlt Hr)
      as (lt1 & Hg & Hr1 & Hc1 & Hf1); [done|].
    destruct (readtup_heap_ok (set_tapeset (Some (zset lts (result_tape s) lt1)) s)
      (zset lts (result_tape s) lt1) (result_tape s) lt1 t (enc_rows (randomAccess s) rest ++ [LenWord 0]))
      as (lt2 & a & Hrd & Hr2 & _ & _ & [Ha _]).
    { done. } { by apply zget_zset_eq. } { done. } { done. } { exact Hr1. }
    rewrite zset_zset_eq in Hrd. set (s' := set_tapeset (Some (zset lts (result_tape s) lt2)) s).
    destruct (gettupleslot_fetched s s' true a t) as [ab Hslot].
    { unfold tuplesort_gettuple_common. rewrite Hst, He, Hg, rbind_ret.
      destruct (Z.eqb_spec (len_word t) 0); [done|]. cbn [negb].
      change (result_tape (set_tapeset _ s)) with (result_tape s). rewrite Hrd, rbind_ret. done. }
    { done. }
    { change (sortKeys s') with (sortKeys s). destruct (sortKeys s); [done|]. eauto. }
    exists s', t, ab, rest. split; [done|]. split; [|done].
    split; [done|]. right. split; [done|]. split; [done|]. split; [done|]. split; [done|].
    exists (zset lts (result_tape s) lt2), lt2. split; [done|]. split; [by apply zget_zset_eq|done].
Qed.

(** ** Loading *)

(** An unbounded sort that has been given [ins]: still in memory, or building
    runs. *)
Definition accepts (keys : list SortSupportData) (ra : bool) (s : Tuplesortstate)
    (ins : list MinimalTuple) : Prop :=
  memtupcount s < memtupsize s /\ randomAccess s = ra /\
  ((initial_inv keys s ins (tuples_space ins) /\ bounded s = false) \/
   (tcmp (sortKeys s) = tcmp keys /\ ins <> [] /\
    exists T L mem, building s T L mem /\ all_rows T ++ mem ≡ₚ ins)).

Section whole.
Context (E : SortEnv) `{!SortEnvOk E}.

Lemma accepts_put keys ra s ins t :
  accepts keys ra s ins -> Forall row_ok (ins ++ [t]) -> zlen ins + 1 < INT_MAX ->
  exists s', tuplesort_puttupleslot E s t = Ok s' /\ accepts keys ra s' (ins ++ [t]).
Proof.
  intros (Hroom & Hra & [[Hi Hb] | (Hcmp & Hne & T & L & mem & Hbd & Hp)]) Hok Hmax.
  - destruct (puttupleslot_initial E keys s ins t Hi Hroom)
      as (s2 & Hi2 & Hc2 & Hb2 & _ & _ & _ & _ & Hra2 & Hput).
    rewrite Hb in Hb2. unfold time_for_heap in Hput. rewrite Hb2 in Hput. cbn [andb] in Hput.
    destruct ((memtupcount s2 <? memtupsize s2) && negb (LACKMEM s2)) eqn:Hg.
    { exists s2. split; [done|]. apply andb_true_iff in Hg as [Hg%Z.ltb_lt _].
      split; [done|]. split; [congruence|]. by left. }
    destruct (inittapes_ok s2 keys (ins ++ [t]) _ Hi2 Hok) as (s3 & T & Hin & Hbd & Hrows & [Hk3 Hr3]).
    destruct (dumptuples_more E s3 T 0 (ins ++ [t]) Hbd) as (s' & T' & L' & mem' & Hd & Hbd' & Hro & Hp' & [Hk' Hr']).
    { by destruct ins. } { rewrite Hrows. cbn [app]. rewrite zlen_app. change (zlen [t]) with 1. lia. }
    exists s'. rewrite Hput, Hin, rbind_ret. split; [done|]. split; [done|]. split; [congruence|].
    right. split; [rewrite Hk', Hk3; apply (initial_keys_wf _ _ _ _ Hi2)|]. split; [by destruct ins|].
    exists T', L', mem'. split; [done|]. by rewrite Hp', Hrows.
  - destruct (puttupleslot_building E s T L mem t Hbd Hroom) as (s' & T' & L' & mem' & Hput & Hbd' & Hro & Hp' & [Hk Hr]).
    { apply Forall_app in Hok as [_ Hok]. by inversion Hok. }
    { replace (zlen (all_rows T ++ mem)) with (zlen ins); [lia|]. unfold zlen. by rewrite Hp. }
    exists s'. split; [done|]. split; [done|]. split; [congruence|]. right. split; [congruence|].
    split; [by destruct ins|]. exists T', L', mem'. split; [done|]. by rewrite Hp', Hp.
Qed.

Lemma accepts_put_all keys ra s ins ts :
  accepts keys ra s ins -> Forall row_ok (ins ++ ts) -> zlen (ins ++ ts) < INT_MAX ->
  exists s', put_all E s ts = Ok s' /\ accepts keys ra s' (ins ++ ts).
Proof.
  revert s ins. induction ts as [|t ts IH]; intros s ins Hs Hok Hmax.
  { exists s. by rewrite app_nil_r. }
  replace (ins ++ t :: ts) with ((ins ++ [t]) ++ ts) in * by (by rewrite <- app_assoc).
  destruct (accepts_put keys ra s ins t Hs) as (s1 & Hput & Hs1).
  { by apply Forall_app in Hok as [Hok _]. }
  { rewrite !zlen_app in Hmax. change (zlen [t]) with 1 in Hmax. pose proof (zlen_nonneg ts). lia. }
  cbn [put_all]. rewrite Hput, rbind_ret. by apply IH.
Qed.

(** ** Finishing *)

(** The cursor of a result on tape that nobody has read yet. *)
Record tape_start (s : Tuplesortstate) : Prop := {
  tst_eof : eof_reached s = false;
  tst_block : markpos_block s = 0;
  tst_offset : markpos_offset s = 0;
  tst_markeof : markpos_eof s = false
}.

(** A finished sort of [ins]. *)
Definition finished (keys : list SortSupportData) (ra : bool) (s : Tuplesortstate)
    (ins : list MinimalTuple) : Prop :=
  randomAccess s = ra /\
  ((exists out, result_inv keys s out /\ at_start s /\ bounded s = false /\ out ≡ₚ ins) \/
   (tcmp (sortKeys s) = tcmp keys /\ ins <> [] /\
    ((merging s ins /\ ra = false) \/
     exists out, on_tape s out /\ tape_start s /\ out ≡ₚ ins))).

Lemma sort_memtuples_ra s s' : tuplesort_sort_memtuples E s = Ok s' -> randomAccess s' = randomAccess s.
Proof.
  unfold tuplesort_sort_memtuples. destruct (memtupcount s >? 1); [|by intros [= <-]].
  destruct (memtupcount s >? zlen (memtuples s)); [done|]. destruct (onlyKey s); [|by intros [= <-]].
  destruct (sortKeys s); [done|]. by intros [= <-].
Qed.

Lemma performsort_initial_ra s s' :
  status s = TSS_INITIAL -> tuplesort_performsort E s = Ok s' -> randomAccess s' = randomAccess s.
Proof.
  intros Hst. unfold tuplesort_performsort. rewrite Hst.
  destruct (tuplesort_sort_memtuples E s) as [s1| | |] eqn:Hs1; cbn; try done.
  intros [= <-]. cbn. by apply sort_memtuples_ra.
Qed.

Lemma tape_start_state s s' :
  s' = set_markpos_eof false (set_markpos_offset 0 (set_markpos_block 0 (set_eof_reached false s))) ->
  tape_start s' /\ randomAccess s' = randomAccess s /\ sortKeys s' = sortKeys s.
Proof. by intros ->. Qed.

Lemma merging_flags s rows a b c d :
  merging s rows ->
  merging (set_markpos_eof a (set_markpos_offset b (set_markpos_block c (set_eof_reached d s)))) rows.
Proof.
  intros (Hst & [Hwf Hf Hs] & T & m & n & L & Heq & Hinv & Hp). split; [done|]. split; [by split|].
  exists T, m, n, L. split; [by rewrite Heq|]. split; [|done]. by apply (minv_state s).
Qed.

Lemma performsort_finishes keys ra s ins :
  accepts keys ra s ins -> zlen ins < INT_MAX ->
  exists s', tuplesort_performsort E s = Ok s' /\ finished keys ra s' ins.
Proof.
  intros (Hroom & Hra & [[Hi Hb] | (Hcmp & Hne & T & L & mem & Hbd & Hp)]) Hmax.
  - destruct (performsort_initial E keys s ins _ Hi) as (s' & out & Hps & Hr & Has & Hpo & _ & Hb' & _).
    exists s'. split; [done|]. split.
    { rewrite (performsort_initial_ra s s'); [done|apply (ii_status _ _ _ _ Hi)|done]. }
    left. exists out. do 2 (split; [done|]). by split; [congruence|].
  - destruct (dumptuples_last E s T L mem Hbd) as (s1 & T' & Hd & Hbu & Hp' & [Hk1 Hr1]).
    { replace (zlen (all_rows T ++ mem)) with (zlen ins); [done|]. unfold zlen. by rewrite Hp. }
    destruct (mergeruns_ok s1 T' L Hbu) as (s2 & Hm & Hc2 & Hr2 & Hcase).
    unfold tuplesort_performsort. rewrite (bd_status _ _ _ _ Hbd), Hd, rbind_ret, Hm, rbind_ret.
    eexists. split; [reflexivity|]. set (s' := set_markpos_eof _ _).
    destruct (tape_start_state s2 s' eq_refl) as (Hts & Hrs & Hks).
    split; [congruence|]. right. split; [by rewrite Hks, Hc2, Hk1|]. split; [done|].
    rewrite Hp in Hp'. destruct Hcase as [[Hmg Hf] | (out & Hon & Hpo)].
    + left. split; [|congruence]. apply merging_flags.
      destruct Hmg as (? & ? & T1 & m1 & n1 & L1 & ? & ? & Hrows). split; [done|]. split; [done|].
      exists T1, m1, n1, L1. do 2 (split; [done|]). by rewrite Hrows.
    + right. exists out. split; [by destruct Hon|]. split; [done|]. by rewrite Hpo.
Qed.

(** ** A whole sort *)

(** Begin a sort and feed it. *)
Definition load_sort (keys : list SortSupportData) (workMem : Z) (ra : bool)
    (rows : list MinimalTuple) : res Tuplesortstate :=
  do! s <- tuplesort_begin_heap keys workMem ra ;;
  put_all E s rows.

Definition whole_sort (keys : list SortSupportData) (workMem : Z) (ra : bool)
    (rows : list MinimalTuple) : res Tuplesortstate :=
  do! s <- load_sort keys workMem ra rows ;;
  tuplesort_performsort E s.

Lemma load_accepts keys workMem ra rows :
  keys_wf keys -> Forall row_ok rows -> zlen rows < INT_MAX ->
  exists s, load_sort keys workMem ra rows = Ok s /\
    accepts keys ra s rows.
Proof.
  intros Hwf Hok Hmax. unfold load_sort. destruct (tuplesort_begin_heap_ok keys workMem ra Hwf)
    as (s0 & -> & Hi & Hc & Hsz & Hb & _ & _ & Hra).
  rewrite rbind_ret. apply (accepts_put_all keys ra s0 [] rows); try done.
  split; [rewrite Hc, Hsz; done|]. split; [done|]. by left.
Qed.

Lemma whole_sort_finishes keys workMem ra rows :
  keys_wf keys -> Forall row_ok rows -> zlen rows < INT_MAX ->
  exists s, whole_sort keys workMem ra rows = Ok s /\ finished keys ra s rows.
Proof.
  intros Hwf Hok Hmax. unfold whole_sort.
  destruct (load_accepts keys workMem ra rows Hwf Hok Hmax) as (s1 & -> & Hacc).
  rewrite rbind_ret. by apply (performsort_finishes keys ra s1 rows).
Qed.

Lemma performsort_no_eof s s' : tuplesort_performsort E s = Ok s' -> eof_reached s' = false.
Proof.
  unfold tuplesort_performsort. destruct (status s); try done; intros Hb.
  - apply rbind_Ok in Hb as (s1 & _ & Hb). by injection Hb as <-.
  - apply rbind_Ok in Hb as (s1 & _ & Hb). by injection Hb as <-.
  - apply rbind_Ok in Hb as (s1 & _ & Hb). apply rbind_Ok in Hb as (s2 & _ & Hb). by injection Hb as <-.
Qed.

(** The rows of a finished sort are delivered in order. *)
Lemma finished_delivers keys ra s rows :
  finished keys ra s rows ->
  exists R out, delivers (tcmp keys) R /\ R s out /\ out ≡ₚ rows.
Proof.
  intros [Hra [(out & Hr & [Hc _ _ _] & Hb & Hp) | (Hcmp & _ & [[Hm _] | (out & Hon & Hts & Hp)])]].
  - exists (in_memory keys), out. split; [apply in_memory_delivers|]. split; [|done].
    exists out. rewrite Hc. pose proof (zlen_nonneg out). do 2 (split; [done|]). split; [lia|done].
  - exists (merges (tcmp keys)), rows. split; [apply merges_delivers|done].
  - exists (reads_tape (tcmp keys)), out. split; [apply reads_tape_delivers|]. split; [|done].
    destruct Hon as [Hst Hwf (lts & lt & Hl & Ht & Hf & Hrd & _) [Hok Hso]].
    split; [done|]. right. split; [apply Hts|].
    split; [by destruct (kw_abbrev _ Hwf) as (k & ks & -> & _)|].
    split; [done|]. split; [by rewrite <- Hcmp|]. by exists lts, lt.
Qed.
End whole.

(** ** Properties *)

(** C8. A sort always succeeds and delivers a sorted permutation of its input,
    followed by the end of the data, whatever memory it is given: rows that do
    not fit are written to tapes as sorted runs, distributed and merged by the
    polyphase algorithm, and read back from the last merge or from the result
    tape. *)
Theorem tuplesort_external_sorts E `{!SortEnvOk E} keys workMem ra rows :
  keys_wf keys -> Forall row_ok rows -> zlen rows < INT_MAX ->
  exists s s' out, whole_sort E keys workMem ra rows = Ok s /\
    fetch (S (length rows)) s = Ok (s', out) /\ out ≡ₚ rows /\
    StronglySorted (cle (tcmp keys)) out.
Proof.
  intros Hwf Hok Hmax.
  destruct (whole_sort_finishes E keys workMem ra rows Hwf Hok Hmax) as (s & -> & Hfin).
  destruct (finished_delivers keys ra s rows Hfin) as (R & rest & HR & Hs & Hp).
  destruct (fetch_delivered _ R s rest HR Hs) as (s' & out & Hf & Hpo & Hso).
  exists s, s', out. rewrite <- (Permutation_length Hp). split; [done|]. split; [done|].
  split; [by rewrite Hpo|done].
Qed.

(** Rows of 60000 bytes: two of them do not fit into 64 kB. *)
Definition big_row (z : Z) : MinimalTuple := mk_mtup 60000 [Some z].

(** The sort of nine such rows has to merge runs. *)
Example big_rows_spill :
  (do! s <- whole_sort merge_env [int_key] 64 false (big_row <$> [5; 3; 9; 1; 4; 7; 2; 8; 6]) ;;
   do! ' (s', out) <- fetch 10 s ;; Ok (status s, out)) =
  Ok (TSS_FINALMERGE, big_row <$> [1; 2; 3; 4; 5; 6; 7; 8; 9]).
Proof. vm_compute. reflexivity. Qed.

Lemma tuplesort_external_sorts_witness :
  exists s s' out,
    whole_sort merge_env [int_key] 64 false (big_row <$> [5; 3; 9; 1; 4; 7; 2; 8; 6]) = Ok s /\
    fetch 10 s = Ok (s', out) /\ out ≡ₚ big_row <$> [5; 3; 9; 1; 4; 7; 2; 8; 6] /\
    StronglySorted (cle (tcmp [int_key])) out.
Proof.
  change (fetch 10) with (fetch (S (length (big_row <$> [5; 3; 9; 1; 4; 7; 2; 8; 6])))).
  apply (tuplesort_external_sorts merge_env [int_key] 64 false (big_row <$> [5; 3; 9; 1; 4; 7; 2; 8; 6])).
  - apply int_key_wf.
  - repeat (constructor; [vm_compute; split; [reflexivity|discriminate]|]). constructor.
  - vm_compute. reflexivity.
Defined.

(** No row of a sort is lost or held back: [n] forward fetches deliver the
    [n] rows put in, in order, and every later fetch reports the end of the
    data without failing. *)
Theorem tuplesort_delivers_all E `{!SortEnvOk E} keys workMem ra rows k :
  keys_wf keys -> Forall row_ok rows -> zlen rows < INT_MAX ->
  exists s out, whole_sort E keys workMem ra rows = Ok s /\
    cursor_run E s (replicate (length rows + k) Scroll.Next) = Ok ((Some <$> out) ++ replicate k None) /\
    out ≡ₚ rows /\ StronglySorted (cle (tcmp keys)) out.
Proof.
  intros Hwf Hok Hmax.
  destruct (whole_sort_finishes E keys workMem ra rows Hwf Hok Hmax) as (s & -> & Hfin).
  destruct (finished_delivers keys ra s rows Hfin) as (R & rest & HR & Hs & Hp).
  destruct (run_delivered E _ R s rest k HR Hs) as (out & Hrun & Hpo & Hso).
  exists s, out. rewrite <- (Permutation_length Hp). split; [done|]. split; [done|].
  split; [by rewrite Hpo|done].
Qed.

Lemma tuplesort_delivers_all_witness :
  exists s out, whole_sort merge_env [int_key] 64 false (big_row <$> [5; 3; 9; 1]) = Ok s /\
    cursor_run merge_env s (replicate 7 Scroll.Next) = Ok ((Some <$> out) ++ [None; None; None]) /\
    out ≡ₚ big_row <$> [5; 3; 9; 1] /\ StronglySorted (cle (tcmp [int_key])) out.
Proof.
  change [None; None; None] with (replicate 3 (@None MinimalTuple)).
  change (replicate 7 Scroll.Next) with (replicate (length (big_row <$> [5; 3; 9; 1]) + 3) Scroll.Next).
  apply (tuplesort_delivers_all merge_env [int_key] 64 false (big_row <$> [5; 3; 9; 1]) 3).
  - apply int_key_wf.
  - repeat (constructor; [vm_compute; split; [reflexivity|discriminate]|]). constructor.
  - vm_compute. reflexivity.
Defined.

(** C32. While runs are being built, after any number of puts, the runs on tape
    and the dummy runs add up to a perfect Fibonacci distribution of the level
    reached, the run counts add up to the number of runs written, no count
    leaves the range of a C [int], the next destination still has a dummy run
    to replace, and the array has a free slot. *)
Theorem run_distribution_invariant E `{!SortEnvOk E} keys workMem ra rows s :
  keys_wf keys -> Forall row_ok rows -> zlen rows < INT_MAX ->
  load_sort E keys workMem ra rows = Ok s ->
  status s = TSS_BUILDRUNS ->
  tp_fib s = fibv (Z.to_nat (tapeRange s)) (Z.to_nat (Level s)) /\
  zip_with Z.add (tp_runs s) (tp_dummy s) = tp_fib s /\
  zsum (tp_runs s) = currentRun s /\ currentRun s <= zlen rows /\
  Forall (fun n => 0 <= n <= INT_MAX) (tp_fib s) /\
  (exists d, zget (tp_dummy s) (destTape s) = Some d /\ 1 <= d) /\
  0 <= destTape s < tapeRange s /\ memtupcount s < memtupsize s.
Proof.
  intros Hwf Hok Hmax Hput Hst.
  destruct (load_accepts E keys workMem ra rows Hwf Hok Hmax) as (s1 & Hput1 & Hacc).
  rewrite Hput in Hput1. injection Hput1 as <-.
  destruct Hacc as (Hroom & _ & [[Hi _] | (_ & _ & T & L & mem & Hbd & Hp)]).
  { rewrite (ii_status _ _ _ _ Hi) in Hst. done. }
  destruct Hbd as [_ Hla Hd HL Hcur _]. pose proof (do_some _ _ _ Hd) as Hsome.
  pose proof (do_dest _ _ _ Hd) as Hdest. pose proof (la_fib _ _ _ Hla) as Hfib.
  pose proof (la_range _ _ _ Hla) as Hrange. pose proof (la_cur _ _ _ Hla) as Hc.
  pose proof (la_small _ _ _ Hla) as Hsmall.
  split; [by rewrite Hfib, (la_level _ _ _ Hla), Nat2Z.id|].
  split; [by rewrite (la_runs _ _ _ Hla), <- counts_as_runs, (la_counts _ _ _ Hla)|]. split; [done|]. split.
  { assert (Hl : zlen (all_rows T ++ mem) = zlen rows) by (unfold zlen; by rewrite Hp).
    rewrite zlen_app in Hl. pose proof (zlen_nonneg mem). lia. }
  split; [|done]. destruct (fibv_facts (tapeRange s) (S L)) as (_ & _ & Hpos); [lia|].
  rewrite <- Hfib in Hpos. apply Forall_and. done.
Qed.

(** The state after nine puts in 64 kB. *)
Definition nine_loaded : res Tuplesortstate :=
  load_sort merge_env [int_key] 64 false (big_row <$> [5; 3; 9; 1; 4; 7; 2; 8; 6]).

Lemma nine_loaded_ok : exists s, nine_loaded = Ok s /\ status s = TSS_BUILDRUNS.
Proof. eexists. split; vm_compute; reflexivity. Qed.

Lemma run_distribution_invariant_witness :
  exists s, nine_loaded = Ok s /\
    zip_with Z.add (tp_runs s) (tp_dummy s) = tp_fib s /\ zsum (tp_runs s) = currentRun s.
Proof.
  destruct nine_loaded_ok as (s & Hs & Hst). exists s. split; [exact Hs|].
  destruct (run_distribution_invariant merge_env [int_key] 64 false
    (big_row <$> [5; 3; 9; 1; 4; 7; 2; 8; 6]) s) as (_ & Hc & Hr & _).
  - apply int_key_wf.
  - repeat (constructor; [vm_compute; split; [reflexivity|discriminate]|]). constructor.
  - vm_compute. reflexivity.
  - exact Hs.
  - exact Hst.
  - split; [exact Hc|exact Hr].
Defined.

(** Finishing a sort terminates: on every state reached by puts the
    polyphase merge ends within the passes its level allows and the turns its
    run counts allow, with no error, in a state that can be read; with random
    access the result is in memory or on the result tape. *)
Theorem performsort_terminates E `{!SortEnvOk E} keys workMem ra rows s :
  keys_wf keys -> Forall row_ok rows -> zlen rows < INT_MAX ->
  load_sort E keys workMem ra rows = Ok s ->
  exists s', tuplesort_performsort E s = Ok s' /\ eof_reached s' = false /\
    (status s' = TSS_SORTEDINMEM \/ status s' = TSS_SORTEDONTAPE \/
     (status s' = TSS_FINALMERGE /\ ra = false)).
Proof.
  intros Hwf Hok Hmax Hput.
  destruct (load_accepts E keys workMem ra rows Hwf Hok Hmax) as (s1 & Hput1 & Hacc).
  rewrite Hput in Hput1. injection Hput1 as <-.
  destruct (performsort_finishes E keys ra s rows Hacc Hmax) as (s' & Hps & Hfin).
  exists s'. split; [done|]. split; [by apply (performsort_no_eof E s)|].
  destruct Hfin as [_ [(out & Hr & _) | (_ & _ & [[Hm Hf] | (out & Hon & _)])]].
  - left. apply (ri_status _ _ _ Hr).
  - right; right. split; [apply Hm|done].
  - right; left. apply (ot_status _ _ Hon).
Qed.

Lemma performsort_terminates_witness :
  exists s, nine_loaded = Ok s /\ exists s', tuplesort_performsort merge_env s = Ok s'.
Proof.
  destruct nine_loaded_ok as (s & Hs & _). exists s. split; [exact Hs|].
  destruct (performsort_terminates merge_env [int_key] 64 false
    (big_row <$> [5; 3; 9; 1; 4; 7; 2; 8; 6]) s) as (s' & Hp & _).
  - apply int_key_wf.
  - repeat (constructor; [vm_compute; split; [reflexivity|discriminate]|]). constructor.
  - vm_compute. reflexivity.
  - exact Hs.
  - exists s'. exact Hp.
Defined.
