(* ===== verification/TapeCursor.v ===== *)
(** * A sorted result on tape as a scrollable cursor

    With random access every tuple on the result tape is followed by a second
    copy of its length word, so that [tuplesort_gettuple_common] can also step
    backwards.  The file shows that the byte arithmetic of those steps, of
    marks and of rescans implements the cursor [Scroll] that the in-memory
    result implements.  A mark is a block of the file and an offset, so that a
    restore is meaningful only after a mark. *)

From Stdlib Require Import ZArith Lia.
From stdpp Require Import base list sorting strings.
From S2P Require Import Prelude HeapTheory SortSupport TuplesortHeap LogTape TuplesortState Tuplesort TapeRuns TuplesortMem RunMerge Polyphase MergeRuns ExternalMerge Distribution RunBuild TuplesortCursor TuplesortExternal.

Local Open Scope Z_scope.

(** ** Positions on the frozen tape *)

(** The tape is frozen; [before] lies before the position, [after] behind it. *)
Definition at_cell (lt : LogicalTape) (before after : list cell) : Prop :=
  reads lt after /\ frozen lt = true /\ cells lt = before ++ after.

Lemma at_cell_pos lt before after : at_cell lt before after -> tpos lt = tape_size before.
Proof.
  intros ((_ & _ & done & Hc & Hp & _) & _ & Hc'). rewrite Hc in Hc'.
  apply app_inv_tail in Hc' as ->. exact Hp.
Qed.

Lemma at_cell_sized lt before after : at_cell lt before after -> sized before /\ sized after.
Proof. intros ((_ & Hs & _) & _ & Hc). rewrite Hc in Hs. by apply Forall_app in Hs. Qed.

Lemma at_cell_loaded lt before after : at_cell lt before after -> block_loaded lt.
Proof. by intros ((_ & _ & done & _ & _ & Hl) & _). Qed.

Lemma at_cell_mk before after n :
  sized (before ++ after) -> block_loaded (LogTape.mk_tape false true (before ++ after) (tape_size before) n) ->
  at_cell (LogTape.mk_tape false true (before ++ after) (tape_size before) n) before after.
Proof. intros Hs Hl. split; [|done]. split; [done|]. split; [done|]. by exists before. Qed.

Lemma backspace_cells lts t lt d1 d2 after :
  zget lts t = Some lt -> at_cell lt (d1 ++ d2) after ->
  exists lt', LogicalTapeBackspace lts t (tape_size d2) = Ok (zset lts t lt', tape_size d2) /\
    at_cell lt' d1 (d2 ++ after).
Proof.
  intros Ht Hat. pose proof (at_cell_pos _ _ _ Hat) as Hp. pose proof (at_cell_sized _ _ _ Hat) as [Hs1 Hs2].
  pose proof (at_cell_loaded _ _ _ Hat) as Hld. destruct Hat as (Hr & Hf & Hc). pose proof (zget_bounds _ _ _ Ht). rewrite tape_size_app in Hp.
  pose proof Hs1 as Hs1'. apply Forall_app in Hs1' as [Hd1 Hd2]. pose proof (tape_size_nonneg _ Hd1).
  pose proof (tape_size_nonneg _ Hd2).
  unfold LogicalTapeBackspace. rewrite (aget_Ok _ _ _ Ht), rbind_ret, Hf. cbn [negb]. cbv zeta.
  rewrite Hp, Z.min_l, aset_Ok, rbind_ret by lia. eexists. split; [reflexivity|].
  replace (tape_size d1 + tape_size d2 - tape_size d2) with (tape_size d1) by lia.
  rewrite Hc, <- app_assoc. apply at_cell_mk; [rewrite app_assoc; by apply Forall_app|].
  apply loaded_back; [done|lia].
Qed.

Lemma backspace_start lts t lt before after size :
  zget lts t = Some lt -> at_cell lt before after -> tape_size before <= size ->
  exists lt', LogicalTapeBackspace lts t size = Ok (zset lts t lt', tape_size before) /\
    at_cell lt' [] (before ++ after).
Proof.
  intros Ht Hat Hsz. pose proof (at_cell_pos _ _ _ Hat) as Hp. pose proof (at_cell_sized _ _ _ Hat) as [Hs1 Hs2].
  pose proof (at_cell_loaded _ _ _ Hat) as Hld. destruct Hat as (Hr & Hf & Hc). pose proof (zget_bounds _ _ _ Ht).
  unfold LogicalTapeBackspace. rewrite (aget_Ok _ _ _ Ht), rbind_ret, Hf. cbn [negb]. cbv zeta.
  rewrite Hp, Z.min_r, aset_Ok, rbind_ret by lia. eexists. split; [reflexivity|].
  rewrite Z.sub_diag, Hc. pose proof (tape_size_nonneg _ Hs1).
  apply (at_cell_mk [] (before ++ after)); [cbn [app]; by apply Forall_app|].
  apply (loaded_back lt 0); [done|lia].
Qed.

(** ** The operations of a sort on its result tape *)

Definition tape_at (s : Tuplesortstate) (before after : list cell) : Prop :=
  exists lts lt, tapeset s = Some lts /\ zget lts (result_tape s) = Some lt /\ at_cell lt before after.

(** Only the tapes changed. *)
Definition tape_moved (s s' : Tuplesortstate) : Prop := exists lts, s' = set_tapeset (Some lts) s.

Lemma tape_moved_refl s before after : tape_at s before after -> tape_moved s s.
Proof. intros (lts & lt & Hl & _). exists lts. rewrite <- Hl. by destruct s. Qed.

Lemma tape_moved_trans s s1 s2 : tape_moved s s1 -> tape_moved s1 s2 -> tape_moved s s2.
Proof. intros [l1 ->] [l2 ->]. by exists l2. Qed.

Lemma tape_at_set s lts t lt before after :
  zget lts t = Some lt -> result_tape s = t -> forall lt', at_cell lt' before after ->
  tape_at (set_tapeset (Some (zset lts t lt')) s) before after.
Proof.
  intros Ht Hres lt' Hat. pose proof (zget_bounds _ _ _ Ht). exists (zset lts t lt'), lt'.
  split; [done|]. split; [|done]. change (result_tape (set_tapeset _ s)) with (result_tape s).
  rewrite Hres. by apply zget_zset_eq.
Qed.

Lemma getlen_at s before w after eofOK :
  tape_at s before (LenWord w :: after) -> (w = 0 -> eofOK = true) ->
  exists s', getlen s (result_tape s) eofOK = Ok (s', w) /\ tape_moved s s' /\
    tape_at s' (before ++ [LenWord w]) after.
Proof.
  intros (lts & lt & Hl & Ht & Hr & Hf & Hc) He.
  destruct (getlen_ok s lts (result_tape s) lt w after eofOK Hl Ht Hr He) as (lt' & Hg & Hr' & Hc' & Hf').
  eexists. split; [exact Hg|]. split; [by eexists|]. apply (tape_at_set s lts _ lt); [done|done|].
  split; [done|]. split; [congruence|]. by rewrite Hc', Hc, <- app_assoc.
Qed.

Lemma readtup_at s before t after :
  tape_at s before (Body t :: LenWord (len_word t) :: after) -> randomAccess s = true ->
  sortKeys s <> [] -> row_ok t ->
  exists s' a, readtup_heap s (result_tape s) (len_word t) = Ok (s', a) /\ tape_moved s s' /\
    tuple a = Some t /\ tape_at s' (before ++ [Body t; LenWord (len_word t)]) after.
Proof.
  intros (lts & lt & Hl & Ht & Hr & Hf & Hc) Hra Hk Hok.
  destruct (readtup_heap_ok s lts (result_tape s) lt t after Hl Ht Hk Hok) as (lt' & a & Hrd & Hr' & Hc' & Hf' & [Ha _]).
  { by rewrite Hra. }
  eexists _, a. split; [exact Hrd|]. split; [by eexists|]. split; [done|].
  apply (tape_at_set s lts _ lt); [done|done|]. split; [done|]. split; [congruence|].
  by rewrite Hc', Hc, <- app_assoc.
Qed.

Lemma sbackspace_at s d1 d2 after size :
  tape_at s (d1 ++ d2) after -> size = tape_size d2 ->
  exists s', sbackspace s size = Ok (s', size) /\ tape_moved s s' /\ tape_at s' d1 (d2 ++ after).
Proof.
  intros (lts & lt & Hl & Ht & Hat) ->.
  destruct (backspace_cells lts (result_tape s) lt d1 d2 after Ht Hat) as (lt' & Hb & Hat').
  eexists. split; [unfold sbackspace; exact (on_tapes_ok s lts _ _ _ Hl Hb)|]. split; [by eexists|].
  by apply (tape_at_set s lts _ lt).
Qed.

Lemma sbackspace_start s before after size :
  tape_at s before after -> tape_size before <= size ->
  exists s', sbackspace s size = Ok (s', tape_size before) /\ tape_moved s s' /\ tape_at s' [] (before ++ after).
Proof.
  intros (lts & lt & Hl & Ht & Hat) Hsz.
  destruct (backspace_start lts (result_tape s) lt before after size Ht Hat Hsz) as (lt' & Hb & Hat').
  eexists. split; [unfold sbackspace; exact (on_tapes_ok s lts _ _ _ Hl Hb)|]. split; [by eexists|].
  by apply (tape_at_set s lts _ lt).
Qed.

Lemma tape_moved_fields s s' :
  tape_moved s s' -> result_tape s' = result_tape s /\ randomAccess s' = randomAccess s /\
    sortKeys s' = sortKeys s /\ eof_reached s' = eof_reached s /\ status s' = status s.
Proof. by intros [lts ->]. Qed.

(** Stepping back over the trailing length word and the body of a row, and
    reading the row again. *)
Lemma read_prior_at s before t after :
  tape_at s (before ++ [LenWord (len_word t); Body t]) (LenWord (len_word t) :: after) ->
  randomAccess s = true -> sortKeys s <> [] -> row_ok t ->
  exists s' a, read_prior s = Ok (s', Some a) /\ tape_moved s s' /\ tuple a = Some t /\
    tape_at s' (before ++ enc_row true t) after.
Proof.
  intros Hat Hra Hk Hok. destruct (len_word_ok t Hok) as (_ & _ & Hnz). unfold read_prior.
  destruct (getlen_at s _ _ _ false Hat) as (s1 & -> & Hm1 & Hat1); [done|]. rewrite rbind_ret.
  destruct (tape_moved_fields s s1 Hm1) as (Hres1 & Hra1 & Hk1 & _).
  rewrite <- app_assoc in Hat1. cbn [app] in Hat1.
  change (before ++ [LenWord (len_word t); Body t; LenWord (len_word t)]) with
    (before ++ [LenWord (len_word t)] ++ [Body t; LenWord (len_word t)]) in Hat1. rewrite app_assoc in Hat1.
  destruct (sbackspace_at s1 _ _ _ (len_word t) Hat1) as (s2 & -> & Hm2 & Hat2); [unfold len_word; cbn; lia|].
  rewrite rbind_ret, Z.eqb_refl. cbn [negb]. destruct (tape_moved_fields s1 s2 Hm2) as (Hres2 & Hra2 & Hk2 & _).
  destruct (readtup_at s2 _ _ _ Hat2) as (s3 & a & Hrd & Hm3 & Ha & Hat3); [congruence|congruence|done|].
  rewrite Hrd, rbind_ret. exists s3, a. split; [done|].
  split; [by apply tape_moved_trans with s1, tape_moved_trans with s2|]. split; [done|].
  by rewrite <- app_assoc in Hat3.
Qed.

(** ** Rows and positions *)

(** What lies before and behind the cursor at row [p] of [out]; after the last
    row comes the end marker. *)
Definition before_row (out : list MinimalTuple) (p : Z) : list cell :=
  if p <=? zlen out then enc_rows true (ztake p out) else enc_run true out.

Definition after_row (out : list MinimalTuple) (p : Z) : list cell :=
  if p <=? zlen out then enc_rows true (zdrop p out) ++ [LenWord 0] else [].

Lemma before_after out p : before_row out p ++ after_row out p = enc_run true out.
Proof.
  unfold before_row, after_row. destruct (p <=? zlen out); [|by rewrite app_nil_r].
  rewrite app_assoc, <- enc_rows_app, ztake_zdrop. done.
Qed.

Lemma row_size t : tape_size (enc_row true t) = len_word t + sizeof_uint.
Proof. unfold len_word. cbn. lia. Qed.

Lemma enc_rows_cons t ts : enc_rows true (t :: ts) = enc_row true t ++ enc_rows true ts.
Proof. done. Qed.

Lemma before_next out p t : zget out p = Some t -> before_row out (p + 1) = before_row out p ++ enc_row true t.
Proof.
  intros Ht. pose proof (zget_bounds _ _ _ Ht). unfold before_row.
  destruct (Z.leb_spec p (zlen out)), (Z.leb_spec (p + 1) (zlen out)); try lia.
  by rewrite (ztake_succ _ _ _ Ht), enc_rows_app, enc_rows_1.
Qed.

Lemma after_next out p t : zget out p = Some t -> after_row out p = enc_row true t ++ after_row out (p + 1).
Proof.
  intros Ht. pose proof (zget_bounds _ _ _ Ht). unfold after_row.
  destruct (Z.leb_spec p (zlen out)), (Z.leb_spec (p + 1) (zlen out)); try lia.
  by rewrite (zdrop_cons _ _ _ Ht), enc_rows_cons, <- app_assoc.
Qed.

Lemma after_last out : after_row out (zlen out) = [LenWord 0].
Proof.
  unfold after_row. rewrite Z.leb_refl. unfold zdrop, zlen. by rewrite Nat2Z.id, drop_all.
Qed.

Lemma before_end out : before_row out (zlen out + 1) = before_row out (zlen out) ++ [LenWord 0].
Proof.
  unfold before_row. rewrite Z.leb_refl. destruct (Z.leb_spec (zlen out + 1) (zlen out)); [lia|].
  by rewrite ztake_all by lia.
Qed.

Lemma after_end out : after_row out (zlen out + 1) = [].
Proof. unfold after_row. by destruct (Z.leb_spec (zlen out + 1) (zlen out)); [lia|]. Qed.

Lemma before_first out : before_row out 0 = [].
Proof. unfold before_row. pose proof (zlen_nonneg out). by destruct (Z.leb_spec 0 (zlen out)); [|lia]. Qed.

(** The row fetched last, without its trailing length word. *)
Lemma before_split out p t :
  zget out (p - 1) = Some t ->
  before_row out p = (before_row out (p - 1) ++ [LenWord (len_word t); Body t]) ++ [LenWord (len_word t)].
Proof.
  intros Ht. replace p with (p - 1 + 1) at 1 by lia. rewrite (before_next _ _ _ Ht). by rewrite <- app_assoc.
Qed.

(** ** Fetching *)

(** The result [out] is on the tape, the cursor at row [p]. *)
Record tape_pos (s : Tuplesortstate) (out : list MinimalTuple) (p : Z) : Prop := {
  tp_status : status s = TSS_SORTEDONTAPE;
  tp_keys : sortKeys s <> [];
  tp_ra : randomAccess s = true;
  tp_rows : Forall row_ok out;
  tp_some : out <> [];
  tp_range : 0 <= p <= zlen out + 1;
  tp_eof : eof_reached s = (p =? zlen out + 1);
  tp_at : tape_at s (before_row out p) (after_row out p)
}.

Lemma tape_pos_moved s s' out p q :
  tape_pos s out p -> tape_moved s s' -> 0 <= q <= zlen out + 1 -> (q =? zlen out + 1) = (p =? zlen out + 1) ->
  tape_at s' (before_row out q) (after_row out q) -> tape_pos s' out q.
Proof.
  intros [] Hm Hq Heq Hat. destruct (tape_moved_fields s s' Hm) as (_ & Hra & Hk & He & Hst).
  split; try done; congruence.
Qed.

(** A fetched entry is returned in the slot. *)
Lemma slot_of s s' fwd a t :
  tuplesort_gettuple_common s fwd = Ok (s', Some a) -> tuple a = Some t -> sortKeys s' <> [] ->
  exists r, tuplesort_gettupleslot s fwd = Ok (s', r) /\ fst <$> r = Some t.
Proof.
  intros Hg Ha Hk. destruct (gettupleslot_fetched s s' fwd a t Hg Ha) as [ab Hab].
  { destruct (sortKeys s'); [done|]. eauto. }
  by exists (Some (t, ab)).
Qed.

Lemma tape_at_flag s e before after : tape_at s before after -> tape_at (set_eof_reached e s) before after.
Proof. intros (lts & lt & H). by exists lts, lt. Qed.

(** Only the tapes and the end-of-file flag changed. *)
Definition flagged (s s' : Tuplesortstate) : Prop :=
  exists e lts, s' = set_eof_reached e (set_tapeset (Some lts) s).

Lemma tape_moved_flagged s s' : tape_moved s s' -> flagged s s'.
Proof. intros [lts ->]. exists (eof_reached s), lts. by destruct s. Qed.

Lemma tape_next s out p :
  tape_pos s out p ->
  exists s' r, tuplesort_gettupleslot s true = Ok (s', r) /\
    let q := Z.min (p + 1) (zlen out + 1) in
    fst <$> r = zget out (q - 1) /\ tape_pos s' out q /\ flagged s s'.
Proof.
  intros Hp. pose proof Hp as [Hst Hk Hra Hok Hne Hr He Hat]. cbv zeta.
  destruct (Z.eqb_spec p (zlen out + 1)) as [->|Hn].
  { exists s, None. split; [apply gettupleslot_none; unfold tuplesort_gettuple_common; by rewrite Hst, He|].
    rewrite Z.min_r by lia. split; [by rewrite zget_None by lia|]. split; [done|].
    destruct (tape_moved_refl s _ _ Hat) as [lts Hm]. exists (eof_reached s), lts. rewrite <- Hm. by destruct s. }
  rewrite Z.min_l by lia. replace (p + 1 - 1) with p by lia.
  destruct (Z.eq_dec p (zlen out)) as [->|Hlt].
  - rewrite after_last in Hat.
    destruct (getlen_at s _ _ _ true Hat) as (s1 & Hg & Hm & Hat1); [done|].
    destruct (tape_moved_fields s s1 Hm) as (_ & Hra1 & Hk1 & He1 & Hst1).
    exists (set_eof_reached true s1), None. split.
    { apply gettupleslot_none. unfold tuplesort_gettuple_common. by rewrite Hst, He, Hg, rbind_ret. }
    split; [by rewrite zget_None by lia|]. split.
    + split; try done; try lia.
      * by rewrite <- Hst.
      * by rewrite <- Hk1 in Hk.
      * by rewrite <- Hra.
      * cbn. by rewrite Z.eqb_refl.
      * rewrite before_end, after_end. by apply tape_at_flag.
    + destruct Hm as [lts ->]. by exists true, lts.
  - destruct (zget_is_Some out p) as [t Ht]; [lia|]. pose proof (Forall_zget _ _ _ _ Hok Ht) as Hrow.
    rewrite (after_next _ _ _ Ht) in Hat. destruct (len_word_ok t Hrow) as (_ & _ & Hnz).
    destruct (getlen_at s _ _ _ true Hat) as (s1 & Hg & Hm1 & Hat1); [done|].
    destruct (tape_moved_fields s s1 Hm1) as (Hres1 & Hra1 & Hk1 & _).
    destruct (readtup_at s1 _ t _ Hat1) as (s2 & a & Hrd & Hm2 & Ha & Hat2); [congruence|congruence|done|].
    destruct (tape_moved_fields s1 s2 Hm2) as (_ & _ & Hk2 & _).
    destruct (slot_of s s2 true a t) as (r & Hs & Hfst); [|done|congruence|].
    { unfold tuplesort_gettuple_common. rewrite Hst, He, Hg, rbind_ret.
      destruct (Z.eqb_spec (len_word t) 0); [done|]. cbn [negb]. by rewrite Hrd, rbind_ret. }
    exists s2, r. split; [done|]. split; [by rewrite Hfst, Ht|].
    pose proof (tape_moved_trans s s1 s2 Hm1 Hm2) as Hm. split.
    + apply (tape_pos_moved s s2 out p); [done|done|lia| |].
      * destruct (Z.eqb_spec (p + 1) (zlen out + 1)), (Z.eqb_spec p (zlen out + 1)); lia.
      * rewrite (before_next _ _ _ Ht). by rewrite <- app_assoc in Hat2.
    + destruct Hm as [lts ->]. exists (eof_reached s), lts. by destruct s.
Qed.

(** Going back from a row: over its length word, then over the whole row and
    the length word of the row before it. *)
Lemma prior_row s out p t2 :
  tape_pos s out p -> p <= zlen out -> zget out (p - 1) = Some t2 ->
  exists s1, tape_at s1 (before_row out p) (after_row out p) /\ tape_moved s s1 /\
    tuplesort_gettuple_common s false =
      (do! ' (s, nmoved) <- sbackspace s1 (len_word t2 + 2 * sizeof_uint) ;;
       if nmoved =? len_word t2 + sizeof_uint then Ok (s, None)
       else if negb (nmoved =? len_word t2 + 2 * sizeof_uint) then
         Error "bogus tuple length in backward scan"
       else read_prior s).
Proof.
  intros [Hst Hk Hra Hok Hne Hr He Hat] Hle Ht2. pose proof (Forall_zget _ _ _ _ Hok Ht2) as Hrow.
  destruct (len_word_ok t2 Hrow) as (_ & _ & Hnz). pose proof Hat as Hat0.
  rewrite (before_split _ _ _ Ht2) in Hat.
  destruct (sbackspace_at s _ _ _ sizeof_uint Hat) as (s1 & Hb & Hm1 & Hat1); [done|].
  destruct (tape_moved_fields s s1 Hm1) as (Hres1 & _).
  destruct (getlen_at s1 _ _ _ false Hat1) as (s2 & Hg & Hm2 & Hat2); [done|].
  exists s2. split; [by rewrite (before_split _ _ _ Ht2)|]. split; [by apply tape_moved_trans with s1|].
  unfold tuplesort_gettuple_common. rewrite Hst, He. destruct (Z.eqb_spec p (zlen out + 1)); [lia|].
  rewrite Hb, rbind_ret. change (sizeof_uint =? 0) with false. cbn [andb]. rewrite Z.eqb_refl. cbn [negb].
  by rewrite Hg, rbind_ret.
Qed.

(** From row 1 the cursor goes before the first row. *)
Lemma tape_prior_first s out :
  tape_pos s out 1 ->
  exists s', tuplesort_gettuple_common s false = Ok (s', None) /\ tape_pos s' out 0 /\ tape_moved s s'.
Proof.
  intros Hp. pose proof Hp as [Hst Hk Hra Hok Hne Hr He Hat].
  assert (H1 : 1 <= zlen out).
  { destruct out; [done|]. rewrite zlen_cons. pose proof (zlen_nonneg out). lia. }
  destruct (zget_is_Some out 0) as [t Ht]; [lia|].
  destruct (prior_row s out 1 t Hp H1 Ht) as (s1 & Hat1 & Hm1 & ->).
  assert (Hb1 : before_row out 1 = enc_row true t).
  { replace 1 with (0 + 1) by lia. by rewrite (before_next _ _ _ Ht), before_first. }
  destruct (sbackspace_start s1 _ _ (len_word t + 2 * sizeof_uint) Hat1) as (s2 & -> & Hm2 & Hat2).
  { rewrite Hb1, row_size. unfold sizeof_uint. lia. }
  rewrite rbind_ret, Hb1, row_size, Z.eqb_refl. pose proof (tape_moved_trans s s1 s2 Hm1 Hm2) as Hm.
  exists s2. split; [done|]. split; [|done]. apply (tape_pos_moved s s2 out 1); [done|done|lia| |].
  - destruct (Z.eqb_spec 0 (zlen out + 1)), (Z.eqb_spec 1 (zlen out + 1)); lia.
  - rewrite before_first, (after_next out 0 t Ht). by rewrite Hb1 in Hat2.
Qed.

(** From a later row the cursor goes to the row before. *)
Lemma tape_prior_row s out p t :
  tape_pos s out p -> 2 <= p <= zlen out -> zget out (p - 2) = Some t ->
  exists s' a, tuplesort_gettuple_common s false = Ok (s', Some a) /\ tuple a = Some t /\
    tape_pos s' out (p - 1) /\ tape_moved s s'.
Proof.
  intros Hp Hr Ht. pose proof Hp as [Hst Hk Hra Hok Hne _ He Hat].
  destruct (zget_is_Some out (p - 1)) as [t2 Ht2]; [lia|].
  assert (Ht1 : zget out (p - 1 - 1) = Some t) by (by replace (p - 1 - 1) with (p - 2) by lia).
  destruct (prior_row s out p t2 Hp ltac:(lia) Ht2) as (s1 & Hat1 & Hm1 & ->).
  assert (Hbp : before_row out p =
    (before_row out (p - 1 - 1) ++ [LenWord (len_word t); Body t]) ++ LenWord (len_word t) :: enc_row true t2).
  { replace p with (p - 1 + 1) at 1 by lia. rewrite (before_next _ _ _ Ht2).
    by rewrite (before_split _ _ _ Ht1), <- !app_assoc. }
  rewrite Hbp in Hat1.
  destruct (sbackspace_at s1 _ _ _ (len_word t2 + 2 * sizeof_uint) Hat1) as (s2 & -> & Hm2 & Hat2).
  { unfold len_word. cbn. lia. }
  rewrite rbind_ret. destruct (Z.eqb_spec (len_word t2 + 2 * sizeof_uint) (len_word t2 + sizeof_uint)) as [Heq|_].
  { unfold sizeof_uint in Heq. lia. }
  rewrite Z.eqb_refl. cbn [negb]. pose proof (tape_moved_trans s s1 s2 Hm1 Hm2) as Hm.
  assert (Hap : after_row out (p - 1) = enc_row true t2 ++ after_row out p).
  { rewrite (after_next _ _ _ Ht2). by replace (p - 1 + 1) with p by lia. }
  assert (Heof : (p - 1 =? zlen out + 1) = (p =? zlen out + 1)).
  { destruct (Z.eqb_spec (p - 1) (zlen out + 1)), (Z.eqb_spec p (zlen out + 1)); lia. }
  destruct (read_prior_at s2 _ _ _ Hat2) as (s3 & a & -> & Hm3 & Ha & Hat3).
  { destruct (tape_moved_fields s s2 Hm). naive_solver congruence. }
  { destruct (tape_moved_fields s s2 Hm) as (_ & _ & Hk2 & _). congruence. }
  { by apply (Forall_zget _ _ _ _ Hok Ht). }
  pose proof (tape_moved_trans s s2 s3 Hm Hm3) as Hm'. exists s3, a. split; [done|]. split; [done|].
  split; [|done]. apply (tape_pos_moved s s3 out p); [done|done|lia|done|].
  rewrite (before_split _ _ _ Ht1), Hap, <- app_assoc. exact Hat3.
Qed.

(** From the end the cursor goes to the last row. *)
Lemma tape_prior_end s out t :
  tape_pos s out (zlen out + 1) -> zget out (zlen out - 1) = Some t ->
  exists s' a, tuplesort_gettuple_common s false = Ok (s', Some a) /\ tuple a = Some t /\
    tape_pos s' out (zlen out) /\ flagged s s'.
Proof.
  intros [Hst Hk Hra Hok Hne _ He Hat] Ht. rewrite Z.eqb_refl in He.
  rewrite before_end, (before_split _ _ _ Ht), after_end, <- app_assoc in Hat.
  destruct (sbackspace_at s _ _ _ (2 * sizeof_uint) Hat) as (s1 & Hb & Hm1 & Hat1); [done|].
  destruct (tape_moved_fields s s1 Hm1) as (_ & Hra1 & Hk1 & He1 & Hst1).
  unfold tuplesort_gettuple_common. rewrite Hst, He, Hb, rbind_ret.
  change (2 * sizeof_uint =? 0) with false. rewrite Z.eqb_refl. cbn [andb negb].
  set (s2 := set_eof_reached false s1).
  destruct (read_prior_at s2 _ _ _ (tape_at_flag s1 false _ _ Hat1)) as (s3 & a & -> & Hm3 & Ha & Hat3).
  { exact (eq_trans Hra1 Hra). } { change (sortKeys s2) with (sortKeys s1). congruence. }
  { by apply (Forall_zget _ _ _ _ Hok Ht). }
  exists s3, a. split; [done|]. split; [done|]. destruct (tape_moved_fields s2 s3 Hm3) as (_ & Hra3 & Hk3 & He3 & Hst3).
  split.
  - split; try done; try (pose proof (zlen_nonneg out); lia).
    + rewrite Hst3. exact (eq_trans Hst1 Hst).
    + rewrite Hk3. change (sortKeys s2) with (sortKeys s1). congruence.
    + rewrite Hra3. exact (eq_trans Hra1 Hra).
    + rewrite He3. cbn. symmetry. apply Z.eqb_neq. lia.
    + rewrite (before_split _ _ _ Ht), after_last, <- app_assoc. exact Hat3.
  - destruct Hm1 as [l1 ->], Hm3 as [l3 ->]. by exists false, l3.
Qed.

Lemma tape_prior s out p :
  tape_pos s out p ->
  exists s' r, tuplesort_gettupleslot s false = Ok (s', r) /\
    let q := Z.max (p - 1) 0 in
    fst <$> r = zget out (q - 1) /\ tape_pos s' out q /\ flagged s s'.
Proof.
  intros Hp. pose proof Hp as [Hst Hk Hra Hok Hne Hr He Hat]. cbv zeta.
  assert (H1 : 1 <= zlen out).
  { destruct out; [done|]. rewrite zlen_cons. pose proof (zlen_nonneg out). lia. }
  destruct (Z.eq_dec p 0) as [->|H0].
  { destruct (sbackspace_start s _ _ sizeof_uint Hat) as (s1 & Hb & Hm & Hat1); [by rewrite before_first|].
    exists s1, None. split.
    - apply gettupleslot_none. unfold tuplesort_gettuple_common. rewrite Hst, He.
      destruct (Z.eqb_spec 0 (zlen out + 1)); [lia|]. rewrite Hb, rbind_ret, before_first. done.
    - split; [by rewrite zget_None by lia|]. split; [|by apply tape_moved_flagged].
      apply (tape_pos_moved s s1 out 0); try done. by rewrite before_first in *. }
  rewrite Z.max_l by lia.
  destruct (Z.eq_dec p (zlen out + 1)) as [->|Hn].
  - destruct (zget_is_Some out (zlen out - 1)) as [t Ht]; [lia|].
    destruct (tape_prior_end s out t Hp Ht) as (s' & a & Hg & Ha & Hp' & Hf).
    destruct (slot_of s s' false a t Hg Ha (tp_keys _ _ _ Hp')) as (r & Hs & Hfst).
    exists s', r. replace (zlen out + 1 - 1) with (zlen out) by lia. by rewrite Hfst, Ht.
  - destruct (Z.eq_dec p 1) as [->|Hn1].
    + destruct (tape_prior_first s out Hp) as (s' & Hg & Hp' & Hm). exists s', None.
      split; [by apply gettupleslot_none|]. split; [by rewrite zget_None by lia|].
      split; [done|by apply tape_moved_flagged].
    + destruct (zget_is_Some out (p - 2)) as [t Ht]; [lia|].
      destruct (tape_prior_row s out p t Hp ltac:(lia) Ht) as (s' & a & Hg & Ha & Hp' & Hm).
      destruct (slot_of s s' false a t Hg Ha (tp_keys _ _ _ Hp')) as (r & Hs & Hfst).
      exists s', r. split; [done|]. split; [|split; [done|by apply tape_moved_flagged]].
      replace (p - 1 - 1) with (p - 2) by lia. by rewrite Hfst, Ht.
Qed.

(** ** The cursor *)

Section cursor.
Context (E : SortEnv) `{!SortEnvOk E}.

(** The mark is kept as a block of the file and an offset.  Before there is
    one, and after a rescan, these are zero, which need not be a position on the
    tape. *)
Record mark_at (s : Tuplesortstate) (out : list MinimalTuple) (p : Z) : Prop := {
  ma_range : 0 <= p <= zlen out + 1;
  ma_eof : markpos_eof s = (p =? zlen out + 1);
  ma_told : exists n, markpos_block s = tape_block E n /\ 0 <= n /\
    0 <= markpos_offset s <= TapeBlockPayloadSize /\
    n * TapeBlockPayloadSize + markpos_offset s = tape_size (before_row out p)
}.

(** [m]: a mark was set, and not lost by a rescan. *)
Record tape_sim (s : Tuplesortstate) (out : list MinimalTuple) (m : bool) (c : Scroll.state) : Prop := {
  ti_pos : tape_pos s out (Scroll.pos c);
  ti_mark : m = true -> mark_at s out (Scroll.mark c)
}.

Lemma sim_flagged s s' out m c q :
  tape_sim s out m c -> flagged s s' -> tape_pos s' out q ->
  tape_sim s' out m (Scroll.mk q (Scroll.mark c)).
Proof. intros [Hp Hm] (e & lts & ->) Hq. split; [done|]. intros Hb. by destruct (Hm Hb). Qed.

Lemma tape_pos_same s s' out p :
  status s' = status s -> sortKeys s' = sortKeys s -> randomAccess s' = randomAccess s ->
  eof_reached s' = eof_reached s -> tapeset s' = tapeset s -> result_tape s' = result_tape s ->
  tape_pos s out p -> tape_pos s' out p.
Proof.
  intros H1 H2 H3 H4 H5 H6 []. split; try congruence; try done.
  destruct tp_at0 as (lts & lt & Hl & Ht & Hat). exists lts, lt. rewrite H5, H6. done.
Qed.

Lemma tape_mark s out m c :
  tape_sim s out m c ->
  exists s', tuplesort_markpos E s = Ok s' /\ tape_sim s' out true (Scroll.mk (Scroll.pos c) (Scroll.pos c)).
Proof.
  intros [Hp _]. pose proof Hp as [Hst Hk Hra Hok Hne Hpr Hpe (lts & lt & Hl & Ht & Hat)].
  pose proof (at_cell_pos _ _ _ Hat) as Hpos. destruct (at_cell_loaded _ _ _ Hat) as [Hn0 Hn]. pose proof Hat as (_ & Hf & _).
  unfold tuplesort_markpos. rewrite Hst.
  rewrite (on_tapes_ok s lts _ lts (tape_block E (tblk lt), tpos lt - tblk lt * TapeBlockPayloadSize) Hl)
    by (unfold LogicalTapeTell; by rewrite (aget_Ok _ _ _ Ht), rbind_ret, Hf, rbind_ret).
  rewrite rbind_ret. eexists. split; [reflexivity|].
  split; cbn [Scroll.pos Scroll.mark]; [by apply (tape_pos_same s)|]. intros _. split; [done|done|].
  exists (tblk lt). change (markpos_offset _) with (tpos lt - tblk lt * TapeBlockPayloadSize).
  split; [done|]. split; [done|]. split; lia.
Qed.

Lemma tape_size_prefix before after : sized after -> tape_size before <= tape_size (before ++ after).
Proof. intros Hs. rewrite tape_size_app. pose proof (tape_size_nonneg _ Hs). lia. Qed.

Lemma run_sized out : Forall row_ok out -> sized (enc_run true out).
Proof.
  intros Hok. apply Forall_app. split; [|by repeat constructor].
  induction Hok as [|t ts Ht _ IH]; [constructor|]. rewrite enc_rows_cons. apply Forall_app.
  split; [by apply enc_row_sized|done].
Qed.

(** The tape at row [q]. *)
Lemma tape_at_row s lts lt out q n :
  zget lts (result_tape s) = Some lt -> Forall row_ok out ->
  block_loaded (LogTape.mk_tape false true (before_row out q ++ after_row out q) (tape_size (before_row out q)) n) ->
  tape_at (set_tapeset (Some (zset lts (result_tape s)
      (LogTape.mk_tape false true (enc_run true out) (tape_size (before_row out q)) n))) s)
    (before_row out q) (after_row out q).
Proof.
  intros Ht Hok Hl. apply (tape_at_set s lts _ lt); [done|done|]. rewrite <- (before_after out q) at 1.
  apply at_cell_mk; [|done]. rewrite before_after. by apply run_sized.
Qed.

(** The block that was told is found again. *)
Lemma find_block_told k n : 0 <= n < k -> find_block (tape_block E) k (tape_block E n) = Some n.
Proof.
  intros Hn. unfold find_block.
  destruct (list_find (fun m => tape_block E m = tape_block E n) (seqZ 0 k)) as [[i m]|] eqn:Hf.
  - apply list_find_Some in Hf as (Hm & Heq & _). apply lookup_seqZ in Hm as [-> Hi].
    cbn. f_equal. apply (tape_block_inj (E := E)); [lia|lia|done].
  - apply list_find_None in Hf. rewrite Forall_forall in Hf. exfalso. apply (Hf n); [|done]. apply elem_of_seqZ. lia.
Qed.

Lemma tape_restore s out c :
  tape_sim s out true c ->
  exists s', tuplesort_restorepos E s = Ok s' /\ tape_sim s' out true (Scroll.mk (Scroll.mark c) (Scroll.mark c)).
Proof.
  intros [Hp Hm]. destruct (Hm eq_refl) as [Hr He (n & Hblk & Hn & Ho & Hpos)].
  pose proof Hp as [Hst Hk Hra Hok Hne Hpr Hpe (lts & lt & Hl & Ht & Hat)].
  pose proof (zget_bounds _ _ _ Ht) as Hb. pose proof Hat as (_ & Hf & Hc). rewrite before_after in Hc.
  pose proof (run_sized out Hok) as Hs.
  assert (Hle : tape_size (before_row out (Scroll.mark c)) <= tape_size (enc_run true out)).
  { rewrite <- (before_after out (Scroll.mark c)) in Hs. apply Forall_app in Hs as [_ Hs].
    rewrite <- (before_after out (Scroll.mark c)). by apply tape_size_prefix. }
  assert (Hseek : LogicalTapeSeek (tape_block E) lts (result_tape s) (markpos_block s) (markpos_offset s) =
    Ok (zset lts (result_tape s)
      (LogTape.mk_tape false true (enc_run true out) (tape_size (before_row out (Scroll.mark c))) n))).
  { unfold LogicalTapeSeek, with_tape. rewrite (aget_Ok _ _ _ Ht), rbind_ret, Hf, Hblk, Hc. cbn [negb orb]. cbv zeta.
    rewrite find_block_told by (unfold TapeBlockPayloadSize in *; Z.to_euclidean_division_equations; lia).
    destruct (Z.ltb_spec (markpos_offset s) 0); [lia|].
    destruct (Z.ltb_spec TapeBlockPayloadSize (markpos_offset s)); [lia|]. cbn [orb]. rewrite Hpos.
    destruct (Z.leb_spec (tape_size (before_row out (Scroll.mark c))) (tape_size (enc_run true out))); [|lia].
    rewrite rbind_ret. by apply aset_Ok. }
  unfold tuplesort_restorepos. rewrite Hst, (upd_tapes_ok s lts _ _ Hl Hseek), rbind_ret.
  eexists. split; [reflexivity|]. split; cbn [Scroll.pos Scroll.mark].
  - split; try done. apply tape_at_flag. apply (tape_at_row s lts lt); [done|done|].
    unfold block_loaded. cbn [tblk tpos]. lia.
  - intros _. split; [done|done|]. exists n. split; [exact Hblk|]. split; [done|]. split; [exact Ho|exact Hpos].
Qed.

Lemma tape_rewind s out m c :
  tape_sim s out m c ->
  exists s', tuplesort_rescan s = Ok s' /\ tape_sim s' out false (Scroll.mk 0 0).
Proof.
  intros [Hp _]. pose proof Hp as [Hst Hk Hra Hok Hne Hpr Hpe (lts & lt & Hl & Ht & Hat)].
  pose proof (zget_bounds _ _ _ Ht) as Hb. pose proof Hat as (_ & Hf & Hc). rewrite before_after in Hc.
  pose proof (zlen_nonneg out).
  unfold tuplesort_rescan. rewrite Hst. erewrite (upd_tapes_ok s lts _ _ Hl).
  2:{ unfold LogicalTapeRewindForRead, with_tape. rewrite (aget_Ok _ _ _ Ht), rbind_ret, Hf, orb_true_r, rbind_ret.
      by apply aset_Ok. }
  rewrite rbind_ret. eexists. split; [reflexivity|]. rewrite Hc.
  assert (Hat0 : tape_at (set_tapeset (Some (zset lts (result_tape s)
      (LogTape.mk_tape false true (enc_run true out) 0 0))) s) (before_row out 0) (after_row out 0)).
  { pose proof (tape_at_row s lts lt out 0 0 Ht Hok) as Hrow. rewrite before_first in Hrow |- *. apply Hrow.
    unfold block_loaded, TapeBlockPayloadSize. cbn. lia. }
  assert (H0 : (0 =? zlen out + 1) = false) by (apply Z.eqb_neq; lia).
  split; cbn [Scroll.pos Scroll.mark]; [|done].
  split; try done; lia.
Qed.

Definition marked_after (m : bool) (o : Scroll.op) : bool :=
  match o with Scroll.Mark => true | Scroll.Rewind => false | _ => m end.

Lemma tape_step s out m c o :
  tape_sim s out m c -> (o = Scroll.Restore -> m = true) ->
  exists s', cursor_step E s o = Ok (s', snd (Scroll.step out c o)) /\
    tape_sim s' out (marked_after m o) (fst (Scroll.step out c o)).
Proof.
  intros Hs Hm. pose proof (ti_pos _ _ _ _ Hs) as Hp. destruct o; cbn [cursor_step marked_after].
  - destruct (tape_next s out _ Hp) as (s' & r & -> & Hrow & Hp' & Hf). rewrite rbind_ret.
    exists s'. split; [by rewrite Hrow|]. by apply (sim_flagged s).
  - destruct (tape_prior s out _ Hp) as (s' & r & -> & Hrow & Hp' & Hf). rewrite rbind_ret.
    exists s'. split; [by rewrite Hrow|]. by apply (sim_flagged s).
  - destruct (tape_mark s out m c Hs) as (s' & -> & Hs'). by exists s'.
  - rewrite (Hm eq_refl) in *. destruct (tape_restore s out c Hs) as (s' & -> & Hs'). by exists s'.
  - destruct (tape_rewind s out m c Hs) as (s' & -> & Hs'). by exists s'.
Qed.

(** Every restore goes back to a mark set since the last rescan. *)
Fixpoint restores_marked (m : bool) (ops : list Scroll.op) : bool :=
  match ops with
  | [] => true
  | o :: ops =>
    (match o with Scroll.Restore => m | _ => true end) && restores_marked (marked_after m o) ops
  end.

Lemma tape_run s out m c ops :
  tape_sim s out m c -> restores_marked m ops = true -> cursor_run E s ops = Ok (Scroll.run out c ops).
Proof.
  revert s m c. induction ops as [|o ops IH]; intros s m c Hs Hm; [done|].
  cbn [restores_marked] in Hm. apply andb_true_iff in Hm as [Ho Hm].
  cbn [cursor_run Scroll.run]. destruct (tape_step s out m c o Hs) as (s' & -> & Hs'); [by intros ->|].
  destruct (Scroll.step out c o) as [c' r]. cbn in *. by rewrite (IH s' _ c' Hs' Hm).
Qed.
End cursor.

(** ** Properties *)

Lemma tape_sim_start E s out :
  on_tape s out -> tape_start s -> randomAccess s = true -> out <> [] ->
  tape_sim E s out false (Scroll.mk 0 0).
Proof.
  intros [Hst Hwf (lts & lt & Hl & Ht & Hf & Hrd & Hc) [Hok _]] [He Hb Ho Hm] Hra Hne.
  pose proof (zlen_nonneg out). rewrite Hra in Hrd, Hc.
  assert (H0 : (0 =? zlen out + 1) = false) by (apply Z.eqb_neq; lia).
  split; cbn [Scroll.pos Scroll.mark]; [|done].
  split; try done; try lia.
  - by destruct (kw_abbrev _ Hwf) as (k & ks & -> & _).
  - by rewrite H0.
  - exists lts, lt. do 2 (split; [done|]).
    assert (Ha : after_row out 0 = enc_run true out) by (by rewrite <- (before_after out 0), before_first).
    rewrite before_first, Ha. by split.
Qed.

(** A sort begun with random access, fed and finished. *)
Definition random_access_sort (E : SortEnv) (keys : list SortSupportData) (workMem : Z)
    (rows : list MinimalTuple) : res Tuplesortstate := whole_sort E keys workMem true rows.

Lemma random_access_sort_ok E `{!SortEnvOk E} keys workMem rows :
  keys_wf keys -> Forall row_ok rows -> zlen rows < INT_MAX ->
  exists s out, random_access_sort E keys workMem rows = Ok s /\ out ≡ₚ rows /\
    StronglySorted (cle (tcmp keys)) out /\
    forall ops, (status s = TSS_SORTEDONTAPE -> restores_marked false ops = true) ->
      cursor_run E s ops = Ok (Scroll.run out (Scroll.mk 0 0) ops).
Proof.
  intros Hwf Hok Hmax. unfold random_access_sort.
  destruct (whole_sort_finishes E keys workMem true rows Hwf Hok Hmax) as (s & -> & Hra & Hfin).
  exists s. destruct Hfin as [(out & Hr & Has & Hb & Hp) | (Hcmp & Hne & [[_ Hf] | (out & Hon & Hts & Hp)])].
  - exists out. split; [done|]. split; [done|]. split; [apply (ri_sorted _ _ _ Hr)|]. intros ops _.
    apply (cursor_run_sim E keys). apply cursor_sim_start; [done|done|congruence].
  - done.
  - exists out. split; [done|]. split; [done|].
    split; [rewrite <- Hcmp; apply (ot_run _ _ Hon)|]. intros ops Hm. apply (tape_run E s out false).
    2:{ apply Hm. apply (ot_status _ _ Hon). }
    apply tape_sim_start; try done. intros ->. by apply Permutation_nil_l in Hp.
Qed.

(** C9. A sort with random access is a scrollable cursor over a sorted
    permutation of its input, whatever memory it is given and wherever the blocks
    of its result lie in the file: every sequence of forward and backward
    fetches, marks, restores and rescans returns the rows the SQL cursor returns,
    whether the result lies in memory or on tape.  On tape every restore must
    follow a mark that no rescan has dropped: without one the code seeks block 0
    of the file, whatever lies there. *)
Theorem tuplesort_random_access_cursor E `{!SortEnvOk E} keys workMem rows :
  keys_wf keys -> Forall row_ok rows -> zlen rows < INT_MAX ->
  exists s out, random_access_sort E keys workMem rows = Ok s /\ out ≡ₚ rows /\
    StronglySorted (cle (tcmp keys)) out /\
    forall ops, (status s = TSS_SORTEDONTAPE -> restores_marked false ops = true) ->
      cursor_run E s ops = Ok (Scroll.run out (Scroll.mk 0 0) ops).
Proof. apply (random_access_sort_ok E keys workMem rows). Qed.

(** Nine rows of 60000 bytes sorted in 64 kB with random access end up on
    tape; the cursor moves in both directions there. *)
Example big_rows_on_tape :
  (do! s <- whole_sort merge_env [int_key] 64 true (big_row <$> [5; 3; 9; 1; 4; 7; 2; 8; 6]) ;;
   do! rs <- cursor_run merge_env s [Scroll.Next; Scroll.Next; Scroll.Mark; Scroll.Next; Scroll.Prior; Scroll.Prior;
                           Scroll.Prior; Scroll.Restore; Scroll.Next] ;;
   Ok (status s, rs)) =
  Ok (TSS_SORTEDONTAPE,
      [Some (big_row 1); Some (big_row 2); None; Some (big_row 3); Some (big_row 2); Some (big_row 1);
       None; None; Some (big_row 3)]).
Proof. vm_compute. reflexivity. Qed.

(** Here no block of the tape is block 0 of the file, and a restore without a
    mark leaves the tape. *)
Example restore_without_mark :
  (do! s <- whole_sort merge_env [int_key] 64 true (big_row <$> [5; 3; 9; 1; 4; 7; 2; 8; 6]) ;;
   cursor_run merge_env s [Scroll.Next; Scroll.Restore]) = Crash.
Proof. vm_compute. reflexivity. Qed.

Lemma tuplesort_random_access_cursor_witness :
  exists s out,
    random_access_sort merge_env [int_key] 64 (big_row <$> [5; 3; 9; 1; 4; 7; 2; 8; 6]) = Ok s /\
    out ≡ₚ big_row <$> [5; 3; 9; 1; 4; 7; 2; 8; 6] /\ StronglySorted (cle (tcmp [int_key])) out /\
    forall ops, (status s = TSS_SORTEDONTAPE -> restores_marked false ops = true) ->
      cursor_run merge_env s ops = Ok (Scroll.run out (Scroll.mk 0 0) ops).
Proof.
  apply (tuplesort_random_access_cursor merge_env [int_key] 64 (big_row <$> [5; 3; 9; 1; 4; 7; 2; 8; 6])).
  - apply int_key_wf.
  - repeat (constructor; [vm_compute; split; [reflexivity|discriminate]|]). constructor.
  - vm_compute. reflexivity.
Defined.
