(* ===== verification/Executor.v ===== *)
(** * The executor's interface between plan nodes

    A plan node is a state on which the executor calls [ExecProcNode] (one
    row, or an empty slot at the end), [ExecReScan] and [ExecSetTupleBound].
    The execution state [EState] is shared by all nodes of a plan: the scan
    direction, and VBASE's [is_index_inorder], through which an index scan
    tells a Sort node above it that the index has left the neighbourhood of
    the query point.  Rows are passed as minimal tuples; an empty slot is
    [None]. *)

From Stdlib Require Import ZArith Lia.
From stdpp Require Import base list sorting strings.
From S2P Require Import Prelude SortSupport.

Local Open Scope Z_scope.

Inductive ScanDirection :=
| BackwardScanDirection
| NoMovementScanDirection
| ForwardScanDirection.

#[global] Instance ScanDirection_eq_dec : EqDecision ScanDirection.
Proof. solve_decision. Defined.

Definition ScanDirectionIsForward (d : ScanDirection) : bool :=
  bool_decide (d = ForwardScanDirection).
Definition ScanDirectionIsBackward (d : ScanDirection) : bool :=
  bool_decide (d = BackwardScanDirection).

Record EState := mk_estate {
  es_direction : ScanDirection;
  is_index_inorder : bool
}.

Definition set_direction (d : ScanDirection) (e : EState) : EState :=
  mk_estate d (is_index_inorder e).
Definition set_inorder (b : bool) (e : EState) : EState := mk_estate (es_direction e) b.

Abbreviation row := MinimalTuple.

(** What a parent node may do with its child. *)
Class PlanState (P : Type) := {
  ExecProcNode : P -> EState -> res (P * EState * option row);
  ExecReScan : P -> EState -> res (P * EState);
  ExecSetTupleBound : Z -> P -> P
}.

(** ** What a child promises

    A forward stream: the child delivers the rows of the list, the flag of a
    row is the value it leaves in [is_index_inorder], then an empty slot.
    [yields] forgets the flags. *)
Section steps.
Context {P : Type} (step : P -> EState -> res (P * EState * option row)).

Fixpoint stream (p : P) (rows : list (row * bool)) : Prop :=
  match rows with
  | [] =>
    forall e, es_direction e = ForwardScanDirection ->
      exists p' e', step p e = Ok (p', e', None) /\ es_direction e' = ForwardScanDirection
  | (r, f) :: rows =>
    forall e, es_direction e = ForwardScanDirection ->
      exists p', step p e = Ok (p', set_inorder f e, Some r) /\ stream p' rows
  end.

Fixpoint yields (p : P) (e : EState) (rows : list row) : Prop :=
  exists p' e', step p e = Ok (p', e', head rows) /\
    match rows with [] => True | _ :: rows => yields p' e' rows end.

Lemma stream_yields p e rows :
  stream p rows -> es_direction e = ForwardScanDirection -> yields p e (rows.*1).
Proof.
  revert p e. induction rows as [|[r f] rows IH]; intros p e Hs He; cbn.
  - destruct (Hs e He) as (p' & e' & -> & He'). by exists p', e'.
  - destruct (Hs e He) as (p' & -> & Hs'). exists p', (set_inorder f e).
    split; [done|]. by apply IH.
Qed.
End steps.

Abbreviation delivers := (stream ExecProcNode).

Section streams.
Context {P : Type} `{PlanState P}.

(** A scrollable child over [rows]: position [q] is the number of the row
    last returned, 0 before the first and [n + 1] after the last.  [lim]
    bounds the forward fetches: a child asked to go on from position [lim]
    promises nothing (a bounded sort raises an error there). *)
Definition next_pos (rows : list row) (q : Z) : Z := Z.min (q + 1) (zlen rows + 1).
Definition prior_pos (q : Z) : Z := Z.max (q - 1) 0.

Definition within (lim : option Z) (q : Z) : Prop :=
  match lim with None => True | Some l => q < l end.

Record scrolls (rows : list row) (lim : option Z) (R : Z -> P -> Prop) : Prop := {
  sc_range : forall q p, R q p -> 0 <= q <= zlen rows + 1;
  sc_next : forall q p e, R q p -> es_direction e = ForwardScanDirection -> within lim q ->
    exists p' e', ExecProcNode p e = Ok (p', e', zget rows (next_pos rows q - 1)) /\
      es_direction e' = ForwardScanDirection /\ R (next_pos rows q) p';
  sc_prior : forall q p e, R q p -> es_direction e = BackwardScanDirection ->
    exists p' e', ExecProcNode p e = Ok (p', e', zget rows (prior_pos q - 1)) /\
      es_direction e' = BackwardScanDirection /\ R (prior_pos q) p'
}.
End streams.

(** ** Running a plan *)

Section running.
Context {P : Type} `{PlanState P}.

(** Fetch rows forward until the empty slot, at most [n] of them. *)
Fixpoint pull (n : nat) (p : P) (e : EState) : res (P * EState * list row) :=
  match n with
  | O => Ok (p, e, [])
  | S n =>
    do! ' (p, e, r) <- ExecProcNode p e ;;
    match r with
    | None => Ok (p, e, [])
    | Some r => do! ' (p, e, rs) <- pull n p e ;; Ok (p, e, r :: rs)
    end
  end.

Lemma pull_yields n p rows e :
  yields ExecProcNode p e rows -> (length rows < n)%nat ->
  exists p' e', pull n p e = Ok (p', e', rows).
Proof.
  revert n p e. induction rows as [|r rows IH]; intros n p e Hy Hn;
    (destruct n as [|n]; [cbn in Hn; lia|]); cbn [pull];
    destruct Hy as (p' & e' & -> & Hy'); rewrite rbind_ret; cbn [head].
  - by exists p', e'.
  - destruct (IH n p' e') as (p2 & e2 & ->); [done|cbn in Hn; lia|].
    rewrite rbind_ret. by exists p2, e2.
Qed.

(** A sequence of forward and backward fetches. *)
Fixpoint fetches (dirs : list ScanDirection) (p : P) (e : EState) : res (list (option row)) :=
  match dirs with
  | [] => Ok []
  | d :: dirs =>
    do! ' (p, e, r) <- ExecProcNode p (set_direction d e) ;;
    do! rs <- fetches dirs p e ;;
    Ok (r :: rs)
  end.

(** The rows a scrollable cursor over [rows] returns. *)
Fixpoint scroll_rows (rows : list row) (dirs : list ScanDirection) (q : Z)
    : list (option row) :=
  match dirs with
  | [] => []
  | d :: dirs =>
    let q := if ScanDirectionIsForward d then next_pos rows q else prior_pos q in
    zget rows (q - 1) :: scroll_rows rows dirs q
  end.

Lemma fetches_scroll rows R dirs q p e :
  scrolls rows None R -> R q p -> Forall (fun d => d <> NoMovementScanDirection) dirs ->
  fetches dirs p e = Ok (scroll_rows rows dirs q).
Proof.
  intros Hsc. revert q p e. induction dirs as [|d dirs IH]; intros q p e HR Hd; [done|].
  inversion Hd as [|?? Hd0 Hds]; subst. cbn [fetches scroll_rows]. destruct d.
  - destruct (sc_prior _ _ _ Hsc q p (set_direction BackwardScanDirection e) HR eq_refl)
      as (p' & e' & -> & _ & HR'). cbn. by rewrite (IH _ p' e' HR' Hds).
  - done.
  - destruct (sc_next _ _ _ Hsc q p (set_direction ForwardScanDirection e) HR eq_refl I)
      as (p' & e' & -> & _ & HR'). cbn. by rewrite (IH _ p' e' HR' Hds).
Qed.

(** Reading forward from position [q] gives the rows after it. *)
Lemma pull_scroll rows lim R n q p e :
  scrolls rows lim R -> R q p -> es_direction e = ForwardScanDirection ->
  (forall i, q <= i < q + Z.of_nat n -> within lim i) -> q <= zlen rows ->
  exists p' e', pull n p e = Ok (p', e', ztake (Z.of_nat n) (zdrop q rows)) /\
    R (Z.min (q + Z.of_nat n) (zlen rows + 1)) p' /\ es_direction e' = ForwardScanDirection.
Proof.
  intros Hsc. revert q p e. induction n as [|n IH]; intros q p e HR He Hlim Hq.
  { exists p, e. cbn. split; [done|]. split; [|done]. by replace (Z.min (q + 0) _) with q by lia. }
  pose proof (sc_range _ _ _ Hsc q p HR) as Hrange.
  cbn [pull]. destruct (sc_next _ _ _ Hsc q p e HR He) as (p' & e' & -> & He' & HR').
  { apply Hlim. lia. }
  cbn [rbind]. unfold next_pos in *. destruct (Z.eq_dec q (zlen rows)) as [->|Hne].
  - rewrite Z.min_r by lia. rewrite zget_None by lia. exists p', e'.
    split; [|split; [|done]].
    + unfold zdrop, ztake, zlen. rewrite drop_ge by lia. by rewrite take_nil.
    + rewrite Z.min_r in HR' by lia. by rewrite Z.min_r by lia.
  - rewrite Z.min_l in * by lia. rewrite Z.add_simpl_r.
    destruct (zget_is_Some rows q) as [r Hr]; [lia|]. rewrite Hr.
    destruct (IH (q + 1) p' e' HR' He') as (p2 & e2 & -> & HR2 & He2).
    { intros i Hi. apply Hlim. lia. }
    { lia. }
    cbn [rbind]. exists p2, e2. split; [|split; [|done]].
    + do 2 f_equal. unfold zget, zdrop, ztake in *. destruct (Z.leb_spec 0 q); [|lia].
      rewrite (drop_S rows r (Z.to_nat q)) by done. rewrite !Nat2Z.id.
      replace (Z.to_nat (q + 1)) with (S (Z.to_nat q)) by lia. done.
    + by replace (q + Z.of_nat (S n)) with (q + 1 + Z.of_nat n) by lia.
Qed.
End running.

(** ** A child that replays a list *)

Definition ListPlan : Type := list (row * bool).

#[export] Instance list_plan : PlanState ListPlan := {|
  ExecProcNode := fun l e =>
    match l with
    | [] => Ok ([], e, None)
    | (r, f) :: l => Ok (l, set_inorder f e, Some r)
    end;
  ExecReScan := fun l e => Ok (l, e);
  ExecSetTupleBound := fun _ l => l
|}.

Lemma list_plan_delivers (l : ListPlan) : delivers l l.
Proof. induction l as [|[r f] l IH]; cbn; eauto. Qed.

(** ** A child that scrolls over a list *)

Definition CursorPlan : Type := list row * Z.

#[export] Instance cursor_plan : PlanState CursorPlan := {|
  ExecProcNode := fun '(rows, q) e =>
    let q := if ScanDirectionIsForward (es_direction e) then next_pos rows q else prior_pos q in
    Ok ((rows, q), e, zget rows (q - 1));
  ExecReScan := fun '(rows, _) e => Ok ((rows, 0), e);
  ExecSetTupleBound := fun _ p => p
|}.

Definition cursor_at (rows : list row) (q : Z) (p : CursorPlan) : Prop :=
  p = (rows, q) /\ 0 <= q <= zlen rows + 1.

Lemma cursor_plan_scrolls (rows : list row) : scrolls rows None (cursor_at rows).
Proof.
  pose proof (zlen_nonneg rows). split.
  - by intros q p [-> Hq].
  - intros q p e [-> Hq] He _. cbn. rewrite He. eexists _, e. split; [done|]. split; [done|].
    split; [done|]. unfold next_pos. lia.
  - intros q p e [-> Hq] He. cbn. rewrite He. eexists _, e. split; [done|]. split; [done|].
    split; [done|]. unfold prior_pos. lia.
Qed.

Definition forward_estate : EState := mk_estate ForwardScanDirection false.
