(* ===== verification/NodeSort.v ===== *)
(** * executor/nodeSort.c

    A Sort node reads its child to the end on the first call, or stops early
    when the index below reports that it is in order and the sort holds as
    many tuples as its bound (the VBASE change), and then returns the sorted
    rows one by one. *)

From Stdlib Require Import ZArith Lia.
From stdpp Require Import base list sorting strings.
From S2P Require Import Prelude SortSupport TuplesortState Tuplesort TuplesortMem TuplesortCursor Executor.

Local Open Scope Z_scope.

Record SortState (P : Type) := mk_sort {
  sort_keys : list SortSupportData;
  work_mem : Z;
  ss_randomAccess : bool;
  ss_bounded : bool;
  ss_bound : Z;
  sort_Done : bool;
  bounded_Done : bool;
  bound_Done : Z;
  tuplesortstate : option Tuplesortstate;
  sort_outer : P;
  outer_chgParam : bool
}.
Arguments mk_sort {P}.
Arguments sort_keys {P}.
Arguments work_mem {P}.
Arguments ss_randomAccess {P}.
Arguments ss_bounded {P}.
Arguments ss_bound {P}.
Arguments sort_Done {P}.
Arguments bounded_Done {P}.
Arguments bound_Done {P}.
Arguments tuplesortstate {P}.
Arguments sort_outer {P}.
Arguments outer_chgParam {P}.

Section node_sort.
Context {P : Type} `{PlanState P}.
Variable E : SortEnv.
(** Unrolling limit of the loop that reads the child. *)
Variable fuel : nat.

Definition EXEC_FLAG_REWIND : Z := 2.
Definition EXEC_FLAG_BACKWARD : Z := 4.
Definition EXEC_FLAG_MARK : Z := 8.

(** [outer] is the initialized child. *)
Definition ExecInitSort (keys : list SortSupportData) (wmem eflags : Z) (outer : P)
    : SortState P :=
  let randomAccess :=
    negb (Z.land eflags
            (Z.lor EXEC_FLAG_REWIND (Z.lor EXEC_FLAG_BACKWARD EXEC_FLAG_MARK)) =? 0) in
  mk_sort keys wmem randomAccess false 0 false false 0 None outer false.

Definition with_sort (node : SortState P) (done : bool) (ts : option Tuplesortstate)
    (outer : P) : SortState P :=
  mk_sort (sort_keys node) (work_mem node) (ss_randomAccess node) (ss_bounded node)
    (ss_bound node) done (bounded_Done node) (bound_Done node) ts outer (outer_chgParam node).

(** The loop of [ExecSort] that scans the subplan. *)
Fixpoint sort_feed (n : nat) (outer : P) (e : EState) (ts : Tuplesortstate)
    : res (P * EState * Tuplesortstate) :=
  match n with
  | O => NoFuel
  | S n =>
    do! ' (outer, e, slot) <- ExecProcNode outer e ;;
    match slot with
    | None => Ok (outer, e, ts)
    | Some r =>
      do! ts <- tuplesort_puttupleslot E ts r ;;
      if is_index_inorder e && tuplesort_heapfull ts then Ok (outer, e, ts)
      else sort_feed n outer e ts
    end
  end.

(** First call: read the subplan and sort. *)
Definition sort_subplan (node : SortState P) (e : EState) : res (SortState P * EState) :=
  let dir := es_direction e in
  let e := set_direction ForwardScanDirection e in
  do! ts <- tuplesort_begin_heap (sort_keys node) (work_mem node) (ss_randomAccess node) ;;
  let ts := if ss_bounded node then tuplesort_set_bound ts (ss_bound node) else ts in
  (* ExecProcNode first rescans a child whose parameters changed *)
  do! ' (outer, e) <-
    (if outer_chgParam node then ExecReScan (sort_outer node) e else Ok (sort_outer node, e)) ;;
  do! ' (outer, e, ts) <- sort_feed fuel outer e ts ;;
  do! ts <- tuplesort_performsort E ts ;;
  let e := set_direction dir e in
  Ok (mk_sort (sort_keys node) (work_mem node) (ss_randomAccess node) (ss_bounded node)
        (ss_bound node) true (ss_bounded node) (ss_bound node) (Some ts) outer false, e).

Definition ExecSort (node : SortState P) (e : EState)
    : res (SortState P * EState * option row) :=
  let dir := es_direction e in
  do! ' (node, e) <- (if sort_Done node then Ok (node, e) else sort_subplan node e) ;;
  match tuplesortstate node with
  | None => Crash
  | Some ts =>
    do! ' (ts, r) <- tuplesort_gettupleslot ts (ScanDirectionIsForward dir) ;;
    Ok (with_sort node (sort_Done node) (Some ts) (sort_outer node), e, fst <$> r)
  end.

Definition ExecSortMarkPos (node : SortState P) : res (SortState P) :=
  if negb (sort_Done node) then Ok node
  else
    match tuplesortstate node with
    | None => Crash
    | Some ts =>
      do! ts <- tuplesort_markpos E ts ;;
      Ok (with_sort node true (Some ts) (sort_outer node))
    end.

Definition ExecSortRestrPos (node : SortState P) : res (SortState P) :=
  if negb (sort_Done node) then Ok node
  else
    match tuplesortstate node with
    | None => Crash
    | Some ts =>
      do! ts <- tuplesort_restorepos E ts ;;
      Ok (with_sort node true (Some ts) (sort_outer node))
    end.

Definition ExecReScanSort (node : SortState P) (e : EState) : res (SortState P * EState) :=
  if negb (sort_Done node) then Ok (node, e)
  else if outer_chgParam node || negb (Bool.eqb (ss_bounded node) (bounded_Done node)) ||
          negb (ss_bound node =? bound_Done node) || negb (ss_randomAccess node) then
    if negb (outer_chgParam node) then
      do! ' (outer, e) <- ExecReScan (sort_outer node) e ;;
      Ok (with_sort node false None outer, e)
    else Ok (with_sort node false None (sort_outer node), e)
  else
    match tuplesortstate node with
    | None => Crash
    | Some ts =>
      do! ts <- tuplesort_rescan ts ;;
      Ok (with_sort node true (Some ts) (sort_outer node), e)
    end.

(** The Sort branch of [ExecSetTupleBound]. *)
Definition sort_set_bound (tuples_needed : Z) (node : SortState P) : SortState P :=
  let '(b, n) :=
    if tuples_needed <? 0 then (false, ss_bound node) else (true, tuples_needed) in
  mk_sort (sort_keys node) (work_mem node) (ss_randomAccess node) b n (sort_Done node)
    (bounded_Done node) (bound_Done node) (tuplesortstate node) (sort_outer node)
    (outer_chgParam node).

Definition sort_plan : PlanState (SortState P) := {|
  ExecProcNode := ExecSort;
  ExecReScan := ExecReScanSort;
  ExecSetTupleBound := sort_set_bound
|}.
End node_sort.

(** ** What the Sort node has read when it stops *)

(** The rows taken from the child by a sort with bound [b] that already holds
    [n]: through the first row that leaves the index in order with at least
    [b] rows read. *)
Fixpoint consumed (b n : Z) (rows : list (row * bool)) : list row :=
  match rows with
  | [] => []
  | (r, f) :: rows => r :: (if f && (n + 1 >=? b) then [] else consumed b (n + 1) rows)
  end.

Lemma consumed_prefix b n rows : exists rest, rows.*1 = consumed b n rows ++ rest.
Proof.
  revert n. induction rows as [|[r f] rows IH]; intros n; [by exists []|]. cbn.
  destruct (f && (n + 1 >=? b)); [by exists (rows.*1)|].
  destruct (IH (n + 1)) as [rest ->]. by exists rest.
Qed.

Section sort_spec.
Context {P : Type} `{PlanState P} (E : SortEnv) `{!SortEnvOk E}.
Implicit Types (node : SortState P) (outer : P) (e : EState) (ts : Tuplesortstate).

Lemma heapfull_loaded keys0 ts ins :
  load_inv keys0 ts ins -> tuplesort_heapfull ts = (zlen ins >=? bound ts).
Proof.
  intros [(_ & _ & Hn & _)|(Hb & Hbn)]; unfold tuplesort_heapfull.
  - by rewrite Hn.
  - rewrite (bi_count _ _ _ Hb), !Z.geb_leb.
    rewrite Z.leb_refl. symmetry. by apply Z.leb_le.
Qed.

Lemma sort_feed_ok fuel keys0 wm b c outer e ts ins rows :
  topn_budget wm b c (ins ++ rows.*1) -> load_inv keys0 ts ins ->
  bounded ts = true -> bound ts = b ->
  (status ts = TSS_INITIAL ->
     memtupsize ts = INITIAL_MEMTUPSIZE /\ allowedMem ts = Z.max wm 64 * 1024) ->
  delivers outer rows -> es_direction e = ForwardScanDirection -> (length rows < fuel)%nat ->
  exists outer' e' ts', sort_feed E fuel outer e ts = Ok (outer', e', ts') /\
    put_all E ts (consumed b (zlen ins) rows) = Ok ts' /\
    es_direction e' = ForwardScanDirection.
Proof.
  revert fuel outer e ts ins. induction rows as [|[r f] rows IH];
    intros [|fuel] outer e ts ins Hbud Hl Hb Hbd Hst Hdel He Hf; cbn in Hf; try lia;
    cbn [sort_feed].
  - destruct (Hdel e He) as (outer' & e' & -> & He'). cbn. by exists outer', e', ts.
  - destruct (Hdel e He) as (outer' & -> & Hdel'). cbn [rbind]. cbn in Hbud.
    pose proof (budget_fits keys0 wm b c ts ins r _ Hbud Hl Hb Hbd Hst) as Hfit.
    destruct (load_put E keys0 ts ins r Hl Hfit) as (ts1 & Hput & Hl1 & Hb1 & Hbd1 & Hst1).
    cbn [consumed put_all]. rewrite Hput. cbn [rbind is_index_inorder set_inorder].
    rewrite (heapfull_loaded keys0 ts1 _ Hl1).
    rewrite zlen_app. change (zlen [r]) with 1. rewrite Hbd1, Hbd.
    destruct (f && (zlen ins + 1 >=? b)).
    + by exists outer', (set_inorder f e), ts1.
    + destruct (IH fuel outer' (set_inorder f e) ts1 (ins ++ [r]))
        as (outer2 & e2 & ts2 & -> & Hp2 & He2); auto; try congruence; [| |lia|].
      * by rewrite <- app_assoc.
      * intros Hini. destruct (Hst1 Hini) as (-> & -> & ?). by apply Hst.
      * exists outer2, e2, ts2. split; [done|].
        rewrite zlen_app in Hp2. change (zlen [r]) with 1 in Hp2. done.
Qed.

(** A Sort node that has been told to produce [b] rows and not run yet. *)
Record sort_fresh node (keys : list SortSupportData) (wm b : Z) : Prop := {
  sf_keys : sort_keys node = keys;
  sf_mem : work_mem node = wm;
  sf_bounded : ss_bounded node = true;
  sf_bound : ss_bound node = b;
  sf_done : sort_Done node = false;
  sf_chg : outer_chgParam node = false
}.

(** A Sort node positioned on row [q] of [out]; [bd] and [b] are the bound
    its tuplesort was given. *)
Record sort_at (keys : list SortSupportData) (bd : bool) (b : Z) (out : list row) (q : Z)
    node : Prop := {
  sa_done : sort_Done node = true;
  sa_ts : exists ts, tuplesortstate node = Some ts /\ result_inv keys ts out /\
    bounded ts = bd /\ bound ts = b /\ pos_ok (zlen out) (current ts) (eof_reached ts) q
}.

Lemma sort_subplan_ok fuel node e keys wm b c rows ts :
  sort_fresh node keys wm b -> keys_wf keys -> topn_budget wm b c (rows.*1) ->
  delivers (sort_outer node) rows -> (length rows < fuel)%nat ->
  top_sort E keys wm (ss_randomAccess node) b (consumed b 0 rows) = Ok ts ->
  exists outer' e', sort_subplan E fuel node e =
      Ok (mk_sort keys wm (ss_randomAccess node) true b true true b (Some ts) outer' false, e') /\
    es_direction e' = es_direction e.
Proof.
  intros [Hk Hm Hb Hbd Hd Hc] Hwf Hbud Hdel Hf Hts. pose proof (tb_bound _ _ _ _ Hbud) as Hbb.
  unfold sort_subplan, top_sort in *. rewrite Hk, Hm, Hb, Hbd, Hc.
  destruct (begin_bounded_ok keys wm (ss_randomAccess node) b Hwf Hbb)
    as (s0 & Hbeg & Hl & Hb1 & Hbd1 & Hsz & Hal).
  rewrite Hbeg in Hts |- *. cbn [rbind] in Hts |- *.
  destruct (sort_feed_ok fuel keys wm b c (sort_outer node)
    (set_direction ForwardScanDirection e) (tuplesort_set_bound s0 b) [] rows)
    as (outer' & e' & ts' & -> & Hput & He'); auto.
  cbn [rbind]. change (zlen []) with 0 in Hput. rewrite Hput in Hts. cbn [rbind] in Hts.
  rewrite Hts. cbn [rbind]. by eexists outer', _.
Qed.

(** The forward fetches a Sort of [out] supports. *)
Definition sort_lim (bd : bool) (b : Z) (out : list row) : option Z :=
  if bd && negb (zlen out <? b) then Some b else None.

Lemma sort_lim_within bd b out q :
  within (sort_lim bd b out) q -> bd = true -> zlen out < b \/ q < b <= zlen out.
Proof. unfold sort_lim. intros Hw ->. destruct (Z.ltb_spec (zlen out) b); cbn in Hw; lia. Qed.

Lemma sort_lim_first bd b out i : i < b -> within (sort_lim bd b out) i.
Proof. unfold sort_lim, within. by destruct (bd && negb (zlen out <? b)). Qed.

(** Fetching from a sorted node. *)
Lemma sort_fetch_next keys bd b out q node ts e e0 :
  sort_Done node = true -> tuplesortstate node = Some ts -> result_inv keys ts out ->
  bounded ts = bd -> bound ts = b -> pos_ok (zlen out) (current ts) (eof_reached ts) q ->
  within (sort_lim bd b out) q -> es_direction e0 = ForwardScanDirection ->
  exists node',
    (do! ' (ts, r) <- tuplesort_gettupleslot ts (ScanDirectionIsForward (es_direction e0)) ;;
     Ok (with_sort node (sort_Done node) (Some ts) (sort_outer node), e, fst <$> r)) =
    Ok (node', e, zget out (next_pos out q - 1)) /\
    sort_at keys bd b out (next_pos out q) node'.
Proof.
  intros Hd Hts Hr Hb Hbd Hp Hlim He. rewrite He. change (ScanDirectionIsForward _) with true.
  destruct (get_next keys ts out q Hr Hp) as (c & ef & r & -> & Hrow & Hp').
  { intros Hbt. rewrite Hbd. apply (sort_lim_within bd b out q Hlim). congruence. }
  cbn [rbind]. rewrite Hrow. eexists. split; [done|]. split; [done|]. eexists. split; [done|].
  split; [by apply result_inv_cursor|]. done.
Qed.

Lemma sort_fetch_prior keys bd b out q node ts e e0 :
  sort_Done node = true -> tuplesortstate node = Some ts -> result_inv keys ts out ->
  bounded ts = bd -> bound ts = b -> pos_ok (zlen out) (current ts) (eof_reached ts) q ->
  es_direction e0 = BackwardScanDirection ->
  exists node',
    (do! ' (ts, r) <- tuplesort_gettupleslot ts (ScanDirectionIsForward (es_direction e0)) ;;
     Ok (with_sort node (sort_Done node) (Some ts) (sort_outer node), e, fst <$> r)) =
    Ok (node', e, zget out (prior_pos q - 1)) /\ sort_at keys bd b out (prior_pos q) node'.
Proof.
  intros Hd Hts Hr Hb Hbd Hp He. rewrite He. change (ScanDirectionIsForward _) with false.
  destruct (get_prior keys ts out q Hr Hp) as (c & ef & r & -> & Hrow & Hp').
  cbn [rbind]. rewrite Hrow. eexists. split; [done|]. split; [done|]. eexists. split; [done|].
  split; [by apply result_inv_cursor|]. done.
Qed.

(** A Sort node whose first call sorts into [out] is a scrollable plan. *)
Lemma sort_scrolls_of fuel node keys ts out :
  sort_Done node = false ->
  (forall e, exists node1 e1, sort_subplan E fuel node e = Ok (node1, e1) /\
     sort_Done node1 = true /\ tuplesortstate node1 = Some ts /\
     es_direction e1 = es_direction e) ->
  result_inv keys ts out -> at_start ts ->
  @scrolls _ (sort_plan E fuel) out (sort_lim (bounded ts) (bound ts) out)
    (fun q n => sort_at keys (bounded ts) (bound ts) out q n \/ (q = 0 /\ n = node)).
Proof.
  intros Hnd Hfirst Hr Has. pose proof (zlen_nonneg out) as Hz.
  assert (Hstart : pos_ok (zlen out) (current ts) (eof_reached ts) 0).
  { destruct Has as [-> -> _ _]. unfold pos_ok, row_pos. lia. }
  split.
  - intros q n [[_ (ts' & _ & _ & _ & _ & Hp)]|[-> _]]; [|lia].
    unfold pos_ok, row_pos in Hp. destruct (eof_reached ts'); lia.
  - intros q n e HR He Hw. cbn [ExecProcNode sort_plan]. unfold ExecSort.
    destruct HR as [[Hd (ts' & Hts' & Hr' & Hb' & Hbd' & Hp')]|[-> ->]].
    + rewrite Hd, rbind_ret, Hts'.
      destruct (sort_fetch_next keys (bounded ts) (bound ts) out q n ts' e e) as (n' & -> & Hat);
        auto. exists n', e. by auto.
    + destruct (Hfirst e) as (n1 & e1 & Hs & Hd1 & Hts1 & He1).
      rewrite Hnd, Hs, rbind_ret, Hts1.
      destruct (sort_fetch_next keys (bounded ts) (bound ts) out 0 n1 ts e1 e)
        as (n' & -> & Hat); auto.
      exists n', e1. split; [done|]. split; [congruence|by left].
  - intros q n e HR He. cbn [ExecProcNode sort_plan]. unfold ExecSort.
    destruct HR as [[Hd (ts' & Hts' & Hr' & Hb' & Hbd' & Hp')]|[-> ->]].
    + rewrite Hd, rbind_ret, Hts'.
      destruct (sort_fetch_prior keys (bounded ts) (bound ts) out q n ts' e e)
        as (n' & -> & Hat); auto. exists n', e. by auto.
    + destruct (Hfirst e) as (n1 & e1 & Hs & Hd1 & Hts1 & He1).
      rewrite Hnd, Hs, rbind_ret, Hts1.
      destruct (sort_fetch_prior keys (bounded ts) (bound ts) out 0 n1 ts e1 e)
        as (n' & -> & Hat); auto.
      exists n', e1. split; [done|]. split; [congruence|by left].
Qed.

(** A bounded Sort node is a scrollable plan over an ordered list whose
    first [b] rows are the top [b] of what the node read. *)
Lemma sort_scrolls fuel node keys wm b c rows :
  sort_fresh node keys wm b -> keys_wf keys -> topn_budget wm b c (rows.*1) ->
  delivers (sort_outer node) rows -> (length rows < fuel)%nat ->
  exists out R, @scrolls _ (sort_plan E fuel) out (sort_lim true b out) R /\ R 0 node /\
    StronglySorted (cle (tcmp keys)) out /\
    topn (tcmp keys) b (consumed b 0 rows) (ztake b out) /\
    zlen out <= Z.max b (zlen rows).
Proof.
  intros Hfr Hwf Hbud Hdel Hf.
  assert (Hbud' : topn_budget wm b c (consumed b 0 rows)).
  { destruct Hbud as [H1 H2 H3]. destruct (consumed_prefix b 0 rows) as [rest Hrest].
    rewrite Hrest in H2. apply Forall_app in H2 as [H2 _]. by split. }
  destruct (top_sort_ok E keys wm (ss_randomAccess node) b c _ Hwf Hbud')
    as (ts & out & Hts & Hr & Has & Htop & Hlen & Hb & Hbd & _).
  exists out. eexists. rewrite <- Hbd at 1. rewrite <- Hb. split.
  - apply (sort_scrolls_of fuel node keys ts out); auto; [apply Hfr|].
    intros e. destruct (sort_subplan_ok fuel node e keys wm b c rows ts) as (o' & e' & -> & He');
      auto. by eexists _, e'.
  - split; [by right|]. split; [apply Hr|]. split; [done|]. rewrite Hlen.
    destruct (consumed_prefix b 0 rows) as [rest Hrest]. apply (f_equal zlen) in Hrest.
    rewrite zlen_app in Hrest. pose proof (zlen_nonneg rest).
    unfold zlen in *. rewrite length_fmap in Hrest. destruct (boundUsed ts); lia.
Qed.
End sort_spec.

(** ** Relaxed monotonicity

    What VBASE asks of an index that sets [is_index_inorder]: once the flag is
    up after some row, no row still to come sorts before the [k] best rows
    already delivered. *)

Definition count_le {A} (cmp : A -> A -> Z) (l : list A) (y : A) : Z :=
  zlen (filter (fun x => cle cmp x y) l).

Definition relaxed_monotone (cmp : row -> row -> Z) (k : Z) (rows : list (row * bool)) : Prop :=
  forall pre r rest, rows = pre ++ (r, true) :: rest ->
    forall y, y ∈ rest.*1 -> k <= count_le cmp (pre.*1 ++ [r]) y.

Section seal.
Context {A : Type} (cmp : A -> A -> Z) `{!Comparator cmp}.
Implicit Types (seen later out : list A).

Lemma count_le_app l l' y : count_le cmp (l ++ l') y = count_le cmp l y + count_le cmp l' y.
Proof. unfold count_le. by rewrite filter_app, zlen_app. Qed.

Lemma count_le_perm l l' y : l ≡ₚ l' -> count_le cmp l y = count_le cmp l' y.
Proof. intros Hp. unfold count_le, zlen. by rewrite Hp. Qed.

Lemma count_le_0 l y : (forall x, x ∈ l -> ~ cle cmp x y) -> count_le cmp l y = 0.
Proof.
  intros Hn. unfold count_le. induction l as [|x l IH]; [done|].
  rewrite filter_cons_False by (apply Hn; by left). apply IH. intros z Hz. apply Hn. by right.
Qed.

Lemma count_le_len l y : count_le cmp l y <= zlen l.
Proof. unfold count_le, zlen. pose proof (length_filter (fun x => cle cmp x y) l). lia. Qed.

Lemma count_le_lt l x y : x ∈ l -> ~ cle cmp x y -> count_le cmp l y < zlen l.
Proof.
  intros Hx Hn. unfold count_le, zlen.
  pose proof (length_filter_lt (fun x => cle cmp x y) l x Hx Hn). lia.
Qed.

(** Rows that do not beat the [b] best seen so far do not change the answer. *)
Lemma topn_seal b seen later out :
  0 <= b -> topn cmp b seen out -> (forall y, y ∈ later -> b <= count_le cmp seen y) ->
  topn cmp b (seen ++ later) out.
Proof.
  intros Hb (Hs & Hl & rest & Hp & Hsep) Hseal.
  assert (Hne : later = [] \/ later <> []) by (destruct later; [by left|by right]).
  destruct Hne as [-> | Hne].
  { rewrite app_nil_r. split; [done|]. split; [done|]. by exists rest. }
  assert (Hge : b <= zlen seen).
  { destruct later as [|y later]; [done|]. pose proof (Hseal y ltac:(by left)).
    pose proof (count_le_len seen y). lia. }
  split; [done|]. split; [rewrite zlen_app; pose proof (zlen_nonneg later); lia|].
  exists (rest ++ later). split; [by rewrite Hp, app_assoc|].
  intros x y Hx [Hy|Hy]%elem_of_app; [by apply Hsep|].
  destruct (decide (cle cmp x y)) as [|Hn]; [done|]. exfalso.
  specialize (Hseal y Hy). rewrite (count_le_perm _ _ y Hp), count_le_app in Hseal.
  rewrite (count_le_0 rest y) in Hseal.
  - pose proof (count_le_lt out x y Hx Hn). lia.
  - intros r Hr Hry. apply Hn. transitivity r; [by apply Hsep|done].
Qed.
End seal.

(** What a bounded Sort leaves unread cannot matter. *)
Lemma consumed_sealed cmp b ins rows :
  (forall pre r rest, rows = pre ++ (r, true) :: rest ->
     forall y, y ∈ rest.*1 -> b <= count_le cmp (ins ++ pre.*1 ++ [r]) y) ->
  exists later, rows.*1 = consumed b (zlen ins) rows ++ later /\
    forall y, y ∈ later -> b <= count_le cmp (ins ++ consumed b (zlen ins) rows) y.
Proof.
  revert ins. induction rows as [|[r f] rows IH]; intros ins Hmono; cbn.
  - exists []. split; [done|]. intros y Hy. by apply not_elem_of_nil in Hy.
  - destruct f; cbn [andb].
    + destruct (zlen ins + 1 >=? b).
      * exists (rows.*1). split; [done|]. intros y Hy. by apply (Hmono [] r rows).
      * destruct (IH (ins ++ [r])) as (later & Hl & Hs).
        { intros pre r' rest -> y Hy. rewrite <- app_assoc.
          apply (Hmono ((r, true) :: pre) r' rest); done. }
        exists later. rewrite zlen_app in Hl, Hs. change (zlen [r]) with 1 in Hl, Hs.
        rewrite Hl. split; [done|]. intros y Hy. specialize (Hs y Hy). by rewrite <- app_assoc in Hs.
    + destruct (IH (ins ++ [r])) as (later & Hl & Hs).
      { intros pre r' rest -> y Hy. rewrite <- app_assoc.
        apply (Hmono ((r, false) :: pre) r' rest); done. }
      exists later. rewrite zlen_app in Hl, Hs. change (zlen [r]) with 1 in Hl, Hs.
      rewrite Hl. split; [done|]. intros y Hy. specialize (Hs y Hy). by rewrite <- app_assoc in Hs.
Qed.

(** The answer over the rows read is the answer over all of them. *)
Lemma consumed_topn cmp `{!Comparator cmp} b rows out :
  0 <= b -> relaxed_monotone cmp b rows -> topn cmp b (consumed b 0 rows) out -> topn cmp b (rows.*1) out.
Proof.
  intros Hb Hmono Htop. destruct (consumed_sealed cmp b [] rows) as (later & -> & Hseal).
  - intros pre r rest Heq y Hy. by apply (Hmono pre r rest).
  - by apply topn_seal.
Qed.

(** ** Properties *)

(** Pulling [b] rows from a bounded Sort. *)
Lemma sort_pull {P} `{PlanState P} E `{!SortEnvOk E} fuel (node : SortState P) e keys wm b c rows :
  sort_fresh node keys wm b -> keys_wf keys -> topn_budget wm b c (rows.*1) ->
  delivers (sort_outer node) rows -> (length rows < fuel)%nat ->
  es_direction e = ForwardScanDirection ->
  exists node' e' out, @pull _ (sort_plan E fuel) (Z.to_nat b) node e = Ok (node', e', out) /\
    topn (tcmp keys) b (consumed b 0 rows) out.
Proof.
  intros Hfr Hwf Hbud Hdel Hf He. pose proof (tb_bound _ _ _ _ Hbud) as Hb.
  destruct (sort_scrolls E fuel node keys wm b c rows) as (out & R & Hsc & HR & Hs & Htop & _); auto.
  pose proof (zlen_nonneg out).
  destruct (pull_scroll out (sort_lim true b out) R (Z.to_nat b) 0 node e Hsc HR He)
    as (node' & e' & Hp & _).
  - intros i Hi. apply sort_lim_first. lia.
  - lia.
  - exists node', e', (ztake b out). rewrite Z2Nat.id in Hp by lia. done.
Qed.

(** C7. VBASE's early stop is exact.  A bounded Sort over an index scan that
    keeps relaxed monotonicity may stop reading as soon as the index is in
    order and the heap is full; the rows it returns are nevertheless the
    answer of ORDER BY ... LIMIT b over everything the scan could deliver.  The
    bound [b] is between 1 and 510, so that the sort turns into a bounded heap
    before its first array is full, and [b] rows fit into [work_mem]
    ([topn_budget]). *)
Theorem exec_sort_early_stop_exact {P} `{PlanState P} E `{!SortEnvOk E} fuel
    (node : SortState P) e keys wm b c rows :
  sort_fresh node keys wm b -> keys_wf keys -> topn_budget wm b c (rows.*1) ->
  delivers (sort_outer node) rows -> (length rows < fuel)%nat ->
  es_direction e = ForwardScanDirection ->
  relaxed_monotone (tcmp keys) b rows ->
  exists node' e' out, @pull _ (sort_plan E fuel) (Z.to_nat b) node e = Ok (node', e', out) /\
    topn (tcmp keys) b (rows.*1) out.
Proof.
  intros Hfr Hwf Hbud Hdel Hf He Hmono. pose proof (tb_bound _ _ _ _ Hbud) as Hb.
  destruct (sort_pull E fuel node e keys wm b c rows) as (node' & e' & out & Hp & Htop); auto.
  exists node', e', out. split; [done|]. pose proof (tcmp_ok _ Hwf). apply consumed_topn; [done|lia|done|done].
Qed.

(** Rows 5 1 3 2 | 7 9 8: the index is in order from the fifth on. *)
Definition demo_rows : list (row * bool) :=
  zip (int_row <$> [5; 1; 3; 2; 7; 9; 8]) [false; false; false; false; true; true; true].
Definition demo_sort : SortState ListPlan :=
  sort_set_bound 2 (ExecInitSort [int_key] 4096 0 (demo_rows : ListPlan)).

Lemma demo_fresh : sort_fresh demo_sort [int_key] 4096 2.
Proof. by split. Qed.

Lemma demo_budget : topn_budget 4096 2 48 (demo_rows.*1).
Proof.
  split; [lia| |vm_compute; discriminate].
  repeat (constructor; [vm_compute; discriminate|]). constructor.
Qed.

(** Decide relaxed monotonicity of a concrete scan. *)
Fixpoint relaxed_monotone_b (cmp : row -> row -> Z) (k : Z) (seen : list row)
    (rows : list (row * bool)) : bool :=
  match rows with
  | [] => true
  | (r, f) :: rows =>
    (negb f || forallb (fun y => k <=? count_le cmp (seen ++ [r]) y) (rows.*1)) &&
    relaxed_monotone_b cmp k (seen ++ [r]) rows
  end.

Lemma relaxed_monotone_b_seen cmp k seen rows pre r rest y :
  relaxed_monotone_b cmp k seen rows = true -> rows = pre ++ (r, true) :: rest ->
  y ∈ rest.*1 -> k <= count_le cmp (seen ++ pre.*1 ++ [r]) y.
Proof.
  revert seen pre. induction rows as [|[r0 f0] rows IH]; intros seen pre Hb Heq Hy.
  - by destruct pre.
  - cbn in Hb. apply andb_true_iff in Hb as [H1 H2]. destruct pre as [|p pre]; cbn in Heq.
    + injection Heq as -> -> ->. cbn in H1. rewrite forallb_forall in H1.
      apply Z.leb_le, H1. by apply list_elem_of_In.
    + injection Heq as <- ->. specialize (IH _ pre H2 eq_refl Hy).
      by rewrite <- app_assoc in IH.
Qed.

Lemma relaxed_monotone_b_ok cmp k rows :
  relaxed_monotone_b cmp k [] rows = true -> relaxed_monotone cmp k rows.
Proof.
  intros Hb pre r rest Heq y Hy. by apply (relaxed_monotone_b_seen cmp k [] rows pre r rest).
Qed.

Lemma exec_sort_early_stop_exact_witness :
  exists node' e' out,
    @pull _ (sort_plan merge_env 20) 2 demo_sort forward_estate = Ok (node', e', out) /\
    topn (tcmp [int_key]) 2 (demo_rows.*1) out.
Proof.
  apply (exec_sort_early_stop_exact merge_env 20 demo_sort forward_estate [int_key] 4096 2 48
           demo_rows).
  - apply demo_fresh.
  - apply int_key_wf.
  - apply demo_budget.
  - apply list_plan_delivers.
  - cbn. lia.
  - reflexivity.
  - apply relaxed_monotone_b_ok. vm_compute. reflexivity.
Defined.

(** A single tuple put into an unbounded sort. *)
Lemma put_first_unbounded E keys wm ra r :
  keys_wf keys -> 24592 + GetMemoryChunkSpace (t_len r) <= Z.max wm 64 * 1024 ->
  exists s0 s1, tuplesort_begin_heap keys wm ra = Ok s0 /\ tuplesort_puttupleslot E s0 r = Ok s1 /\
    initial_inv keys s1 [r] (tuples_space [r]) /\ memtupcount s1 = 1 /\
    bounded s1 = false /\ bound s1 = 0.
Proof.
  intros Hwf Hfit. destruct (tuplesort_begin_heap_ok keys wm ra Hwf)
    as (s0 & Hbeg & Hi & Hcnt & Hsz & Hb0 & Hbd0 & Hal & _).
  change INITIAL_MEMTUPSIZE with 1024 in Hsz.
  destruct (puttupleslot_initial E keys s0 [] r Hi)
    as (s1 & Hi1 & Hc1 & Hb1 & Hbd1 & Hal1 & Hsz1 & _ & _ & Hput); [lia|].
  exists s0, s1. split; [done|]. specialize (Hsz1 ltac:(lia)). rewrite Hput.
  unfold time_for_heap. rewrite Hb1, Hb0. cbn [andb].
  assert (Hroom : (memtupcount s1 <? memtupsize s1) && negb (LACKMEM s1) = true).
  { apply andb_true_iff. split; [apply Z.ltb_lt; lia|].
    apply negb_true_iff. unfold LACKMEM. apply andb_false_iff. left. apply Z.ltb_ge.
    rewrite (ii_mem _ _ _ _ Hi1), Hal1, Hal, Hsz1, Hsz. cbn [app tuples_space foldr]. lia. }
  rewrite Hroom. split; [done|]. split; [done|]. split; [lia|]. split; congruence.
Qed.

(** C38. [tuplesort_heapfull] does not look at [bounded]: in a sort without a
    bound the recorded bound is 0, so it always answers "full".  An unbounded
    Sort (LIMIT ... WITH TIES, or a bound too large to be set) over an index
    scan that is in order at its first row returns that row only, whatever
    the scan still holds. *)
Theorem exec_sort_unbounded_truncates {P} `{PlanState P} E `{!SortEnvOk E} fuel
    (node : SortState P) e keys wm r rest n :
  sort_keys node = keys -> work_mem node = wm -> ss_bounded node = false ->
  sort_Done node = false -> outer_chgParam node = false -> keys_wf keys ->
  24592 + GetMemoryChunkSpace (t_len r) <= Z.max wm 64 * 1024 ->
  delivers (sort_outer node) ((r, true) :: rest) -> es_direction e = ForwardScanDirection ->
  exists node' e', @pull _ (sort_plan E (S fuel)) (S n) node e = Ok (node', e', [r]).
Proof.
  intros Hk Hm Hb Hd Hc Hwf Hfit Hdel He.
  destruct (put_first_unbounded E keys wm (ss_randomAccess node) r Hwf Hfit)
    as (s0 & s1 & Hbeg & Hput & Hi1 & Hc1 & Hb1 & Hbd1).
  destruct (performsort_initial E keys s1 [r] _ Hi1)
    as (ts & out & Hps & Hr & Has & Hp & _ & Hbt & _).
  symmetry in Hp. apply Permutation_singleton_l in Hp as <-.
  assert (Hlim : sort_lim (bounded ts) (bound ts) [r] = None) by (by rewrite Hbt, Hb1).
  assert (Hsc := sort_scrolls_of E (S fuel) node keys ts [r] Hd).
  rewrite Hlim in Hsc. unshelve epose proof (Hsc _ Hr Has) as Hsc'; [|clear Hsc].
  - intros e0. unfold sort_subplan. rewrite Hk, Hm, Hb, Hc, Hbeg, rbind_ret. cbv zeta.
    rewrite rbind_ret. cbn [sort_feed].
    destruct (Hdel (set_direction ForwardScanDirection e0) eq_refl) as (outer' & -> & _).
    rewrite rbind_ret, Hput, rbind_ret. unfold tuplesort_heapfull. rewrite Hc1, Hbd1.
    cbn [is_index_inorder set_inorder andb]. change (1 >=? 0) with true. cbv iota.
    rewrite rbind_ret, Hps, rbind_ret. by eexists _, _.
  - destruct (@pull_scroll _ (sort_plan E (S fuel)) [r] None _ (S n) 0 node e Hsc')
      as (node' & e' & Hpull & _); [by right|done|done|done|].
    exists node', e'. rewrite Hpull. do 2 f_equal. change (zdrop 0 [r]) with [r].
    apply ztake_all. change (zlen [r]) with 1. lia.
Qed.

(** Seven rows from an index that says it is in order from the start. *)
Definition unbounded_sort : SortState ListPlan :=
  ExecInitSort [int_key] 4096 0 (zip (int_row <$> [1; 2; 3]) [true; true; true] : ListPlan).

Lemma exec_sort_unbounded_truncates_witness :
  exists node' e',
    @pull _ (sort_plan merge_env 20) 10 unbounded_sort forward_estate =
    Ok (node', e', [int_row 1]).
Proof.
  apply (exec_sort_unbounded_truncates merge_env 19 unbounded_sort forward_estate [int_key] 4096
           (int_row 1) (zip (int_row <$> [2; 3]) [true; true]) 9); try reflexivity.
  - apply int_key_wf.
  - vm_compute. discriminate.
  - apply list_plan_delivers.
Defined.
