(* ===== verification/NodeLimit.v ===== *)
(** * executor/nodeLimit.c

    The LIMIT/OFFSET node is a state machine that passes a window of its
    child's rows through, in both directions.  [subSlot] is the child's result
    slot itself, not a copy: re-returning it returns whatever the child last
    stored there, which [outer_slot] keeps track of. *)

From Stdlib Require Import ZArith Lia.
From stdpp Require Import base list sorting strings.
From S2P Require Import Prelude SortSupport TuplesortCursor Executor.

Local Open Scope Z_scope.

Inductive LimitStateCond :=
| LIMIT_INITIAL
| LIMIT_RESCAN
| LIMIT_EMPTY
| LIMIT_INWINDOW
| LIMIT_WINDOWEND_TIES
| LIMIT_SUBPLANEOF
| LIMIT_WINDOWEND
| LIMIT_WINDOWSTART.

Inductive LimitOption :=
| LIMIT_OPTION_COUNT
| LIMIT_OPTION_WITH_TIES
| LIMIT_OPTION_DEFAULT.

#[global] Instance LimitOption_eq_dec : EqDecision LimitOption.
Proof. solve_decision. Defined.

(** The counters are 64-bit in C: [position] counts rows read, so neither it
    nor [offset + 1], which is compared with it once it exceeds [offset], can
    wrap.  A limit expression: absent, or with its value, which may be NULL. *)
Record LimitState (P : Type) := mk_limit {
  limitOffset : option (option Z);
  limitCount : option (option Z);
  limitOption : LimitOption;
  offset : Z;
  count : Z;
  noCount : bool;
  lstate : LimitStateCond;
  position : Z;
  subSlot : bool;
  last_slot : option row;
  outer_slot : option row;
  limit_outer : P;
  limit_chgParam : bool
}.
Arguments mk_limit {P}.
Arguments limitOffset {P}.
Arguments limitCount {P}.
Arguments limitOption {P}.
Arguments offset {P}.
Arguments count {P}.
Arguments noCount {P}.
Arguments lstate {P}.
Arguments position {P}.
Arguments subSlot {P}.
Arguments last_slot {P}.
Arguments outer_slot {P}.
Arguments limit_outer {P}.
Arguments limit_chgParam {P}.

Section node_limit.
Context {P : Type} `{PlanState P}.
(** [execTuplesMatchPrepare]'s equality on the ORDER BY columns. *)
Variable eqfunction : row -> row -> bool.
(** Unrolling limit of the loop that skips OFFSET rows. *)
Variable fuel : nat.

Implicit Types (node : LimitState P) (e : EState).

Definition set_lstate (l : LimitStateCond) node : LimitState P :=
  mk_limit (limitOffset node) (limitCount node) (limitOption node) (offset node) (count node)
    (noCount node) l (position node) (subSlot node) (last_slot node) (outer_slot node)
    (limit_outer node) (limit_chgParam node).
Definition set_position (p : Z) node : LimitState P :=
  mk_limit (limitOffset node) (limitCount node) (limitOption node) (offset node) (count node)
    (noCount node) (lstate node) p (subSlot node) (last_slot node) (outer_slot node)
    (limit_outer node) (limit_chgParam node).
Definition set_subSlot (b : bool) node : LimitState P :=
  mk_limit (limitOffset node) (limitCount node) (limitOption node) (offset node) (count node)
    (noCount node) (lstate node) (position node) b (last_slot node) (outer_slot node)
    (limit_outer node) (limit_chgParam node).
Definition set_last_slot (r : option row) node : LimitState P :=
  mk_limit (limitOffset node) (limitCount node) (limitOption node) (offset node) (count node)
    (noCount node) (lstate node) (position node) (subSlot node) r (outer_slot node)
    (limit_outer node) (limit_chgParam node).
Definition set_outer (r : option row) (p : P) (chg : bool) node : LimitState P :=
  mk_limit (limitOffset node) (limitCount node) (limitOption node) (offset node) (count node)
    (noCount node) (lstate node) (position node) (subSlot node) (last_slot node) r p chg.
Definition set_window (off cnt : Z) (noc : bool) node : LimitState P :=
  mk_limit (limitOffset node) (limitCount node) (limitOption node) off cnt noc (lstate node)
    (position node) (subSlot node) (last_slot node) (outer_slot node) (limit_outer node)
    (limit_chgParam node).

Definition ExecInitLimit (off cnt : option (option Z)) (opt : LimitOption) (outer : P)
    : LimitState P :=
  mk_limit off cnt opt 0 0 false LIMIT_INITIAL 0 false None None outer false.

Definition compute_tuples_needed node : Z :=
  if noCount node || bool_decide (limitOption node = LIMIT_OPTION_WITH_TIES) then -1
  else int64 (count node + offset node).

Definition recompute_limits node : res (LimitState P) :=
  do! off <-
    match limitOffset node with
    | Some (Some v) => if v <? 0 then Error "OFFSET must not be negative" else Ok v
    | Some None | None => Ok 0
    end ;;
  do! ' (cnt, noc) <-
    match limitCount node with
    | Some (Some v) => if v <? 0 then Error "LIMIT must not be negative" else Ok (v, false)
    | Some None | None => Ok (0, true)
    end ;;
  let node := set_window off cnt noc node in
  let node := set_subSlot false (set_position 0 node) in
  let node := set_lstate LIMIT_RESCAN node in
  Ok (set_outer (outer_slot node)
        (ExecSetTupleBound (compute_tuples_needed node) (limit_outer node))
        (limit_chgParam node) node).

(** [ExecProcNode(outerPlan)]: rescan the child first if its parameters
    changed; its result slot gets the new contents. *)
Definition fetch_outer node e : res (LimitState P * EState * option row) :=
  do! ' (p, e) <-
    (if limit_chgParam node then ExecReScan (limit_outer node) e
     else Ok (limit_outer node, e)) ;;
  do! ' (p, e, slot) <- ExecProcNode p e ;;
  Ok (set_outer slot p false node, e, slot).

(** Tuple at limit is needed to detect ties. *)
Definition save_last node (slot : option row) : LimitState P :=
  if bool_decide (limitOption node = LIMIT_OPTION_WITH_TIES) &&
     (position node - offset node =? count node - 1)
  then set_last_slot slot node else node.

(** Fetch rows from subplan until we reach position > offset. *)
Fixpoint skip_offset (n : nat) node e : res (LimitState P * EState * option row) :=
  match n with
  | O => NoFuel
  | S n =>
    do! ' (node, e, slot) <- fetch_outer node e ;;
    match slot with
    | None => Ok (set_lstate LIMIT_EMPTY node, e, None)
    | Some _ =>
      let node := set_subSlot true (save_last node slot) in
      let node := set_position (position node + 1) node in
      if position node >? offset node then Ok (set_lstate LIMIT_INWINDOW node, e, slot)
      else skip_offset n node e
    end
  end.

Definition limit_rescan node e : res (LimitState P * EState * option row) :=
  if negb (ScanDirectionIsForward (es_direction e)) then Ok (node, e, None)
  else if (count node <=? 0) && negb (noCount node) then
    Ok (set_lstate LIMIT_EMPTY node, e, None)
  else skip_offset fuel node e.

(** Step back one row; there should be one. *)
Definition fetch_prior node e : res (LimitState P * EState * option row) :=
  do! ' (node, e, slot) <- fetch_outer node e ;;
  match slot with
  | None => Error "LIMIT subplan failed to run backwards"
  | Some _ => Ok (set_lstate LIMIT_INWINDOW (set_subSlot true node), e, slot)
  end.

Definition limit_ties node e : res (LimitState P * EState * option row) :=
  if ScanDirectionIsForward (es_direction e) then
    do! ' (node, e, slot) <- fetch_outer node e ;;
    match slot with
    | None => Ok (set_lstate LIMIT_SUBPLANEOF node, e, None)
    | Some r =>
      match last_slot node with
      | None => Crash
      | Some last =>
        if eqfunction r last then
          Ok (set_position (position node + 1) (set_subSlot true node), e, slot)
        else Ok (set_lstate LIMIT_WINDOWEND node, e, None)
      end
    end
  else if position node <=? offset node + 1 then
    Ok (set_lstate LIMIT_WINDOWSTART node, e, None)
  else
    do! ' (node, e, slot) <- fetch_prior node e ;;
    Ok (set_position (position node - 1) node, e, slot).

Definition limit_inwindow node e : res (LimitState P * EState * option row) :=
  if ScanDirectionIsForward (es_direction e) then
    if negb (noCount node) && (position node - offset node >=? count node) then
      match limitOption node with
      | LIMIT_OPTION_COUNT => Ok (set_lstate LIMIT_WINDOWEND node, e, None)
      | _ => limit_ties (set_lstate LIMIT_WINDOWEND_TIES node) e
      end
    else
      do! ' (node, e, slot) <- fetch_outer node e ;;
      match slot with
      | None => Ok (set_lstate LIMIT_SUBPLANEOF node, e, None)
      | Some _ =>
        let node := set_subSlot true (save_last node slot) in
        Ok (set_position (position node + 1) node, e, slot)
      end
  else if position node <=? offset node + 1 then
    Ok (set_lstate LIMIT_WINDOWSTART node, e, None)
  else
    do! ' (node, e, slot) <- fetch_prior node e ;;
    Ok (set_position (position node - 1) node, e, slot).

(** Re-return the subplan's result slot. *)
Definition reuse_slot node e : res (LimitState P * EState * option row) :=
  if subSlot node then Ok (set_lstate LIMIT_INWINDOW node, e, outer_slot node) else Crash.

Definition ExecLimit node e : res (LimitState P * EState * option row) :=
  let forward := ScanDirectionIsForward (es_direction e) in
  match lstate node with
  | LIMIT_INITIAL => do! node <- recompute_limits node ;; limit_rescan node e
  | LIMIT_RESCAN => limit_rescan node e
  | LIMIT_EMPTY => Ok (node, e, None)
  | LIMIT_INWINDOW => limit_inwindow node e
  | LIMIT_WINDOWEND_TIES => limit_ties node e
  | LIMIT_SUBPLANEOF => if forward then Ok (node, e, None) else fetch_prior node e
  | LIMIT_WINDOWEND =>
    if forward then Ok (node, e, None)
    else
      match limitOption node with
      | LIMIT_OPTION_WITH_TIES => fetch_prior node e
      | _ => reuse_slot node e
      end
  | LIMIT_WINDOWSTART => if forward then reuse_slot node e else Ok (node, e, None)
  end.

Definition ExecReScanLimit node e : res (LimitState P * EState) :=
  do! node <- recompute_limits node ;;
  if negb (limit_chgParam node) then
    do! ' (p, e) <- ExecReScan (limit_outer node) e ;;
    Ok (set_outer (outer_slot node) p false node, e)
  else Ok (node, e).

Definition limit_plan : PlanState (LimitState P) := {|
  ExecProcNode := ExecLimit;
  ExecReScan := ExecReScanLimit;
  ExecSetTupleBound := fun _ node => node
|}.
End node_limit.

(** ** The window *)

Fixpoint take_while {A} (f : A -> bool) (l : list A) : list A :=
  match l with
  | [] => []
  | x :: l => if f x then x :: take_while f l else []
  end.

Lemma take_while_split {A} (f : A -> bool) l :
  exists rest, l = take_while f l ++ rest /\ Forall (fun x => f x = true) (take_while f l) /\
    forall x, head rest = Some x -> f x = false.
Proof.
  induction l as [|x l (rest & Hl & Hf & Hr)]; [by exists []|]. cbn. destruct (f x) eqn:Hx.
  - exists rest. cbn. rewrite <- Hl. auto.
  - exists (x :: l). split; [done|]. split; [done|]. by intros y [= <-].
Qed.

(** The rows LIMIT/OFFSET selects: [off] rows are skipped, [cnt] are taken
    ([None]: all), and WITH TIES those after them that match the last one.
    (The default option, no LIMIT at all, comes without a count.) *)
Definition limit_window (eqf : row -> row -> bool) (opt : LimitOption) (off : Z)
    (cnt : option Z) (rows : list row) : list row :=
  let w := zdrop off rows in
  match cnt with
  | None => w
  | Some c =>
    match opt with
    | LIMIT_OPTION_COUNT | LIMIT_OPTION_DEFAULT => ztake c w
    | LIMIT_OPTION_WITH_TIES =>
      match zget (ztake c w) (c - 1) with
      | None => ztake c w
      | Some last => ztake c w ++ take_while (fun r => eqf r last) (zdrop c w)
      end
    end
  end.

(** The window [W] and what follows it in the child's rows. *)
Record is_window (eqf : row -> row -> bool) (opt : LimitOption) (off : Z) (cnt : option Z)
    (rows W rest : list row) : Prop := {
  wn_split : zdrop off rows = W ++ rest;
  wn_all : cnt = None -> rest = [];
  wn_short : forall c, cnt = Some c -> zlen W < c -> rest = [];
  wn_zero : forall c, cnt = Some c -> c <= 0 -> W = [];
  wn_count : forall c, cnt = Some c -> opt = LIMIT_OPTION_COUNT -> zlen W <= c;
  wn_ties : forall c last, cnt = Some c -> opt = LIMIT_OPTION_WITH_TIES ->
    zget W (c - 1) = Some last ->
    (forall i r, c <= i -> zget W i = Some r -> eqf r last = true) /\
    (forall r, zget rest 0 = Some r -> eqf r last = false)
}.

Lemma limit_window_split eqf opt off cnt rows :
  (forall c, cnt = Some c -> 0 <= c) -> (opt = LIMIT_OPTION_DEFAULT -> cnt = None) ->
  exists rest, is_window eqf opt off cnt rows (limit_window eqf opt off cnt rows) rest.
Proof.
  intros Hc Hdef. unfold limit_window. set (w := zdrop off rows). destruct cnt as [c|].
  2: { exists []. split; try done. by rewrite app_nil_r. }
  specialize (Hc c eq_refl).
  assert (Hshort : zlen (ztake c w) < c -> zdrop c w = []).
  { intros Hs. unfold zlen, ztake, zdrop in *. rewrite length_take in Hs. apply drop_ge. lia. }
  assert (Hlen : zlen (ztake c w) <= c) by (unfold zlen, ztake; rewrite length_take; lia).
  destruct opt; [| |by discriminate (Hdef eq_refl)].
  - exists (zdrop c w). split; try done; [by rewrite ztake_zdrop|by intros ? [= <-]| |].
    + intros ? [= <-]. apply ztake_nonpos.
    + by intros ? [= <-].
  - destruct (zget (ztake c w) (c - 1)) as [last|] eqn:Hlast.
    + destruct (take_while_split (fun r => eqf r last) (zdrop c w)) as (rest & Hr & Hf & Hend).
      pose proof (zget_bounds _ _ _ Hlast).
      exists rest. split; try done.
      * by rewrite <- app_assoc, <- Hr, ztake_zdrop.
      * intros ? [= <-] Hs. rewrite zlen_app in Hs.
        pose proof (zlen_nonneg (take_while (fun r => eqf r last) (zdrop c w))). lia.
      * intros ? [= <-] Hz. lia.
      * intros ? last' [= <-] _. rewrite zget_app_l, Hlast by lia. intros [= <-]. split.
        -- intros i r Hi Hg. rewrite zget_app_r in Hg by lia.
           rewrite Forall_forall in Hf. apply Hf. by eapply zget_elem.
        -- intros r Hr0. apply Hend. by destruct rest.
    + exists (zdrop c w). split; try done; [by rewrite ztake_zdrop|by intros ? [= <-]| |].
      { intros ? [= <-]. apply ztake_nonpos. }
      intros ? last' [= <-] _. by rewrite Hlast.
Qed.

(** ** The state machine over a scrollable child *)

Section limit_spec.
Context {P : Type} `{PlanState P}.
Variables (eqf : row -> row -> bool) (fuel : nat) (opt : LimitOption) (off : Z) (cnt : option Z).
Variables (rows W rest : list row) (lim : option Z) (Rc : Z -> P -> Prop).
Hypothesis Hoff : 0 <= off.
Hypothesis Hcnt : forall c, cnt = Some c -> 0 <= c.
Hypothesis Hdef : opt = LIMIT_OPTION_DEFAULT -> cnt = None.
Hypothesis Hchild : scrolls rows lim Rc.
Hypothesis Hwin : is_window eqf opt off cnt rows W rest.
Hypothesis Hlim : forall i, 0 <= i ->
  (forall c, cnt = Some c -> opt = LIMIT_OPTION_COUNT -> i < off + c) -> within lim i.
Hypothesis Hfuel : (length rows < fuel)%nat.

Implicit Types (node : LimitState P) (e : EState).

Record limit_params node : Prop := {
  lp_offset : offset node = off;
  lp_count : count node = default 0 cnt;
  lp_noCount : noCount node = bool_decide (cnt = None);
  lp_option : limitOption node = opt;
  lp_chg : limit_chgParam node = false
}.

(** The tie-detection slot holds the last counted row once it was passed. *)
Definition ties_saved node (i : Z) : Prop :=
  forall c, cnt = Some c -> opt = LIMIT_OPTION_WITH_TIES -> c <= i ->
    last_slot node = zget W (c - 1).

(** The child stands on row [i] of the window and its slot holds it. *)
Record limit_at node (i : Z) : Prop := {
  la_params : limit_params node;
  la_child : Rc (off + i) (limit_outer node);
  la_position : position node = off + i;
  la_sub : subSlot node = true;
  la_slot : outer_slot node = zget W (i - 1);
  la_ties : ties_saved node i
}.

(** The child stands one row past the window's last. *)
Record limit_past node : Prop := {
  lq_params : limit_params node;
  lq_child : Rc (off + zlen W + 1) (limit_outer node);
  lq_position : position node = off + zlen W;
  lq_ties : ties_saved node (zlen W)
}.

(** The LIMIT states, as positions of a cursor over the window. *)
Inductive limit_rel : Z -> LimitState P -> Prop :=
| rel_rescan node :
    lstate node = LIMIT_RESCAN -> limit_params node -> position node = 0 ->
    Rc 0 (limit_outer node) -> limit_rel 0 node
| rel_empty q node :
    lstate node = LIMIT_EMPTY -> W = [] -> 0 <= q <= 1 -> limit_rel q node
| rel_inwindow q node :
    lstate node = LIMIT_INWINDOW -> 1 <= q <= zlen W -> limit_at node q -> limit_rel q node
| rel_ties c q node :
    lstate node = LIMIT_WINDOWEND_TIES -> 1 <= q <= zlen W -> limit_at node q ->
    opt = LIMIT_OPTION_WITH_TIES -> cnt = Some c -> c <= q -> limit_rel q node
| rel_start node :
    lstate node = LIMIT_WINDOWSTART -> 1 <= zlen W -> limit_at node 1 -> limit_rel 0 node
| rel_end node :
    lstate node = LIMIT_WINDOWEND -> 1 <= zlen W -> opt = LIMIT_OPTION_COUNT ->
    limit_at node (zlen W) -> limit_rel (zlen W + 1) node
| rel_end_ties node :
    lstate node = LIMIT_WINDOWEND -> 1 <= zlen W -> opt = LIMIT_OPTION_WITH_TIES ->
    limit_past node -> limit_rel (zlen W + 1) node
| rel_eof node :
    lstate node = LIMIT_SUBPLANEOF -> 1 <= zlen W -> limit_past node ->
    limit_rel (zlen W + 1) node.

Lemma window_len : 1 <= zlen W + zlen rest -> zlen rows = off + zlen W + zlen rest.
Proof.
  intros Hn. pose proof (wn_split _ _ _ _ _ _ _ Hwin) as Hs. apply (f_equal zlen) in Hs.
  rewrite zlen_app in Hs. unfold zdrop, zlen in *. rewrite length_drop in Hs. lia.
Qed.

Lemma window_get i : 0 <= i -> zget rows (off + i) = zget (W ++ rest) i.
Proof. intros Hi. by rewrite <- (wn_split _ _ _ _ _ _ _ Hwin), zget_zdrop. Qed.

Lemma fetch_outer_next node e q :
  limit_params node -> Rc q (limit_outer node) -> es_direction e = ForwardScanDirection ->
  within lim q ->
  exists p' e', fetch_outer node e =
      Ok (set_outer (zget rows (next_pos rows q - 1)) p' false node, e',
          zget rows (next_pos rows q - 1)) /\
    es_direction e' = ForwardScanDirection /\ Rc (next_pos rows q) p'.
Proof.
  intros Hp HR He Hw. unfold fetch_outer. rewrite (lp_chg _ Hp), rbind_ret.
  destruct (sc_next _ _ _ Hchild q _ e HR He Hw) as (p' & e' & -> & He' & HR').
  exists p', e'. by rewrite rbind_ret.
Qed.

Lemma fetch_outer_prior node e q :
  limit_params node -> Rc q (limit_outer node) -> es_direction e = BackwardScanDirection ->
  exists p' e', fetch_outer node e =
      Ok (set_outer (zget rows (prior_pos q - 1)) p' false node, e',
          zget rows (prior_pos q - 1)) /\
    es_direction e' = BackwardScanDirection /\ Rc (prior_pos q) p'.
Proof.
  intros Hp HR He. unfold fetch_outer. rewrite (lp_chg _ Hp), rbind_ret.
  destruct (sc_prior _ _ _ Hchild q _ e HR He) as (p' & e' & -> & He' & HR').
  exists p', e'. by rewrite rbind_ret.
Qed.

(** Stepping the child from row [q] of the window (0: from before it). *)
Lemma fetch_outer_step node e q :
  limit_params node -> Rc (off + q) (limit_outer node) ->
  es_direction e = ForwardScanDirection -> within lim (off + q) ->
  0 <= q <= zlen W -> 1 <= zlen W + zlen rest ->
  exists p' e', fetch_outer node e =
      Ok (set_outer (zget (W ++ rest) q) p' false node, e', zget (W ++ rest) q) /\
    es_direction e' = ForwardScanDirection /\ Rc (off + q + 1) p'.
Proof.
  intros Hp HR He Hw Hq Hne. pose proof (zlen_nonneg rest).
  destruct (fetch_outer_next node e (off + q)) as (p' & e' & Hf & He' & HR'); auto.
  unfold next_pos in *. pose proof (window_len Hne). rewrite Z.min_l in * by lia.
  exists p', e'. by rewrite Hf, Z.add_simpl_r, window_get by lia.
Qed.

Lemma fetch_prior_step node e i :
  limit_params node -> Rc (off + i + 1) (limit_outer node) ->
  es_direction e = BackwardScanDirection -> 1 <= i <= zlen W ->
  exists p' e', fetch_prior node e =
      Ok (set_lstate LIMIT_INWINDOW (set_subSlot true (set_outer (zget W (i - 1)) p' false node)),
          e', zget W (i - 1)) /\
    es_direction e' = BackwardScanDirection /\ Rc (off + i) p'.
Proof.
  intros Hp HR He Hi. unfold fetch_prior.
  destruct (fetch_outer_prior node e (off + i + 1)) as (p' & e' & -> & He' & HR'); auto.
  unfold prior_pos in *. replace (Z.max (off + i + 1 - 1) 0) with (off + i) in * by lia.
  rewrite rbind_ret. replace (off + i - 1) with (off + (i - 1)) in * by lia.
  rewrite window_get, zget_app_l by lia.
  destruct (zget_is_Some W (i - 1)) as [r Hr]; [lia|]. rewrite Hr. eauto.
Qed.

(** A window shorter than the count ends with the child's rows. *)
Lemma rest_nil q : q = zlen W -> (forall c, cnt = Some c -> q < c) -> rest = [].
Proof.
  intros -> Hc. destruct Hwin as [_ Hall Hsh _ _ _]. destruct cnt as [c|]; [|by apply Hall].
  apply (Hsh c eq_refl). by apply Hc.
Qed.

(** Saving the tie row keeps the slot right. *)
Lemma save_last_at node q r :
  limit_params node -> position node = off + q -> 0 <= q -> zget W q = Some r ->
  (q = 0 \/ ties_saved node q) ->
  limit_params (save_last node (Some r)) /\ ties_saved (save_last node (Some r)) (q + 1) /\
  limit_outer (save_last node (Some r)) = limit_outer node /\
  outer_slot (save_last node (Some r)) = outer_slot node /\
  position (save_last node (Some r)) = position node.
Proof.
  intros Hp Hpos Hq Hr Hold. unfold save_last.
  rewrite (lp_option _ Hp), Hpos, (lp_offset _ Hp), (lp_count _ Hp).
  destruct (bool_decide (opt = LIMIT_OPTION_WITH_TIES) && _) eqn:Hb.
  - split; [by destruct Hp|]. split; [|done]. intros c Hc Ho Hle. cbn.
    apply andb_true_iff in Hb as [_ Hb%Z.eqb_eq]. rewrite Hc in Hb. cbn in Hb.
    replace (c - 1) with q by lia. done.
  - split; [done|]. split; [|done]. intros c Hc Ho Hle.
    apply andb_false_iff in Hb as [Hb|Hb]; [by apply bool_decide_eq_false in Hb|].
    apply Z.eqb_neq in Hb. rewrite Hc in Hb. cbn in Hb. pose proof (Hcnt c Hc).
    destruct Hold as [->|Hold]; [|apply Hold; auto; lia].
    pose proof (wn_zero _ _ _ _ _ _ _ Hwin c Hc) as Hz. pose proof (zget_bounds _ _ _ Hr) as Hb0.
    rewrite Hz in Hb0 by lia. change (zlen []) with 0 in Hb0. lia.
Qed.

(** The row fetched into the window becomes the current one. *)
Lemma entered node q r p' :
  limit_params node -> position node = off + q -> 0 <= q -> zget W q = Some r ->
  (q = 0 \/ ties_saved node q) -> Rc (off + q + 1) p' ->
  let node1 := set_subSlot true (save_last (set_outer (Some r) p' false node) (Some r)) in
  limit_at (set_position (position node1 + 1) node1) (q + 1).
Proof.
  intros Hp Hpos Hq Hr Hold HR. cbv zeta.
  destruct (save_last_at (set_outer (Some r) p' false node) q r) as (Hp1 & Ht & Ho & Hs & Hpp);
    auto; [by destruct Hp|].
  split; cbn.
  - by destruct Hp1.
  - rewrite Ho. cbn. by rewrite Z.add_assoc.
  - rewrite Hpp. cbn. lia.
  - done.
  - rewrite Hs. cbn. by rewrite Z.add_simpl_r.
  - exact Ht.
Qed.

Lemma rel_inwindow_set q node : 1 <= q <= zlen W -> limit_at node q ->
  limit_rel q (set_lstate LIMIT_INWINDOW node).
Proof. intros Hq [[] ?????]. apply rel_inwindow; [done|done|]. by repeat split. Qed.

Lemma skip_offset_ok n node e j :
  limit_params node -> position node = j -> 0 <= j <= off -> Rc j (limit_outer node) ->
  es_direction e = ForwardScanDirection -> (forall c, cnt = Some c -> 0 < c) ->
  j <= zlen rows -> (Z.to_nat (zlen rows - j) < n)%nat ->
  exists node' e', skip_offset n node e = Ok (node', e', zget W 0) /\
    es_direction e' = ForwardScanDirection /\ limit_rel 1 node'.
Proof.
  revert node e j. induction n as [|n IH]; intros node e j Hp Hpos Hj HR He Hc Hjr Hn; [lia|].
  cbn [skip_offset].
  destruct (fetch_outer_next node e j Hp HR He) as (p' & e' & -> & He' & HR').
  { apply Hlim; [lia|]. intros c Hc0 _. specialize (Hc c Hc0). lia. }
  rewrite rbind_ret. unfold next_pos in *.
  pose proof (zlen_nonneg W). pose proof (zlen_nonneg rest).
  destruct (Z.eq_dec j (zlen rows)) as [Hend|Hne].
  - rewrite Z.min_r in * by lia. rewrite zget_None by lia.
    assert (W = []) as HW.
    { apply zlen_0_inv. destruct (Z.le_gt_cases (zlen W) 0); [done|].
      pose proof (window_len ltac:(lia)). lia. }
    eexists _, e'. rewrite HW. split; [done|]. split; [done|]. by apply rel_empty.
  - rewrite Z.min_l in * by lia. rewrite Z.add_simpl_r.
    destruct (zget_is_Some rows j) as [r Hr]; [lia|]. rewrite Hr. cbv zeta.
    set (node1 := set_outer (Some r) p' false node).
    assert (Hpos1 : position (save_last node1 (Some r)) = j).
    { unfold save_last. destruct (_ && _); done. }
    cbn [position set_position set_subSlot offset]. rewrite Hpos1.
    assert (Hof1 : offset (save_last node1 (Some r)) = off).
    { unfold save_last. destruct (_ && _); apply Hp. }
    rewrite Hof1. destruct (Z.gtb_spec (j + 1) off) as [Hgt|Hle].
    + assert (j = off) as -> by lia.
      assert (Hsplit : 1 <= zlen W + zlen rest).
      { pose proof (f_equal zlen (wn_split _ _ _ _ _ _ _ Hwin)) as Hs.
        rewrite zlen_app in Hs. unfold zdrop, zlen in *. rewrite length_drop in Hs. lia. }
      pose proof (window_get 0 ltac:(lia)) as Hg. rewrite Z.add_0_r, Hr in Hg.
      assert (HW : 1 <= zlen W).
      { destruct (Z.eq_dec (zlen W) 0) as [HW0|]; [|lia]. exfalso.
        rewrite (rest_nil 0) in Hsplit; [change (zlen []) with 0 in Hsplit; lia|done|].
        intros c Hc0. specialize (Hc c Hc0). lia. }
      rewrite zget_app_l in Hg by lia. rewrite <- Hg.
      pose proof (entered node 0 r p') as Hent. cbv zeta in Hent. fold node1 in Hent.
      cbn [position set_subSlot] in Hent. rewrite Hpos1 in Hent.
      eexists _, e'. split; [done|]. split; [done|].
      apply rel_inwindow_set; [lia|]. apply Hent; auto; lia || by rewrite Z.add_0_r.
    + apply IH with (j := j + 1); auto; try lia.
      * unfold save_last. destruct (_ && _); by destruct Hp.
      * unfold save_last. destruct (_ && _); exact HR'.
Qed.

(** Forward past the counted rows, WITH TIES. *)
Lemma ties_forward node e q c :
  limit_at node q -> 1 <= q <= zlen W -> opt = LIMIT_OPTION_WITH_TIES -> cnt = Some c -> c <= q ->
  lstate node = LIMIT_WINDOWEND_TIES -> es_direction e = ForwardScanDirection ->
  exists node' e', limit_ties eqf node e = Ok (node', e', zget W (next_pos W q - 1)) /\
    es_direction e' = ForwardScanDirection /\ limit_rel (next_pos W q) node'.
Proof.
  intros [Hp HR Hpos Hsub Hslot Hties] Hq Ho Hc Hcq Hst He. unfold limit_ties, next_pos.
  replace (ScanDirectionIsForward (es_direction e)) with true by (by rewrite He).
  pose proof (zlen_nonneg rest).
  destruct (fetch_outer_step node e q) as (p' & e' & -> & He' & HR'); auto; try lia.
  { apply Hlim; [lia|]. intros ? _ Ho'. congruence. }
  rewrite rbind_ret. cbn [last_slot set_outer]. rewrite (Hties c Hc Ho Hcq).
  pose proof (Hcnt c Hc) as Hc0.
  assert (Hc1 : 1 <= c).
  { destruct (Z.le_gt_cases c 0); [|lia]. rewrite (wn_zero _ _ _ _ _ _ _ Hwin c Hc) in Hq by done.
    change (zlen []) with 0 in Hq. lia. }
  destruct (zget_is_Some W (c - 1)) as [last Hlast]; [lia|]. rewrite Hlast.
  destruct (wn_ties _ _ _ _ _ _ _ Hwin c last Hc Ho Hlast) as [Hin Hout].
  destruct (Z.eq_dec q (zlen W)) as [Hend|Hne].
  - rewrite Z.min_r by lia. rewrite (zget_None W) by lia. rewrite zget_app_r by lia.
    replace (q - zlen W) with 0 by lia. rewrite Hend in HR'.
    destruct (zget rest 0) as [r|] eqn:Hr.
    + rewrite (Hout r eq_refl). eexists _, e'. split; [done|]. split; [done|].
      apply rel_end_ties; [done|lia|done|]. rewrite Hend in Hties, Hpos.
      split; [by destruct Hp|done|done|done].
    + eexists _, e'. split; [done|]. split; [done|]. rewrite Hend in Hties, Hpos.
      apply rel_eof; [done|lia|]. split; [by destruct Hp|done|done|done].
  - rewrite Z.min_l by lia. rewrite Z.add_simpl_r, zget_app_l by lia.
    destruct (zget_is_Some W q) as [r Hr]; [lia|]. rewrite Hr.
    rewrite (Hin q r Hcq Hr). eexists _, e'. split; [done|]. split; [done|].
    apply (rel_ties c); [done|lia| |done|done|lia].
    split; cbn; [by destruct Hp|by rewrite Z.add_assoc|lia|done|by rewrite Z.add_simpl_r|].
    intros c' Hc' _ _. cbn. by apply Hties; [| |congruence..].
Qed.

Lemma inwindow_forward node e q :
  limit_at node q -> 1 <= q <= zlen W -> lstate node = LIMIT_INWINDOW ->
  es_direction e = ForwardScanDirection ->
  exists node' e', limit_inwindow eqf node e = Ok (node', e', zget W (next_pos W q - 1)) /\
    es_direction e' = ForwardScanDirection /\ limit_rel (next_pos W q) node'.
Proof.
  intros Hat Hq Hst He. pose proof Hat as [Hp HR Hpos Hsub Hslot Hties].
  unfold limit_inwindow.
  replace (ScanDirectionIsForward (es_direction e)) with true by (by rewrite He).
  rewrite (lp_noCount _ Hp), Hpos, (lp_offset _ Hp), (lp_count _ Hp).
  replace (off + q - off) with q by lia. pose proof (zlen_nonneg rest).
  destruct (negb (bool_decide (cnt = None)) && (q >=? default 0 cnt)) eqn:Hfull.
  - apply andb_true_iff in Hfull as [Hsome Hge].
    apply negb_true_iff, bool_decide_eq_false in Hsome.
    apply not_eq_None_Some in Hsome as [c Hc]. rewrite Hc in Hge. cbn in Hge.
    rewrite Z.geb_leb in Hge. apply Z.leb_le in Hge. rewrite (lp_option _ Hp).
    assert (opt = LIMIT_OPTION_COUNT \/ opt = LIMIT_OPTION_WITH_TIES) as [Ho|Ho]
      by (destruct opt; auto; by rewrite Hdef in Hc); rewrite Ho.
    + assert (q = zlen W) as -> by (pose proof (wn_count _ _ _ _ _ _ _ Hwin c Hc Ho); lia).
      unfold next_pos. rewrite Z.min_r by lia. rewrite zget_None by lia.
      eexists _, e. split; [done|]. split; [done|].
      apply rel_end; [done|lia|done|]. by destruct Hp.
    + apply (ties_forward _ _ q c); auto. by destruct Hp.
  - destruct (fetch_outer_step node e q) as (p' & e' & -> & He' & HR'); auto; try lia.
    { apply Hlim; [lia|]. intros c Hc Ho. rewrite Hc in Hfull. cbn in Hfull.
      rewrite Z.geb_leb in Hfull. apply Z.leb_gt in Hfull. lia. }
    rewrite rbind_ret. unfold next_pos. destruct (Z.eq_dec q (zlen W)) as [Hend|Hne].
    + rewrite (rest_nil q Hend), app_nil_r.
      2: { intros c Hc. rewrite Hc in Hfull. cbn in Hfull.
           rewrite Z.geb_leb in Hfull. apply Z.leb_gt in Hfull. lia. }
      rewrite Z.min_r by lia. rewrite !zget_None by lia. rewrite Hend in *.
      eexists _, e'. split; [done|]. split; [done|].
      apply rel_eof; [done|lia|]. split; [by destruct Hp|done|done|done].
    + rewrite zget_app_l by lia. destruct (zget_is_Some W q) as [r Hr]; [lia|]. rewrite Hr.
      rewrite Z.min_l by lia. rewrite Z.add_simpl_r, Hr. cbv zeta.
      eexists _, e'. split; [done|]. split; [done|]. apply rel_inwindow.
      * cbn. unfold save_last. destruct (bool_decide _ && _); exact Hst.
      * lia.
      * apply entered; auto. lia.
Qed.

(** Backward inside the window: the same code in both states. *)
Lemma step_backward node e q :
  limit_at node q -> 1 <= q <= zlen W -> es_direction e = BackwardScanDirection ->
  exists node' e',
    (if position node <=? offset node + 1 then Ok (set_lstate LIMIT_WINDOWSTART node, e, None)
     else do! ' (node, e, slot) <- fetch_prior node e ;;
          Ok (set_position (position node - 1) node, e, slot)) =
    Ok (node', e', zget W (prior_pos q - 1)) /\
    es_direction e' = BackwardScanDirection /\ limit_rel (prior_pos q) node'.
Proof.
  intros [Hp HR Hpos Hsub Hslot Hties] Hq He. rewrite Hpos, (lp_offset _ Hp). unfold prior_pos.
  destruct (Z.leb_spec (off + q) (off + 1)) as [Hle|Hgt].
  - assert (q = 1) as -> by lia. rewrite zget_None by lia. eexists _, e. split; [done|].
    split; [done|]. apply rel_start; [done|lia|]. by destruct Hp.
  - replace (Z.max (q - 1) 0) with (q - 1) by lia.
    destruct (fetch_prior_step node e (q - 1)) as (p' & e' & -> & He' & HR'); auto; try lia.
    { by replace (off + (q - 1) + 1) with (off + q) by lia. }
    rewrite rbind_ret. eexists _, e'. split; [done|]. split; [done|].
    apply rel_inwindow; [done|lia|].
    split; cbn; [by destruct Hp|done|lia|done|done|].
    intros c Hc Ho Hle. apply Hties; auto. lia.
Qed.

(** Backing up from one row past the window. *)
Lemma step_back_in node e :
  limit_past node -> 1 <= zlen W -> es_direction e = BackwardScanDirection ->
  exists node' e', fetch_prior node e = Ok (node', e', zget W (zlen W - 1)) /\
    es_direction e' = BackwardScanDirection /\ limit_rel (zlen W) node'.
Proof.
  intros [Hp HR Hpos Hties] Hn He.
  destruct (fetch_prior_step node e (zlen W)) as (p' & e' & -> & He' & HR'); auto; try lia.
  eexists _, e'. split; [done|]. split; [done|]. apply rel_inwindow; [done|lia|].
  split; cbn; [by destruct Hp|done|lia|done|done|done].
Qed.

Lemma reuse_slot_ok node e i :
  limit_at node i -> 1 <= i <= zlen W ->
  exists node', reuse_slot node e = Ok (node', e, zget W (i - 1)) /\ limit_rel i node'.
Proof.
  intros Hat Hi. unfold reuse_slot. rewrite (la_sub _ _ Hat), (la_slot _ _ Hat).
  eexists. split; [done|]. by apply rel_inwindow_set.
Qed.

Lemma limit_next q node e :
  limit_rel q node -> es_direction e = ForwardScanDirection ->
  exists node' e', ExecLimit eqf fuel node e = Ok (node', e', zget W (next_pos W q - 1)) /\
    es_direction e' = ForwardScanDirection /\ limit_rel (next_pos W q) node'.
Proof.
  intros HR He. unfold ExecLimit. rewrite He. change (ScanDirectionIsForward _) with true.
  pose proof (zlen_nonneg W).
  destruct HR as [node Hst Hp Hpos HRc|q node Hst HW Hq|q node Hst Hq Hat|c q node Hst Hq Hat Ho Hc Hcq
    |node Hst Hn Hat|node Hst Hn Ho Hat|node Hst Hn Ho Hpast|node Hst Hn Hpast]; rewrite Hst.
  - unfold limit_rescan. rewrite He, (lp_count _ Hp), (lp_noCount _ Hp).
    change (negb (ScanDirectionIsForward _)) with false. cbv iota. unfold next_pos.
    destruct ((default 0 cnt <=? 0) && negb (bool_decide (cnt = None))) eqn:Hz.
    + apply andb_true_iff in Hz as [Hz%Z.leb_le Hs]. apply negb_true_iff, bool_decide_eq_false in Hs.
      assert (W = []) as HW.
      { apply not_eq_None_Some in Hs as [c Hc]. rewrite Hc in Hz.
        by apply (wn_zero _ _ _ _ _ _ _ Hwin c Hc). }
      rewrite HW. eexists _, e. split; [done|]. split; [done|]. by apply rel_empty.
    + replace (Z.min (0 + 1) (zlen W + 1)) with 1 by lia.
      apply skip_offset_ok with (j := 0); auto; try lia.
      * intros c Hc. rewrite Hc in Hz. cbn in Hz.
        destruct (Z.leb_spec c 0); [done|]. lia.
      * pose proof (zlen_nonneg rows). lia.
      * unfold zlen. lia.
  - exists node, e. rewrite HW. unfold next_pos. change (zlen []) with 0.
    rewrite zget_None by (change (zlen []) with 0; lia). split; [done|]. split; [done|].
    apply rel_empty; [done|done|lia].
  - by apply inwindow_forward.
  - by apply (ties_forward node e q c).
  - destruct (reuse_slot_ok node e 1 Hat) as (node' & -> & HR'); [lia|].
    exists node', e. unfold next_pos. by replace (Z.min (0 + 1) (zlen W + 1)) with 1 by lia.
  - unfold next_pos. rewrite Z.min_r by lia. rewrite zget_None by lia. exists node, e.
    split; [done|]. split; [done|]. by apply rel_end.
  - unfold next_pos. rewrite Z.min_r by lia. rewrite zget_None by lia. exists node, e.
    split; [done|]. split; [done|]. by apply rel_end_ties.
  - unfold next_pos. rewrite Z.min_r by lia. rewrite zget_None by lia. exists node, e.
    split; [done|]. split; [done|]. by apply rel_eof.
Qed.

Lemma limit_prior q node e :
  limit_rel q node -> es_direction e = BackwardScanDirection ->
  exists node' e', ExecLimit eqf fuel node e = Ok (node', e', zget W (prior_pos q - 1)) /\
    es_direction e' = BackwardScanDirection /\ limit_rel (prior_pos q) node'.
Proof.
  intros HR He. unfold ExecLimit. rewrite He. change (ScanDirectionIsForward _) with false.
  assert (Hend : prior_pos (zlen W + 1) = zlen W).
  { unfold prior_pos. pose proof (zlen_nonneg W). lia. }
  destruct HR as [node Hst Hp Hpos HRc|q node Hst HW Hq|q node Hst Hq Hat|c q node Hst Hq Hat Ho Hc Hcq
    |node Hst Hn Hat|node Hst Hn Ho Hat|node Hst Hn Ho Hpast|node Hst Hn Hpast]; rewrite Hst.
  - unfold limit_rescan. rewrite He. exists node, e.
    change (prior_pos 0) with 0. rewrite zget_None by lia.
    split; [done|]. split; [done|]. by apply rel_rescan.
  - exists node, e. unfold prior_pos. rewrite HW.
    rewrite zget_None by (change (zlen []) with 0; lia). split; [done|]. split; [done|].
    apply rel_empty; [done|done|lia].
  - unfold limit_inwindow. rewrite He. change (ScanDirectionIsForward _) with false.
    by apply step_backward.
  - unfold limit_ties. rewrite He. change (ScanDirectionIsForward _) with false.
    by apply step_backward.
  - exists node, e. change (prior_pos 0) with 0. rewrite zget_None by lia.
    split; [done|]. split; [done|]. by apply rel_start.
  - rewrite (lp_option _ (la_params _ _ Hat)), Ho, Hend.
    destruct (reuse_slot_ok node e (zlen W) Hat) as (node' & -> & HR'); [lia|]. by exists node', e.
  - rewrite (lp_option _ (lq_params _ Hpast)), Ho, Hend. by apply step_back_in.
  - rewrite Hend. by apply step_back_in.
Qed.

Lemma limit_rel_range q node : limit_rel q node -> 0 <= q <= zlen W + 1.
Proof. pose proof (zlen_nonneg W). by destruct 1; lia. Qed.
End limit_spec.

(** ** The whole node *)

(** The bound a LIMIT passes down: -1 for "all rows". *)
Definition tuples_needed (opt : LimitOption) (off : Z) (cnt : option Z) : Z :=
  match cnt, opt with
  | Some c, LIMIT_OPTION_COUNT | Some c, LIMIT_OPTION_DEFAULT => int64 (c + off)
  | _, _ => -1
  end.

Section limit_node.
Context {P : Type} `{PlanState P}.
Implicit Types (node : LimitState P) (e : EState).

(** A LIMIT node that was not yet called, with the values of its
    expressions. *)
Record limit_fresh node (opt : LimitOption) (off : Z) (cnt : option Z) : Prop := {
  lf_state : lstate node = LIMIT_INITIAL;
  lf_option : limitOption node = opt;
  lf_offset : off = default 0 (mjoin (limitOffset node));
  lf_count : cnt = mjoin (limitCount node);
  lf_offset_pos : 0 <= off;
  lf_count_pos : forall c, cnt = Some c -> 0 <= c;
  lf_default : opt = LIMIT_OPTION_DEFAULT -> cnt = None;
  lf_chg : limit_chgParam node = false
}.

Lemma recompute_limits_ok node opt off cnt :
  limit_fresh node opt off cnt ->
  exists node', recompute_limits node = Ok node' /\ lstate node' = LIMIT_RESCAN /\
    limit_params opt off cnt node' /\ position node' = 0 /\
    limit_outer node' = ExecSetTupleBound (tuples_needed opt off cnt) (limit_outer node).
Proof.
  intros [Hst Ho Hoff Hcnt Hop Hcp _ Hchg]. unfold recompute_limits.
  assert (Hevo : match limitOffset node with
    | Some (Some v) => if v <? 0 then Error "OFFSET must not be negative" else Ok v
    | Some None | None => Ok 0 end = Ok off).
  { rewrite Hoff in Hop |- *. destruct (limitOffset node) as [[v|]|]; try done. cbn in *.
    by destruct (Z.ltb_spec v 0); [lia|]. }
  rewrite Hevo, rbind_ret.
  assert (Hevc : match limitCount node with
    | Some (Some v) => if v <? 0 then Error "LIMIT must not be negative" else Ok (v, false)
    | Some None | None => Ok (0, true) end = Ok (default 0 cnt, bool_decide (cnt = None))).
  { rewrite Hcnt in Hcp |- *. destruct (limitCount node) as [[v|]|]; try done. cbn in *.
    specialize (Hcp v eq_refl). by destruct (Z.ltb_spec v 0); [lia|]. }
  rewrite Hevc, rbind_ret. eexists. split; [done|]. split; [done|].
  split; [by split|]. split; [done|]. cbn. f_equal. unfold compute_tuples_needed, tuples_needed.
  cbn. rewrite Ho. by destruct cnt as [c|], opt.
Qed.

(** A LIMIT node is a scrollable plan over its window, whatever bound the
    child was given, as long as the child can be read as far as the window
    reaches. *)
Lemma limit_scrolls eqf fuel node opt off cnt rows lim Rc :
  limit_fresh node opt off cnt -> scrolls rows lim Rc ->
  Rc 0 (ExecSetTupleBound (tuples_needed opt off cnt) (limit_outer node)) ->
  (forall i, 0 <= i -> (forall c, cnt = Some c -> opt = LIMIT_OPTION_COUNT -> i < off + c) ->
     within lim i) ->
  (length rows < fuel)%nat ->
  exists R, @scrolls _ (limit_plan eqf fuel) (limit_window eqf opt off cnt rows) None R /\
    R 0 node.
Proof.
  intros Hfr Hsc HR0 Hlim Hfuel. set (W := limit_window eqf opt off cnt rows).
  pose proof (lf_offset_pos _ _ _ _ Hfr) as Hoff. pose proof (lf_count_pos _ _ _ _ Hfr) as Hcnt.
  pose proof (lf_default _ _ _ _ Hfr) as Hdef.
  destruct (limit_window_split eqf opt off cnt rows Hcnt Hdef) as [rest Hwin]. fold W in Hwin.
  destruct (recompute_limits_ok node opt off cnt Hfr) as (n1 & Hre & Hst1 & Hp1 & Hpos1 & Ho1).
  assert (Hrel : limit_rel opt off cnt W Rc 0 n1).
  { apply rel_rescan; [done|done|done|]. by rewrite Ho1. }
  assert (Hfirst : forall e, ExecLimit eqf fuel node e = ExecLimit eqf fuel n1 e).
  { intros e. unfold ExecLimit. by rewrite (lf_state _ _ _ _ Hfr), Hre, rbind_ret, Hst1. }
  exists (fun q n => limit_rel opt off cnt W Rc q n \/ (q = 0 /\ n = node)).
  split; [|by right]. split; cbn [ExecProcNode limit_plan].
  - intros q n [HR|[-> ->]]; [by eapply limit_rel_range|]. pose proof (zlen_nonneg W). lia.
  - intros q n e HR He _.
    assert (exists n', ExecLimit eqf fuel n e = ExecLimit eqf fuel n' e /\
              limit_rel opt off cnt W Rc q n') as (n' & -> & HR') by naive_solver.
    destruct (limit_next eqf fuel opt off cnt rows W rest lim Rc Hoff Hcnt Hdef Hsc Hwin Hlim Hfuel q n' e)
      as (n2 & e2 & -> & He2 & HR2); auto. exists n2, e2. auto.
  - intros q n e HR He.
    assert (exists n', ExecLimit eqf fuel n e = ExecLimit eqf fuel n' e /\
              limit_rel opt off cnt W Rc q n') as (n' & -> & HR') by naive_solver.
    destruct (limit_prior eqf fuel opt off cnt rows W rest lim Rc Hoff Hsc Hwin Hfuel q n' e)
      as (n2 & e2 & -> & He2 & HR2); auto. exists n2, e2. auto.
Qed.
End limit_node.

(** ** Properties *)

(** C11. A LIMIT/OFFSET node over a scrollable child behaves, under every
    sequence of forward and backward fetches, as a cursor over the window of
    the child's rows (the OFFSET skipped, COUNT rows taken, WITH TIES the rows
    that match the last): it never re-returns a wrong slot, never runs off the
    child, and never raises an error. *)
Theorem exec_limit_scrolls_window {P} `{PlanState P} eqf fuel (node : LimitState P) opt off cnt
    rows lim Rc dirs e :
  limit_fresh node opt off cnt -> scrolls rows lim Rc ->
  Rc 0 (ExecSetTupleBound (tuples_needed opt off cnt) (limit_outer node)) ->
  (forall i, 0 <= i -> (forall c, cnt = Some c -> opt = LIMIT_OPTION_COUNT -> i < off + c) ->
     within lim i) ->
  (length rows < fuel)%nat -> Forall (fun d => d <> NoMovementScanDirection) dirs ->
  @fetches _ (limit_plan eqf fuel) dirs node e =
  Ok (scroll_rows (limit_window eqf opt off cnt rows) dirs 0).
Proof.
  intros Hfr Hsc HR Hlim Hf Hd.
  destruct (limit_scrolls eqf fuel node opt off cnt rows lim Rc Hfr Hsc HR Hlim Hf) as (R & HscL & HR0).
  by apply (fetches_scroll _ R).
Qed.

(** LIMIT 2 OFFSET 1 over 1 2 2 2 3, and the same WITH TIES. *)
Definition demo_limit (opt : LimitOption) : LimitState CursorPlan :=
  ExecInitLimit (Some (Some 1)) (Some (Some 2)) opt
    ((int_row <$> [1; 2; 2; 2; 3], 0) : CursorPlan).
Definition row_eqb (r r' : row) : bool := tcmp [int_key] r r' =? 0.
Definition F := ForwardScanDirection.
Definition B := BackwardScanDirection.

Lemma demo_limit_fresh opt :
  opt <> LIMIT_OPTION_DEFAULT -> limit_fresh (demo_limit opt) opt 1 (Some 2).
Proof. intros Ho. split; try done. intros c [= <-]. lia. Qed.

Lemma exec_limit_scrolls_window_witness :
  @fetches _ (limit_plan row_eqb 20) [F; F; F; F; F; B; B; B; B; F]
    (demo_limit LIMIT_OPTION_WITH_TIES) forward_estate =
  Ok [Some (int_row 2); Some (int_row 2); Some (int_row 2); None; None;
      Some (int_row 2); Some (int_row 2); Some (int_row 2); None; Some (int_row 2)].
Proof.
  etransitivity.
  - apply (exec_limit_scrolls_window row_eqb 20 (demo_limit LIMIT_OPTION_WITH_TIES)
      LIMIT_OPTION_WITH_TIES 1 (Some 2) (int_row <$> [1; 2; 2; 2; 3]) None
      (cursor_at (int_row <$> [1; 2; 2; 2; 3]))
      [F; F; F; F; F; B; B; B; B; F] forward_estate).
    + apply demo_limit_fresh. discriminate.
    + apply cursor_plan_scrolls.
    + split; [reflexivity|]. vm_compute. split; discriminate.
    + intros i _ _. exact I.
    + cbn. lia.
    + repeat constructor; discriminate.
  - vm_compute. reflexivity.
Defined.

(** A negative OFFSET or LIMIT is an error on the first call, in either
    direction; OFFSET is checked first, and a NULL value of either counts as
    absent. *)
Theorem exec_limit_rejects_negative {P} `{PlanState P} eqf fuel (node : LimitState P) e :
  lstate node = LIMIT_INITIAL ->
  (forall v, limitOffset node = Some (Some v) -> v < 0 ->
     ExecLimit eqf fuel node e = Error "OFFSET must not be negative") /\
  (forall v, (forall o, limitOffset node = Some (Some o) -> 0 <= o) ->
     limitCount node = Some (Some v) -> v < 0 ->
     ExecLimit eqf fuel node e = Error "LIMIT must not be negative") /\
  ((forall o, limitOffset node = Some (Some o) -> 0 <= o) ->
   (forall v, limitCount node = Some (Some v) -> 0 <= v) ->
     exists node', recompute_limits node = Ok node').
Proof.
  intros Hst.
  assert (Hoff : (forall o, limitOffset node = Some (Some o) -> 0 <= o) ->
    exists off, match limitOffset node with
      | Some (Some v) => if v <? 0 then Error "OFFSET must not be negative" else Ok v
      | Some None | None => Ok 0 end = Ok off).
  { intros Ho. destruct (limitOffset node) as [[v|]|]; eauto. specialize (Ho v eq_refl).
    destruct (Z.ltb_spec v 0); [lia|eauto]. }
  unfold ExecLimit. rewrite Hst. unfold recompute_limits. split; [|split].
  - intros v -> Hv. by destruct (Z.ltb_spec v 0); [|lia].
  - intros v Ho Hc Hv. destruct (Hoff Ho) as [off ->]. rewrite rbind_ret, Hc.
    by destruct (Z.ltb_spec v 0); [|lia].
  - intros Ho Hc. destruct (Hoff Ho) as [off ->]. rewrite rbind_ret.
    destruct (limitCount node) as [[v|]|]; [|by eexists|by eexists].
    specialize (Hc v eq_refl). destruct (Z.ltb_spec v 0); [lia|by eexists].
Qed.

Lemma exec_limit_rejects_negative_witness :
  @ExecLimit CursorPlan _ row_eqb 20
    (ExecInitLimit (Some None) (Some (Some (-1))) LIMIT_OPTION_COUNT
       ((int_row <$> [1; 2], 0) : CursorPlan)) forward_estate =
  Error "LIMIT must not be negative".
Proof.
  apply (exec_limit_rejects_negative row_eqb 20
    (ExecInitLimit (Some None) (Some (Some (-1))) LIMIT_OPTION_COUNT
       ((int_row <$> [1; 2], 0) : CursorPlan)) forward_estate eq_refl) with (v := -1).
  - intros o [= ].
  - reflexivity.
  - lia.
Defined.
