(* ===== verification/SortCursor.v ===== *)
(** * Complete sorts

    A Sort node without a bound, over a child that is not an index in order:
    it reads its child to the end, whatever memory it is given, and with random
    access it can be scrolled, marked, restored and rewound. *)

From Stdlib Require Import ZArith Lia.
From stdpp Require Import base list sorting strings.
From S2P Require Import Prelude SortSupport TuplesortState Tuplesort TuplesortMem TuplesortCursor TapeRuns TuplesortExternal TapeCursor Executor NodeSort.

Local Open Scope Z_scope.

Abbreviation child_delivers := (stream ExecProcNode).

(** The operations a parent has on a Sort node. *)
Section node_cursor.
Context {P : Type} `{PlanState P} (E : SortEnv) (fuel : nat).

Definition node_step (node : SortState P) (e : EState) (o : Scroll.op)
    : res (SortState P * EState * option row) :=
  match o with
  | Scroll.Next => ExecSort E fuel node (set_direction ForwardScanDirection e)
  | Scroll.Prior => ExecSort E fuel node (set_direction BackwardScanDirection e)
  | Scroll.Mark => do! node <- ExecSortMarkPos E node ;; Ok (node, e, None)
  | Scroll.Restore => do! node <- ExecSortRestrPos E node ;; Ok (node, e, None)
  | Scroll.Rewind => do! ' (node, e) <- ExecReScanSort node e ;; Ok (node, e, None)
  end.

Fixpoint node_run (node : SortState P) (e : EState) (ops : list Scroll.op) : res (list (option row)) :=
  match ops with
  | [] => Ok []
  | o :: ops =>
    do! ' (node, e, r) <- node_step node e o ;;
    do! rs <- node_run node e ops ;;
    Ok (r :: rs)
  end.
End node_cursor.

(** Every restore goes back to a mark that was set after the first fetch and
    since the last rescan. *)
Fixpoint node_restores_marked (ops : list Scroll.op) : bool :=
  match ops with
  | [] => true
  | (Scroll.Next | Scroll.Prior) :: _ => restores_marked false ops
  | _ :: ops => node_restores_marked ops
  end.

(** ** The first call *)

Section complete.
Context {P : Type} `{PlanState P} (E : SortEnv) `{!SortEnvOk E} (fuel : nat).
Implicit Types (node : SortState P) (e : EState) (ts : Tuplesortstate).

(** A child that never reports an index in order is read to the end. *)
Lemma feed_all n (outer : P) e ts ts' rows :
  child_delivers outer rows -> Forall (fun x => x.2 = false) rows ->
  es_direction e = ForwardScanDirection -> (length rows < n)%nat -> put_all E ts (rows.*1) = Ok ts' ->
  exists outer' e', sort_feed E n outer e ts = Ok (outer', e', ts') /\ es_direction e' = ForwardScanDirection.
Proof.
  revert n outer e ts. induction rows as [|[r f] rows IH]; intros [|n] outer e ts Hdel Hf He Hn Hput; cbn in Hn; try lia; cbn [sort_feed].
  - destruct (Hdel e He) as (outer' & e' & -> & He'). injection Hput as ->. rewrite rbind_ret. by exists outer', e'.
  - destruct (Hdel e He) as (outer' & -> & Hdel'). rewrite rbind_ret. inversion Hf as [|?? Hf0 Hf']; subst. cbn in Hf0. subst f.
    cbn [put_all fmap list_fmap fst] in Hput. destruct (tuplesort_puttupleslot E ts r) as [ts1| | |] eqn:Hp; try done.
    rewrite rbind_ret in *. cbn [is_index_inorder set_inorder andb]. apply (IH n outer' (set_inorder false e) ts1); try done. lia.
Qed.

(** A Sort without a bound that has not been run. *)
Record unsorted node (keys : list SortSupportData) (wm : Z) : Prop := {
  us_keys : sort_keys node = keys;
  us_mem : work_mem node = wm;
  us_bounded : ss_bounded node = false;
  us_done : sort_Done node = false
}.

(** Rescanning [p] gives [outer] and keeps the scan direction. *)
Definition rescans_to (p outer : P) : Prop :=
  forall e, exists e', ExecReScan p e = Ok (outer, e') /\ es_direction e' = es_direction e.

(** The child as the first fetch finds it: rescanned before if its parameters
    have changed. *)
Definition opens node (outer : P) : Prop :=
  if outer_chgParam node
  then rescans_to (sort_outer node) outer
  else outer = sort_outer node.

Lemma sort_all node outer e keys wm rows ts :
  unsorted node keys wm -> opens node outer -> child_delivers outer rows -> Forall (fun x => x.2 = false) rows ->
  (length rows < fuel)%nat -> whole_sort E keys wm (ss_randomAccess node) (rows.*1) = Ok ts ->
  exists outer' e', sort_subplan E fuel node e =
      Ok (mk_sort keys wm (ss_randomAccess node) false (ss_bound node) true false (ss_bound node) (Some ts) outer' false, e') /\
    es_direction e' = es_direction e.
Proof.
  intros [Hk Hm Hb Hd] Hop Hdel Hf Hn Hts. unfold whole_sort, load_sort in Hts. unfold sort_subplan. rewrite Hk, Hm, Hb.
  destruct (tuplesort_begin_heap keys wm (ss_randomAccess node)) as [s0| | |]; try done. rewrite !rbind_ret in *.
  destruct (put_all E s0 (rows.*1)) as [s1| | |] eqn:Hput; try done. rewrite rbind_ret in Hts. cbv zeta.
  assert (Hopen : exists e0, (if outer_chgParam node then ExecReScan (sort_outer node) (set_direction ForwardScanDirection e)
      else Ok (sort_outer node, set_direction ForwardScanDirection e)) = Ok (outer, e0) /\ es_direction e0 = ForwardScanDirection).
  { unfold opens in Hop. destruct (outer_chgParam node); [by apply Hop|]. subst outer. by eexists. }
  destruct Hopen as (e0 & -> & He0). rewrite rbind_ret.
  destruct (feed_all fuel outer e0 s0 s1 rows) as (outer' & e' & -> & He'); try done.
  rewrite rbind_ret, Hts, rbind_ret. by eexists outer', _.
Qed.

(** The first call sorts and then fetches. *)
Lemma exec_sort_first node e node1 e1 :
  sort_Done node = false -> sort_subplan E fuel node e = Ok (node1, e1) -> sort_Done node1 = true ->
  es_direction e1 = es_direction e -> ExecSort E fuel node e = ExecSort E fuel node1 e1.
Proof. intros Hd Hs Hd1 He. unfold ExecSort. by rewrite Hd, Hs, Hd1, !rbind_ret, He. Qed.

(** ** Forward reading *)

Definition sorted_node node ts : Prop := sort_Done node = true /\ tuplesortstate node = Some ts.

Local Abbreviation pull_sort := (@pull _ (sort_plan E fuel)).

Lemma pull_fetch n node ts ts' e out :
  sorted_node node ts -> es_direction e = ForwardScanDirection -> fetch n ts = Ok (ts', out) ->
  exists node', pull_sort n node e = Ok (node', e, out).
Proof.
  revert node ts out. induction n as [|n IH]; intros node ts out [Hd Hts] He Hf; cbn [pull fetch] in *.
  { injection Hf as <- <-. by exists node. }
  cbn [ExecProcNode sort_plan]. unfold ExecSort. rewrite Hd, rbind_ret, Hts, He. change (ScanDirectionIsForward _) with true.
  destruct (tuplesort_gettupleslot ts true) as [[ts1 [[t ab]|]]| | |]; try done; rewrite !rbind_ret in *; cbn [fmap option_fmap option_map fst].
  - apply rbind_Ok in Hf as ([ts2 rs] & Hf & Heq). injection Heq as <- <-.
    destruct (IH (with_sort node (sort_Done node) (Some ts1) (sort_outer node)) ts1 rs) as (node' & ->); try done.
    rewrite rbind_ret. by eexists.
  - injection Hf as <- <-. by eexists.
Qed.

Lemma pull_complete node outer e keys wm rows :
  unsorted node keys wm -> opens node outer -> keys_wf keys -> child_delivers outer rows ->
  Forall (fun x => x.2 = false) rows -> (length rows < fuel)%nat ->
  Forall row_ok (rows.*1) -> zlen rows < INT_MAX -> es_direction e = ForwardScanDirection ->
  exists node' e' out, pull_sort (S (length rows)) node e = Ok (node', e', out) /\
    out ≡ₚ rows.*1 /\ StronglySorted (cle (tcmp keys)) out.
Proof.
  intros Hun Hop Hwf Hdel Hf Hn Hok Hmax He.
  destruct (whole_sort_finishes E keys wm (ss_randomAccess node) (rows.*1) Hwf Hok) as (ts & Hts & Hfin).
  { unfold zlen in *. by rewrite length_fmap. }
  destruct (finished_delivers keys _ ts _ Hfin) as (R & rest & HR & Hs & Hp).
  destruct (fetch_delivered _ R ts rest HR Hs) as (ts' & out & Hfe & Hpo & Hso).
  destruct (sort_all node outer e keys wm rows ts Hun Hop Hdel Hf Hn Hts) as (outer' & e' & Hsub & He').
  set (node1 := mk_sort _ _ _ _ _ _ _ _ _ _ _) in Hsub.
  assert (Hlen : length rest = length rows) by (rewrite (Permutation_length Hp); apply length_fmap). rewrite Hlen in Hfe.
  destruct (pull_fetch (S (length rows)) node1 ts ts' e' out) as (node' & Hpull); [done|congruence|done|].
  exists node', e', out. split; [|split; [by rewrite Hpo|done]].
  rewrite <- Hpull. cbn [pull ExecProcNode sort_plan]. by rewrite (exec_sort_first node e node1 e' (us_done _ _ _ Hun) Hsub).
Qed.

(** ** Scrolling *)

(** The sort behind the node is a cursor over [out] in state [c]; [m]: a mark
    was set since the last rescan. *)
Definition cursor_at_state ts (out : list row) (m : bool) (c : Scroll.state) : Prop :=
  forall ops, restores_marked m ops = true -> cursor_run E ts ops = Ok (Scroll.run out c ops).

(** Any operation but a restore without a mark. *)
Definition allowed (m : bool) (o : Scroll.op) : Prop := restores_marked m [o] = true.

Lemma cursor_at_step ts out m c o :
  cursor_at_state ts out m c -> allowed m o ->
  exists ts', cursor_step E ts o = Ok (ts', (Scroll.step out c o).2) /\
    cursor_at_state ts' out (marked_after m o) (Scroll.step out c o).1.
Proof.
  intros Hc Ho. pose proof (Hc [o] Ho) as H1. cbn [cursor_run Scroll.run] in H1.
  destruct (Scroll.step out c o) as [c' r] eqn:Hst. cbn [fst snd].
  apply rbind_Ok in H1 as ([ts' r'] & Hstep & H1). rewrite rbind_ret in H1. injection H1 as ->.
  exists ts'. split; [done|]. intros ops Hm. specialize (Hc (o :: ops)). cbn [cursor_run Scroll.run] in Hc.
  unfold allowed in Ho. cbn [restores_marked] in Ho, Hc. rewrite andb_true_r in Ho. rewrite Ho, Hm in Hc. specialize (Hc eq_refl).
  rewrite Hst, Hstep, rbind_ret in Hc. apply rbind_Ok in Hc as (rs & -> & Hc). by injection Hc as ->.
Qed.

(** A sorted node that may be rewound in place. *)
Record scrollable node (out : list row) (m : bool) (c : Scroll.state) : Prop := {
  sn_done : sort_Done node = true;
  sn_ra : ss_randomAccess node = true;
  sn_bound : ss_bounded node = bounded_Done node /\ ss_bound node = bound_Done node;
  sn_chg : outer_chgParam node = false;
  sn_ts : exists ts, tuplesortstate node = Some ts /\ cursor_at_state ts out m c
}.

Lemma scrollable_with node out m c ts :
  sort_Done node = true -> ss_randomAccess node = true ->
  ss_bounded node = bounded_Done node /\ ss_bound node = bound_Done node -> outer_chgParam node = false ->
  cursor_at_state ts out m c -> scrollable (with_sort node true (Some ts) (sort_outer node)) out m c.
Proof. intros. split; try done. by exists ts. Qed.

Lemma scroll_step node e out m c o :
  scrollable node out m c -> allowed m o ->
  exists node' e', node_step E fuel node e o = Ok (node', e', (Scroll.step out c o).2) /\
    scrollable node' out (marked_after m o) (Scroll.step out c o).1.
Proof.
  intros [Hd Hra [Hb1 Hb2] Hch (ts & Hts & Hc)] Ho.
  destruct (cursor_at_step ts out m c o Hc Ho) as (ts' & Hstep & Hc'). clear Ho.
  destruct (Scroll.step out c o) as [c' r0]. cbn [fst snd] in *.
  pose proof (scrollable_with node out _ c' ts' Hd Hra (conj Hb1 Hb2) Hch Hc') as Hn'.
  destruct o; cbn [node_step cursor_step] in *; unfold ExecSort, ExecSortMarkPos, ExecSortRestrPos, ExecReScanSort;
    rewrite ?Hd, ?Hch, ?Hb1, ?Hb2, ?Hra, ?Z.eqb_refl, ?Bool.eqb_reflx; cbn [negb orb]; rewrite ?rbind_ret, Hts;
    apply rbind_Ok in Hstep as (x & Hx & Hstep).
  1: change (ScanDirectionIsForward _) with true.
  2: change (ScanDirectionIsForward _) with false.
  1-2: destruct x as [ts1 r]; injection Hstep as <- <-; rewrite Hx, rbind_ret, ?Hd; eexists _, _; by split.
  all: injection Hstep as <- <-; rewrite Hx, !rbind_ret; eexists _, e; by split.
Qed.

Lemma scroll_run node e out m c ops :
  scrollable node out m c -> restores_marked m ops = true -> node_run E fuel node e ops = Ok (Scroll.run out c ops).
Proof.
  revert node e m c. induction ops as [|o ops IH]; intros node e m c Hs Hm; [done|]. cbn [node_run Scroll.run].
  cbn [restores_marked] in Hm. apply andb_true_iff in Hm as [Ho Hm].
  destruct (scroll_step node e out m c o Hs) as (node' & e' & -> & Hs').
  { unfold allowed. cbn [restores_marked]. by rewrite Ho. }
  rewrite rbind_ret. destruct (Scroll.step out c o) as [c' r]. cbn [fst snd] in *. by rewrite (IH node' e' _ c' Hs' Hm), rbind_ret.
Qed.

(** Before the first fetch there is nothing to mark, restore or rewind, so a
    mark set then is none. *)
Lemma start_run node keys wm out ops e :
  unsorted node keys wm -> ss_randomAccess node = true ->
  (forall e, exists node1 e1, sort_subplan E fuel node e = Ok (node1, e1) /\
     scrollable node1 out false (Scroll.mk 0 0) /\ es_direction e1 = es_direction e) ->
  node_restores_marked ops = true ->
  node_run E fuel node e ops = Ok (Scroll.run out (Scroll.mk 0 0) ops).
Proof.
  intros Hun Hra Hfirst. pose proof (us_done _ _ _ Hun) as Hd. induction ops as [|o ops IH]; intros Hm; [done|].
  assert (Hfetch : forall d e, exists node1 e1, ExecSort E fuel node (set_direction d e) = ExecSort E fuel node1 (set_direction d e1) /\
    scrollable node1 out false (Scroll.mk 0 0)).
  { intros d e0. destruct (Hfirst (set_direction d e0)) as (node1 & e1 & Hs & Hsc & He). exists node1, e1. split; [|done].
    rewrite (exec_sort_first node _ node1 e1 Hd Hs (sn_done _ _ _ _ Hsc) He). f_equal. destruct e1. cbn in He. by subst. }
  destruct o; cbn [node_run node_step node_restores_marked] in *.
  1-2: edestruct Hfetch as (node1 & e1 & -> & Hsc).
  1: by apply (scroll_run node1 e1 out _ _ (Scroll.Next :: ops) Hsc).
  1: by apply (scroll_run node1 e1 out _ _ (Scroll.Prior :: ops) Hsc).
  all: unfold ExecSortMarkPos, ExecSortRestrPos, ExecReScanSort; rewrite Hd; cbn [negb]; rewrite !rbind_ret, (IH Hm); done.
Qed.
End complete.

(** ** Properties *)

(** A Sort without a bound over a child that never reports an index in
    order returns all the rows of the child, in order and then the end,
    whatever [work_mem] is: in memory, or through runs on tape. *)
Theorem exec_sort_complete {P} `{PlanState P} E `{!SortEnvOk E} fuel (node : SortState P) e keys wm rows :
  unsorted node keys wm -> outer_chgParam node = false -> keys_wf keys -> child_delivers (sort_outer node) rows ->
  Forall (fun x => x.2 = false) rows -> (length rows < fuel)%nat ->
  Forall row_ok (rows.*1) -> zlen rows < INT_MAX -> es_direction e = ForwardScanDirection ->
  exists node' e' out, @pull _ (sort_plan E fuel) (S (length rows)) node e = Ok (node', e', out) /\
    out ≡ₚ rows.*1 /\ StronglySorted (cle (tcmp keys)) out.
Proof. intros Hun Hc. apply (pull_complete E fuel node (sort_outer node) e keys wm rows Hun). unfold opens. by rewrite Hc. Qed.

Definition nine_rows : list (row * bool) := (fun z => (big_row z, false)) <$> [5; 3; 9; 1; 4; 7; 2; 8; 6].
Definition nine_sort (eflags : Z) : SortState ListPlan := ExecInitSort [int_key] 64 eflags (nine_rows : ListPlan).

Lemma nine_rows_ok : Forall (fun x => x.2 = false) nine_rows /\ Forall row_ok (nine_rows.*1) /\ zlen nine_rows < INT_MAX.
Proof.
  split; [by repeat constructor|]. split; [|vm_compute; reflexivity].
  repeat (constructor; [vm_compute; split; [reflexivity|discriminate]|]). constructor.
Qed.

Lemma exec_sort_complete_witness :
  exists node' e' out, @pull _ (sort_plan merge_env 20) 10 (nine_sort 0) forward_estate = Ok (node', e', out) /\
    out ≡ₚ nine_rows.*1 /\ StronglySorted (cle (tcmp [int_key])) out.
Proof.
  apply (exec_sort_complete merge_env 20 (nine_sort 0) forward_estate [int_key] 64 nine_rows).
  - by split.
  - reflexivity.
  - apply int_key_wf.
  - apply list_plan_delivers.
  - apply nine_rows_ok.
  - apply (bool_decide_unpack _). vm_compute. exact I.
  - apply nine_rows_ok.
  - apply nine_rows_ok.
  - reflexivity.
Defined.

(** C10. A Sort node with random access is a scrollable cursor over the sorted
    rows of its child: any sequence of forward and backward fetches, of
    [ExecSortMarkPos], [ExecSortRestrPos] and rescans with nothing changed
    returns what the cursor returns, from the first call on, in memory and on
    tape, provided that every restore after the first fetch goes back to a mark
    set after that fetch and since the last rescan. *)
Theorem exec_sort_cursor {P} `{PlanState P} E `{!SortEnvOk E} fuel (node : SortState P) e keys wm rows :
  unsorted node keys wm -> outer_chgParam node = false -> ss_randomAccess node = true -> keys_wf keys -> child_delivers (sort_outer node) rows ->
  Forall (fun x => x.2 = false) rows -> (length rows < fuel)%nat ->
  Forall row_ok (rows.*1) -> zlen rows < INT_MAX ->
  exists out, out ≡ₚ rows.*1 /\ StronglySorted (cle (tcmp keys)) out /\
    forall ops, node_restores_marked ops = true ->
      node_run E fuel node e ops = Ok (Scroll.run out (Scroll.mk 0 0) ops).
Proof.
  intros Hun Hch Hra Hwf Hdel Hf Hn Hok Hmax.
  destruct (random_access_sort_ok E keys wm (rows.*1) Hwf Hok) as (ts & out & Hts & Hp & Hs & Hrun).
  { unfold zlen in *. by rewrite length_fmap. }
  exists out. split; [done|]. split; [done|]. intros ops. apply (start_run E fuel node keys wm out ops e Hun Hra).
  intros e0. unfold random_access_sort in Hts. rewrite <- Hra in Hts.
  destruct (sort_all E fuel node (sort_outer node) e0 keys wm rows ts Hun) as (outer' & e' & Hsub & He'); try done.
  { unfold opens. by rewrite Hch. }
  eexists _, e'. split; [exact Hsub|]. split; [|done]. split; try done. exists ts. split; [done|]. intros ops' Hm. by apply Hrun.
Qed.

Lemma exec_sort_cursor_witness :
  exists out, out ≡ₚ nine_rows.*1 /\ StronglySorted (cle (tcmp [int_key])) out /\
    forall ops, node_restores_marked ops = true ->
      node_run merge_env 20 (nine_sort EXEC_FLAG_BACKWARD) forward_estate ops = Ok (Scroll.run out (Scroll.mk 0 0) ops).
Proof.
  apply (exec_sort_cursor merge_env 20 (nine_sort EXEC_FLAG_BACKWARD) forward_estate [int_key] 64 nine_rows).
  - by split.
  - reflexivity.
  - reflexivity.
  - apply int_key_wf.
  - apply list_plan_delivers.
  - apply nine_rows_ok.
  - apply (bool_decide_unpack _). vm_compute. exact I.
  - apply nine_rows_ok.
  - apply nine_rows_ok.
Defined.

(** C40. Rescanning a Sort that cannot rewind its result (it has no random
    access, or its bound or the parameters of its child changed) forgets the
    result: what it then returns is the sorted output of the rescanned child,
    not of the old one.  The Sort is unbounded and the child reports no index in
    order. *)
Theorem exec_sort_rescan_resorts {P} `{PlanState P} E `{!SortEnvOk E} fuel (node : SortState P) e outer keys wm rows :
  sort_keys node = keys -> work_mem node = wm -> ss_bounded node = false -> sort_Done node = true ->
  (ss_randomAccess node = false \/ bounded_Done node = true \/ ss_bound node <> bound_Done node \/ outer_chgParam node = true) ->
  rescans_to (sort_outer node) outer ->
  keys_wf keys -> child_delivers outer rows -> Forall (fun x => x.2 = false) rows -> (length rows < fuel)%nat ->
  Forall row_ok (rows.*1) -> zlen rows < INT_MAX -> es_direction e = ForwardScanDirection ->
  exists node1 e1 node' e' out, ExecReScanSort node e = Ok (node1, e1) /\
    @pull _ (sort_plan E fuel) (S (length rows)) node1 e1 = Ok (node', e', out) /\
    out ≡ₚ rows.*1 /\ StronglySorted (cle (tcmp keys)) out.
Proof.
  intros Hk Hm Hb Hd Hwhy Hre Hwf Hdel Hf Hn Hok Hmax He.
  assert (Hrun : exists node1 e1, ExecReScanSort node e = Ok (node1, e1) /\ unsorted node1 keys wm /\
      opens node1 outer /\ es_direction e1 = ForwardScanDirection).
  { unfold ExecReScanSort. rewrite Hd. cbn [negb]. rewrite Hb. destruct (outer_chgParam node) eqn:Hc; cbn [negb orb].
    - eexists _, e. split; [reflexivity|]. split; [by split|]. split; [|done]. unfold opens. cbn [outer_chgParam with_sort]. by rewrite Hc.
    - assert (Hcond : negb (Bool.eqb false (bounded_Done node)) || negb (ss_bound node =? bound_Done node) || negb (ss_randomAccess node) = true).
      { destruct Hwhy as [-> | [-> | [Hne | ?]]]; [by rewrite orb_true_r|done| |done].
        apply Z.eqb_neq in Hne as ->. by destruct (bounded_Done node). }
      rewrite Hcond. destruct (Hre e) as (e1 & -> & He1). rewrite rbind_ret. eexists _, e1. split; [reflexivity|].
      split; [by split|]. split; [|congruence]. unfold opens. cbn [outer_chgParam with_sort sort_outer]. by rewrite Hc. }
  destruct Hrun as (node1 & e1 & Hrs & Hun & Hop & He1).
  destruct (pull_complete E fuel node1 outer e1 keys wm rows) as (node' & e' & out & Hp); try done.
  by exists node1, e1, node', e', out.
Qed.

(** A child that starts over with other rows when it is rescanned. *)
Record ReplayPlan := mk_replay { next_rows : ListPlan; now_rows : ListPlan }.

#[export] Instance replay_plan : PlanState ReplayPlan := {|
  ExecProcNode := fun p e => do! ' (l, e, r) <- ExecProcNode (now_rows p) e ;; Ok (mk_replay (next_rows p) l, e, r);
  ExecReScan := fun p e => Ok (mk_replay (next_rows p) (next_rows p), e);
  ExecSetTupleBound := fun _ p => p
|}.

Lemma replay_delivers l l' : child_delivers (mk_replay l l') l'.
Proof. induction l' as [|[r f] l' IH]; cbn; eauto. Qed.

(** The Sort after it has returned its first row. *)
Definition used_sort : SortState ReplayPlan :=
  let node := ExecInitSort [int_key] 64 0 (mk_replay nine_rows [(big_row 3, false); (big_row 2, false)]) in
  match @pull _ (sort_plan merge_env 20) 1 node forward_estate with
  | Ok (node, _, _) => node
  | _ => node
  end.

Lemma used_sort_facts :
  sort_keys used_sort = [int_key] /\ work_mem used_sort = 64 /\ ss_bounded used_sort = false /\
  sort_Done used_sort = true /\ ss_randomAccess used_sort = false /\ next_rows (sort_outer used_sort) = nine_rows.
Proof. repeat (split; [vm_compute; reflexivity|]). vm_compute. reflexivity. Qed.

Lemma exec_sort_rescan_resorts_witness :
  exists node1 e1 node' e' out, ExecReScanSort used_sort forward_estate = Ok (node1, e1) /\
    @pull _ (sort_plan merge_env 20) 10 node1 e1 = Ok (node', e', out) /\
    out ≡ₚ nine_rows.*1 /\ StronglySorted (cle (tcmp [int_key])) out.
Proof.
  destruct used_sort_facts as (Hk & Hm & Hb & Hd & Hra & Hn).
  apply (exec_sort_rescan_resorts merge_env 20 used_sort forward_estate (mk_replay nine_rows nine_rows) [int_key] 64 nine_rows).
  - exact Hk.
  - exact Hm.
  - exact Hb.
  - exact Hd.
  - left. exact Hra.
  - intros e. exists e. split; [|reflexivity]. cbn [ExecReScan replay_plan]. rewrite Hn. reflexivity.
  - apply int_key_wf.
  - apply replay_delivers.
  - apply nine_rows_ok.
  - apply (bool_decide_unpack _). vm_compute. exact I.
  - apply nine_rows_ok.
  - apply nine_rows_ok.
  - reflexivity.
Defined.
