(* ===== verification/MergeAppend.v ===== *)
(** * executor/nodeMergeAppend.c

    MergeAppend merges the rows of sorted subplans (the partitions of a table,
    say) with a binary heap of slot numbers.  Which subplans take part is a set
    of subplan numbers; partition pruning (execPartition.c) decides it, and its
    decisions are data here.  The number of a slot stands in the heap as long as
    the slot holds a row. *)

From Stdlib Require Import ZArith Lia.
From stdpp Require Import base list sorting strings.
From S2P Require Import Prelude HeapTheory BinaryHeap SortSupport TuplesortState Tuplesort TuplesortCursor Executor NodeSort.

Local Open Scope Z_scope.

(** What partition pruning decides: at start-up, and for the current values of
    the executor's parameters. *)
Record PartitionPruneState := mk_prune {
  do_initial_prune : bool;
  do_exec_prune : bool;
  initial_matches : list Z;
  exec_matches : list Z
}.

(** [ms_valid_subplans] lists the members of the bitmapset in ascending order;
    the empty one is NULL. *)
Record MergeAppendState (P : Type) := mk_ma {
  mergeplans : list P;
  ms_nplans : Z;
  ms_sortkeys : list SortSupportData;
  ms_slots : list (option row);
  ms_heap : binaryheap Z;
  ms_initialized : bool;
  ms_prune_state : option PartitionPruneState;
  ms_valid_subplans : list Z
}.
Arguments mk_ma {P}.
Arguments mergeplans {P}.
Arguments ms_nplans {P}.
Arguments ms_sortkeys {P}.
Arguments ms_slots {P}.
Arguments ms_heap {P}.
Arguments ms_initialized {P}.
Arguments ms_prune_state {P}.
Arguments ms_valid_subplans {P}.

(** The members of [bms_add_range(NULL, 0, n - 1)], as [bms_next_member] visits
    them ([bms_range_loop] of BitmapsetTheory). *)
Definition bms_range (n : Z) : list Z := seqZ 0 n.

Section operations.
Context {P : Type} `{PlanState P}.

(** What [slot_getattr] would read from an empty slot. *)
Variable stale : row.

Definition with_ma (node : MergeAppendState P) (plans : list P) (slots : list (option row))
    (heap : binaryheap Z) (init : bool) (valid : list Z) : MergeAppendState P :=
  mk_ma plans (ms_nplans node) (ms_sortkeys node) slots heap init (ms_prune_state node) valid.

(** The states of the chosen subplans, in the order of their numbers. *)
Fixpoint init_plans (plans : list P) (members : list Z) : res (list P) :=
  match members with
  | [] => Ok []
  | i :: members =>
    do! p <- aget plans i ;;
    do! ps <- init_plans plans members ;;
    Ok (p :: ps)
  end.

Definition ExecInitMergeAppend (garbage : nat -> Z) (sortkeys : list SortSupportData)
    (plans : list P) (part_prune_info : option PartitionPruneState) : res (MergeAppendState P) :=
  let '(nplans, validsubplans, ms_valid) :=
    match part_prune_info with
    | Some prunestate =>
      let valid :=
        if do_initial_prune prunestate then initial_matches prunestate else bms_range (zlen plans) in
      let nplans := zlen valid in
      (nplans, valid,
       if negb (do_exec_prune prunestate) && (nplans >? 0) then bms_range nplans else [])
    | None => (zlen plans, bms_range (zlen plans), bms_range (zlen plans))
    end in
  (* Assert(nplans > 0) unless the initial pruning decides *)
  do! _ <-
    (if match part_prune_info with Some st => do_initial_prune st | None => false end || (nplans >? 0)
     then Ok tt else Crash) ;;
  do! heap <- binaryheap_allocate garbage nplans ;;
  do! mergeplanstates <- init_plans plans validsubplans ;;
  Ok (mk_ma mergeplanstates nplans sortkeys (replicate (Z.to_nat nplans) None) heap false
        part_prune_info ms_valid).

(** Compare the tuples in two slots, the smaller one being the larger node. *)
Fixpoint compare_slots (keys : list SortSupportData) (s1 s2 : row) : Z :=
  match keys with
  | [] => 0
  | sortKey :: keys =>
    let attno := ssup_attno sortKey in
    let '(datum1, isNull1) := heap_getattr s1 attno in
    let '(datum2, isNull2) := heap_getattr s2 attno in
    let compare := ApplySortComparator datum1 isNull1 datum2 isNull2 sortKey in
    if negb (compare =? 0) then INVERT_COMPARE_RESULT compare else compare_slots keys s1 s2
  end.

Definition slot_row (slots : list (option row)) (i : Z) : row :=
  match zget slots i with Some (Some r) => r | _ => stale end.

Definition heap_compare_slots (keys : list SortSupportData) (slots : list (option row)) (a b : Z) : Z :=
  compare_slots keys (slot_row slots a) (slot_row slots b).

(** Fetch the next row of subplan [i] into its slot. *)
Definition fetch_slot (node : MergeAppendState P) (e : EState) (i : Z)
    : res (MergeAppendState P * EState * option row) :=
  do! p <- aget (mergeplans node) i ;;
  do! ' (p, e, slot) <- ExecProcNode p e ;;
  do! plans <- aset (mergeplans node) i p ;;
  do! slots <- aset (ms_slots node) i slot ;;
  Ok (with_ma node plans slots (ms_heap node) (ms_initialized node) (ms_valid_subplans node), e, slot).

Definition with_heap (node : MergeAppendState P) (heap : binaryheap Z) : MergeAppendState P :=
  with_ma node (mergeplans node) (ms_slots node) heap (ms_initialized node) (ms_valid_subplans node).

(** The first row of each subplan. *)
Fixpoint fetch_first (node : MergeAppendState P) (e : EState) (members : list Z)
    : res (MergeAppendState P * EState) :=
  match members with
  | [] => Ok (node, e)
  | i :: members =>
    do! ' (node, e, slot) <- fetch_slot node e i ;;
    do! node <-
      match slot with
      | None => Ok node
      | Some _ => do! h <- binaryheap_add_unordered (ms_heap node) i ;; Ok (with_heap node h)
      end ;;
    fetch_first node e members
  end.

(** The first call: choose the subplans and build the heap. *)
Definition ma_start (node : MergeAppendState P) (e : EState) : res (MergeAppendState P * EState) :=
  do! valid <-
    match ms_valid_subplans node with
    | [] => match ms_prune_state node with Some st => Ok (exec_matches st) | None => Crash end
    | v => Ok v
    end ;;
  let node := with_ma node (mergeplans node) (ms_slots node) (ms_heap node) false valid in
  do! ' (node, e) <- fetch_first node e valid ;;
  do! h <- binaryheap_build (heap_compare_slots (ms_sortkeys node) (ms_slots node)) (ms_heap node) ;;
  Ok (with_ma node (mergeplans node) (ms_slots node) h true (ms_valid_subplans node), e).

(** A later call: the subplan returned from last time moves on. *)
Definition ma_next (node : MergeAppendState P) (e : EState) : res (MergeAppendState P * EState) :=
  do! i <- binaryheap_first (ms_heap node) ;;
  do! ' (node, e, slot) <- fetch_slot node e i ;;
  let cmp := heap_compare_slots (ms_sortkeys node) (ms_slots node) in
  match slot with
  | Some _ => do! h <- binaryheap_replace_first cmp (ms_heap node) i ;; Ok (with_heap node h, e)
  | None => do! ' (_, h) <- binaryheap_remove_first cmp (ms_heap node) ;; Ok (with_heap node h, e)
  end.

(** The row on top of the heap. *)
Definition ma_result (node : MergeAppendState P) (e : EState)
    : res (MergeAppendState P * EState * option row) :=
  if binaryheap_empty (ms_heap node) then Ok (node, e, None)
  else
    do! i <- binaryheap_first (ms_heap node) ;;
    do! slot <- aget (ms_slots node) i ;;
    Ok (node, e, slot).

Definition ExecMergeAppend (node : MergeAppendState P) (e : EState)
    : res (MergeAppendState P * EState * option row) :=
  if negb (ms_initialized node) && (ms_nplans node =? 0) then Ok (node, e, None)
  else
    do! ' (node, e) <- (if ms_initialized node then ma_next node e else ma_start node e) ;;
    ma_result node e.

Fixpoint rescan_plans (plans : list P) (e : EState) : res (list P * EState) :=
  match plans with
  | [] => Ok ([], e)
  | p :: plans =>
    do! ' (p, e) <- ExecReScan p e ;;
    do! ' (plans, e) <- rescan_plans plans e ;;
    Ok (p :: plans, e)
  end.

(** [prune_params]: a parameter of the pruning has changed.  The parameters of
    the subplans have not. *)
Definition ExecReScanMergeAppend (prune_params : bool) (node : MergeAppendState P) (e : EState)
    : res (MergeAppendState P * EState) :=
  let valid :=
    match ms_prune_state node with
    | Some _ => if prune_params then [] else ms_valid_subplans node
    | None => ms_valid_subplans node
    end in
  do! ' (plans, e) <- rescan_plans (mergeplans node) e ;;
  Ok (with_ma node plans (ms_slots node) (binaryheap_reset (ms_heap node)) false valid, e).

(** The branch of [ExecSetTupleBound] for a MergeAppend. *)
Definition ma_set_bound (tuples_needed : Z) (node : MergeAppendState P) : MergeAppendState P :=
  with_ma node (ExecSetTupleBound tuples_needed <$> mergeplans node) (ms_slots node) (ms_heap node)
    (ms_initialized node) (ms_valid_subplans node).

Definition merge_append_plan : PlanState (MergeAppendState P) := {|
  ExecProcNode := ExecMergeAppend;
  ExecReScan := ExecReScanMergeAppend false;
  ExecSetTupleBound := ma_set_bound
|}.
End operations.

(** ** The order of the slots *)

Lemma compare_slots_invert keys a b :
  compare_slots keys a b = INVERT_COMPARE_RESULT (compare_keys keys a b).
Proof.
  induction keys as [|k keys IH]; [done|]. cbn [compare_slots compare_keys].
  destruct (heap_getattr a (ssup_attno k)), (heap_getattr b (ssup_attno k)).
  by destruct (Z.eqb_spec (ApplySortComparator d b0 d0 b1 k) 0); cbn [negb].
Qed.

Lemma invert_sign x : (INVERT_COMPARE_RESULT x <= 0 <-> 0 <= x) /\ (INVERT_COMPARE_RESULT x < 0 <-> 0 < x).
Proof. unfold INVERT_COMPARE_RESULT. destruct (Z.ltb_spec x 0); lia. Qed.

Lemma heap_compare_slots_ok stale keys slots :
  keys_ok keys -> Comparator (heap_compare_slots stale keys slots).
Proof.
  intros Hk. pose proof (compare_keys_ok keys Hk) as Hc. unfold heap_compare_slots. split.
  - intros a b. rewrite !compare_slots_invert. set (x := slot_row _ _ a). set (y := slot_row _ _ b).
    pose proof (cmp_flip x y). pose proof (cmp_flip y x). pose proof (invert_sign (compare_keys keys x y)).
    pose proof (invert_sign (compare_keys keys y x)). lia.
  - intros a b c. rewrite !compare_slots_invert. set (x := slot_row _ _ a). set (y := slot_row _ _ b). set (z := slot_row _ _ c).
    rewrite !(proj1 (invert_sign _)). intros H1 H2. pose proof (cle_trans (compare_keys keys) z y x (cle_ge _ _ _ H2) (cle_ge _ _ _ H1)) as H3.
    unfold cle in H3. pose proof (cmp_flip x z). lia.
Qed.

(** The larger node holds the smaller row. *)
Lemma heap_compare_rows stale keys slots i j :
  keys_ok keys -> cle (heap_compare_slots stale keys slots) j i ->
  cle (compare_keys keys) (slot_row stale slots i) (slot_row stale slots j).
Proof.
  intros Hk. pose proof (compare_keys_ok keys Hk). unfold cle at 1, heap_compare_slots. rewrite compare_slots_invert.
  rewrite (proj1 (invert_sign _)). intros Hle. by apply (cle_ge (compare_keys keys)).
Qed.

Lemma heap_compare_ext stale keys slots slots' i j :
  zget slots' i = zget slots i -> zget slots' j = zget slots j ->
  heap_compare_slots stale keys slots' i j = heap_compare_slots stale keys slots i j.
Proof. intros Hi Hj. unfold heap_compare_slots, slot_row. by rewrite Hi, Hj. Qed.

(** ** Merging *)

Section merge.
Context {P : Type} `{PlanState P} (stale : row) (keys : list SortSupportData) (Hkeys : keys_ok keys).
Context (V : list Z) (rows : Z -> list row) (lim : Z -> option Z) (R : Z -> Z -> P -> Prop).
Context (HV : NoDup V) (Hscrolls : forall i, i ∈ V -> scrolls (rows i) (lim i) (R i)).
Context (Hsorted : forall i, i ∈ V -> StronglySorted (cle (compare_keys keys)) (rows i)).

Local Abbreviation cmp := (compare_keys keys).
Local Abbreviation hcmp := (heap_compare_slots stale keys).

#[local] Instance cmp_comparator : Comparator cmp := compare_keys_ok keys Hkeys.
#[local] Instance hcmp_comparator slots : Comparator (hcmp slots) := heap_compare_slots_ok stale keys slots Hkeys.

(** [q i] rows have been fetched from subplan [i]; the last one is in its
    slot. *)
Record child_at (node : MergeAppendState P) (q i : Z) : Prop := {
  ca_range : 0 <= i < zlen (mergeplans node) /\ i < zlen (ms_slots node);
  ca_plan : exists p, zget (mergeplans node) i = Some p /\ R i q p;
  ca_pos : 1 <= q <= zlen (rows i) + 1;
  ca_slot : zget (ms_slots node) i = Some (zget (rows i) (q - 1))
}.

Definition live (q : Z -> Z) (i : Z) : Prop := q i <= zlen (rows i).

#[local] Instance live_dec q i : Decision (live q i).
Proof. unfold live. apply _. Defined.

Record ready (node : MergeAppendState P) (q : Z -> Z) : Prop := {
  rd_keys : ms_sortkeys node = keys;
  rd_init : ms_initialized node = true;
  rd_child : forall i, i ∈ V -> child_at node (q i) i;
  rd_heap : bh_heap (hcmp (ms_slots node)) (ms_heap node);
  rd_contents : bh_contents (ms_heap node) ≡ₚ filter (live q) V
}.

(** What has not been returned yet. *)
Definition remaining (q : Z -> Z) : list row := concat ((fun i => zdrop (q i - 1) (rows i)) <$> V).

Lemma elem_remaining q y : y ∈ remaining q -> exists i, i ∈ V /\ y ∈ zdrop (q i - 1) (rows i).
Proof.
  intros (l & Hy & Hl)%elem_of_concat. apply list_elem_of_fmap in Hl as (i & -> & Hi). eauto.
Qed.

Lemma slot_row_at node q i r :
  child_at node q i -> zget (rows i) (q - 1) = Some r -> slot_row stale (ms_slots node) i = r.
Proof. intros [_ _ _ Hs] Hr. unfold slot_row. by rewrite Hs, Hr. Qed.

(** The row at the top is returned; it is a smallest one. *)
Lemma ready_result node q :
  ready node q ->
  (binaryheap_empty (ms_heap node) = true /\ remaining q = []) \/
  (binaryheap_empty (ms_heap node) = false /\ exists i r, binaryheap_first (ms_heap node) = Ok i /\ i ∈ V /\ live q i /\
    zget (rows i) (q i - 1) = Some r /\ zget (ms_slots node) i = Some (Some r) /\
    forall y, y ∈ remaining q -> cle cmp r y).
Proof.
  intros [Hk Hin Hch Hheap Hcont]. pose proof Hheap as [[Hsz Hsp Hcap] _]. unfold binaryheap_empty.
  assert (Hmem : forall i, i ∈ bh_contents (ms_heap node) <-> live q i /\ i ∈ V).
  { intros i. rewrite Hcont. apply list_elem_of_filter. }
  destruct (Z.eqb_spec (bh_size (ms_heap node)) 0) as [H0|H0].
  - left. split; [done|]. destruct (remaining q) as [|y l] eqn:Hrem; [done|]. exfalso.
    destruct (elem_remaining q y) as (i & Hi & Hy); [rewrite Hrem; by left|].
    assert (Hl : i ∈ bh_contents (ms_heap node)).
    { apply Hmem. split; [|done]. unfold live. apply elem_zget in Hy as (j & Hj & Hjb). destruct (Hch i Hi) as [_ _ Hpos _].
      rewrite zget_zdrop in Hj by lia. apply zget_bounds in Hj. lia. }
    unfold bh_contents in Hl. rewrite H0, ztake_nonpos in Hl by lia. by apply not_elem_of_nil in Hl.
  - right. split; [done|]. destruct (binaryheap_first_ok (hcmp (ms_slots node)) (ms_heap node) Hheap) as (i & Hf & Hin' & Hmax); [lia|].
    apply Hmem in Hin' as [Hlive Hi]. pose proof (Hch i Hi) as Hci. pose proof Hci as [Hr1 Hr2 Hpos Hslot].
    unfold live in Hlive. destruct (zget_is_Some (rows i) (q i - 1)) as [r Hr]; [lia|].
    exists i, r. do 4 (split; [done|]). split; [by rewrite Hslot, Hr|]. intros y Hy.
    destruct (elem_remaining q y Hy) as (j & Hj & Hyj). pose proof (Hch j Hj) as Hcj. pose proof (ca_pos _ _ _ Hcj) as Hposj.
    apply elem_zget in Hyj as (m & Hm & Hmb). rewrite zget_zdrop in Hm by lia. pose proof (zget_bounds _ _ _ Hm).
    destruct (zget_is_Some (rows j) (q j - 1)) as [h Hh]; [lia|].
    assert (Hjl : j ∈ bh_contents (ms_heap node)) by (apply Hmem; split; [unfold live; lia|done]).
    pose proof (heap_compare_rows _ _ _ _ _ Hkeys (Hmax j Hjl)) as Hle.
    rewrite (slot_row_at _ _ _ _ Hci Hr), (slot_row_at _ _ _ _ Hcj Hh) in Hle.
    apply (cle_trans cmp r h y); [done|]. destruct (Z.eq_dec m 0) as [->|Hm0].
    + rewrite Z.add_0_r, Hh in Hm. injection Hm as ->. apply (cle_refl cmp).
    + apply (sorted_zget _ (rows j) (q j - 1) (q j - 1 + m)); [by apply Hsorted|lia|done|done].
Qed.

(** ** Moving on *)

Lemma fetch_slot_ok node e i p q :
  i ∈ V -> zget (mergeplans node) i = Some p -> i < zlen (ms_slots node) -> R i q p ->
  es_direction e = ForwardScanDirection -> within (lim i) q ->
  let slot := zget (rows i) (next_pos (rows i) q - 1) in
  exists p' e', fetch_slot node e i =
      Ok (with_ma node (zset (mergeplans node) i p') (zset (ms_slots node) i slot) (ms_heap node)
            (ms_initialized node) (ms_valid_subplans node), e', slot) /\
    R i (next_pos (rows i) q) p' /\ es_direction e' = ForwardScanDirection.
Proof.
  intros Hi Hp Hl HR He Hw slot. pose proof (zget_bounds _ _ _ Hp).
  destruct (sc_next _ _ _ (Hscrolls i Hi) q p e HR He Hw) as (p' & e' & Hrun & He' & HR').
  exists p', e'. unfold fetch_slot. rewrite (aget_Ok _ _ _ Hp), rbind_ret, Hrun, rbind_ret.
  rewrite aset_Ok, rbind_ret by done. rewrite aset_Ok, rbind_ret by lia. done.
Qed.

Definition bump (q : Z -> Z) (i j : Z) : Z := if decide (j = i) then q i + 1 else q j.

Lemma bump_eq q i : bump q i i = q i + 1.
Proof. unfold bump. by destruct (decide (i = i)). Qed.

Lemma bump_ne q i j : j <> i -> bump q i j = q j.
Proof. unfold bump. by destruct (decide (j = i)). Qed.

Lemma split_member i : i ∈ V -> exists V', V ≡ₚ i :: V' /\ i ∉ V'.
Proof.
  intros Hi. apply elem_of_Permutation in Hi as [V' Hp]. exists V'. split; [done|].
  assert (Hnd : NoDup (i :: V')) by (by rewrite <- Hp). by apply NoDup_cons in Hnd as [? _].
Qed.

Lemma remaining_bump q i r :
  i ∈ V -> 1 <= q i -> zget (rows i) (q i - 1) = Some r -> remaining q ≡ₚ r :: remaining (bump q i).
Proof.
  intros Hi Hq Hr. destruct (split_member i Hi) as (V' & HpV & Hni). unfold remaining.
  rewrite (concat_perm _ _ (fmap_Permutation (fun j => zdrop (q j - 1) (rows j)) _ _ HpV)).
  rewrite (concat_perm _ _ (fmap_Permutation (fun j => zdrop (bump q i j - 1) (rows j)) _ _ HpV)).
  rewrite !fmap_cons. cbn [concat]. rewrite bump_eq, (zdrop_cons _ _ _ Hr). cbn [app].
  replace (q i + 1 - 1) with (q i - 1 + 1) by lia. apply Permutation_skip, Permutation_app_head.
  assert (Heq : (fun j => zdrop (q j - 1) (rows j)) <$> V' = (fun j => zdrop (bump q i j - 1) (rows j)) <$> V'); [|by rewrite Heq].
  apply list_fmap_ext. intros k j Hj. rewrite bump_ne; [done|]. intros ->. apply Hni. by apply (list_elem_of_lookup_2 _ k).
Qed.

Lemma live_bump q i :
  i ∈ V -> live q i ->
  if decide (live (bump q i) i) then filter (live (bump q i)) V ≡ₚ filter (live q) V
  else filter (live q) V ≡ₚ i :: filter (live (bump q i)) V.
Proof.
  intros Hi Hl. destruct (split_member i Hi) as (V' & HpV & Hni).
  assert (Heq : filter (live (bump q i)) V' = filter (live q) V').
  { clear HpV. induction V' as [|j V' IH]; [done|]. apply not_elem_of_cons in Hni as [Hne Hni]. rewrite !filter_cons.
    assert (Hb : bump q i j = q j) by (by apply bump_ne).
    destruct (decide (live (bump q i) j)) as [H1|H1], (decide (live q j)) as [H2|H2]; unfold live in H1, H2;
      rewrite ?Hb in H1; try done; [by rewrite IH|by apply IH]. }
  destruct (decide (live (bump q i) i)) as [Hb|Hb].
  - rewrite HpV, !filter_cons_True by done. by rewrite Heq.
  - rewrite HpV, filter_cons_True by done. rewrite (filter_cons_False _ i) by done. by rewrite Heq.
Qed.

Lemma child_other node q i j p slot h init v :
  j <> i -> child_at node q j ->
  child_at (with_ma node (zset (mergeplans node) i p) (zset (ms_slots node) i slot) h init v) q j.
Proof.
  intros Hne [Hr (p' & Hp & HR) Hpos Hs]. split; cbn [mergeplans ms_slots with_ma].
  - by rewrite !zlen_zset.
  - exists p'. by rewrite zget_zset_ne by done.
  - done.
  - by rewrite zget_zset_ne by done.
Qed.

(** Only the order at the root is in doubt when its slot changes. *)
Lemma below_root_changed node q i slot :
  ready node q -> zget (bh_nodes (ms_heap node)) 0 = Some i ->
  bh_below_root (hcmp (zset (ms_slots node) i slot)) (ms_heap node).
Proof.
  intros [Hk Hin Hch Hheap Hcont] Hroot. pose proof Hheap as [Hwf [Hfl Hok]]. destruct Hwf as [Hsz Hsp Hcap].
  split; [done|]. split; [done|]. intros a c x y Hc Ha _ Hcn Hx Hy.
  assert (Hnd : NoDup (bh_contents (ms_heap node))) by (rewrite Hcont; by apply NoDup_filter).
  assert (Hdiff : forall k z, 1 <= k < bh_size (ms_heap node) -> zget (bh_nodes (ms_heap node)) k = Some z -> i <> z).
  { intros k z Hk1 Hz ->. unfold bh_contents, ztake, zget in *. destruct (Z.leb_spec 0 k); [|lia]. cbn in Hroot.
    assert (Hk2 : take (Z.to_nat (bh_size (ms_heap node))) (bh_nodes (ms_heap node)) !! Z.to_nat k = Some z) by (rewrite lookup_take_lt by lia; done).
    assert (Hk0 : take (Z.to_nat (bh_size (ms_heap node))) (bh_nodes (ms_heap node)) !! 0%nat = Some z) by (rewrite lookup_take_lt by lia; done).
    pose proof (NoDup_lookup _ _ _ _ Hnd Hk2 Hk0). lia. }
  assert (Hxi : i <> x) by (apply (Hdiff a); [unfold child in Hc; lia|done]).
  assert (Hyi : i <> y) by (apply (Hdiff c); [unfold child in Hc; lia|done]).
  unfold bh_le, cle. rewrite (heap_compare_ext stale keys (ms_slots node)) by (by rewrite zget_zset_ne).
  apply (Hok a c x y Hc); [lia|lia|done|done|done].
Qed.

Lemma ma_next_ok node q e i r :
  ready node q -> binaryheap_first (ms_heap node) = Ok i -> i ∈ V -> live q i ->
  binaryheap_empty (ms_heap node) = false -> zget (rows i) (q i - 1) = Some r ->
  es_direction e = ForwardScanDirection -> within (lim i) (q i) ->
  exists node' e', ma_next stale node e = Ok (node', e') /\ ready node' (bump q i) /\
    remaining q ≡ₚ r :: remaining (bump q i) /\ es_direction e' = ForwardScanDirection.
Proof.
  intros Hrd Hf Hi Hl Hne Hr He Hw. pose proof (rd_child _ _ Hrd i Hi) as [[Hib Hsl] (p & Hp & HR) Hpos _].
  assert (Hroot : zget (bh_nodes (ms_heap node)) 0 = Some i).
  { unfold binaryheap_first, aget in Hf. by destruct (zget (bh_nodes (ms_heap node)) 0); simplify_eq. }
  assert (Hnx : next_pos (rows i) (q i) = q i + 1) by (unfold next_pos, live in *; lia).
  unfold ma_next. rewrite Hf, rbind_ret.
  destruct (fetch_slot_ok node e i p (q i) Hi Hp Hsl HR He Hw) as (p' & e' & -> & HR' & He'). rewrite rbind_ret. cbv zeta.
  rewrite Hnx in *. replace (q i + 1 - 1) with (q i) in * by lia. set (slot := zget (rows i) (q i)) in *.
  set (node1 := with_ma node _ _ _ _ _). change (ms_heap node1) with (ms_heap node).
  change (ms_sortkeys node1) with (ms_sortkeys node). rewrite (rd_keys _ _ Hrd).
  pose proof (below_root_changed node q i slot Hrd Hroot) as Hbelow.
  assert (Hsz : 0 < bh_size (ms_heap node)).
  { destruct Hbelow as [[Hs _ _] _]. unfold binaryheap_empty in Hne. apply Z.eqb_neq in Hne. lia. }
  pose proof (live_bump q i Hi Hl) as Hlive. pose proof (rd_contents _ _ Hrd) as Hcont.
  assert (Hch : forall j, j ∈ V -> forall h, child_at (with_heap node1 h) (bump q i j) j).
  { intros j Hj h. destruct (decide (j = i)) as [->|Hji].
    - rewrite bump_eq. split; cbn [with_heap node1 mergeplans ms_slots with_ma].
      + by rewrite !zlen_zset.
      + exists p'. by rewrite zget_zset_eq by done.
      + unfold live in Hl. lia.
      + rewrite zget_zset_eq by lia. by replace (q i + 1 - 1) with (q i) by lia.
    - rewrite bump_ne by done. apply (child_other node (q j) i j p' slot h _ _ Hji). by apply (rd_child _ _ Hrd). }
  assert (Hrem : remaining q ≡ₚ r :: remaining (bump q i)) by (apply remaining_bump; [done|lia|done]).
  assert (Hslot : is_Some slot <-> live (bump q i) i).
  { unfold live. rewrite bump_eq. unfold slot. split.
    - intros [x Hx]. apply zget_bounds in Hx. lia.
    - intros Hlt. apply zget_is_Some. lia. }
  destruct slot as [x|] eqn:Hsx.
  - destruct (decide (live (bump q i) i)) as [Hb|Hb]; [|destruct Hb; apply Hslot; eauto].
    destruct (binaryheap_replace_first_ok (hcmp (ms_slots node1)) (ms_heap node) i i Hbelow Hsz Hroot) as (h & Hrun & Hheap & _ & _ & Hperm).
    rewrite Hrun, rbind_ret. eexists _, e'. split; [reflexivity|]. split; [|done].
    split; try done; [apply (rd_keys _ _ Hrd)|apply (rd_init _ _ Hrd)|intros j Hj; by apply Hch|].
    apply Permutation_cons_inv in Hperm. change (ms_heap (with_heap node1 h)) with h. by rewrite Hperm, Hlive.
  - destruct (decide (live (bump q i) i)) as [Hb|Hb]; [apply Hslot in Hb as [? ?]; done|].
    destruct (binaryheap_remove_root_ok (hcmp (ms_slots node1)) (ms_heap node) i Hbelow Hsz Hroot) as (h & Hrun & Hheap & _ & _ & Hperm).
    rewrite Hrun, rbind_ret. eexists _, e'. split; [reflexivity|]. split; [|done].
    split; try done; [apply (rd_keys _ _ Hrd)|apply (rd_init _ _ Hrd)|intros j Hj; by apply Hch|].
    change (ms_heap (with_heap node1 h)) with h. rewrite Hcont, Hlive in Hperm. by apply Permutation_cons_inv in Hperm.
Qed.

(** ** The first call *)

(** The subplans of [rest] have not been started, those of [done] have
    delivered their first row. *)
Record starting (node : MergeAppendState P) (done rest : list Z) : Prop := {
  st_keys : ms_sortkeys node = keys;
  st_done : forall i, i ∈ done -> child_at node 1 i;
  st_rest : forall i, i ∈ rest -> 0 <= i < zlen (ms_slots node) /\ exists p, zget (mergeplans node) i = Some p /\ R i 0 p;
  st_wf : bh_wf (ms_heap node);
  st_contents : bh_contents (ms_heap node) ≡ₚ filter (live (fun _ => 1)) done;
  st_room : bh_size (ms_heap node) + zlen rest <= bh_space (ms_heap node)
}.

Lemma child_first node i p' h init v :
  i ∈ V -> 0 <= i < zlen (mergeplans node) -> i < zlen (ms_slots node) -> R i 1 p' ->
  child_at (with_ma node (zset (mergeplans node) i p') (zset (ms_slots node) i (zget (rows i) 0)) h init v) 1 i.
Proof.
  intros Hi Hp Hs HR. split; cbn [mergeplans ms_slots with_ma].
  - by rewrite !zlen_zset.
  - exists p'. by rewrite zget_zset_eq by done.
  - pose proof (zlen_nonneg (rows i)). lia.
  - by rewrite zget_zset_eq by lia.
Qed.

Lemma fetch_first_ok node e done rest :
  starting node done rest -> NoDup (done ++ rest) -> (forall i, i ∈ done ++ rest -> i ∈ V) ->
  es_direction e = ForwardScanDirection -> (forall i, i ∈ V -> within (lim i) 0) ->
  exists node' e', fetch_first node e rest = Ok (node', e') /\ starting node' (done ++ rest) [] /\
    es_direction e' = ForwardScanDirection /\ ms_valid_subplans node' = ms_valid_subplans node.
Proof.
  revert node e done. induction rest as [|i rest IH]; intros node e done Hst Hnd Hsub He Hw.
  { exists node, e. rewrite app_nil_r. done. }
  destruct Hst as [Hk Hdone Hrest Hwf Hcont Hroom]. cbn [fetch_first].
  destruct (Hrest i) as (Hib & p & Hp & HR); [by left|]. pose proof (zget_bounds _ _ _ Hp) as Hpb.
  assert (Hi : i ∈ V) by (apply Hsub, elem_of_app; right; by left).
  pose proof (zlen_nonneg (rows i)) as Hz. pose proof (zlen_nonneg rest) as Hzr. rewrite zlen_cons in Hroom.
  assert (Hnx : next_pos (rows i) 0 = 1) by (unfold next_pos; lia).
  destruct (fetch_slot_ok node e i p 0 Hi Hp (proj2 Hib) HR He (Hw i Hi)) as (p' & e' & -> & HR' & He'). rewrite rbind_ret.
  rewrite Hnx in *. change (1 - 1) with 0. set (node1 := with_ma node _ _ _ _ _).
  assert ((i ∉ done) /\ (i ∉ rest)) as [Hni Hni'].
  { apply NoDup_app in Hnd as (_ & Hd & Hn). apply NoDup_cons in Hn as [Hn _]. split; [|done]. intros Hin. apply (Hd i Hin). by left. }
  assert (Hnode : forall h, bh_wf h -> bh_contents h ≡ₚ filter (live (fun _ => 1)) (done ++ [i]) ->
    bh_size h + zlen rest <= bh_space h -> starting (with_heap node1 h) (done ++ [i]) rest).
  { intros h Hwf1 Hc1 Hr1. split; try done.
    - intros j [Hj|Hj]%elem_of_app.
      + apply (child_other node 1 i j p' (zget (rows i) 0) h); [by intros ->|]. by apply Hdone.
      + apply list_elem_of_singleton in Hj as ->. exact (child_first node i p' h _ _ Hi Hpb (proj2 Hib) HR').
    - intros j Hj. destruct (Hrest j) as (Hjb & pj & Hpj & HRj); [by right|]. cbn [with_heap node1 mergeplans ms_slots with_ma].
      rewrite zlen_zset. split; [done|]. exists pj. rewrite zget_zset_ne; [done|]. by intros ->. }
  assert (Hnext : forall node2, starting node2 (done ++ [i]) rest -> ms_valid_subplans node2 = ms_valid_subplans node ->
    exists node' e'', fetch_first node2 e' rest = Ok (node', e'') /\ starting node' (done ++ i :: rest) [] /\
      es_direction e'' = ForwardScanDirection /\ ms_valid_subplans node' = ms_valid_subplans node).
  { intros node2 Hs2 Hv2. destruct (IH node2 e' (done ++ [i]) Hs2) as (n3 & e3 & Hrun & Hs3 & He3 & Hv3).
    - by rewrite <- app_assoc.
    - intros j Hj. apply Hsub. by rewrite <- app_assoc in Hj.
    - done.
    - done.
    - exists n3, e3. rewrite <- app_assoc in Hs3. split; [done|]. split; [done|]. split; [done|congruence]. }
  rewrite filter_app in Hnode. destruct (zget (rows i) 0) as [r|] eqn:Hr.
  - assert (Hlive : live (fun _ => 1) i) by (unfold live; apply zget_bounds in Hr; lia).
    destruct Hwf as [W1 W2 W3]. unfold binaryheap_add_unordered. change (ms_heap node1) with (ms_heap node).
    rewrite Z.geb_leb. destruct (Z.leb_spec (bh_space (ms_heap node)) (bh_size (ms_heap node))); [lia|].
    rewrite aset_Ok by lia. rewrite !rbind_ret. apply Hnext; [|done]. apply Hnode.
    + split; cbn; rewrite ?zlen_zset; lia.
    + unfold bh_contents. cbn [bh_size bh_nodes]. rewrite (ztake_succ _ _ i) by (apply zget_zset_eq; lia).
      rewrite ztake_zset_ge by lia. fold (bh_contents (ms_heap node)). rewrite Hcont. by rewrite filter_cons_True.
    + cbn [bh_size bh_space]. lia.
  - assert (Hnl : ~ live (fun _ => 1) i).
    { unfold live. intros Hl. destruct (zget_is_Some (rows i) 0) as [x Hx]; [lia|]. by rewrite Hx in Hr. }
    rewrite rbind_ret. replace node1 with (with_heap node1 (ms_heap node)) by (by destruct node). apply Hnext; [|done].
    apply Hnode; [done| |lia]. rewrite filter_cons_False by done. by rewrite Hcont, app_nil_r.
Qed.

(** The subplans the first call will choose. *)
Definition chosen (node : MergeAppendState P) : Prop :=
  (ms_valid_subplans node = V /\ V <> []) \/
  (ms_valid_subplans node = [] /\ exists st, ms_prune_state node = Some st /\ exec_matches st = V).

(** A node that has not been run, or has been rescanned. *)
Record fresh (node : MergeAppendState P) : Prop := {
  fr_keys : ms_sortkeys node = keys;
  fr_init : ms_initialized node = false;
  fr_nplans : ms_nplans node <> 0;
  fr_chosen : chosen node;
  fr_rest : forall i, i ∈ V -> 0 <= i < zlen (ms_slots node) /\ exists p, zget (mergeplans node) i = Some p /\ R i 0 p;
  fr_wf : bh_wf (ms_heap node);
  fr_empty : bh_size (ms_heap node) = 0;
  fr_room : zlen V <= bh_space (ms_heap node)
}.

Definition first_pos (_ : Z) : Z := 1.

Lemma remaining_first : remaining first_pos = concat (rows <$> V).
Proof. unfold remaining. f_equal. Qed.

Lemma chosen_members node :
  chosen node ->
  match ms_valid_subplans node with
  | [] => match ms_prune_state node with Some st => Ok (exec_matches st) | None => Crash end
  | v => Ok v
  end = Ok V.
Proof. intros [[-> Hne]|[-> (st & -> & ->)]]; [by destruct V|done]. Qed.

Lemma ma_start_ok node e :
  fresh node -> es_direction e = ForwardScanDirection -> (forall i, i ∈ V -> within (lim i) 0) ->
  exists node' e', ma_start stale node e = Ok (node', e') /\ ready node' first_pos /\
    es_direction e' = ForwardScanDirection.
Proof.
  intros [Hk Hin Hnp Hcs Hrest Hwf Hemp Hroom] He Hw. unfold ma_start. rewrite (chosen_members _ Hcs), rbind_ret. cbv zeta.
  set (node0 := with_ma node _ _ _ _ _).
  destruct (fetch_first_ok node0 e [] V) as (n1 & e1 & -> & [Hk1 Hd1 _ Hwf1 Hc1 _] & He1 & _).
  - split; try done; [| |cbn; lia].
    + intros i Hi. by apply not_elem_of_nil in Hi.
    + unfold bh_contents. cbn [node0 with_ma ms_heap]. by rewrite Hemp.
  - done.
  - done.
  - done.
  - done.
  - rewrite rbind_ret, Hk1. cbn [app] in *.
    destruct (binaryheap_build_ok (hcmp (ms_slots n1)) (ms_heap n1) Hwf1) as (h & -> & Hh & Hcont & _).
    rewrite rbind_ret. eexists _, e1. split; [reflexivity|]. split; [|done].
    split; try done; [|by change (bh_contents h ≡ₚ filter (live first_pos) V); rewrite Hcont].
    intros i Hi. destruct (Hd1 i Hi) as [C1 C2 C3 C4]. by split.
Qed.

(** ** Pulling rows *)

(** The end of [ExecMergeAppend]: which row is returned. *)
Lemma ma_report node q e :
  ready node q ->
  (ma_result node e = Ok (node, e, None) /\ remaining q = [] /\ bh_size (ms_heap node) = 0) \/
  (exists i r, ma_result node e = Ok (node, e, Some r) /\ binaryheap_empty (ms_heap node) = false /\
    binaryheap_first (ms_heap node) = Ok i /\ i ∈ V /\ live q i /\ zget (rows i) (q i - 1) = Some r /\
    forall y, y ∈ remaining q -> cle cmp r y).
Proof.
  intros Hrd. unfold ma_result. destruct (ready_result node q Hrd) as [[He Hr]|(He & i & r & Hf & Hi & Hl & Hr & Hs & Hmin)]; rewrite He.
  - left. split; [done|]. split; [done|]. by apply Z.eqb_eq.
  - right. exists i, r. rewrite Hf, rbind_ret, (aget_Ok _ _ _ Hs), rbind_ret. done.
Qed.

Definition fetchable (q : Z -> Z) (n : nat) : Prop :=
  forall i k, i ∈ V -> q i <= k < q i + Z.of_nat n -> within (lim i) k.

Local Abbreviation pull_ma := (@pull _ (merge_append_plan stale)).

(** From a node on row [r] of subplan [i], the next [n] rows are the [n]
    smallest of those that remain. *)
Lemma pull_rest n node q e i r :
  ready node q -> binaryheap_first (ms_heap node) = Ok i -> i ∈ V -> live q i ->
  binaryheap_empty (ms_heap node) = false -> zget (rows i) (q i - 1) = Some r ->
  es_direction e = ForwardScanDirection -> fetchable q n ->
  exists node' e' out, pull_ma n node e = Ok (node', e', out) /\ topn cmp (Z.of_nat n) (remaining (bump q i)) out.
Proof.
  revert node q e i r. induction n as [|n IH]; intros node q e i r Hrd Hf Hi Hl Hne Hr He Hlim.
  { exists node, e, []. split; [done|]. apply topn_0. }
  cbn [pull ExecProcNode merge_append_plan]. unfold ExecMergeAppend. rewrite (rd_init _ _ Hrd). cbn [negb andb].
  destruct (ma_next_ok node q e i r Hrd Hf Hi Hl Hne Hr He) as (n1 & e1 & -> & Hrd1 & _ & He1); [apply Hlim; [done|lia]|].
  rewrite rbind_ret. cbv iota beta.
  destruct (ma_report n1 (bump q i) e1 Hrd1) as [(-> & Hrem & _)|(j & r1 & -> & Hne1 & Hf1 & Hj & Hl1 & Hr1 & Hmin)]; rewrite rbind_ret.
  - exists n1, e1, []. split; [done|]. rewrite Hrem. by apply topn_nil.
  - destruct (IH n1 (bump q i) e1 j r1) as (n2 & e2 & out & -> & Htop); try done.
    + intros i' k Hi' Hk. apply Hlim; [done|]. destruct (decide (i' = i)) as [->|Hn]; [rewrite bump_eq in Hk; lia|rewrite bump_ne in Hk by done; lia].
    + rewrite rbind_ret. eexists _, _, _. split; [reflexivity|].
      replace (Z.of_nat (S n)) with (Z.of_nat n + 1) by lia. eapply (topn_cons cmp); [lia| |done|done].
      apply remaining_bump; [done| |done]. apply (ca_pos _ _ _ (rd_child _ _ Hrd1 j Hj)).
Qed.

Lemma merge_pull n node e :
  fresh node -> es_direction e = ForwardScanDirection ->
  (forall i k, i ∈ V -> 0 <= k < Z.of_nat n -> within (lim i) k) ->
  exists node' e' out, pull_ma n node e = Ok (node', e', out) /\
    topn cmp (Z.of_nat n) (concat (rows <$> V)) out.
Proof.
  intros Hfr He Hlim. destruct n as [|n].
  { exists node, e, []. split; [done|]. apply topn_0. }
  cbn [pull ExecProcNode merge_append_plan]. unfold ExecMergeAppend. rewrite (fr_init _ Hfr).
  destruct (Z.eqb_spec (ms_nplans node) 0) as [H0|_]; [by destruct (fr_nplans _ Hfr)|]. cbn [negb andb].
  destruct (ma_start_ok node e Hfr He) as (n1 & e1 & -> & Hrd1 & He1); [intros i Hi; apply Hlim; [done|lia]|].
  rewrite rbind_ret. cbv iota beta. rewrite <- remaining_first.
  destruct (ma_report n1 first_pos e1 Hrd1) as [(-> & Hrem & _)|(j & r1 & -> & Hne1 & Hf1 & Hj & Hl1 & Hr1 & Hmin)]; rewrite rbind_ret.
  - exists n1, e1, []. split; [done|]. rewrite Hrem. by apply topn_nil.
  - destruct (pull_rest n n1 first_pos e1 j r1) as (n2 & e2 & out & -> & Htop); try done.
    + intros i k Hi Hk. apply Hlim; [done|]. unfold first_pos in Hk. lia.
    + rewrite rbind_ret. eexists _, _, _. split; [reflexivity|].
      replace (Z.of_nat (S n)) with (Z.of_nat n + 1) by lia. eapply (topn_cons cmp); [lia| |done|done].
      apply remaining_bump; [done|unfold first_pos; lia|done].
Qed.
End merge.

(** ** From the start *)

(** The subplans that survive the pruning at start-up, by their numbers in the
    plan; a subplan of the node is a place in this list. *)
Definition surviving (prune : option PartitionPruneState) (n : Z) : list Z :=
  match prune with
  | Some st => if do_initial_prune st then initial_matches st else bms_range n
  | None => bms_range n
  end.

Definition member (valid : list Z) (j : Z) : Z := default 0 (zget valid j).

(** The places of the subplans that are run. *)
Definition run_members (prune : option PartitionPruneState) (n : Z) : list Z :=
  match prune with
  | Some st => if do_exec_prune st then exec_matches st else bms_range (zlen (surviving prune n))
  | None => bms_range n
  end.

(** The subplans that are run, by their numbers in the plan. *)
Definition participants (prune : option PartitionPruneState) (n : Z) : list Z :=
  member (surviving prune n) <$> run_members prune n.

(** Pruning answers sets of subplan numbers. *)
Record prune_ok (prune : option PartitionPruneState) (n : Z) : Prop := {
  po_initial : NoDup (surviving prune n) /\ Forall (fun i => 0 <= i < n) (surviving prune n);
  po_exec : NoDup (run_members prune n) /\
    Forall (fun j => 0 <= j < zlen (surviving prune n)) (run_members prune n)
}.

Lemma set_of_places (l : list Z) n : NoDup l -> 0 <= n -> Forall (fun j => 0 <= j < n) l -> zlen l <= n.
Proof.
  intros Hnd Hn Hb. assert (Hsub : l ⊆+ bms_range n).
  { apply NoDup_submseteq; [done|]. intros x Hx. apply elem_of_seqZ. rewrite Forall_forall in Hb. specialize (Hb x Hx). lia. }
  apply submseteq_length in Hsub. unfold bms_range in Hsub. rewrite length_seqZ in Hsub. unfold zlen. lia.
Qed.

Lemma bms_range_ok n : NoDup (bms_range n) /\ Forall (fun j => 0 <= j < n) (bms_range n).
Proof.
  split; [apply NoDup_seqZ|]. apply Forall_forall. intros x Hx. apply elem_of_seqZ in Hx. lia.
Qed.

Lemma zlen_bms_range n : 0 <= n -> zlen (bms_range n) = n.
Proof. intros. unfold zlen, bms_range. rewrite length_seqZ. lia. Qed.

Lemma init_plans_ok {P} (plans : list P) valid :
  Forall (fun i => 0 <= i < zlen plans) valid ->
  exists ps, init_plans plans valid = Ok ps /\ zlen ps = zlen valid /\
    forall j, 0 <= j < zlen valid -> zget ps j = zget plans (member valid j).
Proof.
  induction 1 as [|i valid Hi _ (ps & Hps & Hl & Hget)].
  - exists []. split; [done|]. split; [done|]. intros j Hj. change (zlen (@nil Z)) with 0 in Hj. lia.
  - destruct (zget_is_Some plans i Hi) as [p Hp]. exists (p :: ps). cbn [init_plans].
    rewrite (aget_Ok _ _ _ Hp), rbind_ret, Hps, rbind_ret, !zlen_cons, Hl. split; [done|]. split; [done|].
    intros j Hj. unfold member. destruct (Z.eq_dec j 0) as [->|Hne]; [done|].
    rewrite !zget_cons_pos by lia. apply Hget. lia.
Qed.

(** What the node is after start-up: its subplans are the surviving ones, and
    those to run are chosen now, unless pruning is left to the first call. *)
Lemma init_merge_append_run {P} garbage keys (plans : list P) prune :
  0 < zlen plans <= bh_max_capacity -> prune_ok prune (zlen plans) ->
  exists ps h v,
    ExecInitMergeAppend garbage keys plans prune =
      Ok (mk_ma ps (zlen (surviving prune (zlen plans))) keys
            (replicate (Z.to_nat (zlen (surviving prune (zlen plans)))) None) h false prune v) /\
    (bh_wf h /\ bh_size h = 0 /\ bh_space h = zlen (surviving prune (zlen plans))) /\
    (forall j, 0 <= j < zlen (surviving prune (zlen plans)) ->
       zget ps j = zget plans (member (surviving prune (zlen plans)) j)) /\
    (v = run_members prune (zlen plans) /\ v <> [] \/
     v = [] /\ (zlen (surviving prune (zlen plans)) = 0 \/
                exists st, prune = Some st /\ exec_matches st = run_members prune (zlen plans))).
Proof.
  intros Hpl [[Hnd Hin] _]. set (valid := surviving prune (zlen plans)) in *.
  assert (Hlen : zlen valid <= zlen plans) by (apply set_of_places; [done|lia|done]).
  pose proof (zlen_nonneg valid) as Hnn.
  destruct (binaryheap_allocate_ok garbage (zlen valid)) as (h & Hh & Hwf & Hsz & Hsp); [lia|].
  destruct (init_plans_ok plans valid Hin) as (ps & Hps & _ & Hget).
  assert (Hrange : forall n, 0 < n -> bms_range n <> []).
  { intros n Hn Hr. apply (f_equal zlen) in Hr. rewrite zlen_bms_range in Hr by lia. change (zlen (@nil Z)) with 0 in Hr. lia. }
  exists ps, h. unfold ExecInitMergeAppend. destruct prune as [st|].
  - cbn [surviving] in valid. fold valid. cbv zeta beta iota.
    assert (Hassert : do_initial_prune st || (zlen valid >? 0) = true).
    { subst valid. destruct (do_initial_prune st); [done|]. rewrite zlen_bms_range by lia. apply Z.gtb_lt. lia. }
    rewrite Hassert, rbind_ret, Hh, rbind_ret, Hps, rbind_ret. eexists. split; [reflexivity|]. split; [done|]. split; [done|].
    cbn [run_members surviving]. fold valid. destruct (do_exec_prune st); cbn [negb andb]; [right; eauto|].
    destruct (Z.gtb_spec (zlen valid) 0); [left; split; [done|apply Hrange; lia]|right; split; [done|left; lia]].
  - cbv beta iota zeta. cbn [orb]. destruct (Z.gtb_spec (zlen plans) 0); [|lia].
    unfold valid in *. cbn [surviving] in *. rewrite zlen_bms_range in * by lia.
    rewrite rbind_ret, Hh, rbind_ret, Hps, rbind_ret. eexists. split; [reflexivity|]. split; [done|]. split; [done|].
    left. split; [done|apply Hrange; lia].
Qed.

Section from_init.
Context {P : Type} `{PlanState P} (stale : row) (keys : list SortSupportData) (Hkeys : keys_ok keys).
Context (plans : list P) (prune : option PartitionPruneState).
Context (rows : Z -> list row) (lim : Z -> option Z) (R : Z -> Z -> P -> Prop).
Context (Hplans : 0 < zlen plans <= bh_max_capacity) (Hprune : prune_ok prune (zlen plans)).
Context (Hchild : forall i p, zget plans i = Some p -> scrolls (rows i) (lim i) (R i) /\ R i 0 p).
Context (Hsorted : forall i, 0 <= i < zlen plans -> StronglySorted (cle (compare_keys keys)) (rows i)).

Local Abbreviation valid := (surviving prune (zlen plans)).
Local Abbreviation V := (run_members prune (zlen plans)).
Local Abbreviation at_place f := (fun j => f (member valid j)).

Lemma place_ok j : j ∈ V -> 0 <= j < zlen valid /\ 0 <= member valid j < zlen plans.
Proof.
  intros Hj. destruct Hprune as [[_ Hi] [_ He]]. rewrite Forall_forall in He. pose proof (He j Hj) as Hb.
  split; [done|]. destruct (zget_is_Some valid j Hb) as [i Hz]. unfold member. rewrite Hz. cbn [default from_option id].
  rewrite Forall_forall in Hi. apply Hi. by apply (zget_elem _ j).
Qed.

Lemma init_merge_append_fresh garbage :
  exists node, ExecInitMergeAppend garbage keys plans prune = Ok node /\
    ((ms_initialized node = false /\ ms_nplans node = 0 /\ V = []) \/ fresh keys V (at_place R) node).
Proof.
  destruct (init_merge_append_run garbage keys plans prune Hplans Hprune) as (ps & h & v & -> & (Hwf & Hsz & Hsp) & Hget & Hv).
  destruct (po_exec _ _ Hprune) as [Hnd' Hex]. pose proof (zlen_nonneg valid) as Hnn.
  pose proof (set_of_places V (zlen valid) Hnd' Hnn Hex) as Hroom.
  eexists. split; [reflexivity|]. cbn [ms_initialized ms_nplans]. destruct (Z.eq_dec (zlen valid) 0) as [H0|H0].
  { left. split; [done|]. split; [done|]. pose proof (zlen_nonneg V). apply zlen_0_inv. lia. }
  right. split; cbn; try done; [| |by rewrite Hsp].
  - destruct Hv as [[-> Hne]|[-> [?|(st & -> & Hst)]]]; [by left|done|right; split; [done|by exists st]].
  - intros j Hj. destruct (place_ok j Hj) as [Hjb Hmb].
    assert (zlen (replicate (Z.to_nat (zlen valid)) (@None row)) = zlen valid) as ->
      by (unfold zlen at 1; rewrite length_replicate; lia).
    split; [done|].
    destruct (zget_is_Some plans (member valid j) Hmb) as [p Hp]. exists p. rewrite Hget by done.
    split; [done|]. by apply Hchild.
Qed.

Lemma merge_append_run garbage n e :
  es_direction e = ForwardScanDirection ->
  (forall i k, 0 <= i < zlen plans -> 0 <= k < Z.of_nat n -> within (lim i) k) ->
  exists node node' e' out, ExecInitMergeAppend garbage keys plans prune = Ok node /\
    @pull _ (merge_append_plan stale) n node e = Ok (node', e', out) /\
    topn (compare_keys keys) (Z.of_nat n) (concat (rows <$> participants prune (zlen plans))) out.
Proof.
  intros He Hlim. destruct (init_merge_append_fresh garbage) as (node & Hinit & Hnode). exists node.
  unfold participants. rewrite <- list_fmap_compose. change (rows ∘ member valid) with (at_place rows).
  destruct Hnode as [(Hin & H0 & ->)|Hfr].
  - destruct n as [|n]; [exists node, e, []; split; [done|]; split; [done|]; apply topn_0; apply (compare_keys_ok _ Hkeys)|].
    exists node, e, []. split; [done|]. split; [|by apply topn_nil; lia].
    cbn [pull ExecProcNode merge_append_plan]. unfold ExecMergeAppend. by rewrite Hin, H0.
  - destruct (merge_pull stale keys Hkeys V (at_place rows) (at_place lim) (at_place R)) with (n := n) (node := node) (e := e)
      as (node' & e' & out & Hp & Ht); try done.
    + apply Hprune.
    + intros i Hi. destruct (place_ok i Hi) as [_ Hm]. destruct (zget_is_Some _ _ Hm) as [p Hp]. by apply (Hchild _ p).
    + intros i Hi. apply Hsorted. by apply place_ok.
    + intros i k Hi Hk. apply Hlim; [by apply place_ok|done].
    + by exists node', e', out.
Qed.
End from_init.

(** ** Bounds pushed into the subplans *)

Section bounds.
Context {P : Type} `{PlanState P}.

(** A subplan that is asked for [b] rows only is the list of its first [b]. *)
Lemma scrolls_truncate out b R :
  0 < b -> scrolls out (sort_lim true b out) R ->
  scrolls (ztake b out) (Some b) (fun q (p : P) => R q p /\ q <= b).
Proof.
  intros Hb [Hrange Hnext Hprior]. pose proof (zlen_nonneg out) as Hz.
  assert (Hget : forall k, k < b -> zget (ztake b out) k = zget out k).
  { intros k Hk. destruct (Z.ltb_spec k 0); [by rewrite !zget_None by lia|]. by apply zget_ztake. }
  assert (Hpos : forall q, q < b -> next_pos (ztake b out) q = next_pos out q).
  { intros q Hq. unfold next_pos. rewrite zlen_ztake_min by lia. lia. }
  split.
  - intros q p [HR Hq]. pose proof (Hrange q p HR). rewrite zlen_ztake_min by lia. lia.
  - intros q p e [HR Hq] He Hw. cbn in Hw. destruct (Hnext q p e HR He) as (p' & e' & -> & He' & HR'); [by apply sort_lim_first|].
    rewrite Hpos, Hget by (unfold next_pos; lia). exists p', e'. do 3 (split; [done|]). unfold next_pos. lia.
  - intros q p e [HR Hq] He. destruct (Hprior q p e HR He) as (p' & e' & -> & He' & HR').
    pose proof (Hrange q p HR). rewrite Hget by (unfold prior_pos; lia). exists p', e'. do 3 (split; [done|]). unfold prior_pos. lia.
Qed.

Lemma init_plans_fmap (f : P -> P) plans members ps :
  init_plans plans members = Ok ps -> init_plans (f <$> plans) members = Ok (f <$> ps).
Proof.
  revert ps. induction members as [|i members IH]; intros ps; cbn [init_plans]; [by intros [= <-]|].
  unfold aget. rewrite zget_fmap. destruct (zget plans i) as [p|]; [|done]. cbn [fmap option_fmap option_map]. rewrite !rbind_ret.
  destruct (init_plans plans members) as [qs| | |]; try done. rewrite rbind_ret. intros [= <-]. by rewrite (IH qs eq_refl), rbind_ret.
Qed.

(** Bounding the node's subplans is initializing it with bounded subplans. *)
Lemma init_set_bound garbage keys (plans : list P) prune node b :
  ExecInitMergeAppend garbage keys plans prune = Ok node ->
  ExecInitMergeAppend garbage keys (ExecSetTupleBound b <$> plans) prune = Ok (ma_set_bound b node).
Proof.
  unfold ExecInitMergeAppend. assert (zlen (ExecSetTupleBound b <$> plans) = zlen plans) as -> by (unfold zlen; by rewrite length_fmap).
  set (choice := match prune with Some _ => _ | None => _ end). destruct choice as [[nplans valid] v].
  destruct (_ || _); [rewrite !rbind_ret|done]. destruct (binaryheap_allocate garbage nplans) as [h| | |]; try done. rewrite !rbind_ret.
  destruct (init_plans plans valid) as [ps| | |] eqn:Hps; try done. rewrite rbind_ret. intros [= <-].
  by rewrite (init_plans_fmap _ _ _ _ Hps), rbind_ret.
Qed.

(** Choosing a value for each of finitely many numbers. *)
Lemma choose_upto {X} (x0 : X) (Q : Z -> X -> Prop) n :
  (forall i, 0 <= i < n -> exists x, Q i x) -> exists f, forall i, 0 <= i < n -> Q i (f i).
Proof.
  intros HQ. destruct (Z.le_gt_cases n 0) as [Hn|Hn]; [exists (fun _ => x0); lia|].
  revert HQ. pattern n. apply Zlt_0_ind; [|lia]. clear n Hn. intros n IH Hn HQ.
  destruct (Z.eq_dec n 0) as [->|Hn0]; [exists (fun _ => x0); lia|].
  destruct (IH (n - 1)) as [f Hf]; [lia|intros i Hi; apply HQ; lia|]. destruct (HQ (n - 1)) as [x Hx]; [lia|].
  exists (fun i => if decide (i = n - 1) then x else f i). intros i Hi.
  destruct (decide (i = n - 1)) as [->|]; [done|]. apply Hf. lia.
Qed.
End bounds.

(** ** Properties *)

(** C13. MergeAppend merges.  Whatever pruning decides at start-up and at run
    time, a MergeAppend over subplans that deliver ordered rows returns, in the
    first [n] calls, the answer of ORDER BY ... LIMIT n over all the rows of
    the subplans that take part, and no row of another: in order, none lost,
    none twice, the empty slot when they are exhausted. *)
Theorem merge_append_merges {P} `{PlanState P} stale garbage keys (plans : list P) prune rows lim R n e :
  keys_ok keys -> 0 < zlen plans <= bh_max_capacity -> prune_ok prune (zlen plans) ->
  (forall i p, zget plans i = Some p -> scrolls (rows i) (lim i) (R i) /\ R i 0 p) ->
  (forall i, 0 <= i < zlen plans -> StronglySorted (cle (compare_keys keys)) (rows i)) ->
  (forall i k, 0 <= i < zlen plans -> 0 <= k < Z.of_nat n -> within (lim i) k) ->
  es_direction e = ForwardScanDirection ->
  exists node node' e' out, ExecInitMergeAppend garbage keys plans prune = Ok node /\
    @pull _ (merge_append_plan stale) n node e = Ok (node', e', out) /\
    topn (compare_keys keys) (Z.of_nat n) (concat (rows <$> participants prune (zlen plans))) out.
Proof. intros Hk Hp Hpr Hch Hs Hlim He. by apply (merge_append_run stale keys Hk plans prune rows lim R Hp Hpr Hch Hs garbage n e). Qed.

Definition demo_lists : list (list row) :=
  [int_row <$> [1; 5; 9]; int_row <$> [0; 2]; int_row <$> []; int_row <$> [3; 4; 4; 8]].
Definition demo_children : list CursorPlan := (fun l => (l, 0)) <$> demo_lists.

(** The second subplan is pruned at start-up, the third (then second) at run
    time. *)
Definition demo_prune : PartitionPruneState := mk_prune true true [0; 2; 3] [0; 2].

Lemma merge_append_merges_witness :
  exists node node' e' out, ExecInitMergeAppend (fun _ => 7) [int_key] demo_children (Some demo_prune) = Ok node /\
    @pull _ (merge_append_plan (int_row 0)) 5 node forward_estate = Ok (node', e', out) /\
    topn (compare_keys [int_key]) 5 (int_row <$> [1; 5; 9; 3; 4; 4; 8]) out.
Proof.
  apply (merge_append_merges (int_row 0) (fun _ => 7) [int_key] demo_children (Some demo_prune)
           (fun i => default [] (zget demo_lists i)) (fun _ => None)
           (fun i => cursor_at (default [] (zget demo_lists i))) 5 forward_estate).
  - apply int_key_wf.
  - change (zlen demo_children) with 4. unfold bh_max_capacity. lia.
  - split; split; apply (bool_decide_unpack _); vm_compute; exact I.
  - intros i p Hp. unfold demo_children in Hp. rewrite zget_fmap in Hp.
    destruct (zget demo_lists i) as [l|]; [|done]. injection Hp as <-. split; [apply cursor_plan_scrolls|].
    split; [done|]. pose proof (zlen_nonneg l). cbn. lia.
  - intros i Hi. assert (Hc : i = 0 \/ i = 1 \/ i = 2 \/ i = 3) by (change (zlen demo_children) with 4 in Hi; lia).
    destruct Hc as [-> | [-> | [-> | ->]]]; vm_compute;
      repeat (constructor; [|repeat (constructor; [discriminate|]); constructor]); constructor.
  - done.
  - reflexivity.
Defined.

(** C14. The bound of a Limit goes through a MergeAppend to the Sorts below it,
    each of which may stop early when its index is in order.  If the scan below
    every Sort delivers its rows and flags in relaxed monotone order (so that a
    flag left up by another subplan is excluded) and each Sort has memory for
    [b] rows, with [b] at most 510, fetching the [b] rows the bound allows still
    gives the answer of ORDER BY ... LIMIT b over everything that the scans of
    the subplans taking part, those that pruning leaves, hold. *)
Theorem merge_append_bounded_exact {P} `{PlanState P} E `{!SortEnvOk E} fuel stale garbage keys
    (plans : list (SortState P)) prune wm b c (rows : Z -> list (row * bool)) e :
  keys_wf keys -> 0 < zlen plans <= bh_max_capacity -> prune_ok prune (zlen plans) ->
  (forall i p, zget plans i = Some p ->
     sort_fresh (sort_set_bound b p) keys wm b /\ delivers (sort_outer p) (rows i) /\
     (length (rows i) < fuel)%nat /\ topn_budget wm b c ((rows i).*1) /\
     relaxed_monotone (tcmp keys) b (rows i)) ->
  es_direction e = ForwardScanDirection ->
  let child := sort_plan E fuel in
  exists node node' e' out,
    ExecInitMergeAppend garbage (disable_abbrev_keys keys) plans prune = Ok node /\
    @pull _ (@merge_append_plan _ child stale) (Z.to_nat b) (@ma_set_bound _ child b node) e = Ok (node', e', out) /\
    topn (tcmp keys) b (concat ((fun i => (rows i).*1) <$> participants prune (zlen plans))) out.
Proof.
  intros Hwf Hpl Hpr Hch He child. pose proof (tcmp_ok _ Hwf) as Hcmp.
  destruct (init_merge_append_run garbage (disable_abbrev_keys keys) plans prune Hpl Hpr) as (ps & h & v & Hinit & _).
  eexists. rewrite Hinit. set (node := mk_ma _ _ _ _ _ _ _ _) in *. apply (init_set_bound (H := child)) with (b := b) in Hinit.
  assert (Hb : 0 < b).
  { destruct (zget_is_Some plans 0) as [p Hp]; [lia|]. destruct (Hch 0 p Hp) as (_ & _ & _ & Hbud & _). pose proof (tb_bound _ _ _ _ Hbud). lia. }
  destruct (choose_upto ([], fun _ _ => True) (fun i (x : list row * (Z -> SortState P -> Prop)) => forall p, zget plans i = Some p ->
    @scrolls _ child (ztake b x.1) (Some b) x.2 /\ x.2 0 (sort_set_bound b p) /\ StronglySorted (cle (tcmp keys)) x.1 /\
    topn (tcmp keys) b ((rows i).*1) (ztake b x.1)) (zlen plans)) as [f Hf].
  { intros i Hi. destruct (zget_is_Some plans i Hi) as [p Hp]. destruct (Hch i p Hp) as (Hfr & Hdel & Hfu & Hbud & Hmono).
    destruct (sort_scrolls E fuel (sort_set_bound b p) keys wm b c (rows i) Hfr Hwf Hbud) as (out & R & Hsc & HR & Hs & Htop & _); [by unfold sort_set_bound; destruct (b <? 0)|done|].
    exists (out, fun q p => R q p /\ q <= b). intros p' Hp'. rewrite Hp in Hp'. injection Hp' as <-.
    split; [by apply scrolls_truncate|]. split; [split; [done|lia]|]. split; [done|]. apply consumed_topn; [done|lia|done|done]. }
  assert (Hlen : zlen (@ExecSetTupleBound _ child b <$> plans) = zlen plans) by (unfold zlen; by rewrite length_fmap).
  destruct (merge_append_run (H := child) stale (disable_abbrev_keys keys) (kw_ok _ (keys_wf_disable _ Hwf)) (ExecSetTupleBound b <$> plans) prune
    (fun i => ztake b (f i).1) (fun _ => Some b) (fun i => (f i).2)) with (garbage := garbage) (n := Z.to_nat b) (e := e)
    as (n1 & node' & e' & out & Hinit1 & Hpull & Htop); rewrite ?Hlen; try done.
  - intros i p. rewrite zget_fmap. destruct (zget plans i) as [p0|] eqn:Hp0; [|done]. intros [= <-].
    destruct (Hf i (zget_bounds _ _ _ Hp0) p0 Hp0) as (H1 & H2 & _). done.
  - intros i Hi. destruct (zget_is_Some plans i Hi) as [p Hp]. destruct (Hf i Hi p Hp) as (_ & _ & H3 & _).
    rewrite <- (ztake_zdrop b) in H3. by apply StronglySorted_app_inv_l in H3 as [? _].
  - intros i k _ Hk. cbn. lia.
  - rewrite Hinit in Hinit1. injection Hinit1 as <-. exists node', e', out. split; [done|]. split; [done|].
    rewrite Hlen, Z2Nat.id in Htop by lia. eapply (topn_concat (tcmp keys)); [lia| |exact Htop].
    unfold participants. rewrite <- !list_fmap_compose. apply Forall2_fmap, Forall_Forall2_diag, Forall_forall. intros j Hj.
    destruct (place_ok plans prune Hpr j Hj) as [_ Hm]. destruct (zget_is_Some plans _ Hm) as [p Hp]. by apply (Hf _ Hm p Hp).
Qed.

(** Two partitions with an index each; the second index is in order from its
    third row on. *)
Definition demo_partitions : list (list (row * bool)) :=
  [demo_rows; zip (int_row <$> [6; 4; 8; 10]) [false; false; true; true]].
Definition demo_sorts : list (SortState ListPlan) :=
  (fun l => ExecInitSort [int_key] 4096 0 (l : ListPlan)) <$> demo_partitions.

Lemma merge_append_bounded_exact_witness :
  let child := sort_plan merge_env 20 in
  exists node node' e' out,
    ExecInitMergeAppend (fun _ => 7) [int_key] demo_sorts None = Ok node /\
    @pull _ (@merge_append_plan _ child (int_row 0)) 2 (@ma_set_bound _ child 2 node) forward_estate = Ok (node', e', out) /\
    topn (tcmp [int_key]) 2 (int_row <$> [5; 1; 3; 2; 7; 9; 8; 6; 4; 8; 10]) out.
Proof.
  apply (merge_append_bounded_exact merge_env 20 (int_row 0) (fun _ => 7) [int_key] demo_sorts None 4096 2 48
           (fun i => default [] (zget demo_partitions i)) forward_estate).
  - apply int_key_wf.
  - change (zlen demo_sorts) with 2. unfold bh_max_capacity. lia.
  - split; split; apply (bool_decide_unpack _); vm_compute; exact I.
  - intros i p Hp. pose proof (zget_bounds _ _ _ Hp) as Hi. change (zlen demo_sorts) with 2 in Hi.
    assert (Hc : i = 0 \/ i = 1) by lia. destruct Hc as [-> | ->]; injection Hp as <-;
      (split; [by split|]); (split; [apply list_plan_delivers|]); (split; [apply (bool_decide_unpack _); vm_compute; exact I|]).
    + split; [apply demo_budget|]. apply relaxed_monotone_b_ok. vm_compute. reflexivity.
    + split; [split; [lia| |vm_compute; discriminate]|apply relaxed_monotone_b_ok; vm_compute; reflexivity].
      repeat (constructor; [vm_compute; discriminate|]). constructor.
  - reflexivity.
Defined.

(** ** The flag left behind by another subplan

    [is_index_inorder] belongs to the whole query and only an index scan
    writes it. *)

(** A subplan that is no index scan: it leaves the execution state alone. *)
Record HeapPlan := mk_heap_plan { heap_rows : list row }.

Definition SubPlan : Type := ListPlan + HeapPlan.

#[export] Instance sub_plan : PlanState SubPlan := {|
  ExecProcNode := fun p e =>
    match p with
    | inl l => do! ' (l, e, r) <- ExecProcNode l e ;; Ok (inl l, e, r)
    | inr (mk_heap_plan []) => Ok (inr (mk_heap_plan []), e, None)
    | inr (mk_heap_plan (r :: l)) => Ok (inr (mk_heap_plan l), e, Some r)
    end;
  ExecReScan := fun p e => Ok (p, e);
  ExecSetTupleBound := fun _ p => p
|}.

Definition mixed_sorts : list (SortState SubPlan) :=
  ExecInitSort [int_key] 4096 0 <$> [inl demo_rows; inr (mk_heap_plan (int_row <$> [6; 4; 0]))].

(** A partition with an index before one without: the index leaves the flag
    up, the Sort over the other partition stops after two rows, and its best
    row is lost. *)
Example stale_inorder_flag_loses_rows :
  let child := sort_plan merge_env 20 in
  exists node node' e',
    ExecInitMergeAppend (fun _ => 7) [int_key] mixed_sorts None = Ok node /\
    @pull _ (@merge_append_plan _ child (int_row 0)) 2 (@ma_set_bound _ child 2 node) forward_estate =
      Ok (node', e', int_row <$> [1; 2]) /\
    ~ topn (tcmp [int_key]) 2 (demo_rows.*1 ++ (int_row <$> [6; 4; 0])) (int_row <$> [1; 2]).
Proof.
  eexists _, _, _. split; [vm_compute; reflexivity|]. split; [vm_compute; reflexivity|].
  intros (_ & _ & rest & Hp & Hle).
  assert (Hin : int_row 0 ∈ (int_row <$> [1; 2]) ++ rest).
  { rewrite <- Hp. apply elem_of_app. right. by do 2 right; left. }
  apply elem_of_app in Hin as [Hin|Hin].
  - apply list_elem_of_fmap in Hin as (z & Hz & Hin). apply (f_equal (fun r => fst (heap_getattr r 1))) in Hz. vm_compute in Hz.
    subst z. revert Hin. by apply (bool_decide_unpack (0 ∉ [1; 2])).
  - specialize (Hle (int_row 1) (int_row 0) ltac:(by left) Hin). vm_compute in Hle. by destruct Hle.
Qed.
