(* ===== verification/IndexAm.v ===== *)
(** * access/index/indexam.c and access/index/genam.c

    The executor's side of an index scan.  The scan descriptor is shared by
    the executor and the index access method: the method fills in the heap
    position of the next entry, the ORDER BY values it knows, and VBASE's
    [xs_inorder]; what it does not write keeps its old contents.  The access
    method and the table are classes of operations. *)

From Stdlib Require Import ZArith Lia.
From stdpp Require Import base list sorting strings.
From S2P Require Import Prelude SortSupport Executor.

Local Open Scope Z_scope.

Definition ItemPointer : Type := Z.

(** [S] is what the access method hangs below [opaque]. *)
Record IndexScanDescData (S : Type) := mk_scan {
  kill_prior_tuple : bool;
  xactStartedInRecovery : bool;
  opaque : S;
  xs_heaptid_orig : ItemPointer;
  xs_heaptid : ItemPointer;
  xs_heap_continue : bool;
  xs_recheck : bool;
  xs_orderbyvals : list (option Datum);
  xs_recheckorderby : bool;
  xs_inorder : bool
}.
Arguments mk_scan {S}.
Arguments kill_prior_tuple {S}.
Arguments xactStartedInRecovery {S}.
Arguments opaque {S}.
Arguments xs_heaptid_orig {S}.
Arguments xs_heaptid {S}.
Arguments xs_heap_continue {S}.
Arguments xs_recheck {S}.
Arguments xs_orderbyvals {S}.
Arguments xs_recheckorderby {S}.
Arguments xs_inorder {S}.

(** ** The scan keys of a descriptor *)

(** [keyData] or [orderByData]: a null pointer without keys of that kind;
    otherwise [RelationGetIndexScan] allocates the space, which is filled by a
    rescan that passes keys.  A key is NULL or has a value. *)
Inductive key_space (V : Type) := NoKeys | Unfilled | Filled (k : option V).
Arguments NoKeys {V}.
Arguments Unfilled {V}.
Arguments Filled {V}.

(** Keys as they are passed: a null pointer, or the first key. *)
Definition num_keys {V} (keys : option (option V)) : Z := match keys with Some _ => 1 | None => 0 end.

(** [if (nkeys > 0) palloc(...) else NULL]. *)
Definition key_workspace {V} (nkeys : Z) : key_space V := if nkeys >? 0 then Unfilled else NoKeys.

(** [if (keys && scan->numberOfKeys > 0) memmove(...)]. *)
Definition fill_keys {V} (space : key_space V) (keys : option (option V)) : key_space V :=
  match space, keys with
  | NoKeys, _ | _, None => space
  | _, Some k => Filled k
  end.

Lemma fill_workspace {V} (keys : option (option V)) :
  fill_keys (key_workspace (num_keys keys)) keys = match keys with Some k => Filled k | None => NoKeys end.
Proof. by destruct keys. Qed.

(** The index access method; [K] is the type of its scan keys.  Of the keys
    [ambeginscan] is only told how many there are. *)
Class IndexAmRoutine (S K : Type) := {
  ambeginscan : K -> bool -> IndexScanDescData S -> IndexScanDescData S;
  amrescan : K -> IndexScanDescData S -> res (IndexScanDescData S);
  amgettuple : IndexScanDescData S -> ScanDirection -> res (IndexScanDescData S * bool)
}.

(** What [table_index_fetch_tuple] hands back. *)
Record fetch_result := mk_fetch {
  f_slot : option row;
  f_tid : ItemPointer;
  f_call_again : bool;
  f_all_dead : bool
}.

Class TableAmRoutine := {
  index_fetch_tuple : ItemPointer -> bool -> fetch_result
}.

(** [palloc] leaves [mem] in the fields that are not assigned, [xs_inorder]
    and [xs_recheck] among them. *)
Definition RelationGetIndexScan {S} (null : S) (recovery : bool) (mem : IndexScanDescData S)
    : IndexScanDescData S :=
  mk_scan false recovery null (xs_heaptid_orig mem) (xs_heaptid mem) (xs_heap_continue mem)
    (xs_recheck mem) (xs_orderbyvals mem) (xs_recheckorderby mem) (xs_inorder mem).

Section index_am.
Context {S K : Type} `{IndexAmRoutine S K} `{TableAmRoutine}.
Implicit Types (scan : IndexScanDescData S).

(** [keys] stands for the numbers of keys. *)
Definition index_beginscan (keys : K) (recovery : bool) (mem : IndexScanDescData S) : IndexScanDescData S :=
  ambeginscan keys recovery mem.

Definition reset_fetch scan : IndexScanDescData S :=
  mk_scan false (xactStartedInRecovery scan) (opaque scan) (xs_heaptid_orig scan)
    (xs_heaptid scan) false (xs_recheck scan) (xs_orderbyvals scan) (xs_recheckorderby scan)
    (xs_inorder scan).

Definition index_rescan scan (keys : K) : res (IndexScanDescData S) :=
  amrescan keys (reset_fetch scan).

Definition index_getnext_tid scan (direction : ScanDirection)
    : res (IndexScanDescData S * option ItemPointer) :=
  do! ' (scan, found) <- amgettuple scan direction ;;
  let scan := reset_fetch scan in
  if found then Ok (scan, Some (xs_heaptid scan)) else Ok (scan, None).

Definition index_fetch_heap scan : IndexScanDescData S * option row :=
  let r := index_fetch_tuple (xs_heaptid scan) (xs_heap_continue scan) in
  let kill :=
    if negb (xactStartedInRecovery scan) then f_all_dead r else kill_prior_tuple scan in
  (mk_scan kill (xactStartedInRecovery scan) (opaque scan) (xs_heaptid_orig scan) (f_tid r)
     (f_call_again r) (xs_recheck scan) (xs_orderbyvals scan) (xs_recheckorderby scan)
     (xs_inorder scan), f_slot r).

Definition save_heaptid scan : IndexScanDescData S :=
  mk_scan (kill_prior_tuple scan) (xactStartedInRecovery scan) (opaque scan) (xs_heaptid scan)
    (xs_heaptid scan) (xs_heap_continue scan) (xs_recheck scan) (xs_orderbyvals scan)
    (xs_recheckorderby scan) (xs_inorder scan).

(** [n] bounds the entries whose heap tuple is not visible. *)
Fixpoint index_getnext_slot (n : nat) scan (direction : ScanDirection)
    : res (IndexScanDescData S * option row) :=
  match n with
  | O => NoFuel
  | Datatypes.S n =>
    do! ' (scan, tid) <-
      (if negb (xs_heap_continue scan) then index_getnext_tid scan direction
       else Ok (scan, Some (xs_heaptid scan))) ;;
    match tid with
    | None => Ok (scan, None)
    | Some _ =>
      let '(scan, slot) := index_fetch_heap (save_heaptid scan) in
      match slot with
      | Some r => Ok (scan, Some r)
      | None => index_getnext_slot n scan direction
      end
    end
  end.
End index_am.

(** ** What an index scan delivers *)

(** An index entry as the executor sees it. *)
Record ientry := mk_ientry {
  ie_tid : ItemPointer;
  ie_recheck : bool;
  ie_vals : list (option Datum);
  ie_recheckorderby : bool;
  ie_inorder : bool
}.

Definition entry_of {S} (scan : IndexScanDescData S) : ientry :=
  mk_ientry (xs_heaptid scan) (xs_recheck scan) (xs_orderbyvals scan) (xs_recheckorderby scan)
    (xs_inorder scan).

Section deliver.
Context {S K : Type} `{AM : IndexAmRoutine S K} `{TA : TableAmRoutine}.
Implicit Types (scan : IndexScanDescData S) (l : list ientry).

(** Equal in everything the access method owns. *)
Definition am_same scan scan' : Prop :=
  opaque scan = opaque scan' /\ xs_recheck scan = xs_recheck scan' /\
  xs_orderbyvals scan = xs_orderbyvals scan' /\
  xs_recheckorderby scan = xs_recheckorderby scan' /\ xs_inorder scan = xs_inorder scan'.

(** The access method hands out the entries [l], then reports the end, no
    matter what the executor does with its own fields in between. *)
Fixpoint am_delivers scan l : Prop :=
  match l with
  | [] => forall scan', am_same scan scan' ->
      exists s2, amgettuple scan' ForwardScanDirection = Ok (s2, false)
  | e :: l => forall scan', am_same scan scan' ->
      exists s2, amgettuple scan' ForwardScanDirection = Ok (s2, true) /\ entry_of s2 = e /\
        am_delivers s2 l
  end.

(** The table sees at most one visible tuple per entry (an MVCC snapshot). *)
Definition mvcc : Prop := forall tid c, f_call_again (index_fetch_tuple tid c) = false.

(** The row of an entry, if it is visible. *)
Definition heap_row (e : ientry) : option row := f_slot (index_fetch_tuple (ie_tid e) false).

Definition visible l : list (ientry * row) := omap (fun e => (e,.) <$> heap_row e) l.

Lemma visible_cons e l :
  visible (e :: l) = match heap_row e with Some r => (e, r) :: visible l | None => visible l end.
Proof. unfold visible. cbn. by destruct (heap_row e). Qed.

Lemma length_visible l : (length (visible l) <= length l)%nat.
Proof.
  unfold visible. induction l as [|e l IH]; cbn; [lia|]. destruct (heap_row e); cbn; lia.
Qed.

(** A descriptor from which the rows [vl] will be fetched. *)
Definition scan_at (n : nat) scan (vl : list (ientry * row)) : Prop :=
  exists l, am_delivers scan l /\ visible l = vl /\ (length l + 1 < n)%nat /\
    xs_heap_continue scan = false.

Lemma am_same_sym scan scan' : am_same scan scan' -> am_same scan' scan.
Proof. unfold am_same. naive_solver. Qed.

Lemma am_same_trans s1 s2 s3 : am_same s1 s2 -> am_same s2 s3 -> am_same s1 s3.
Proof. unfold am_same. intuition congruence. Qed.

Lemma am_delivers_same scan scan' l : am_same scan scan' -> am_delivers scan l -> am_delivers scan' l.
Proof.
  intros Hs. destruct l as [|e l]; cbn; intros Hd s2 Hs2; apply Hd; by eapply am_same_trans.
Qed.

(** An invariant of the calls. *)
Lemma am_delivers_inv (At : IndexScanDescData S -> list ientry -> Prop) scan l :
  (forall s s' l, am_same s s' -> At s l -> At s' l) ->
  (forall s l, At s l ->
     match l with
     | [] => exists s2, amgettuple s ForwardScanDirection = Ok (s2, false)
     | en :: l => exists s2, amgettuple s ForwardScanDirection = Ok (s2, true) /\
         entry_of s2 = en /\ At s2 l
     end) ->
  At scan l -> am_delivers scan l.
Proof.
  intros Hsame Hstep. revert scan. induction l as [|en l IH]; intros scan Hat s Hs;
    pose proof (Hstep s _ (Hsame _ _ _ Hs Hat)) as Hcall; [done|].
  destruct Hcall as (s2 & Hg & He & Hat2). eauto.
Qed.

(** A scan whose first call behaves as that of a started one. *)
Lemma am_delivers_start scan scan1 l :
  (forall s, am_same scan s -> exists s1, am_same scan1 s1 /\
     amgettuple s ForwardScanDirection = amgettuple s1 ForwardScanDirection) ->
  am_delivers scan1 l -> am_delivers scan l.
Proof.
  intros Hs Hd. destruct l as [|en l]; cbn in Hd |- *; intros s Hsame;
    destruct (Hs s Hsame) as (s1 & Hs1 & Heq); rewrite Heq; by apply Hd.
Qed.

(** One fetch from the index and the table. *)
Lemma index_getnext_slot_ok n scan vl :
  mvcc -> scan_at n scan vl ->
  match vl with
  | [] => exists s2, index_getnext_slot n scan ForwardScanDirection = Ok (s2, None)
  | (e, r) :: vl => exists s2,
      index_getnext_slot n scan ForwardScanDirection = Ok (s2, Some r) /\ scan_at n s2 vl /\
      xs_recheck s2 = ie_recheck e /\ xs_orderbyvals s2 = ie_vals e /\
      xs_recheckorderby s2 = ie_recheckorderby e /\ xs_inorder s2 = ie_inorder e /\
      xs_heaptid_orig s2 = ie_tid e
  end.
Proof.
  intros Hm (l & Hd & Hv & Hn & Hc).
  assert (Hgen : forall m, (length l < m)%nat -> (length l + 1 < n)%nat ->
    match vl with
    | [] => exists s2, index_getnext_slot m scan ForwardScanDirection = Ok (s2, None)
    | (e, r) :: vl => exists s2,
        index_getnext_slot m scan ForwardScanDirection = Ok (s2, Some r) /\ scan_at n s2 vl /\
        xs_recheck s2 = ie_recheck e /\ xs_orderbyvals s2 = ie_vals e /\
        xs_recheckorderby s2 = ie_recheckorderby e /\ xs_inorder s2 = ie_inorder e /\
        xs_heaptid_orig s2 = ie_tid e
    end); [|apply Hgen; [lia|done]].
  clear Hn. revert scan Hd Hc vl Hv. induction l as [|e l IH]; intros scan Hd Hc vl Hv m Hm' Hn;
    (destruct m as [|m]; [cbn in Hm'; lia|]); cbn [index_getnext_slot]; rewrite Hc;
    cbn [negb]; unfold index_getnext_tid.
  - cbn in Hv. subst vl. destruct (Hd scan) as [s2 ->]; [done|]. cbn. by eexists.
  - destruct (Hd scan) as (s2 & -> & He & Hd2); [done|]. rewrite rbind_ret. cbv iota zeta.
    rewrite rbind_ret. unfold index_fetch_heap. cbn [xs_heaptid save_heaptid reset_fetch
      xs_heap_continue]. cbn in Hv.
    assert (Htid : xs_heaptid s2 = ie_tid e) by (by rewrite <- He).
    rewrite Htid. unfold heap_row in Hv.
    pose proof (Hm (ie_tid e) false) as Hca.
    destruct (f_slot (index_fetch_tuple (ie_tid e) false)) as [r|]; cbn in Hv.
    + subst vl. eexists. split; [done|]. subst e. split; [|done].
      exists l. cbn in Hn |- *. split; [|split; [done|split; [lia|done]]].
      by eapply am_delivers_same; [|exact Hd2].
    + cbn in Hm', Hn. apply (IH _); [|done|done|lia|lia].
      by eapply am_delivers_same; [|exact Hd2].
Qed.
End deliver.
