(* ===== verification/NodeIndexscan.v ===== *)
(** * executor/nodeIndexscan.c and executor/execScan.c

    An index scan node fetches rows through the index, rechecks them, puts
    them back in order when the index only knows lower bounds of the ORDER BY
    values (the reorder queue is a pairing heap), and copies the index's
    [xs_inorder] into the execution state, where the Sort node above reads
    it. *)

From Stdlib Require Import ZArith Lia.
From stdpp Require Import base list sorting strings gmap fin_maps.
From S2P Require Import Prelude SortSupport PairingHeap TuplesortCursor Executor IndexAm.

Local Open Scope Z_scope.

(** A row set aside with its recomputed ORDER BY values. *)
Record ReorderTuple := mk_reorder {
  htup : row;
  orderbyvals : list (option Datum)
}.

(** The value arrays have one entry per ORDER BY key; an absent value is NULL. *)
Fixpoint cmp_orderbyvals (keys : list SortSupportData) (adist bdist : list (option Datum)) : Z :=
  match keys with
  | [] => 0
  | ssup :: keys =>
    match hd None adist, hd None bdist with
    | None, Some _ => 1
    | Some _, None => -1
    | None, None => 0
    | Some a, Some b =>
      let result := comparator ssup a b in
      if negb (result =? 0) then result else cmp_orderbyvals keys (tail adist) (tail bdist)
    end
  end.

(** The tuple a queue pointer stands for. *)
Definition reorder_vals (tuples : gmap ptr ReorderTuple) (p : ptr) : list (option Datum) :=
  match tuples !! p with Some rt => orderbyvals rt | None => [] end.

(** Exchanged arguments: the pairing heap yields its greatest node first. *)
Definition reorderqueue_cmp (keys : list SortSupportData) (tuples : gmap ptr ReorderTuple)
    (a b : ptr) : Z :=
  cmp_orderbyvals keys (reorder_vals tuples b) (reorder_vals tuples a).

(** [S] is the access method's private state, [K] the scan keys. *)
Record IndexScanState (S K : Type) := mk_iss {
  indexorderdir : ScanDirection;
  iss_ScanKeys : K;
  iss_NumRuntimeKeys : Z;
  iss_RuntimeKeysReady : bool;
  iss_ScanDesc : option (IndexScanDescData S);
  iss_SortSupport : list SortSupportData;
  iss_OrderByValues : list (option Datum);
  iss_ReachedEnd : bool;
  iss_ReorderQueue : pairingheap;
  queue_links : store;
  queue_tuples : gmap ptr ReorderTuple
}.
Arguments mk_iss {S K}.
Arguments indexorderdir {S K}.
Arguments iss_ScanKeys {S K}.
Arguments iss_NumRuntimeKeys {S K}.
Arguments iss_RuntimeKeysReady {S K}.
Arguments iss_ScanDesc {S K}.
Arguments iss_SortSupport {S K}.
Arguments iss_OrderByValues {S K}.
Arguments iss_ReachedEnd {S K}.
Arguments iss_ReorderQueue {S K}.
Arguments queue_links {S K}.
Arguments queue_tuples {S K}.

Section node_indexscan.
Context {S K : Type} `{IndexAmRoutine S K} `{TableAmRoutine}.
(** The compiled expressions of the node. *)
Variable indexqualorig : row -> bool.
Variable indexorderbyorig : list (row -> option Datum).
Variable qual : option (row -> bool).
Variable projInfo : option (row -> row).
(** [ExecIndexEvalRuntimeKeys] on the scan keys. *)
Variable eval_runtime_keys : K -> K.
(** Recovery state, and the memory [index_beginscan] is given. *)
Variable recovery : bool.
Variable mem : IndexScanDescData S.
(** Unrolling limit of the loops that read the index. *)
Variable fuel : nat.

Abbreviation istate := (IndexScanState S K).
Implicit Types (node : istate) (e : EState) (scan : IndexScanDescData S).

Definition set_scan (scan : option (IndexScanDescData S)) node : istate :=
  mk_iss (indexorderdir node) (iss_ScanKeys node) (iss_NumRuntimeKeys node)
    (iss_RuntimeKeysReady node) scan (iss_SortSupport node) (iss_OrderByValues node)
    (iss_ReachedEnd node) (iss_ReorderQueue node) (queue_links node) (queue_tuples node).
Definition set_reached_end (b : bool) node : istate :=
  mk_iss (indexorderdir node) (iss_ScanKeys node) (iss_NumRuntimeKeys node)
    (iss_RuntimeKeysReady node) (iss_ScanDesc node) (iss_SortSupport node)
    (iss_OrderByValues node) b (iss_ReorderQueue node) (queue_links node) (queue_tuples node).
Definition set_orderby_values (v : list (option Datum)) node : istate :=
  mk_iss (indexorderdir node) (iss_ScanKeys node) (iss_NumRuntimeKeys node)
    (iss_RuntimeKeysReady node) (iss_ScanDesc node) (iss_SortSupport node) v
    (iss_ReachedEnd node) (iss_ReorderQueue node) (queue_links node) (queue_tuples node).
Definition set_queue (q : pairingheap) (st : store) (ts : gmap ptr ReorderTuple) node : istate :=
  mk_iss (indexorderdir node) (iss_ScanKeys node) (iss_NumRuntimeKeys node)
    (iss_RuntimeKeysReady node) (iss_ScanDesc node) (iss_SortSupport node)
    (iss_OrderByValues node) (iss_ReachedEnd node) q st ts.

(** Open the scan on the first call. *)
Definition begin_scan node : res (istate * IndexScanDescData S) :=
  match iss_ScanDesc node with
  | Some scan => Ok (node, scan)
  | None =>
    let scan := index_beginscan (iss_ScanKeys node) recovery mem in
    let node := set_scan (Some scan) node in
    if (iss_NumRuntimeKeys node =? 0) || iss_RuntimeKeysReady node then
      do! scan <- index_rescan scan (iss_ScanKeys node) ;;
      Ok (set_scan (Some scan) node, scan)
    else Ok (node, scan)
  end.

(** Fetch until a tuple passes the recheck of a lossy index, noting after
    each whether the index is in order. *)
Fixpoint next_indextuple (n : nat) (direction : ScanDirection) scan e
    : res (IndexScanDescData S * EState * option row) :=
  match n with
  | O => NoFuel
  | Datatypes.S n =>
    do! ' (scan, slot) <- index_getnext_slot fuel scan direction ;;
    match slot with
    | None => Ok (scan, e, None)
    | Some r =>
      let e := set_inorder (xs_inorder scan) e in
      if xs_recheck scan && negb (indexqualorig r) then next_indextuple n direction scan e
      else Ok (scan, e, Some r)
    end
  end.

Definition IndexNext node e : res (istate * EState * option row) :=
  let direction := es_direction e in
  let direction :=
    if ScanDirectionIsBackward (indexorderdir node) then
      if ScanDirectionIsForward direction then BackwardScanDirection
      else if ScanDirectionIsBackward direction then ForwardScanDirection
      else direction
    else direction in
  do! ' (node, scan) <- begin_scan node ;;
  do! ' (scan, e, slot) <- next_indextuple fuel direction scan e ;;
  let node := set_scan (Some scan) node in
  match slot with
  | Some _ => Ok (node, e, slot)
  | None => Ok (set_reached_end true node, e, None)
  end.

Definition EvalOrderByExpressions node (r : row) : istate :=
  set_orderby_values ((fun orderby => orderby r) <$> indexorderbyorig) node.

(** The tuple is a new allocation with uninitialized heap links. *)
Definition reorderqueue_push node (r : row) (vals : list (option Datum)) : res istate :=
  let p := fresh (dom (queue_tuples node)) in
  let rt := mk_reorder r (take (length (iss_SortSupport node)) vals) in
  let tuples := <[p := rt]> (queue_tuples node) in
  let links := <[p := mk_node None None None]> (queue_links node) in
  do! ' (links, q) <-
    pairingheap_add (reorderqueue_cmp (iss_SortSupport node) tuples) links
      (iss_ReorderQueue node) p ;;
  Ok (set_queue q links tuples node).

Definition reorderqueue_pop node : res (istate * row) :=
  do! ' (p, links, q) <-
    pairingheap_remove_first (reorderqueue_cmp (iss_SortSupport node) (queue_tuples node))
      (queue_links node) (iss_ReorderQueue node) ;;
  match queue_tuples node !! p with
  | None => Crash
  | Some rt =>
    Ok (set_queue q (delete p links) (delete p (queue_tuples node)) node, htup rt)
  end.

(** The ORDER BY values of the tuple just fetched, and whether the index
    had them right. *)
Definition last_fetched node scan (r : row) : istate * list (option Datum) * bool :=
  if xs_recheckorderby scan then
    let node := EvalOrderByExpressions node r in
    let cmp := cmp_orderbyvals (iss_SortSupport node) (iss_OrderByValues node)
                 (xs_orderbyvals scan) in
    (node, iss_OrderByValues node, cmp =? 0)
  else (node, xs_orderbyvals scan, true).

(** Fetch the next tuple from the index; [again] is the next turn of the
    loop.  [topmost] is the variable of that name: the head of the queue when
    the loop last looked, null before. *)
Definition reorder_fetch
    (again : istate -> IndexScanDescData S -> EState -> res (istate * EState * option row))
    node scan e (topmost : option ReorderTuple) : res (istate * EState * option row) :=
  do! ' (scan, e, slot) <- next_indextuple fuel ForwardScanDirection scan e ;;
  let node := set_scan (Some scan) node in
  match slot with
  | None => again (set_reached_end true node) scan e
  | Some r =>
    let '(node, vals, was_exact) := last_fetched node scan r in
    if negb was_exact ||
       match topmost with
       | Some t => cmp_orderbyvals (iss_SortSupport node) vals (orderbyvals t) >? 0
       | None => false
       end
    then do! node <- reorderqueue_push node r vals ;; again node scan e
    else Ok (node, e, Some r)
  end.

Fixpoint reorder_loop (n : nat) (topmost : option ReorderTuple) node scan e
    : res (istate * EState * option row) :=
  match n with
  | O => NoFuel
  | Datatypes.S n =>
    if negb (pairingheap_is_empty (iss_ReorderQueue node)) then
      do! p <- pairingheap_first (iss_ReorderQueue node) ;;
      match queue_tuples node !! p with
      | None => Crash
      | Some t =>
        if iss_ReachedEnd node ||
           (cmp_orderbyvals (iss_SortSupport node) (orderbyvals t) (xs_orderbyvals scan) <=? 0)
        then
          do! ' (node, tup) <- reorderqueue_pop node ;;
          Ok (node, e, Some tup)
        else reorder_fetch (reorder_loop n (Some t)) node scan e (Some t)
      end
    else if iss_ReachedEnd node then Ok (node, e, None)
    else reorder_fetch (reorder_loop n topmost) node scan e topmost
  end.

Definition IndexNextWithReorder node e : res (istate * EState * option row) :=
  do! ' (node, scan) <- begin_scan node ;;
  reorder_loop fuel None node scan e.

(** [ExecScan], outside an EvalPlanQual recheck. *)
Fixpoint ExecScan (n : nat) (accessMtd : istate -> EState -> res (istate * EState * option row))
    node e : res (istate * EState * option row) :=
  match n with
  | O => NoFuel
  | Datatypes.S n =>
    do! ' (node, e, slot) <- accessMtd node e ;;
    match slot with
    | None => Ok (node, e, None)
    | Some r =>
      if match qual with Some q => q r | None => true end then
        Ok (node, e, Some (match projInfo with Some proj => proj r | None => r end))
      else ExecScan n accessMtd node e
    end
  end.

(** Empty the reorder queue. *)
Fixpoint flush_queue (n : nat) node : res istate :=
  match n with
  | O => NoFuel
  | Datatypes.S n =>
    if pairingheap_is_empty (iss_ReorderQueue node) then Ok node
    else do! ' (node, _) <- reorderqueue_pop node ;; flush_queue n node
  end.

Definition ExecReScanIndexScan node : res istate :=
  let keys :=
    if negb (iss_NumRuntimeKeys node =? 0) then eval_runtime_keys (iss_ScanKeys node)
    else iss_ScanKeys node in
  let node :=
    mk_iss (indexorderdir node) keys (iss_NumRuntimeKeys node) true (iss_ScanDesc node)
      (iss_SortSupport node) (iss_OrderByValues node) (iss_ReachedEnd node)
      (iss_ReorderQueue node) (queue_links node) (queue_tuples node) in
  do! node <- flush_queue (Datatypes.S (size (queue_tuples node))) node ;;
  do! node <-
    match iss_ScanDesc node with
    | Some scan =>
      do! scan <- index_rescan scan (iss_ScanKeys node) ;;
      Ok (set_scan (Some scan) node)
    | None => Ok node
    end ;;
  Ok (set_reached_end false node).

Definition ExecIndexScan node e : res (istate * EState * option row) :=
  do! node <-
    (if negb (iss_NumRuntimeKeys node =? 0) && negb (iss_RuntimeKeysReady node)
     then ExecReScanIndexScan node else Ok node) ;;
  if Nat.ltb 0 (length (iss_SortSupport node)) then ExecScan fuel IndexNextWithReorder node e
  else ExecScan fuel IndexNext node e.

(** No bound is passed to a scan. *)
Definition index_scan_plan : PlanState istate := {|
  ExecProcNode := ExecIndexScan;
  ExecReScan := fun node e => do! node <- ExecReScanIndexScan node ;; Ok (node, e);
  ExecSetTupleBound := fun _ node => node
|}.
End node_indexscan.

(** ** The order of ORDER BY values *)

Lemma cmp_orderbyvals_comparator keys :
  Forall (fun k => Comparator (comparator k)) keys -> Comparator (cmp_orderbyvals keys).
Proof.
  induction keys as [|k keys IH]; intros Hk; [split; cbn; intros; lia|].
  inversion Hk as [|?? Hck Hks]; subst. specialize (IH Hks). split.
  - intros a b. cbn. destruct (hd None a) as [x|], (hd None b) as [y|]; try lia.
    pose proof (cmp_flip (cmp := comparator k) x y). pose proof (cmp_flip (cmp := comparator k) y x).
    pose proof (cmp_flip (cmp := cmp_orderbyvals keys) (tail a) (tail b)).
    destruct (Z.eqb_spec (comparator k x y) 0), (Z.eqb_spec (comparator k y x) 0); cbn; lia.
  - intros a b c. cbn.
    destruct (hd None a) as [x|], (hd None b) as [y|], (hd None c) as [z|]; try lia.
    pose proof (cmp_flip (cmp := comparator k) x y). pose proof (cmp_flip (cmp := comparator k) y z).
    pose proof (cmp_flip (cmp := comparator k) x z).
    pose proof (cmp_le_trans (cmp := comparator k) x y z).
    pose proof (cmp_le_trans (cmp := comparator k) y z x).
    pose proof (cmp_le_trans (cmp := comparator k) z x y).
    pose proof (cmp_flip (cmp := comparator k) y x). pose proof (cmp_flip (cmp := comparator k) z y).
    pose proof (cmp_flip (cmp := comparator k) z x).
    pose proof (cmp_le_trans (cmp := cmp_orderbyvals keys) (tail a) (tail b) (tail c)).
    destruct (Z.eqb_spec (comparator k x y) 0), (Z.eqb_spec (comparator k y z) 0),
      (Z.eqb_spec (comparator k x z) 0); cbn; lia.
Qed.

Lemma hd_take n (a : list (option Datum)) : hd None (take (Datatypes.S n) a) = hd None a.
Proof. by destruct a. Qed.

Lemma tail_take n (a : list (option Datum)) : tail (take (Datatypes.S n) a) = take n (tail a).
Proof. destruct a; cbn; by rewrite ?take_nil. Qed.

Lemma cmp_orderbyvals_take_l keys a b :
  cmp_orderbyvals keys (take (length keys) a) b = cmp_orderbyvals keys a b.
Proof.
  revert a b. induction keys as [|k keys IH]; intros a b; [done|].
  cbn [cmp_orderbyvals length]. by rewrite hd_take, tail_take, IH.
Qed.

Lemma cmp_orderbyvals_take_r keys a b :
  cmp_orderbyvals keys a (take (length keys) b) = cmp_orderbyvals keys a b.
Proof.
  revert a b. induction keys as [|k keys IH]; intros a b; [done|].
  cbn [cmp_orderbyvals length]. by rewrite hd_take, tail_take, IH.
Qed.

(** ** What a scan reads *)

(** Calls of a scan that return the rows of the entries, in order: after each
    call the descriptor describes the entry of the row just returned. *)
Section entries.
Context {S K : Type} (step : IndexScanState S K -> EState -> res (IndexScanState S K * EState * option row)).

Fixpoint entries_of (node : IndexScanState S K) (xs : list (ientry * row)) : Prop :=
  match xs with
  | [] =>
    forall e, es_direction e = ForwardScanDirection ->
      exists node' e', step node e = Ok (node', e', None) /\ es_direction e' = ForwardScanDirection
  | x :: xs =>
    forall e, es_direction e = ForwardScanDirection ->
      exists node' scan, step node e = Ok (node', set_inorder (ie_inorder (fst x)) e, Some (snd x)) /\
        iss_ScanDesc node' = Some scan /\ xs_heaptid_orig scan = ie_tid (fst x) /\
        xs_orderbyvals scan = ie_vals (fst x) /\ entries_of node' xs
  end.

(** One case for the end and for a row. *)
Lemma entries_of_intro node xs :
  (forall e, es_direction e = ForwardScanDirection ->
     match xs with
     | [] => exists node' e', step node e = Ok (node', e', None) /\ es_direction e' = ForwardScanDirection
     | x :: xs =>
       exists node' scan, step node e = Ok (node', set_inorder (ie_inorder (fst x)) e, Some (snd x)) /\
         iss_ScanDesc node' = Some scan /\ xs_heaptid_orig scan = ie_tid (fst x) /\
         xs_orderbyvals scan = ie_vals (fst x) /\ entries_of node' xs
     end) -> entries_of node xs.
Proof. by destruct xs. Qed.

Lemma entries_stream node xs : entries_of node xs -> stream step node ((fun x => (snd x, ie_inorder (fst x))) <$> xs).
Proof.
  revert node. induction xs as [|x xs IH]; intros node Hx; [exact Hx|]. cbn. intros e He.
  destruct (Hx e He) as (node' & scan & Hstep & _ & _ & _ & Hrest). exists node'. split; [done|]. by apply IH.
Qed.
End entries.

Section scan_spec.
Context {S K : Type} `{AM : IndexAmRoutine S K} `{TA : TableAmRoutine}.
Variable indexqualorig : row -> bool.
Variable indexorderbyorig : list (row -> option Datum).
Variables (fuel : nat) (keys : list SortSupportData).
Hypothesis Hmvcc : mvcc.

Abbreviation istate := (IndexScanState S K).
Implicit Types (node : istate) (e : EState) (scan : IndexScanDescData S)
  (vl : list (ientry * row)) (ns : list ptr).

(** The entry survives the recheck of the index quals. *)
Definition passes (x : ientry * row) : bool := negb (ie_recheck (fst x)) || indexqualorig (snd x).

(** The true ORDER BY values of a row. *)
Definition exact_vals (x : ientry * row) : list (option Datum) :=
  if ie_recheckorderby (fst x) then (fun orderby => orderby (snd x)) <$> indexorderbyorig
  else ie_vals (fst x).

Definition item : Type := list (option Datum) * row.

Definition exact_items vl : list item :=
  (fun x => (take (length keys) (exact_vals x), snd x)) <$> filter (fun x => passes x = true) vl.

Lemma exact_items_app vl vl' : exact_items (vl ++ vl') = exact_items vl ++ exact_items vl'.
Proof. unfold exact_items. by rewrite filter_app, fmap_app. Qed.

Lemma exact_items_cons x vl : passes x = true ->
  exact_items (x :: vl) = (take (length keys) (exact_vals x), snd x) :: exact_items vl.
Proof. intros Hp. unfold exact_items. by rewrite filter_cons_True. Qed.

Lemma scan_at_length scan vl : scan_at fuel scan vl -> (length vl + 1 < fuel)%nat.
Proof.
  intros (l & _ & <- & Hn & _). pose proof (length_visible l). lia.
Qed.

(** Fetching the next tuple that survives the recheck. *)
Lemma next_indextuple_ok n scan e vl :
  scan_at fuel scan vl -> (length vl < n)%nat ->
  exists scan' e' slot,
    next_indextuple indexqualorig fuel n ForwardScanDirection scan e = Ok (scan', e', slot) /\
    es_direction e' = es_direction e /\
    ((slot = None /\ exact_items vl = []) \/
     exists dropped x rest, vl = dropped ++ x :: rest /\ exact_items dropped = [] /\
       passes x = true /\ slot = Some (snd x) /\ scan_at fuel scan' rest /\
       xs_orderbyvals scan' = ie_vals (fst x) /\
       xs_recheckorderby scan' = ie_recheckorderby (fst x) /\
       xs_heaptid_orig scan' = ie_tid (fst x) /\ is_index_inorder e' = ie_inorder (fst x)).
Proof.
  revert scan e vl. induction n as [|n IH]; intros scan e vl Hs Hn; [lia|].
  cbn [next_indextuple]. pose proof (index_getnext_slot_ok fuel scan vl Hmvcc Hs) as Hg.
  destruct vl as [|[en r] vl].
  - destruct Hg as [s2 ->]. rewrite rbind_ret. exists s2, e, None. split; [done|].
    split; [done|]. by left.
  - destruct Hg as (s2 & -> & Hs2 & Hrc & Hv & Hro & Hin & Htid). rewrite rbind_ret. cbv zeta.
    rewrite Hrc. destruct (ie_recheck en && negb (indexqualorig r)) eqn:Hp.
    + cbn in Hn. destruct (IH s2 (set_inorder (xs_inorder s2) e) vl Hs2 ltac:(lia))
        as (s3 & e3 & slot & -> & Hd3 & Hc).
      exists s3, e3, slot. split; [done|]. split; [done|].
      assert (Hpass : passes (en, r) = false).
      { unfold passes. cbn. apply andb_true_iff in Hp as [-> Hq]. cbn.
        by apply negb_true_iff in Hq. }
      assert (Hdrop : exact_items ((en, r) :: vl) = exact_items vl).
      { unfold exact_items. rewrite filter_cons_False; [done|congruence]. }
      destruct Hc as [[-> Hnil]|(dr & x & rest & -> & Hdr & Hrest)].
      * left. by rewrite Hdrop.
      * right. exists ((en, r) :: dr), x, rest. split; [done|]. split; [|done].
        unfold exact_items in *. rewrite filter_cons_False; [done|congruence].
    + exists s2, (set_inorder (xs_inorder s2) e), (Some r). split; [done|]. split; [done|].
      right. exists [], (en, r), vl. split; [done|]. split; [done|]. split; [|done].
      unfold passes. cbn. by destruct (ie_recheck en), (indexqualorig r).
Qed.

(** ** The access methods as streams *)

Variables (recovery : bool) (mem : IndexScanDescData S).

Abbreviation with_reorder :=
  (IndexNextWithReorder indexqualorig indexorderbyorig recovery mem fuel).

Lemma begin_scan_open node scan :
  iss_ScanDesc node = Some scan -> begin_scan recovery mem node = Ok (node, scan).
Proof. intros Hs. unfold begin_scan. by rewrite Hs. Qed.

(** When the index knows the true values, entries pass straight through. *)
Definition passing vl : list (ientry * row) := filter (fun x => passes x = true) vl.

(** Their rows with the flags of the index. *)
Definition passed vl : list (row * bool) :=
  (fun x => (snd x, ie_inorder (fst x))) <$> filter (fun x => passes x = true) vl.

Lemma passing_nil vl : exact_items vl = [] -> passing vl = [].
Proof. unfold exact_items, passing. by destruct (filter _ vl). Qed.

Lemma passing_cons dropped x vl : exact_items dropped = [] -> passes x = true ->
  passing (dropped ++ x :: vl) = x :: passing vl.
Proof.
  intros Hd%passing_nil Hp. unfold passing in *. by rewrite filter_app, Hd, filter_cons_True.
Qed.

Lemma exact_entries_open node scan vl :
  iss_ScanDesc node = Some scan -> scan_at fuel scan vl -> iss_ReachedEnd node = false ->
  iss_SortSupport node = keys -> pairingheap_is_empty (iss_ReorderQueue node) = true ->
  Forall (fun x => ie_recheckorderby (fst x) = false) vl ->
  entries_of with_reorder node (passing vl).
Proof.
  remember (length vl) as m eqn:Hm. assert (Hle : (length vl <= m)%nat) by lia. clear Hm.
  revert node scan vl Hle. induction m as [m IH] using lt_wf_ind.
  intros node scan vl Hle Hs Hsc Hre Hk Hemp Hex.
  pose proof (scan_at_length scan vl Hsc) as Hlen.
  assert (Hrun : forall e, with_reorder node e =
    reorder_fetch indexqualorig indexorderbyorig fuel
      (reorder_loop indexqualorig indexorderbyorig fuel (pred fuel) None) node scan e None).
  { intros e. unfold IndexNextWithReorder. rewrite (begin_scan_open node scan Hs), rbind_ret.
    destruct fuel as [|n]; [lia|]. cbn [reorder_loop pred]. by rewrite Hemp, Hre. }
  apply entries_of_intro. intros e He. rewrite Hrun. unfold reorder_fetch.
  destruct (next_indextuple_ok fuel scan e vl Hsc ltac:(lia))
    as (s2 & e2 & slot & -> & Hd2 & [[-> Hnil]|(dr & x & rest & -> & Hdr & Hpass & -> & Hs2 & Hv2 & Hro2 & Htid & Hin)]);
    rewrite rbind_ret.
  - rewrite (passing_nil _ Hnil). destruct fuel as [|[|n]]; [lia|lia|]. cbn [reorder_loop pred]. cbn. rewrite Hemp.
    eexists _, e2. split; [done|]. congruence.
  - rewrite (passing_cons dr x rest) by done. apply Forall_app in Hex as [_ Hex]. apply Forall_cons in Hex as [Hx Hrest].
    unfold last_fetched. rewrite Hro2, Hx. cbn [negb orb]. eexists _, s2. split.
    { do 2 f_equal. destruct e2, e. cbn in *. by subst. }
    split; [done|]. split; [done|]. split; [done|].
    rewrite length_app in Hle. cbn in Hle. eapply (IH (length rest)); [lia|done|done|..]; done.
Qed.

Hypothesis Hkeys : Forall (fun k => Comparator (comparator k)) keys.

#[local] Instance obc_ok : Comparator (cmp_orderbyvals keys).
Proof. by apply cmp_orderbyvals_comparator. Qed.

(** ** The reorder queue *)

#[local] Instance reorderqueue_cmp_ok ts : Comparator (reorderqueue_cmp keys ts).
Proof.
  unfold reorderqueue_cmp. split.
  - intros a b. apply cmp_flip.
  - intros a b c Hab Hbc. by eapply cmp_le_trans.
Qed.

Record queue_inv node ns : Prop := {
  qi_keys : iss_SortSupport node = keys;
  qi_queue : ph_queue (reorderqueue_cmp keys (queue_tuples node)) (queue_links node)
               (iss_ReorderQueue node) ns;
  qi_dom : forall p, p ∈ ns <-> is_Some (queue_tuples node !! p);
  qi_links : dom (queue_links node) = dom (queue_tuples node)
}.

Definition queue_item (ts : gmap ptr ReorderTuple) (p : ptr) : item :=
  match ts !! p with
  | Some rt => (orderbyvals rt, htup rt)
  | None => ([], mk_mtup 0 [])
  end.

Definition queue_items (ts : gmap ptr ReorderTuple) ns : list item := queue_item ts <$> ns.

Lemma queue_item_vals ts p : fst (queue_item ts p) = reorder_vals ts p.
Proof. unfold queue_item, reorder_vals. by destruct (ts !! p). Qed.

(** The node but for its queue. *)
Definition same_scan node node' : Prop :=
  iss_ScanDesc node' = iss_ScanDesc node /\ iss_ReachedEnd node' = iss_ReachedEnd node.

Lemma reorderqueue_push_ok node ns r vals :
  queue_inv node ns ->
  exists node' p, reorderqueue_push node r vals = Ok node' /\ queue_inv node' (p :: ns) /\
    same_scan node node' /\
    queue_items (queue_tuples node') (p :: ns) =
      (take (length keys) vals, r) :: queue_items (queue_tuples node) ns.
Proof.
  intros [Hk Hq Hdom Hl]. unfold reorderqueue_push. rewrite Hk. cbv zeta.
  set (p := fresh (dom (queue_tuples node))).
  assert (Hp : queue_tuples node !! p = None).
  { apply not_elem_of_dom. apply is_fresh. }
  set (rt := mk_reorder r (take (length keys) vals)).
  set (ts := <[p := rt]> (queue_tuples node)).
  set (st := <[p := mk_node None None None]> (queue_links node)).
  assert (Hpn : p ∉ ns).
  { intros Hin%Hdom. rewrite Hp in Hin. by destruct Hin. }
  assert (Hold : forall q, q ∈ ns -> ts !! q = queue_tuples node !! q).
  { intros q Hq0. unfold ts. apply lookup_insert_ne. by intros ->. }
  assert (Hq' : ph_queue (reorderqueue_cmp keys ts) st (iss_ReorderQueue node) ns).
  { apply (ph_queue_frame _ (queue_links node)).
    - intros q Hq0. unfold st. apply lookup_insert_ne. by intros ->.
    - eapply ph_queue_cmp_ext; [|exact Hq]. intros a b Ha Hb.
      unfold reorderqueue_cmp, reorder_vals. by rewrite !Hold. }
  destruct (pairingheap_add_ok (reorderqueue_cmp keys ts) st (iss_ReorderQueue node) ns p Hq')
    as (st' & h' & -> & Hq2 & Hdom2 & _); [|done|].
  { unfold st. rewrite dom_insert. set_solver. }
  rewrite rbind_ret. eexists _, p. split; [done|]. split; [|split; [by split|]].
  - split; cbn [iss_SortSupport set_queue queue_tuples queue_links iss_ReorderQueue].
    + done.
    + done.
    + intros q. rewrite elem_of_cons, Hdom. unfold ts.
      destruct (decide (p = q)) as [<-|Hne].
      * rewrite lookup_insert_eq. split; eauto.
      * rewrite lookup_insert_ne by done. naive_solver.
    + rewrite Hdom2. unfold st, ts. by rewrite !dom_insert_L, Hl.
  - cbn. f_equal.
    + unfold queue_item, ts. by rewrite lookup_insert_eq.
    + apply list_fmap_ext. intros i q Hiq. unfold queue_item.
      rewrite Hold; [done|]. apply list_elem_of_lookup. eauto.
Qed.

Lemma reorderqueue_pop_ok node ns :
  queue_inv node ns -> ns <> [] ->
  exists node' p ns' rt, reorderqueue_pop node = Ok (node', htup rt) /\
    queue_tuples node !! p = Some rt /\ ns ≡ₚ p :: ns' /\ queue_inv node' ns' /\
    same_scan node node' /\
    queue_items (queue_tuples node') ns' = queue_items (queue_tuples node) ns' /\
    forall q, q ∈ ns ->
      cle (cmp_orderbyvals keys) (orderbyvals rt) (reorder_vals (queue_tuples node) q).
Proof.
  intros [Hk Hq Hdom Hl] Hne. unfold reorderqueue_pop. rewrite Hk.
  destruct (pairingheap_remove_first_ok _ _ _ _ Hq Hne)
    as (p & st' & h' & ns' & -> & Hp & Hq' & [Hdom' _] & Hmax).
  rewrite rbind_ret.
  assert (Hpin : p ∈ ns) by (rewrite Hp; by left).
  destruct (proj1 (Hdom p) Hpin) as [rt Hrt]. rewrite Hrt.
  pose proof (ph_queue_NoDup _ _ _ _ Hq) as Hnd. rewrite Hp in Hnd.
  apply NoDup_cons in Hnd as [Hpn Hnd].
  assert (Hold : forall q, q ∈ ns' -> delete p (queue_tuples node) !! q = queue_tuples node !! q).
  { intros q Hq0. apply lookup_delete_ne. by intros ->. }
  eexists _, p, ns', rt. split; [done|]. split; [done|]. split; [done|].
  split; [|split; [by split|split]].
  - split; cbn [iss_SortSupport set_queue queue_tuples queue_links iss_ReorderQueue].
    + done.
    + apply (ph_queue_frame _ st').
      { intros q Hq0. apply lookup_delete_ne. by intros ->. }
      eapply ph_queue_cmp_ext; [|exact Hq']. intros a b Ha Hb.
      unfold reorderqueue_cmp, reorder_vals. by rewrite !Hold.
    + intros q. destruct (decide (p = q)) as [<-|Hpq].
      * rewrite lookup_delete_eq. split; [done|]. intros Hs. by apply is_Some_None in Hs.
      * rewrite lookup_delete_ne by done. rewrite <- Hdom, Hp, elem_of_cons. naive_solver.
    + by rewrite !dom_delete_L, Hdom', Hl.
  - cbn. apply list_fmap_ext. intros i q Hiq. unfold queue_item.
    rewrite Hold; [done|]. apply list_elem_of_lookup. eauto.
  - intros q Hq0. specialize (Hmax q Hq0). unfold cle, reorderqueue_cmp in Hmax.
    unfold cle. unfold reorder_vals in Hmax at 1. by rewrite Hrt in Hmax.
Qed.

(** ** The reordering loop *)

Abbreviation obc := (cmp_orderbyvals keys).

(** The entries [vl] are still to be read, the nodes [ns] are queued: the
    index hands out ascending lower bounds of the true values. *)
Record reorder_inv node scan vl ns : Prop := {
  ro_scan : iss_ScanDesc node = Some scan;
  ro_queue : queue_inv node ns;
  ro_end : (iss_ReachedEnd node = true /\ vl = []) \/
           (iss_ReachedEnd node = false /\ scan_at fuel scan vl);
  ro_low : ns <> [] -> Forall (fun x => cle obc (xs_orderbyvals scan) (ie_vals (fst x))) vl;
  ro_sorted : StronglySorted (cle obc) ((fun x => ie_vals (fst x)) <$> vl);
  ro_bound : Forall (fun x => cle obc (ie_vals (fst x)) (exact_vals x)) vl
}.

Definition pending node vl ns : list item := queue_items (queue_tuples node) ns ++ exact_items vl.

(** One call: the least pending item, or nothing left. *)
Definition reorder_step node vl ns (out : res (istate * EState * option row)) (d : ScanDirection)
    : Prop :=
  exists node' e' slot, out = Ok (node', e', slot) /\ es_direction e' = d /\
    match slot with
    | None => pending node vl ns = []
    | Some r => exists k scan' vl' ns', reorder_inv node' scan' vl' ns' /\
        pending node vl ns ≡ₚ (k, r) :: pending node' vl' ns' /\
        Forall (fun it => cle obc k (fst it)) (pending node' vl' ns')
    end.

Lemma reorder_step_perm node node1 vl vl1 ns ns1 out d :
  pending node vl ns ≡ₚ pending node1 vl1 ns1 ->
  reorder_step node1 vl1 ns1 out d -> reorder_step node vl ns out d.
Proof.
  intros Hp (node' & e' & slot & Ho & Hd & Hs). exists node', e', slot. split; [done|].
  split; [done|]. destruct slot as [r|].
  - destruct Hs as (k & scan' & vl' & ns' & Hi & Hq & Hle).
    exists k, scan', vl', ns'. split; [done|]. split; [|done]. by rewrite Hp.
  - rewrite Hs in Hp. by apply Permutation_nil_r in Hp.
Qed.

(** Everything read later is at least a value the index has reached. *)
Lemma exact_items_above k vl :
  Forall (fun x => cle obc k (ie_vals (fst x))) vl ->
  Forall (fun x => cle obc (ie_vals (fst x)) (exact_vals x)) vl ->
  Forall (fun it => cle obc k (fst it)) (exact_items vl).
Proof.
  intros Hk Hb. unfold exact_items.
  apply Forall_forall. intros it (x & -> & Hx)%list_elem_of_fmap.
  apply list_elem_of_filter in Hx as [_ Hx]. unfold cle. cbn.
  rewrite cmp_orderbyvals_take_r. change (cle obc k (exact_vals x)).
  transitivity (ie_vals (fst x)).
  - exact (proj1 (Forall_forall _ _) Hk x Hx).
  - exact (proj1 (Forall_forall _ _) Hb x Hx).
Qed.

Lemma sorted_tail_above x vl (dropped : list (ientry * row)) :
  StronglySorted (cle obc) ((fun x => ie_vals (fst x)) <$> (dropped ++ x :: vl)) ->
  Forall (fun y => cle obc (ie_vals (fst x)) (ie_vals (fst y))) vl /\
  StronglySorted (cle obc) ((fun x => ie_vals (fst x)) <$> vl).
Proof.
  rewrite fmap_app. intros Hs. apply StronglySorted_app_1_r in Hs. rewrite fmap_cons in Hs.
  apply StronglySorted_inv in Hs as [Hs Hf]. split; [|done]. exact (proj1 (Forall_fmap _ _ _) Hf).
Qed.

Lemma last_fetched_ok node scan x :
  iss_SortSupport node = keys -> xs_orderbyvals scan = ie_vals (fst x) ->
  xs_recheckorderby scan = ie_recheckorderby (fst x) ->
  exists node1 ex, last_fetched indexorderbyorig node scan (snd x) = (node1, exact_vals x, ex) /\
    (ex = true -> cle obc (exact_vals x) (ie_vals (fst x))) /\
    queue_tuples node1 = queue_tuples node /\ same_scan node node1 /\
    (forall ns, queue_inv node ns -> queue_inv node1 ns).
Proof.
  intros Hk Hv Hro. unfold last_fetched, exact_vals. rewrite Hro, Hv.
  destruct (ie_recheckorderby (fst x)).
  - eexists _, _. split; [done|]. split; [|split; [done|split; [done|]]].
    + intros Hz%Z.eqb_eq. cbn in Hz. rewrite Hk in Hz. unfold cle. by rewrite Hz.
    + intros ns [H1 H2 H3 H4]. by split.
  - eexists _, _. split; [done|]. split; [done|]. done.
Qed.

(** The loop's bookkeeping of how much is left to do. *)
Definition work node vl : nat := if iss_ReachedEnd node then 0 else length vl + 1.

Lemma queue_inv_scan node ns os b :
  queue_inv node ns -> queue_inv (set_reached_end b (set_scan os node)) ns.
Proof. intros [H1 H2 H3 H4]. by split. Qed.

Lemma queue_inv_set_scan node ns os : queue_inv node ns -> queue_inv (set_scan os node) ns.
Proof. intros [H1 H2 H3 H4]. by split. Qed.

(** Reading one more tuple, when the rest of the loop behaves. *)
Lemma reorder_fetch_ok n again node scan e vl ns topmost :
  (forall node scan e vl ns, reorder_inv node scan vl ns -> (work node vl < n)%nat ->
     (ns = [] -> iss_ReachedEnd node = true) ->
     reorder_step node vl ns (again node scan e) (es_direction e)) ->
  reorder_inv node scan vl ns -> iss_ReachedEnd node = false -> (length vl < n)%nat ->
  match topmost with
  | Some t => forall q, q ∈ ns -> cle obc (orderbyvals t) (reorder_vals (queue_tuples node) q)
  | None => ns = []
  end ->
  reorder_step node vl ns
    (reorder_fetch indexqualorig indexorderbyorig fuel again node scan e topmost) (es_direction e).
Proof.
  intros Hagain Hinv Hre Hn Htop.
  destruct Hinv as [Hs Hq [[? _]|[_ Hsc]] Hlow Hsort Hbnd]; [congruence|].
  unfold reorder_fetch. pose proof (scan_at_length scan vl Hsc) as Hlen.
  destruct (next_indextuple_ok fuel scan e vl Hsc ltac:(lia))
    as (s2 & e2 & slot & -> & Hd2 & Hcase).
  rewrite rbind_ret. rewrite <- Hd2.
  destruct Hcase as [[-> Hnil]|(dr & x & rest & -> & Hdr & Hpass & -> & Hs2 & Hv2 & Hro2 & _)].
  - apply (reorder_step_perm _ (set_reached_end true (set_scan (Some s2) node)) _ [] _ ns).
    { unfold pending. by rewrite Hnil. }
    apply Hagain; [|cbn; lia|done].
    split; [done|by apply queue_inv_scan|by left|intros; constructor|constructor|constructor].
  - destruct (last_fetched_ok (set_scan (Some s2) node) s2 x) as (n1 & ex & -> & Hex & Hqt & Hss & Hqi);
      [apply Hq|done|done|]. cbv beta iota zeta.
    destruct (sorted_tail_above x rest dr Hsort) as [Habove Hsort'].
    assert (Hbnd' : Forall (fun x => cle obc (ie_vals (fst x)) (exact_vals x)) rest).
    { apply Forall_app in Hbnd as [_ Hb]. by inversion Hb. }
    specialize (Hqi ns (queue_inv_set_scan node ns _ Hq)). destruct Hss as [Hss1 Hss2].
    cbn in Hqt, Hss1, Hss2. rewrite (qi_keys _ _ Hqi).
    set (x0 := (take (length keys) (exact_vals x), snd x)).
    assert (Hpend : pending node (dr ++ x :: rest) ns ≡ₚ x0 :: pending n1 rest ns).
    { unfold pending. rewrite exact_items_app, Hdr, (exact_items_cons x rest Hpass), Hqt. cbn [app].
      by rewrite <- Permutation_middle. }
    destruct (negb ex || _) eqn:Hpush.
    + destruct (reorderqueue_push_ok n1 ns (snd x) (exact_vals x) Hqi)
        as (n2 & p & -> & Hqi2 & [Hsa Hsb] & Hitems).
      rewrite rbind_ret.
      apply (reorder_step_perm _ n2 _ rest _ (p :: ns)).
      { rewrite Hpend. unfold pending. by rewrite Hitems. }
      apply Hagain; [| |done].
      * split; try done; [congruence| |].
        -- right. split; [congruence|done].
        -- intros _. by rewrite Hv2.
      * unfold work. rewrite length_app in Hn. cbn in Hn. destruct (iss_ReachedEnd n2); lia.
    + apply orb_false_iff in Hpush as [Hexact%negb_false_iff Htopm]. specialize (Hex Hexact).
      exists n1, e2, (Some (snd x)). split; [done|]. split; [done|].
      exists (take (length keys) (exact_vals x)), s2, rest, ns. split; [|split].
      * split; try done.
        -- right. split; [congruence|done].
        -- intros _. by rewrite Hv2.
      * done.
      * apply Forall_app_2.
        -- apply Forall_forall. intros it (q & -> & Hin)%list_elem_of_fmap.
           rewrite queue_item_vals, Hqt. unfold cle. rewrite cmp_orderbyvals_take_l.
           destruct topmost as [t|]; [|subst ns; by apply not_elem_of_nil in Hin].
           change (cle obc (exact_vals x) (reorder_vals (queue_tuples node) q)).
           transitivity (orderbyvals t); [|by apply Htop].
           rewrite Z.gtb_ltb in Htopm. apply Z.ltb_ge in Htopm. done.
        -- apply exact_items_above; [|done]. eapply Forall_impl; [exact Habove|].
           intros y Hy. unfold cle. rewrite cmp_orderbyvals_take_l.
           change (cle obc (exact_vals x) (ie_vals (fst y))). by transitivity (ie_vals (fst x)).
Qed.

Lemma reorder_loop_ok n topmost node scan e vl ns :
  reorder_inv node scan vl ns -> (work node vl < n)%nat ->
  (ns = [] -> iss_ReachedEnd node = false -> topmost = None) ->
  reorder_step node vl ns
    (reorder_loop indexqualorig indexorderbyorig fuel n topmost node scan e) (es_direction e).
Proof.
  revert topmost node scan e vl ns. induction n as [|n IH];
    intros topmost node scan e vl ns Hinv Hn Htop; [lia|]. cbn [reorder_loop].
  pose proof (ro_queue _ _ _ _ Hinv) as Hq.
  rewrite (pairingheap_is_empty_ok _ _ _ _ (qi_queue _ _ Hq)).
  assert (Hagain : forall t node scan e vl ns, reorder_inv node scan vl ns -> (work node vl < n)%nat ->
     (ns = [] -> iss_ReachedEnd node = true) ->
     reorder_step node vl ns
       (reorder_loop indexqualorig indexorderbyorig fuel n t node scan e) (es_direction e)).
  { intros t node0 scan0 e0 vl0 ns0 Hi0 Hw0 He0. apply IH; [done|done|].
    intros Hnil Hf. by rewrite (He0 Hnil) in Hf. }
  assert (Hwork : iss_ReachedEnd node = false -> (length vl < n)%nat).
  { intros Hf. unfold work in Hn. rewrite Hf in Hn. lia. }
  case_bool_decide as Hne; cbn [negb].
  - destruct (iss_ReachedEnd node) eqn:Hre.
    + subst ns. destruct (ro_end _ _ _ _ Hinv) as [[_ ->]|[? _]]; [|congruence].
      exists node, e, None. split; [done|]. split; [done|]. done.
    + apply (reorder_fetch_ok n); auto. by rewrite (Htop Hne eq_refl).
  - destruct (pairingheap_first_ok _ _ _ _ (qi_queue _ _ Hq) Hne) as (p & -> & Hp & Hmax).
    rewrite rbind_ret. destruct (proj1 (qi_dom _ _ Hq p) Hp) as [t Ht]. rewrite Ht.
    assert (Htm : forall q, q ∈ ns -> cle obc (orderbyvals t) (reorder_vals (queue_tuples node) q)).
    { intros q Hin. specialize (Hmax q Hin). unfold cle, reorderqueue_cmp in Hmax.
      unfold reorder_vals at 1 in Hmax. by rewrite Ht in Hmax. }
    rewrite (qi_keys _ _ Hq). destruct (iss_ReachedEnd node || _) eqn:Hready.
    + destruct (reorderqueue_pop_ok node ns Hq Hne)
        as (n1 & p1 & ns1 & rt & -> & Hrt & Hperm & Hqi & [Hsa Hsb] & Hitems & Hmin).
      rewrite rbind_ret. exists n1, e, (Some (htup rt)). split; [done|]. split; [done|].
      exists (orderbyvals rt), scan, vl, ns1.
      assert (Hpend : pending node vl ns ≡ₚ (orderbyvals rt, htup rt) :: pending n1 vl ns1).
      { unfold pending. rewrite Hitems. unfold queue_items. rewrite Hperm. cbn.
        unfold queue_item at 1. by rewrite Hrt. }
      split; [|split; [done|]].
      * destruct Hinv as [H1 H2 H3 H4 H5 H6]. split; try done; [congruence| |].
        -- by rewrite Hsb.
        -- intros Hne1. by apply H4.
      * apply Forall_app_2.
        -- rewrite Hitems. apply Forall_forall. intros it (q & -> & Hin)%list_elem_of_fmap.
           rewrite queue_item_vals. apply Hmin. rewrite Hperm. by right.
        -- apply orb_true_iff in Hready as [Hend|Hle%Z.leb_le].
           ++ destruct (ro_end _ _ _ _ Hinv) as [[_ ->]|[? _]]; [|congruence]. constructor.
           ++ apply exact_items_above; [|apply Hinv].
              eapply Forall_impl; [apply (ro_low _ _ _ _ Hinv Hne)|]. intros y Hy.
              transitivity (orderbyvals t).
              { specialize (Hmin p Hp). unfold reorder_vals in Hmin. by rewrite Ht in Hmin. }
              by transitivity (xs_orderbyvals scan).
    + apply orb_false_iff in Hready as [Hre _]. apply (reorder_fetch_ok n); auto.
Qed.

(** The rows come out ordered by their true values. *)
Lemma reorder_yields node scan vl ns e :
  (0 < fuel)%nat -> reorder_inv node scan vl ns ->
  exists out, yields with_reorder node e (snd <$> out) /\ out ≡ₚ pending node vl ns /\
    StronglySorted (cle obc) (fst <$> out).
Proof.
  intros Hfuel. remember (length (pending node vl ns)) as m eqn:Hm.
  revert node scan vl ns e Hm. induction m as [|m IH]; intros node scan vl ns e Hm Hinv.
  all: assert (Hw : (work node vl < fuel)%nat)
    by (unfold work; destruct (ro_end _ _ _ _ Hinv) as [[-> _]|[-> Hs%scan_at_length]]; lia).
  all: destruct (reorder_loop_ok fuel None node scan e vl ns Hinv Hw)
      as (n' & e' & slot & Heq & Hd & Hs); [done|].
  all: assert (Hstep : with_reorder node e = Ok (n', e', slot))
    by (unfold IndexNextWithReorder; rewrite (begin_scan_open node scan) by apply Hinv;
        exact Heq).
  - destruct slot as [r|].
    { destruct Hs as (k & s' & vl' & ns' & _ & Hp & _). apply Permutation_length in Hp.
      by rewrite <- Hm in Hp. }
    exists []. split; [by exists n', e'|]. rewrite Hs. split; [done|constructor].
  - destruct slot as [r|]; [|by rewrite Hs in Hm].
    destruct Hs as (k & s' & vl' & ns' & Hinv' & Hp & Hle).
    destruct (IH n' s' vl' ns' e') as (out & Hy & Hperm & Hsort); [|done|].
    { apply Permutation_length in Hp. rewrite <- Hm in Hp. by injection Hp. }
    exists ((k, r) :: out). split; [by exists n', e'|]. split; [by rewrite Hp, Hperm|].
    rewrite fmap_cons. constructor; [done|]. apply Forall_fmap. rewrite Hperm. exact Hle.
Qed.

End scan_spec.

(** ** Filters and projection *)

Section exec_scan.
Context {S K : Type}.
Variables (qual : option (row -> bool)) (projInfo : option (row -> row)).
Variable accessMtd : IndexScanState S K -> EState ->
  res (IndexScanState S K * EState * option row).

Definition satisfies (r : row) : bool := match qual with Some q => q r | None => true end.
Definition project (r : row) : row := match projInfo with Some proj => proj r | None => r end.

(** The rows of a scan with its qual and its projection. *)
Definition selected (rows : list row) : list row :=
  project <$> filter (fun r => satisfies r = true) rows.
Definition selected_flags (rows : list (row * bool)) : list (row * bool) :=
  (fun x => (project (fst x), snd x)) <$> filter (fun x => satisfies (fst x) = true) rows.

Lemma ExecScan_next n node e rows :
  yields accessMtd node e rows -> (length rows < n)%nat ->
  exists node' e', ExecScan qual projInfo n accessMtd node e =
      Ok (node', e', head (selected rows)) /\
    forall r out, selected rows = r :: out ->
      exists rest, out = selected rest /\ yields accessMtd node' e' rest /\
        (length rest < length rows)%nat.
Proof.
  revert n node e. induction rows as [|r rows IH]; intros n node e Hy Hn;
    (destruct n as [|n]; [cbn in Hn; lia|]); cbn [ExecScan];
    destruct Hy as (node' & e' & -> & Hy'); rewrite rbind_ret; cbn [head].
  - exists node', e'. by split.
  - fold (satisfies r) (project r). unfold selected. destruct (satisfies r) eqn:Hs.
    + rewrite filter_cons_True by done. exists node', e'. split; [done|].
      intros r' out [= <- <-]. exists rows. split; [done|]. split; [done|]. cbn. lia.
    + rewrite filter_cons_False by congruence. cbn in Hn.
      destruct (IH n node' e' Hy' ltac:(lia)) as (n2 & e2 & Heq & Hrest).
      exists n2, e2. split; [done|]. intros r' out Hout.
      destruct (Hrest r' out Hout) as (rest & -> & Hyr & Hl). exists rest. cbn. eauto with lia.
Qed.

Lemma ExecScan_yields n node e rows :
  yields accessMtd node e rows -> (length rows < n)%nat ->
  yields (ExecScan qual projInfo n accessMtd) node e (selected rows).
Proof.
  remember (length rows) as m eqn:Hm. revert rows node e Hm.
  induction m as [m IH] using lt_wf_ind. intros rows node e -> Hy Hn.
  destruct (ExecScan_next n node e rows Hy Hn) as (node' & e' & Heq & Hrest).
  destruct (selected rows) as [|r out] eqn:Hsel; cbn; exists node', e'; (split; [done|]); [done|].
  destruct (Hrest r out eq_refl) as (rest & -> & Hyr & Hl). eapply IH; [exact Hl|done|done|lia].
Qed.

(** The entries whose rows satisfy the qual, the rows projected. *)
Definition selected_entries (xs : list (ientry * row)) : list (ientry * row) :=
  (fun x => (fst x, project (snd x))) <$> filter (fun x => satisfies (snd x) = true) xs.

Lemma selected_entries_flags xs :
  (fun x => (snd x, ie_inorder (fst x))) <$> selected_entries xs =
    selected_flags ((fun x => (snd x, ie_inorder (fst x))) <$> xs).
Proof.
  unfold selected_entries, selected_flags. induction xs as [|x xs IH]; [done|]. rewrite fmap_cons, !filter_cons. cbn [fst snd].
  destruct (decide (satisfies (snd x) = true)); [|done]. cbn. by rewrite <- IH.
Qed.

Lemma set_inorder_twice f f' e : set_inorder f (set_inorder f' e) = set_inorder f e.
Proof. by destruct e. Qed.

(** One call skips the rows that do not satisfy the qual. *)
Lemma ExecScan_entry xs m node e :
  entries_of accessMtd node xs -> es_direction e = ForwardScanDirection -> (length xs < m)%nat ->
  match selected_entries xs with
  | [] => exists node' e', ExecScan qual projInfo m accessMtd node e = Ok (node', e', None) /\
            es_direction e' = ForwardScanDirection
  | x :: out => exists node' scan rest,
      ExecScan qual projInfo m accessMtd node e = Ok (node', set_inorder (ie_inorder (fst x)) e, Some (snd x)) /\
      iss_ScanDesc node' = Some scan /\ xs_heaptid_orig scan = ie_tid (fst x) /\ xs_orderbyvals scan = ie_vals (fst x) /\
      out = selected_entries rest /\ entries_of accessMtd node' rest /\ (length rest < length xs)%nat
  end.
Proof.
  revert m node e. induction xs as [|x xs IH]; intros m node e Hs He Hm; (destruct m as [|m]; [cbn in Hm; lia|]); cbn [ExecScan].
  - destruct (Hs e He) as (n' & e' & -> & He'). cbn. by exists n', e'.
  - destruct (Hs e He) as (n' & scan & -> & Hsd & Htid & Hv & Hrest). rewrite rbind_ret. fold (satisfies (snd x)) (project (snd x)).
    unfold selected_entries. destruct (satisfies (snd x)) eqn:Hsat.
    + rewrite filter_cons_True by done. cbn. exists n', scan, xs. split_and!; done || lia.
    + rewrite filter_cons_False by congruence. cbn in Hm.
      specialize (IH m n' (set_inorder (ie_inorder (fst x)) e) Hrest He ltac:(lia)).
      unfold selected_entries in IH. destruct (_ <$> _) as [|y out]; [done|].
      destruct IH as (n2 & scan2 & rest & Heq & Hd2 & Ht2 & Hv2 & -> & Hst & Hl). rewrite set_inorder_twice in Heq.
      exists n2, scan2, rest. split_and!; try done. cbn. lia.
Qed.

Lemma ExecScan_entries n node xs :
  entries_of accessMtd node xs -> (length xs < n)%nat ->
  entries_of (ExecScan qual projInfo n accessMtd) node (selected_entries xs).
Proof.
  remember (length xs) as m eqn:Hm. revert xs node Hm. induction m as [m IH] using lt_wf_ind. intros xs node -> Hs Hn.
  apply entries_of_intro. intros e He. pose proof (ExecScan_entry xs n node e Hs He Hn) as Hcall.
  destruct (selected_entries xs) as [|x out]; [done|].
  destruct Hcall as (n' & scan & rest & Heq & Hsd & Ht & Hv & -> & Hst & Hl). exists n', scan. split_and!; try done.
  eapply IH; [exact Hl|done|done|lia].
Qed.
End exec_scan.

(** ** The whole node *)

Section index_scan.
Context {S K : Type} `{AM : IndexAmRoutine S K} `{TA : TableAmRoutine}.
Variable indexqualorig : row -> bool.
Variable indexorderbyorig : list (row -> option Datum).
Variables (qual : option (row -> bool)) (projInfo : option (row -> row)).
Variable eval_runtime_keys : K -> K.
Variables (recovery : bool) (mem : IndexScanDescData S) (fuel : nat).

Abbreviation plan := (index_scan_plan indexqualorig indexorderbyorig qual projInfo
  eval_runtime_keys recovery mem fuel).

(** A node that was not called yet, and what its scan will deliver. *)
Record scan_fresh (node : IndexScanState S K) (vl : list (ientry * row)) : Prop := {
  sf_runtime : iss_NumRuntimeKeys node = 0;
  sf_forward : indexorderdir node = ForwardScanDirection;
  sf_closed : iss_ScanDesc node = None;
  sf_end : iss_ReachedEnd node = false;
  sf_queue : iss_ReorderQueue node = pairingheap_allocate;
  sf_links : queue_links node = ∅;
  sf_tuples : queue_tuples node = ∅;
  sf_mvcc : mvcc;
  sf_scan : exists scan, index_rescan (index_beginscan (iss_ScanKeys node) recovery mem) (iss_ScanKeys node) = Ok scan /\
    scan_at fuel scan vl
}.

(** The first call opens the scan and then behaves as the opened node. *)
Lemma begin_scan_fresh node vl :
  scan_fresh node vl ->
  exists scan, scan_at fuel scan vl /\
    begin_scan recovery mem node = Ok (set_scan (Some scan) node, scan).
Proof.
  intros [Hr _ Hc _ _ _ _ _ (scan & Hs & Hat)]. exists scan. split; [done|].
  unfold begin_scan. rewrite Hc. cbv zeta. cbn. by rewrite Hr, Hs.
Qed.

(** What the calls leave alone. *)
Definition keeps (node node' : IndexScanState S K) : Prop :=
  iss_NumRuntimeKeys node' = iss_NumRuntimeKeys node /\
  iss_SortSupport node' = iss_SortSupport node.

Lemma keeps_trans n1 n2 n3 : keeps n1 n2 -> keeps n2 n3 -> keeps n1 n3.
Proof. unfold keeps. intuition congruence. Qed.

Lemma begin_scan_keeps node node' scan :
  begin_scan recovery mem node = Ok (node', scan) -> keeps node node'.
Proof.
  unfold begin_scan. destruct (iss_ScanDesc node); [by intros [= <- <-]|]. cbv zeta.
  destruct (_ || _); [|by intros [= <- <-]].
  intros (s & _ & Heq)%rbind_Ok. by injection Heq as <- <-.
Qed.

Lemma reorder_loop_keeps n topmost node scan e node' e' slot :
  reorder_loop indexqualorig indexorderbyorig fuel n topmost node scan e = Ok (node', e', slot) ->
  keeps node node'.
Proof.
  revert topmost node scan e. induction n as [|n IH]; intros topmost node scan e; [done|].
  cbn [reorder_loop].
  assert (Hfetch : forall t, reorder_fetch indexqualorig indexorderbyorig fuel
      (reorder_loop indexqualorig indexorderbyorig fuel n t) node scan e t = Ok (node', e', slot) ->
    keeps node node').
  { intros t. unfold reorder_fetch. intros ([[s1 e1] [r|]] & _ & Heq)%rbind_Ok.
    - destruct (last_fetched _ _ s1 r) as [[n1 vals] ex] eqn:Hl.
      assert (Hn1 : keeps node n1).
      { unfold last_fetched in Hl. by destruct (xs_recheckorderby s1); injection Hl as <- _ _. }
      destruct (negb ex || _); [|by injection Heq as <- _ _].
      apply rbind_Ok in Heq as (n2 & Hp & Heq). apply IH in Heq.
      unfold reorderqueue_push in Hp. apply rbind_Ok in Hp as ([l q] & _ & Hp).
      injection Hp as <-. eapply keeps_trans; [exact Hn1|exact Heq].
    - apply IH in Heq. exact Heq. }
  destruct (negb (pairingheap_is_empty (iss_ReorderQueue node))).
  - intros (p & _ & Heq)%rbind_Ok. destruct (queue_tuples node !! p) as [t|]; [|done].
    destruct (_ || _); [|by apply (Hfetch (Some t))].
    apply rbind_Ok in Heq as ([n1 tup] & Hp & Heq). injection Heq as <- _ _.
    unfold reorderqueue_pop in Hp. apply rbind_Ok in Hp as ([[p1 l] q] & _ & Hp).
    destruct (queue_tuples node !! p1); [|done]. by injection Hp as <- _.
  - destruct (iss_ReachedEnd node); [by intros [= <- _ _]|]. apply Hfetch.
Qed.

Lemma with_reorder_keeps node e node' e' slot :
  IndexNextWithReorder indexqualorig indexorderbyorig recovery mem fuel node e
    = Ok (node', e', slot) -> keeps node node'.
Proof.
  unfold IndexNextWithReorder. intros ([n1 scan] & Hb & Hl)%rbind_Ok.
  eapply keeps_trans; [by eapply begin_scan_keeps|by eapply reorder_loop_keeps].
Qed.

Lemma ExecScan_keeps n access node e node' e' slot :
  (forall node e node' e' slot, access node e = Ok (node', e', slot) -> keeps node node') ->
  ExecScan qual projInfo n access node e = Ok (node', e', slot) -> keeps node node'.
Proof.
  intros Ha. revert node e. induction n as [|n IH]; intros node e; [done|]. cbn [ExecScan].
  intros ([[n1 e1] [r|]] & H1 & H2)%rbind_Ok; apply Ha in H1.
  - destruct (match qual with Some q => q r | None => true end).
    + by injection H2 as <- _ _.
    + apply IH in H2. by eapply keeps_trans.
  - by injection H2 as <- _ _.
Qed.

Abbreviation with_reorder :=
  (IndexNextWithReorder indexqualorig indexorderbyorig recovery mem fuel).

(** The node's calls are those of its access method. *)
Lemma index_scan_reorder_proc node e :
  iss_NumRuntimeKeys node = 0 -> iss_SortSupport node <> [] ->
  @ExecProcNode _ plan node e = ExecScan qual projInfo fuel with_reorder node e.
Proof.
  intros Hr Hk. cbn. unfold ExecIndexScan. rewrite Hr. cbn [negb Z.eqb andb].
  rewrite rbind_ret. by destruct (iss_SortSupport node).
Qed.

Lemma keeps_reorder node e node' e' slot :
  ExecScan qual projInfo fuel with_reorder node e = Ok (node', e', slot) ->
  iss_NumRuntimeKeys node = 0 -> iss_SortSupport node <> [] ->
  iss_NumRuntimeKeys node' = 0 /\ iss_SortSupport node' <> [].
Proof.
  intros Hs Hr Hk. apply ExecScan_keeps in Hs as [-> ->]; [done|].
  intros *. apply with_reorder_keeps.
Qed.

Lemma plan_yields node e rows :
  iss_NumRuntimeKeys node = 0 -> iss_SortSupport node <> [] ->
  yields (ExecScan qual projInfo fuel with_reorder) node e rows ->
  yields (@ExecProcNode _ plan) node e rows.
Proof.
  revert node e. induction rows as [|r rows IH]; intros node e Hr Hk (n' & e' & Hs & Hy);
    exists n', e'; (split; [by rewrite index_scan_reorder_proc|]); [done|].
  destruct (keeps_reorder _ _ _ _ _ Hs Hr Hk). by apply IH.
Qed.

Lemma plan_entries node xs :
  iss_NumRuntimeKeys node = 0 -> iss_SortSupport node <> [] ->
  entries_of (ExecScan qual projInfo fuel with_reorder) node xs ->
  entries_of (@ExecProcNode _ plan) node xs.
Proof.
  revert node. induction xs as [|x xs IH]; intros node Hr Hk Hs e He;
    rewrite index_scan_reorder_proc by done; [by apply Hs|].
  destruct (Hs e He) as (n' & scan & Heq & Hsd & Ht & Hv & Hst). exists n', scan. split_and!; try done.
  destruct (keeps_reorder _ _ _ _ _ Heq Hr Hk). by apply IH.
Qed.

(** An opened node in place of a fresh one. *)
Lemma with_reorder_open node scan e :
  begin_scan recovery mem node = Ok (set_scan (Some scan) node, scan) ->
  with_reorder node e = with_reorder (set_scan (Some scan) node) e.
Proof. intros Hb. unfold IndexNextWithReorder. by rewrite Hb. Qed.

(** The rows of the scan, in the order of their true ORDER BY values. *)
Lemma index_scan_yields node vl e :
  scan_fresh node vl -> iss_SortSupport node <> [] ->
  Forall (fun k => Comparator (comparator k)) (iss_SortSupport node) ->
  StronglySorted (cle (cmp_orderbyvals (iss_SortSupport node)))
    ((fun x => ie_vals (fst x)) <$> vl) ->
  Forall (fun x => cle (cmp_orderbyvals (iss_SortSupport node)) (ie_vals (fst x))
                     (exact_vals indexorderbyorig x)) vl ->
  exists out, yields (@ExecProcNode _ plan) node e (selected qual projInfo (snd <$> out)) /\
    out ≡ₚ exact_items indexqualorig indexorderbyorig (iss_SortSupport node) vl /\
    StronglySorted (cle (cmp_orderbyvals (iss_SortSupport node))) (fst <$> out).
Proof.
  intros Hfr Hk Hcmp Hsort Hlow. destruct (begin_scan_fresh node vl Hfr) as (scan & Hat & Hb).
  set (keys := iss_SortSupport node) in *. set (node1 := set_scan (Some scan) node).
  pose proof (scan_at_length fuel scan vl Hat) as Hlen.
  destruct (reorder_yields indexqualorig indexorderbyorig fuel keys (sf_mvcc _ _ Hfr)
    recovery mem Hcmp node1 scan vl [] e) as (out & Hy & Hp & Hs); [lia| |].
  { split; try done.
    - destruct Hfr as [_ _ _ _ Hq Hl Ht _ _]. split; cbn; try done.
      + rewrite Hq. apply ph_queue_empty.
      + intros p. rewrite Ht, lookup_empty. split; [by intros ?%not_elem_of_nil|].
        intros []. done.
      + by rewrite Hl, Ht, !dom_empty_L.
    - right. split; [apply Hfr|done]. }
  exists out. split; [|done]. apply plan_yields; [apply Hfr|done|].
  apply ExecScan_yields.
  - destruct out as [|[k r] out]; cbn in Hy |- *; by setoid_rewrite (with_reorder_open node scan e Hb).
  - apply Permutation_length in Hp. unfold pending, exact_items, item in Hp.
    rewrite length_app, !length_fmap in Hp. cbn in Hp. rewrite length_fmap.
    pose proof (length_filter (fun x => passes indexqualorig x = true) vl). lia.
Qed.

(** An index that knows the values: its entries in its order. *)
Lemma index_scan_entries node vl :
  scan_fresh node vl -> iss_SortSupport node <> [] ->
  Forall (fun x => ie_recheckorderby (fst x) = false) vl ->
  entries_of (@ExecProcNode _ plan) node (selected_entries qual projInfo (passing indexqualorig vl)).
Proof.
  intros Hfr Hk Hex. destruct (begin_scan_fresh node vl Hfr) as (scan & Hat & Hb).
  pose proof (scan_at_length fuel scan vl Hat) as Hlen.
  apply plan_entries; [apply Hfr|done|]. apply ExecScan_entries.
  - pose proof (exact_entries_open indexqualorig indexorderbyorig fuel (iss_SortSupport node)
      (sf_mvcc _ _ Hfr) recovery mem (set_scan (Some scan) node) scan vl) as Hst.
    destruct Hfr as [_ _ _ Hre Hq _ _ _ _].
    specialize (Hst eq_refl Hat Hre eq_refl). cbn [iss_ReorderQueue set_scan] in Hst.
    rewrite Hq in Hst. specialize (Hst eq_refl Hex).
    destruct (passing indexqualorig vl) as [|x xs]; cbn in Hst |- *; intros e He;
      setoid_rewrite (with_reorder_open node scan e Hb); by apply Hst.
  - unfold passing. pose proof (length_filter (fun x => passes indexqualorig x = true) vl). lia.
Qed.

(** Its rows with its flags. *)
Lemma index_scan_stream node vl :
  scan_fresh node vl -> iss_SortSupport node <> [] ->
  Forall (fun x => ie_recheckorderby (fst x) = false) vl ->
  stream (@ExecProcNode _ plan) node (selected_flags qual projInfo (passed indexqualorig vl)).
Proof.
  intros Hfr Hk Hex. unfold passed. fold (passing indexqualorig vl). rewrite <- selected_entries_flags.
  apply entries_stream. by apply index_scan_entries.
Qed.
End index_scan.

(** ** Properties *)

(** C12. The reorder queue restores the order.  When the index hands out its
    entries by ascending lower bounds of their ORDER BY values, the scan node
    returns exactly the visible rows that pass the rechecks and the filter,
    once each, ordered by the true values, and reaches the end of the scan
    without an error. *)
Theorem index_scan_reorders {S K} `{IndexAmRoutine S K} `{TableAmRoutine} indexqualorig
    indexorderbyorig qual projInfo eval_runtime_keys recovery mem fuel
    (node : IndexScanState S K) vl e n :
  scan_fresh recovery mem fuel node vl -> iss_SortSupport node <> [] ->
  Forall (fun k => Comparator (comparator k)) (iss_SortSupport node) ->
  StronglySorted (cle (cmp_orderbyvals (iss_SortSupport node)))
    ((fun x => ie_vals (fst x)) <$> vl) ->
  Forall (fun x => cle (cmp_orderbyvals (iss_SortSupport node)) (ie_vals (fst x))
                     (exact_vals indexorderbyorig x)) vl ->
  (length vl < n)%nat ->
  exists node' e' out,
    @pull _ (index_scan_plan indexqualorig indexorderbyorig qual projInfo eval_runtime_keys
               recovery mem fuel) n node e =
      Ok (node', e', selected qual projInfo (snd <$> out)) /\
    out ≡ₚ exact_items indexqualorig indexorderbyorig (iss_SortSupport node) vl /\
    StronglySorted (cle (cmp_orderbyvals (iss_SortSupport node))) (fst <$> out).
Proof.
  intros Hfr Hk Hcmp Hsort Hlow Hn.
  destruct (index_scan_yields indexqualorig indexorderbyorig qual projInfo eval_runtime_keys
    recovery mem fuel node vl e Hfr Hk Hcmp Hsort Hlow) as (out & Hy & Hp & Hs).
  destruct (pull_yields (H := index_scan_plan indexqualorig indexorderbyorig qual projInfo
    eval_runtime_keys recovery mem fuel) n node _ e Hy) as (node' & e' & Hpull).
  - apply Permutation_length in Hp. unfold exact_items, item in Hp. rewrite length_fmap in Hp.
    pose proof (length_filter (fun x => passes indexqualorig x = true) vl) as H1.
    pose proof (length_filter (fun r => satisfies qual r = true) (snd <$> out)) as H2.
    unfold selected. rewrite length_fmap. rewrite length_fmap in H2. lia.
  - by exists node', e', out.
Qed.

(** An access method that replays a list of entries. *)
#[export] Instance list_am : IndexAmRoutine (list ientry) unit := {|
  ambeginscan := fun _ recovery mem => RelationGetIndexScan (opaque mem) recovery mem;
  amrescan := fun _ scan => Ok scan;
  amgettuple := fun scan _ =>
    match opaque scan with
    | [] => Ok (scan, false)
    | e :: l =>
      Ok (mk_scan (kill_prior_tuple scan) (xactStartedInRecovery scan) l (xs_heaptid_orig scan)
            (ie_tid e) (xs_heap_continue scan) (ie_recheck e) (ie_vals e) (ie_recheckorderby e)
            (ie_inorder e), true)
    end
|}.

(** Tuple [t] holds the number [t]; odd ones above 100 are dead. *)
Definition demo_table : TableAmRoutine := {|
  index_fetch_tuple := fun tid _ =>
    mk_fetch (if (tid >? 100) && Z.odd tid then None else Some (int_row tid)) tid false false
|}.

Lemma list_am_delivers (scan : IndexScanDescData (list ientry)) :
  am_delivers scan (opaque scan).
Proof.
  remember (opaque scan) as l eqn:Hl. revert scan Hl. induction l as [|[t r v ro f] l IH];
    intros scan Hl s2 (Ho & _); cbn; rewrite <- Ho, <- Hl; [by eexists|].
  eexists. split; [done|]. split; [done|]. by apply IH.
Qed.

(** Column 1, the number itself, is the ORDER BY value; the index rounds it
    down to a multiple of 10. *)
Definition demo_entries : list ientry :=
  (fun t => mk_ientry t false [Some (10 * (t / 10))] true false) <$> [7; 3; 101; 19; 12; 26; 21].
Definition demo_mem : IndexScanDescData (list ientry) :=
  mk_scan false false demo_entries 0 0 false false [] false true.
Definition demo_iss : IndexScanState (list ientry) unit :=
  mk_iss ForwardScanDirection tt 0 false None [int_key] [] false pairingheap_allocate ∅ ∅.
Definition demo_orderby : list (row -> option Datum) :=
  [fun r => let '(d, isnull) := heap_getattr r 1 in if isnull then None else Some d].

Lemma demo_scan_fresh :
  @scan_fresh _ _ list_am demo_table false demo_mem 20 demo_iss
    (@visible demo_table demo_entries).
Proof.
  split; try done. eexists. split; [done|].
  exists demo_entries. split; [apply list_am_delivers|]. split; [done|]. split; [cbn; lia|done].
Qed.

Lemma index_scan_reorders_witness :
  exists node' e' out,
    @pull _ (@index_scan_plan _ _ list_am demo_table (fun _ => true) demo_orderby None None
               (fun k => k) false demo_mem 20) 20 demo_iss forward_estate =
      Ok (node', e', selected None None (snd <$> out)) /\
    out ≡ₚ exact_items (fun _ => true) demo_orderby [int_key] (@visible demo_table demo_entries) /\
    StronglySorted (cle (cmp_orderbyvals [int_key])) (fst <$> out).
Proof.
  apply (@index_scan_reorders _ _ list_am demo_table (fun _ => true) demo_orderby None None
           (fun k => k) false demo_mem 20 demo_iss (@visible demo_table demo_entries)
           forward_estate 20).
  - apply demo_scan_fresh.
  - discriminate.
  - repeat constructor; cbn; unfold Datum in *; lia.
  - vm_compute. repeat constructor; intros; discriminate.
  - vm_compute. repeat constructor; intros; discriminate.
  - vm_compute. lia.
Defined.

(** The rows of that scan, as the model returns them. *)
Example demo_scan_rows :
  (do! ' (_, _, rows) <-
     @pull _ (@index_scan_plan _ _ list_am demo_table (fun _ => true) demo_orderby None None
                (fun k => k) false demo_mem 20) 20 demo_iss forward_estate ;; Ok rows) =
  Ok (int_row <$> [3; 7; 12; 19; 21; 26]).
Proof. vm_compute. reflexivity. Qed.
