(* ===== verification/HnswScan.v ===== *)
(** * vectordb/src/hnswindex.cpp: the HNSW access method's scan

    The index library's result iterator is a parameter here: it hands out a
    distance and a label per call.  [HnswTraversal] discharges it with the
    iterator of the vendored hnswlib.
    The scan turns labels into heap positions and decides when the traversal
    has left the neighbourhood of the query ([xs_inorder]): it keeps the
    smallest distances seen in a priority queue and raises the flag at the
    first result beyond all of them.  Distances are floats; only their order
    is used, so an integer stands for a float. *)

From Stdlib Require Import ZArith Lia.
From stdpp Require Import base list sorting strings.
From S2P Require Import Prelude SortSupport Executor IndexAm NodeSort.

Local Open Scope Z_scope.

(** ** Labels *)

(** [ItemPointerSet]: block number and 16-bit offset number. *)
Definition ItemPointerSet (blkno offnum : Z) : ItemPointer := blkno * 65536 + offnum.

(** The label under which the builder stores a heap position. *)
Definition tuple_label (blkno offnum : Z) : Z :=
  let blockId := int32 blkno in
  let offset := int32 offnum in
  let number := uint64 blockId in
  uint64 (Z.shiftl number 32 + offset).

(** The heap position of a label, when it is scanned. *)
Definition label_tid (number : Z) : ItemPointer :=
  let blkno := uint32 (Z.shiftr number 32) in
  let offset := uint16 (uint32 number) in
  ItemPointerSet blkno offset.

(** ** std::priority_queue<float>, greatest first *)

Fixpoint pq_push (d : Z) (q : list Z) : list Z :=
  match q with
  | [] => [d]
  | x :: q' => if x <? d then d :: q else x :: pq_push d q'
  end.
Definition pq_pop (q : list Z) : list Z := tail q.
Definition pq_top (q : list Z) : res Z := match q with [] => Crash | x :: _ => Ok x end.

Section hnsw.
(** The library's iterator: its state, and the result of [Next]. *)
Context {I : Type}.
Variable Next : I -> res (I * option (Z * Z)).
(** The type of a query value (an array datum); [convert_array_to_vector]
    followed by the start of a traversal; for a range query the range is the
    first element of the array, which is out of bounds if that is empty. *)
Context {V : Type}.
Variable BeginScan : V -> I.
Variable BeginRangeScan : V -> res (Z * I).
(** Unrolling limit of the range filter's loop. *)
Variable fuel : nat.

(** The iterator is null until the traversal starts. *)
Record WorkSpace := mk_ws { resultIterator : option I; distanceQueue : list Z }.

Record HNSWScanOpaqueData := mk_hnsw {
  first : bool;
  hasRangeFilter : bool;
  inRange : bool;
  range : Z;
  workSpace : option WorkSpace;
  (* the scan keys, which live in the descriptor *)
  keyData : key_space V;
  orderByData : key_space V
}.

Abbreviation desc := (IndexScanDescData HNSWScanOpaqueData).
Implicit Types (scan : desc) (st : HNSWScanOpaqueData).

Definition set_opaque scan st : desc :=
  mk_scan (kill_prior_tuple scan) (xactStartedInRecovery scan) st (xs_heaptid_orig scan)
    (xs_heaptid scan) (xs_heap_continue scan) (xs_recheck scan) (xs_orderbyvals scan)
    (xs_recheckorderby scan) (xs_inorder scan).
Definition set_xs_inorder scan (b : bool) : desc :=
  mk_scan (kill_prior_tuple scan) (xactStartedInRecovery scan) (opaque scan)
    (xs_heaptid_orig scan) (xs_heaptid scan) (xs_heap_continue scan) (xs_recheck scan)
    (xs_orderbyvals scan) (xs_recheckorderby scan) b.
(** The result's heap position and distance; the index knows the value. *)
Definition set_result scan (dist label : Z) : desc :=
  mk_scan (kill_prior_tuple scan) (xactStartedInRecovery scan) (opaque scan)
    (xs_heaptid_orig scan) (label_tid label) (xs_heap_continue scan) (xs_recheck scan)
    [Some dist] false (xs_inorder scan).

Definition with_ws st (ws : option WorkSpace) : HNSWScanOpaqueData :=
  mk_hnsw (first st) (hasRangeFilter st) (inRange st) (range st) ws (keyData st) (orderByData st).

(** [mem] is what [palloc] returned. *)
Definition hnsw_begin_scan (nkeys norderbys : Z) (recovery : bool) (mem : desc) : desc :=
  let scan := RelationGetIndexScan (opaque mem) recovery mem in
  let st := opaque mem in
  let st := mk_hnsw true (hasRangeFilter st) (inRange st) (range st) None (key_workspace nkeys)
              (key_workspace norderbys) in
  mk_scan (kill_prior_tuple scan) (xactStartedInRecovery scan) st (xs_heaptid_orig scan)
    (xs_heaptid scan) (xs_heap_continue scan) (xs_recheck scan) [Some 0]
    (xs_recheckorderby scan) (xs_inorder scan).

(** [HNSWIndexScan::EndScan] calls a method of the iterator. *)
Definition EndScan (ws : WorkSpace) : res unit :=
  match resultIterator ws with Some _ => Ok tt | None => Crash end.

Definition hnsw_rescan (keys : option (option V) * option (option V)) scan : res desc :=
  let st := opaque scan in
  do! _ <- match workSpace st with Some ws => EndScan ws | None => Ok tt end ;;
  Ok (set_opaque scan
        (mk_hnsw true (hasRangeFilter st) (inRange st) (range st) None
           (fill_keys (keyData st) (fst keys)) (fill_keys (orderByData st) (snd keys)))).

Definition hnsw_endscan scan : res unit :=
  match workSpace (opaque scan) with
  | None => Crash
  | Some ws => EndScan ws
  end.

Definition queueThreshold : Z := 50.
Definition distanceThreshold : Z := 3.

(** The first call of a scan; the flag says whether there is a query.  Keys
    that were never filled in are uninitialized memory. *)
Definition hnsw_start scan : res (desc * bool) :=
  let st := opaque scan in
  let null := set_opaque scan (with_ws st (Some (mk_ws None []))) in
  match orderByData st with
  | NoKeys =>
    match keyData st with
    | NoKeys | Filled None => Ok (null, false)
    | Unfilled => Crash
    | Filled (Some value) =>
      do! ' (rng, it) <- BeginRangeScan value ;;
      let st := mk_hnsw false true false rng (Some (mk_ws (Some it) [])) (keyData st)
                  (orderByData st) in
      Ok (set_xs_inorder (set_opaque scan st) false, true)
    end
  | Unfilled => Crash
  | Filled None => Ok (null, false)
  | Filled (Some value) =>
    let st := mk_hnsw false false (inRange st) 86 (Some (mk_ws (Some (BeginScan value)) []))
                (keyData st) (orderByData st) in
    Ok (set_xs_inorder (set_opaque scan st) false, true)
  end.

(** ORDER BY scans: note the distance, or raise the flag. *)
Definition hnsw_note (st : HNSWScanOpaqueData) (ws : WorkSpace) (inorder : bool) (dist : Z)
    : res (WorkSpace * bool) :=
  if inorder then Ok (ws, true)
  else
    let q := distanceQueue ws in
    do! beyond <-
      (if zlen q =? range st then do! t <- pq_top q ;; Ok (t <? dist) else Ok false) ;;
    if beyond then Ok (ws, true)
    else
      let q := if zlen q =? range st then pq_pop q else q in
      Ok (mk_ws (resultIterator ws) (pq_push dist q), false).

(** Range scans before the first hit: keep the closest distances; [None]
    gives up. *)
Definition range_note (ws : WorkSpace) (dist : Z) : res (option WorkSpace) :=
  let q := distanceQueue ws in
  do! closer <-
    (if zlen q <? queueThreshold then Ok true else do! t <- pq_top q ;; Ok (dist <? t)) ;;
  if closer then
    let q := if zlen q =? queueThreshold then pq_pop q else q in
    Ok (Some (mk_ws (resultIterator ws) (pq_push dist q)))
  else Ok None.

(** [i] counts the results out of range in this call. *)
Fixpoint hnsw_loop (n : nat) (i : Z) scan : res (desc * bool) :=
  match n with
  | O => NoFuel
  | Datatypes.S n =>
    let st := opaque scan in
    match workSpace st with
    | None | Some (mk_ws None _) => Crash
    | Some (mk_ws (Some it) q) =>
      do! ' (it, result) <- Next it ;;
      let ws := mk_ws (Some it) q in
      match result with
      | None => Ok (set_opaque scan (with_ws st (Some ws)), false)
      | Some (dist, label) =>
        if hasRangeFilter st then
          do! noted <- (if inRange st then Ok (Some ws) else range_note ws dist) ;;
          match noted with
          | None => Ok (set_opaque scan (with_ws st (Some ws)), false)
          | Some ws =>
            let scan := set_opaque scan (with_ws st (Some ws)) in
            if range st <? dist then
              let i := i + 1 in
              if inRange st && (i >=? distanceThreshold) then Ok (scan, false)
              else hnsw_loop n i scan
            else
              let st := opaque scan in
              let st := mk_hnsw (first st) (hasRangeFilter st) true (range st) (workSpace st)
                          (keyData st) (orderByData st) in
              Ok (set_result (set_opaque scan st) dist label, true)
          end
        else
          do! ' (ws, inorder) <- hnsw_note st ws (xs_inorder scan) dist ;;
          let scan := set_xs_inorder (set_opaque scan (with_ws st (Some ws))) inorder in
          Ok (set_result scan dist label, true)
      end
    end
  end.

Definition hnsw_gettuple scan (dir : ScanDirection) : res (desc * bool) :=
  if first (opaque scan) then
    do! ' (scan, query) <- hnsw_start scan ;;
    if query then hnsw_loop fuel 0 scan else Ok (scan, false)
  else hnsw_loop fuel 0 scan.

Definition hnsw_am
    : IndexAmRoutine HNSWScanOpaqueData (option (option V) * option (option V)) := {|
  ambeginscan := fun keys => hnsw_begin_scan (num_keys (fst keys)) (num_keys (snd keys));
  amrescan := hnsw_rescan;
  amgettuple := hnsw_gettuple
|}.
End hnsw.

Arguments mk_ws {I}.
Arguments resultIterator {I}.
Arguments distanceQueue {I}.
Arguments mk_hnsw {I V}.
Arguments first {I V}.
Arguments hasRangeFilter {I V}.
Arguments inRange {I V}.
Arguments range {I V}.
Arguments workSpace {I V}.
Arguments keyData {I V}.
Arguments orderByData {I V}.

(** ** The priority queue *)

Lemma pq_push_perm d q : pq_push d q ≡ₚ d :: q.
Proof.
  induction q as [|x q IH]; [done|]. cbn. destruct (x <? d); [done|].
  rewrite IH. by rewrite Permutation_swap.
Qed.

Lemma pq_push_sorted d q : StronglySorted Z.ge q -> StronglySorted Z.ge (pq_push d q).
Proof.
  induction q as [|x q IH]; cbn; intros Hs; [by repeat constructor|].
  apply StronglySorted_inv in Hs as [Hs Hf]. destruct (Z.ltb_spec x d).
  - constructor; [by constructor|]. constructor; [lia|]. eapply Forall_impl; [exact Hf|].
    intros y Hy. cbn in Hy. lia.
  - constructor; [by apply IH|]. rewrite pq_push_perm. constructor; [lia|done].
Qed.

(** ** When the flag goes up *)

(** How many earlier results are closer than [d]. *)
Definition count_closer (seen : list Z) (d : Z) : Z := zlen (filter (fun x => x < d) seen).

(** What the flag means: from the first result on that lies beyond 86 others. *)
Fixpoint settled_flags (seen : list Z) (up : bool) (dists : list Z) : list bool :=
  match dists with
  | [] => []
  | d :: dists =>
    let up := up || (86 <=? count_closer seen d) in
    up :: settled_flags (seen ++ [d]) up dists
  end.

(** A queue of at most [cap] distances holds the smallest of those seen. *)
Record nearest (cap : Z) (q seen : list Z) : Prop := {
  nr_sorted : StronglySorted Z.ge q;
  nr_len : zlen q = Z.min cap (zlen seen);
  nr_split : exists far, seen ≡ₚ q ++ far /\ forall x y, x ∈ q -> y ∈ far -> x <= y
}.

Lemma nearest_nil cap : 0 <= cap -> nearest cap [] [].
Proof.
  intros Hc. split; [constructor| |].
  - change (zlen []) with 0. lia.
  - exists []. split; [done|]. intros x y Hx. by apply not_elem_of_nil in Hx.
Qed.

(** How many distances seen pass a test that closer ones pass too: the top of
    the full queue decides whether there are [cap] of them. *)
Section count.
Variables (P : Z -> Prop) (HP : forall x, Decision (P x)).
Hypothesis Hdown : forall x y, x <= y -> P y -> P x.

Lemma filter_all_zlen (l : list Z) : (forall x, x ∈ l -> P x) -> zlen (filter P l) = zlen l.
Proof.
  intros Ha. induction l as [|x l IH]; [done|].
  rewrite filter_cons_True by (apply Ha; by left). rewrite !zlen_cons, IH; [done|].
  intros y Hy. apply Ha. by right.
Qed.

Lemma filter_none_zlen (l : list Z) : (forall x, x ∈ l -> ~ P x) -> zlen (filter P l) = 0.
Proof.
  intros Ha. induction l as [|x l IH]; [done|].
  rewrite filter_cons_False by (apply Ha; by left). apply IH. intros y Hy. apply Ha. by right.
Qed.

Lemma nearest_count cap q seen :
  nearest cap q seen -> 0 < cap ->
  (cap <= zlen (filter P seen) <-> zlen q = cap /\ exists t, head q = Some t /\ P t).
Proof.
  intros [Hs Hl (far & Hp & Hsep)] Hcap.
  assert (Hsum : zlen (filter P seen) = zlen (filter P q) + zlen (filter P far)).
  { unfold zlen. rewrite Hp, filter_app, length_app. lia. }
  pose proof (f_equal Z.of_nat (Permutation_length Hp)) as Hlen. rewrite length_app in Hlen.
  pose proof (length_filter P q). pose proof (length_filter P far). unfold zlen in *. split.
  - intros Hc. assert (Hfull : Z.of_nat (length q) = cap) by lia. split; [done|].
    destruct q as [|t q]; [cbn in Hfull; lia|]. exists t. split; [done|].
    destruct (HP t) as [|Hn]; [done|]. exfalso.
    pose proof (filter_none_zlen far) as Hfar. unfold zlen in Hfar.
    rewrite Hfar in Hsum by (intros y Hy Hpy; apply Hn, (Hdown t y); [|done]; by apply Hsep; [left|]).
    rewrite filter_cons_False in Hsum by done. pose proof (length_filter P q). cbn in Hfull. lia.
  - intros (Hfull & t & Ht & Htd). pose proof (filter_all_zlen q) as Hq. unfold zlen in Hq.
    rewrite Hq in Hsum; [lia|]. intros x Hx. destruct q as [|t' q]; [done|]. injection Ht as ->.
    apply StronglySorted_inv in Hs as [_ Hf]. apply elem_of_cons in Hx as [->|Hx]; [done|].
    apply (proj1 (Forall_forall _ _) Hf) in Hx. apply (Hdown x t); [lia|done].
Qed.
End count.

(** Noting a distance that is no farther than the top of a full queue. *)
Lemma nearest_push cap q seen d :
  nearest cap q seen -> 0 < cap -> (forall t, zlen q = cap -> head q = Some t -> d <= t) ->
  nearest cap (pq_push d (if zlen q =? cap then pq_pop q else q)) (seen ++ [d]).
Proof.
  intros [Hs Hl (far & Hp & Hsep)] Hcap Hd.
  pose proof (f_equal Z.of_nat (Permutation_length Hp)) as Hlen. rewrite length_app in Hlen.
  assert (Hpl : forall x, zlen (pq_push d x) = 1 + zlen x).
  { intros x. unfold zlen. rewrite pq_push_perm. cbn [length]. lia. }
  destruct (Z.eqb_spec (zlen q) cap) as [Hfull|Hnf].
  - destruct q as [|t q]; [change (zlen []) with 0 in Hfull; lia|]. cbn [pq_pop tail].
    apply StronglySorted_inv in Hs as [Hs Hf]. specialize (Hd t Hfull eq_refl).
    assert (Hqt : forall x, x ∈ q -> x <= t).
    { intros x Hx. apply (proj1 (Forall_forall _ _) Hf) in Hx. lia. }
    split.
    + by apply pq_push_sorted.
    + rewrite Hpl, zlen_app. rewrite zlen_cons in Hfull. rewrite zlen_cons in Hl.
      change (zlen [d]) with 1. lia.
    + exists (t :: far). split.
      * rewrite Hp, pq_push_perm, <- Permutation_cons_append. cbn. constructor.
        apply Permutation_middle.
      * intros x y. rewrite pq_push_perm, !elem_of_cons. intros [->|Hx] [->|Hy].
        -- done.
        -- specialize (Hsep t y ltac:(by left) Hy). lia.
        -- by apply Hqt.
        -- apply Hsep; [by right|done].
  - assert (far = []) as ->.
    { apply zlen_0_inv. unfold zlen in *. lia. }
    split.
    + by apply pq_push_sorted.
    + rewrite Hpl, zlen_app. change (zlen [d]) with 1. lia.
    + exists []. split; [|intros x y _ Hy; by apply not_elem_of_nil in Hy].
      rewrite !app_nil_r in *. by rewrite pq_push_perm, Hp, <- Permutation_cons_append.
Qed.

(** The test of an ORDER BY scan is the count. *)
Lemma nearest_beyond q seen d :
  nearest 86 q seen ->
  (86 <= count_closer seen d <-> zlen q = 86 /\ exists t, head q = Some t /\ t < d).
Proof. intros Hn. apply (nearest_count (fun x => x < d)); [lia|done|lia]. Qed.

(** The index entry of a result, with the recheck and order flags of the
    descriptor. *)
Definition result_entry (rc inorder : bool) (x : Z * Z) : ientry :=
  mk_ientry (label_tid (snd x)) rc [Some (fst x)] false inorder.

Section hnsw_spec.
Context {I V : Type}.
Variable Next : I -> res (I * option (Z * Z)).
Variable BeginScan : V -> I.
Variable BeginRangeScan : V -> res (Z * I).
Variable fuel : nat.

Abbreviation ost := (@HNSWScanOpaqueData I V).
Implicit Types (scan : IndexScanDescData ost) (st : ost).

(** The results the iterator still has. *)
Fixpoint iter_at (it : I) (results : list (Z * Z)) : Prop :=
  match results with
  | [] => exists it', Next it = Ok (it', None)
  | r :: results => exists it', Next it = Ok (it', Some r) /\ iter_at it' results
  end.

(** The index entries of a scan. *)
Definition hnsw_entries (rc : bool) (seen : list Z) (up : bool) (results : list (Z * Z))
    : list ientry :=
  zip_with (fun x f => result_entry rc f x) results
    (settled_flags seen up (fst <$> results)).

Lemma hnsw_note_ok st it q seen up d :
  range st = 86 -> (up = false -> nearest 86 q seen) ->
  exists q', hnsw_note st (mk_ws it q) up d =
      Ok (mk_ws it q', up || (86 <=? count_closer seen d)) /\
    (up || (86 <=? count_closer seen d) = false -> nearest 86 q' (seen ++ [d])).
Proof.
  intros Hr Hq. unfold hnsw_note. destruct up; [by exists q|]. specialize (Hq eq_refl).
  cbn [distanceQueue resultIterator orb]. rewrite Hr.
  pose proof (nearest_beyond q seen d Hq) as Hb.
  destruct (Z.leb_spec 86 (count_closer seen d)) as [Hc|Hc].
  - apply Hb in Hc as (Hfull & t & Ht & Htd). rewrite Hfull. cbn [Z.eqb Pos.eqb].
    destruct q as [|t' q]; [done|]. injection Ht as ->. cbn [pq_top rbind].
    destruct (Z.ltb_spec t d); [|lia]. by exists (t :: q).
  - assert (Hno : forall k, (if zlen q =? 86 then do! t <- pq_top q ;; Ok (t <? d) else Ok false) = k ->
      k = Ok false).
    { intros k <-. destruct (Z.eqb_spec (zlen q) 86) as [Hfull|]; [|done].
      destruct q as [|t q]; [done|]. cbn [pq_top rbind]. destruct (Z.ltb_spec t d); [|done].
      exfalso. assert (86 <= count_closer seen d); [|lia]. apply Hb. split; [done|]. by exists t. }
    rewrite (Hno _ eq_refl), rbind_ret. eexists. split; [done|]. intros _.
    apply nearest_push; [done|lia|]. intros t Hfull Ht. destruct (Z.le_gt_cases d t); [done|].
    exfalso. assert (86 <= count_closer seen d); [|lia]. apply Hb. split; [done|]. exists t. split; [done|lia].
Qed.

Hypothesis Hfuel : (0 < fuel)%nat.

Record hnsw_at scan (results : list (Z * Z)) (seen : list Z) : Prop := {
  ha_first : first (opaque scan) = false;
  ha_order : hasRangeFilter (opaque scan) = false;
  ha_range : range (opaque scan) = 86;
  ha_ws : exists it q, workSpace (opaque scan) = Some (mk_ws (Some it) q) /\ iter_at it results /\
    (xs_inorder scan = false -> nearest 86 q seen)
}.

Abbreviation am := (hnsw_am Next BeginScan BeginRangeScan fuel).

Lemma hnsw_at_delivers scan results seen :
  hnsw_at scan results seen ->
  @am_delivers _ _ am scan (hnsw_entries (xs_recheck scan) seen (xs_inorder scan) results).
Proof.
  revert scan seen. induction results as [|[d lab] results IH]; intros scan seen
    [Hf Ho Hr (it & q & Hws & Hit & Hq)]; cbn.
  all: intros scan' (Hop & Hrc & _ & _ & Hio); unfold hnsw_gettuple; rewrite <- Hop, Hf.
  all: destruct fuel as [|n]; [lia|]; cbn [hnsw_loop]; rewrite <- Hop, Hws.
  - destruct Hit as [it' ->]. by eexists.
  - destruct Hit as (it' & -> & Hit). rewrite rbind_ret. cbn [snd fst]. rewrite Ho, <- Hio.
    destruct (hnsw_note_ok (opaque scan) (Some it') q seen (xs_inorder scan) d Hr Hq)
      as (q' & -> & Hq'). rewrite rbind_ret. cbv iota.
    eexists. split; [done|]. split; [cbn; by rewrite Hrc|].
    match goal with |- am_delivers ?s _ => specialize (IH s (seen ++ [d])) end.
    cbn in IH. rewrite <- Hrc in IH. apply IH. split; cbn; try done. eauto 10.
Qed.

(** A scan just restarted with a query vector. *)
Lemma hnsw_start_delivers scan scan1 l :
  first (opaque scan) = true -> hnsw_start BeginScan BeginRangeScan scan = Ok (scan1, true) ->
  first (opaque scan1) = false ->
  @am_delivers _ _ am scan1 l -> @am_delivers _ _ am scan l.
Proof.
  intros Hf Hst Hf1 Hd. eapply am_delivers_start; [|exact Hd]. intros s Hs.
  assert (Hs1 : exists s1, hnsw_start BeginScan BeginRangeScan s = Ok (s1, true) /\ am_same scan1 s1).
  { destruct Hs as (Hop & H2 & H3 & H4 & H5). unfold hnsw_start in *. rewrite <- Hop.
    destruct (orderByData _) as [| |[v|]]; [destruct (keyData _) as [| |[v|]]|..]; try done.
    1: destruct (BeginRangeScan v) as [[rng it]| | |]; try done; rewrite rbind_ret in *.
    all: eexists; (split; [reflexivity|]); injection Hst as <-; by repeat split. }
  destruct Hs1 as (s1 & Heq & Hsame). exists s1. split; [done|].
  cbn [amgettuple hnsw_am]. unfold hnsw_gettuple.
  destruct Hs as (Hop & _). destruct Hsame as (Hop1 & _).
  by rewrite <- Hop, Hf, Heq, rbind_ret, <- Hop1, Hf1.
Qed.

Lemma hnsw_begin_delivers scan v results :
  first (opaque scan) = true -> orderByData (opaque scan) = Filled (Some v) ->
  iter_at (BeginScan v) results ->
  @am_delivers _ _ am scan (hnsw_entries (xs_recheck scan) [] false results).
Proof.
  intros Hf Hob Hit.
  destruct (hnsw_start BeginScan BeginRangeScan scan) as [[scan1 q]| | |] eqn:Hst;
    pose proof Hst as Hst'; unfold hnsw_start in Hst'; rewrite Hob in Hst'; try done.
  injection Hst' as Hs1 <-.
  assert (Hat : hnsw_at scan1 results []).
  { rewrite <- Hs1. split; cbn; try done.
    eexists _, _. split; [done|]. split; [done|]. intros _. by apply nearest_nil. }
  pose proof (hnsw_at_delivers scan1 results [] Hat) as Hd.
  assert (Hrc : xs_recheck scan1 = xs_recheck scan /\ xs_inorder scan1 = false).
  { by rewrite <- Hs1. }
  destruct Hrc as [Hrc Hio]. rewrite Hrc, Hio in Hd.
  eapply hnsw_start_delivers; [done|exact Hst|by rewrite <- Hs1|exact Hd].
Qed.
End hnsw_spec.

(** ** Relaxed monotonicity *)

(** The traversal settles: once a result lies beyond 86 earlier ones, every
    later one does. *)
Definition settles (dists : list Z) : Prop :=
  forall pre d rest, dists = pre ++ d :: rest -> 86 <= count_closer pre d ->
    forall y, y ∈ rest -> 86 <= zlen (filter (fun x => x <= y) pre).

(** A raised flag has a cause. *)
Lemma settled_flags_cause seen up dists pre d rest fs fpre frest :
  length fs = length dists -> fs = settled_flags seen up dists ->
  dists = pre ++ d :: rest -> fs = fpre ++ true :: frest -> length fpre = length pre ->
  up = true \/ exists p0 d0 r0, pre ++ [d] = p0 ++ d0 :: r0 /\ 86 <= count_closer (seen ++ p0) d0.
Proof.
  revert seen up pre fs fpre. induction dists as [|d1 dists IH];
    intros seen up pre fs fpre Hlen Hfs Hd Hf Hl; [by destruct pre|].
  cbn in Hfs. destruct pre as [|d2 pre], fpre as [|f fpre]; try done; cbn in *.
  - injection Hd as -> ->. rewrite Hfs in Hf. injection Hf as Hup _.
    apply orb_true_iff in Hup as [->|Hc%Z.leb_le]; [by left|]. right. exists [], d, [].
    by rewrite app_nil_r.
  - injection Hd as -> ->. rewrite Hfs in Hf. injection Hf as Hf1 Hf2.
    edestruct (IH (seen ++ [d2])) as [Hup|(p0 & d0 & r0 & Heq & Hc)];
      [|reflexivity|reflexivity|exact Hf2|lia| |].
    + rewrite Hfs in Hlen. cbn in Hlen. lia.
    + apply orb_true_iff in Hup as [->|Hc%Z.leb_le]; [by left|]. right.
      exists [], d2, (pre ++ [d]). by rewrite app_nil_r.
    + right. exists (d2 :: p0), d0, r0. rewrite <- app_assoc in Hc. by rewrite Heq.
Qed.

Lemma settled_flags_length seen up ds : length (settled_flags seen up ds) = length ds.
Proof.
  revert seen up. induction ds as [|d ds IH]; intros seen up; cbn; [done|]. by rewrite IH.
Qed.

Section rows.
Variables (cmp : row -> row -> Z) (dist_of : row -> Z).

Lemma count_le_dist rs y :
  (forall r, r ∈ rs -> cle cmp r y <-> dist_of r <= dist_of y) ->
  count_le cmp rs y = zlen (filter (fun x => x <= dist_of y) (dist_of <$> rs)).
Proof.
  unfold count_le. induction rs as [|r rs IH]; intros Hd; [done|].
  rewrite fmap_cons. specialize (IH ltac:(intros; apply Hd; by right)).
  specialize (Hd r ltac:(by left)). destruct (decide (dist_of r <= dist_of y)) as [Hle|Hn].
  - rewrite !filter_cons_True by (by rewrite ?Hd). by rewrite !zlen_cons, IH.
  - rewrite !filter_cons_False by (by rewrite ?Hd). done.
Qed.

(** A settling traversal makes the flagged rows relaxed monotone, for as
    many rows as the access method counts. *)
Lemma settled_relaxed_monotone rs k :
  (forall r r', r ∈ rs -> r' ∈ rs -> cle cmp r r' <-> dist_of r <= dist_of r') ->
  settles (dist_of <$> rs) -> k <= 86 ->
  relaxed_monotone cmp k (zip rs (settled_flags [] false (dist_of <$> rs))).
Proof.
  intros Hd Hset Hk pre r rest Heq y Hy.
  set (fs := settled_flags [] false (dist_of <$> rs)) in *.
  assert (Hrs : rs = pre.*1 ++ r :: rest.*1).
  { pose proof (f_equal (fmap fst) Heq) as Hf. rewrite fst_zip in Hf.
    - by rewrite fmap_app in Hf.
    - unfold fs. by rewrite settled_flags_length, length_fmap. }
  assert (Hfs : fs = pre.*2 ++ true :: rest.*2).
  { pose proof (f_equal (fmap snd) Heq) as Hf. rewrite snd_zip in Hf.
    - by rewrite fmap_app in Hf.
    - unfold fs. by rewrite settled_flags_length, length_fmap. }
  destruct (settled_flags_cause [] false (dist_of <$> rs) (dist_of <$> pre.*1) (dist_of r)
    (dist_of <$> rest.*1) fs (pre.*2) (rest.*2)) as [?|(p0 & d0 & r0 & Hp0 & Hc)].
  - apply settled_flags_length.
  - done.
  - rewrite Hrs at 1. by rewrite fmap_app.
  - done.
  - by rewrite !length_fmap.
  - done.
  - assert (Hyr : dist_of y ∈ r0 ++ (dist_of <$> rest.*1)).
    { apply elem_of_app. right. apply list_elem_of_fmap. eauto. }
    assert (Hsplit : dist_of <$> rs = p0 ++ d0 :: r0 ++ (dist_of <$> rest.*1)).
    { rewrite Hrs, fmap_app, fmap_cons, cons_middle, app_assoc, Hp0. by rewrite <- app_assoc. }
    specialize (Hset p0 d0 _ Hsplit Hc (dist_of y) Hyr).
    rewrite count_le_dist.
    + rewrite fmap_app. cbn. rewrite Hp0, filter_app, zlen_app.
      pose proof (zlen_nonneg (filter (fun x => x <= dist_of y) (d0 :: r0))). lia.
    + intros r' Hr'. apply Hd; rewrite Hrs.
      * rewrite cons_middle, app_assoc. apply elem_of_app. by left.
      * apply elem_of_app. right. by right.
Qed.
End rows.

(** The label is the block number in the high half and the offset number in
    the low one. *)
Lemma tuple_label_eq blkno offnum :
  0 <= blkno < 4294967296 -> 0 <= offnum < 65536 ->
  tuple_label blkno offnum = blkno * 4294967296 + offnum.
Proof.
  intros Hb Ho. unfold tuple_label. rewrite (int32_id offnum) by (unfold is_int32, INT_MIN, INT_MAX; lia).
  rewrite Z.shiftl_mul_pow2 by lia. change (2 ^ 32) with 4294967296.
  assert (Hsx : exists q, uint64 (int32 blkno) = blkno + 4294967296 * q).
  { unfold uint64, int32. destruct (Z.lt_ge_cases blkno 2147483648).
    - exists 0. rewrite (Z.mod_small (blkno + 2147483648)) by lia. rewrite Z.mod_small; lia.
    - exists (4294967295).
      replace ((blkno + 2147483648) mod 4294967296) with (blkno - 2147483648).
      + replace (blkno - 2147483648 - 2147483648)
          with (blkno + 4294967296 * 4294967295 + (-1) * 18446744073709551616) by lia.
        rewrite Z.mod_add by lia. rewrite Z.mod_small; lia.
      + apply Z.mod_unique with 1; lia. }
  destruct Hsx as [q ->]. unfold uint64.
  replace ((blkno + 4294967296 * q) * 4294967296 + offnum)
    with (blkno * 4294967296 + offnum + q * 18446744073709551616) by lia.
  rewrite Z.mod_add by lia. apply Z.mod_small. lia.
Qed.

(** The label of a heap position, read back by the scan, is that position:
    the sign extension of the block number and the narrowing to 16 bits lose
    nothing. *)
Lemma label_roundtrip_ok blkno offnum :
  0 <= blkno < 4294967296 -> 0 <= offnum < 65536 ->
  label_tid (tuple_label blkno offnum) = ItemPointerSet blkno offnum.
Proof.
  intros Hb Ho. rewrite tuple_label_eq by done. unfold label_tid. f_equal.
  - rewrite Z.shiftr_div_pow2 by lia. change (2 ^ 32) with 4294967296.
    rewrite Z.div_add_l by lia. rewrite (Z.div_small offnum), Z.add_0_r by lia. apply uint32_id. lia.
  - unfold uint16, uint32. rewrite Z.add_comm, Z.mod_add by lia.
    rewrite (Z.mod_small offnum 4294967296) by lia. apply Z.mod_small. lia.
Qed.

Example label_roundtrip_high_block :
  label_tid (tuple_label 4294967295 7) = ItemPointerSet 4294967295 7.
Proof. reflexivity. Qed.

(** A NULL query vector: the first call allocates the work space but no
    iterator and reports the end of the scan; ending the scan (or restarting
    it) then calls a method of the null iterator. *)
Theorem hnsw_null_query_crashes {I V} Next (BeginScan : V -> I) BeginRangeScan fuel recovery mem :
  exists scan scan',
    hnsw_rescan (None, Some None) (hnsw_begin_scan 0 1 recovery mem) = Ok scan /\
    hnsw_gettuple Next BeginScan BeginRangeScan fuel scan ForwardScanDirection = Ok (scan', false) /\
    hnsw_endscan scan' = Crash /\ forall keys, hnsw_rescan keys scan' = Crash.
Proof. eexists _, _. split; [reflexivity|]. split; [reflexivity|]. by split. Qed.

(** C22. What [xs_inorder] says.  An HNSW ORDER BY scan hands out exactly the
    results of the traversal, in its order and with their distances, and the
    flag of a result is up exactly when this or an earlier result lies beyond
    86 results before it; the bounded queue of 86 distances is a faithful
    summary of all that was seen. *)
Theorem hnsw_scan_flags {I V} Next (BeginScan : V -> I) BeginRangeScan fuel scan v results :
  (0 < fuel)%nat -> first (opaque scan) = true -> orderByData (opaque scan) = Filled (Some v) ->
  iter_at Next (BeginScan v) results ->
  @am_delivers _ _ (hnsw_am Next BeginScan BeginRangeScan fuel) scan
    (hnsw_entries (xs_recheck scan) [] false results).
Proof. intros Hf. apply hnsw_begin_delivers. exact Hf. Qed.

(** Ninety results in order: the flag goes up with the 87th. *)
Definition demo_restarted : IndexScanDescData (@HNSWScanOpaqueData (list (Z * Z)) unit) :=
  mk_scan false false (mk_hnsw true false false 0 None NoKeys (Filled (Some tt))) 0 0 false false []
    false true.
Definition ninety_results : list (Z * Z) := (fun i => (i, i)) <$> seqZ 1 90.
Definition demo_next {A} (it : list A) : res (list A * option A) :=
  match it with [] => Ok ([], None) | r :: it => Ok (it, Some r) end.

Lemma hnsw_scan_flags_witness :
  @am_delivers _ _ (hnsw_am demo_next (fun _ : unit => ninety_results) (fun _ => Crash) 5) demo_restarted
    (hnsw_entries false [] false ninety_results) /\
  ie_inorder <$> hnsw_entries false [] false ninety_results = replicate 86 false ++ replicate 4 true.
Proof.
  split; [|vm_compute; reflexivity].
  apply (hnsw_scan_flags demo_next (fun _ : unit => ninety_results) (fun _ => Crash) 5 demo_restarted tt ninety_results).
  - lia.
  - reflexivity.
  - reflexivity.
  - generalize ninety_results as l. induction l as [|x l IH]; cbn; eauto.
Defined.
