(* ===== verification/HnswRange.v ===== *)
(** * vectordb/src/hnswindex.cpp: range scans

    [WHERE column <<->> array[range, ...]]: without an ORDER BY the access
    method answers a range query.  Until the first result in range it goes on
    as long as the traversal keeps getting closer (the queue of 50
    distances); after it, two misses in a row are passed over and the third
    ends the scan. *)

From Stdlib Require Import ZArith Lia.
From stdpp Require Import base list sorting strings.
From S2P Require Import Prelude SortSupport Executor IndexAm RangeSpec HnswScan.

Local Open Scope Z_scope.

(** No progress: 50 results seen before are at least as close. *)
Definition hnsw_giveup (seen : list Z) (d : Z) : bool :=
  queueThreshold <=? zlen (filter (fun x => x <= d) seen).

Abbreviation hnsw_hits := (range_hits hnsw_giveup distanceThreshold).
Abbreviation hnsw_stop := (range_stop hnsw_giveup distanceThreshold).

Lemma range_note_ok {I} (it : option I) q seen d :
  nearest queueThreshold q seen ->
  if hnsw_giveup seen d then range_note (mk_ws it q) d = Ok None
  else exists q', range_note (mk_ws it q) d = Ok (Some (mk_ws it q')) /\
    nearest queueThreshold q' (seen ++ [d]).
Proof.
  intros Hn. unfold range_note, hnsw_giveup. cbn [distanceQueue resultIterator].
  pose proof (nearest_count (fun x => x <= d) _
    (fun x y Hxy Hy => Z.le_trans x y d Hxy Hy) _ q seen Hn ltac:(done)) as Hc.
  pose proof (nr_len _ _ _ Hn) as Hl.
  destruct (Z.leb_spec queueThreshold (zlen (filter (fun x => x <= d) seen))) as [Hg|Hg].
  - apply Hc in Hg as (Hfull & t & Ht & Htd). rewrite Hfull, Z.ltb_irrefl.
    destruct q as [|t' q]; [done|]. injection Ht as ->. cbn [pq_top rbind].
    destruct (Z.ltb_spec d t); [lia|]. done.
  - assert (Htop : forall t, zlen q = queueThreshold -> head q = Some t -> d < t).
    { intros t Hfull Ht. destruct (Z.lt_ge_cases d t); [done|]. exfalso.
      enough (queueThreshold <= zlen (filter (fun x => x <= d) seen)) by lia. apply Hc.
      split; [done|]. exists t. split; [done|lia]. }
    assert (Hcloser : (if zlen q <? queueThreshold then Ok true
                       else do! t <- pq_top q ;; Ok (d <? t)) = Ok true).
    { destruct (Z.ltb_spec (zlen q) queueThreshold) as [|Hge]; [done|].
      assert (Hfull : zlen q = queueThreshold) by lia. destruct q as [|t q]; [done|].
      cbn [pq_top rbind]. specialize (Htop t Hfull eq_refl). by destruct (Z.ltb_spec d t); [|lia]. }
    rewrite Hcloser, rbind_ret. eexists. split; [done|]. apply nearest_push; [done|done|].
    intros t Hfull Ht. specialize (Htop t Hfull Ht). lia.
Qed.

Section hnsw_range.
Context {I V : Type}.
Variable Next : I -> res (I * option (Z * Z)).
Variable BeginScan : V -> I.
Variable BeginRangeScan : V -> res (Z * I).
Variable fuel : nat.

Abbreviation ost := (@HNSWScanOpaqueData I V).
Implicit Types (scan : IndexScanDescData ost) (st : ost) (results pre : list result).

(** A range scan that has read [pre]. *)
Record range_at (rng : Z) scan pre results : Prop := {
  rg_first : first (opaque scan) = false;
  rg_filter : hasRangeFilter (opaque scan) = true;
  rg_range : range (opaque scan) = rng;
  rg_hit : inRange (opaque scan) = existsb (in_range rng) pre;
  rg_ws : exists it q, workSpace (opaque scan) = Some (mk_ws (Some it) q) /\
    iter_at Next it results /\
    (inRange (opaque scan) = false -> nearest queueThreshold q (fst <$> pre))
}.

(** The queue's part of a turn: nothing after a hit, else the note. *)
Lemma range_turn rng pre it q d :
  (existsb (in_range rng) pre = false -> nearest queueThreshold q (fst <$> pre)) ->
  let noted := if existsb (in_range rng) pre then Ok (Some (mk_ws it q))
               else @range_note I (mk_ws it q) d in
  if negb (existsb (in_range rng) pre) && hnsw_giveup (fst <$> pre) d then noted = Ok None
  else exists q', noted = Ok (Some (mk_ws it q')) /\
    (existsb (in_range rng) pre = false -> nearest queueThreshold q' ((fst <$> pre) ++ [d])).
Proof.
  intros Hq. cbv zeta. destruct (existsb (in_range rng) pre).
  - exists q. by split.
  - pose proof (range_note_ok it q (fst <$> pre) d (Hq eq_refl)) as Hn. cbn [negb andb].
    destruct (hnsw_giveup _ d); [done|]. destruct Hn as (q' & -> & Hn). eauto.
Qed.

(** One call: it returns the next hit, or ends the scan. *)
Lemma hnsw_range_loop rng n scan pre results :
  range_at rng scan pre results -> (length results < n)%nat ->
  match hnsw_hits rng pre results with
  | [] => exists s2, hnsw_loop Next n (misses rng pre) scan = Ok (s2, false)
  | x :: out => exists s2 pre' results',
      hnsw_loop Next n (misses rng pre) scan = Ok (s2, true) /\
      entry_of s2 = result_entry (xs_recheck scan) (xs_inorder scan) x /\
      range_at rng s2 pre' results' /\ misses rng pre' = 0 /\
      out = hnsw_hits rng pre' results' /\ (length results' < length results)%nat
  end.
Proof.
  revert n scan pre. induction results as [|[d lab] results IH];
    intros n scan pre [Hf Hr Hrg Hh (it & q & Hws & Hit & Hq)] Hn;
    (destruct n as [|n]; [cbn in Hn; lia|]); cbn [hnsw_loop]; rewrite Hws.
  - destruct Hit as [it' ->]. cbn. by eexists.
  - destruct Hit as (it' & -> & Hit). rewrite rbind_ret, range_hits_cons, (range_stop_turn _ _ _ _ (d, lab)).
    rewrite Hr, Hh. rewrite Hh in Hq. cbn [fst snd].
    pose proof (range_turn rng pre (Some it') q d Hq) as Ht. cbv zeta in Ht.
    destruct (negb (existsb (in_range rng) pre) && hnsw_giveup (fst <$> pre) d).
    { rewrite Ht, rbind_ret. by eexists. }
    destruct Ht as (q' & -> & Hq'). rewrite rbind_ret, Hrg. cbv zeta. rewrite Z.geb_leb.
    change (in_range rng (d, lab)) with (d <=? rng). rewrite (Z.ltb_antisym d rng).
    destruct (d <=? rng) eqn:Hd; cbn [negb andb orb].
    + rewrite andb_false_r. eexists _, (pre ++ [(d, lab)]), results. split; [done|].
      split; [done|]. split; [|split; [|split; [done|cbn; lia]]].
      * split; cbn; try done.
        -- rewrite existsb_snoc. change (in_range rng (d, lab)) with (d <=? rng).
           by rewrite Hd, orb_true_r.
        -- by exists it', q'.
      * rewrite misses_snoc. change (in_range rng (d, lab)) with (d <=? rng). by rewrite Hd.
    + rewrite andb_true_r. destruct (existsb (in_range rng) pre && _) eqn:Hstop; [by eexists|].
      set (scan1 := set_opaque scan (with_ws (opaque scan) (Some (mk_ws (Some it') q')))).
      assert (Hat : range_at rng scan1 (pre ++ [(d, lab)]) results).
      { split; cbn; try done.
        - rewrite existsb_snoc. change (in_range rng (d, lab)) with (d <=? rng).
          by rewrite Hd, orb_false_r.
        - exists it', q'. split; [done|]. split; [done|]. rewrite Hh, fmap_app. exact Hq'. }
      specialize (IH n scan1 (pre ++ [(d, lab)]) Hat ltac:(cbn in Hn; lia)).
      rewrite misses_snoc in IH. change (in_range rng (d, lab)) with (d <=? rng) in IH.
      rewrite Hd in IH. destruct (hnsw_hits rng (pre ++ [(d, lab)]) results) as [|x out]; [exact IH|].
      destruct IH as (s2 & pre' & results' & H1 & H2 & H3 & H4 & H5 & H6).
      exists s2, pre', results'. split_and!; try done. cbn. lia.
Qed.

Abbreviation am := (hnsw_am Next BeginScan BeginRangeScan fuel).

Lemma range_at_same rng scan scan' pre results :
  am_same scan scan' -> range_at rng scan pre results -> range_at rng scan' pre results.
Proof. intros (Ho & _) [H1 H2 H3 H4 H5]. split; by rewrite <- Ho. Qed.

(** The calls of a range scan. *)
Lemma range_at_delivers rng scan pre results :
  range_at rng scan pre results -> misses rng pre = 0 -> (length results < fuel)%nat ->
  @am_delivers _ _ am scan
    (result_entry (xs_recheck scan) (xs_inorder scan) <$> hnsw_hits rng pre results).
Proof.
  intros Hat Hmiss Hf.
  apply (am_delivers_inv (fun s l => exists pre results, range_at rng s pre results /\
    misses rng pre = 0 /\ (length results < fuel)%nat /\
    l = result_entry (xs_recheck s) (xs_inorder s) <$> hnsw_hits rng pre results)); [| |eauto 10].
  - intros s s' l Hs (pre1 & r1 & H1 & H2 & H3 & ->). exists pre1, r1.
    pose proof Hs as (_ & <- & _ & _ & <-). split_and!; try done. by eapply range_at_same.
  - intros s l (pre1 & r1 & H1 & H2 & H3 & ->). cbn [amgettuple hnsw_am]. unfold hnsw_gettuple.
    rewrite (rg_first _ _ _ _ H1). rewrite <- H2.
    pose proof (hnsw_range_loop rng fuel s pre1 r1 H1 H3) as Hl.
    destruct (hnsw_hits rng pre1 r1) as [|x out]; cbn [fmap list_fmap]; [done|].
    destruct Hl as (s2 & pre2 & r2 & Hl & He & Hat2 & Hm2 & -> & Hlt). exists s2.
    split; [done|]. split; [done|]. exists pre2, r2. injection He as _ <- _ _ <-.
    split_and!; [done|congruence|lia|done].
Qed.

(** A scan just restarted with a range. *)
Lemma range_begin_delivers scan v rng it results :
  first (opaque scan) = true -> orderByData (opaque scan) = NoKeys ->
  keyData (opaque scan) = Filled (Some v) -> BeginRangeScan v = Ok (rng, it) ->
  iter_at Next it results -> (length results < fuel)%nat ->
  @am_delivers _ _ am scan (result_entry (xs_recheck scan) false <$> hnsw_hits rng [] results).
Proof.
  intros Hf Hob Hk Hv Hit Hfu.
  destruct (hnsw_start BeginScan BeginRangeScan scan) as [[scan1 q]| | |] eqn:Hst;
    pose proof Hst as Hst'; unfold hnsw_start in Hst'; rewrite Hob, Hk, Hv in Hst'; try done.
  injection Hst' as Hs1 <-.
  assert (Hat : range_at rng scan1 [] results).
  { rewrite <- Hs1. split; cbn; try done.
    exists it, []. split; [done|]. split; [done|]. intros _. by apply nearest_nil. }
  pose proof (range_at_delivers rng scan1 [] results Hat eq_refl Hfu) as Hd.
  assert (Hrc : xs_recheck scan1 = xs_recheck scan /\ xs_inorder scan1 = false).
  { by rewrite <- Hs1. }
  destruct Hrc as [Hrc Hio]. rewrite Hrc, Hio in Hd.
  eapply hnsw_start_delivers; [done|exact Hst|by rewrite <- Hs1|exact Hd].
Qed.
End hnsw_range.
