(* ===== verification/SptagScan.v ===== *)
(** * vectordb/src/index.cpp and index_scan.cpp: the SPTAG access method's scan

    The second access method of the extension, over the vendored
    SPTAG library: its result iterator is a parameter that hands
    out a distance and the metadata bytes of a vector.  The scan turns the
    metadata into a heap position and answers range queries; it never writes
    [xs_inorder]. *)

From Stdlib Require Import ZArith Lia.
From stdpp Require Import base list sorting strings.
From S2P Require Import Prelude SortSupport Executor IndexAm NodeSort HnswScan RangeSpec.

Local Open Scope Z_scope.

(** ** Metadata: eight bytes *)

(** [memcpy] from a 64-bit number to bytes and back, least significant first. *)
Fixpoint le_bytes (n : nat) (z : Z) : list Z :=
  match n with O => [] | S n => z mod 256 :: le_bytes n (z / 256) end.
Fixpoint le_number (bytes : list Z) : Z :=
  match bytes with [] => 0 | b :: bytes => b + 256 * le_number bytes end.

Lemma le_number_bytes n z : 0 <= z < 256 ^ Z.of_nat n -> le_number (le_bytes n z) = z.
Proof.
  revert z. induction n as [|n IH]; intros z Hz; [cbn in *; lia|]. cbn [le_bytes le_number].
  rewrite Nat2Z.inj_succ, Z.pow_succ_r in Hz by lia.
  rewrite IH; [pose proof (Z.div_mod z 256); lia|].
  split; [apply Z.div_pos; lia|]. apply Z.div_lt_upper_bound; lia.
Qed.

Lemma length_le_bytes n z : length (le_bytes n z) = n.
Proof. revert z. induction n as [|n IH]; intros z; cbn; [done|]. by rewrite IH. Qed.

Section sptag.
(** The library's iterator. *)
Context {I : Type}.
Variable Next : I -> res (I * option (Z * list Z)).
(** [GetIterator] of the index loaded for the relation. *)
Variable GetIterator : list Z -> I.
(** Unrolling limit of the range filter's loop. *)
Variable fuel : nat.

(** [data] is [None] while the pointer is not valid; the work space holds the
    iterator, null until the traversal starts. *)
Record SPTAGScanOpaqueData := mk_sptag {
  first : bool;
  hasRangeFilter : bool;
  inRange : bool;
  range : Z;
  data : option (list Z);
  workSpace : option (option I);
  (* the scan keys, which live in the descriptor *)
  keyData : key_space (list Z);
  orderByData : key_space (list Z)
}.

Abbreviation desc := (IndexScanDescData SPTAGScanOpaqueData).
Abbreviation scan_keys := (option (option (list Z)) * option (option (list Z)))%type.
Implicit Types (scan : desc) (st : SPTAGScanOpaqueData).

Definition sptag_set_opaque scan st : desc :=
  mk_scan (kill_prior_tuple scan) (xactStartedInRecovery scan) st (xs_heaptid_orig scan)
    (xs_heaptid scan) (xs_heap_continue scan) (xs_recheck scan) (xs_orderbyvals scan)
    (xs_recheckorderby scan) (xs_inorder scan).
Definition sptag_with_ws st (d : option (list Z)) (ws : option (option I)) : SPTAGScanOpaqueData :=
  mk_sptag (first st) (hasRangeFilter st) (inRange st) (range st) d ws (keyData st)
    (orderByData st).
Definition sptag_set_inRange st : SPTAGScanOpaqueData :=
  mk_sptag (first st) (hasRangeFilter st) true (range st) (data st) (workSpace st) (keyData st)
    (orderByData st).

(** [mem] is what [palloc] returned. *)
Definition sptag_begin_scan (nkeys norderbys : Z) (recovery : bool) (mem : desc) : desc :=
  let scan := RelationGetIndexScan (opaque mem) recovery mem in
  let st := opaque mem in
  let st := mk_sptag true (hasRangeFilter st) (inRange st) (range st) None None (key_workspace nkeys)
              (key_workspace norderbys) in
  mk_scan (kill_prior_tuple scan) (xactStartedInRecovery scan) st (xs_heaptid_orig scan)
    (xs_heaptid scan) (xs_heap_continue scan) (xs_recheck scan) [Some 0]
    (xs_recheckorderby scan) (xs_inorder scan).

(** [IndexScan::EndScan] and [Clear] call methods through the pointers. *)
Definition end_traversal (ws : option I) (d : option (list Z)) : res unit :=
  match ws, d with Some _, Some _ => Ok tt | _, _ => Crash end.

Definition sptag_rescan (keys : scan_keys) scan : res desc :=
  let st := opaque scan in
  do! st <-
    match workSpace st with
    | Some ws => do! _ <- end_traversal ws (data st) ;; Ok (sptag_with_ws st None None)
    | None => Ok st
    end ;;
  Ok (sptag_set_opaque scan
        (mk_sptag true (hasRangeFilter st) (inRange st) (range st) (data st) (workSpace st)
           (fill_keys (keyData st) (fst keys)) (fill_keys (orderByData st) (snd keys)))).

Definition sptag_endscan scan : res unit :=
  match workSpace (opaque scan) with
  | None => Crash
  | Some ws => end_traversal ws (data (opaque scan))
  end.

(** The first call of a scan; the flag says whether there is a query.  Keys
    that were never filled in are uninitialized memory. *)
Definition sptag_start scan : res (desc * bool) :=
  let st := sptag_with_ws (opaque scan) (Some []) (Some None) in
  match orderByData st with
  | NoKeys =>
    match keyData st with
    | NoKeys | Filled None => Ok (sptag_set_opaque scan st, false)
    | Unfilled => Crash
    | Filled (Some []) => Crash (* array[0] *)
    | Filled (Some (rng :: target)) =>
      Ok (sptag_set_opaque scan
            (mk_sptag false true false rng (Some target) (Some (Some (GetIterator target)))
               (keyData st) (orderByData st)), true)
    end
  | Unfilled => Crash
  | Filled None => Ok (sptag_set_opaque scan st, false)
  | Filled (Some target) =>
    Ok (sptag_set_opaque scan
          (mk_sptag false false (inRange st) (range st) (Some target)
             (Some (Some (GetIterator target))) (keyData st) (orderByData st)), true)
  end.

(** The result's heap position and distance. *)
Definition sptag_set_result scan (dist : Z) (meta : list Z) : desc :=
  mk_scan (kill_prior_tuple scan) (xactStartedInRecovery scan) (opaque scan)
    (xs_heaptid_orig scan) (label_tid (le_number (take 8 meta))) (xs_heap_continue scan)
    (xs_recheck scan) [Some dist] false (xs_inorder scan).

Definition threshold : Z := 5.

(** [i] counts the results out of range in this call. *)
Fixpoint sptag_loop (n : nat) (i : Z) scan : res (desc * bool) :=
  match n with
  | O => NoFuel
  | S n =>
    let st := opaque scan in
    match workSpace st with
    | None | Some None => Crash
    | Some (Some it) =>
      do! ' (it, result) <- Next it ;;
      let st := sptag_with_ws st (data st) (Some (Some it)) in
      let scan := sptag_set_opaque scan st in
      match result with
      | None => Ok (scan, false)
      | Some (dist, meta) =>
        if hasRangeFilter st then
          if range st <? dist then
            let i := i + 1 in
            if inRange st && (i >=? threshold) then Ok (scan, false) else sptag_loop n i scan
          else Ok (sptag_set_result (sptag_set_opaque scan (sptag_set_inRange st)) dist meta, true)
        else Ok (sptag_set_result scan dist meta, true)
      end
    end
  end.

Definition sptag_gettuple scan (dir : ScanDirection) : res (desc * bool) :=
  if first (opaque scan) then
    do! ' (scan, query) <- sptag_start scan ;;
    if query then sptag_loop fuel 0 scan else Ok (scan, false)
  else sptag_loop fuel 0 scan.

Definition sptag_am : IndexAmRoutine SPTAGScanOpaqueData scan_keys := {|
  ambeginscan := fun keys => sptag_begin_scan (num_keys (fst keys)) (num_keys (snd keys));
  amrescan := sptag_rescan;
  amgettuple := sptag_gettuple
|}.
End sptag.

Arguments mk_sptag {I}.
Arguments first {I}.
Arguments hasRangeFilter {I}.
Arguments inRange {I}.
Arguments range {I}.
Arguments data {I}.
Arguments workSpace {I}.
Arguments keyData {I}.
Arguments orderByData {I}.

(** ** What a scan delivers *)

Section sptag_spec.
Context {I : Type}.
Variable Next : I -> res (I * option (Z * list Z)).
Variable GetIterator : list Z -> I.
Variable fuel : nat.

Abbreviation ost := (@SPTAGScanOpaqueData I).
Abbreviation am := (sptag_am Next GetIterator fuel).
Implicit Types (scan : IndexScanDescData ost) (st : ost) (results pre : list result).

(** The iterator with its metadata read as labels. *)
Definition decoded (it : I) : res (I * option result) :=
  do! ' (it, r) <- Next it ;;
  Ok (it, (fun x => (fst x, le_number (take 8 (snd x)))) <$> r).

(** SPTAG scans never give up before the first hit. *)
Abbreviation sptag_hits := (range_hits (fun _ _ => false) threshold).

(** What a turn of the loop gets from the iterator. *)
Lemma decoded_next it results :
  iter_at decoded it results ->
  match results with
  | [] => exists it', Next it = Ok (it', None)
  | x :: results => exists it' meta, Next it = Ok (it', Some (fst x, meta)) /\
      snd x = le_number (take 8 meta) /\ iter_at decoded it' results
  end.
Proof.
  unfold decoded. destruct results as [|[d lab] results]; cbn.
  - intros [it' Hn]. destruct (Next it) as [[it1 [r|]]|m| |]; try done. eauto.
  - intros (it' & Hn & Hit). destruct (Next it) as [[it1 [[d1 meta]|]]|m| |]; try done.
    injection Hn as -> -> Hl. eauto.
Qed.

(** *** ORDER BY scans *)

Record order_at scan results : Prop := {
  oa_first : first (opaque scan) = false;
  oa_filter : hasRangeFilter (opaque scan) = false;
  oa_ws : exists it, workSpace (opaque scan) = Some (Some it) /\ iter_at decoded it results
}.

Lemma order_at_delivers scan results :
  (0 < fuel)%nat -> order_at scan results ->
  @am_delivers _ _ am scan (result_entry (xs_recheck scan) (xs_inorder scan) <$> results).
Proof.
  intros Hfuel. revert scan. induction results as [|x results IH]; intros scan
    [Hf Ho (it & Hws & Hit)]; apply decoded_next in Hit; cbn;
    intros scan' (Hop & Hrc & _ & _ & Hio); unfold sptag_gettuple; rewrite <- Hop, Hf;
    (destruct fuel as [|n]; [lia|]); cbn [sptag_loop]; rewrite <- Hop, Hws.
  - destruct Hit as [it' ->]. by eexists.
  - destruct Hit as (it' & meta & -> & Hlab & Hit). rewrite rbind_ret. cbn [hasRangeFilter sptag_with_ws]. rewrite Ho.
    eexists. split; [done|]. split; [unfold result_entry; cbn; by rewrite Hrc, Hio, Hlab|].
    match goal with |- am_delivers ?s _ => specialize (IH s) end.
    cbn in IH. rewrite <- Hrc, <- Hio in IH. apply IH. split; cbn; try done. eauto.
Qed.

(** *** Range scans *)

Record sptag_range_at (rng : Z) scan pre results : Prop := {
  sr_first : first (opaque scan) = false;
  sr_filter : hasRangeFilter (opaque scan) = true;
  sr_range : range (opaque scan) = rng;
  sr_hit : inRange (opaque scan) = existsb (in_range rng) pre;
  sr_ws : exists it, workSpace (opaque scan) = Some (Some it) /\ iter_at decoded it results
}.

Lemma sptag_range_loop rng n scan pre results :
  sptag_range_at rng scan pre results -> (length results < n)%nat ->
  match sptag_hits rng pre results with
  | [] => exists s2, sptag_loop Next n (misses rng pre) scan = Ok (s2, false)
  | x :: out => exists s2 pre' results',
      sptag_loop Next n (misses rng pre) scan = Ok (s2, true) /\
      entry_of s2 = result_entry (xs_recheck scan) (xs_inorder scan) x /\
      sptag_range_at rng s2 pre' results' /\ misses rng pre' = 0 /\
      out = sptag_hits rng pre' results' /\ (length results' < length results)%nat
  end.
Proof.
  revert n scan pre. induction results as [|[d lab] results IH];
    intros n scan pre [Hf Hr Hrg Hh (it & Hws & Hit)] Hn; apply decoded_next in Hit;
    (destruct n as [|n]; [cbn in Hn; lia|]); cbn [sptag_loop]; rewrite Hws.
  - destruct Hit as [it' ->]. cbn. by eexists.
  - destruct Hit as (it' & meta & -> & Hlab & Hit). rewrite rbind_ret. cbn [fst snd] in Hlab |- *.
    rewrite range_hits_cons, range_stop_turn, andb_false_r. cbv zeta.
    cbn [hasRangeFilter range inRange sptag_with_ws]. rewrite Hr, Hh, Hrg, Z.geb_leb.
    assert (Hin : in_range rng (d, lab) = (d <=? rng)) by done.
    rewrite (Z.ltb_antisym d rng), Hin. destruct (d <=? rng) eqn:Hd; cbn [negb andb orb].
    + rewrite andb_false_r. eexists _, (pre ++ [(d, lab)]), results. split; [done|].
      split; [by rewrite Hlab|]. split; [|split; [|split; [done|cbn; lia]]].
      * split; cbn; try done; [|by exists it']. by rewrite existsb_snoc, Hin, orb_true_r.
      * by rewrite misses_snoc, Hin.
    + rewrite andb_true_r. destruct (existsb (in_range rng) pre && _); [by eexists|].
      match goal with |- context[sptag_loop Next n _ ?s] => set (scan1 := s) end.
      assert (Hat : sptag_range_at rng scan1 (pre ++ [(d, lab)]) results).
      { split; cbn; try done; [|by exists it']. by rewrite existsb_snoc, Hin, orb_false_r. }
      specialize (IH n scan1 (pre ++ [(d, lab)]) Hat ltac:(cbn in Hn; lia)).
      rewrite misses_snoc, Hin in IH.
      destruct (sptag_hits rng (pre ++ [(d, lab)]) results) as [|x out]; [exact IH|].
      destruct IH as (s2 & pre' & results' & H1 & H2 & H3 & H4 & H5 & H6).
      exists s2, pre', results'. split_and!; try done. cbn. lia.
Qed.

Lemma sptag_range_at_same rng scan scan' pre results :
  am_same scan scan' -> sptag_range_at rng scan pre results -> sptag_range_at rng scan' pre results.
Proof. intros (Ho & _) [H1 H2 H3 H4 H5]. split; by rewrite <- Ho. Qed.

Lemma sptag_range_at_delivers rng scan pre results :
  sptag_range_at rng scan pre results -> misses rng pre = 0 -> (length results < fuel)%nat ->
  @am_delivers _ _ am scan
    (result_entry (xs_recheck scan) (xs_inorder scan) <$> sptag_hits rng pre results).
Proof.
  intros Hat Hmiss Hf.
  apply (am_delivers_inv (fun s l => exists pre results, sptag_range_at rng s pre results /\
    misses rng pre = 0 /\ (length results < fuel)%nat /\
    l = result_entry (xs_recheck s) (xs_inorder s) <$> sptag_hits rng pre results)); [| |eauto 10].
  - intros s s' l Hs (pre1 & r1 & H1 & H2 & H3 & ->). exists pre1, r1.
    pose proof Hs as (_ & <- & _ & _ & <-). split_and!; try done. by eapply sptag_range_at_same.
  - intros s l (pre1 & r1 & H1 & H2 & H3 & ->). cbn [amgettuple sptag_am]. unfold sptag_gettuple.
    rewrite (sr_first _ _ _ _ H1). rewrite <- H2.
    pose proof (sptag_range_loop rng fuel s pre1 r1 H1 H3) as Hl.
    destruct (sptag_hits rng pre1 r1) as [|x out]; cbn [fmap list_fmap]; [done|].
    destruct Hl as (s2 & pre2 & r2 & Hl & He & Hat2 & Hm2 & -> & Hlt). exists s2.
    split; [done|]. split; [done|]. exists pre2, r2. injection He as _ <- _ _ <-.
    split_and!; [done|congruence|lia|done].
Qed.

(** *** A scan just restarted *)

Lemma sptag_start_delivers scan scan1 l :
  first (opaque scan) = true -> sptag_start GetIterator scan = Ok (scan1, true) ->
  first (opaque scan1) = false ->
  @am_delivers _ _ am scan1 l -> @am_delivers _ _ am scan l.
Proof.
  intros Hf Hst Hf1 Hd. eapply am_delivers_start; [|exact Hd]. intros s Hs.
  assert (Hs1 : exists s1, sptag_start GetIterator s = Ok (s1, true) /\ am_same scan1 s1).
  { destruct Hs as (Hop & H2 & H3 & H4 & H5). unfold sptag_start in *. rewrite <- Hop.
    destruct (orderByData _) as [| |[v|]]; [destruct (keyData _) as [| |[[|rng v]|]]|..]; try done.
    all: eexists; (split; [reflexivity|]); injection Hst as <-; by repeat split. }
  destruct Hs1 as (s1 & Heq & Hsame). exists s1. split; [done|]. cbn. unfold sptag_gettuple.
  destruct Hs as (Hop & _). destruct Hsame as (Hop1 & _).
  by rewrite <- Hop, Hf, Heq, rbind_ret, <- Hop1, Hf1.
Qed.

Lemma sptag_order_delivers scan v results :
  (0 < fuel)%nat -> first (opaque scan) = true -> orderByData (opaque scan) = Filled (Some v) ->
  iter_at decoded (GetIterator v) results ->
  @am_delivers _ _ am scan (result_entry (xs_recheck scan) (xs_inorder scan) <$> results).
Proof.
  intros Hfu Hf Hob Hit. destruct (sptag_start GetIterator scan) as [[scan1 q]|m| |] eqn:Hst;
    pose proof Hst as Hst'; unfold sptag_start in Hst'; cbn in Hst'; rewrite Hob in Hst'; try done.
  injection Hst' as Hs1 <-. eapply sptag_start_delivers; [done|exact Hst|by rewrite <- Hs1|].
  replace (xs_recheck scan) with (xs_recheck scan1) by (by rewrite <- Hs1).
  replace (xs_inorder scan) with (xs_inorder scan1) by (by rewrite <- Hs1).
  apply order_at_delivers; [done|]. rewrite <- Hs1. split; cbn; try done. eauto.
Qed.

Lemma sptag_range_delivers scan rng v results :
  first (opaque scan) = true -> orderByData (opaque scan) = NoKeys ->
  keyData (opaque scan) = Filled (Some (rng :: v)) -> iter_at decoded (GetIterator v) results ->
  (length results < fuel)%nat ->
  @am_delivers _ _ am scan
    (result_entry (xs_recheck scan) (xs_inorder scan) <$> sptag_hits rng [] results).
Proof.
  intros Hf Hob Hk Hit Hfu. destruct (sptag_start GetIterator scan) as [[scan1 q]|m| |] eqn:Hst;
    pose proof Hst as Hst'; unfold sptag_start in Hst'; cbn in Hst'; rewrite Hob, Hk in Hst'; try done.
  injection Hst' as Hs1 <-. eapply sptag_start_delivers; [done|exact Hst|by rewrite <- Hs1|].
  replace (xs_recheck scan) with (xs_recheck scan1) by (by rewrite <- Hs1).
  replace (xs_inorder scan) with (xs_inorder scan1) by (by rewrite <- Hs1).
  apply sptag_range_at_delivers; [|done|done]. rewrite <- Hs1. split; cbn; try done. eauto.
Qed.
End sptag_spec.

(** ** The life cycle of a scan *)

Inductive phase := Idle | NoQuery | Running.
#[export] Instance phase_eq_dec : EqDecision phase.
Proof. solve_decision. Defined.

(** What a scan's keys ask for; keys that were never filled in, and a range
    query without a range, are invalid. *)
Inductive query_kind := Query | Null | Invalid.
Definition query_of (keyData orderByData : key_space (list Z)) : query_kind :=
  match orderByData with
  | Filled (Some _) => Query
  | Filled None => Null
  | Unfilled => Invalid
  | NoKeys =>
    match keyData with
    | NoKeys | Filled None => Null
    | Unfilled | Filled (Some []) => Invalid
    | Filled (Some (_ :: _)) => Query
    end
  end.

(** The abstract protocol: where a scan is, and its keys. *)
Record life := mk_life {
  l_phase : phase;
  l_key : key_space (list Z);
  l_order : key_space (list Z)
}.

Inductive sptag_call :=
  | CallRescan (keys : option (option (list Z)) * option (option (list Z)))
  | CallGettuple.

(** [None]: the call dereferences a null pointer, or reads uninitialized keys
    or beyond an array. *)
Definition life_step (s : life) (c : sptag_call) : option life :=
  match c with
  | CallRescan keys =>
    match l_phase s with
    | NoQuery => None
    | _ => Some (mk_life Idle (fill_keys (l_key s) (fst keys)) (fill_keys (l_order s) (snd keys)))
    end
  | CallGettuple =>
    match l_phase s with
    | Running => Some s
    | _ =>
      match query_of (l_key s) (l_order s) with
      | Query => Some (mk_life Running (l_key s) (l_order s))
      | Null => Some (mk_life NoQuery (l_key s) (l_order s))
      | Invalid => None
      end
    end
  end.
Fixpoint life_run (s : life) (cs : list sptag_call) : option life :=
  match cs with
  | [] => Some s
  | c :: cs => match life_step s c with Some s => life_run s cs | None => None end
  end.

Section lifecycle.
Context {I : Type}.
Variable Next : I -> res (I * option (Z * list Z)).
Variable GetIterator : list Z -> I.
Variable fuel : nat.
Abbreviation desc := (IndexScanDescData (@SPTAGScanOpaqueData I)).
Implicit Types (scan : desc) (st : @SPTAGScanOpaqueData I).

Definition sptag_do (c : sptag_call) scan : res desc :=
  match c with
  | CallRescan keys => sptag_rescan keys scan
  | CallGettuple =>
    do! ' (scan, _) <- sptag_gettuple Next GetIterator fuel scan ForwardScanDirection ;; Ok scan
  end.
Fixpoint sptag_run (cs : list sptag_call) scan : res desc :=
  match cs with
  | [] => Ok scan
  | c :: cs => do! scan <- sptag_do c scan ;; sptag_run cs scan
  end.

Definition phase_of st : phase :=
  match workSpace st with None => Idle | Some None => NoQuery | Some (Some _) => Running end.

(** The state is well-formed: the traversal has started exactly when there is
    an iterator, and the query data is allocated with the work space. *)
Definition sptag_wf st : Prop :=
  match workSpace st with
  | None => first st = true
  | Some None => first st = true /\ is_Some (data st)
  | Some (Some _) => first st = false /\ is_Some (data st)
  end.

Definition life_of st : life := mk_life (phase_of st) (keyData st) (orderByData st).

(** Traversals end within the bound. *)
Hypothesis Hfinite : forall it, exists results, iter_at (decoded Next) it results /\
  (length results < fuel)%nat.

(** The loop keeps a running scan running. *)
Lemma sptag_loop_runs n i scan it results :
  workSpace (opaque scan) = Some (Some it) -> iter_at (decoded Next) it results ->
  (length results < n)%nat -> sptag_wf (opaque scan) ->
  exists scan' b, sptag_loop Next n i scan = Ok (scan', b) /\ sptag_wf (opaque scan') /\
    life_of (opaque scan') = life_of (opaque scan).
Proof.
  revert n i scan it. induction results as [|x results IH]; intros n i scan it Hws Hit Hn Hwf;
    (destruct n as [|n]; [cbn in Hn; lia|]); apply decoded_next in Hit; cbn [sptag_loop];
    rewrite Hws; unfold sptag_wf in Hwf; rewrite Hws in Hwf; destruct Hwf as [Hf Hd].
  - destruct Hit as [it' ->]. eexists _, false. split; [done|]. split; [done|].
    unfold life_of, phase_of. cbn. by rewrite Hws.
  - destruct Hit as (it' & meta & -> & _ & Hit). rewrite rbind_ret. cbv zeta.
    set (scan1 := sptag_set_opaque scan (sptag_with_ws (opaque scan) (data (opaque scan)) (Some (Some it')))).
    assert (Hlife : life_of (opaque scan1) = life_of (opaque scan)).
    { unfold life_of, phase_of. cbn. by rewrite Hws. }
    destruct (hasRangeFilter _); [destruct (_ <? _)|]; [|by eexists _, true|by eexists _, true].
    destruct (_ && _); [by eexists _, false|].
    destruct (IH n (i + 1) scan1 it') as (s2 & b & Heq & Hwf2 & Hl2); [done|done|cbn in Hn; lia|done|].
    exists s2, b. split; [done|]. by rewrite Hl2.
Qed.

(** One call follows the protocol. *)
Lemma sptag_do_follows c scan :
  sptag_wf (opaque scan) ->
  match life_step (life_of (opaque scan)) c with
  | Some s => exists scan', sptag_do c scan = Ok scan' /\ sptag_wf (opaque scan') /\
      life_of (opaque scan') = s
  | None => sptag_do c scan = Crash
  end.
Proof.
  intros Hwf. destruct c as [keys|]; cbn [life_step sptag_do].
  - unfold sptag_rescan, life_of, phase_of, sptag_wf in *. cbn [l_phase l_key l_order].
    destruct (workSpace (opaque scan)) as [[it|]|] eqn:Hws; [|done|].
    + destruct Hwf as [_ [d Hd]]. rewrite Hd. cbn. by eexists.
    + cbn. rewrite Hws. by eexists.
  - assert (Hrun : forall scan1, sptag_wf (opaque scan1) -> phase_of (opaque scan1) = Running ->
      exists scan', (do! ' (s, _) <- sptag_loop Next fuel 0 scan1 ;; Ok s) = Ok scan' /\
        sptag_wf (opaque scan') /\ life_of (opaque scan') = life_of (opaque scan1)).
    { intros scan1 Hwf1 Hp. unfold phase_of in Hp.
      destruct (workSpace (opaque scan1)) as [[it|]|] eqn:Hws; [|done|done].
      destruct (Hfinite it) as (results & Hit & Hl).
      destruct (sptag_loop_runs fuel 0 scan1 it results Hws Hit Hl Hwf1) as (s2 & b & -> & H1 & H2).
      by exists s2. }
    assert (Hfirst : first (opaque scan) = match phase_of (opaque scan) with Running => false | _ => true end).
    { unfold sptag_wf, phase_of in *. destruct (workSpace (opaque scan)) as [[it|]|]; naive_solver. }
    unfold sptag_gettuple. rewrite Hfirst. cbn [l_phase life_of].
    destruct (phase_of (opaque scan)) eqn:Hp; [| |by apply Hrun].
    all: unfold life_of; cbn [l_key l_order]; unfold query_of, sptag_start.
    all: cbn [orderByData keyData sptag_with_ws].
    all: destruct (orderByData (opaque scan)) as [| |[v|]] eqn:Hob;
      [destruct (keyData (opaque scan)) as [| |[[|rng v]|]] eqn:Hkd|..]; try done; rewrite ?rbind_ret.
    all: try (match goal with |- context[sptag_loop Next fuel 0 ?s] =>
      destruct (Hrun s) as (s2 & Heq & Hw2 & Hl2); [by split; cbn; eauto|done|] end;
      exists s2; split; [done|]; split; [done|]; exact Hl2).
    all: eexists; (split; [reflexivity|]); split; [by split; cbn; eauto|].
    all: unfold phase_of; cbn; by rewrite ?Hob, ?Hkd.
Qed.

(** Every sequence of calls follows the protocol. *)
Lemma sptag_run_follows cs scan :
  sptag_wf (opaque scan) ->
  match life_run (life_of (opaque scan)) cs with
  | Some s => exists scan', sptag_run cs scan = Ok scan' /\ sptag_wf (opaque scan') /\
      life_of (opaque scan') = s
  | None => sptag_run cs scan = Crash
  end.
Proof.
  revert scan. induction cs as [|c cs IH]; intros scan Hwf; cbn [life_run sptag_run]; [by exists scan|].
  pose proof (sptag_do_follows c scan Hwf) as Hc. destruct (life_step _ c) as [s|]; [|by rewrite Hc].
  destruct Hc as (scan1 & -> & Hwf1 & <-). rewrite rbind_ret. by apply IH.
Qed.

Lemma sptag_endscan_running scan :
  sptag_wf (opaque scan) ->
  sptag_endscan scan = if decide (phase_of (opaque scan) = Running) then Ok tt else Crash.
Proof.
  unfold sptag_wf, phase_of, sptag_endscan. destruct (workSpace (opaque scan)) as [[it|]|]; cbn; try done.
  by intros [_ [d ->]].
Qed.
End lifecycle.

(** ** Properties *)

(** Range queries over SPTAG.  A range scan delivers, in the order of the
    traversal and with the stored heap positions, exactly the results in
    range that come before the fifth miss in a row after a hit; a traversal
    without such a gap is answered completely, and every result delivered is
    in range. *)
Theorem sptag_range_scan {I} Next (GetIterator : list Z -> I) fuel scan rng v results :
  first (opaque scan) = true -> orderByData (opaque scan) = NoKeys ->
  keyData (opaque scan) = Filled (Some (rng :: v)) ->
  iter_at (decoded Next) (GetIterator v) results -> (length results < fuel)%nat ->
  let out := range_hits (fun _ _ => false) threshold rng [] results in
  @am_delivers _ _ (sptag_am Next GetIterator fuel) scan
    (result_entry (xs_recheck scan) (xs_inorder scan) <$> out) /\
  out `sublist_of` results /\ Forall (fun x => fst x <= rng) out /\
  (focused (fun _ _ => false) threshold rng results -> out = hits rng results).
Proof.
  intros Hf Hob Hk Hit Hfu. cbv zeta. split; [by eapply sptag_range_delivers|].
  destruct (range_hits_sound (fun _ _ => false) threshold rng [] results) as [Hs Ha].
  split; [done|]. split; [done|]. by apply range_hits_complete.
Qed.

(** Rows at distances 4 9 2, with five misses after them, and one more. *)
Definition demo_sptag_results : list (Z * list Z) :=
  (fun d => (d, le_bytes 8 (tuple_label 0 d))) <$> [4; 9; 2; 10; 11; 12; 13; 14; 1].
Definition demo_sptag_next (it : list (Z * list Z)) : res (list (Z * list Z) * option (Z * list Z)) :=
  match it with [] => Ok ([], None) | r :: it => Ok (it, Some r) end.
Definition demo_sptag_restarted : IndexScanDescData (@SPTAGScanOpaqueData (list (Z * list Z))) :=
  mk_scan false false (mk_sptag true false false 0 None None (Filled (Some [5; 0; 0])) NoKeys) 0 0
    false false [] false true.

Definition demo_sptag_labels : list result := (fun d => (d, d)) <$> [4; 9; 2; 10; 11; 12; 13; 14; 1].

Lemma sptag_range_scan_witness :
  let out := range_hits (fun _ _ => false) threshold 5 [] demo_sptag_labels in
  out = [(4, 4); (2, 2)] /\
  @am_delivers _ _ (sptag_am demo_sptag_next (fun _ => demo_sptag_results) 20) demo_sptag_restarted
    (result_entry false true <$> out) /\
  out `sublist_of` demo_sptag_labels /\ Forall (fun x => fst x <= 5) out /\
  (focused (fun _ _ => false) threshold 5 demo_sptag_labels -> out = hits 5 demo_sptag_labels).
Proof.
  split; [vm_compute; reflexivity|].
  apply (sptag_range_scan demo_sptag_next (fun _ => demo_sptag_results) 20 demo_sptag_restarted 5
    [0; 0] demo_sptag_labels).
  - reflexivity.
  - reflexivity.
  - reflexivity.
  - cbn. repeat (eexists; split; [vm_compute; reflexivity|]). eexists. reflexivity.
  - cbn. lia.
Defined.

(** C28. The calls of a scan are typed by its protocol.  Whatever sequence of
    rescans and fetches is made after a scan with room for [nkeys] keys and
    [norderbys] ORDER BY keys begins, the private state stays well-formed and
    the calls succeed exactly as long as the protocol allows: a fetch reads
    uninitialized memory while the ORDER BY keys (or, without room for those,
    the keys) have room but were never passed to a rescan, it reads beyond the
    array of a range query if that is empty, and a rescan after a fetch whose
    query was NULL or absent dereferences a null pointer; nothing else fails.
    Ending the scan is safe exactly while a traversal is running, so ending one
    that was never fetched from, or was just restarted, crashes.  Traversals
    are assumed to end. *)
Theorem sptag_scan_lifecycle {I} Next (GetIterator : list Z -> I) fuel cs nkeys norderbys recovery mem :
  (forall it, exists results, iter_at (decoded Next) it results /\ (length results < fuel)%nat) ->
  match life_run (mk_life Idle (key_workspace nkeys) (key_workspace norderbys)) cs with
  | Some s => exists scan,
      sptag_run Next GetIterator fuel cs (sptag_begin_scan nkeys norderbys recovery mem) = Ok scan /\
      sptag_wf (opaque scan) /\ life_of (opaque scan) = s /\
      sptag_endscan scan = if decide (l_phase s = Running) then Ok tt else Crash
  | None => sptag_run Next GetIterator fuel cs (sptag_begin_scan nkeys norderbys recovery mem) = Crash
  end.
Proof.
  intros Hfin.
  pose proof (sptag_run_follows Next GetIterator fuel Hfin cs (sptag_begin_scan nkeys norderbys recovery mem) eq_refl) as Hr.
  change (life_of (opaque (sptag_begin_scan nkeys norderbys recovery mem))) with
    (mk_life Idle (key_workspace nkeys) (key_workspace norderbys)) in Hr.
  destruct (life_run _ cs) as [s|]; [|done]. destruct Hr as (scan & H1 & H2 & <-).
  exists scan. split_and!; [done|done|done|]. by apply sptag_endscan_running.
Qed.

(** An empty traversal. *)
Lemma sptag_scan_lifecycle_witness :
  exists scan,
    sptag_run (fun _ : unit => Ok (tt, None)) (fun _ => tt) 5
      [CallRescan (None, Some (Some [1; 2])); CallGettuple; CallGettuple]
      (sptag_begin_scan 0 1 false
         (mk_scan false false (mk_sptag false true true 7 None (Some None) NoKeys NoKeys) 0 0 false
            false [] false true)) = Ok scan /\
    sptag_wf (opaque scan) /\ life_of (opaque scan) = mk_life Running NoKeys (Filled (Some [1; 2])) /\
    sptag_endscan scan = Ok tt.
Proof.
  apply (sptag_scan_lifecycle (fun _ : unit => Ok (tt, None)) (fun _ => tt) 5
    [CallRescan (None, Some (Some [1; 2])); CallGettuple; CallGettuple] 0 1 false
    (mk_scan false false (mk_sptag false true true 7 None (Some None) NoKeys NoKeys) 0 0 false
       false [] false true)).
  intros []. exists []. split; [by eexists|cbn; lia].
Defined.

(** Fetching from an ORDER BY scan that was not restarted yet. *)
Example demo_fetch_unfilled :
  life_run (mk_life Idle (key_workspace 0) (key_workspace 1)) [CallGettuple] = None.
Proof. reflexivity. Qed.
