(* ===== verification/HnswGraph.v ===== *)
(** * thirdparty/hnsw/hnswlib: the HNSW index and its iterative search

    The library the HNSW access method searches, in the version VBASE ships:
    [searchKnnIterative] turns the usual bounded search into an iterator that
    can be asked for one more result at any time (hnswalg.h,
    result_iterator.h, workspace.h, visited_list_pool.h).  An index is an
    array of elements with their link lists; distances are floats of which
    only the order and the sign change are used, so integers stand for
    them. *)

From Stdlib Require Import ZArith Lia.
From stdpp Require Import base list sorting strings gmap fin_maps.
From S2P Require Import Prelude.

Local Open Scope Z_scope.

Definition tableint : Type := Z.
Definition labeltype : Type := Z.

(** ** std::priority_queue

    Pairs of a priority and an element, compared by priority alone
    ([CompareByFirst]); which of several greatest entries is on top is left to
    the implementation of the container. *)

Class PriorityQueue := {
  q_ok : list (Z * tableint) -> Prop;
  q_push : Z * tableint -> list (Z * tableint) -> list (Z * tableint);
  q_pop : list (Z * tableint) -> option ((Z * tableint) * list (Z * tableint));
  q_ok_nil : q_ok [];
  q_push_ok : forall x q, q_ok q -> q_ok (q_push x q) /\ q_push x q ≡ₚ x :: q;
  q_pop_nil : q_pop [] = None;
  q_pop_ok : forall q, q_ok q -> q <> [] -> exists y q', q_pop q = Some (y, q') /\ q_ok q' /\
    q ≡ₚ y :: q' /\ forall z, z ∈ q' -> fst z <= fst y
}.

(** ** Visited lists (visited_list_pool.h) *)

(** A tag per element, 16 bits wide: an element is visited when its tag is
    [curV]. *)
Record VisitedList := mk_vl { curV : Z; mass : list Z }.

Definition vl_type (z : Z) : Z := z mod 65536.

(** [mem] is the uninitialized array. *)
Definition new_VisitedList (mem : list Z) : VisitedList := mk_vl (vl_type (-1)) mem.

Definition vl_reset (v : VisitedList) : VisitedList :=
  let cur := vl_type (curV v + 1) in
  if cur =? 0 then mk_vl (vl_type (cur + 1)) (replicate (length (mass v)) 0)
  else mk_vl cur (mass v).

Definition VisitedListPool : Type := list VisitedList.

Definition getFreeVisitedList (pool : VisitedListPool) (mem : list Z)
    : VisitedListPool * VisitedList :=
  match pool with
  | v :: pool => (pool, vl_reset v)
  | [] => ([], vl_reset (new_VisitedList mem))
  end.

Definition releaseVisitedList (pool : VisitedListPool) (v : VisitedList) : VisitedListPool :=
  v :: pool.

(** ** The index *)

(** An element: its vector, its label, its deletion mark, and its link lists
    from level 0 up to its own level. *)
Record element := mk_element {
  e_data : list Z;
  e_label : labeltype;
  e_deleted : bool;
  e_links : list (list tableint)
}.

Record HierarchicalNSW := mk_graph {
  max_elements_ : Z;
  num_deleted_ : Z;
  maxlevel_ : Z;
  enterpoint_node_ : tableint;
  elements : list element;
  label_lookup_ : gmap labeltype tableint
}.

Definition cur_element_count (g : HierarchicalNSW) : Z := zlen (elements g).

(** [get_linklist_at_level]; a list that was not allocated is out of bounds. *)
Definition get_linklist (g : HierarchicalNSW) (id : tableint) (level : Z) : res (list tableint) :=
  do! x <- aget (elements g) id ;; aget (e_links x) level.

Definition isMarkedDeleted (g : HierarchicalNSW) (id : tableint) : res bool :=
  do! x <- aget (elements g) id ;; Ok (e_deleted x).

Definition getExternalLabel (g : HierarchicalNSW) (id : tableint) : res labeltype :=
  do! x <- aget (elements g) id ;; Ok (e_label x).

Section search.
Context `{PriorityQueue}.
(** The distance function of the space. *)
Variable fstdistfunc_ : list Z -> list Z -> Z.
Implicit Types (g : HierarchicalNSW) (query : list Z).

Definition node_dist g query (id : tableint) : res Z :=
  do! x <- aget (elements g) id ;; Ok (fstdistfunc_ query (e_data x)).

(** ** The greedy descent through the upper levels *)

(** One pass over a link list. *)
Fixpoint greedy_scan g query (datal : list tableint) (currObj : tableint) (curdist : Z)
    (changed : bool) : res (tableint * Z * bool) :=
  match datal with
  | [] => Ok (currObj, curdist, changed)
  | cand :: datal =>
    if (cand <? 0) || (cand >? max_elements_ g) then Error "cand error"
    else
      do! d <- node_dist g query cand ;;
      if d <? curdist then greedy_scan g query datal cand d true
      else greedy_scan g query datal currObj curdist changed
  end.

(** [while (changed)]. *)
Fixpoint greedy_level (n : nat) g query (level : Z) (currObj : tableint) (curdist : Z)
    : res (tableint * Z) :=
  match n with
  | O => NoFuel
  | S n =>
    do! datal <- get_linklist g currObj level ;;
    do! ' (currObj, curdist, changed) <- greedy_scan g query datal currObj curdist false ;;
    if changed then greedy_level n g query level currObj curdist else Ok (currObj, curdist)
  end.

(** [for (level = maxlevel_; level > 0; level--)]. *)
Fixpoint greedy_descend g query (level : nat) (currObj : tableint) (curdist : Z) : res tableint :=
  match level with
  | O => Ok currObj
  | S below =>
    do! ' (currObj, curdist) <-
      greedy_level (S (length (elements g))) g query (Z.of_nat level) currObj curdist ;;
    greedy_descend g query below currObj curdist
  end.

Definition search_entry g query : res tableint :=
  do! curdist <- node_dist g query (enterpoint_node_ g) ;;
  greedy_descend g query (Z.to_nat (maxlevel_ g)) (enterpoint_node_ g) curdist.

(** ** The iterative search of the base layer *)

Record hnsw_WorkSpace := mk_space {
  vl : VisitedList;
  candidate_set : list (Z * tableint)
}.

(** The neighbours of a node: new ones are marked and become candidates. *)
Fixpoint visit_neighbours g query (visited_array_tag : Z) (data : list tableint)
    (visited_array : list Z) (candidates : list (Z * tableint))
    : res (list Z * list (Z * tableint)) :=
  match data with
  | [] => Ok (visited_array, candidates)
  | candidate_id :: data =>
    do! tag <- aget visited_array candidate_id ;;
    if negb (tag =? visited_array_tag) then
      do! visited_array <- aset visited_array candidate_id visited_array_tag ;;
      do! dist <- node_dist g query candidate_id ;;
      visit_neighbours g query visited_array_tag data visited_array
        (q_push (- dist, candidate_id) candidates)
    else visit_neighbours g query visited_array_tag data visited_array candidates
  end.

(** The result: distance and label. *)
Fixpoint searchBaseLayerSTIterative (n : nat) (has_deletions : bool) g query
    (workspace : hnsw_WorkSpace) : res (hnsw_WorkSpace * option (Z * labeltype)) :=
  match n with
  | O => NoFuel
  | S n =>
    match q_pop (candidate_set workspace) with
    | None => Ok (workspace, None)
    | Some ((_, current_node_id), candidates) =>
      let tag := curV (vl workspace) in
      do! visited_array <- aset (mass (vl workspace)) current_node_id tag ;;
      do! data <- get_linklist g current_node_id 0 ;;
      do! ' (visited_array, candidates) <-
        visit_neighbours g query tag data visited_array candidates ;;
      let workspace := mk_space (mk_vl tag visited_array) candidates in
      do! deleted <- isMarkedDeleted g current_node_id ;;
      if negb has_deletions || negb deleted then
        do! dist <- node_dist g query current_node_id ;;
        do! label <- getExternalLabel g current_node_id ;;
        Ok (workspace, Some (dist, label))
      else searchBaseLayerSTIterative n has_deletions g query workspace
    end
  end.

Definition searchKnnIterative g query (workspace : hnsw_WorkSpace) (isFirst : bool)
    : res (hnsw_WorkSpace * option (Z * labeltype)) :=
  if cur_element_count g =? 0 then Ok (workspace, None)
  else
    do! workspace <-
      (if isFirst then
         do! currObj <- search_entry g query ;;
         do! dist <- node_dist g query currObj ;;
         Ok (mk_space (vl workspace) (q_push (- dist, currObj) (candidate_set workspace)))
       else Ok workspace) ;;
    searchBaseLayerSTIterative (S (length (elements g))) (negb (num_deleted_ g =? 0)) g query
      workspace.

(** ** ResultIterator (result_iterator.h) *)

Record ResultIterator := mk_iter {
  m_index_ : HierarchicalNSW;
  m_target_ : list Z;
  m_workspace_ : option hnsw_WorkSpace;
  m_isFirstResult_ : bool
}.

(** [getFreeWorkSpace] with the visited list taken from the pool. *)
Definition new_ResultIterator g query (v : VisitedList) : ResultIterator :=
  mk_iter g query (Some (mk_space v [])) true.

Definition iterator_next (it : ResultIterator)
    : res (ResultIterator * option (Z * labeltype)) :=
  match m_workspace_ it with
  | None => Crash
  | Some workspace =>
    do! ' (workspace, result) <-
      searchKnnIterative (m_index_ it) (m_target_ it) workspace (m_isFirstResult_ it) ;;
    Ok (mk_iter (m_index_ it) (m_target_ it) (Some workspace) false, result)
  end.

(** The visited list goes back to the pool. *)
Definition iterator_close (pool : VisitedListPool) (it : ResultIterator)
    : VisitedListPool * ResultIterator :=
  match m_workspace_ it with
  | Some workspace =>
    (releaseVisitedList pool (vl workspace),
     mk_iter (m_index_ it) (m_target_ it) None (m_isFirstResult_ it))
  | None => (pool, it)
  end.
End search.

(** ** A queue that keeps its entries sorted *)

Fixpoint insert_sorted (x : Z * tableint) (q : list (Z * tableint)) : list (Z * tableint) :=
  match q with
  | [] => [x]
  | y :: q' => if fst y <? fst x then x :: q else y :: insert_sorted x q'
  end.

Lemma insert_sorted_perm x q : insert_sorted x q ≡ₚ x :: q.
Proof.
  induction q as [|y q IH]; cbn; [done|]. destruct (fst y <? fst x); [done|].
  rewrite IH. apply Permutation_swap.
Qed.

#[export] Instance sorted_queue : PriorityQueue.
Proof.
  refine {| q_ok := StronglySorted (fun x y => fst y <= fst x);
            q_push := insert_sorted;
            q_pop := fun q => match q with [] => None | x :: q => Some (x, q) end |}.
  - constructor.
  - intros x q Hq. split; [|apply insert_sorted_perm].
    induction Hq as [|y q Hq IH Hf]; cbn; [by repeat constructor|].
    destruct (Z.ltb_spec (fst y) (fst x)).
    + constructor; [by constructor|]. constructor; [lia|]. eapply Forall_impl; [exact Hf|].
      intros z Hz. cbn in Hz. lia.
    + constructor; [done|]. rewrite insert_sorted_perm. by constructor.
  - done.
  - intros [|x q] Hq Hne; [done|]. apply StronglySorted_inv in Hq as [Hq Hf].
    exists x, q. split_and!; [done|done|done|]. by apply Forall_forall.
Defined.
