(* ===== verification/HnswTraversal.v ===== *)
(** * The iterative HNSW search visits the graph best first

    What the iterator of [HnswGraph] hands out: the greedy descent ends, and
    from the entry it finds the base layer is traversed best first; every
    element reachable from the entry that is not deleted is returned exactly
    once, with its distance, and then the iterator reports the end. *)

From Stdlib Require Import ZArith Lia.
From stdpp Require Import base list sorting strings gmap fin_maps.
From S2P Require Import Prelude HnswGraph HnswScan.

Local Open Scope Z_scope.
Set Warnings "-clear-no-such-hyp".

Section wf.
Implicit Types (g : HierarchicalNSW) (id : tableint).

Definition links_at g id (level : Z) : list tableint :=
  match zget (elements g) id with
  | Some x => match zget (e_links x) level with Some l => l | None => [] end
  | None => []
  end.

(** The element has a link list at the level. *)
Definition on_level g (level : Z) id : Prop :=
  exists x, zget (elements g) id = Some x /\ 0 <= level < zlen (e_links x).

(** A well-formed index: links lead to elements of the same level, the entry
    point is on the top level, and the count of deletions is right. *)
Record hnsw_wf g : Prop := {
  hw_capacity : cur_element_count g <= max_elements_ g;
  hw_base : forall id x, zget (elements g) id = Some x -> e_links x <> [];
  hw_links : forall id level nb, nb ∈ links_at g id level -> on_level g level nb;
  hw_entry : elements g <> [] -> 0 <= maxlevel_ g /\ on_level g (maxlevel_ g) (enterpoint_node_ g);
  hw_deleted : num_deleted_ g = 0 -> forall id x, zget (elements g) id = Some x -> e_deleted x = false
}.

Lemma on_level_links g level id :
  on_level g level id -> get_linklist g id level = Ok (links_at g id level).
Proof.
  intros (x & Hx & Hl). unfold get_linklist, links_at, aget. rewrite Hx, rbind_ret.
  by destruct (zget_is_Some (e_links x) level Hl) as [l ->].
Qed.

Lemma on_level_lower g level level' id :
  on_level g level id -> 0 <= level' <= level -> on_level g level' id.
Proof. intros (x & Hx & Hl) Hle. exists x. split; [done|lia]. Qed.

Lemma on_base g id x : hnsw_wf g -> zget (elements g) id = Some x -> on_level g 0 id.
Proof.
  intros Hwf Hx. exists x. split; [done|]. pose proof (hw_base g Hwf id x Hx) as Hne.
  destruct (e_links x) as [|l ls]; [done|]. rewrite zlen_cons. pose proof (zlen_nonneg ls). lia.
Qed.
End wf.

(** The element is not deleted. *)
Definition is_live (g : HierarchicalNSW) (id : tableint) : bool :=
  match zget (elements g) id with Some x => negb (e_deleted x) | None => false end.

Section descent.
Variable fstdistfunc_ : list Z -> list Z -> Z.
Variables (g : HierarchicalNSW) (query : list Z).
Hypothesis Hwf : hnsw_wf g.

Definition dist_of (id : tableint) : Z :=
  match zget (elements g) id with Some x => fstdistfunc_ query (e_data x) | None => 0 end.

Abbreviation ndist := (node_dist fstdistfunc_ g query).

Lemma node_dist_ok level id : on_level g level id -> ndist id = Ok (dist_of id).
Proof. intros (x & Hx & _). unfold node_dist, dist_of, aget. by rewrite Hx. Qed.

Lemma on_level_valid level id : on_level g level id -> 0 <= id < cur_element_count g.
Proof. intros (x & Hx & _). by apply zget_bounds in Hx. Qed.

(** One pass takes the closest of the candidates. *)
Lemma greedy_scan_ok level datal cur ch :
  on_level g level cur -> Forall (on_level g level) datal ->
  exists cur' ch', greedy_scan fstdistfunc_ g query datal cur (dist_of cur) ch =
      Ok (cur', dist_of cur', ch') /\
    on_level g level cur' /\ dist_of cur' <= dist_of cur /\
    (forall c, c ∈ datal -> dist_of cur' <= dist_of c) /\
    (ch' = true -> ch = true \/ dist_of cur' < dist_of cur) /\
    (ch' = false -> cur' = cur /\ ch = false).
Proof.
  revert cur ch. induction datal as [|c datal IH]; intros cur ch Hcur Hl; cbn [greedy_scan].
  - exists cur, ch. split_and!; try done; [intros c Hc; by apply not_elem_of_nil in Hc|by left].
  - apply Forall_cons in Hl as [Hc Hl]. pose proof (on_level_valid level c Hc) as Hv.
    pose proof (hw_capacity g Hwf) as Hcap.
    destruct (Z.ltb_spec c 0) as [|_]; [lia|]. rewrite Z.gtb_ltb.
    destruct (Z.ltb_spec (max_elements_ g) c) as [|_]; [lia|]. cbn [orb].
    rewrite (node_dist_ok level c Hc), rbind_ret. destruct (Z.ltb_spec (dist_of c) (dist_of cur)) as [Hlt|Hge].
    + destruct (IH c true Hc Hl) as (cur' & ch' & -> & H1 & H2 & H3 & H4 & H5).
      exists cur', ch'. split_and!; try done; [lia| |intros _; right; lia|].
      * intros z. rewrite elem_of_cons. intros [-> | Hz]; [done|by apply H3].
      * intros Hf. by destruct (H5 Hf).
    + destruct (IH cur ch Hcur Hl) as (cur' & ch' & -> & H1 & H2 & H3 & H4 & H5).
      exists cur', ch'. split_and!; try done.
      intros z. rewrite elem_of_cons. intros [-> | Hz]; [lia|by apply H3].
Qed.

(** How many elements are closer than [d]. *)
Definition closer (d : Z) : nat :=
  length (filter (fun x => fstdistfunc_ query (e_data x) < d) (elements g)).

Lemma filter_length_lt {A} (P Q : A -> Prop) `{forall x, Decision (P x), forall x, Decision (Q x)} (l : list A) y :
  (forall x, P x -> Q x) -> y ∈ l -> Q y -> ~ P y ->
  (length (filter P l) < length (filter Q l))%nat.
Proof.
  intros HPQ Hy HQ HP.
  assert (Hle : forall l', (length (filter P l') <= length (filter Q l'))%nat).
  { clear -HPQ. induction l' as [|x l' IH]; [done|]. rewrite !filter_cons.
    destruct (decide (P x)), (decide (Q x)); cbn; [lia|by exfalso; eauto|lia|lia]. }
  induction Hy as [y l|y z l Hy IH]; rewrite !filter_cons.
  - specialize (Hle l). by destruct (decide (P y)), (decide (Q y)); cbn; try lia.
  - specialize (IH HQ HP). destruct (decide (P z)), (decide (Q z)); cbn; [lia|by exfalso; eauto|lia|lia].
Qed.

Lemma closer_decreases level id d : on_level g level id -> dist_of id < d -> (closer (dist_of id) < closer d)%nat.
Proof.
  intros (x & Hx & _) Hd. unfold dist_of in *. rewrite Hx in *.
  apply (filter_length_lt _ _ _ x); [intros; lia| |done|lia].
  unfold zget in Hx. destruct (0 <=? id); [|done]. by eapply list_elem_of_lookup_2.
Qed.

(** The walk on a level ends in a local minimum of that level. *)
Lemma greedy_level_ok level n cur :
  0 <= level -> on_level g level cur -> (closer (dist_of cur) < n)%nat ->
  exists cur', greedy_level fstdistfunc_ n g query level cur (dist_of cur) = Ok (cur', dist_of cur') /\
    on_level g level cur' /\ dist_of cur' <= dist_of cur /\
    forall c, c ∈ links_at g cur' level -> dist_of cur' <= dist_of c.
Proof.
  intros Hl. revert cur. induction n as [|n IH]; intros cur Hcur Hn; [lia|]. cbn [greedy_level].
  rewrite (on_level_links g level cur Hcur), rbind_ret.
  destruct (greedy_scan_ok level (links_at g cur level) cur false Hcur) as
    (cur' & ch' & -> & H1 & H2 & H3 & H4 & H5).
  { apply Forall_forall. intros c Hc. by eapply hw_links. }
  rewrite rbind_ret. destruct ch'.
  - destruct (H4 eq_refl) as [|Hlt]; [done|].
    destruct (IH cur' H1) as (c2 & -> & Hc2 & Hle & Hmin).
    + pose proof (closer_decreases level cur' (dist_of cur) H1 Hlt). lia.
    + exists c2. split_and!; [done|done|lia|done].
  - destruct (H5 eq_refl) as [-> _]. by exists cur.
Qed.

Lemma greedy_descend_ok level cur :
  on_level g (Z.of_nat level) cur ->
  exists cur', greedy_descend fstdistfunc_ g query level cur (dist_of cur) = Ok cur' /\
    on_level g 0 cur' /\ dist_of cur' <= dist_of cur.
Proof.
  revert cur. induction level as [|level IH]; intros cur Hcur; cbn [greedy_descend]; [by exists cur|].
  destruct (greedy_level_ok (Z.of_nat (S level)) (S (length (elements g))) cur) as
    (c1 & -> & H1 & H2 & _); [lia|done| |].
  { pose proof (length_filter (fun x => fstdistfunc_ query (e_data x) < dist_of cur) (elements g)).
    unfold closer. lia. }
  rewrite rbind_ret. destruct (IH c1) as (c2 & -> & H3 & H4).
  { eapply on_level_lower; [exact H1|lia]. }
  exists c2. split_and!; [done|done|lia].
Qed.

Lemma search_entry_ok :
  elements g <> [] ->
  exists ep, search_entry fstdistfunc_ g query = Ok ep /\ on_level g 0 ep /\
    dist_of ep <= dist_of (enterpoint_node_ g).
Proof.
  intros Hne. destruct (hw_entry g Hwf Hne) as [Hm He]. unfold search_entry.
  rewrite (node_dist_ok _ _ He), rbind_ret. apply greedy_descend_ok. by rewrite Z2Nat.id.
Qed.
End descent.

(** ** The base layer *)

(** Reachable from the entry through the links of a level. *)
Inductive reachable (g : HierarchicalNSW) (level : Z) (ep : tableint) : tableint -> Prop :=
  | reach_entry : reachable g level ep ep
  | reach_link x y : reachable g level ep x -> y ∈ links_at g x level -> reachable g level ep y.

Section base.
Context `{PQ : PriorityQueue}.
Variable fstdistfunc_ : list Z -> list Z -> Z.
Variables (g : HierarchicalNSW) (query : list Z).
Hypothesis Hwf : hnsw_wf g.
Variable ep : tableint.

Abbreviation dist := (dist_of fstdistfunc_ g query).
Abbreviation neighbours id := (links_at g id 0).
Abbreviation ids cs := (snd <$> cs).
Implicit Types (ws : hnsw_WorkSpace) (exp : list tableint) (cs : list (Z * tableint)).

Definition is_visited (visited_array : list Z) (tag : Z) (id : tableint) : Prop :=
  zget visited_array id = Some tag.

(** [exp] are the nodes taken from the queue so far, in order. *)
Record space_inv exp ws : Prop := {
  si_mass : zlen (mass (vl ws)) = max_elements_ g;
  si_queue : q_ok (candidate_set ws);
  si_prio : Forall (fun x => fst x = - dist (snd x)) (candidate_set ws);
  si_base : Forall (on_level g 0) (exp ++ ids (candidate_set ws));
  si_nodup : NoDup (exp ++ ids (candidate_set ws));
  si_marked : forall id, is_visited (mass (vl ws)) (curV (vl ws)) id ->
    id ∈ exp ++ ids (candidate_set ws);
  si_start : (forall id, id ∈ exp ++ ids (candidate_set ws) ->
                is_visited (mass (vl ws)) (curV (vl ws)) id) \/
             (exp = [] /\ ids (candidate_set ws) = [ep]);
  si_closed : forall x y, x ∈ exp -> y ∈ neighbours x -> y ∈ exp ++ ids (candidate_set ws);
  si_reach : Forall (reachable g 0 ep) (exp ++ ids (candidate_set ws));
  si_entry : ep ∈ exp ++ ids (candidate_set ws);
  si_order : forall a x b y, exp = a ++ x :: b -> y ∈ b ++ ids (candidate_set ws) ->
    (y = ep \/ exists z, z ∈ a /\ y ∈ neighbours z) -> dist x <= dist y
}.

(** Scanning a link list: the nodes not seen before become candidates. *)
Lemma visit_neighbours_ok tag data m cs :
  zlen m = max_elements_ g -> Forall (on_level g 0) data -> q_ok cs ->
  exists m' cs' new, visit_neighbours fstdistfunc_ g query tag data m cs = Ok (m', cs') /\
    zlen m' = max_elements_ g /\ q_ok cs' /\ cs' ≡ₚ ((fun id => (- dist id, id)) <$> new) ++ cs /\
    NoDup new /\ (forall id, id ∈ new <-> id ∈ data /\ ~ is_visited m tag id) /\
    (forall id, is_visited m' tag id <-> is_visited m tag id \/ id ∈ new).
Proof.
  revert m cs. induction data as [|c data IH]; intros m cs Hm Hd Hq; cbn [visit_neighbours].
  - exists m, cs, []. split_and!; try done; [constructor|set_solver|set_solver].
  - apply Forall_cons in Hd as [Hc Hd]. pose proof (on_level_valid g 0 c Hc) as Hv.
    pose proof (hw_capacity g Hwf) as Hcap.
    destruct (zget_is_Some m c ltac:(lia)) as [t Ht]. rewrite (aget_Ok m c t Ht), rbind_ret.
    destruct (Z.eqb_spec t tag) as [->|Hne]; cbn [negb].
    + destruct (IH m cs Hm Hd Hq) as (m' & cs' & new & -> & H1 & H2 & H3 & H4 & H5 & H6).
      exists m', cs', new. split_and!; try done. intros id. rewrite H5, elem_of_cons.
      clear -Ht. split; [tauto|]. intros [[-> | Hin] Hnv]; [by destruct Hnv|done].
    + assert (Hset : aset m c tag = Ok (zset m c tag)).
      { unfold aset. destruct (Z.leb_spec 0 c), (Z.ltb_spec c (zlen m)); cbn; done || lia. }
      rewrite Hset, rbind_ret, (node_dist_ok fstdistfunc_ g query 0 c Hc), rbind_ret.
      destruct (q_push_ok (- dist c, c) cs Hq) as [Hq' Hp'].
      assert (Hvis : forall id, is_visited (zset m c tag) tag id <-> id = c \/ is_visited m tag id).
      { intros id. unfold is_visited. rewrite zget_zset by lia.
        destruct (Z.eqb_spec c id) as [-> | Hci]; [naive_solver|]. clear -Hci. split; [tauto|].
        intros [-> | ?]; done. }
      destruct (IH (zset m c tag) (q_push (- dist c, c) cs)) as
        (m' & cs' & new & -> & H1 & H2 & H3 & H4 & H5 & H6); [by rewrite zlen_zset|done|done|].
      assert (Hcn : ~ is_visited m tag c) by (unfold is_visited; rewrite Ht; congruence).
      exists m', cs', (c :: new). split_and!; try done.
      * rewrite H3, Hp'. cbn. by rewrite Permutation_middle.
      * constructor; [|done]. rewrite H5, Hvis. tauto.
      * intros id. rewrite !elem_of_cons, H5, Hvis. clear -Hcn. destruct (decide (id = c)) as [-> | ]; tauto.
      * intros id. rewrite H6, Hvis, elem_of_cons. clear. tauto.
Qed.

(** What taking [x] from the queue does to the nodes known. *)
Section expand.
Variables (exp : list tableint) (ws : hnsw_WorkSpace) (x : tableint) (rest cs2 : list (Z * tableint))
  (m1 m2 : list Z) (new : list tableint).
Abbreviation tag := (curV (vl ws)).
Abbreviation known := (exp ++ ids (candidate_set ws)).
Hypothesis Hinv : space_inv exp ws.
Hypothesis Hpop : candidate_set ws ≡ₚ (- dist x, x) :: rest.
Hypothesis Hmax : forall z, z ∈ rest -> fst z <= - dist x.
Hypothesis Hm1 : forall id, is_visited m1 tag id <-> id = x \/ is_visited (mass (vl ws)) tag id.
Hypothesis Hcs2 : cs2 ≡ₚ ((fun id => (- dist id, id)) <$> new) ++ rest.
Hypothesis Hnd : NoDup new.
Hypothesis Hnew : forall id, id ∈ new <-> id ∈ neighbours x /\ ~ is_visited m1 tag id.
Hypothesis Hm2 : forall id, is_visited m2 tag id <-> is_visited m1 tag id \/ id ∈ new.

Lemma ids_cs2 : ids cs2 ≡ₚ new ++ ids rest.
Proof. rewrite Hcs2, fmap_app, <- list_fmap_compose. by rewrite list_fmap_id. Qed.

Lemma ids_cs : ids (candidate_set ws) ≡ₚ x :: ids rest.
Proof. by rewrite Hpop. Qed.

Lemma known_grows : (exp ++ [x]) ++ ids cs2 ≡ₚ new ++ known.
Proof. rewrite ids_cs2, ids_cs. solve_Permutation. Qed.

Lemma x_known : x ∈ known.
Proof. rewrite ids_cs. set_solver. Qed.

Lemma known_visited id : id ∈ known -> is_visited m1 tag id.
Proof.
  intros Hk. rewrite Hm1. destruct (si_start _ _ Hinv) as [Hs|[He Hc]]; [right; by apply Hs|].
  left. rewrite He, Hc in Hk. pose proof x_known as Hx. rewrite He, Hc in Hx.
  apply list_elem_of_singleton in Hk, Hx. congruence.
Qed.

Lemma new_unknown id : id ∈ new -> id ∉ known.
Proof. intros [_ Hn]%Hnew Hk. by apply Hn, known_visited. Qed.

Lemma visited_known id : is_visited m1 tag id -> id ∈ known.
Proof. rewrite Hm1. intros [-> | Hv]; [apply x_known|by eapply si_marked]. Qed.

(** The order of the nodes taken: the nearest candidate comes first. *)
Lemma expand_order a y b z :
  exp ++ [x] = a ++ y :: b -> z ∈ b ++ ids cs2 ->
  (z = ep \/ exists w, w ∈ a /\ z ∈ neighbours w) -> dist y <= dist z.
Proof.
  intros Hsplit Hz Hwhy. rewrite ids_cs2 in Hz.
  assert (Hknown : z ∈ new -> a ⊆ exp -> False).
  { intros Hzn Ha. apply (new_unknown z Hzn). destruct Hwhy as [-> |(w & Hw & Hzw)]; [by eapply si_entry|].
    eapply si_closed; eauto. }
  destruct b as [|x' b _] using rev_ind.
  - apply app_inj_tail in Hsplit as [<- <-]. rewrite app_nil_l in Hz.
    apply elem_of_app in Hz as [Hz|Hz]; [exfalso; by apply Hknown|].
    apply list_elem_of_fmap in Hz as ([p z'] & -> & Hz). cbn.
    assert (Hp : p = - dist z').
    { pose proof (si_prio _ _ Hinv) as Hpr. rewrite Hpop in Hpr. apply Forall_cons in Hpr as [_ Hpr].
      by apply (proj1 (Forall_forall _ _) Hpr) in Hz. }
    specialize (Hmax _ Hz). cbn in Hmax. lia.
  - rewrite app_comm_cons, app_assoc in Hsplit. apply app_inj_tail in Hsplit as [Hexp <-].
    apply elem_of_app in Hz as [Hz|[Hz|Hz]%elem_of_app].
    + apply (si_order _ _ Hinv a y b z Hexp); [|done]. rewrite ids_cs. set_solver.
    + exfalso. apply Hknown; [done|]. rewrite Hexp. set_solver.
    + apply (si_order _ _ Hinv a y b z Hexp); [|done]. rewrite ids_cs. set_solver.
Qed.

Lemma expand_inv :
  zlen m2 = max_elements_ g -> q_ok cs2 -> space_inv (exp ++ [x]) (mk_space (mk_vl tag m2) cs2).
Proof.
  intros Hlen Hq. pose proof known_grows as Hg. pose proof x_known as Hx. split; cbn [vl mass curV candidate_set].
  - done.
  - done.
  - rewrite Hcs2. apply Forall_app. split; [by apply Forall_fmap, Forall_true|].
    pose proof (si_prio _ _ Hinv) as Hpr. rewrite Hpop in Hpr. by apply Forall_cons in Hpr as [_ Hpr].
  - rewrite Hg. apply Forall_app. split; [|by eapply si_base].
    apply Forall_forall. intros id [Hid _]%Hnew. by eapply hw_links.
  - rewrite Hg. apply NoDup_app. split; [done|]. split; [exact new_unknown|by eapply si_nodup].
  - intros id Hv. rewrite Hg, elem_of_app. apply Hm2 in Hv as [Hv|Hv]; [right; by apply visited_known|by left].
  - left. intros id. rewrite Hg, elem_of_app, Hm2. intros [Hid|Hid]; [by right|left; by apply known_visited].
  - intros y z Hy Hz. rewrite Hg, elem_of_app. apply elem_of_app in Hy as [Hy| ->%list_elem_of_singleton].
    + right. by eapply si_closed.
    + destruct (decide (z ∈ new)) as [|Hn]; [by left|]. right. apply visited_known.
      unfold is_visited in *. destruct (decide (zget m1 z = Some tag)) as [|Hnv]; [done|].
      exfalso. apply Hn, Hnew. done.
  - rewrite Hg. apply Forall_app. split; [|by eapply si_reach].
    apply Forall_forall. intros id [Hid _]%Hnew. eapply reach_link; [|exact Hid].
    pose proof (si_reach _ _ Hinv) as Hr. by apply (proj1 (Forall_forall _ _) Hr).
  - rewrite Hg, elem_of_app. right. by eapply si_entry.
  - exact expand_order.
Qed.
End expand.

(** One turn of the loop. *)
Lemma expand_step exp ws :
  space_inv exp ws -> candidate_set ws <> [] ->
  exists p x rest m1 m2 cs2,
    q_pop (candidate_set ws) = Some ((p, x), rest) /\ on_level g 0 x /\
    aset (mass (vl ws)) x (curV (vl ws)) = Ok m1 /\
    visit_neighbours fstdistfunc_ g query (curV (vl ws)) (neighbours x) m1 rest = Ok (m2, cs2) /\
    space_inv (exp ++ [x]) (mk_space (mk_vl (curV (vl ws)) m2) cs2).
Proof.
  intros Hinv Hne. destruct (q_pop_ok _ (si_queue _ _ Hinv) Hne) as ([p x] & rest & Hpop & Hq & Hperm & Hmax).
  pose proof (si_prio _ _ Hinv) as Hpr. rewrite Hperm in Hpr. apply Forall_cons in Hpr as [Hp _].
  cbn in Hp. subst p.
  assert (Hx : on_level g 0 x).
  { pose proof (si_base _ _ Hinv) as Hb. apply Forall_app in Hb as [_ Hb]. rewrite Hperm in Hb.
    by apply Forall_cons in Hb as [Hb _]. }
  pose proof (on_level_valid g 0 x Hx) as Hv. pose proof (hw_capacity g Hwf) as Hcap.
  pose proof (si_mass _ _ Hinv) as Hml. set (m1 := zset (mass (vl ws)) x (curV (vl ws))).
  assert (Hset : aset (mass (vl ws)) x (curV (vl ws)) = Ok m1).
  { unfold aset. destruct (Z.leb_spec 0 x), (Z.ltb_spec x (zlen (mass (vl ws)))); cbn; done || lia. }
  assert (Hm1 : forall id, is_visited m1 (curV (vl ws)) id <-> id = x \/ is_visited (mass (vl ws)) (curV (vl ws)) id).
  { intros id. unfold is_visited, m1. rewrite zget_zset by lia.
    destruct (Z.eqb_spec x id) as [-> | Hci]; [naive_solver|]. clear -Hci. split; [tauto|]. intros [-> | ?]; done. }
  destruct (visit_neighbours_ok (curV (vl ws)) (neighbours x) m1 rest) as
    (m2 & cs2 & new & Hvis & H1 & H2 & H3 & H4 & H5 & H6).
  { unfold m1. by rewrite zlen_zset. }
  { apply Forall_forall. intros c Hc. by eapply hw_links. }
  { done. }
  eexists _, x, rest, m1, m2, cs2. split_and!; try done.
  by eapply (expand_inv exp ws x rest cs2 m1 m2 new).
Qed.

(** What the iterator returns for a node: nothing if it is deleted. *)
Definition node_result (id : tableint) : option (Z * labeltype) :=
  match zget (elements g) id with
  | Some x => if e_deleted x then None else Some (dist id, e_label x)
  | None => None
  end.

Abbreviation has_deletions := (negb (num_deleted_ g =? 0)).

(** No node is taken twice, so the loop ends. *)
Lemma taken_length exp ws : space_inv exp ws -> (length exp + length (candidate_set ws) <= length (elements g))%nat.
Proof.
  intros Hinv. pose proof (si_nodup _ _ Hinv) as Hnd. pose proof (si_base _ _ Hinv) as Hb.
  rewrite <- (length_fmap snd (candidate_set ws)), <- length_app.
  set (l := exp ++ ids (candidate_set ws)) in *.
  assert (Hsub : l ⊆ seqZ 0 (zlen (elements g))).
  { intros id Hid. apply (proj1 (Forall_forall _ _) Hb) in Hid. apply (on_level_valid g 0) in Hid.
    apply elem_of_seqZ. unfold cur_element_count in Hid. lia. }
  pose proof (submseteq_length _ _ (NoDup_submseteq _ _ Hnd Hsub)) as Hl.
  rewrite length_seqZ in Hl. unfold zlen in Hl. lia.
Qed.

(** A call: it takes nodes up to the first that is not deleted. *)
Lemma base_search_ok n exp ws :
  space_inv exp ws -> (length (elements g) < n + length exp)%nat ->
  exists taken ws' r,
    searchBaseLayerSTIterative fstdistfunc_ n has_deletions g query ws = Ok (ws', r) /\
    space_inv (exp ++ taken) ws' /\
    match r with
    | None => candidate_set ws' = [] /\ omap node_result taken = []
    | Some x => omap node_result taken = [x] /\ taken <> []
    end.
Proof.
  revert exp ws. induction n as [|n IH]; intros exp ws Hinv Hn.
  { pose proof (taken_length exp ws Hinv). lia. }
  cbn [searchBaseLayerSTIterative]. destruct (candidate_set ws) as [|c cs] eqn:Hcs.
  { rewrite q_pop_nil. exists [], ws, None. rewrite app_nil_r. by rewrite Hcs. }
  rewrite <- Hcs. destruct (expand_step exp ws Hinv) as
    (p & x & rest & m1 & m2 & cs2 & -> & Hx & Hset & Hvis & Hinv2); [by rewrite Hcs|].
  cbv zeta. rewrite Hset, rbind_ret, (on_level_links g 0 x Hx), rbind_ret, Hvis, rbind_ret.
  pose proof Hx as (el & Hel & _). unfold isMarkedDeleted, getExternalLabel, aget. rewrite Hel, !rbind_ret.
  rewrite (node_dist_ok fstdistfunc_ g query 0 x Hx).
  set (ws2 := mk_space (mk_vl (curV (vl ws)) m2) cs2) in *.
  assert (Hnr : node_result x = if e_deleted el then None else Some (dist x, e_label el)).
  { unfold node_result. by rewrite Hel. }
  assert (Hdel : negb has_deletions || negb (e_deleted el) = negb (e_deleted el)).
  { destruct (Z.eqb_spec (num_deleted_ g) 0) as [H0|]; [|done]. cbn.
    by rewrite (hw_deleted g Hwf H0 x el Hel). }
  rewrite Hdel. destruct (e_deleted el); cbn [negb].
  - destruct (IH (exp ++ [x]) ws2 Hinv2) as (taken & ws3 & r & Hs & Hinv3 & Hr).
    { rewrite length_app. cbn. lia. }
    exists (x :: taken), ws3, r. rewrite <- app_assoc in Hinv3. split; [exact Hs|]. split; [done|].
    cbn. rewrite Hnr. destruct r; naive_solver.
  - rewrite !rbind_ret. exists [x], ws2, (Some (dist x, e_label el)).
    split; [done|]. split; [done|]. cbn. by rewrite Hnr.
Qed.

(** All calls from a state between two calls. *)
Lemma iterator_runs exp ws :
  elements g <> [] -> space_inv exp ws ->
  exists rest ws',
    iter_at (iterator_next fstdistfunc_) (mk_iter g query (Some ws) false) (omap node_result rest) /\
    space_inv (exp ++ rest) ws' /\ candidate_set ws' = [].
Proof.
  intros Hne. remember (length (elements g) - length exp)%nat as m eqn:Hm. revert exp ws Hm.
  induction m as [m IH] using lt_wf_ind. intros exp ws -> Hinv.
  pose proof (taken_length exp ws Hinv) as Hlen.
  destruct (base_search_ok (S (length (elements g))) exp ws Hinv ltac:(lia)) as (taken & ws1 & r & Hs & Hinv1 & Hr).
  assert (Hcall : iterator_next fstdistfunc_ (mk_iter g query (Some ws) false) =
    Ok (mk_iter g query (Some ws1) false, r)).
  { unfold iterator_next, searchKnnIterative. cbn [m_workspace_ m_index_ m_target_ m_isFirstResult_].
    destruct (Z.eqb_spec (cur_element_count g) 0) as [H0|_].
    - exfalso. apply Hne, zlen_0_inv. unfold cur_element_count in H0. lia.
    - by rewrite rbind_ret, Hs. }
  destruct r as [x|].
  - destruct Hr as [Hr Hnil]. pose proof (taken_length _ _ Hinv1) as Hlen1. rewrite length_app in Hlen1.
    assert (length taken <> 0%nat) by (by destruct taken).
    destruct (IH (length (elements g) - length (exp ++ taken))%nat) with (exp := exp ++ taken) (ws := ws1)
      as (rest & ws2 & Hit & Hinv2 & Hc2); [rewrite length_app; lia|done|done|].
    exists (taken ++ rest), ws2. rewrite app_assoc. split; [|done].
    rewrite omap_app, Hr. cbn. eauto.
  - destruct Hr as [Hc Hr]. exists taken, ws1. split; [|done]. rewrite Hr. cbn. eauto.
Qed.

(** A best-first order of the nodes reachable from the entry. *)
Record best_first (order : list tableint) : Prop := {
  bf_nodup : NoDup order;
  bf_reach : forall id, id ∈ order <-> reachable g 0 ep id;
  bf_order : forall a x b y c, order = a ++ x :: b ++ y :: c ->
    (y = ep \/ exists z, z ∈ a /\ y ∈ neighbours z) -> dist x <= dist y
}.

Lemma finished_best_first exp ws : space_inv exp ws -> candidate_set ws = [] -> best_first exp.
Proof.
  intros Hinv Hc. destruct Hinv as [_ _ _ _ Hnd _ _ Hcl Hre Hep Hord]. rewrite Hc in *.
  cbn in *. rewrite app_nil_r in *. split; [done| |].
  - intros id. split; [by apply (proj1 (Forall_forall _ _) Hre)|].
    induction 1 as [|x y _ IH Hy]; [done|]. specialize (Hcl x y IH Hy). by rewrite ?app_nil_r in Hcl.
  - intros a x b y c -> Hwhy. apply (Hord a x (b ++ y :: c) y eq_refl); [|done].
    rewrite ?app_nil_r. set_solver.
Qed.
End base.

(** ** The whole iterator *)

Section iterator.
Context `{PQ : PriorityQueue}.
Variable fstdistfunc_ : list Z -> list Z -> Z.
Variables (g : HierarchicalNSW) (query : list Z).
Hypothesis Hwf : hnsw_wf g.

(** A visited list as large as the index, with no element marked. *)
Definition clean (v : VisitedList) : Prop :=
  zlen (mass v) = max_elements_ g /\ curV v ∉ mass v.

Lemma clean_unvisited v id : clean v -> ~ is_visited (mass v) (curV v) id.
Proof.
  intros [_ Hc] Hv. apply Hc. unfold is_visited, zget in Hv. destruct (0 <=? id); [|done].
  by eapply list_elem_of_lookup_2.
Qed.

(** Where the first call stands after the descent. *)
Lemma traversal_start v ep :
  clean v -> on_level g 0 ep ->
  space_inv fstdistfunc_ g query ep []
    (mk_space v (q_push (- dist_of fstdistfunc_ g query ep, ep) [])).
Proof.
  intros Hc Hep. destruct (q_push_ok (- dist_of fstdistfunc_ g query ep, ep) [] q_ok_nil) as [Hq Hp].
  apply Permutation_singleton_r in Hp.
  split; cbn [vl candidate_set]; rewrite ?Hp; cbn.
  - apply Hc.
  - by rewrite <- Hp.
  - by repeat constructor.
  - by repeat constructor.
  - apply NoDup_singleton.
  - intros id Hv. by apply clean_unvisited in Hv.
  - by right.
  - intros x y Hx. by apply not_elem_of_nil in Hx.
  - repeat constructor.
  - by left.
  - intros a x b y Hsplit. by destruct a.
Qed.

Lemma iterator_best_first v :
  clean v -> elements g <> [] ->
  exists ep order,
    search_entry fstdistfunc_ g query = Ok ep /\
    best_first fstdistfunc_ g query ep order /\
    iter_at (iterator_next fstdistfunc_) (new_ResultIterator g query v)
      (omap (node_result fstdistfunc_ g query) order).
Proof.
  intros Hc Hne. destruct (search_entry_ok fstdistfunc_ g query Hwf Hne) as (ep & Hep & Hlev & _).
  pose proof (traversal_start v ep Hc Hlev) as Hinv.
  destruct (base_search_ok fstdistfunc_ g query Hwf ep (S (length (elements g))) [] _ Hinv ltac:(cbn; lia))
    as (taken & ws1 & r & Hs & Hinv1 & Hr).
  assert (Hcall : iterator_next fstdistfunc_ (new_ResultIterator g query v) =
    Ok (mk_iter g query (Some ws1) false, r)).
  { unfold iterator_next, searchKnnIterative. cbn [m_workspace_ m_index_ m_target_ m_isFirstResult_ new_ResultIterator].
    destruct (Z.eqb_spec (cur_element_count g) 0) as [H0|_].
    - exfalso. apply Hne, zlen_0_inv. unfold cur_element_count in H0. lia.
    - rewrite Hep, rbind_ret, (node_dist_ok fstdistfunc_ g query 0 ep Hlev), !rbind_ret.
      cbn [vl candidate_set]. by rewrite Hs. }
  exists ep. destruct r as [x|].
  - destruct Hr as [Hr _].
    destruct (iterator_runs fstdistfunc_ g query Hwf ep taken ws1 Hne Hinv1) as (rest & ws2 & Hit & Hinv2 & Hc2).
    exists (taken ++ rest). split; [done|]. split; [by eapply finished_best_first|].
    rewrite omap_app, Hr. cbn. eauto.
  - destruct Hr as [Hc1 Hr]. exists taken. split; [done|]. split; [by eapply finished_best_first|].
    rewrite Hr. cbn. eauto.
Qed.
End iterator.

(** ** The pool of visited lists *)

(** A list of the pool: its tags do not exceed [curV], unless the next reset
    clears them anyway. *)
Record vl_ok (n : Z) (v : VisitedList) : Prop := {
  vo_len : zlen (mass v) = n;
  vo_cur : 0 <= curV v < 65536;
  vo_tags : curV v = 65535 \/ Forall (fun t => t <= curV v) (mass v)
}.

Lemma vl_reset_clean n v :
  vl_ok n v ->
  vl_ok n (vl_reset v) /\ (curV (vl_reset v) ∉ mass (vl_reset v)) /\
  Forall (fun t => t <= curV (vl_reset v)) (mass (vl_reset v)).
Proof.
  intros [Hl Hc Ht]. unfold vl_reset, vl_type. destruct (Z.eqb_spec ((curV v + 1) mod 65536) 0) as [H0|H0].
  - rewrite H0. assert (Hz : Forall (fun t => t <= 1) (replicate (length (mass v)) 0)).
    { apply Forall_replicate. lia. }
    split_and!; [split; cbn [mass curV]; [|by compute|by right]| |done]; cbn [mass curV].
    + unfold zlen in *. by rewrite length_replicate.
    + intros [? _]%elem_of_replicate. done.
  - assert (Hlt : curV v + 1 < 65536).
    { destruct (Z.eq_dec (curV v) 65535) as [E|]; [|lia]. rewrite E in H0. done. }
    rewrite Z.mod_small in * by lia. destruct Ht as [|Ht]; [lia|].
    assert (Ht' : Forall (fun t => t <= curV v + 1) (mass v)).
    { eapply Forall_impl; [exact Ht|]. intros t Hle. cbn in Hle. lia. }
    split_and!; [split; cbn; [done|lia|by right]| |done]. cbn. intros Hin.
    apply (proj1 (Forall_forall _ _) Ht) in Hin. lia.
Qed.

(** Searches take lists from the pool, mark elements in them and give them
    back, in any order and any number at a time; [mem] is what the allocator
    returns for a new list. *)
Inductive pool_step (n : Z) : VisitedListPool * list VisitedList ->
    VisitedListPool * list VisitedList -> Prop :=
  | pool_take pool used mem pool' v :
      zlen mem = n -> getFreeVisitedList pool mem = (pool', v) ->
      pool_step n (pool, used) (pool', v :: used)
  | pool_mark pool a v b id m :
      aset (mass v) id (curV v) = Ok m ->
      pool_step n (pool, a ++ v :: b) (pool, a ++ mk_vl (curV v) m :: b)
  | pool_release pool a v b :
      pool_step n (pool, a ++ v :: b) (releaseVisitedList pool v, a ++ b).

(** [VisitedListPool(1, max_elements)]: one list, whose array is not
    initialized. *)
Definition new_pool (mem : list Z) : VisitedListPool := [new_VisitedList mem].

Definition pool_inv (n : Z) (s : VisitedListPool * list VisitedList) : Prop :=
  Forall (vl_ok n) (fst s) /\
  Forall (fun v => vl_ok n v /\ Forall (fun t => t <= curV v) (mass v)) (snd s).

Lemma new_vl_ok mem : vl_ok (zlen mem) (new_VisitedList mem).
Proof. split; cbn; [done|unfold vl_type; by compute|by left]. Qed.

Lemma getFree_ok n pool mem pool' v :
  zlen mem = n -> Forall (vl_ok n) pool -> getFreeVisitedList pool mem = (pool', v) ->
  Forall (vl_ok n) pool' /\ vl_ok n v /\ (curV v ∉ mass v) /\ Forall (fun t => t <= curV v) (mass v).
Proof.
  intros Hm Hp. destruct pool as [|v0 pool]; cbn; intros [= <- <-].
  - split; [done|]. apply vl_reset_clean. rewrite <- Hm. apply new_vl_ok.
  - apply Forall_cons in Hp as [Hv Hp]. split; [done|]. by apply vl_reset_clean.
Qed.

Lemma pool_step_inv n s s' : pool_step n s s' -> pool_inv n s -> pool_inv n s'.
Proof.
  intros [pool used mem pool' v Hm Hg|pool a v b id m Hset|pool a v b] [Hp Hu]; cbn in *.
  - destruct (getFree_ok n pool mem pool' v Hm Hp Hg) as (Hp' & Hv & _ & Ht).
    split; cbn; [done|by constructor].
  - split; [done|]. cbn. apply Forall_app in Hu as [Ha Hu]. apply Forall_cons in Hu as [[[H1 H2 H3] H4] Hb].
    assert (Hm : Forall (fun t => t <= curV v) m /\ zlen m = zlen (mass v)).
    { unfold aset, zset in Hset. destruct (Z.leb_spec 0 id); [|done].
      destruct (Z.ltb_spec id (zlen (mass v))); [|done]. cbn in Hset. injection Hset as <-.
      split; [apply Forall_insert; [done|lia]|]. unfold zlen. by rewrite length_insert. }
    destruct Hm as [Hm Hl]. apply Forall_app. split; [done|]. constructor; [|done]. split; [|done].
    split; cbn; [congruence|done|by right].
  - apply Forall_app in Hu as [Ha Hu]. apply Forall_cons in Hu as [[Hv _] Hb].
    split; cbn; [by constructor|by apply Forall_app].
Qed.

(** ** Properties *)


(** Elements 0 -> 1 -> 2 -> 0 at 10, 20 and 30, the second one deleted. *)
Definition demo_graph : HierarchicalNSW :=
  mk_graph 4 1 0 0
    [mk_element [10] 100 false [[1]]; mk_element [20] 101 true [[2]]; mk_element [30] 102 false [[0]]] ∅.

(** The distance on a line. *)
Definition line_dist (a b : list Z) : Z := Z.abs (hd 0 a - hd 0 b).

Lemma demo_graph_wf : hnsw_wf demo_graph.
Proof.
  assert (Hel : forall id x, zget (elements demo_graph) id = Some x -> id ∈ [0; 1; 2]).
  { intros id x Hx%zget_bounds. cbn in Hx. unfold zlen in Hx. cbn in Hx.
    assert (id = 0 \/ id = 1 \/ id = 2) as Hid by lia. set_solver. }
  split.
  - by compute.
  - intros id x Hx. pose proof (Hel _ _ Hx) as Hid. unfold zget in Hx.
    repeat (apply elem_of_cons in Hid as [-> |Hid]; [by injection Hx as <-|]). by apply not_elem_of_nil in Hid.
  - intros id level nb. unfold links_at. destruct (zget (elements demo_graph) id) as [x|] eqn:Hx;
      [|by intros ?%not_elem_of_nil]. pose proof (Hel _ _ Hx) as Hid. unfold zget in Hx.
    assert (Hl : forall l, e_links x = [[l]] -> 0 <= l < 3 -> nb ∈ match zget (e_links x) level with Some l => l | None => [] end -> on_level demo_graph level nb).
    { intros l -> Hr Hn. destruct (zget [[l]] level) eqn:Hz; [|by apply not_elem_of_nil in Hn].
      pose proof (zget_bounds _ _ _ Hz) as Hb. unfold zlen in Hb. cbn in Hb. assert (level = 0) as -> by lia.
      injection Hz as <-. apply list_elem_of_singleton in Hn as ->.
      assert (l = 0 \/ l = 1 \/ l = 2) as [-> |[-> | ->]] by lia; eexists; (split; [reflexivity|by compute]). }
    repeat (apply elem_of_cons in Hid as [-> |Hid]; [injection Hx as <-; by eapply Hl|]). by apply not_elem_of_nil in Hid.
  - intros _. split; [by compute|]. eexists. split; [reflexivity|by compute].
  - done.
Qed.


(** The results in the order they come: the deleted element is passed
    through, not returned. *)
Example demo_iterations :
  (do! ' (it, r1) <- iterator_next line_dist (new_ResultIterator demo_graph [28] (mk_vl 3 [0; 2; 1; 0])) ;;
   do! ' (it, r2) <- iterator_next line_dist it ;;
   do! ' (_, r3) <- iterator_next line_dist it ;; Ok [r1; r2; r3]) =
  Ok [Some (18, 100); Some (2, 102); None].
Proof. vm_compute. reflexivity. Qed.

(** C23. The 16-bit tags never lie.  After any history of searches that take
    visited lists from the pool, mark elements and give them back, several at
    a time and however often the tags have wrapped around, the list the pool
    hands out next has the size of the index and no element is marked in it,
    although neither a new list nor a returned one is cleared before 65535
    uses. *)
Theorem visited_list_pool_clean g mem0 pool used mem pool' v :
  zlen mem0 = max_elements_ g -> zlen mem = max_elements_ g ->
  rtc (pool_step (max_elements_ g)) (new_pool mem0, []) (pool, used) ->
  getFreeVisitedList pool mem = (pool', v) -> clean g v.
Proof.
  intros H0 Hm Hr Hg.
  assert (Hinv : pool_inv (max_elements_ g) (pool, used)).
  { assert (Hini : pool_inv (max_elements_ g) (new_pool mem0, [])).
    { split; cbn; [|done]. rewrite <- H0. apply Forall_singleton, new_vl_ok. }
    revert Hini. generalize (new_pool mem0, @nil VisitedList) (pool, used) Hr. clear.
    intros s s' Hr. induction Hr as [|s s1 s' Hs _ IH]; [done|]. intros Hi. by eapply IH, pool_step_inv. }
  destruct Hinv as [Hp _]. destruct (getFree_ok _ pool mem pool' v Hm Hp Hg) as (_ & [Hl _ _] & Hc & _).
  by split.
Qed.

Lemma visited_list_pool_clean_witness :
  clean demo_graph (vl_reset (mk_vl 1 [0; 1; 0; 0])).
Proof.
  apply (visited_list_pool_clean demo_graph [7; 1; 9; 3] [mk_vl 1 [0; 1; 0; 0]] [] [5; 5; 5; 5] []
    (vl_reset (mk_vl 1 [0; 1; 0; 0]))).
  - reflexivity.
  - reflexivity.
  - eapply rtc_l; [eapply (pool_take _ _ _ [5; 5; 5; 5]); [reflexivity|vm_compute; reflexivity]|].
    eapply rtc_l; [eapply (pool_mark _ _ [] _ [] 1); vm_compute; reflexivity|].
    eapply rtc_l; [apply (pool_release _ _ [] _ [])|]. apply rtc_refl.
  - reflexivity.
Defined.
