(* ===== verification/HnswKnn.v ===== *)
(** * thirdparty/hnsw/hnswlib/hnswalg.h: the bounded search [searchKnn]

    The search the PASE baseline uses: it keeps the [ef] closest elements
    found so far and stops expanding when the nearest candidate is farther
    than all of them. *)

From Stdlib Require Import ZArith Lia.
From stdpp Require Import base list sorting strings gmap fin_maps.
From S2P Require Import Prelude HnswGraph HnswScan HnswTraversal.

Local Open Scope Z_scope.
Set Warnings "-clear-no-such-hyp".

(** ** std::priority_queue<std::pair<float, uint64>>, greatest pair first *)

Definition pair_ltb (a b : Z * Z) : bool :=
  (fst a <? fst b) || ((fst a =? fst b) && (snd a <? snd b)).
Fixpoint pair_push (x : Z * Z) (q : list (Z * Z)) : list (Z * Z) :=
  match q with
  | [] => [x]
  | y :: q' => if pair_ltb y x then x :: q else y :: pair_push x q'
  end.

Lemma pair_push_perm x q : pair_push x q ≡ₚ x :: q.
Proof.
  induction q as [|y q IH]; cbn; [done|]. destruct (pair_ltb y x); [done|].
  rewrite IH. apply Permutation_swap.
Qed.

Lemma pair_push_sorted x q :
  StronglySorted (fun a b => fst b <= fst a) q -> StronglySorted (fun a b => fst b <= fst a) (pair_push x q).
Proof.
  intros Hq. induction Hq as [|y q Hq IH Hf]; cbn; [by repeat constructor|].
  unfold pair_ltb. destruct (Z.ltb_spec (fst y) (fst x)); [|destruct (Z.eqb_spec (fst y) (fst x)); [destruct (snd y <? snd x)|]]; cbn.
  1-2: constructor; [by constructor|]; constructor; [lia|]; eapply Forall_impl; [exact Hf|]; intros z Hz; cbn in Hz; lia.
  all: constructor; [done|]; rewrite pair_push_perm; constructor; [lia|done].
Qed.

Section search.
Context `{PQ : PriorityQueue}.
Variable fstdistfunc_ : list Z -> list Z -> Z.
(** [std::numeric_limits<float>::max()]. *)
Variable FLT_MAX : Z.
Implicit Types (g : HierarchicalNSW) (query : list Z).

(** The queues and the bound of a search. *)
Record knn_state := mk_knn {
  visited : list Z;
  top_candidates : list (Z * tableint);
  candidates : list (Z * tableint);
  lowerBound : Z
}.

(** An element close enough becomes a candidate, and a result unless it is
    deleted; the farthest result goes when there are too many. *)
Definition knn_offer g (has_deletions : bool) (ef : Z) (dist : Z) (id : tableint) (s : knn_state)
    : res knn_state :=
  let cand := q_push (- dist, id) (candidates s) in
  do! deleted <- isMarkedDeleted g id ;;
  let top := if negb has_deletions || negb deleted then q_push (dist, id) (top_candidates s)
             else top_candidates s in
  do! top <-
    (if zlen top >? ef then match q_pop top with Some (_, top) => Ok top | None => Crash end
     else Ok top) ;;
  let lb := match q_pop top with Some ((d, _), _) => d | None => lowerBound s end in
  Ok (mk_knn (visited s) top cand lb).

Fixpoint knn_neighbours g query (has_deletions : bool) (ef tag : Z) (data : list tableint)
    (s : knn_state) : res knn_state :=
  match data with
  | [] => Ok s
  | candidate_id :: data =>
    do! t <- aget (visited s) candidate_id ;;
    if negb (t =? tag) then
      do! m <- aset (visited s) candidate_id tag ;;
      let s := mk_knn m (top_candidates s) (candidates s) (lowerBound s) in
      do! dist <- node_dist fstdistfunc_ g query candidate_id ;;
      do! s <-
        (if (zlen (top_candidates s) <? ef) || (lowerBound s >? dist)
         then knn_offer g has_deletions ef dist candidate_id s else Ok s) ;;
      knn_neighbours g query has_deletions ef tag data s
    else knn_neighbours g query has_deletions ef tag data s
  end.

Fixpoint knn_loop (n : nat) g query (has_deletions : bool) (layer ef tag : Z) (s : knn_state)
    : res knn_state :=
  match n with
  | O => NoFuel
  | S n =>
    match q_pop (candidates s) with
    | None => Ok s
    | Some ((p, current_node_id), cand) =>
      if (- p >? lowerBound s) && ((zlen (top_candidates s) =? ef) || negb has_deletions) then Ok s
      else
        do! data <- get_linklist g current_node_id layer ;;
        do! s <- knn_neighbours g query has_deletions ef tag data
                   (mk_knn (visited s) (top_candidates s) cand (lowerBound s)) ;;
        knn_loop n g query has_deletions layer ef tag s
    end
  end.

(** The state in which the search of a layer ends.  [searchBaseLayerST] is the search of layer 0; [searchBaseLayer], which the
    insertion uses, is the same loop on any layer with [ef_construction_] and
    deletions always looked at. *)
Definition search_state g query (has_deletions : bool) (ep_id : tableint) (layer ef : Z)
    (v : VisitedList) : res knn_state :=
  do! deleted <- isMarkedDeleted g ep_id ;;
  do! s <-
    (if negb has_deletions || negb deleted then
       do! dist <- node_dist fstdistfunc_ g query ep_id ;;
       Ok (mk_knn (mass v) (q_push (dist, ep_id) []) (q_push (- dist, ep_id) []) dist)
     else Ok (mk_knn (mass v) [] (q_push (- FLT_MAX, ep_id) []) FLT_MAX)) ;;
  do! m <- aset (visited s) ep_id (curV v) ;;
  knn_loop (S (length (elements g))) g query has_deletions layer ef (curV v)
    (mk_knn m (top_candidates s) (candidates s) (lowerBound s)).

(** [return top_candidates;]. *)
Definition search_layer g query (has_deletions : bool) (ep_id : tableint) (layer ef : Z)
    (v : VisitedList) : res (list (Z * tableint)) :=
  do! s <- search_state g query has_deletions ep_id layer ef v ;; Ok (top_candidates s).

Definition searchBaseLayerST g query (has_deletions : bool) (ep_id : tableint) (ef : Z)
    (v : VisitedList) : res (list (Z * tableint)) :=
  search_layer g query has_deletions ep_id 0 ef v.

Definition searchBaseLayer g query (ef_construction_ : Z) (ep_id : tableint) (layer : Z)
    (v : VisitedList) : res (list (Z * tableint)) :=
  search_layer g query true ep_id layer ef_construction_ v.

(** [while (top_candidates.size() > k) top_candidates.pop();]; [n] bounds the
    entries. *)
Fixpoint pop_to (n : nat) (k : Z) (top : list (Z * tableint)) : res (list (Z * tableint)) :=
  if zlen top >? k then
    match n, q_pop top with S n, Some (_, top) => pop_to n k top | _, _ => Crash end
  else Ok top.

(** The results with their labels. *)
Fixpoint knn_results (n : nat) g (top : list (Z * tableint)) (result : list (Z * labeltype))
    : res (list (Z * labeltype)) :=
  match n, q_pop top with
  | _, None => Ok result
  | S n, Some ((d, id), top) =>
    do! label <- getExternalLabel g id ;; knn_results n g top (pair_push (d, label) result)
  | O, Some _ => NoFuel
  end.

Definition ef_ : Z := 10.

Definition searchKnn g query (k : Z) (v : VisitedList) : res (list (Z * labeltype)) :=
  if cur_element_count g =? 0 then Ok []
  else
    do! currObj <- search_entry fstdistfunc_ g query ;;
    do! top <- searchBaseLayerST g query (negb (num_deleted_ g =? 0)) currObj (Z.max ef_ k) v ;;
    do! top <- pop_to (length top) k top ;;
    knn_results (length top) g top [].
End search.

(** ** What the search has found *)

Section spec.
Context `{PQ : PriorityQueue}.
Variable fstdistfunc_ : list Z -> list Z -> Z.
Variable FLT_MAX : Z.
Variables (g : HierarchicalNSW) (query : list Z).
Hypothesis Hwf : hnsw_wf g.
Variables (ep : tableint) (layer ef tag : Z).
Hypothesis Hef : 1 <= ef.
(** Without deletions in the search there are none in the index. *)
Variable has_deletions : bool.
Hypothesis Hdel : has_deletions = false -> forall id x, zget (elements g) id = Some x -> e_deleted x = false.

Abbreviation dist := (dist_of fstdistfunc_ g query).
Abbreviation neighbours id := (links_at g id layer).
Abbreviation ids cs := (snd <$> cs).
Abbreviation lives l := (filter (fun id => is_live g id = true) l).
Implicit Types (s : knn_state) (seen popped : list tableint).

(** The results are the closest [ef] live elements seen. *)
Record closest (top : list (Z * tableint)) (seen : list tableint) : Prop := {
  cl_dist : Forall (fun x => fst x = dist (snd x)) top;
  cl_len : zlen top = Z.min ef (zlen (lives seen));
  cl_split : exists far, lives seen ≡ₚ ids top ++ far /\
    forall x y, x ∈ ids top -> y ∈ far -> dist x <= dist y
}.

(** [lowerBound] is the greatest distance among the results. *)
Definition bound_ok (top : list (Z * tableint)) (lb : Z) : Prop :=
  top <> [] -> (forall x, x ∈ top -> fst x <= lb) /\ exists x, x ∈ top /\ fst x = lb.

(** [seen] are the elements visited, [popped] those expanded. *)
Record knn_inv seen popped s : Prop := {
  ki_mass : zlen (visited s) = max_elements_ g;
  ki_vis : forall id, is_visited (visited s) tag id <-> id ∈ seen;
  ki_nodup : NoDup seen;
  ki_base : Forall (on_level g layer) seen;
  ki_reach : Forall (reachable g layer ep) seen;
  ki_entry : ep ∈ seen;
  ki_queues : q_ok (candidates s) /\ q_ok (top_candidates s);
  ki_cand : NoDup (popped ++ ids (candidates s)) /\ popped ++ ids (candidates s) ⊆ seen;
  ki_prio : Forall (fun x => is_live g (snd x) = true -> fst x = - dist (snd x)) (candidates s);
  ki_topc : ids (top_candidates s) ⊆ popped ++ ids (candidates s);
  ki_top : closest (top_candidates s) seen;
  ki_lb : bound_ok (top_candidates s) (lowerBound s);
  ki_all : zlen (top_candidates s) < ef -> seen ⊆ popped ++ ids (candidates s)
}.

(** The test on the deletion mark. *)
Lemma live_test id x :
  zget (elements g) id = Some x -> negb has_deletions || negb (e_deleted x) = is_live g id.
Proof.
  intros Hx. unfold is_live. rewrite Hx. destruct has_deletions; [done|]. cbn.
  by rewrite (Hdel eq_refl id x Hx).
Qed.

Lemma lives_cons id seen :
  lives (id :: seen) = if is_live g id then id :: lives seen else lives seen.
Proof. rewrite filter_cons. destruct (is_live g id); [by rewrite decide_True|by rewrite decide_False]. Qed.

(** Taking the farthest of the results. *)
Lemma bound_of_pop top x top' :
  q_ok top -> q_pop top = Some (x, top') -> bound_ok top (fst x).
Proof.
  intros Hq Hp Hne. destruct (q_pop_ok top Hq Hne) as (y & q' & Heq & _ & Hperm & Hmax).
  rewrite Hp in Heq. injection Heq as -> ->. split.
  - intros z. rewrite Hperm, elem_of_cons. intros [-> | Hz]; [lia|by apply Hmax].
  - exists y. split; [rewrite Hperm; by left|done].
Qed.

(** Adding a live element to results that are not full. *)
Lemma closest_push top seen id :
  q_ok top -> closest top seen -> is_live g id = true -> zlen top < ef ->
  closest (q_push (dist id, id) top) (id :: seen).
Proof.
  intros Hq [Hd Hl (far & Hp & Hsep)] Hlive Hlt. destruct (q_push_ok (dist id, id) top Hq) as [_ Hpush].
  assert (Hfar : far = []).
  { apply zlen_0_inv. apply Permutation_length in Hp. rewrite length_app, length_fmap in Hp.
    unfold zlen in *. lia. }
  subst far. split.
  - rewrite Hpush. by constructor.
  - rewrite lives_cons, Hlive. unfold zlen in *. rewrite Hpush. cbn [length]. lia.
  - exists []. rewrite lives_cons, Hlive, Hpush, app_nil_r. cbn. rewrite Hp, app_nil_r.
    split; [done|]. intros x y _ Hy. by apply not_elem_of_nil in Hy.
Qed.

(** Replacing the farthest of the results by a closer live element. *)
Lemma closest_replace top seen id lb x top' :
  q_ok top -> closest top seen -> bound_ok top lb -> is_live g id = true -> zlen top = ef ->
  dist id < lb -> q_pop (q_push (dist id, id) top) = Some (x, top') ->
  closest top' (id :: seen).
Proof.
  intros Hq [Hd Hl (far & Hp & Hsep)] Hb Hlive Hfull Hlt Hpop.
  destruct (q_push_ok (dist id, id) top Hq) as [Hq1 Hpush].
  destruct (q_pop_ok _ Hq1) as (y & q' & Heq & Hq' & Hperm & Hmax).
  { intros Hnil. rewrite Hnil in Hpush. by apply Permutation_nil_cons in Hpush. }
  rewrite Hpop in Heq. injection Heq as <- <-. rewrite Hpush in Hperm.
  assert (Hne : top <> []) by (intros ->; change (zlen []) with 0 in Hfull; lia).
  destruct (Hb Hne) as [Hub (z & Hz & Hzl)].
  assert (Hdall : Forall (fun x => fst x = dist (snd x)) (x :: top')).
  { rewrite <- Hperm. by constructor. }
  apply Forall_cons in Hdall as [Hdx Hdt].
  assert (Hids : id :: ids top ≡ₚ snd x :: ids top').
  { change (ids ((dist id, id) :: top) ≡ₚ ids (x :: top')). by rewrite Hperm. }
  split; [done| |].
  - rewrite lives_cons, Hlive. apply Permutation_length in Hperm. cbn in Hperm. unfold zlen in *. cbn [length]. lia.
  - exists (snd x :: far). split.
    + rewrite lives_cons, Hlive, Hp. rewrite app_comm_cons, Hids. cbn. apply Permutation_middle.
    + intros a b Ha. assert (Ha' : a = id \/ a ∈ ids top).
      { apply elem_of_cons. rewrite Hids. by right. }
      rewrite elem_of_cons. intros [-> | Hbf].
      * apply list_elem_of_fmap in Ha as (c & -> & Hc). specialize (Hmax c Hc).
        apply (proj1 (Forall_forall _ _) Hdt) in Hc. lia.
      * assert (Hzb : lb <= dist b).
        { rewrite <- Hzl. apply (proj1 (Forall_forall _ _) Hd) in Hz as Hdz. rewrite Hdz. apply Hsep; [|done].
          by apply list_elem_of_fmap_2. }
        destruct Ha' as [-> | Ha']; [lia|by apply Hsep].
Qed.

(** An element that is not closer than the full results. *)
Lemma closest_skip top seen id lb :
  closest top seen -> bound_ok top lb -> zlen top = ef -> lb <= dist id -> closest top (id :: seen).
Proof.
  intros [Hd Hl (far & Hp & Hsep)] Hb Hfull Hge.
  assert (Hne : top <> []) by (intros ->; change (zlen []) with 0 in Hfull; lia).
  destruct (Hb Hne) as [Hub _]. split; [done| |].
  - rewrite lives_cons. destruct (is_live g id); [|done]. rewrite zlen_cons. lia.
  - rewrite lives_cons. destruct (is_live g id); [|by exists far]. exists (id :: far). split.
    + rewrite Hp. apply Permutation_middle.
    + intros a b Ha. rewrite elem_of_cons. intros [-> | Hbf]; [|by apply Hsep].
      apply list_elem_of_fmap in Ha as (c & -> & Hc). specialize (Hub c Hc).
      apply (proj1 (Forall_forall _ _) Hd) in Hc. lia.
Qed.

(** A deleted element changes no result. *)
Lemma closest_deleted top seen id : closest top seen -> is_live g id = false -> closest top (id :: seen).
Proof. intros [Hd Hl Hs] Hn. split; [done| |]; rewrite lives_cons, Hn; done. Qed.

(** The results after an offer. *)
Lemma offer_top top seen lb id x :
  zget (elements g) id = Some x -> q_ok top -> closest top seen -> bound_ok top lb ->
  zlen top < ef \/ dist id < lb ->
  exists top3,
    (let top2 := if negb has_deletions || negb (e_deleted x) then q_push (dist id, id) top else top in
     if zlen top2 >? ef then match q_pop top2 with Some (_, t) => Ok t | None => Crash end
     else Ok top2) = Ok top3 /\
    q_ok top3 /\ closest top3 (id :: seen) /\
    bound_ok top3 (match q_pop top3 with Some ((d, _), _) => d | None => lb end) /\
    forall y, y ∈ ids top3 -> y = id \/ y ∈ ids top.
Proof.
  intros Hx Hq Hcl Hb Hoff. rewrite (live_test id x Hx). cbv zeta.
  assert (Hbound : forall t, q_ok t -> bound_ok t (match q_pop t with Some ((d, _), _) => d | None => lb end)).
  { intros t Ht Hne. destruct (q_pop_ok t Ht Hne) as ([d i] & q' & Hp & _). rewrite Hp.
    by apply (bound_of_pop t (d, i) q' Ht Hp). }
  pose proof (cl_len _ _ Hcl) as Hlen. rewrite Z.gtb_ltb. destruct (is_live g id) eqn:Hlive.
  - destruct (q_push_ok (dist id, id) top Hq) as [Hq1 Hpush].
    assert (Hl1 : zlen (q_push (dist id, id) top) = 1 + zlen top).
    { unfold zlen. rewrite Hpush. cbn [length]. lia. }
    destruct (Z.ltb_spec ef (zlen (q_push (dist id, id) top))) as [Hover|Hfit].
    + destruct (q_pop_ok _ Hq1) as (y & q' & Hp & Hq' & Hperm' & _).
      { intros Hnil. rewrite Hnil in Hpush. by apply Permutation_nil_cons in Hpush. }
      rewrite Hp. exists q'. split_and!; [done|done| |by apply Hbound|].
      * destruct Hoff as [|Hoff]; [lia|]. eapply (closest_replace top seen id lb y q'); eauto. lia.
      * intros z Hz. apply elem_of_cons. change (z ∈ ids ((dist id, id) :: top)). rewrite <- Hpush, Hperm'.
        cbn. by right.
    + eexists. split_and!; [done|done| |by apply Hbound|].
      * apply closest_push; [done|done|done|lia].
      * intros z. rewrite Hpush. cbn. by rewrite elem_of_cons.
  - destruct (Z.ltb_spec ef (zlen top)); [lia|]. exists top.
    split_and!; [done|done|by apply closest_deleted|by apply Hbound|by right].
Qed.

(** The counts of results never shrink. *)
Lemma closest_grows top top' seen id :
  closest top seen -> closest top' (id :: seen) -> zlen top <= zlen top'.
Proof.
  intros [_ Hl _] [_ Hl' _]. rewrite Hl, Hl', lives_cons. destruct (is_live g id); [rewrite zlen_cons|]; lia.
Qed.

(** Visiting one element. *)
Definition knn_visit (id : tableint) s : res knn_state :=
  do! m <- aset (visited s) id tag ;;
  let s := mk_knn m (top_candidates s) (candidates s) (lowerBound s) in
  do! d <- node_dist fstdistfunc_ g query id ;;
  if (zlen (top_candidates s) <? ef) || (lowerBound s >? d)
  then knn_offer g has_deletions ef d id s else Ok s.

Lemma knn_visit_ok seen popped s id :
  knn_inv seen popped s -> on_level g layer id -> reachable g layer ep id -> id ∉ seen ->
  exists s', knn_visit id s = Ok s' /\ knn_inv (id :: seen) popped s'.
Proof.
  intros Hinv Hlev Hre Hnew. pose proof Hlev as (x & Hx & _).
  pose proof (on_level_valid g layer id Hlev) as Hv. pose proof (hw_capacity g Hwf) as Hcap.
  destruct Hinv as [Hm Hvis Hnd Hbase Hreach Hep [Hqc Hqt] [Hcnd Hcs] Hpr Htc Htop Hlb Hall].
  assert (Hset : aset (visited s) id tag = Ok (zset (visited s) id tag)).
  { unfold aset. destruct (Z.leb_spec 0 id), (Z.ltb_spec id (zlen (visited s))); cbn; done || lia. }
  assert (Hvis' : forall i, is_visited (zset (visited s) id tag) tag i <-> i ∈ id :: seen).
  { intros i. unfold is_visited in *. rewrite zget_zset, elem_of_cons by lia.
    destruct (Z.eqb_spec id i) as [-> | Hne]; [naive_solver|]. rewrite Hvis. clear -Hne. naive_solver. }
  unfold knn_visit. rewrite Hset, rbind_ret, (node_dist_ok fstdistfunc_ g query layer id Hlev), rbind_ret.
  cbn [top_candidates lowerBound]. rewrite Z.gtb_ltb. destruct ((zlen (top_candidates s) <? ef) || (dist id <? lowerBound s)) eqn:Hc.
  - assert (Hoff : zlen (top_candidates s) < ef \/ dist id < lowerBound s).
    { apply orb_true_iff in Hc as [Hc%Z.ltb_lt|Hc%Z.ltb_lt]; [by left|by right]. }
    destruct (offer_top (top_candidates s) seen (lowerBound s) id x Hx Hqt Htop Hlb Hoff) as (top3 & Ht3 & Hq3 & Hc3 & Hb3 & Hsub3).
    unfold knn_offer, isMarkedDeleted, aget. cbn [candidates top_candidates lowerBound visited].
    rewrite Hx, !rbind_ret. cbv zeta in Ht3 |- *.
    match type of Ht3 with ?l = _ => match goal with |- context[rbind ?c _] => change c with l end end.
    rewrite Ht3, rbind_ret. eexists. split; [reflexivity|].
    destruct (q_push_ok (- dist id, id) (candidates s) Hqc) as [Hqp Hpush].
    assert (Hids : ids (q_push (- dist id, id) (candidates s)) ≡ₚ id :: ids (candidates s)) by (by rewrite Hpush).
    split; cbn [visited candidates top_candidates lowerBound].
    + by rewrite zlen_zset.
    + done.
    + by constructor.
    + by constructor.
    + by constructor.
    + by right.
    + done.
    + rewrite Hids. split; [|clear -Hcs; set_solver]. rewrite <- Permutation_middle.
      constructor; [|done]. clear -Hcs Hnew. set_solver.
    + rewrite Hpush. by constructor.
    + intros y Hy. rewrite Hids. destruct (Hsub3 y Hy) as [-> |Hy']; [set_solver|].
      specialize (Htc y Hy'). clear -Htc. set_solver.
    + done.
    + done.
    + pose proof (closest_grows _ _ _ _ Htop Hc3) as Hgrow. intros Hlt. rewrite Hids.
      specialize (Hall ltac:(lia)). clear -Hall. set_solver.
  - apply orb_false_iff in Hc as [Hfull%Z.ltb_ge Hfar%Z.ltb_ge]. pose proof (cl_len _ _ Htop) as Hlen.
    eexists. split; [reflexivity|]. split; cbn [visited candidates top_candidates lowerBound].
    + by rewrite zlen_zset.
    + done.
    + by constructor.
    + by constructor.
    + by constructor.
    + by right.
    + done.
    + split; [done|]. clear -Hcs. set_solver.
    + done.
    + done.
    + by eapply closest_skip; [done|done|lia|].
    + done.
    + lia.
Qed.

(** The neighbours of a node. *)
Lemma knn_neighbours_ok data seen popped s :
  knn_inv seen popped s -> Forall (on_level g layer) data -> Forall (reachable g layer ep) data ->
  exists s' seen', knn_neighbours fstdistfunc_ g query has_deletions ef tag data s = Ok s' /\
    knn_inv seen' popped s' /\ seen ⊆ seen' /\ data ⊆ seen'.
Proof.
  revert seen s. induction data as [|id data IH]; intros seen s Hinv Hl Hr; cbn [knn_neighbours].
  - exists s, seen. split_and!; [done|done|done|set_solver].
  - apply Forall_cons in Hl as [Hid Hl]. apply Forall_cons in Hr as [Hrid Hr].
    pose proof (on_level_valid g layer id Hid) as Hv. pose proof (hw_capacity g Hwf) as Hcap.
    destruct (zget_is_Some (visited s) id) as [t Ht]; [rewrite (ki_mass _ _ _ Hinv); lia|].
    rewrite (aget_Ok _ _ _ Ht), rbind_ret. pose proof (ki_vis _ _ _ Hinv id) as Hvis. unfold is_visited in Hvis.
    destruct (Z.eqb_spec t tag) as [-> |Hne]; cbn [negb].
    + destruct (IH seen s Hinv Hl Hr) as (s' & seen' & -> & H1 & H2 & H3). exists s', seen'.
      split_and!; [done|done|done|]. apply Hvis in Ht. clear -Ht H2 H3. set_solver.
    + assert (Hnew : id ∉ seen) by (rewrite <- Hvis, Ht; congruence).
      destruct (knn_visit_ok seen popped s id Hinv Hid Hrid Hnew) as (s1 & Hs1 & Hinv1).
      destruct (IH (id :: seen) s1 Hinv1 Hl Hr) as (s' & seen' & Hs' & H1 & H2 & H3).
      unfold knn_visit in Hs1. apply rbind_Ok in Hs1 as (m & -> & Hs1). rewrite rbind_ret.
      cbv zeta in Hs1 |- *. apply rbind_Ok in Hs1 as (d & -> & Hs1). rewrite rbind_ret, Hs1, rbind_ret.
      exists s', seen'. clear -Hs' H1 H2 H3. split_and!; [done|done| |]; set_solver.
Qed.

(** Taking a candidate to expand it. *)
Lemma pop_inv seen popped s p id cand :
  knn_inv seen popped s -> candidates s ≡ₚ (p, id) :: cand -> q_ok cand ->
  knn_inv seen (popped ++ [id]) (mk_knn (visited s) (top_candidates s) cand (lowerBound s)).
Proof.
  intros [Hm Hvis Hnd Hbase Hreach Hep [Hqc Hqt] [Hcnd Hcs] Hpr Htc Htop Hlb Hall] Hperm Hq.
  assert (Hk : popped ++ ids (candidates s) ≡ₚ (popped ++ [id]) ++ ids cand).
  { rewrite Hperm. cbn. by rewrite <- app_assoc. }
  split; cbn [visited top_candidates candidates lowerBound]; try done.
  - split; [by rewrite <- Hk|]. intros i Hi. apply Hcs. by rewrite Hk.
  - rewrite Hperm in Hpr. by apply Forall_cons in Hpr as [_ Hpr].
  - intros i Hi. rewrite <- Hk. by apply Htc.
  - intros Hlt i Hi. rewrite <- Hk. by apply Hall.
Qed.

(** A search over: [seen] are the elements it has marked, the results are the
    closest of them, whatever a result links to was seen, and if the results
    are not full everything reachable was seen. *)
Record knn_done s seen : Prop := {
  kd_queue : q_ok (top_candidates s);
  kd_top : closest (top_candidates s) seen;
  kd_nodup : NoDup seen;
  kd_base : Forall (on_level g layer) seen;
  kd_reach : Forall (reachable g layer ep) seen;
  kd_complete : zlen (top_candidates s) < ef -> forall id, reachable g layer ep id -> id ∈ seen;
  kd_local : forall x, x ∈ ids (top_candidates s) -> neighbours x ⊆ seen;
  kd_entry : ep ∈ seen;
  kd_marked : forall id, is_visited (visited s) tag id <-> id ∈ seen
}.

Lemma closed_complete seen popped s :
  knn_inv seen popped s -> (forall x, x ∈ popped -> neighbours x ⊆ seen) ->
  (zlen (top_candidates s) < ef -> seen ⊆ popped) -> ids (top_candidates s) ⊆ popped -> knn_done s seen.
Proof.
  intros [Hm Hvis Hnd Hbase Hreach Hep [Hqc Hqt] _ Hpr Htc Htop Hlb Hall] Hcl Hsub Hexp. split; try done.
  - intros Hlt id. induction 1 as [|x y _ IH Hy]; [done|]. by eapply Hcl; [apply Hsub|].
  - intros x Hx. by apply Hcl, Hexp.
Qed.

(** The results are live. *)
Lemma top_live top seen x : closest top seen -> x ∈ ids top -> is_live g x = true.
Proof.
  intros [_ _ (far & Hsp & _)] Hx. assert (Hin : x ∈ lives seen) by (rewrite Hsp; set_solver).
  by apply list_elem_of_filter in Hin as [Hl _].
Qed.

(** When the search breaks off, every result has been expanded: what is left
    to expand is farther than all results. *)
Lemma break_expanded seen popped s p id cand :
  knn_inv seen popped s -> candidates s ≡ₚ (p, id) :: cand ->
  (forall z, z ∈ cand -> fst z <= p) -> lowerBound s < - p ->
  ids (top_candidates s) ⊆ popped.
Proof.
  intros Hinv Hperm Hmax Hgt x Hx.
  apply list_elem_of_fmap in Hx as ([d x'] & -> & Hx). cbn [snd].
  assert (Hxi : x' ∈ ids (top_candidates s)) by (apply list_elem_of_fmap; by exists (d, x')).
  pose proof (top_live _ _ _ (ki_top _ _ _ Hinv) Hxi) as Hlive.
  apply (ki_topc _ _ _ Hinv), elem_of_app in Hxi as [|Hxc]; [done|]. exfalso.
  apply list_elem_of_fmap in Hxc as ([q y] & Hy & Hxc). cbn in Hy. subst y.
  pose proof (proj1 (Forall_forall _ _) (ki_prio _ _ _ Hinv) _ Hxc Hlive) as Hq. cbn in Hq.
  assert (Hqp : q <= p).
  { rewrite Hperm in Hxc. apply elem_of_cons in Hxc as [[= -> _]|Hxc]; [lia|]. by specialize (Hmax _ Hxc). }
  assert (Hne : top_candidates s <> []) by (intros E; rewrite E in Hx; by apply not_elem_of_nil in Hx).
  destruct (ki_lb _ _ _ Hinv Hne) as [Hub _]. specialize (Hub _ Hx). cbn in Hub.
  pose proof (cl_dist _ _ (ki_top _ _ _ Hinv)) as Hd. apply (proj1 (Forall_forall _ _) Hd) in Hx. cbn in Hx. lia.
Qed.

(** The test that ends the search is never wrong about results that are not
    full. *)
Lemma break_full seen popped s p id cand :
  knn_inv seen popped s -> candidates s ≡ₚ (p, id) :: cand -> lowerBound s < - p ->
  zlen (top_candidates s) = ef \/ has_deletions = false -> zlen (top_candidates s) < ef -> False.
Proof.
  intros Hinv Hperm Hgt [|Hnd] Hlt; [lia|]. pose proof (ki_prio _ _ _ Hinv) as Hpr.
  rewrite Hperm in Hpr. apply Forall_cons in Hpr as [Hp _]. cbn in Hp.
  assert (Hid : id ∈ seen).
  { apply (proj2 (ki_cand _ _ _ Hinv)). rewrite Hperm. set_solver. }
  pose proof (ki_base _ _ _ Hinv) as Hb. apply (proj1 (Forall_forall _ _) Hb) in Hid as (x & Hx & _).
  assert (Hlive : is_live g id = true).
  { rewrite <- (live_test id x Hx), Hnd. done. }
  specialize (Hp Hlive).
  destruct (ki_top _ _ _ Hinv) as [Hd Hl (far & Hsp & _)].
  assert (Hin : id ∈ lives seen).
  { apply list_elem_of_filter. split; [done|].
    apply (proj2 (ki_cand _ _ _ Hinv)). rewrite Hperm. set_solver. }
  assert (far = []) as ->.
  { apply zlen_0_inv. apply Permutation_length in Hsp. rewrite length_app, length_fmap in Hsp.
    unfold zlen in *. lia. }
  rewrite Hsp, app_nil_r in Hin. apply list_elem_of_fmap in Hin as ([d i] & -> & Hin). cbn in *.
  assert (Hne : top_candidates s <> []) by (intros E; rewrite E in Hin; by apply not_elem_of_nil in Hin).
  destruct (ki_lb _ _ _ Hinv Hne) as [Hub _]. specialize (Hub _ Hin). cbn in Hub.
  apply (proj1 (Forall_forall _ _) Hd) in Hin. cbn in Hin. lia.
Qed.

Lemma popped_length seen popped s : knn_inv seen popped s -> (length popped + length (candidates s) <= length (elements g))%nat.
Proof.
  intros Hinv. destruct (ki_cand _ _ _ Hinv) as [Hnd Hsub].
  rewrite <- (length_fmap snd (candidates s)), <- length_app.
  set (l := popped ++ ids (candidates s)) in *.
  assert (Hval : l ⊆ seqZ 0 (zlen (elements g))).
  { intros id Hid%Hsub. pose proof (ki_base _ _ _ Hinv) as Hb. apply (proj1 (Forall_forall _ _) Hb) in Hid.
    apply (on_level_valid g layer) in Hid. apply elem_of_seqZ. unfold cur_element_count in Hid. lia. }
  pose proof (submseteq_length _ _ (NoDup_submseteq _ _ Hnd Hval)) as Hl.
  rewrite length_seqZ in Hl. unfold zlen in Hl. lia.
Qed.

Lemma knn_loop_ok n seen popped s :
  knn_inv seen popped s -> (forall x, x ∈ popped -> neighbours x ⊆ seen) ->
  (length (elements g) < n + length popped)%nat ->
  exists s' seen', knn_loop fstdistfunc_ n g query has_deletions layer ef tag s = Ok s' /\
    knn_done s' seen'.
Proof.
  revert seen popped s. induction n as [|n IH]; intros seen popped s Hinv Hcl Hn.
  { pose proof (popped_length _ _ _ Hinv). lia. }
  cbn [knn_loop]. destruct (candidates s) as [|c0 cs0] eqn:Hc0.
  { rewrite q_pop_nil. exists s, seen. split; [done|]. eapply closed_complete; [done|done| |].
    - intros Hlt. pose proof (ki_all _ _ _ Hinv Hlt) as Ha. rewrite Hc0 in Ha. cbn in Ha.
      by rewrite app_nil_r in Ha.
    - pose proof (ki_topc _ _ _ Hinv) as Ha. rewrite Hc0 in Ha. cbn in Ha. by rewrite app_nil_r in Ha. }
  destruct (q_pop_ok (candidates s) (proj1 (ki_queues _ _ _ Hinv))) as ([p id] & cand & Hp & Hq & Hperm & Hmax);
    [by rewrite Hc0|]. rewrite <- Hc0, Hp, Z.gtb_ltb.
  destruct ((lowerBound s <? - p) && _) eqn:Hbr.
  { apply andb_true_iff in Hbr as [Hgt%Z.ltb_lt Hor]. exists s, seen. split; [done|].
    eapply closed_complete; [done|done| |by eapply break_expanded]. intros Hlt. exfalso.
    eapply (break_full seen popped s p id cand); try done.
    apply orb_true_iff in Hor as [Hor%Z.eqb_eq|Hor%negb_true_iff]; [by left|by right]. }
  assert (Hid : id ∈ seen).
  { apply (proj2 (ki_cand _ _ _ Hinv)). rewrite Hperm. set_solver. }
  pose proof (proj1 (Forall_forall _ _) (ki_base _ _ _ Hinv) _ Hid) as Hlev.
  pose proof (proj1 (Forall_forall _ _) (ki_reach _ _ _ Hinv) _ Hid) as Hre.
  rewrite (on_level_links g layer id Hlev), rbind_ret.
  destruct (knn_neighbours_ok (neighbours id) seen (popped ++ [id])
    (mk_knn (visited s) (top_candidates s) cand (lowerBound s))) as (s1 & seen1 & -> & Hinv1 & Hs1 & Hd1).
  { by eapply pop_inv. }
  { apply Forall_forall. intros y Hy. by eapply hw_links. }
  { apply Forall_forall. intros y Hy. by eapply reach_link. }
  rewrite rbind_ret. apply (IH seen1 (popped ++ [id])); [done| |rewrite length_app; cbn; lia].
  intros y Hy. apply elem_of_app in Hy as [Hy| ->%list_elem_of_singleton]; [|done].
  etrans; [by apply Hcl|done].
Qed.
End spec.

(** ** The whole search *)

Section knn.
Context `{PQ : PriorityQueue}.
Variable fstdistfunc_ : list Z -> list Z -> Z.
Variable FLT_MAX : Z.
Variables (g : HierarchicalNSW) (query : list Z).
Hypothesis Hwf : hnsw_wf g.

Abbreviation dist := (dist_of fstdistfunc_ g query).
Abbreviation lives l := (filter (fun id => is_live g id = true) l).

Section layer.
Variables (layer : Z) (has_deletions : bool).
Hypothesis Hdel : has_deletions = false -> forall id x, zget (elements g) id = Some x -> e_deleted x = false.

(** The state the loop starts in. *)
Lemma knn_start v ep ef m top cand lb :
  1 <= ef -> clean g v -> on_level g layer ep -> aset (mass v) ep (curV v) = Ok m ->
  q_ok top -> q_ok cand -> snd <$> cand = [ep] ->
  (if is_live g ep then top = [(dist ep, ep)] /\ lb = dist ep /\ cand = [(- dist ep, ep)]
   else top = [] /\ has_deletions = true) ->
  knn_inv fstdistfunc_ g query ep layer ef (curV v) [ep] [] (mk_knn m top cand lb).
Proof.
  intros Hef Hcl Hlev Hset Hqt Hqc Hids Hst. pose proof (clean_unvisited g v) as Hun.
  pose proof (on_level_valid g layer ep Hlev) as Hv. pose proof (hw_capacity g Hwf) as Hcap.
  unfold aset in Hset. destruct (Z.leb_spec 0 ep); [|done]. destruct (Z.ltb_spec ep (zlen (mass v))); [|done].
  cbn in Hset. injection Hset as <-.
  split; cbn [visited top_candidates candidates lowerBound]; rewrite ?Hids; try done.
  - rewrite zlen_zset. apply Hcl.
  - intros id. unfold is_visited in *. rewrite zget_zset, list_elem_of_singleton by lia.
    destruct (Z.eqb_spec ep id) as [-> |Hne]; [done|]. split; [|congruence]. intros Hm. by apply (Hun id) in Hm.
  - apply NoDup_singleton.
  - by apply Forall_singleton.
  - apply Forall_singleton. constructor.
  - by left.
  - split; [apply NoDup_singleton|done].
  - destruct (is_live g ep) eqn:Hlive.
    + destruct Hst as (_ & _ & ->). by apply Forall_singleton.
    + apply Forall_forall. intros x Hx Hl. apply (list_elem_of_fmap_2 snd) in Hx. rewrite Hids in Hx.
      apply list_elem_of_singleton in Hx. congruence.
  - cbn. destruct (is_live g ep); destruct Hst as [-> _]; set_solver.
  - split.
    + destruct (is_live g ep); destruct Hst as [-> _]; [by apply Forall_singleton|constructor].
    + rewrite lives_cons. destruct (is_live g ep); destruct Hst as [-> _]; cbn; unfold zlen; cbn; lia.
    + exists []. rewrite lives_cons, app_nil_r.
      split; [destruct (is_live g ep); by destruct Hst as [-> _]|].
      intros x y _ Hy. by apply not_elem_of_nil in Hy.
  - intros Hne. destruct (is_live g ep); [|by destruct Hst]. destruct Hst as (-> & -> & _).
    split; [intros x ->%list_elem_of_singleton; done|]. eexists. split; [by left|done].
Qed.

Lemma search_state_ok v ep ef :
  1 <= ef -> clean g v -> on_level g layer ep ->
  exists s seen, search_state fstdistfunc_ FLT_MAX g query has_deletions ep layer ef v = Ok s /\
    knn_done fstdistfunc_ g query ep layer ef (curV v) s seen.
Proof.
  intros Hef Hcl Hlev. pose proof Hlev as (x & Hx & _).
  pose proof (on_level_valid g layer ep Hlev) as Hv. pose proof (hw_capacity g Hwf) as Hcap.
  assert (Hset : exists m, aset (mass v) ep (curV v) = Ok m).
  { unfold aset. destruct (Z.leb_spec 0 ep), (Z.ltb_spec ep (zlen (mass v))); cbn; eauto; destruct Hcl; lia. }
  destruct Hset as [m Hset].
  assert (Hone : forall p : Z, q_ok (q_push (p, ep) []) /\ q_push (p, ep) [] = [(p, ep)]).
  { intros p. destruct (q_push_ok (p, ep) [] q_ok_nil) as [Hq Hp]. apply Permutation_singleton_r in Hp. done. }
  unfold search_state, isMarkedDeleted, aget. rewrite Hx, !rbind_ret, (live_test g has_deletions Hdel ep x Hx).
  rewrite (node_dist_ok fstdistfunc_ g query layer ep Hlev).
  destruct (is_live g ep) eqn:Hlive; rewrite ?rbind_ret; cbn [visited top_candidates candidates lowerBound];
    rewrite Hset, rbind_ret.
  - destruct (Hone (dist ep)) as [Hq1 Hp1], (Hone (- dist ep)) as [Hq2 Hp2].
    destruct (knn_loop_ok fstdistfunc_ g query Hwf ep layer ef (curV v) Hef has_deletions Hdel (S (length (elements g))) [ep] []
      (mk_knn m (q_push (dist ep, ep) []) (q_push (- dist ep, ep) []) (dist ep))) as (s' & seen & -> & Hd).
    + apply (knn_start v); try done; [by rewrite Hp2|]. by rewrite Hlive, Hp1, Hp2.
    + intros y Hy. by apply not_elem_of_nil in Hy.
    + cbn. lia.
    + eauto.
  - destruct (Hone (- FLT_MAX)) as [Hq2 Hp2].
    destruct (knn_loop_ok fstdistfunc_ g query Hwf ep layer ef (curV v) Hef has_deletions Hdel (S (length (elements g))) [ep] []
      (mk_knn m [] (q_push (- FLT_MAX, ep) []) FLT_MAX)) as (s' & seen & -> & Hd).
    + apply (knn_start v); try done; [apply q_ok_nil|by rewrite Hp2|]. rewrite Hlive. split; [done|].
      pose proof (live_test g has_deletions Hdel ep x Hx) as Ht. rewrite Hlive in Ht. by destruct has_deletions.
    + intros y Hy. by apply not_elem_of_nil in Hy.
    + cbn. lia.
    + eauto.
Qed.

End layer.

Lemma base_layer_ok v ep ef :
  1 <= ef -> clean g v -> on_level g 0 ep ->
  exists s seen,
    search_state fstdistfunc_ FLT_MAX g query (negb (num_deleted_ g =? 0)) ep 0 ef v = Ok s /\
    knn_done fstdistfunc_ g query ep 0 ef (curV v) s seen.
Proof.
  intros Hef. apply search_state_ok; [|done]. intros H0%negb_false_iff%Z.eqb_eq. by apply hw_deleted.
Qed.

(** Dropping the farthest results until [k] are left. *)
Lemma pop_to_ok n k top :
  q_ok top -> 0 <= k -> (length top <= n)%nat ->
  exists top' far, pop_to n k top = Ok top' /\ q_ok top' /\ top ≡ₚ top' ++ far /\
    (forall x y, x ∈ top' -> y ∈ far -> fst x <= fst y) /\ zlen top' = Z.min k (zlen top).
Proof.
  intros Hq Hk. revert top Hq. induction n as [|n IH]; intros top Hq Hn; cbn [pop_to]; rewrite Z.gtb_ltb;
    destruct (Z.ltb_spec k (zlen top)) as [Hgt|Hle].
  - exfalso. unfold zlen in Hgt. lia.
  - exists top, []. rewrite app_nil_r. split_and!; [done|done|done| |lia]. intros x y _ Hy. by apply not_elem_of_nil in Hy.
  - destruct (q_pop_ok top Hq) as (y & q' & -> & Hq' & Hp & Hmax); [intros ->; change (zlen []) with 0 in Hgt; lia|].
    apply Permutation_length in Hp as Hl. cbn in Hl.
    destruct (IH q' Hq' ltac:(lia)) as (top' & far & -> & H1 & H2 & H3 & H4).
    exists top', (y :: far). split_and!; [done|done| | |unfold zlen in *; lia].
    + rewrite Hp, H2. by rewrite Permutation_middle.
    + intros a b Ha. rewrite elem_of_cons. intros [-> | Hb]; [|by apply H3]. apply Hmax. rewrite H2. set_solver.
  - exists top, []. rewrite app_nil_r. split_and!; [done|done|done| |lia]. intros x y _ Hy. by apply not_elem_of_nil in Hy.
Qed.

(** The label of an element. *)
Definition label_of (id : tableint) : labeltype :=
  match zget (elements g) id with Some x => e_label x | None => 0 end.

Lemma knn_results_ok n top result :
  q_ok top -> (length top <= n)%nat -> Forall (fun x => on_level g 0 (snd x)) top ->
  StronglySorted (fun a b => fst b <= fst a) result ->
  exists out, knn_results n g top result = Ok out /\
    out ≡ₚ ((fun x => (fst x, label_of (snd x))) <$> top) ++ result /\
    StronglySorted (fun a b => fst b <= fst a) out.
Proof.
  revert top result. induction n as [|n IH]; intros top result Hq Hn Hl Hs; cbn [knn_results];
    (destruct top as [|t0 top0] eqn:Et; [rewrite q_pop_nil; by exists result|]); [cbn in Hn; lia|].
  rewrite <- Et in *. destruct (q_pop_ok top Hq) as ([d id] & q' & -> & Hq' & Hp & _); [by rewrite Et|].
  rewrite Hp in Hl. apply Forall_cons in Hl as [(x & Hx & _) Hl]. cbn in Hx.
  unfold getExternalLabel, aget. rewrite Hx, !rbind_ret. apply Permutation_length in Hp as Hlen. cbn in Hlen.
  destruct (IH q' (pair_push (d, e_label x) result) Hq' ltac:(lia) Hl (pair_push_sorted _ _ Hs)) as (out & -> & Ho & Hso).
  exists out. split; [done|]. split; [|done]. rewrite Ho, pair_push_perm, Hp. cbn.
  unfold label_of. rewrite Hx. by rewrite Permutation_middle.
Qed.

(** The elements the search has marked as visited, which are those whose
    distance it has computed (and a deleted entry point). *)
Definition marked (s : knn_state) (tag : Z) : list tableint :=
  filter (fun id => zget (visited s) id = Some tag) (seqZ 0 (zlen (visited s))).

Definition knn_seen (k : Z) (v : VisitedList) : res (list tableint) :=
  do! currObj <- search_entry fstdistfunc_ g query ;;
  do! s <- search_state fstdistfunc_ FLT_MAX g query (negb (num_deleted_ g =? 0)) currObj 0 (Z.max ef_ k) v ;;
  Ok (marked s (curV v)).

Lemma marked_seen s tag seen :
  NoDup seen -> (forall id, is_visited (visited s) tag id <-> id ∈ seen) -> marked s tag ≡ₚ seen.
Proof.
  intros Hnd Hm. unfold marked. apply NoDup_Permutation; [apply NoDup_filter, NoDup_seqZ|done|].
  intros id. rewrite list_elem_of_filter, elem_of_seqZ. fold (is_visited (visited s) tag id). rewrite Hm.
  split; [by intros [? _]|]. intros Hid.
  split; [done|]. apply Hm, zget_bounds in Hid. lia.
Qed.

(** What [searchKnn] returns when it has seen the elements [seen]: the [k]
    closest live ones of them, farthest first; whatever one of these links to
    was seen, too; and if fewer live elements than the search keeps were
    found, it has seen everything reachable. *)
Record knn_answer (ep : tableint) (k : Z) (seen : list tableint) (out : list (Z * labeltype)) : Prop := {
  ka_sorted : StronglySorted (fun a b => fst b <= fst a) out;
  ka_nodup : NoDup seen;
  ka_reach : Forall (reachable g 0 ep) seen;
  ka_entry : ep ∈ seen;
  ka_found : exists found far,
    lives seen ≡ₚ found ++ far /\ (forall x y, x ∈ found -> y ∈ far -> dist x <= dist y) /\
    zlen found = Z.min k (zlen (lives seen)) /\
    out ≡ₚ (fun id => (dist id, label_of id)) <$> found /\
    forall x, x ∈ found -> links_at g x 0 ⊆ seen;
  ka_complete : zlen (lives seen) < Z.max ef_ k -> forall id, reachable g 0 ep id -> id ∈ seen
}.

Lemma searchKnn_ok k v :
  0 <= k -> clean g v -> elements g <> [] ->
  exists ep seen out, search_entry fstdistfunc_ g query = Ok ep /\ knn_seen k v = Ok seen /\
    searchKnn fstdistfunc_ FLT_MAX g query k v = Ok out /\ knn_answer ep k seen out.
Proof.
  intros Hk Hcl Hne. destruct (search_entry_ok fstdistfunc_ g query Hwf Hne) as (ep & Hep & Hlev & _).
  unfold knn_seen, searchKnn. destruct (Z.eqb_spec (cur_element_count g) 0) as [H0|_].
  { exfalso. apply Hne, zlen_0_inv. unfold cur_element_count in H0. lia. }
  rewrite Hep, !rbind_ret. unfold searchBaseLayerST, search_layer.
  destruct (base_layer_ok v ep (Z.max ef_ k) ltac:(unfold ef_; lia) Hcl Hlev) as (s & seen & -> & Hd).
  rewrite !rbind_ret. destruct Hd as [Hq [Hdt Hlen (far & Hsp & Hsep)] Hnd Hb Hre Hcomp Hloc Hent Hmk].
  pose proof (marked_seen s (curV v) seen Hnd Hmk) as Hms. set (top := top_candidates s) in *.
  destruct (pop_to_ok (length top) k top Hq Hk ltac:(lia)) as (top' & far' & -> & Hq' & Hp' & Hsep' & Hlen').
  rewrite rbind_ret. rewrite Hp' in Hdt. apply Forall_app in Hdt as [Hdt Hdf].
  assert (Hsp2 : lives seen ≡ₚ (snd <$> top') ++ ((snd <$> far') ++ far)).
  { rewrite Hsp, Hp', fmap_app. by rewrite app_assoc. }
  assert (Hbt : Forall (fun x => on_level g 0 (snd x)) top').
  { apply Forall_forall. intros x Hx. apply (proj1 (Forall_forall _ _) Hb).
    assert (Hin : snd x ∈ lives seen) by (rewrite Hsp2; apply elem_of_app; left; by apply list_elem_of_fmap_2).
    by apply list_elem_of_filter in Hin as [_ Hin]. }
  destruct (knn_results_ok (length top') top' [] Hq' ltac:(lia) Hbt ltac:(constructor)) as (out & -> & Ho & Hso).
  exists ep, (marked s (curV v)), out. do 3 (split; [done|]).
  assert (Hlv : lives (marked s (curV v)) ≡ₚ lives seen) by (by rewrite Hms).
  assert (Hzl : zlen (lives (marked s (curV v))) = zlen (lives seen)) by (unfold zlen; by rewrite Hlv).
  split; rewrite ?Hzl; try rewrite Hms; try done.
  - exists (snd <$> top'), ((snd <$> far') ++ far). split_and!; [by rewrite Hlv| | | |].
    + intros x y Hx. apply list_elem_of_fmap in Hx as (a & -> & Ha). rewrite elem_of_app. intros [Hy|Hy].
      * apply list_elem_of_fmap in Hy as (b & -> & Hb'). specialize (Hsep' a b Ha Hb').
        apply (proj1 (Forall_forall _ _) Hdt) in Ha. apply (proj1 (Forall_forall _ _) Hdf) in Hb'. lia.
      * apply Hsep; [|done]. rewrite Hp', fmap_app. apply elem_of_app. left. by apply list_elem_of_fmap_2.
    + unfold zlen in *. rewrite length_fmap. lia.
    + rewrite Ho, app_nil_r, <- list_fmap_compose. apply Permutation_refl'. apply list_fmap_ext.
      intros i x Hx. apply list_elem_of_lookup_2 in Hx. apply (proj1 (Forall_forall _ _) Hdt) in Hx.
      destruct x as [d id]. cbn in *. by rewrite Hx.
    + intros x Hx y Hy. rewrite Hms. apply (Hloc x); [|done]. rewrite Hp', fmap_app. set_solver.
  - intros Hlt id Hid. rewrite Hms. apply Hcomp; [lia|done].
Qed.
End knn.

(** ** Properties *)



Example demo_seen : knn_seen line_dist 1000 demo_graph [28] 1 (mk_vl 3 [0; 2; 1; 0]) = Ok [0; 1; 2].
Proof. vm_compute. reflexivity. Qed.

Example demo_knn : searchKnn line_dist 1000 demo_graph [28] 1 (mk_vl 3 [0; 2; 1; 0]) = Ok [(2, 102)].
Proof. vm_compute. reflexivity. Qed.
