(* ===== verification/HnswInsert.v ===== *)
(** * thirdparty/hnsw/hnswlib/hnswalg.h: inserting a point

    [addPoint] with a new label: the element is appended, the levels above its
    own are descended greedily, and on each of its levels it is linked with
    neighbours chosen by the heuristic among the closest elements a search of
    the layer finds; full neighbours choose again.  With a known label
    [updatePoint] replaces the vector: the neighbours of the element choose
    again among the elements two links away, then the element is linked
    afresh.  Also the deletion marks, [resizeIndex] and [checkIntegrity]. *)

From Stdlib Require Import ZArith Lia.
From stdpp Require Import base list sorting strings gmap fin_maps.
From S2P Require Import Prelude HnswGraph HnswScan HnswTraversal HnswKnn.

Local Open Scope Z_scope.
Set Warnings "-clear-no-such-hyp".

(** ** std::unordered_set

    [set_of l] is the order in which the set is iterated after the elements
    of [l] were inserted one after the other; the order is not specified. *)

Class UnorderedSet := {
  set_of : list tableint -> list tableint;
  set_of_nodup : forall l, NoDup (set_of l);
  set_of_elem : forall l x, x ∈ set_of l <-> x ∈ l
}.

#[export] Instance first_seen_set : UnorderedSet.
Proof.
  refine {| set_of := remove_dups |}.
  - apply NoDup_remove_dups.
  - intros l x. apply elem_of_remove_dups.
Defined.

Section insert.
Context `{PQ : PriorityQueue} `{US : UnorderedSet}.
Variable fstdistfunc_ : list Z -> list Z -> Z.
Variable FLT_MAX : Z.
(** Link lists have at most [M_] entries, [2 * M_] on the base layer; searches
    for neighbours keep [ef_construction_] elements. *)
Variables (M_ ef_construction_ : Z).
Implicit Types (g : HierarchicalNSW).

Definition maxM_ : Z := M_.
Definition maxM0_ : Z := M_ * 2.
Definition Mcurmax (level : Z) : Z := if level =? 0 then maxM0_ else maxM_.

(** Distance of two elements. *)
Definition pair_dist g (a b : tableint) : res Z :=
  do! x <- aget (elements g) a ;; do! y <- aget (elements g) b ;;
  Ok (fstdistfunc_ (e_data x) (e_data y)).

(** ** [getNeighborsByHeuristic2] *)

(** All entries into a queue that yields the nearest first. *)
Fixpoint to_closest (n : nat) (top queue_closest : list (Z * tableint)) : res (list (Z * tableint)) :=
  match n, q_pop top with
  | _, None => Ok queue_closest
  | S n, Some ((d, id), top) => to_closest n top (pair_push (- d, id) queue_closest)
  | O, Some _ => NoFuel
  end.

(** No selected element is closer to the candidate than the query is. *)
Fixpoint is_good g (return_list : list (Z * tableint)) (cur : tableint) (dist_to_query : Z) : res bool :=
  match return_list with
  | [] => Ok true
  | (_, second) :: return_list =>
    do! curdist <- pair_dist g second cur ;;
    if curdist <? dist_to_query then Ok false else is_good g return_list cur dist_to_query
  end.

Fixpoint select_good g (M : Z) (queue_closest return_list : list (Z * tableint))
    : res (list (Z * tableint)) :=
  match queue_closest with
  | [] => Ok return_list
  | (p, id) :: queue_closest =>
    if zlen return_list >=? M then Ok return_list
    else
      do! good <- is_good g return_list id (- p) ;;
      select_good g M queue_closest (if good then return_list ++ [(p, id)] else return_list)
  end.

Definition getNeighborsByHeuristic2 g (top : list (Z * tableint)) (M : Z) : res (list (Z * tableint)) :=
  if zlen top <? M then Ok top
  else
    do! queue_closest <- to_closest (length top) top [] ;;
    do! return_list <- select_good g M queue_closest [] ;;
    Ok (foldl (fun q x => q_push (- fst x, snd x) q) [] return_list).

(** ** [mutuallyConnectNewElement] *)

(** The elements of a queue in the order they are popped. *)
Fixpoint pop_all (n : nat) (top : list (Z * tableint)) : res (list tableint) :=
  match n, q_pop top with
  | _, None => Ok []
  | S n, Some ((_, id), top) => do! l <- pop_all n top ;; Ok (id :: l)
  | O, Some _ => NoFuel
  end.

Definition element_level g (id : tableint) : res Z :=
  do! x <- aget (elements g) id ;; Ok (zlen (e_links x) - 1).

(** The entries are written, and their number into a 16-bit count
    ([setListCount]): entries beyond it are not links. *)
Definition set_links g (id : tableint) (level : Z) (l : list tableint) : res HierarchicalNSW :=
  do! x <- aget (elements g) id ;;
  do! links <- aset (e_links x) level (ztake (uint16 (zlen l)) l) ;;
  do! els <- aset (elements g) id (mk_element (e_data x) (e_label x) (e_deleted x) links) ;;
  Ok (mk_graph (max_elements_ g) (num_deleted_ g) (maxlevel_ g) (enterpoint_node_ g) els (label_lookup_ g)).

(** The tests while the element's own list is written over what its slots
    hold: those of a new element must be blank. *)
Fixpoint check_slots g (level : Z) (isUpdate : bool) (slots selected : list tableint) : res unit :=
  match selected, slots with
  | [], _ => Ok tt
  | _ :: _, [] => Crash
  | id :: selected, slot :: slots =>
    if negb (slot =? 0) && negb isUpdate then Error "Possible memory corruption"
    else
      do! l <- element_level g id ;;
      if level >? l then Error "Trying to make a link on a non-existent level"
      else check_slots g level isUpdate slots selected
  end.

(** The distances of a full neighbour's links to it. *)
Fixpoint link_candidates g (other : tableint) (data : list tableint) (q : list (Z * tableint))
    : res (list (Z * tableint)) :=
  match data with
  | [] => Ok q
  | id :: data =>
    do! d <- pair_dist g id other ;; link_candidates g other data (q_push (d, id) q)
  end.

(** Add the element to a neighbour's list, unless it is updated and there
    already. *)
Definition link_back g (cur_c : tableint) (level : Z) (isUpdate : bool) (other : tableint)
    : res HierarchicalNSW :=
  do! data <- get_linklist g other level ;;
  if zlen data >? Mcurmax level then Error "Bad value of sz_link_list_other"
  else if other =? cur_c then Error "Trying to connect an element to itself"
  else
    do! l <- element_level g other ;;
    if level >? l then Error "Trying to make a link on a non-existent level"
    else if isUpdate && bool_decide (cur_c ∈ data) then Ok g
    else if zlen data <? Mcurmax level then set_links g other level (data ++ [cur_c])
    else
      do! d_max <- pair_dist g cur_c other ;;
      do! cands <- link_candidates g other data (q_push (d_max, cur_c) []) ;;
      do! cands <- getNeighborsByHeuristic2 g cands (Mcurmax level) ;;
      do! data <- pop_all (length cands) cands ;;
      set_links g other level data.

Fixpoint link_all_back g (cur_c : tableint) (level : Z) (isUpdate : bool) (selected : list tableint)
    : res HierarchicalNSW :=
  match selected with
  | [] => Ok g
  | other :: selected =>
    do! g <- link_back g cur_c level isUpdate other ;; link_all_back g cur_c level isUpdate selected
  end.

(** [slots] is what the slots of the element's list on this level hold. *)
Definition mutuallyConnectNewElement g (cur_c : tableint) (slots : list tableint)
    (top : list (Z * tableint)) (level : Z) (isUpdate : bool) : res (HierarchicalNSW * tableint) :=
  do! top <- getNeighborsByHeuristic2 g top M_ ;;
  if zlen top >? M_ then Error "Should be not be more than M_ candidates returned by the heuristic"
  else
    do! selected <- pop_all (length top) top ;;
    do! next <- match last selected with Some x => Ok x | None => Crash end ;;
    do! own <- get_linklist g cur_c level ;;
    if negb (zlen own =? 0) && negb isUpdate
    then Error "The newly inserted element should have blank link list"
    else
      do! _ <- check_slots g level isUpdate slots selected ;;
      do! g <- set_links g cur_c level selected ;;
      do! g <- link_all_back g cur_c level isUpdate selected ;;
      Ok (g, next).

(** ** [addPoint] *)

(** [for (level = maxlevelcopy; level > curlevel; level--)], [n] levels. *)
Fixpoint descend_above g query (n : nat) (level : Z) (currObj : tableint) (curdist : Z) : res tableint :=
  match n with
  | O => Ok currObj
  | S n =>
    do! ' (currObj, curdist) <-
      greedy_level fstdistfunc_ (S (length (elements g))) g query level currObj curdist ;;
    descend_above g query n (level - 1) currObj curdist
  end.

(** The candidates of a level; a deleted entry point is a candidate too. *)
Definition level_candidates g query (epDeleted : bool) (enterpoint_copy currObj : tableint) (level : Z)
    (v : VisitedList) : res (list (Z * tableint)) :=
  do! top <- searchBaseLayer fstdistfunc_ FLT_MAX g query ef_construction_ currObj level v ;;
  if epDeleted then
    do! d <- node_dist fstdistfunc_ g query enterpoint_copy ;;
    let top := q_push (d, enterpoint_copy) top in
    if zlen top >? ef_construction_
    then match q_pop top with Some (_, top) => Ok top | None => Crash end
    else Ok top
  else Ok top.

(** The slots of a link list in cleared memory; in an update what they hold is
    not looked at. *)
Definition blank_slots (level : Z) : list tableint := replicate (Z.to_nat (Mcurmax level)) 0.

(** [for (level = ...; level >= 0; level--)], [n] levels from [n - 1] down.
    [addPoint] has cleared the memory of the new element's lists ([memset]),
    and each of them is written on its own level only. *)
Fixpoint connect_levels g query (epDeleted : bool) (enterpoint_copy cur_c : tableint) (n : nat)
    (currObj : tableint) (v : nat -> VisitedList) : res HierarchicalNSW :=
  match n with
  | O => Ok g
  | S n =>
    do! top <- level_candidates g query epDeleted enterpoint_copy currObj (Z.of_nat n) (v n) ;;
    do! ' (g, currObj) <- mutuallyConnectNewElement g cur_c (blank_slots (Z.of_nat n)) top (Z.of_nat n) false ;;
    connect_levels g query epDeleted enterpoint_copy cur_c n currObj v
  end.

(** Blank link lists on levels 0 to [curlevel]. *)
Definition new_element (data_point : list Z) (label : labeltype) (curlevel : Z) : element :=
  mk_element data_point label false (replicate (Z.to_nat (curlevel + 1)) []).

Definition append_element g (x : element) : HierarchicalNSW :=
  mk_graph (max_elements_ g) (num_deleted_ g) (maxlevel_ g) (enterpoint_node_ g) (elements g ++ [x])
    (<[e_label x := cur_element_count g]> (label_lookup_ g)).

Definition set_entry g (ep : tableint) (level : Z) : HierarchicalNSW :=
  mk_graph (max_elements_ g) (num_deleted_ g) level ep (elements g) (label_lookup_ g).

(** ** Deletion marks *)

Definition set_mark g (id : tableint) (deleted : bool) (num_deleted : Z) : res HierarchicalNSW :=
  do! x <- aget (elements g) id ;;
  do! els <- aset (elements g) id (mk_element (e_data x) (e_label x) deleted (e_links x)) ;;
  Ok (mk_graph (max_elements_ g) (uint64 num_deleted) (maxlevel_ g) (enterpoint_node_ g) els (label_lookup_ g)).

Definition markDeletedInternal g (internalId : tableint) : res HierarchicalNSW :=
  do! deleted <- isMarkedDeleted g internalId ;;
  if negb deleted then set_mark g internalId true (num_deleted_ g + 1)
  else Error "The requested to delete element is already deleted".

Definition unmarkDeletedInternal g (internalId : tableint) : res HierarchicalNSW :=
  do! deleted <- isMarkedDeleted g internalId ;;
  if deleted : bool then set_mark g internalId false (num_deleted_ g - 1)
  else Error "The requested to undelete element is not deleted".

Definition markDelete g (label : labeltype) : res HierarchicalNSW :=
  match label_lookup_ g !! label with
  | None => Error "Label not found"
  | Some internalId => markDeletedInternal g internalId
  end.

Definition unmarkDelete g (label : labeltype) : res HierarchicalNSW :=
  match label_lookup_ g !! label with
  | None => Error "Label not found"
  | Some internalId => unmarkDeletedInternal g internalId
  end.

Fixpoint copy_data (n : nat) (data_ptr : list Z) : res (list Z) :=
  match n, data_ptr with
  | O, _ => Ok []
  | S n, x :: data_ptr => do! data <- copy_data n data_ptr ;; Ok (x :: data)
  | S _, [] => Crash
  end.

(** [dim] is the dimension of the space. *)
Definition getDataByLabel g (dim : nat) (label : labeltype) : res (list Z) :=
  match label_lookup_ g !! label with
  | None => Error "Label not found"
  | Some label_c =>
    do! deleted <- isMarkedDeleted g label_c ;;
    if deleted : bool then Error "Label not found"
    else do! x <- aget (elements g) label_c ;; copy_data dim (e_data x)
  end.

(** ** [updatePoint] *)

Definition set_data g (id : tableint) (dataPoint : list Z) : res HierarchicalNSW :=
  do! x <- aget (elements g) id ;;
  do! els <- aset (elements g) id (mk_element dataPoint (e_label x) (e_deleted x) (e_links x)) ;;
  Ok (mk_graph (max_elements_ g) (num_deleted_ g) (maxlevel_ g) (enterpoint_node_ g) els (label_lookup_ g)).

(** What is inserted into [sCand] for the links of the element: each link
    and the links of it. *)
Fixpoint two_hops g (layer : Z) (listOneHop : list tableint) : res (list tableint) :=
  match listOneHop with
  | [] => Ok []
  | elOneHop :: listOneHop =>
    do! listTwoHop <- get_linklist g elOneHop layer ;;
    do! more <- two_hops g layer listOneHop ;;
    Ok (elOneHop :: listTwoHop ++ more)
  end.

(** The [elementsToKeep] elements of [sCand] nearest to [neigh]. *)
Fixpoint closest_candidates g (neigh : tableint) (elementsToKeep : Z) (sCand : list tableint)
    (candidates : list (Z * tableint)) : res (list (Z * tableint)) :=
  match sCand with
  | [] => Ok candidates
  | cand :: sCand =>
    if cand =? neigh then closest_candidates g neigh elementsToKeep sCand candidates
    else
      do! distance <- pair_dist g neigh cand ;;
      do! candidates <-
        (if zlen candidates <? elementsToKeep then Ok (q_push (distance, cand) candidates)
         else match q_pop candidates with
              | None => Crash
              | Some ((top, _), rest) =>
                Ok (if distance <? top then q_push (distance, cand) rest else candidates)
              end) ;;
      closest_candidates g neigh elementsToKeep sCand candidates
  end.

(** A neighbour chooses its links again. *)
Definition choose_again g (layer : Z) (sCand : list tableint) (neigh : tableint) : res HierarchicalNSW :=
  let size := if bool_decide (neigh ∈ sCand) then zlen sCand - 1 else zlen sCand in
  let elementsToKeep := Z.min ef_construction_ size in
  do! candidates <- closest_candidates g neigh elementsToKeep sCand [] ;;
  do! candidates <- getNeighborsByHeuristic2 g candidates (Mcurmax layer) ;;
  do! data <- pop_all (length candidates) candidates ;;
  set_links g neigh layer data.

Fixpoint choose_all_again g (layer : Z) (sCand sNeigh : list tableint) : res HierarchicalNSW :=
  match sNeigh with
  | [] => Ok g
  | neigh :: sNeigh =>
    do! g <- choose_again g layer sCand neigh ;; choose_all_again g layer sCand sNeigh
  end.

(** One layer; no neighbour is left out, since a random number below one is
    not greater than the probability 1.0 of the only call. *)
Definition update_layer g (internalId : tableint) (layer : Z) : res HierarchicalNSW :=
  do! listOneHop <- get_linklist g internalId layer ;;
  if zlen listOneHop =? 0 then Ok g
  else
    do! hops <- two_hops g layer listOneHop ;;
    choose_all_again g layer (set_of (internalId :: hops)) (set_of listOneHop).

(** [for (layer = 0; layer <= elemLevel; layer++)], [n] layers. *)
Fixpoint update_layers g (internalId : tableint) (n : nat) (layer : Z) : res HierarchicalNSW :=
  match n with
  | O => Ok g
  | S n => do! g <- update_layer g internalId layer ;; update_layers g internalId n (layer + 1)
  end.

(** *** [repairConnectionsForUpdate] *)

(** The walk of [addPoint] without the test of the links. *)
Fixpoint repair_scan g query (datal : list tableint) (currObj : tableint) (curdist : Z)
    (changed : bool) : res (tableint * Z * bool) :=
  match datal with
  | [] => Ok (currObj, curdist, changed)
  | cand :: datal =>
    do! d <- node_dist fstdistfunc_ g query cand ;;
    if d <? curdist then repair_scan g query datal cand d true
    else repair_scan g query datal currObj curdist changed
  end.

Fixpoint repair_level (n : nat) g query (level : Z) (currObj : tableint) (curdist : Z)
    : res (tableint * Z) :=
  match n with
  | O => NoFuel
  | S n =>
    do! datal <- get_linklist g currObj level ;;
    do! ' (currObj, curdist, changed) <- repair_scan g query datal currObj curdist false ;;
    if changed then repair_level n g query level currObj curdist else Ok (currObj, curdist)
  end.

Fixpoint repair_above g query (n : nat) (level : Z) (currObj : tableint) (curdist : Z) : res tableint :=
  match n with
  | O => Ok currObj
  | S n =>
    do! ' (currObj, curdist) <- repair_level (S (length (elements g))) g query level currObj curdist ;;
    repair_above g query n (level - 1) currObj curdist
  end.

(** The candidates but the element itself. *)
Fixpoint filter_self (n : nat) (topCandidates : list (Z * tableint)) (self : tableint)
    (filtered : list (Z * tableint)) : res (list (Z * tableint)) :=
  match n, q_pop topCandidates with
  | _, None => Ok filtered
  | S n, Some (x, topCandidates) =>
    filter_self n topCandidates self (if negb (snd x =? self) then q_push x filtered else filtered)
  | O, Some _ => NoFuel
  end.

(** Link the element on a level, unless nothing but itself was found.  What
    the slots of its list hold does not matter for an update. *)
Definition repair_connect g query (entryPoint self : tableint) (level : Z) (currObj : tableint)
    (filtered : list (Z * tableint)) : res (HierarchicalNSW * tableint) :=
  if zlen filtered >? 0 then
    do! epDeleted <- isMarkedDeleted g entryPoint ;;
    do! filtered <-
      (if epDeleted : bool then
         do! d <- node_dist fstdistfunc_ g query entryPoint ;;
         let filtered := q_push (d, entryPoint) filtered in
         if zlen filtered >? ef_construction_
         then match q_pop filtered with Some (_, q) => Ok q | None => Crash end
         else Ok filtered
       else Ok filtered) ;;
    mutuallyConnectNewElement g self (blank_slots level) filtered level true
  else Ok (g, currObj).

(** [for (level = dataPointLevel; level >= 0; level--)], [n] levels from
    [n - 1] down. *)
Fixpoint repair_levels g query (entryPoint self : tableint) (n : nat) (currObj : tableint)
    (v : nat -> VisitedList) : res HierarchicalNSW :=
  match n with
  | O => Ok g
  | S n =>
    let level := Z.of_nat n in
    do! top <- searchBaseLayer fstdistfunc_ FLT_MAX g query ef_construction_ currObj level (v n) ;;
    do! filtered <- filter_self (length top) top self [] ;;
    do! ' (g, currObj) <- repair_connect g query entryPoint self level currObj filtered ;;
    repair_levels g query entryPoint self n currObj v
  end.

Definition repairConnectionsForUpdate g query (entryPoint self : tableint) (dataPointLevel maxLevel : Z)
    (v : nat -> VisitedList) : res HierarchicalNSW :=
  do! currObj <-
    (if dataPointLevel <? maxLevel then
       do! curdist <- node_dist fstdistfunc_ g query entryPoint ;;
       repair_above g query (Z.to_nat (maxLevel - dataPointLevel)) maxLevel entryPoint curdist
     else Ok entryPoint) ;;
  if dataPointLevel >? maxLevel
  then Error "Level of item to be updated cannot be bigger than max level"
  else repair_levels g query entryPoint self (Z.to_nat (dataPointLevel + 1)) currObj v.

Definition updatePoint g (dataPoint : list Z) (internalId : tableint) (v : nat -> VisitedList)
    : res HierarchicalNSW :=
  do! g <- set_data g internalId dataPoint ;;
  if (enterpoint_node_ g =? internalId) && (cur_element_count g =? 1) then Ok g
  else
    do! elemLevel <- element_level g internalId ;;
    do! g' <- update_layers g internalId (Z.to_nat (elemLevel + 1)) 0 ;;
    repairConnectionsForUpdate g' dataPoint (enterpoint_node_ g) internalId elemLevel (maxlevel_ g) v.

(** ** [addPoint] of a point whose label may be known *)

(** [curlevel] is the level drawn for the element; [v n] the visited list the
    pool hands out for level [n]. *)
Definition addPoint g (data_point : list Z) (label : labeltype) (curlevel : Z) (v : nat -> VisitedList)
    : res HierarchicalNSW :=
  match label_lookup_ g !! label with
  | Some existing =>
    do! deleted <- isMarkedDeleted g existing ;;
    do! g <- (if deleted : bool then unmarkDeletedInternal g existing else Ok g) ;;
    updatePoint g data_point existing v
  | None =>
    if cur_element_count g >=? max_elements_ g
    then Error "The number of elements exceeds the specified limit"
    else
      let cur_c := cur_element_count g in
      let maxlevelcopy := maxlevel_ g in
      let currObj := enterpoint_node_ g in
      let g := append_element g (new_element data_point label curlevel) in
      do! g <-
        (if negb (int32 currObj =? -1) then
           do! currObj <-
             (if curlevel <? maxlevelcopy then
                do! curdist <- node_dist fstdistfunc_ g data_point currObj ;;
                descend_above g data_point (Z.to_nat (maxlevelcopy - curlevel)) maxlevelcopy currObj curdist
              else Ok currObj) ;;
           do! epDeleted <- isMarkedDeleted g (enterpoint_node_ g) ;;
           connect_levels g data_point epDeleted (enterpoint_node_ g) cur_c
             (Z.to_nat (Z.min curlevel maxlevelcopy + 1)) currObj v
         else Ok (set_entry g 0 curlevel)) ;;
      Ok (if curlevel >? maxlevelcopy then set_entry g cur_c curlevel else g)
  end.

(** [HierarchicalNSW(space, max_elements)]. *)
Definition new_index (max_elements : Z) : HierarchicalNSW :=
  mk_graph max_elements 0 (-1) (uint32 (-1)) [] ∅.

(** The capacity is changed; the arrays are reallocated with their contents. *)
Definition resizeIndex g (new_max_elements : Z) : res HierarchicalNSW :=
  if new_max_elements <? cur_element_count g
  then Error "Cannot resize, max element is less than the current number of elements"
  else Ok (mk_graph new_max_elements (num_deleted_ g) (maxlevel_ g) (enterpoint_node_ g)
             (elements g) (label_lookup_ g)).

(** ** [checkIntegrity]

    An assertion that fails stops the program. *)

(** The links of element [i] on a level; counts the links into each
    element. *)
Fixpoint check_links (count i : Z) (data : list tableint) (inbound : list Z) : res (list Z) :=
  match data with
  | [] => Ok inbound
  | x :: data =>
    if negb (x >? 0) then Crash
    else if negb (x <? count) then Crash
    else if x =? i then Crash
    else
      do! n <- aget inbound x ;;
      do! inbound <- aset inbound x (n + 1) ;;
      check_links count i data inbound
  end.

Fixpoint check_element (count i : Z) (links : list (list tableint)) (inbound : list Z) (connections_checked : Z)
    : res (list Z * Z) :=
  match links with
  | [] => Ok (inbound, connections_checked)
  | data :: links =>
    do! inbound <- check_links count i data inbound ;;
    if zlen (set_of data) =? zlen data
    then check_element count i links inbound (connections_checked + zlen data)
    else Crash
  end.

Fixpoint check_elements (count i : Z) (els : list element) (inbound : list Z) (connections_checked : Z)
    : res (list Z * Z) :=
  match els with
  | [] => Ok (inbound, connections_checked)
  | x :: els =>
    do! ' (inbound, connections_checked) <- check_element count i (e_links x) inbound connections_checked ;;
    check_elements count (i + 1) els inbound connections_checked
  end.

(** The number of links, which is printed. *)
Definition checkIntegrity g : res Z :=
  let count := cur_element_count g in
  do! ' (inbound, connections_checked) <-
    check_elements count 0 (elements g) (replicate (Z.to_nat count) 0) 0 ;;
  if (count >? 1) && negb (forallb (fun n => n >? 0) inbound) then Crash
  else Ok connections_checked.
End insert.
