(* ===== verification/HnswInsertTheory.v ===== *)
(** * Inserting a point keeps the index intact

    The invariant of an index under construction, what the neighbour
    selection of hnswalg.h chooses, and that [addPoint] of [HnswInsert] keeps
    the invariant: links stay within their level and their bound, no element
    links to itself or twice to another, and every point inserted is in the
    index under its label. *)

From Stdlib Require Import ZArith Lia.
From stdpp Require Import base list sorting strings gmap fin_maps.
From S2P Require Import Prelude HnswGraph HnswScan HnswTraversal HnswKnn HnswInsert.

Local Open Scope Z_scope.
Set Warnings "-clear-no-such-hyp".

(** ** Indexes with the same points *)

(** Everything of an element but its links. *)
Definition skeleton (x : element) : list Z * labeltype * bool * Z :=
  (e_data x, e_label x, e_deleted x, zlen (e_links x)).

(** Two indexes that differ in links only. *)
Record same_points (g g' : HierarchicalNSW) : Prop := {
  sp_max : max_elements_ g = max_elements_ g';
  sp_num_deleted : num_deleted_ g = num_deleted_ g';
  sp_maxlevel : maxlevel_ g = maxlevel_ g';
  sp_entry : enterpoint_node_ g = enterpoint_node_ g';
  sp_lookup : label_lookup_ g = label_lookup_ g';
  sp_elements : skeleton <$> elements g = skeleton <$> elements g'
}.

#[export] Instance same_points_equivalence : Equivalence same_points.
Proof.
  split.
  - intros g. by split.
  - intros g g' []. by split.
  - intros g g' g'' [] []. split; congruence.
Qed.

Section same.
Variables (g g' : HierarchicalNSW).
Hypothesis Hsame : same_points g g'.

Lemma same_get id x :
  zget (elements g) id = Some x -> exists x', zget (elements g') id = Some x' /\ skeleton x' = skeleton x.
Proof.
  intros Hx. assert (Hs : zget (skeleton <$> elements g') id = Some (skeleton x)).
  { rewrite <- (sp_elements _ _ Hsame), zget_fmap, Hx. done. }
  rewrite zget_fmap in Hs. destruct (zget (elements g') id) as [x'|]; [|done].
  exists x'. split; [done|]. by apply (inj Some) in Hs.
Qed.

Lemma same_on_level level id : on_level g level id -> on_level g' level id.
Proof.
  intros (x & Hx & Hl). destruct (same_get id x Hx) as (x' & Hx' & [= _ _ _ Hlen]).
  exists x'. split; [done|]. unfold tableint in *. lia.
Qed.

Lemma same_count : cur_element_count g' = cur_element_count g.
Proof.
  unfold cur_element_count. rewrite <- (zlen_fmap skeleton (elements g')), <- (sp_elements _ _ Hsame).
  apply zlen_fmap.
Qed.

Lemma same_clean v : clean g v -> clean g' v.
Proof. unfold clean. by rewrite (sp_max _ _ Hsame). Qed.
End same.

Lemma same_get_r g g' id x' :
  same_points g g' -> zget (elements g') id = Some x' ->
  exists x, zget (elements g) id = Some x /\ skeleton x = skeleton x'.
Proof. intros Hs%symmetry. by apply same_get. Qed.

(** A well-formed index stays so under new links that respect the levels. *)
Lemma same_wf g g' :
  hnsw_wf g -> same_points g g' ->
  (forall id level nb, nb ∈ links_at g' id level -> on_level g level nb) -> hnsw_wf g'.
Proof.
  intros [H1 H2 _ H4 H5] Hs Hl. split.
  - rewrite (same_count _ _ Hs), <- (sp_max _ _ Hs). done.
  - intros id x' Hx'. destruct (same_get_r _ _ _ _ Hs Hx') as (x & Hx & [= _ _ _ Hlen]).
    specialize (H2 _ _ Hx). intros E. apply H2, zlen_0_inv. rewrite E in Hlen. cbn in Hlen.
    unfold tableint in *. change (zlen (@nil (list Z))) with 0 in Hlen. lia.
  - intros id level nb Hn. by eapply same_on_level, Hl.
  - intros Hne. rewrite <- (sp_maxlevel _ _ Hs), <- (sp_entry _ _ Hs). destruct H4 as [Hm He].
    + intros E. apply Hne. apply (f_equal (fmap skeleton)) in E. rewrite (sp_elements _ _ Hs) in E.
      by apply fmap_nil_inv in E.
    + split; [done|]. by eapply same_on_level.
  - rewrite <- (sp_num_deleted _ _ Hs). intros H0 id x' Hx'.
    destruct (same_get_r _ _ _ _ Hs Hx') as (x & Hx & [= _ _ Hd _]). rewrite <- Hd. by eapply H5.
Qed.

(** ** Setting a link list *)

Definition relink (g : HierarchicalNSW) (id : tableint) (level : Z) (l : list tableint) : HierarchicalNSW :=
  match zget (elements g) id with
  | Some x => mk_graph (max_elements_ g) (num_deleted_ g) (maxlevel_ g) (enterpoint_node_ g)
      (zset (elements g) id (mk_element (e_data x) (e_label x) (e_deleted x) (zset (e_links x) level l)))
      (label_lookup_ g)
  | None => g
  end.

Section relink.
Variables (g : HierarchicalNSW) (id : tableint) (level : Z) (l : list tableint).
Hypothesis Hlev : on_level g level id.

Lemma set_links_ok : zlen l <= 65535 -> set_links g id level l = Ok (relink g id level l).
Proof.
  intros Hlen. pose proof (zlen_nonneg l). destruct Hlev as (x & Hx & Hl). unfold set_links, relink, aget. rewrite Hx, rbind_ret.
  unfold uint16. rewrite Z.mod_small, ztake_all by lia.
  rewrite aset_Ok by done. rewrite rbind_ret, aset_Ok by (by eapply zget_bounds). by rewrite rbind_ret.
Qed.

Lemma links_at_relink i lv :
  links_at (relink g id level l) i lv = if bool_decide (i = id /\ lv = level) then l else links_at g i lv.
Proof.
  destruct Hlev as (x & Hx & Hl). pose proof (zget_bounds _ _ _ Hx) as Hb.
  unfold links_at, relink. rewrite Hx. cbn [elements].
  destruct (decide (i = id)) as [-> |Hi].
  - rewrite zget_zset_eq, Hx by done. cbn [e_links]. destruct (decide (lv = level)) as [-> |Hlv].
    + rewrite bool_decide_true, zget_zset_eq by done. done.
    + rewrite bool_decide_false, zget_zset_ne by naive_solver. done.
  - rewrite bool_decide_false, zget_zset_ne by naive_solver. done.
Qed.

Lemma relink_id : relink g id level (links_at g id level) = g.
Proof.
  destruct Hlev as (x & Hx & Hl). destruct (zget_is_Some (e_links x) level Hl) as (own & Hown).
  unfold relink, links_at. rewrite Hx, Hown, (zset_id _ _ _ Hown), (zset_id (elements g)); [by destruct g|].
  by destruct x.
Qed.

Lemma relink_same : same_points g (relink g id level l).
Proof.
  destruct Hlev as (x & Hx & Hl). unfold relink. rewrite Hx. split; cbn; try done.
  unfold zset, zget in *. destruct (0 <=? id); [|done]. rewrite list_fmap_insert. symmetry.
  apply list_insert_id. rewrite list_lookup_fmap, Hx. cbn. f_equal. unfold skeleton, zlen. cbn.
  destruct (0 <=? level); by rewrite ?length_insert.
Qed.
End relink.

(** ** The links of an index under construction *)

Section links.
Variable M_ : Z.

Record links_ok (g : HierarchicalNSW) : Prop := {
  lo_wf : hnsw_wf g;
  lo_degree : forall id level, zlen (links_at g id level) <= Mcurmax M_ level;
  lo_self : forall id level, id ∉ links_at g id level;
  lo_nodup : forall id level, NoDup (links_at g id level)
}.

(** A list that may be an element's links on a level. *)
Record good_list (g : HierarchicalNSW) (id : tableint) (level : Z) (l : list tableint) : Prop := {
  gl_level : Forall (on_level g level) l;
  gl_degree : zlen l <= Mcurmax M_ level;
  gl_self : id ∉ l;
  gl_nodup : NoDup l
}.

Lemma relink_ok g id level l :
  links_ok g -> on_level g level id -> good_list g id level l -> links_ok (relink g id level l).
Proof.
  intros [Hwf Hdeg Hself Hnd] Hlev [G1 G2 G3 G4]. split.
  - eapply same_wf; [exact Hwf|by apply relink_same|]. intros i lv nb. rewrite links_at_relink by done.
    case_bool_decide as Hc; [destruct Hc as [-> ->]; by apply Forall_forall|by apply hw_links].
  - intros i lv. rewrite links_at_relink by done. case_bool_decide as Hc; [by destruct Hc as [-> ->]|done].
  - intros i lv. rewrite links_at_relink by done. case_bool_decide as Hc; [by destruct Hc as [-> ->]|done].
  - intros i lv. rewrite links_at_relink by done. case_bool_decide as Hc; [done|done].
Qed.
End links.

(** ** The neighbour selection *)

Section heuristic.
Context `{PQ : PriorityQueue}.
Variable fstdistfunc_ : list Z -> list Z -> Z.
Variables (g : HierarchicalNSW) (level : Z).
Implicit Types (top out : list (Z * tableint)) (x y c : Z * tableint).

(** The distance of two elements. *)
Definition pdist (a b : tableint) : Z :=
  match zget (elements g) a with Some x => dist_of fstdistfunc_ g (e_data x) b | None => 0 end.

Abbreviation all_on l := (Forall (fun x => on_level g level (snd x)) l).
Abbreviation ids l := (snd <$> l).
Abbreviation neg x := (- fst x, snd x).

Lemma pair_dist_ok a b :
  on_level g level a -> on_level g level b -> pair_dist fstdistfunc_ g a b = Ok (pdist a b).
Proof.
  intros (x & Hx & _) (y & Hy & _). unfold pair_dist, pdist, dist_of, aget. by rewrite Hx, Hy.
Qed.

(** The selection of at most [M] of the candidates [top], which carry their
    distance to the query. *)
Record heuristic_choice (M : Z) top out : Prop := {
  hc_queue : q_ok out;
  hc_len : zlen out <= M;
  hc_chosen : exists dropped, top ≡ₚ out ++ dropped /\
    forall c, c ∈ dropped -> zlen out = M \/ exists y, y ∈ out /\ fst y <= fst c /\ pdist (snd y) (snd c) < fst c;
  hc_closest : forall c, c ∈ top -> exists y, y ∈ out /\ fst y <= fst c;
  hc_diverse : M <= zlen top -> exists order, order ≡ₚ out /\
    StronglySorted (fun y c => fst y <= fst c /\ fst c <= pdist (snd y) (snd c)) order
}.

Lemma to_closest_ok n top qc :
  q_ok top -> (length top <= n)%nat -> StronglySorted (fun a b => fst b <= fst a) qc ->
  exists qc', to_closest n top qc = Ok qc' /\ qc' ≡ₚ ((fun x => neg x) <$> top) ++ qc /\
    StronglySorted (fun a b => fst b <= fst a) qc'.
Proof.
  revert top qc. induction n as [|n IH]; intros top qc Hq Hn Hs; cbn [to_closest];
    (destruct top as [|t0 top0] eqn:Et; [rewrite q_pop_nil; by exists qc|]); [cbn in Hn; lia|].
  rewrite <- Et in *. destruct (q_pop_ok top Hq) as ([d id] & q' & -> & Hq' & Hp & _); [by rewrite Et|].
  apply Permutation_length in Hp as Hlen. cbn in Hlen.
  destruct (IH q' (pair_push (- d, id) qc) Hq' ltac:(lia) (pair_push_sorted _ _ Hs)) as (out & -> & Ho & Hso).
  exists out. split; [done|]. split; [|done]. rewrite Ho, pair_push_perm, Hp. cbn. by rewrite Permutation_middle.
Qed.

Lemma is_good_ok rl id d :
  all_on rl -> on_level g level id ->
  exists b, is_good fstdistfunc_ g rl id d = Ok b /\
    if b then Forall (fun y => d <= pdist (snd y) id) rl else exists y, y ∈ rl /\ pdist (snd y) id < d.
Proof.
  intros Hrl Hid. induction Hrl as [|[p i] rl Hi _ IH]; cbn [is_good]; [by exists true|].
  rewrite (pair_dist_ok i id Hi Hid), rbind_ret. destruct (Z.ltb_spec (pdist i id) d) as [Hlt|Hge].
  - exists false. split; [done|]. exists (p, i). split; [by left|done].
  - destruct IH as (b & -> & Hb). exists b. split; [done|]. destruct b; [by constructor|].
    destruct Hb as (y & Hy & Hlt). exists y. split; [by right|done].
Qed.

(** Candidates are taken nearest first; one that is refused has a chosen one
    closer to it than the query is. *)
Lemma select_good_ok M qc rl :
  all_on rl -> all_on qc -> StronglySorted (fun a b => fst b <= fst a) qc ->
  (forall y c, y ∈ rl -> c ∈ qc -> fst c <= fst y) ->
  StronglySorted (fun y c => fst c <= fst y /\ - fst c <= pdist (snd y) (snd c)) rl ->
  exists new dropped, select_good fstdistfunc_ g M qc rl = Ok (rl ++ new) /\ qc ≡ₚ new ++ dropped /\
    (zlen rl <= M -> zlen (rl ++ new) <= M) /\
    (forall c, c ∈ dropped -> M <= zlen (rl ++ new) \/
      exists y, y ∈ rl ++ new /\ fst c <= fst y /\ pdist (snd y) (snd c) < - fst c) /\
    StronglySorted (fun y c => fst c <= fst y /\ - fst c <= pdist (snd y) (snd c)) (rl ++ new) /\
    (1 <= M -> forall c, c ∈ qc -> exists y, y ∈ rl ++ new /\ fst c <= fst y).
Proof.
  revert rl. induction qc as [|[p id] qc IH]; intros rl Hrl Hqc Hs Hord Hdiv; cbn [select_good].
  { exists [], []. rewrite app_nil_r. split_and!; try done; [|intros _]; intros c Hc; by apply not_elem_of_nil in Hc. }
  apply Forall_cons in Hqc as [Hid Hqc]. apply StronglySorted_inv in Hs as [Hs Hhd]. cbn in Hid.
  rewrite Z.geb_leb. destruct (Z.leb_spec M (zlen rl)) as [Hfull|Hroom].
  { exists [], ((p, id) :: qc). rewrite app_nil_r. split_and!; try done; [by left|].
    intros HM c Hc. destruct rl as [|y rl]; [change (zlen []) with 0 in Hfull; lia|].
    exists y. split; [by left|]. apply Hord; [by left|done]. }
  destruct (is_good_ok rl id (- p) Hrl Hid) as ([] & -> & Hg); rewrite rbind_ret.
  - destruct (IH (rl ++ [(p, id)])) as (new & dropped & -> & H1 & H2 & H3 & H4 & H5).
    + apply Forall_app. split; [done|by apply Forall_singleton].
    + done.
    + done.
    + intros y c Hy Hc. apply elem_of_app in Hy as [Hy| ->%list_elem_of_singleton].
      * apply Hord; [done|by right].
      * by apply (proj1 (Forall_forall _ _) Hhd).
    + apply StronglySorted_app. split_and!; [|done|by repeat constructor].
      intros y c Hy ->%list_elem_of_singleton. cbn. split; [apply (Hord y (p, id)); [done|by left]|].
      by apply (proj1 (Forall_forall _ _) Hg).
    + exists ((p, id) :: new), dropped. rewrite <- app_assoc in *. cbn [app] in *.
      split_and!; try done; [by rewrite H1| |].
      * intros _. apply H2. rewrite zlen_app. unfold zlen at 2. cbn. lia.
      * intros HM c Hc. apply elem_of_cons in Hc as [-> |Hc]; [|by apply H5].
        exists (p, id). split; [set_solver|done].
  - destruct (IH rl) as (new & dropped & -> & H1 & H2 & H3 & H4 & H5); try done.
    { intros y c Hy Hc. apply Hord; [done|by right]. }
    exists new, ((p, id) :: dropped). split_and!; try done.
    + rewrite H1. apply Permutation_middle.
    + intros c Hc. apply elem_of_cons in Hc as [-> |Hc]; [|by apply H3]. right.
      destruct Hg as (y & Hy & Hlt). exists y. split; [set_solver|]. split; [|done].
      apply (Hord y (p, id)); [done|by left].
    + intros HM c Hc. apply elem_of_cons in Hc as [-> |Hc]; [|by apply H5].
      destruct Hg as (y & Hy & _). exists y. split; [set_solver|]. apply (Hord y (p, id)); [done|by left].
Qed.

Lemma push_all_ok l q :
  q_ok q -> q_ok (foldl (fun q x => q_push (neg x) q) q l) /\
  foldl (fun q x => q_push (neg x) q) q l ≡ₚ ((fun x => neg x) <$> l) ++ q.
Proof.
  revert q. induction l as [|x l IH]; intros q Hq; cbn [foldl]; [done|].
  destruct (q_push_ok (neg x) q Hq) as [Hq' Hp]. destruct (IH _ Hq') as [H1 H2]. split; [done|].
  rewrite H2, Hp. cbn. by rewrite Permutation_middle.
Qed.

Lemma neg_neg (l : list (Z * tableint)) : (fun x => neg x) <$> ((fun x => neg x) <$> l) = l.
Proof.
  rewrite <- list_fmap_compose. rewrite <- (list_fmap_id l) at 2. apply list_fmap_ext.
  intros i [d id] _. cbn. by rewrite Z.opp_involutive.
Qed.

Lemma getNeighborsByHeuristic2_ok M top :
  1 <= M -> q_ok top -> all_on top ->
  exists out, getNeighborsByHeuristic2 fstdistfunc_ g top M = Ok out /\ heuristic_choice M top out.
Proof.
  intros HM Hq Hall. unfold getNeighborsByHeuristic2. destruct (Z.ltb_spec (zlen top) M) as [Hlt|Hge].
  { exists top. split; [done|]. split; [done|lia| | |lia].
    - exists []. rewrite app_nil_r. split; [done|]. intros c Hc. by apply not_elem_of_nil in Hc.
    - intros c Hc. by exists c. }
  destruct (to_closest_ok (length top) top [] Hq ltac:(lia) ltac:(constructor)) as (qc & -> & Hp & Hs).
  rewrite app_nil_r in Hp. rewrite rbind_ret.
  assert (Hqc : all_on qc).
  { rewrite Hp. apply Forall_fmap. eapply Forall_impl; [exact Hall|]. done. }
  destruct (select_good_ok M qc [] ltac:(constructor) Hqc Hs) as (new & dropped & -> & H1 & H2 & H3 & H4 & H5).
  { intros y c Hy. by apply not_elem_of_nil in Hy. }
  { constructor. }
  cbn [app] in *. rewrite rbind_ret. destruct (push_all_ok new [] q_ok_nil) as [Hqo Hpo].
  rewrite app_nil_r in Hpo. eexists. split; [reflexivity|].
  set (out := foldl _ _ _) in *.
  assert (Htop : top ≡ₚ out ++ ((fun x => neg x) <$> dropped)).
  { rewrite Hpo, <- fmap_app, <- H1, Hp. by rewrite neg_neg. }
  assert (Hlen : zlen out = zlen new).
  { unfold zlen. rewrite Hpo, length_fmap. done. }
  specialize (H2 ltac:(change (zlen []) with 0; lia)).
  assert (Hdrop : forall c, c ∈ (fun x => neg x) <$> dropped ->
    zlen out = M \/ exists y, y ∈ out /\ fst y <= fst c /\ pdist (snd y) (snd c) < fst c).
  { intros c Hc. apply list_elem_of_fmap in Hc as (c0 & -> & Hc). destruct (H3 c0 Hc) as [Hf|(y & Hy & Hle & Hd)]; [left; lia|].
    right. exists (neg y). cbn. split_and!; [|lia|done]. rewrite Hpo. by apply (list_elem_of_fmap_2 (fun x => neg x)). }
  split; [done|lia| | |].
  - by exists ((fun x => neg x) <$> dropped).
  - intros c Hc. destruct (H5 HM (neg c)) as (y & Hy & Hle).
    { rewrite Hp. by apply (list_elem_of_fmap_2 (fun x => neg x)). }
    exists (neg y). split; [rewrite Hpo; by apply (list_elem_of_fmap_2 (fun x => neg x))|]. cbn in *. lia.
  - intros _. exists ((fun x => neg x) <$> new). split; [by rewrite Hpo|].
    clear -H4. induction H4 as [|x l _ IH Hf]; cbn; [constructor|]. constructor; [done|].
    apply Forall_fmap. eapply Forall_impl; [exact Hf|]. intros c [Hc1 Hc2]. cbn. split; [lia|done].
Qed.
End heuristic.

(** ** Linking a new element *)

Section connect.
Context `{PQ : PriorityQueue}.
Variable fstdistfunc_ : list Z -> list Z -> Z.
Variable M_ : Z.
Hypothesis HM : 1 <= M_ <= 32767.
Implicit Types (g : HierarchicalNSW) (top : list (Z * tableint)).

Abbreviation ids l := (snd <$> l).

Lemma Mcurmax_pos level : 1 <= Mcurmax M_ level.
Proof. unfold Mcurmax, maxM_, maxM0_. destruct (level =? 0); lia. Qed.

Lemma pop_all_ok n top :
  q_ok top -> (length top <= n)%nat -> exists l, pop_all n top = Ok l /\ l ≡ₚ ids top.
Proof.
  revert top. induction n as [|n IH]; intros top Hq Hn; cbn [pop_all];
    (destruct top as [|t0 top0] eqn:Et; [rewrite q_pop_nil; by exists []|]); [cbn in Hn; lia|].
  rewrite <- Et in *. destruct (q_pop_ok top Hq) as ([d id] & q' & -> & Hq' & Hp & _); [by rewrite Et|].
  apply Permutation_length in Hp as Hlen. cbn in Hlen.
  destruct (IH q' Hq' ltac:(lia)) as (l & -> & Hl). rewrite rbind_ret. exists (id :: l). split; [done|].
  rewrite Hp. cbn. by rewrite Hl.
Qed.

Lemma element_level_ok g level id :
  on_level g level id -> exists l, element_level g id = Ok l /\ level <= l.
Proof.
  intros (x & Hx & Hl). unfold element_level, aget. rewrite Hx, rbind_ret. eexists. split; [done|lia].
Qed.

Lemma check_slots_ok g level upd n l :
  Forall (on_level g level) l -> (length l <= n)%nat -> check_slots g level upd (replicate n 0) l = Ok tt.
Proof.
  intros Hl. revert n. induction Hl as [|id l Hid _ IH]; intros [|n] Hn; cbn in *; try done; [lia|].
  destruct (element_level_ok g level id Hid) as (lv & -> & Hle). rewrite rbind_ret, Z.gtb_ltb.
  destruct (Z.ltb_spec lv level); [lia|]. apply IH. lia.
Qed.

(** A list that fits is stored as it is. *)
Lemma set_links_good g id level l :
  on_level g level id -> good_list M_ g id level l ->
  set_links g id level l = Ok (relink g id level l).
Proof.
  intros Hlev [_ Hdeg _ _]. apply set_links_ok; [done|]. unfold Mcurmax, maxM_, maxM0_ in Hdeg.
  destruct (level =? 0); lia.
Qed.

Lemma set_links_choice g id level l :
  on_level g level id -> good_list M_ g id level l ->
  exists l', set_links g id level l = Ok (relink g id level l') /\ good_list M_ g id level l'.
Proof. intros. exists l. split; [by apply set_links_good|done]. Qed.

Lemma link_candidates_ok g level other data q :
  on_level g level other -> Forall (on_level g level) data -> q_ok q ->
  exists q', link_candidates fstdistfunc_ g other data q = Ok q' /\ q_ok q' /\ ids q' ≡ₚ data ++ ids q.
Proof.
  intros Ho Hd. revert q. induction Hd as [|id data Hid _ IH]; intros q Hq; cbn [link_candidates]; [by exists q|].
  rewrite (pair_dist_ok fstdistfunc_ g level id other Hid Ho), rbind_ret.
  destruct (q_push_ok (pdist fstdistfunc_ g id other, id) q Hq) as [Hq1 Hp1].
  destruct (IH _ Hq1) as (q' & -> & Hq' & Hp'). exists q'. split_and!; [done|done|].
  rewrite Hp', Hp1. cbn. by rewrite Permutation_middle.
Qed.

(** What the heuristic leaves of a list of elements. *)
Lemma heuristic_ids g M top out :
  heuristic_choice fstdistfunc_ g M top out ->
  ids out ⊆+ ids top /\ (top <> [] -> out <> []).
Proof.
  intros [_ _ (dropped & Hp & _) Hc _]. split.
  - rewrite Hp, fmap_app. by apply submseteq_inserts_r.
  - intros Hne. destruct top as [|c top]; [done|]. destruct (Hc c) as (y & Hy & _); [by left|].
    intros ->. by apply not_elem_of_nil in Hy.
Qed.

Lemma submseteq_Forall {A} (P : A -> Prop) (l k : list A) : l ⊆+ k -> Forall P k -> Forall P l.
Proof. intros Hs. rewrite !Forall_forall. intros Hk x Hx. apply Hk. by eapply elem_of_submseteq. Qed.

Lemma submseteq_NoDup {A} (l k : list A) : l ⊆+ k -> NoDup k -> NoDup l.
Proof.
  intros [k' Hk]%submseteq_Permutation Hn. rewrite Hk in Hn. by apply NoDup_app in Hn as [Hn _].
Qed.

(** A neighbour takes the element into its list, or chooses again among its
    links and the element. *)
Lemma link_back_ok g cur_c level upd other :
  links_ok M_ g -> on_level g level other -> on_level g level cur_c -> other <> cur_c ->
  upd = true \/ cur_c ∉ links_at g other level ->
  exists l, link_back fstdistfunc_ M_ g cur_c level upd other = Ok (relink g other level l) /\
    good_list M_ g other level l.
Proof.
  intros Hok Ho Hc Hne Hupd. pose proof Hok as [Hwf Hdeg Hself Hnd]. unfold link_back.
  rewrite (on_level_links g level other Ho), rbind_ret, Z.gtb_ltb.
  specialize (Hdeg other level). specialize (Hself other level). specialize (Hnd other level).
  destruct (Z.ltb_spec (Mcurmax M_ level) (zlen (links_at g other level))) as [|_]; [lia|].
  destruct (Z.eqb_spec other cur_c) as [|_]; [done|].
  destruct (element_level_ok g level other Ho) as (lv & -> & Hle). rewrite rbind_ret, Z.gtb_ltb.
  destruct (Z.ltb_spec lv level) as [|_]; [lia|].
  assert (Hlv : Forall (on_level g level) (links_at g other level)).
  { apply Forall_forall. intros y Hy. by eapply hw_links. }
  destruct (upd && bool_decide (cur_c ∈ links_at g other level)) eqn:Hpres.
  { exists (links_at g other level). rewrite relink_id by done. split; [done|by split]. }
  assert (Hnew : cur_c ∉ links_at g other level).
  { destruct Hupd as [-> |]; [|done]. by apply bool_decide_eq_false in Hpres. }
  clear Hpres Hupd. set (data := links_at g other level) in *.
  destruct (Z.ltb_spec (zlen data) (Mcurmax M_ level)) as [Hlt|Hge].
  { apply set_links_choice; [done|]. split.
    - apply Forall_app. split; [done|by apply Forall_singleton].
    - rewrite zlen_app. unfold zlen at 2. cbn. lia.
    - rewrite elem_of_app, list_elem_of_singleton. naive_solver.
    - apply NoDup_app. split_and!; [done| |apply NoDup_singleton].
      intros x Hx ->%list_elem_of_singleton. done. }
  rewrite (pair_dist_ok fstdistfunc_ g level cur_c other Hc Ho), rbind_ret.
  destruct (q_push_ok (pdist fstdistfunc_ g cur_c other, cur_c) [] q_ok_nil) as [Hq1 Hp1].
  destruct (link_candidates_ok g level other data _ Ho Hlv Hq1) as (cands & -> & Hqc & Hpc).
  rewrite rbind_ret. rewrite Hp1 in Hpc. cbn in Hpc.
  assert (Hon : Forall (on_level g level) (ids cands)).
  { rewrite Hpc. apply Forall_app. split; [done|by apply Forall_singleton]. }
  destruct (getNeighborsByHeuristic2_ok fstdistfunc_ g level (Mcurmax M_ level) cands (Mcurmax_pos level) Hqc)
    as (out & -> & Hch); [exact (proj1 (Forall_fmap _ _ _) Hon)|]. rewrite rbind_ret.
  destruct (pop_all_ok (length out) out (hc_queue _ _ _ _ _ Hch) ltac:(lia)) as (l & -> & Hl).
  rewrite rbind_ret. destruct (heuristic_ids g _ _ _ Hch) as [Hsub _].
  apply set_links_choice; [done|]. rewrite <- Hl in Hsub. split.
  - by eapply submseteq_Forall.
  - pose proof (hc_len _ _ _ _ _ Hch). unfold zlen in *. rewrite Hl, length_fmap. lia.
  - intros Hin. eapply elem_of_submseteq in Hin; [|exact Hsub]. rewrite Hpc, elem_of_app, list_elem_of_singleton in Hin.
    naive_solver.
  - eapply submseteq_NoDup; [exact Hsub|]. rewrite Hpc. apply NoDup_app. split_and!; [done| |apply NoDup_singleton].
    intros x Hx ->%list_elem_of_singleton. done.
Qed.

Lemma link_all_back_ok g cur_c level upd l :
  links_ok M_ g -> on_level g level cur_c -> Forall (on_level g level) l -> NoDup l -> cur_c ∉ l ->
  (forall id, id ∈ l -> upd = true \/ cur_c ∉ links_at g id level) ->
  exists g', link_all_back fstdistfunc_ M_ g cur_c level upd l = Ok g' /\ links_ok M_ g' /\ same_points g g' /\
    forall id lv, lv <> level \/ id ∉ l -> links_at g' id lv = links_at g id lv.
Proof.
  revert g. induction l as [|other l IH]; intros g Hok Hc Hl Hnd Hself Hnew; cbn [link_all_back]; [by exists g|].
  apply Forall_cons in Hl as [Ho Hl]. apply NoDup_cons in Hnd as [Hnin Hnd]. apply not_elem_of_cons in Hself as [Hne Hself].
  destruct (link_back_ok g cur_c level upd other Hok Ho Hc ltac:(congruence)) as (lo & -> & Hgood); [apply Hnew; by left|].
  rewrite rbind_ret. pose proof (relink_same g other level lo Ho) as Hs1.
  destruct (IH (relink g other level lo)) as (g' & Hg' & Hok' & Hs' & Hfr).
  - by apply relink_ok.
  - by eapply same_on_level.
  - eapply Forall_impl; [exact Hl|]. intros i Hi. by eapply same_on_level.
  - done.
  - done.
  - intros i Hi. rewrite links_at_relink by done. rewrite bool_decide_false by (intros [-> _]; done). apply Hnew. by right.
  - exists g'. split_and!; [done|done|by etrans|]. intros i lv Hi. rewrite Hfr, links_at_relink by (done || set_solver).
    rewrite bool_decide_false; [done|]. intros [-> ->]. set_solver.
Qed.

Lemma mutuallyConnect_ok g cur_c top level upd :
  links_ok M_ g -> on_level g level cur_c -> q_ok top -> top <> [] ->
  Forall (on_level g level) (ids top) -> NoDup (ids top) -> cur_c ∉ ids top ->
  upd = true \/ links_at g cur_c level = [] /\ (forall id, cur_c ∉ links_at g id level) ->
  exists g' next, mutuallyConnectNewElement fstdistfunc_ M_ g cur_c (blank_slots M_ level) top level upd = Ok (g', next) /\
    links_ok M_ g' /\ same_points g g' /\ next ∈ ids top /\ next ∈ links_at g' cur_c level /\
    forall id lv, lv <> level -> links_at g' id lv = links_at g id lv.
Proof.
  intros Hok Hc Hq Hne Hlev Hnd Hself Hupd. unfold mutuallyConnectNewElement.
  destruct (getNeighborsByHeuristic2_ok fstdistfunc_ g level M_ top ltac:(lia) Hq) as (out & -> & Hch);
    [exact (proj1 (Forall_fmap _ _ _) Hlev)|]. rewrite rbind_ret, Z.gtb_ltb.
  pose proof (hc_len _ _ _ _ _ Hch) as Hlen. destruct (Z.ltb_spec M_ (zlen out)) as [|_]; [lia|].
  destruct (heuristic_ids g _ _ _ Hch) as [Hsub Hout]. specialize (Hout Hne).
  destruct (pop_all_ok (length out) out (hc_queue _ _ _ _ _ Hch) ltac:(lia)) as (l & -> & Hl).
  rewrite rbind_ret. rewrite <- Hl in Hsub.
  destruct (last l) as [next|] eqn:Hlast.
  2: { apply last_None in Hlast. subst l. apply Permutation_nil_l in Hl. symmetry in Hl. by apply fmap_nil_inv in Hl. }
  rewrite rbind_ret, (on_level_links g level cur_c Hc), rbind_ret.
  assert (negb (zlen (links_at g cur_c level) =? 0) && negb upd = false) as ->.
  { destruct Hupd as [-> |[-> _]]; [apply andb_false_r|done]. }
  assert (Hll : Forall (on_level g level) l) by (by eapply submseteq_Forall).
  assert (Hin : next ∈ l).
  { apply last_Some in Hlast as [l' ->]. set_solver. }
  assert (Hcl : cur_c ∉ l) by (intros Hi; by eapply elem_of_submseteq in Hi).
  assert (Hgood : good_list M_ g cur_c level l).
  { split; [done| |done|by eapply submseteq_NoDup].
    unfold zlen in *. rewrite Hl, length_fmap. unfold Mcurmax, maxM_, maxM0_. destruct (level =? 0); lia. }
  unfold blank_slots. rewrite check_slots_ok, rbind_ret, set_links_good, rbind_ret; try done.
  2: { pose proof (gl_degree _ _ _ _ _ Hgood) as Hd. unfold zlen in Hd. lia. }
  pose proof (relink_same g cur_c level l Hc) as Hs1.
  destruct (link_all_back_ok (relink g cur_c level l) cur_c level upd l) as (g' & -> & Hok' & Hs' & Hfr).
  - by apply relink_ok.
  - by eapply same_on_level.
  - eapply Forall_impl; [exact Hll|]. intros i Hi. by eapply same_on_level.
  - by eapply submseteq_NoDup.
  - done.
  - intros i Hi. rewrite links_at_relink by done. rewrite bool_decide_false by (intros [-> _]; done).
    destruct Hupd as [|[_ Hnew]]; [by left|right; apply Hnew].
  - rewrite rbind_ret. exists g', next. split_and!; [done|done|by etrans|by eapply elem_of_submseteq| |].
    + rewrite Hfr, links_at_relink, bool_decide_true by auto. done.
    + intros i lv Hlv. rewrite Hfr, links_at_relink, bool_decide_false by naive_solver. done.
Qed.
End connect.

(** ** Adding a point *)

Section add.
Context `{PQ : PriorityQueue} `{US : UnorderedSet}.
Variable fstdistfunc_ : list Z -> list Z -> Z.
Variable FLT_MAX : Z.
Variables (M_ ef_construction_ : Z).
Hypothesis HM : 1 <= M_ <= 32767.
Hypothesis Hef : 1 <= ef_construction_.
Implicit Types (g : HierarchicalNSW) (query : list Z) (v : nat -> VisitedList).

Abbreviation ids l := (snd <$> l).

(** On the levels below [n] the new element has no links yet, and nothing
    links to it. *)
Definition unlinked g (cur_c : tableint) (n : nat) : Prop :=
  forall level, 0 <= level < Z.of_nat n ->
    on_level g level cur_c /\ links_at g cur_c level = [] /\ forall id, cur_c ∉ links_at g id level.

(** A search that starts elsewhere does not find the new element. *)
Lemma unlinked_unreachable g cur_c level ep id :
  (forall id, cur_c ∉ links_at g id level) -> ep <> cur_c -> reachable g level ep id -> id <> cur_c.
Proof. intros Hun Hne Hr. induction Hr as [|x y _ _ Hy]; [done|]. intros ->. by eapply Hun. Qed.

(** Without deletions a search of a layer finds something. *)
Lemma layer_search_ok g query currObj level (vl : VisitedList) :
  links_ok M_ g -> num_deleted_ g = 0 -> clean g vl -> on_level g level currObj ->
  exists top, searchBaseLayer fstdistfunc_ FLT_MAX g query ef_construction_ currObj level vl = Ok top /\
    q_ok top /\ top <> [] /\ Forall (on_level g level) (ids top) /\ NoDup (ids top) /\
    Forall (reachable g level currObj) (ids top).
Proof.
  intros Hok H0 Hcl Hlev. unfold searchBaseLayer, search_layer.
  destruct (search_state_ok fstdistfunc_ FLT_MAX g query (lo_wf _ _ Hok) level true ltac:(done) vl currObj
    ef_construction_ Hef Hcl Hlev) as (s & seen & -> & [Hq [_ Hlen (far & Hsp & _)] Hnd Hb Hre Hcomp _ _ _]).
  rewrite rbind_ret. set (top := top_candidates s) in *. exists top. split; [done|]. split; [done|].
  assert (Hsub : ids top ⊆+ seen).
  { etrans; [|apply sublist_submseteq, (sublist_filter (fun id => is_live g id = true))].
    rewrite Hsp. by apply submseteq_inserts_r. }
  split_and!; [|by eapply submseteq_Forall|by eapply submseteq_NoDup|by eapply submseteq_Forall].
  intros E. rewrite E in *. change (zlen []) with 0 in *.
  assert (Hin : currObj ∈ seen) by (apply Hcomp; [lia|constructor]).
  assert (Hlive : currObj ∈ filter (fun id => is_live g id = true) seen).
  { apply list_elem_of_filter. split; [|done]. destruct Hlev as (x & Hx & _).
    unfold is_live. rewrite Hx. by rewrite (hw_deleted _ (lo_wf _ _ Hok) H0 _ _ Hx). }
  destruct (filter _ seen) as [|a l]; [by apply not_elem_of_nil in Hlive|].
  rewrite zlen_cons in Hlen. pose proof (zlen_nonneg l). lia.
Qed.

Lemma level_candidates_ok g query ep currObj cur_c level (vl : VisitedList) :
  links_ok M_ g -> num_deleted_ g = 0 -> clean g vl -> on_level g level currObj -> currObj <> cur_c ->
  (forall id, cur_c ∉ links_at g id level) ->
  exists top, level_candidates fstdistfunc_ FLT_MAX ef_construction_ g query false ep currObj level vl = Ok top /\
    q_ok top /\ top <> [] /\ Forall (on_level g level) (ids top) /\ NoDup (ids top) /\ cur_c ∉ ids top.
Proof.
  intros Hok H0 Hcl Hlev Hne Hun. unfold level_candidates.
  destruct (layer_search_ok g query currObj level vl Hok H0 Hcl Hlev) as (top & -> & Hq & Hnn & Hon & Hnd & Hre).
  rewrite rbind_ret. exists top. split_and!; try done. intros Hin.
  apply (proj1 (Forall_forall _ _) Hre) in Hin. by eapply unlinked_unreachable in Hin.
Qed.

Lemma connect_levels_ok g query ep cur_c n currObj v :
  links_ok M_ g -> num_deleted_ g = 0 -> (forall k, clean g (v k)) -> unlinked g cur_c n ->
  (n <> O -> on_level g (Z.of_nat n - 1) currObj /\ currObj <> cur_c) ->
  exists g', connect_levels fstdistfunc_ FLT_MAX M_ ef_construction_ g query false ep cur_c n currObj v = Ok g' /\
    links_ok M_ g' /\ same_points g g' /\
    (forall level, 0 <= level < Z.of_nat n -> links_at g' cur_c level <> []) /\
    forall id level, Z.of_nat n <= level -> links_at g' id level = links_at g id level.
Proof.
  revert g currObj. induction n as [|n IH]; intros g currObj Hok H0 Hcl Hun Hcur; cbn [connect_levels].
  { exists g. split_and!; try done. lia. }
  destruct (Hcur ltac:(done)) as [Hlev Hne]. replace (Z.of_nat (S n) - 1) with (Z.of_nat n) in Hlev by lia.
  destruct (Hun (Z.of_nat n) ltac:(lia)) as (Hc & Hblank & Hnew).
  destruct (level_candidates_ok g query ep currObj cur_c (Z.of_nat n) (v n)) as
    (top & -> & Hq & Htop & Hlv & Hnd & Hself); try done.
  rewrite rbind_ret.
  destruct (mutuallyConnect_ok fstdistfunc_ M_ HM g cur_c top (Z.of_nat n) false) as
    (g1 & next & -> & Hok1 & Hs1 & Hnext & Hlink & Hfr); try done; [by right|].
  rewrite rbind_ret.
  destruct (IH g1 next) as (g2 & -> & Hok2 & Hs2 & Hl2 & Hfr2).
  - done.
  - by rewrite <- (sp_num_deleted _ _ Hs1).
  - intros k. eapply same_clean; [exact Hs1|done].
  - intros level Hle. destruct (Hun level ltac:(lia)) as (H1 & H2 & H3).
    split_and!; [by eapply same_on_level|rewrite Hfr by lia; done|]. intros id. rewrite Hfr by lia. done.
  - intros Hn. split.
    + apply (on_level_lower _ (Z.of_nat n)); [|lia]. eapply same_on_level; [exact Hs1|].
      by apply (proj1 (Forall_forall _ _) Hlv).
    + intros ->. done.
  - exists g2. split_and!; [done|done|by etrans| |].
    + intros level Hle. destruct (decide (level < Z.of_nat n)) as [|]; [apply Hl2; lia|].
      assert (level = Z.of_nat n) as -> by lia. rewrite Hfr2 by lia.
      intros E. rewrite E in Hlink. by apply not_elem_of_nil in Hlink.
    + intros id level Hle. rewrite Hfr2, Hfr by lia. done.
Qed.

(** The walk above the element's own level ends on the level above it. *)
Lemma descend_above_ok g query n level cur :
  hnsw_wf g -> on_level g level cur -> Z.of_nat (S n) <= level ->
  exists cur', descend_above fstdistfunc_ g query (S n) level cur (dist_of fstdistfunc_ g query cur) = Ok cur' /\
    on_level g (level - Z.of_nat n) cur'.
Proof.
  intros Hwf. revert level cur. induction n as [|n IH]; intros level cur Hc Hle;
    (destruct (greedy_level_ok fstdistfunc_ g query Hwf level (S (length (elements g))) cur) as (c1 & Hg & H1 & _);
      [lia|done|pose proof (length_filter (fun x => fstdistfunc_ query (e_data x) < dist_of fstdistfunc_ g query cur) (elements g));
       unfold closer; lia|]).
  - cbn [descend_above]. rewrite Hg, rbind_ret. exists c1. split; [done|]. by rewrite Z.sub_0_r.
  - destruct (IH (level - 1) c1) as (c2 & Hd & H2); [apply (on_level_lower _ level); [done|lia]|lia|].
    exists c2. split; [|by replace (level - Z.of_nat (S n)) with (level - 1 - Z.of_nat n) by lia].
    change (descend_above fstdistfunc_ g query (S (S n)) level cur (dist_of fstdistfunc_ g query cur)) with
      (do! ' (currObj, curdist) <- greedy_level fstdistfunc_ (S (length (elements g))) g query level cur
         (dist_of fstdistfunc_ g query cur) ;; descend_above fstdistfunc_ g query (S n) (level - 1) currObj curdist).
    by rewrite Hg, rbind_ret.
Qed.

(** *** The element appended *)

Section append.
Variables (g : HierarchicalNSW) (data : list Z) (label : labeltype) (curlevel : Z).
Hypothesis Hlevel : 0 <= curlevel.
Abbreviation g1 := (append_element g (new_element data label curlevel)).
Abbreviation cur_c := (cur_element_count g).

Lemma append_get_old id x : zget (elements g) id = Some x -> zget (elements g1) id = Some x.
Proof. intros Hx. cbn. rewrite zget_app_l; [done|]. apply zget_bounds in Hx. lia. Qed.

Lemma append_get_new : zget (elements g1) cur_c = Some (new_element data label curlevel).
Proof. cbn. apply zget_middle. Qed.

Lemma append_get id x :
  zget (elements g1) id = Some x ->
  zget (elements g) id = Some x \/ id = cur_c /\ x = new_element data label curlevel.
Proof.
  intros Hx. cbn in Hx. destruct (decide (id < zlen (elements g))) as [|Hge].
  - left. by rewrite zget_app_l in Hx by done.
  - right. rewrite zget_app_r in Hx by lia. pose proof (zget_bounds _ _ _ Hx) as Hb. rewrite zlen_cons in Hb.
    change (zlen (@nil element)) with 0 in Hb.
    unfold cur_element_count. assert (Hid : id = zlen (elements g)) by lia. split; [done|].
    rewrite Hid, Z.sub_diag in Hx. by injection Hx.
Qed.

Lemma append_links id level : links_at g1 id level = links_at g id level.
Proof.
  unfold links_at. destruct (zget (elements g) id) as [x|] eqn:Hx; [by rewrite (append_get_old _ _ Hx)|].
  destruct (zget (elements g1) id) as [x|] eqn:Hx1; [|done].
  destruct (append_get _ _ Hx1) as [|[_ ->]]; [congruence|]. cbn [e_links new_element].
  destruct (zget _ level) as [l|] eqn:Hz; [|done]. apply zget_elem in Hz. by apply elem_of_replicate in Hz as [-> _].
Qed.

Lemma append_on_level level id : on_level g level id -> on_level g1 level id.
Proof. intros (x & Hx & Hl). exists x. split; [by apply append_get_old|done]. Qed.

Lemma new_on_level level : on_level g1 level cur_c <-> 0 <= level <= curlevel.
Proof.
  unfold on_level. rewrite append_get_new. split.
  - intros (x & [= <-] & Hl). cbn in Hl. unfold zlen in Hl. rewrite length_replicate in Hl. lia.
  - intros Hl. eexists. split; [done|]. cbn. unfold zlen. rewrite length_replicate. lia.
Qed.

Lemma append_ok ep level :
  links_ok M_ g -> cur_c < max_elements_ g -> 0 <= level -> on_level g1 level ep ->
  links_ok M_ (set_entry g1 ep level).
Proof.
  intros [[Hcap Hbase Hlinks _ Hdel] Hdeg Hself Hnd] Hlt Hlv Hep.
  assert (Hat : forall id lv, links_at (set_entry g1 ep level) id lv = links_at g id lv) by apply append_links.
  split; [split|..].
  - unfold cur_element_count in *. cbn. rewrite zlen_app, zlen_cons. change (zlen (@nil element)) with 0. lia.
  - intros id x Hx. destruct (append_get id x Hx) as [Hx'|[_ ->]]; [by eapply Hbase|]. cbn.
    intros E. apply (f_equal length) in E. rewrite length_replicate in E. cbn in E. lia.
  - intros id lv nb. rewrite Hat. intros Hn%Hlinks. by apply append_on_level.
  - intros _. done.
  - intros H0 id x Hx. destruct (append_get id x Hx) as [Hx'|[_ ->]]; [by eapply Hdel|done].
  - intros id lv. by rewrite Hat.
  - intros id lv. by rewrite Hat.
  - intros id lv. by rewrite Hat.
Qed.
End append.

Lemma set_entry_ok g ep level :
  links_ok M_ g -> 0 <= level -> on_level g level ep -> links_ok M_ (set_entry g ep level).
Proof.
  intros [[H1 H2 H3 H4 H5] H6 H7 H8] Hl Hep. split; [split|..]; done.
Qed.

(** *** The index as a whole *)

(** The vectors and labels of the index, in the order of their numbers. *)
Definition points g : list (list Z * labeltype) := (fun x => (e_data x, e_label x)) <$> elements g.

(** An index into which points are inserted: links as above, nothing deleted,
    every label leads to its element, and an empty index has no entry. *)
Record index_ok g : Prop := {
  io_links : links_ok M_ g;
  io_size : max_elements_ g <= 4294967295;
  io_deleted : num_deleted_ g = 0;
  io_labels : forall label id, label_lookup_ g !! label = Some id <->
    exists x, zget (elements g) id = Some x /\ e_label x = label;
  io_empty : elements g = [] -> maxlevel_ g = -1 /\ enterpoint_node_ g = uint32 (-1);
  io_top : forall id x, zget (elements g) id = Some x -> zlen (e_links x) - 1 <= maxlevel_ g
}.

Lemma points_same g g' : same_points g g' -> points g' = points g.
Proof.
  intros Hs. unfold points.
  assert (Hf : forall l : list element, (fun x => (e_data x, e_label x)) <$> l =
    (fun s : list Z * labeltype * bool * Z => fst (fst s)) <$> (skeleton <$> l)).
  { intros l. by rewrite <- list_fmap_compose. }
  by rewrite !Hf, (sp_elements _ _ Hs).
Qed.

Lemma append_labels g data label curlevel g' :
  (forall label id, label_lookup_ g !! label = Some id <-> exists x, zget (elements g) id = Some x /\ e_label x = label) ->
  label_lookup_ g !! label = None ->
  same_points (append_element g (new_element data label curlevel)) g' ->
  forall lb id, label_lookup_ g' !! lb = Some id <-> exists x, zget (elements g') id = Some x /\ e_label x = lb.
Proof.
  intros Hl Hnew Hs lb id. rewrite <- (sp_lookup _ _ Hs). cbn [label_lookup_ append_element].
  rewrite lookup_insert_Some, Hl. cbn [e_label new_element]. split.
  - assert (Hget : forall x, zget (elements (append_element g (new_element data label curlevel))) id = Some x ->
      exists x', zget (elements g') id = Some x' /\ e_label x' = e_label x).
    { intros x Hx. destruct (same_get _ _ Hs _ _ Hx) as (x' & Hx' & [= _ Hlb _ _]). by exists x'. }
    intros [[<- <-]|[_ (x & Hx & Hlb)]].
    + exact (Hget _ (append_get_new g data label curlevel)).
    + destruct (Hget x) as (x' & Hx' & Hlb'); [by apply append_get_old|]. exists x'. split; [done|congruence].
  - intros (x' & Hx' & Hlb). destruct (same_get_r _ _ _ _ Hs Hx') as (x & Hx & [= _ Hlb' _ _]).
    destruct (append_get _ _ _ _ _ _ Hx) as [Hold|[-> ->]]; [|left; cbn in Hlb'; split; [congruence|done]].
    right. split; [|exists x; split; [done|congruence]]. intros ->.
    assert (Hsome : label_lookup_ g !! lb = Some id) by (apply Hl; exists x; split; [done|by rewrite Hlb']).
    discriminate (eq_trans (eq_sym Hnew) Hsome).
Qed.

(** The index after the links are made. *)
Lemma inserted_ok g data label curlevel g' ep level :
  index_ok g -> label_lookup_ g !! label = None ->
  same_points (append_element g (new_element data label curlevel)) g' ->
  links_ok M_ (set_entry g' ep level) -> 0 <= curlevel -> Z.max curlevel (maxlevel_ g) <= level ->
  index_ok (set_entry g' ep level) /\ points (set_entry g' ep level) = points g ++ [(data, label)] /\
  max_elements_ (set_entry g' ep level) = max_elements_ g.
Proof.
  intros [H1 H2 H3 H4 H5 H6] Hnew Hs Hok Hlv Hmax. split_and!.
  - split; [done| | | | |].
    + cbn. by rewrite <- (sp_max _ _ Hs).
    + cbn. by rewrite <- (sp_num_deleted _ _ Hs).
    + exact (append_labels g data label curlevel g' H4 Hnew Hs).
    + cbn. intros E. pose proof (points_same _ _ Hs) as Hp. unfold points in Hp. rewrite E in Hp. cbn in Hp.
      rewrite fmap_app in Hp. by destruct (_ <$> elements g).
    + cbn. intros id x' Hx'. destruct (same_get_r _ _ _ _ Hs Hx') as (x & Hx & [= _ _ _ Hlen]). rewrite <- Hlen.
      destruct (append_get _ _ _ _ _ _ Hx) as [Hold|[_ ->]]; [specialize (H6 _ _ Hold); unfold tableint in *; lia|].
      cbn. unfold zlen. rewrite length_replicate. lia.
  - unfold points. cbn. pose proof (points_same _ _ Hs) as Hp. unfold points in Hp. rewrite Hp. cbn.
    by rewrite fmap_app.
  - cbn. by rewrite <- (sp_max _ _ Hs).
Qed.

(** Where the search for neighbours starts. *)
Lemma insert_entry_ok g data label curlevel :
  links_ok M_ (append_element g (new_element data label curlevel)) -> 0 <= curlevel ->
  hnsw_wf g -> elements g <> [] ->
  exists cur, (if curlevel <? maxlevel_ g then
      do! curdist <- node_dist fstdistfunc_ (append_element g (new_element data label curlevel)) data (enterpoint_node_ g) ;;
      descend_above fstdistfunc_ (append_element g (new_element data label curlevel)) data
        (Z.to_nat (maxlevel_ g - curlevel)) (maxlevel_ g) (enterpoint_node_ g) curdist
    else Ok (enterpoint_node_ g)) = Ok cur /\
    on_level (append_element g (new_element data label curlevel)) (Z.min curlevel (maxlevel_ g)) cur /\
    cur <> cur_element_count g.
Proof.
  intros Hok Hlv Hwf Hne. destruct (hw_entry g Hwf Hne) as [Hm He].
  pose proof (append_on_level g data label curlevel _ _ He) as He1.
  destruct (Z.ltb_spec curlevel (maxlevel_ g)) as [Hlt|Hge].
  - rewrite (node_dist_ok _ _ _ _ _ He1), rbind_ret.
    destruct (Z.to_nat (maxlevel_ g - curlevel)) as [|n] eqn:En; [lia|].
    destruct (descend_above_ok (append_element g (new_element data label curlevel)) data n (maxlevel_ g)
      (enterpoint_node_ g) (lo_wf _ _ Hok) He1 ltac:(lia)) as (cur & -> & Hcur).
    exists cur. split; [done|]. replace (maxlevel_ g - Z.of_nat n) with (curlevel + 1) in Hcur by lia. split.
    + apply (on_level_lower _ (curlevel + 1)); [done|lia].
    + intros ->. apply new_on_level in Hcur; [lia|done].
  - exists (enterpoint_node_ g). split_and!; [done|by rewrite Z.min_r by lia|].
    pose proof (on_level_valid g _ _ He) as Hv. lia.
Qed.

(** [g'] is [g] with the point added under the next number; the new element
    has links on every level it shares with the rest. *)
Record point_added g (data : list Z) (label : labeltype) (curlevel : Z) g' : Prop := {
  pa_index : index_ok g';
  pa_points : points g' = points g ++ [(data, label)];
  pa_max : max_elements_ g' = max_elements_ g;
  pa_links : forall level, 0 <= level <= Z.min curlevel (maxlevel_ g) ->
    links_at g' (cur_element_count g) level <> [];
  pa_maxlevel : maxlevel_ g' = Z.max curlevel (maxlevel_ g)
}.

Lemma new_unlinked g data label curlevel n :
  hnsw_wf g -> 0 <= curlevel -> Z.of_nat n <= curlevel + 1 ->
  unlinked (append_element g (new_element data label curlevel)) (cur_element_count g) n.
Proof.
  intros Hwf Hlv Hn level Hle. split_and!.
  - apply new_on_level; lia.
  - rewrite append_links by lia. unfold links_at. rewrite zget_None; [done|]. unfold cur_element_count. lia.
  - intros id. rewrite append_links by lia. intros Hin%hw_links; [|done].
    apply on_level_valid in Hin. lia.
Qed.

Section point.
Variables (g : HierarchicalNSW) (data : list Z) (label : labeltype) (curlevel : Z) (v : nat -> VisitedList).
Hypothesis Hix : index_ok g.
Hypothesis Hnew : label_lookup_ g !! label = None.
Hypothesis Hlt : cur_element_count g < max_elements_ g.
Hypothesis Hlv : 0 <= curlevel.
Hypothesis Hcl : forall n, clean g (v n).
Abbreviation g1 := (append_element g (new_element data label curlevel)).
Abbreviation add := (addPoint fstdistfunc_ FLT_MAX M_ ef_construction_ g data label curlevel v).

Lemma addPoint_first : elements g = [] -> exists g', add = Ok g' /\ point_added g data label curlevel g'.
Proof.
  intros Hemp. destruct (io_empty _ Hix Hemp) as [Hm He].
  unfold addPoint. rewrite Hnew, Z.geb_leb.
  destruct (Z.leb_spec (max_elements_ g) (cur_element_count g)) as [|_]; [lia|].
  assert (Hint : (int32 (uint32 (-1)) =? -1) = true) by reflexivity. rewrite He, Hint, Hm. cbn [negb].
  rewrite rbind_ret, Z.gtb_ltb. destruct (Z.ltb_spec (-1) curlevel) as [_|]; [|lia].
  eexists. split; [reflexivity|].
  assert (H1 : links_ok M_ (set_entry g1 (cur_element_count g) curlevel)).
  { apply append_ok; try done; [by apply io_links|]. apply new_on_level; lia. }
  destruct (inserted_ok g data label curlevel g1 (cur_element_count g) curlevel Hix Hnew ltac:(done) H1 Hlv ltac:(lia)) as (I1 & I2 & I3).
  split; [done|done|done| |cbn; lia]. intros level. lia.
Qed.

(** The result once the levels are linked. *)
Lemma point_added_ok g2 :
  links_ok M_ g2 -> same_points g1 g2 ->
  (forall level, 0 <= level <= Z.min curlevel (maxlevel_ g) -> links_at g2 (cur_element_count g) level <> []) ->
  point_added g data label curlevel
    (if maxlevel_ g <? curlevel then set_entry g2 (cur_element_count g) curlevel else g2).
Proof.
  intros Hok2 Hs2 Hl2.
  assert (Hnl : on_level g2 curlevel (cur_element_count g)).
  { eapply same_on_level; [exact Hs2|]. apply new_on_level; lia. }
  destruct (Z.ltb_spec (maxlevel_ g) curlevel) as [Hup|Hup].
  - destruct (inserted_ok g data label curlevel g2 (cur_element_count g) curlevel Hix Hnew Hs2) as (I1 & I2 & I3);
      [by apply set_entry_ok|done|lia|]. split; [done|done|done|done|cbn; lia].
  - assert (Heta : g2 = set_entry g2 (enterpoint_node_ g2) (maxlevel_ g2)) by (by destruct g2).
    destruct (inserted_ok g data label curlevel g2 (enterpoint_node_ g2) (maxlevel_ g2) Hix Hnew Hs2) as (I1 & I2 & I3);
      [by rewrite <- Heta|done|rewrite <- (sp_maxlevel _ _ Hs2); cbn; lia|]. rewrite <- Heta in *.
    split; [done|done|done|done|]. rewrite <- (sp_maxlevel _ _ Hs2). cbn. lia.
Qed.

Lemma entry_not_none : hnsw_wf g -> elements g <> [] -> (int32 (enterpoint_node_ g) =? -1) = false.
Proof.
  intros Hwf Hne. destruct (hw_entry g Hwf Hne) as [_ He]. apply on_level_valid in He. pose proof (io_size _ Hix) as Hsz.
  apply Z.eqb_neq. unfold int32. intros E.
  pose proof (Z.div_mod (enterpoint_node_ g + 2147483648) 4294967296 ltac:(lia)). lia.
Qed.

Lemma addPoint_more : elements g <> [] -> exists g', add = Ok g' /\ point_added g data label curlevel g'.
Proof.
  intros Hne. pose proof (io_links _ Hix) as Hok. pose proof (lo_wf _ _ Hok) as Hwf.
  destruct (hw_entry g Hwf Hne) as [Hm He].
  unfold addPoint. rewrite Hnew, Z.geb_leb.
  destruct (Z.leb_spec (max_elements_ g) (cur_element_count g)) as [|_]; [lia|].
  rewrite (entry_not_none Hwf Hne). cbn [negb].
  assert (Hok1 : links_ok M_ g1).
  { apply (append_ok g data label curlevel Hlv (enterpoint_node_ g) (maxlevel_ g) Hok Hlt Hm).
    by apply append_on_level. }
  destruct (insert_entry_ok g data label curlevel Hok1 Hlv Hwf Hne) as (cur & -> & Hcur & Hcne).
  rewrite rbind_ret. change (enterpoint_node_ g1) with (enterpoint_node_ g).
  assert (isMarkedDeleted g1 (enterpoint_node_ g) = Ok false) as ->.
  { destruct He as (x & Hx & _). unfold isMarkedDeleted. rewrite (aget_Ok _ _ _ (append_get_old g data label curlevel _ _ Hx)).
    by rewrite rbind_ret, (hw_deleted _ Hwf (io_deleted _ Hix) _ _ Hx). }
  rewrite rbind_ret.
  destruct (connect_levels_ok g1 data (enterpoint_node_ g) (cur_element_count g)
    (Z.to_nat (Z.min curlevel (maxlevel_ g) + 1)) cur v) as (g2 & -> & Hok2 & Hs2 & Hl2 & _).
  - done.
  - apply (io_deleted _ Hix).
  - done.
  - apply new_unlinked; [done|lia|lia].
  - intros _. split; [|done]. by replace (Z.of_nat _ - 1) with (Z.min curlevel (maxlevel_ g)) by lia.
  - rewrite rbind_ret, Z.gtb_ltb. eexists. split; [reflexivity|]. apply point_added_ok; [done|done|].
    intros level Hle. apply Hl2. lia.
Qed.

Lemma addPoint_ok : exists g', add = Ok g' /\ point_added g data label curlevel g'.
Proof. destruct (decide (elements g = [])); [by apply addPoint_first|by apply addPoint_more]. Qed.
End point.

Lemma new_index_ok max : 0 <= max <= 4294967295 -> index_ok (new_index max).
Proof.
  intros Hmax.
  assert (Hat : forall id level, links_at (new_index max) id level = []).
  { intros id level. unfold links_at. by rewrite zget_None by (cbn; unfold zlen; cbn; lia). }
  assert (Hget : forall id x, zget (elements (new_index max)) id = Some x -> False).
  { intros id x Hx%zget_bounds. unfold zlen in Hx. cbn in Hx. lia. }
  split; [split; [split|..]|..]; try done.
  - unfold cur_element_count, zlen. cbn. lia.
  - intros id x Hx. by apply Hget in Hx.
  - intros id level nb. rewrite Hat. by intros ?%not_elem_of_nil.
  - intros _ id x Hx. by apply Hget in Hx.
  - intros id level. rewrite Hat. change (zlen []) with 0. unfold Mcurmax, maxM_, maxM0_. destruct (level =? 0); lia.
  - intros id level. rewrite Hat. apply not_elem_of_nil.
  - intros id level. rewrite Hat. constructor.
  - cbn. lia.
  - intros label id. cbn. rewrite lookup_empty. split; [done|]. intros (x & Hx & _). by apply Hget in Hx.
  - intros id x Hx. by apply Hget in Hx.
Qed.
End add.

(** ** Properties *)

(** C24. The neighbour selection.  From candidates that carry their distance to
    the query [getNeighborsByHeuristic2] keeps at most [M], among them one as
    near as any; whatever it drops either finds the selection full or has a
    chosen candidate that is nearer to it than the query is; and unless there
    were fewer than [M] candidates, the chosen ones are pairwise spread: in
    order of distance, none is nearer to an earlier one than to the query. *)
Theorem neighbor_selection `{PriorityQueue} fstdistfunc_ g level M top :
  1 <= M -> q_ok top -> Forall (fun x => on_level g level (snd x)) top ->
  exists out, getNeighborsByHeuristic2 fstdistfunc_ g top M = Ok out /\
    heuristic_choice fstdistfunc_ g M top out.
Proof. intros. by eapply getNeighborsByHeuristic2_ok. Qed.

Lemma neighbor_selection_witness :
  exists out, getNeighborsByHeuristic2 line_dist demo_graph [(22, 2); (12, 1); (2, 0)] 2 = Ok out /\
    heuristic_choice line_dist demo_graph 2 [(22, 2); (12, 1); (2, 0)] out.
Proof.
  apply (neighbor_selection line_dist demo_graph 0 2 [(22, 2); (12, 1); (2, 0)]).
  - lia.
  - repeat constructor; cbn; lia.
  - repeat constructor; (eexists; split; [reflexivity|by compute]).
Defined.

(** Both farther elements lie behind the nearest one, so it alone is kept. *)
Example demo_selection :
  getNeighborsByHeuristic2 line_dist demo_graph [(22, 2); (12, 1); (2, 0)] 2 = Ok [(2, 0)].
Proof. vm_compute. reflexivity. Qed.
