(* ===== verification/HnswUpdate.v ===== *)
(** * Updating a point keeps the index intact

    [updatePoint] of [HnswInsert]: the vector of an element is replaced, its
    neighbours choose their links again, and the element is linked afresh.
    The index keeps its invariant, all other points stay as they are.  With
    the insertion of a new point ([HnswInsertTheory]) this describes
    [addPoint] on every label. *)

From Stdlib Require Import ZArith Lia.
From stdpp Require Import base list sorting strings gmap fin_maps.
From S2P Require Import Prelude HnswGraph HnswScan HnswTraversal HnswKnn HnswInsert HnswInsertTheory.

Local Open Scope Z_scope.
Set Warnings "-clear-no-such-hyp".

(** ** Indexes that differ in vectors only *)

Definition shape (x : element) : labeltype * bool * list (list tableint) :=
  (e_label x, e_deleted x, e_links x).

Record same_shape (g g' : HierarchicalNSW) : Prop := {
  ss_max : max_elements_ g' = max_elements_ g;
  ss_num_deleted : num_deleted_ g' = num_deleted_ g;
  ss_maxlevel : maxlevel_ g' = maxlevel_ g;
  ss_entry : enterpoint_node_ g' = enterpoint_node_ g;
  ss_lookup : label_lookup_ g' = label_lookup_ g;
  ss_elements : shape <$> elements g' = shape <$> elements g
}.

Section shape.
Variables (g g' : HierarchicalNSW).
Hypothesis Hs : same_shape g g'.

Lemma shape_get id x' :
  zget (elements g') id = Some x' -> exists x, zget (elements g) id = Some x /\ shape x' = shape x.
Proof.
  intros Hx. assert (E : zget (shape <$> elements g) id = Some (shape x')).
  { rewrite <- (ss_elements _ _ Hs), zget_fmap, Hx. done. }
  rewrite zget_fmap in E. destruct (zget (elements g) id) as [x|]; [|done].
  exists x. split; [done|]. by apply (inj Some) in E.
Qed.

Lemma shape_get_r id x :
  zget (elements g) id = Some x -> exists x', zget (elements g') id = Some x' /\ shape x' = shape x.
Proof.
  intros Hx. assert (E : zget (shape <$> elements g') id = Some (shape x)).
  { rewrite (ss_elements _ _ Hs), zget_fmap, Hx. done. }
  rewrite zget_fmap in E. destruct (zget (elements g') id) as [x'|]; [|done].
  exists x'. split; [done|]. by apply (inj Some) in E.
Qed.

Lemma shape_count : cur_element_count g' = cur_element_count g.
Proof.
  unfold cur_element_count. by rewrite <- (zlen_fmap shape (elements g')), (ss_elements _ _ Hs), zlen_fmap.
Qed.

Lemma shape_links id level : links_at g' id level = links_at g id level.
Proof.
  unfold links_at. destruct (zget (elements g) id) as [x|] eqn:Hx.
  - destruct (shape_get_r id x Hx) as (x' & -> & [= _ _ ->]). done.
  - destruct (zget (elements g') id) as [x'|] eqn:Hx'; [|done].
    destruct (shape_get id x' Hx') as (x & Hx1 & _). congruence.
Qed.

Lemma shape_on_level level id : on_level g level id -> on_level g' level id.
Proof.
  intros (x & Hx & Hl). destruct (shape_get_r id x Hx) as (x' & Hx' & [= _ _ E]).
  exists x'. by rewrite E.
Qed.

Lemma shape_empty : elements g' = [] <-> elements g = [].
Proof.
  pose proof (ss_elements _ _ Hs) as E. split; intros E0; rewrite E0 in E.
  - symmetry in E. by apply fmap_nil_inv in E.
  - by apply fmap_nil_inv in E.
Qed.

Lemma shape_wf : hnsw_wf g -> hnsw_wf g'.
Proof.
  intros [H1 H2 H3 H4 H5]. split.
  - rewrite shape_count, (ss_max _ _ Hs). done.
  - intros id x' Hx'. destruct (shape_get id x' Hx') as (x & Hx & [= _ _ ->]). by eapply H2.
  - intros id level nb. rewrite shape_links. intros Hn%H3. by apply shape_on_level.
  - rewrite shape_empty, (ss_maxlevel _ _ Hs), (ss_entry _ _ Hs). intros Hne.
    destruct (H4 Hne) as [Hm He]. split; [done|]. by apply shape_on_level.
  - rewrite (ss_num_deleted _ _ Hs). intros H0 id x' Hx'.
    destruct (shape_get id x' Hx') as (x & Hx & [= _ -> _]). by eapply H5.
Qed.

Lemma shape_index_ok M_ : index_ok M_ g -> index_ok M_ g'.
Proof.
  intros [[Hwf Hd Hself Hnd] H2 H3 H4 H5 H6]. split.
  - split; [by apply shape_wf|..]; intros id level; by rewrite shape_links.
  - by rewrite (ss_max _ _ Hs).
  - by rewrite (ss_num_deleted _ _ Hs).
  - intros label id. rewrite (ss_lookup _ _ Hs), H4. split.
    + intros (x & Hx & <-). destruct (shape_get_r id x Hx) as (x' & Hx' & [= E _ _]). by exists x'.
    + intros (x' & Hx' & <-). destruct (shape_get id x' Hx') as (x & Hx & [= -> _ _]). by exists x.
  - by rewrite shape_empty, (ss_maxlevel _ _ Hs), (ss_entry _ _ Hs).
  - intros id x' Hx'. destruct (shape_get id x' Hx') as (x & Hx & [= _ _ ->]).
    rewrite (ss_maxlevel _ _ Hs). by eapply H6.
Qed.
End shape.

(** Replacing the vector of an element. *)
Lemma set_data_ok g id x data :
  zget (elements g) id = Some x ->
  exists g', set_data g id data = Ok g' /\ same_shape g g' /\
    points g' = zset (points g) id (data, e_label x).
Proof.
  intros Hx. unfold set_data, aget. rewrite Hx, rbind_ret, aset_Ok by (by eapply zget_bounds).
  rewrite rbind_ret. eexists. split; [done|]. split.
  - split; try done. cbn. rewrite fmap_zset. apply zset_id. by rewrite zget_fmap, Hx.
  - unfold points. cbn. by rewrite fmap_zset.
Qed.

(** ** The neighbours choose again *)

Section update.
Context `{PQ : PriorityQueue} `{US : UnorderedSet}.
Variable fstdistfunc_ : list Z -> list Z -> Z.
Variable FLT_MAX : Z.
Variables (M_ ef_construction_ : Z).
Hypothesis HM : 1 <= M_ <= 32767.
Hypothesis Hef : 1 <= ef_construction_.
Implicit Types (g : HierarchicalNSW) (query : list Z) (v : nat -> VisitedList).

Abbreviation ids l := (snd <$> l).

Lemma two_hops_ok g layer l :
  hnsw_wf g -> Forall (on_level g layer) l ->
  exists hops, two_hops g layer l = Ok hops /\ Forall (on_level g layer) hops.
Proof.
  intros Hwf. induction 1 as [|x l Hx _ IH]; cbn [two_hops]; [by exists []|].
  rewrite (on_level_links g layer x Hx), rbind_ret. destruct IH as (hops & -> & Hh).
  rewrite rbind_ret. eexists. split; [done|]. constructor; [done|]. apply Forall_app. split; [|done].
  apply Forall_forall. intros y. by apply hw_links.
Qed.

Lemma closest_candidates_ok g level neigh keep sCand q :
  on_level g level neigh -> Forall (on_level g level) sCand -> 1 <= keep -> q_ok q -> neigh ∉ ids q ->
  exists q', closest_candidates fstdistfunc_ g neigh keep sCand q = Ok q' /\ q_ok q' /\
    (neigh ∉ ids q') /\ ids q' ⊆+ (ids q ++ sCand).
Proof.
  intros Hn Hs Hk. revert q. induction Hs as [|c sCand Hc _ IH]; intros q Hq Hni; cbn [closest_candidates].
  { exists q. split_and!; [done|done|done|]. by rewrite app_nil_r. }
  destruct (Z.eqb_spec c neigh) as [-> |Hne].
  { destruct (IH q Hq Hni) as (q' & -> & H1 & H2 & H3). exists q'. split_and!; [done..|].
    rewrite H3. apply submseteq_skips_l, submseteq_cons. done. }
  rewrite (pair_dist_ok fstdistfunc_ g level neigh c Hn Hc), rbind_ret.
  set (d := pdist _ _ _ _).
  assert (Hstep : forall q1, q_ok q1 -> neigh ∉ ids q1 -> ids q1 ⊆+ c :: ids q ->
    exists q', closest_candidates fstdistfunc_ g neigh keep sCand q1 = Ok q' /\ q_ok q' /\
      (neigh ∉ ids q') /\ ids q' ⊆+ (ids q ++ c :: sCand)).
  { intros q1 Hq1 Hn1 Hs1. destruct (IH q1 Hq1 Hn1) as (q' & -> & H1 & H2 & H3). exists q'.
    split_and!; [done..|]. rewrite H3, <- Permutation_middle.
    by apply (submseteq_skips_r sCand) in Hs1. }
  assert (Hpush : forall q1, q_ok q1 -> ids q1 ⊆+ ids q ->
    q_ok (q_push (d, c) q1) /\ (neigh ∉ ids (q_push (d, c) q1)) /\ ids (q_push (d, c) q1) ⊆+ c :: ids q).
  { intros q1 Hq1 Hs1. destruct (q_push_ok (d, c) q1 Hq1) as [Hqp Hp]. split; [done|]. rewrite Hp. cbn. split.
    - apply not_elem_of_cons. split; [done|]. intros Hin. apply Hni. by eapply elem_of_submseteq.
    - by apply submseteq_skip. }
  destruct (Z.ltb_spec (zlen q) keep) as [Hlt|Hge].
  { rewrite rbind_ret. destruct (Hpush q Hq ltac:(done)) as (P1 & P2 & P3). by apply Hstep. }
  destruct (q_pop_ok q Hq) as ([top tid] & rest & -> & Hr & Hp & _).
  { intros ->. change (zlen []) with 0 in Hge. lia. }
  rewrite rbind_ret. destruct (d <? top).
  - destruct (Hpush rest Hr) as (P1 & P2 & P3); [rewrite Hp; cbn; by apply submseteq_cons|]. by apply Hstep.
  - apply Hstep; [done|done|by apply submseteq_cons].
Qed.

(** Two different elements of a list. *)
Lemma zlen_two (l : list tableint) a b : a ∈ l -> b ∈ l -> a <> b -> 2 <= zlen l.
Proof.
  destruct l as [|x [|y l]]; intros Ha Hb Hne.
  - by apply not_elem_of_nil in Ha.
  - apply list_elem_of_singleton in Ha, Hb. congruence.
  - rewrite !zlen_cons. pose proof (zlen_nonneg l). lia.
Qed.

Lemma choose_again_ok g layer sCand neigh self :
  links_ok M_ g -> on_level g layer neigh -> Forall (on_level g layer) sCand -> NoDup sCand ->
  self ∈ sCand -> neigh <> self ->
  exists l, choose_again fstdistfunc_ M_ ef_construction_ g layer sCand neigh = Ok (relink g neigh layer l) /\
    good_list M_ g neigh layer l.
Proof.
  intros Hok Hn Hs Hnd Hself Hne. unfold choose_again.
  set (size := if bool_decide _ then _ else _).
  assert (Hsize : 1 <= size).
  { unfold size. case_bool_decide as Hin; [pose proof (zlen_two _ _ _ Hin Hself Hne); lia|].
    destruct sCand; [by apply not_elem_of_nil in Hself|]. rewrite zlen_cons. pose proof (zlen_nonneg sCand). lia. }
  destruct (closest_candidates_ok g layer neigh (Z.min ef_construction_ size) sCand []) as
    (q & -> & Hq & Hni & Hsub); [done|done|lia|apply q_ok_nil|apply not_elem_of_nil|].
  cbn in Hsub. rewrite rbind_ret.
  assert (Hon : Forall (on_level g layer) (ids q)) by (by eapply submseteq_Forall).
  destruct (getNeighborsByHeuristic2_ok fstdistfunc_ g layer (Mcurmax M_ layer) q (Mcurmax_pos M_ HM layer) Hq)
    as (out & -> & Hch); [exact (proj1 (Forall_fmap _ _ _) Hon)|]. rewrite rbind_ret.
  destruct (pop_all_ok (length out) out (hc_queue _ _ _ _ _ Hch) ltac:(lia)) as (l & -> & Hl).
  rewrite rbind_ret. destruct (heuristic_ids fstdistfunc_ g _ _ _ Hch) as [Hso _]. rewrite <- Hl in Hso.
  apply set_links_choice; [done|done|]. split.
  - by eapply submseteq_Forall.
  - pose proof (hc_len _ _ _ _ _ Hch). unfold zlen in *. rewrite Hl, length_fmap. lia.
  - intros Hin. apply Hni. by eapply elem_of_submseteq.
  - eapply submseteq_NoDup; [exact Hso|]. by eapply submseteq_NoDup.
Qed.

Lemma choose_all_again_ok g layer sCand sNeigh self :
  links_ok M_ g -> Forall (on_level g layer) sNeigh -> Forall (on_level g layer) sCand -> NoDup sCand ->
  self ∈ sCand -> self ∉ sNeigh ->
  exists g', choose_all_again fstdistfunc_ M_ ef_construction_ g layer sCand sNeigh = Ok g' /\
    links_ok M_ g' /\ same_points g g' /\ forall lv, links_at g' self lv = links_at g self lv.
Proof.
  revert g. induction sNeigh as [|neigh sNeigh IH]; intros g Hok Hn Hs Hnd Hself Hns; cbn [choose_all_again].
  { by exists g. }
  apply Forall_cons in Hn as [Hn Hns']. apply not_elem_of_cons in Hns as [Hne Hns].
  destruct (choose_again_ok g layer sCand neigh self) as (l & -> & Hgood); try done.
  rewrite rbind_ret. pose proof (relink_same g neigh layer l Hn) as Hsame.
  assert (Hon : forall l', Forall (on_level g layer) l' -> Forall (on_level (relink g neigh layer l) layer) l').
  { intros l' H. eapply Forall_impl; [exact H|]. intros i. by apply same_on_level. }
  destruct (IH (relink g neigh layer l)) as (g' & Hg' & Hok' & Hs' & Hfr); auto; [by apply relink_ok|].
  exists g'. split_and!; [done|done|by etrans|]. intros lv. rewrite Hfr, links_at_relink by done.
  rewrite bool_decide_false; [done|]. by intros [-> _].
Qed.

Lemma update_layer_ok g self layer :
  links_ok M_ g -> on_level g layer self ->
  exists g', update_layer fstdistfunc_ M_ ef_construction_ g self layer = Ok g' /\
    links_ok M_ g' /\ same_points g g' /\ forall lv, links_at g' self lv = links_at g self lv.
Proof.
  intros Hok Hl. unfold update_layer. rewrite (on_level_links g layer self Hl), rbind_ret.
  destruct (_ =? 0); [by exists g|].
  assert (Hone : Forall (on_level g layer) (links_at g self layer)).
  { apply Forall_forall. intros y. apply hw_links, Hok. }
  destruct (two_hops_ok g layer _ (lo_wf _ _ Hok) Hone) as (hops & -> & Hh). rewrite rbind_ret.
  apply choose_all_again_ok; [done| | |apply set_of_nodup|apply set_of_elem; by left|].
  - apply Forall_forall. intros y Hy. rewrite set_of_elem in Hy. exact (proj1 (Forall_forall _ _) Hone y Hy).
  - apply Forall_forall. intros y Hy. rewrite set_of_elem in Hy. apply elem_of_cons in Hy as [-> |Hy]; [done|].
    exact (proj1 (Forall_forall _ _) Hh y Hy).
  - rewrite set_of_elem. intros Hin. by apply (lo_self _ _ Hok) in Hin.
Qed.

Lemma update_layers_ok g self n layer top :
  links_ok M_ g -> on_level g top self -> 0 <= layer -> layer + Z.of_nat n <= top + 1 ->
  exists g', update_layers fstdistfunc_ M_ ef_construction_ g self n layer = Ok g' /\
    links_ok M_ g' /\ same_points g g' /\ forall lv, links_at g' self lv = links_at g self lv.
Proof.
  revert g layer. induction n as [|n IH]; intros g layer Hok Hl H0 Hn; cbn [update_layers]; [by exists g|].
  destruct (update_layer_ok g self layer Hok) as (g1 & -> & Hok1 & Hs1 & Hf1).
  { apply (on_level_lower _ top); [done|lia]. }
  rewrite rbind_ret. destruct (IH g1 (layer + 1)) as (g2 & -> & Hok2 & Hs2 & Hf2);
    [done|by eapply same_on_level|lia|lia|].
  exists g2. split_and!; [done|done|by etrans|]. intros lv. by rewrite Hf2, Hf1.
Qed.

(** ** The element is linked afresh *)

Section walk.
Variables (g : HierarchicalNSW) (query : list Z).
Hypothesis Hwf : hnsw_wf g.

(** In a well-formed index the test of the links that the walk of [addPoint]
    makes and this one leaves out never fails. *)
Lemma repair_scan_eq id level datal cur d changed :
  datal ⊆ links_at g id level ->
  repair_scan fstdistfunc_ g query datal cur d changed = greedy_scan fstdistfunc_ g query datal cur d changed.
Proof.
  revert cur d changed. induction datal as [|c datal IH]; intros cur d changed Hsub; cbn [repair_scan greedy_scan]; [done|].
  assert (Hc : c ∈ links_at g id level) by (apply Hsub; by left).
  apply (hw_links g Hwf), on_level_valid in Hc. pose proof (hw_capacity g Hwf) as Hcap.
  destruct (Z.ltb_spec c 0); [lia|]. rewrite Z.gtb_ltb. destruct (Z.ltb_spec (max_elements_ g) c); [lia|]. cbn [orb].
  destruct (node_dist _ _ _ _); cbn; [|done..]. rewrite !IH by set_solver. done.
Qed.

Lemma repair_level_eq n level cur d :
  repair_level fstdistfunc_ n g query level cur d = greedy_level fstdistfunc_ n g query level cur d.
Proof.
  revert cur d. induction n as [|n IH]; intros cur d; cbn [repair_level greedy_level]; [done|].
  destruct (get_linklist g cur level) as [data| | |] eqn:Hd; cbn; [|done..].
  rewrite (repair_scan_eq cur level).
  - destruct (greedy_scan _ _ _ _ _ _ _) as [[[c1 d1] []]| | |]; cbn; [apply IH|done..].
  - unfold get_linklist, aget in Hd. unfold links_at. destruct (zget (elements g) cur) as [x|]; [|done].
    cbn in Hd. destruct (zget (e_links x) level); [|done]. by injection Hd as ->.
Qed.

Lemma repair_above_eq n level cur d :
  repair_above fstdistfunc_ g query n level cur d = descend_above fstdistfunc_ g query n level cur d.
Proof.
  revert level cur d. induction n as [|n IH]; intros level cur d; cbn [repair_above descend_above]; [done|].
  rewrite repair_level_eq. destruct (greedy_level _ _ _ _ _ _ _) as [[c1 d1]| | |]; cbn; [apply IH|done..].
Qed.
End walk.

Lemma filter_self_ok n top self out :
  q_ok top -> (length top <= n)%nat -> q_ok out ->
  exists out', filter_self n top self out = Ok out' /\ q_ok out' /\
    out' ≡ₚ filter (fun x => snd x <> self) top ++ out.
Proof.
  revert top out. induction n as [|n IH]; intros top out Hq Hn Ho; cbn [filter_self];
    (destruct top as [|t0 top0] eqn:Et; [rewrite q_pop_nil; by exists out|]); [cbn in Hn; lia|].
  rewrite <- Et in *. destruct (q_pop_ok top Hq) as (x & q' & -> & Hq' & Hp & _); [by rewrite Et|].
  apply Permutation_length in Hp as Hlen. cbn in Hlen.
  destruct (Z.eqb_spec (snd x) self) as [Hx|Hx]; cbn [negb].
  - destruct (IH q' out Hq' ltac:(lia) Ho) as (out' & -> & Ho' & Hp'). exists out'. split_and!; [done..|].
    rewrite Hp', Hp, filter_cons_False by (by intros []). done.
  - destruct (q_push_ok x out Ho) as [Ho1 Hp1].
    destruct (IH q' _ Hq' ltac:(lia) Ho1) as (out' & -> & Ho' & Hp'). exists out'. split_and!; [done..|].
    rewrite Hp', Hp, filter_cons_True, Hp1 by done. cbn. by rewrite Permutation_middle.
Qed.

(** The entry point is an element that is not deleted. *)
Lemma entry_live g level id :
  hnsw_wf g -> num_deleted_ g = 0 -> on_level g level id -> isMarkedDeleted g (enterpoint_node_ g) = Ok false.
Proof.
  intros Hwf H0 (x & Hx & _). destruct (hw_entry g Hwf) as [_ (y & Hy & _)].
  { intros E. rewrite E in Hx. by apply zget_elem, not_elem_of_nil in Hx. }
  unfold isMarkedDeleted. rewrite (aget_Ok _ _ _ Hy), rbind_ret. by rewrite (hw_deleted g Hwf H0 _ _ Hy).
Qed.

Lemma repair_connect_ok g query self level currObj fl :
  links_ok M_ g -> num_deleted_ g = 0 -> on_level g level self -> on_level g level currObj -> q_ok fl ->
  Forall (on_level g level) (ids fl) -> NoDup (ids fl) -> self ∉ ids fl ->
  exists g' next, repair_connect fstdistfunc_ M_ ef_construction_ g query (enterpoint_node_ g) self level currObj fl =
      Ok (g', next) /\
    links_ok M_ g' /\ same_points g g' /\ on_level g level next /\
    forall lv, links_at g self lv <> [] -> links_at g' self lv <> [].
Proof.
  intros Hok H0 Hself Hcur Hq Hon Hnd Hns. unfold repair_connect. rewrite Z.gtb_ltb.
  destruct (Z.ltb_spec 0 (zlen fl)) as [Hpos|_]; [|by exists g, currObj].
  rewrite (entry_live g _ _ (lo_wf _ _ Hok) H0 Hself), !rbind_ret.
  destruct (mutuallyConnect_ok fstdistfunc_ M_ HM g self fl level true) as
    (g1 & next & -> & Hok1 & Hs1 & Hnext & Hlink & Hfr); try done; [|by left|].
  - intros ->. by change (zlen []) with 0 in Hpos.
  - exists g1, next. split_and!; [done..|exact (proj1 (Forall_forall _ _) Hon next Hnext)|].
    intros lv Hl. destruct (decide (lv = level)) as [-> |Hne]; [|by rewrite Hfr].
    intros E. rewrite E in Hlink. by apply not_elem_of_nil in Hlink.
Qed.

Lemma repair_levels_ok g query self n currObj v :
  links_ok M_ g -> num_deleted_ g = 0 -> (forall k, clean g (v k)) ->
  (n <> O -> on_level g (Z.of_nat n - 1) self /\ on_level g (Z.of_nat n - 1) currObj) ->
  exists g', repair_levels fstdistfunc_ FLT_MAX M_ ef_construction_ g query (enterpoint_node_ g) self n currObj v = Ok g' /\
    links_ok M_ g' /\ same_points g g' /\
    forall level, links_at g self level <> [] -> links_at g' self level <> [].
Proof.
  revert g currObj. induction n as [|n IH]; intros g currObj Hok H0 Hcl Hlv; cbn [repair_levels]; [by exists g|].
  destruct (Hlv ltac:(done)) as [Hself Hcur]. replace (Z.of_nat (S n) - 1) with (Z.of_nat n) in * by lia.
  destruct (layer_search_ok fstdistfunc_ FLT_MAX M_ ef_construction_ Hef g query currObj (Z.of_nat n) (v n)) as
    (top & -> & Hq & _ & Hon & Hnd & _); try done. rewrite rbind_ret.
  destruct (filter_self_ok (length top) top self [] Hq ltac:(lia) q_ok_nil) as (fl & -> & Hqf & Hpf).
  rewrite app_nil_r in Hpf. rewrite rbind_ret.
  assert (Hsub : ids fl ⊆+ ids top).
  { rewrite Hpf. apply sublist_submseteq, fmap_sublist, sublist_filter. }
  destruct (repair_connect_ok g query self (Z.of_nat n) currObj fl) as (g1 & next & Hst & Hok1 & Hs1 & Hnext & Hl1);
    try done; [by eapply submseteq_Forall|by eapply submseteq_NoDup| |].
  { rewrite Hpf. intros (x & -> & [Hx _]%list_elem_of_filter)%list_elem_of_fmap. done. }
  cbv zeta. rewrite Hst, rbind_ret, (sp_entry _ _ Hs1).
  destruct (IH g1 next) as (g2 & -> & Hok2 & Hs2 & Hl2).
  - done.
  - by rewrite <- (sp_num_deleted _ _ Hs1).
  - intros k. eapply same_clean; [exact Hs1|done].
  - intros Hn. split; (apply (on_level_lower _ (Z.of_nat n)); [by eapply same_on_level|lia]).
  - exists g2. split_and!; [done|done|by etrans|]. intros level Hl. by apply Hl2, Hl1.
Qed.

Lemma repairConnections_ok g query self level v :
  links_ok M_ g -> num_deleted_ g = 0 -> (forall k, clean g (v k)) -> on_level g level self -> 
  0 <= level <= maxlevel_ g ->
  exists g', repairConnectionsForUpdate fstdistfunc_ FLT_MAX M_ ef_construction_ g query (enterpoint_node_ g) self
      level (maxlevel_ g) v = Ok g' /\
    links_ok M_ g' /\ same_points g g' /\
    forall lv, links_at g self lv <> [] -> links_at g' self lv <> [].
Proof.
  intros Hok H0 Hcl Hself Hle. pose proof (lo_wf _ _ Hok) as Hwf. unfold repairConnectionsForUpdate.
  destruct (hw_entry g Hwf) as [Hm He].
  { destruct Hself as (x & Hx & _). intros E. rewrite E in Hx. by apply zget_elem, not_elem_of_nil in Hx. }
  assert (Hcur : exists cur, (if level <? maxlevel_ g then
      do! curdist <- node_dist fstdistfunc_ g query (enterpoint_node_ g) ;;
      repair_above fstdistfunc_ g query (Z.to_nat (maxlevel_ g - level)) (maxlevel_ g) (enterpoint_node_ g) curdist
    else Ok (enterpoint_node_ g)) = Ok cur /\ on_level g level cur).
  { destruct (Z.ltb_spec level (maxlevel_ g)) as [Hlt|Hge].
    - rewrite (node_dist_ok _ _ _ _ _ He), rbind_ret, repair_above_eq by done.
      destruct (Z.to_nat (maxlevel_ g - level)) as [|n] eqn:En; [lia|].
      destruct (descend_above_ok fstdistfunc_ g query n (maxlevel_ g) (enterpoint_node_ g) Hwf He ltac:(lia))
        as (cur & -> & Hcur).
      exists cur. split; [done|]. apply (on_level_lower _ (maxlevel_ g - Z.of_nat n)); [done|lia].
    - exists (enterpoint_node_ g). split; [done|]. by replace level with (maxlevel_ g) by lia. }
  destruct Hcur as (cur & -> & Hcur). rewrite rbind_ret, Z.gtb_ltb.
  destruct (Z.ltb_spec (maxlevel_ g) level) as [|_]; [lia|].
  apply repair_levels_ok; try done. intros _. by replace (Z.of_nat _ - 1) with level by lia.
Qed.

(** The invariant of the index under new links. *)
Lemma index_same g g' : index_ok M_ g -> same_points g g' -> links_ok M_ g' -> index_ok M_ g'.
Proof.
  intros [H1 H2 H3 H4 H5 H6] Hs Hok. split; [done|..].
  - by rewrite <- (sp_max _ _ Hs).
  - by rewrite <- (sp_num_deleted _ _ Hs).
  - intros label id. rewrite <- (sp_lookup _ _ Hs), H4. split.
    + intros (x & Hx & <-). destruct (same_get _ _ Hs _ _ Hx) as (x' & Hx' & [= _ E _ _]). by exists x'.
    + intros (x' & Hx' & <-). destruct (same_get_r _ _ _ _ Hs Hx') as (x & Hx & [= _ E _ _]). by exists x.
  - rewrite <- (sp_maxlevel _ _ Hs), <- (sp_entry _ _ Hs). intros E. apply H5.
    pose proof (sp_elements _ _ Hs) as Es. rewrite E in Es. by apply fmap_nil_inv in Es.
  - intros id x' Hx'. destruct (same_get_r _ _ _ _ Hs Hx') as (x & Hx & [= _ _ _ E]).
    rewrite <- (sp_maxlevel _ _ Hs). specialize (H6 _ _ Hx). unfold tableint in *. lia.
Qed.

(** [g'] is [g] with the vector of element [id] replaced; the element has
    links wherever it had some. *)
Record point_updated g (id : tableint) (data : list Z) (label : labeltype) g' : Prop := {
  pu_index : index_ok M_ g';
  pu_points : points g' = zset (points g) id (data, label);
  pu_max : max_elements_ g' = max_elements_ g;
  pu_maxlevel : maxlevel_ g' = maxlevel_ g;
  pu_entry : enterpoint_node_ g' = enterpoint_node_ g;
  pu_links : forall level, links_at g id level <> [] -> links_at g' id level <> []
}.

Lemma shaped_updated g id x data g1 g2 :
  index_ok M_ g -> same_shape g g1 -> points g1 = zset (points g) id (data, e_label x) ->
  links_ok M_ g2 -> same_points g1 g2 ->
  (forall level, links_at g1 id level <> [] -> links_at g2 id level <> []) ->
  point_updated g id data (e_label x) g2.
Proof.
  intros Hix Hsh Hpts Hok Hs Hl. split.
  - eapply index_same; [by eapply shape_index_ok|done|done].
  - by rewrite (points_same _ _ Hs).
  - by rewrite <- (sp_max _ _ Hs), (ss_max _ _ Hsh).
  - by rewrite <- (sp_maxlevel _ _ Hs), (ss_maxlevel _ _ Hsh).
  - by rewrite <- (sp_entry _ _ Hs), (ss_entry _ _ Hsh).
  - intros level. rewrite <- (shape_links g g1 Hsh). apply Hl.
Qed.

Lemma updatePoint_ok g id x data v :
  index_ok M_ g -> zget (elements g) id = Some x -> (forall k, clean g (v k)) ->
  exists g', updatePoint fstdistfunc_ FLT_MAX M_ ef_construction_ g data id v = Ok g' /\
    point_updated g id data (e_label x) g'.
Proof.
  intros Hix Hx Hcl. unfold updatePoint. destruct (set_data_ok g id x data Hx) as (g1 & -> & Hsh & Hpts).
  pose proof (shape_index_ok g g1 Hsh M_ Hix) as Hix1. pose proof (io_links _ _ Hix1) as Hok1.
  rewrite rbind_ret. destruct (_ && _); [exists g1; split; [done|by eapply shaped_updated]|].
  destruct (shape_get_r g g1 Hsh id x Hx) as (x1 & Hx1 & _).
  assert (Hlv : on_level g1 (zlen (e_links x1) - 1) id).
  { exists x1. split; [done|]. pose proof (hw_base _ (lo_wf _ _ Hok1) _ _ Hx1) as Hne.
    destruct (e_links x1) as [|l0 ls]; [done|]. rewrite zlen_cons. pose proof (zlen_nonneg ls). lia. }
  assert (Hbnd : 0 <= zlen (e_links x1) - 1 <= maxlevel_ g1).
  { destruct Hlv as (x1' & Hx1' & Hb). split; [lia|]. by eapply io_top. }
  unfold element_level. rewrite (aget_Ok _ _ _ Hx1), !rbind_ret.
  destruct (update_layers_ok g1 id (Z.to_nat (zlen (e_links x1) - 1 + 1)) 0 _ Hok1 Hlv) as (g2 & -> & Hok2 & Hs2 & Hf2);
    [lia|lia|].
  rewrite rbind_ret, (sp_entry _ _ Hs2), (sp_maxlevel _ _ Hs2).
  destruct (repairConnections_ok g2 data id (zlen (e_links x1) - 1) v) as (g3 & -> & Hok3 & Hs3 & Hl3).
  - done.
  - rewrite <- (sp_num_deleted _ _ Hs2). by apply (io_deleted _ _ Hix1).
  - intros k. eapply same_clean; [exact Hs2|]. unfold clean. rewrite (ss_max _ _ Hsh). apply Hcl.
  - by eapply same_on_level.
  - by rewrite <- (sp_maxlevel _ _ Hs2).
  - exists g3. split; [done|]. eapply shaped_updated; [done|done|done|done|by etrans|].
    intros level. rewrite <- Hf2. apply Hl3.
Qed.

(** ** What was added can be read back *)

Lemma copy_data_all data : copy_data (length data) data = Ok data.
Proof. induction data as [|x data IH]; cbn; [done|]. by rewrite IH. Qed.

Lemma getDataByLabel_ok g (id : tableint) data label :
  index_ok M_ g -> zget (points g) id = Some (data, label) -> getDataByLabel g (length data) label = Ok data.
Proof.
  intros Hix Hp. unfold points in Hp. rewrite zget_fmap in Hp.
  destruct (zget (elements g) id) as [x|] eqn:Hx; [|done]. injection Hp as <- <-.
  assert (Hl : label_lookup_ g !! e_label x = Some id) by (apply (io_labels _ _ Hix); by exists x).
  unfold getDataByLabel, isMarkedDeleted. rewrite Hl, (aget_Ok _ _ _ Hx), !rbind_ret.
  rewrite (hw_deleted _ (lo_wf _ _ (io_links _ _ Hix)) (io_deleted _ _ Hix) _ _ Hx). apply copy_data_all.
Qed.

Lemma addPoint_known g data label (id : tableint) curlevel v :
  index_ok M_ g -> label_lookup_ g !! label = Some id -> (forall k, clean g (v k)) ->
  exists g', addPoint fstdistfunc_ FLT_MAX M_ ef_construction_ g data label curlevel v = Ok g' /\
    point_updated g id data label g' /\ getDataByLabel g' (length data) label = Ok data.
Proof.
  intros Hix Hl Hcl. pose proof Hl as (x & Hx & <-)%(io_labels _ _ Hix).
  unfold addPoint, isMarkedDeleted. rewrite Hl, (aget_Ok _ _ _ Hx), rbind_ret.
  rewrite (hw_deleted _ (lo_wf _ _ (io_links _ _ Hix)) (io_deleted _ _ Hix) _ _ Hx), rbind_ret, rbind_ret.
  destruct (updatePoint_ok g id x data v Hix Hx Hcl) as (g' & -> & Hu). exists g'. split_and!; [done|done|].
  apply (getDataByLabel_ok g' id); [apply Hu|]. rewrite (pu_points _ _ _ _ _ Hu). apply zget_zset_eq.
  unfold points. rewrite zlen_fmap. by eapply zget_bounds.
Qed.

Lemma addPoint_new g data label curlevel v :
  index_ok M_ g -> label_lookup_ g !! label = None -> cur_element_count g < max_elements_ g ->
  0 <= curlevel -> (forall k, clean g (v k)) ->
  exists g', addPoint fstdistfunc_ FLT_MAX M_ ef_construction_ g data label curlevel v = Ok g' /\
    point_added M_ g data label curlevel g' /\ getDataByLabel g' (length data) label = Ok data.
Proof.
  intros Hix Hl Hlt Hlv Hcl.
  destruct (addPoint_ok fstdistfunc_ FLT_MAX M_ ef_construction_ HM Hef g data label curlevel v) as (g' & Hg' & Hp); try done.
  exists g'. split_and!; [done|done|]. apply (getDataByLabel_ok g' (zlen (points g))); [apply Hp|].
  rewrite (pa_points _ _ _ _ _ _ Hp). apply zget_middle.
Qed.
End update.

(** ** Deletion marks and capacity *)

(** The counter of deleted elements, and labels of elements that exist. *)
Record marks_ok (g : HierarchicalNSW) : Prop := {
  mo_count : num_deleted_ g = zlen (filter (fun x => e_deleted x = true) (elements g));
  mo_size : cur_element_count g < 18446744073709551616;
  mo_labels : forall label (id : tableint), label_lookup_ g !! label = Some id -> is_Some (zget (elements g) id)
}.

Lemma set_mark_ok g id x b n :
  zget (elements g) id = Some x -> 0 <= n < 18446744073709551616 ->
  set_mark g id b n = Ok (mk_graph (max_elements_ g) n (maxlevel_ g) (enterpoint_node_ g)
    (zset (elements g) id (mk_element (e_data x) (e_label x) b (e_links x))) (label_lookup_ g)).
Proof.
  intros Hx Hn. unfold set_mark. rewrite (aget_Ok _ _ _ Hx), rbind_ret, aset_Ok by (by eapply zget_bounds).
  rewrite rbind_ret. unfold uint64. by rewrite Z.mod_small.
Qed.

Lemma zset_middle {A} (l1 l2 : list A) x y : zset (l1 ++ x :: l2) (zlen l1) y = l1 ++ y :: l2.
Proof.
  unfold zset, zlen. destruct (Z.leb_spec 0 (Z.of_nat (length l1))); [|lia].
  rewrite Nat2Z.id, insert_app_r_alt, Nat.sub_diag by done. done.
Qed.

(** Setting the mark of one element changes the count by one. *)
Lemma filter_marked (l : list element) id x y :
  zget l id = Some x -> e_deleted x = false -> e_deleted y = true ->
  zlen (filter (fun x => e_deleted x = true) (zset l id y)) = zlen (filter (fun x => e_deleted x = true) l) + 1.
Proof.
  intros Hx Hd Hy. destruct (zget_split l id x Hx) as (l1 & l2 & -> & <-).
  rewrite zset_middle, !filter_app, filter_cons_True, filter_cons_False, !zlen_app, zlen_cons by congruence. lia.
Qed.

(** Marking a known label deleted: an unknown label and a marked element are
    errors; otherwise the counter stays the number of marked elements, the
    vector can no longer be read, a second deletion is an error, and
    unmarking restores the index. *)
Lemma delete_undelete g (label : labeltype) dim :
  marks_ok g ->
  match label_lookup_ g !! label with
  | None => markDelete g label = Error "Label not found"
  | Some id => exists x, zget (elements g) id = Some x /\
    if e_deleted x then markDelete g label = Error "The requested to delete element is already deleted"
    else exists g', markDelete g label = Ok g' /\ marks_ok g' /\ isMarkedDeleted g' id = Ok true /\
      num_deleted_ g' <> 0 /\ getDataByLabel g' dim label = Error "Label not found" /\ unmarkDelete g' label = Ok g
  end.
Proof.
  intros [Hc Hsz Hl]. unfold markDelete, unmarkDelete, getDataByLabel.
  destruct (label_lookup_ g !! label) as [id|] eqn:Hid; [|done].
  destruct (Hl label id Hid) as [x Hx]. exists x. split; [done|]. pose proof (zget_bounds _ _ _ Hx) as Hb.
  unfold markDeletedInternal, isMarkedDeleted. rewrite (aget_Ok _ _ _ Hx), !rbind_ret.
  destruct (e_deleted x) eqn:Hd; cbn [negb]; [done|].
  pose proof (filter_marked _ _ _ (mk_element (e_data x) (e_label x) true (e_links x)) Hx Hd ltac:(done)) as Hf.
  pose proof (zlen_nonneg (filter (fun x => e_deleted x = true) (elements g))) as H0.
  pose proof (length_filter (fun x => e_deleted x = true)
    (zset (elements g) id (mk_element (e_data x) (e_label x) true (e_links x)))) as Hlen.
  apply Nat2Z.inj_le in Hlen. fold (zlen (filter (fun x => e_deleted x = true)
    (zset (elements g) id (mk_element (e_data x) (e_label x) true (e_links x))))) in Hlen.
  fold (zlen (zset (elements g) id (mk_element (e_data x) (e_label x) true (e_links x)))) in Hlen.
  rewrite zlen_zset in Hlen. unfold cur_element_count in Hsz.
  rewrite (set_mark_ok g id x true (num_deleted_ g + 1) Hx ltac:(lia)).
  set (g' := mk_graph _ _ _ _ _ _). exists g'.
  assert (Hx' : zget (elements g') id = Some (mk_element (e_data x) (e_label x) true (e_links x))).
  { by apply zget_zset_eq. }
  rewrite (aget_Ok _ _ _ Hx'), !rbind_ret. cbn [e_deleted]. unfold unmarkDeletedInternal, isMarkedDeleted.
  assert (label_lookup_ g' !! label = Some (id : tableint)) as -> by exact Hid.
  rewrite (aget_Ok _ _ _ Hx'), rbind_ret. cbn [e_deleted].
  split_and!; [done| |done|cbn; lia|done|].
  - split; [cbn [num_deleted_ g' elements]; lia| |].
    + unfold cur_element_count. cbn. by rewrite zlen_zset.
    + intros lb i Hi%Hl. cbn. destruct (decide (i = id)) as [-> |Hne]; [by eexists|]. by rewrite zget_zset_ne.
  - rewrite rbind_ret, (set_mark_ok g' id _ false _ Hx') by (cbn; lia). cbn. rewrite zset_zset_eq, <- Hd.
    rewrite zset_id; [|by destruct x]. rewrite Z.add_simpl_r. by destruct g.
Qed.

(** A resized index is intact; it cannot shrink below its elements. *)
Lemma resize_ok M_ g n :
  index_ok M_ g -> n <= 4294967295 ->
  if n <? cur_element_count g
  then resizeIndex g n = Error "Cannot resize, max element is less than the current number of elements"
  else exists g', resizeIndex g n = Ok g' /\ index_ok M_ g' /\ points g' = points g /\ max_elements_ g' = n.
Proof.
  intros [[[H1 H2 H3 H4 H5] H6 H7 H8] H9 H10 H11 H12 H13] Hn. unfold resizeIndex.
  destruct (Z.ltb_spec n (cur_element_count g)); [done|].
  eexists. split; [reflexivity|]. split_and!; [|done|done].
  split; [split; [split|..]|..]; done.
Qed.

(** ** The integrity check refuses intact indexes *)

Section integrity.
Context `{US : UnorderedSet}.

(** Every failure of the check is a failed assertion. *)
Lemma check_links_ends count i data inbound :
  check_links count i data inbound = Crash \/ exists inbound', check_links count i data inbound = Ok inbound' /\ 0 ∉ data.
Proof.
  revert inbound. induction data as [|x data IH]; intros inbound; cbn [check_links].
  { right. exists inbound. split; [done|apply not_elem_of_nil]. }
  destruct (x >? 0) eqn:Hx; cbn [negb]; [|by left]. destruct (x <? count); cbn [negb]; [|by left].
  destruct (x =? i); [by left|]. unfold aget, aset. destruct (zget inbound x) as [n|]; cbn; [|by left].
  destruct (_ && _); cbn; [|by left]. destruct (IH (zset inbound x (n + 1))) as [|(out & -> & H0)]; [by left|].
  right. exists out. split; [done|]. apply not_elem_of_cons. split; [|done]. intros <-. done.
Qed.

Lemma check_element_ends count i links inbound n :
  check_element count i links inbound n = Crash \/
  exists out, check_element count i links inbound n = Ok out /\ Forall (fun data => 0 ∉ data) links.
Proof.
  revert inbound n. induction links as [|data links IH]; intros inbound n; cbn [check_element].
  { right. by eexists. }
  destruct (check_links_ends count i data inbound) as [-> |(inbound' & -> & H0)]; cbn; [by left|].
  destruct (_ =? _); [|by left]. destruct (IH inbound' (n + zlen data)) as [|(out & -> & Hl)]; [by left|].
  right. exists out. split; [done|by constructor].
Qed.

Lemma check_elements_ends count i els inbound n :
  check_elements count i els inbound n = Crash \/
  exists out, check_elements count i els inbound n = Ok out /\
    Forall (fun x => Forall (fun data => 0 ∉ data) (e_links x)) els.
Proof.
  revert i inbound n. induction els as [|x els IH]; intros i inbound n; cbn [check_elements].
  { right. by eexists. }
  destruct (check_element_ends count i (e_links x) inbound n) as [-> |([inb' n'] & -> & H0)]; cbn; [by left|].
  destruct (IH (i + 1) inb' n') as [|(out & -> & Hl)]; [by left|].
  right. exists out. split; [done|by constructor].
Qed.

(** A link to the first element, whose number is 0, fails the check. *)
Lemma checkIntegrity_zero g id level : 0 ∈ links_at g id level -> checkIntegrity g = Crash.
Proof.
  intros Hin. unfold checkIntegrity.
  destruct (check_elements_ends (cur_element_count g) 0 (elements g) (replicate (Z.to_nat (cur_element_count g)) 0) 0)
    as [-> |(out & _ & Hall)]; [done|]. exfalso.
  unfold links_at in Hin. destruct (zget (elements g) id) as [x|] eqn:Hx; [|by apply not_elem_of_nil in Hin].
  destruct (zget (e_links x) level) as [data|] eqn:Hd; [|by apply not_elem_of_nil in Hin].
  apply zget_elem in Hx, Hd. rewrite Forall_forall in Hall. specialize (Hall x Hx).
  rewrite Forall_forall in Hall. by specialize (Hall data Hd).
Qed.

(** Every index of two points is refused, although it keeps the invariant. *)
Lemma checkIntegrity_two_points M_ g data label curlevel g' :
  point_added M_ g data label curlevel g' -> cur_element_count g = 1 -> 0 <= curlevel -> 0 <= maxlevel_ g ->
  index_ok M_ g' /\ checkIntegrity g' = Crash.
Proof.
  intros Hp Hc Hlv Hm. pose proof (pa_index _ _ _ _ _ _ Hp) as Hix. split; [done|].
  pose proof (pa_links _ _ _ _ _ _ Hp 0 ltac:(lia)) as Hne. rewrite Hc in Hne.
  destruct (links_at g' 1 0) as [|nb l] eqn:Hl; [done|].
  assert (Hin : nb ∈ links_at g' 1 0) by (rewrite Hl; by left).
  pose proof (hw_links _ (lo_wf _ _ (io_links _ _ Hix)) _ _ _ Hin) as Hv%on_level_valid.
  assert (nb <> 1) by (intros ->; by apply (lo_self _ _ (io_links _ _ Hix)) in Hin).
  assert (Hcount : cur_element_count g' = 2).
  { pose proof (f_equal zlen (pa_points _ _ _ _ _ _ Hp)) as E. unfold points in E.
    rewrite zlen_app, !zlen_fmap in E. unfold cur_element_count in *. rewrite E, Hc. done. }
  assert (nb = 0) as -> by lia. by eapply checkIntegrity_zero.
Qed.
End integrity.

(** ** Properties *)

(** C4. Adding a point to an index in which no element is marked deleted
    (part of [index_ok]), with [M] at most 32767 so that link counts fit their
    16 bits.  Under a label the index does not know, [addPoint] fails exactly
    when the index is full, with its error; otherwise it ends without an error
    (none of the errors of [mutuallyConnectNewElement], no access out of
    bounds), keeps the invariant of the index (links lead to elements of their
    level, at most [M] or [2 M] of them, none twice and none to the element
    itself; labels lead to their elements; the entry point is on the top
    level; nothing is deleted), leaves every other point as it was, and
    appends the new one, which is linked on every level it shares with the
    rest of the index.  Under a known label it never fails: it replaces the
    vector, keeps the invariant, the other points, the levels and the entry
    point, and the element stays linked wherever it was.  Either way the
    vector is found under its label afterwards. *)
Theorem hnsw_add_point `{PriorityQueue} `{UnorderedSet} fstdistfunc_ FLT_MAX M_ ef_construction_
    g data label curlevel v :
  1 <= M_ <= 32767 -> 1 <= ef_construction_ -> index_ok M_ g -> 0 <= curlevel -> (forall n, clean g (v n)) ->
  match label_lookup_ g !! label with
  | Some id => exists g',
    addPoint fstdistfunc_ FLT_MAX M_ ef_construction_ g data label curlevel v = Ok g' /\
    point_updated M_ g id data label g' /\ getDataByLabel g' (length data) label = Ok data
  | None =>
    if cur_element_count g >=? max_elements_ g then
      addPoint fstdistfunc_ FLT_MAX M_ ef_construction_ g data label curlevel v =
        Error "The number of elements exceeds the specified limit"
    else exists g',
      addPoint fstdistfunc_ FLT_MAX M_ ef_construction_ g data label curlevel v = Ok g' /\
      point_added M_ g data label curlevel g' /\ getDataByLabel g' (length data) label = Ok data
  end.
Proof.
  intros HM Hef Hix Hlv Hcl. destruct (label_lookup_ g !! label) as [id|] eqn:Hl; [by apply addPoint_known|].
  destruct (_ >=? _) eqn:Hfull.
  - unfold addPoint. by rewrite Hl, Hfull.
  - apply addPoint_new; try done. rewrite Z.geb_leb in Hfull. by apply Z.leb_gt in Hfull.
Qed.

(** A point at 10 on two levels and one at 20. *)
Definition demo_add (g : HierarchicalNSW) (x label curlevel : Z) : res HierarchicalNSW :=
  addPoint line_dist 1000 2 4 g [x] label curlevel (fun _ => mk_vl 3 [0; 2; 1; 0]).

Definition demo_two_points : HierarchicalNSW :=
  match (do! g <- demo_add (new_index 4) 10 100 1 ;; demo_add g 20 101 0) with Ok g => g | _ => new_index 4 end.

Lemma demo_two_points_ok : index_ok 2 demo_two_points.
Proof.
  assert (Hstep : forall g x label curlevel, index_ok 2 g -> max_elements_ g = 4 -> label_lookup_ g !! label = None ->
    cur_element_count g < 4 -> 0 <= curlevel ->
    exists g', demo_add g x label curlevel = Ok g' /\ index_ok 2 g').
  { intros g x label curlevel Hix Hmax Hl Hc Hlv.
    destruct (addPoint_ok line_dist 1000 2 4 ltac:(lia) ltac:(lia) g [x] label curlevel
      (fun _ => mk_vl 3 [0; 2; 1; 0]) Hix Hl ltac:(lia) Hlv) as (g' & Hg' & Hp).
    - intros _. split; [by rewrite Hmax|]. apply (bool_decide_unpack _). vm_compute. exact I.
    - exists g'. split; [done|apply Hp]. }
  destruct (Hstep (new_index 4) 10 100 1) as (g1 & H1 & I1); try done; [apply new_index_ok; lia|].
  destruct (Hstep g1 20 101 0) as (g2 & H2 & I2); try done.
  1-3: vm_compute in H1; injection H1 as <-; done.
  unfold demo_two_points. by rewrite H1, rbind_ret, H2.
Qed.

(** A third point, and the second one moved. *)
Lemma hnsw_add_point_witness :
  (exists g', addPoint line_dist 1000 2 4 demo_two_points [30] 102 1 (fun _ => mk_vl 3 [0; 2; 1; 0]) = Ok g' /\
    point_added 2 demo_two_points [30] 102 1 g' /\ getDataByLabel g' 1 102 = Ok [30]) /\
  (exists g', addPoint line_dist 1000 2 4 demo_two_points [5] 101 1 (fun _ => mk_vl 3 [0; 2; 1; 0]) = Ok g' /\
    point_updated 2 demo_two_points 1 [5] 101 g' /\ getDataByLabel g' 1 101 = Ok [5]).
Proof.
  assert (Hcl : nat -> clean demo_two_points (mk_vl 3 [0; 2; 1; 0])).
  { intros _. split; [vm_compute; reflexivity|]. apply (bool_decide_unpack _). vm_compute. exact I. }
  split.
  - exact (hnsw_add_point line_dist 1000 2 4 demo_two_points [30] 102 1 (fun _ => mk_vl 3 [0; 2; 1; 0])
      ltac:(lia) ltac:(lia) demo_two_points_ok ltac:(lia) Hcl).
  - exact (hnsw_add_point line_dist 1000 2 4 demo_two_points [5] 101 1 (fun _ => mk_vl 3 [0; 2; 1; 0])
      ltac:(lia) ltac:(lia) demo_two_points_ok ltac:(lia) Hcl).
Defined.

(** The index after three points, and after the first of them has moved past
    the others. *)
Example demo_three_points :
  (do! g <- demo_add demo_two_points 30 102 1 ;; Ok (e_links <$> elements g, enterpoint_node_ g)) =
  Ok ([[[1]; [2]]; [[0; 2]]; [[1]; [0]]], 0).
Proof. vm_compute. reflexivity. Qed.

Example demo_point_moved :
  (do! g <- demo_add demo_two_points 30 102 1 ;; do! g <- demo_add g 40 100 0 ;;
   Ok (e_links <$> elements g, e_data <$> elements g, enterpoint_node_ g)) =
  Ok ([[[2]; [2]]; [[0; 2]]; [[1; 0]; [0]]], [[40]; [20]; [30]], 0).
Proof. vm_compute. reflexivity. Qed.
