(* ===== verification/Double.v ===== *)
(** * Doubles used as counters

    The index builders count rows in a [double].  Doubles are IEEE binary64
    numbers (the Standard Library's [SpecFloat]); a counter that starts at
    zero is exact below 2^53, one that starts at any other value rounds. *)

From Stdlib Require Import ZArith Lia.
From Stdlib Require Floats.SpecFloat.
From stdpp Require Import base list.
From S2P Require Import Prelude.

Local Open Scope Z_scope.

(** ** The type *)

Definition double : Type := SpecFloat.spec_float.
Definition double_add : double -> double -> double := SpecFloat.SFadd 53 1024.
Definition double_zero : double := SpecFloat.S754_zero false.
Definition double_one : double := SpecFloat.S754_finite false 4503599627370496 (-52).

(** Conversion to [size_t]: the fraction is dropped; what does not fit is
    undefined. *)
Definition double_to_size_t (d : double) : res Z :=
  match d with
  | SpecFloat.S754_zero _ => Ok 0
  | SpecFloat.S754_finite s m e =>
    let t := SpecFloat.cond_Zopp s (Z.shiftl (Zpos m) e) in
    if (0 <=? t) && (t <? 18446744073709551616) then Ok t else Crash
  | _ => Crash
  end.

Section exact_counts.
Import SpecFloat.

Abbreviation shifted p n := (Nat.iter n xO p).

Lemma iter_pos_nat {A} (f : A -> A) n x : iter_pos f n x = Nat.iter (Pos.to_nat n) f x.
Proof.
  revert x. induction n as [n IH|n IH|]; intros x; cbn [iter_pos]; [..|done].
  - rewrite !IH, Pos2Nat.inj_xI, Nat.iter_succ_r, <- Nat.iter_add. f_equal. lia.
  - rewrite !IH, Pos2Nat.inj_xO, <- Nat.iter_add. f_equal. lia.
Qed.

Lemma digits_shifted p n : Zpos (digits2_pos (shifted p n)) = Zpos (digits2_pos p) + Z.of_nat n.
Proof.
  induction n as [|n IH]; [cbn; lia|]. rewrite Nat.iter_succ. cbn [digits2_pos]. rewrite Pos2Z.inj_succ. lia.
Qed.

Lemma shifted_value p n : Zpos (shifted p n) = Zpos p * 2 ^ Z.of_nat n.
Proof.
  induction n as [|n IH]; [cbn; lia|]. rewrite Nat.iter_succ, Pos2Z.inj_xO, IH, Nat2Z.inj_succ, Z.pow_succ_r by lia. lia.
Qed.

(** Bits below the mantissa that are zero are shifted out without loss. *)
Lemma shr_shifted p n :
  Nat.iter n shr_1 (Build_shr_record (Zpos (shifted p n)) false false) = Build_shr_record (Zpos p) false false.
Proof. induction n as [|n IH]; [done|]. rewrite Nat.iter_succ_r, Nat.iter_succ. exact IH. Qed.

Lemma shl_align_shifted p e n : shl_align p e (e - Z.of_nat n) = (shifted p n, e - Z.of_nat n).
Proof.
  unfold shl_align. replace (e - Z.of_nat n - e) with (- Z.of_nat n) by lia.
  destruct n as [|n]; [cbn; f_equal; lia|]. change (- Z.of_nat (S n)) with (Zneg (Pos.of_succ_nat n)).
  change (@PosDef.Pos.iter) with (@Pos.iter). cbv iota. by rewrite Pos2Nat.inj_iter, SuccNat2Pos.id_succ.
Qed.

(** The number of bits. *)
Definition bits (p : positive) : nat := Pos.to_nat (digits2_pos p).

(** A positive integer below 2^53. *)
Definition double_pos (p : positive) : double :=
  S754_finite false (shifted p (53 - bits p)) (Z.of_nat (bits p) - 53).

(** Rounding leaves [p], given with superfluous low bits, as it is. *)
Lemma round_shifted p n :
  (bits p <= 53)%nat -> (53 - bits p <= n <= 52)%nat ->
  binary_round 53 1024 false (shifted p n) (- Z.of_nat n) = double_pos p.
Proof.
  intros Hb Hn. unfold binary_round. rewrite digits_shifted.
  assert (Hd : Zpos (digits2_pos p) = Z.of_nat (bits p)) by (unfold bits; lia). rewrite Hd.
  assert (Hf : fexp 53 1024 (Z.of_nat (bits p) + Z.of_nat n + - Z.of_nat n) = Z.of_nat (bits p) - 53).
  { unfold fexp, emin. lia. }
  rewrite Hf.
  assert (shl_align (shifted p n) (- Z.of_nat n) (Z.of_nat (bits p) - 53) = (shifted p n, - Z.of_nat n)) as ->.
  { unfold shl_align. destruct (Z.of_nat (bits p) - 53 - - Z.of_nat n) eqn:E; [done|done|lia]. }
  unfold binary_round_aux, shr_fexp. cbn [Zdigits2]. rewrite digits_shifted, Hd, Hf. cbn [shr_record_of_loc].
  set (k := (n - (53 - bits p))%nat).
  assert (Hsplit : shifted p n = shifted (shifted p (53 - bits p)) k).
  { rewrite <- Nat.iter_add. f_equal. unfold k. lia. }
  replace (Z.of_nat (bits p) - 53 - - Z.of_nat n) with (Z.of_nat k) by (unfold k; lia).
  assert (Hshr : shr (Build_shr_record (Zpos (shifted p n)) false false) (- Z.of_nat n) (Z.of_nat k) =
    (Build_shr_record (Zpos (shifted p (53 - bits p))) false false, Z.of_nat (bits p) - 53)).
  { rewrite Hsplit. unfold shr. destruct k as [|k'] eqn:Ek.
    - cbn. f_equal. unfold k in Ek. lia.
    - change (Z.of_nat (S k')) with (Zpos (Pos.of_succ_nat k')). cbv iota beta. rewrite iter_pos_nat, SuccNat2Pos.id_succ, shr_shifted. f_equal. unfold k in Ek. lia. }
  rewrite Hshr. cbn [shr_m loc_of_shr_record round_nearest_even].
  cbn [Zdigits2]. rewrite digits_shifted, Hd.
  replace (fexp 53 1024 (Z.of_nat (bits p) + Z.of_nat (53 - bits p) + (Z.of_nat (bits p) - 53)) - (Z.of_nat (bits p) - 53)) with 0
    by (unfold fexp, emin; lia).
  cbn [shr shr_m]. destruct (Z.leb_spec (Z.of_nat (bits p) - 53) (1024 - 53)); [done|lia].
Qed.

Lemma bits_le p n : Zpos p < 2 ^ Z.of_nat n -> (bits p <= n)%nat.
Proof.
  revert n. induction p as [p IH|p IH|]; intros [|n] Hp; try (cbn in *; lia); unfold bits in *; cbn [digits2_pos];
    rewrite ?Pos2Nat.inj_succ, ?Nat2Z.inj_succ, ?Z.pow_succ_r in * by lia.
  - specialize (IH n ltac:(lia)). lia.
  - specialize (IH n ltac:(lia)). lia.
  - cbn. lia.
Qed.

Lemma double_pos_succ p : Zpos p + 1 < 2 ^ 53 -> double_add (double_pos p) double_one = double_pos (Pos.succ p).
Proof.
  intros Hp. assert (H1 : (1 <= bits p)%nat) by (unfold bits; lia).
  pose proof (bits_le p 53 ltac:(lia)) as Hb. pose proof (bits_le (Pos.succ p) 53 ltac:(lia)) as Hb'.
  unfold double_add, double_pos, double_one, SFadd.
  replace (Z.min (Z.of_nat (bits p) - 53) (-52)) with (Z.of_nat (bits p) - 53 - Z.of_nat (bits p - 1)) by lia.
  rewrite shl_align_shifted. cbn [fst].
  replace (Z.of_nat (bits p) - 53 - Z.of_nat (bits p - 1)) with (- Z.of_nat 52) by lia.
  assert (fst (shl_align 4503599627370496 (-52) (- Z.of_nat 52)) = shifted 1%positive 52) as -> by reflexivity.
  rewrite <- Nat.iter_add. replace (bits p - 1 + (53 - bits p))%nat with 52%nat by lia. cbn [cond_Zopp].
  assert (Zpos (shifted p 52) + Zpos (shifted 1%positive 52) = Zpos (shifted (Pos.succ p) 52)) as ->.
  { rewrite !shifted_value, Pos2Z.inj_succ. ring. }
  cbn [binary_normalize]. apply round_shifted; [done|]. unfold bits in *. lia.
Qed.

Lemma double_pos_size_t p : Zpos p < 2 ^ 53 -> double_to_size_t (double_pos p) = Ok (Zpos p).
Proof.
  intros Hp. pose proof (bits_le p 53 ltac:(lia)) as Hb. unfold double_to_size_t, double_pos. cbn [cond_Zopp].
  assert (Z.shiftl (Zpos (shifted p (53 - bits p))) (Z.of_nat (bits p) - 53) = Zpos p) as ->.
  { replace (Z.of_nat (bits p) - 53) with (- Z.of_nat (53 - bits p)) by lia.
    rewrite Z.shiftl_opp_r, Z.shiftr_div_pow2, shifted_value by lia. apply Z.div_mul. lia. }
  destruct (Z.leb_spec 0 (Zpos p)); [|lia]. by destruct (Z.ltb_spec (Zpos p) 18446744073709551616); [|lia].
Qed.
End exact_counts.

(** [d] after [n] increments. *)
Definition counted (d : double) (n : nat) : double := Nat.iter n (fun d => double_add d double_one) d.

(** A counter that starts at zero is exact. *)
Lemma counted_zero n : Z.of_nat n < 2 ^ 53 -> double_to_size_t (counted double_zero n) = Ok (Z.of_nat n).
Proof.
  assert (Hc : forall k, Z.of_nat (S k) < 2 ^ 53 -> counted double_zero (S k) = double_pos (Pos.of_succ_nat k)).
  { unfold counted. induction k as [|k IH]; intros Hk; [reflexivity|]. rewrite Nat.iter_succ, IH by lia.
    rewrite double_pos_succ by lia. done. }
  destruct n as [|n]; [done|]. intros Hn. rewrite Hc by done. rewrite double_pos_size_t; [done|lia].
Qed.
