(* ===== verification/IndexBuild.v ===== *)
(** * hnswindex_builder.cpp, index_builder.cpp: building an index

    [CREATE INDEX] scans the table and hands each row to a callback of the
    builder.  The HNSW builder (and PASE's, which is a copy of it) reads the
    table twice: once to find the dimension and count the rows, once to insert
    them; the SPTAG builder reads it once and collects the vectors and, as
    their metadata, the heap positions. *)

From Stdlib Require Import ZArith Lia.
From Stdlib Require Floats.SpecFloat.
From stdpp Require Import base list sorting strings gmap fin_maps.
From S2P Require Import Prelude Double IndexAm HnswScan SptagScan HnswGraph HnswTraversal HnswKnn HnswInsert HnswInsertTheory.

Local Open Scope Z_scope.
Set Warnings "-clear-no-such-hyp".

(** A row of the table as the scan reports it: its heap position and the
    array to index, NULL or its elements. *)
Record table_row := mk_trow {
  r_blkno : Z;
  r_offnum : Z;
  r_array : option (list Z)
}.

(** [table_index_build_scan]: the callback on every row, in table order. *)
Fixpoint table_index_build_scan {S} (callback : table_row -> S -> res S) (rows : list table_row) (s : S)
    : res S :=
  match rows with
  | [] => Ok s
  | r :: rows => do! s <- callback r s ;; table_index_build_scan callback rows s
  end.

(** [static_cast<size_t>(m_numDimension) != array.size()]. *)
Definition wrong_length (m_numDimension : Z) (array : list Z) : bool :=
  negb (uint64 m_numDimension =? zlen array).

(** The dimension is that of the first array seen while it is zero. *)
Definition note_dimension (m_numDimension : Z) (array : list Z) : Z :=
  if m_numDimension =? 0 then int32 (zlen array) else m_numDimension.

(** ** The HNSW builder *)

Section hnsw.
Context `{PQ : PriorityQueue} `{US : UnorderedSet}.
(** The builder always asks for the L2 distance ([DistanceMethod::L2] of
    [hnsw_build]), whatever the index is searched with. *)
Variable fstdistfunc_ : list Z -> list Z -> Z.
Variable FLT_MAX : Z.
(** The level drawn for each element, and the visited lists the pool hands
    out while it is inserted. *)
Variable levels : tableint -> Z.
Variable lists : tableint -> nat -> VisitedList.

(** [M = 16] and [ef_construction = 200] of the constructor. *)
Definition build_M : Z := 16.
Definition build_ef_construction : Z := Z.max 200 build_M.

Record HNSWIndexBuilder := mk_builder { m_numDimension : Z; m_indtuples : double }.

Definition HNSWComputeElementsCallback (r : table_row) (self : HNSWIndexBuilder) : res HNSWIndexBuilder :=
  match r_array r with
  | None => Ok self
  | Some array =>
    let dim := note_dimension (m_numDimension self) array in
    if wrong_length dim array then Error "inconsistent array length"
    else Ok (mk_builder dim (double_add (m_indtuples self) double_one))
  end.

Definition HNSWLoadTupleCallback (dim : Z) (r : table_row) (vector_index : HierarchicalNSW)
    : res HierarchicalNSW :=
  match r_array r with
  | None => Ok vector_index
  | Some array =>
    if wrong_length dim array then Error "inconsistent array length"
    else
      let number := tuple_label (r_blkno r) (r_offnum r) in
      let id := cur_element_count vector_index in
      addPoint fstdistfunc_ FLT_MAX build_M build_ef_construction vector_index array number
        (levels id) (lists id)
  end.

(** [m_indtuples] is not initialized: [junk] is what it holds at first. *)
Definition ConstructInternalBuilder (rows : list table_row) (junk : double)
    : res (HNSWIndexBuilder * HierarchicalNSW) :=
  do! self <- table_index_build_scan HNSWComputeElementsCallback rows (mk_builder 0 junk) ;;
  do! max_elements <- double_to_size_t (m_indtuples self) ;;
  Ok (self, new_index max_elements).

(** The index and the number of index tuples reported. *)
Definition hnsw_build (rows : list table_row) (junk : double) : res (HierarchicalNSW * double) :=
  do! ' (self, vector_index) <- ConstructInternalBuilder rows junk ;;
  do! vector_index <-
    table_index_build_scan (HNSWLoadTupleCallback (m_numDimension self)) rows vector_index ;;
  Ok (vector_index, m_indtuples self).
End hnsw.

(** ** The SPTAG builder *)

Record IndexBuilder := mk_ibuilder {
  ib_numDimension : Z;
  m_vectorData : list Z;
  m_metadata : list (Z * Z)
}.

Definition LoadTupleCallback (r : table_row) (self : IndexBuilder) : res IndexBuilder :=
  match r_array r with
  | None => Ok self
  | Some array =>
    let dim := note_dimension (ib_numDimension self) array in
    if wrong_length dim array then Error "inconsistent array length"
    else Ok (mk_ibuilder dim (m_vectorData self ++ array)
               (m_metadata self ++ [(r_blkno r, r_offnum r)]))
  end.

(** An unsigned division; dividing by zero ends the process. *)
Definition VectorCount (self : IndexBuilder) : res Z :=
  let d := uint64 (ib_numDimension self) in
  if d =? 0 then Crash else Ok (zlen (m_vectorData self) / d).

(** [BasicVectorSet(data, Float, dimension, count)]. *)
Record VectorSet := mk_vset { vs_data : list Z; vs_dimension : Z; vs_count : Z }.

Definition GetVectorSet (self : IndexBuilder) : res VectorSet :=
  do! n <- VectorCount self ;; Ok (mk_vset (m_vectorData self) (ib_numDimension self) n).

(** Eight bytes for each row. *)
Definition GetMetadataSet (self : IndexBuilder) : res (list (list Z)) :=
  do! _ <- VectorCount self ;;
  Ok ((fun p => le_bytes 8 (tuple_label (fst p) (snd p))) <$> m_metadata self).

(** What [sptag_build] hands to the library's [BuildIndex]: vector [i] of the
    set with metadata [i]. *)
Definition sptag_build (rows : list table_row) : res (VectorSet * list (list Z)) :=
  do! self <- table_index_build_scan LoadTupleCallback rows (mk_ibuilder 0 [] []) ;;
  do! vector <- GetVectorSet self ;;
  do! metadata <- GetMetadataSet self ;;
  Ok (vector, metadata).

(** Vector [i] of a set. *)
Definition vector_at (set : VectorSet) (i : Z) : list Z :=
  ztake (vs_dimension set) (zdrop (i * vs_dimension set) (vs_data set)).

(** ** The dimension check *)

Definition arrays (rows : list table_row) : list (list Z) := omap r_array rows.

Lemma arrays_cons r rows :
  arrays (r :: rows) = match r_array r with Some a => a :: arrays rows | None => arrays rows end.
Proof. unfold arrays. cbn. by destruct (r_array r). Qed.

(** A row PostgreSQL can hold: a heap position, an array within its limit of
    elements. *)
Definition row_ok (r : table_row) : Prop :=
  0 <= r_blkno r < 4294967296 /\ 0 <= r_offnum r < 65536 /\
  forall a, r_array r = Some a -> zlen a <= 134217727.

(** The dimension after a scan that starts with [d], unless a length is
    wrong. *)
Fixpoint scan_dimension (d : Z) (vs : list (list Z)) : option Z :=
  match vs with
  | [] => Some d
  | v :: vs => let d := if d =? 0 then zlen v else d in
      if d =? zlen v then scan_dimension d vs else None
  end.

Definition all_length (d : Z) (vs : list (list Z)) : bool := forallb (fun v => zlen v =? d) vs.

(** Without the empty arrays at the beginning. *)
Fixpoint skip_empty (vs : list (list Z)) : list (list Z) :=
  match vs with [] :: vs => skip_empty vs | _ => vs end.

Lemma scan_dimension_set d vs : d <> 0 -> scan_dimension d vs = if all_length d vs then Some d else None.
Proof.
  intros Hd. induction vs as [|v vs IH]; cbn; [done|]. destruct (Z.eqb_spec d 0); [done|].
  rewrite (Z.eqb_sym (zlen v)). by destruct (d =? zlen v).
Qed.

Lemma scan_dimension_0 vs :
  scan_dimension 0 vs =
  match skip_empty vs with
  | [] => Some 0
  | v :: _ => if all_length (zlen v) (skip_empty vs) then Some (zlen v) else None
  end.
Proof.
  induction vs as [|[|x v] vs IH]; [done|exact IH|]. cbn [skip_empty scan_dimension].
  set (w := x :: v) in *. assert (Hw : zlen w <> 0).
  { unfold w. rewrite zlen_cons. pose proof (zlen_nonneg v). lia. }
  change (0 =? 0) with true. cbv iota. rewrite Z.eqb_refl, scan_dimension_set by done.
  unfold all_length. cbn [forallb]. by rewrite Z.eqb_refl.
Qed.

Lemma wrong_length_ok d v : 0 <= d <= 134217727 -> wrong_length d v = negb (d =? zlen v).
Proof. intros Hd. unfold wrong_length, uint64. by rewrite Z.mod_small by lia. Qed.

Lemma note_dimension_ok d v :
  0 <= d <= 134217727 -> zlen v <= 134217727 ->
  note_dimension d v = (if d =? 0 then zlen v else d) /\ 0 <= note_dimension d v <= 134217727.
Proof.
  intros Hd Hv. pose proof (zlen_nonneg v). unfold note_dimension.
  rewrite int32_id by (unfold is_int32, INT_MIN, INT_MAX; lia). destruct (d =? 0); split; try done; lia.
Qed.

(** A scan whose callback checks the length and then extends its state. *)
Lemma checked_scan {S} (callback : table_row -> S -> res S) (dim : S -> Z) (add : table_row -> list Z -> Z -> S -> S) rows s :
  Forall row_ok rows -> 0 <= dim s <= 134217727 ->
  (forall r a d s, dim (add r a d s) = d) ->
  (forall r s, callback r s = match r_array r with
     | None => Ok s
     | Some a => let d := note_dimension (dim s) a in
         if wrong_length d a then Error "inconsistent array length" else Ok (add r a d s)
     end) ->
  match scan_dimension (dim s) (arrays rows) with
  | Some d => exists s', table_index_build_scan callback rows s = Ok s' /\ dim s' = d
  | None => table_index_build_scan callback rows s = Error "inconsistent array length"
  end.
Proof.
  intros Hr Hd Hadd Hcb. revert s Hd. induction Hr as [|r rows (_ & _ & Ha) _ IH]; intros s Hd.
  - cbn. eauto.
  - cbn [table_index_build_scan]. rewrite Hcb, arrays_cons. destruct (r_array r) as [a|].
    + destruct (note_dimension_ok (dim s) a Hd (Ha a eq_refl)) as [Hn Hb]. cbv zeta. rewrite wrong_length_ok by done.
      cbn [scan_dimension]. rewrite <- Hn. destruct (note_dimension (dim s) a =? zlen a); cbn [negb]; [|done].
      rewrite rbind_ret. specialize (IH (add r a (note_dimension (dim s) a) s)). rewrite Hadd in IH. by apply IH.
    + rewrite rbind_ret. by apply IH.
Qed.

(** What the scans collect. *)
Lemma compute_counts rows s s' :
  table_index_build_scan HNSWComputeElementsCallback rows s = Ok s' ->
  m_indtuples s' = counted (m_indtuples s) (length (arrays rows)).
Proof.
  revert s. induction rows as [|r rows IH]; intros s; cbn [table_index_build_scan].
  - by intros [= ->].
  - unfold HNSWComputeElementsCallback at 1. rewrite arrays_cons. destruct (r_array r) as [a|].
    + cbv zeta. destruct (wrong_length _ a); [done|]. rewrite rbind_ret. intros ->%IH. cbn [m_indtuples].
      unfold counted. cbn [length]. by rewrite Nat.iter_succ_r.
    + rewrite rbind_ret. by intros ->%IH.
Qed.

(** The heap positions of the rows that are indexed. *)
Definition positions (rows : list table_row) : list (Z * Z) :=
  omap (fun r => (fun _ => (r_blkno r, r_offnum r)) <$> r_array r) rows.

Lemma positions_cons r rows :
  positions (r :: rows) =
  match r_array r with Some _ => (r_blkno r, r_offnum r) :: positions rows | None => positions rows end.
Proof. unfold positions. cbn. by destruct (r_array r). Qed.

Lemma load_collects rows s s' :
  table_index_build_scan LoadTupleCallback rows s = Ok s' ->
  m_vectorData s' = m_vectorData s ++ mjoin (arrays rows) /\ m_metadata s' = m_metadata s ++ positions rows.
Proof.
  revert s. induction rows as [|r rows IH]; intros s; cbn [table_index_build_scan].
  - intros [= ->]. cbn. by rewrite !app_nil_r.
  - unfold LoadTupleCallback at 1. rewrite arrays_cons, positions_cons. destruct (r_array r) as [a|].
    + cbv zeta. destruct (wrong_length _ a); [done|]. rewrite rbind_ret. intros [-> ->]%IH.
      cbn [m_vectorData m_metadata mjoin list_join]. rewrite <- !app_assoc. done.
    + rewrite rbind_ret. by intros ?%IH.
Qed.

(** ** Loading the points *)

(** The point each indexed row becomes. *)
Definition entry_of (r : table_row) : option (list Z * labeltype) :=
  (fun a => (a, tuple_label (r_blkno r) (r_offnum r))) <$> r_array r.
Definition entries (rows : list table_row) : list (list Z * labeltype) := omap entry_of rows.

Lemma entries_cons r rows :
  entries (r :: rows) =
  match r_array r with
  | Some a => (a, tuple_label (r_blkno r) (r_offnum r)) :: entries rows
  | None => entries rows
  end.
Proof. unfold entries. cbn. unfold entry_of at 1. by destruct (r_array r). Qed.

Lemma entries_arrays rows : fst <$> entries rows = arrays rows.
Proof.
  induction rows as [|r rows IH]; [done|]. rewrite entries_cons, arrays_cons.
  destruct (r_array r); cbn; by rewrite IH.
Qed.

Lemma tuple_label_inj r r' :
  row_ok r -> row_ok r' -> tuple_label (r_blkno r) (r_offnum r) = tuple_label (r_blkno r') (r_offnum r') ->
  r_blkno r = r_blkno r' /\ r_offnum r = r_offnum r'.
Proof. intros (Hb & Ho & _) (Hb' & Ho' & _). rewrite !tuple_label_eq by done. lia. Qed.

(** Different positions get different labels. *)
Lemma entries_nodup rows :
  Forall row_ok rows -> NoDup ((fun r => (r_blkno r, r_offnum r)) <$> rows) -> NoDup (snd <$> entries rows).
Proof.
  induction 1 as [|r rows Hr Hrows IH]; [constructor|]. rewrite fmap_cons. intros [Hnin Hnd]%NoDup_cons.
  rewrite entries_cons. destruct (r_array r) as [a|]; cbn; [|by apply IH].
  constructor; [|by apply IH]. intros Hin. apply list_elem_of_fmap in Hin as ([a' l'] & Hl & Hin). cbn in Hl. subst l'.
  apply list_elem_of_omap in Hin as (r' & Hr' & He). unfold entry_of in He. destruct (r_array r'); [|done].
  injection He as _ Hl. apply Hnin. destruct (tuple_label_inj r' r) as [E1 E2]; [|done|done|].
  - by apply (proj1 (Forall_forall _ _) Hrows).
  - apply list_elem_of_fmap. exists r'. by rewrite E1, E2.
Qed.

Section load.
Context `{PQ : PriorityQueue} `{US : UnorderedSet}.
Variable fstdistfunc_ : list Z -> list Z -> Z.
Variable FLT_MAX : Z.
Variable levels : tableint -> Z.
Variable lists : tableint -> nat -> VisitedList.
Hypothesis Hlevels : forall id, 0 <= levels id.

Abbreviation load := (HNSWLoadTupleCallback fstdistfunc_ FLT_MAX levels lists).

Lemma fresh_label g label : index_ok build_M g -> label ∉ snd <$> points g -> label_lookup_ g !! label = None.
Proof.
  intros Hix Hnin. destruct (label_lookup_ g !! label) as [id|] eqn:Hl; [|done].
  apply (io_labels _ _ Hix) in Hl as (x & Hx & <-). exfalso. apply Hnin.
  apply zget_elem in Hx. unfold points. rewrite <- list_fmap_compose. by apply (list_elem_of_fmap_2 (snd ∘ (fun x => (e_data x, e_label x)))).
Qed.

Lemma points_count g : zlen (points g) = cur_element_count g.
Proof. unfold points. apply zlen_fmap. Qed.

(** One row. *)
Lemma load_row dim r a g :
  row_ok r -> r_array r = Some a -> 0 <= dim <= 134217727 -> dim = zlen a ->
  index_ok build_M g -> tuple_label (r_blkno r) (r_offnum r) ∉ snd <$> points g ->
  (forall id n, clean g (lists id n)) ->
  if cur_element_count g <? max_elements_ g then
    exists g', load dim r g = Ok g' /\ index_ok build_M g' /\ max_elements_ g' = max_elements_ g /\
      points g' = points g ++ [(a, tuple_label (r_blkno r) (r_offnum r))]
  else load dim r g = Error "The number of elements exceeds the specified limit".
Proof.
  intros Hr Ha Hd Hlen Hix Hnin Hcl. unfold HNSWLoadTupleCallback. rewrite Ha, wrong_length_ok by done.
  rewrite (proj2 (Z.eqb_eq dim (zlen a)) Hlen). cbn [negb].
  pose proof (fresh_label g _ Hix Hnin) as Hnew. destruct (Z.ltb_spec (cur_element_count g) (max_elements_ g)) as [Hlt|Hge].
  - destruct (addPoint_ok fstdistfunc_ FLT_MAX build_M build_ef_construction ltac:(by compute) ltac:(by compute)
      g a (tuple_label (r_blkno r) (r_offnum r)) (levels (cur_element_count g)) (lists (cur_element_count g))
      Hix Hnew Hlt (Hlevels _) (Hcl _)) as (g' & Hg' & [H1 H2 H3 _ _]).
    exists g'. split_and!; done.
  - unfold addPoint. rewrite Hnew, Z.geb_leb. by destruct (Z.leb_spec (max_elements_ g) (cur_element_count g)); [|lia].
Qed.

(** The whole table: the points in order, or the error when it does not fit. *)
Lemma load_rows dim rows g :
  Forall row_ok rows -> 0 <= dim <= 134217727 -> all_length dim (arrays rows) = true ->
  index_ok build_M g -> (forall id n, clean g (lists id n)) -> NoDup (snd <$> (points g ++ entries rows)) ->
  if cur_element_count g + zlen (entries rows) <=? max_elements_ g then
    exists g', table_index_build_scan (load dim) rows g = Ok g' /\ index_ok build_M g' /\
      points g' = points g ++ entries rows
  else table_index_build_scan (load dim) rows g = Error "The number of elements exceeds the specified limit".
Proof.
  intros Hr Hd. revert g. induction Hr as [|r rows Hr Hrows IH]; intros g Hall Hix Hcl Hnd.
  - change (entries []) with (@nil (list Z * labeltype)) in *. change (zlen []) with 0.
    pose proof (hw_capacity _ (lo_wf _ _ (io_links _ _ Hix))) as Hcap.
    destruct (Z.leb_spec (cur_element_count g + 0) (max_elements_ g)); [|lia].
    exists g. by rewrite app_nil_r.
  - cbn [table_index_build_scan]. rewrite entries_cons in *. rewrite arrays_cons in Hall.
    destruct (r_array r) as [a|] eqn:Ha.
    + cbn [all_length forallb] in Hall. apply andb_true_iff in Hall as [Hlen%Z.eqb_eq Hall].
      rewrite fmap_app, fmap_cons in Hnd. cbn in Hnd.
      assert (Hnin : tuple_label (r_blkno r) (r_offnum r) ∉ snd <$> points g).
      { apply NoDup_app in Hnd as (_ & Hdis & _). intros Hin. apply (Hdis _ Hin). by left. }
      pose proof (load_row dim r a g Hr Ha Hd ltac:(lia) Hix Hnin Hcl) as Hrow. rewrite zlen_cons.
      pose proof (zlen_nonneg (entries rows)) as Hnn.
      destruct (Z.ltb_spec (cur_element_count g) (max_elements_ g)) as [Hlt|Hge].
      * destruct Hrow as (g' & -> & Hix' & Hmax & Hp). rewrite rbind_ret.
        specialize (IH g' Hall Hix'). rewrite <- !points_count, Hp, zlen_app, Hmax in *. cbn [zlen length] in IH.
        change (zlen [(a, tuple_label (r_blkno r) (r_offnum r))]) with 1 in IH.
        replace (zlen (points g) + (1 + zlen (entries rows)))
          with (zlen (points g) + 1 + zlen (entries rows)) by lia.
        rewrite <- !app_assoc in IH. apply IH.
        -- intros id n. unfold clean. rewrite Hmax. apply Hcl.
        -- rewrite fmap_app. exact Hnd.
      * destruct (Z.leb_spec (cur_element_count g + (1 + zlen (entries rows))) (max_elements_ g)); [lia|].
        by rewrite Hrow.
    + assert (load dim r g = Ok g) as -> by (unfold HNSWLoadTupleCallback; by rewrite Ha).
      rewrite rbind_ret. by apply IH.
Qed.
End load.

(** ** The builds *)

(** All arrays have the length of the first. *)
Definition same_length (vs : list (list Z)) : bool :=
  match vs with [] => true | v :: _ => all_length (zlen v) vs end.

(** The vectors of the table with the heap positions they come from. *)
Definition indexed_rows (rows : list table_row) : list (list Z * ItemPointer) :=
  zip (arrays rows) ((fun p => ItemPointerSet (fst p) (snd p)) <$> positions rows).

(** The index holds the table: its vectors under labels that lead back to
    their rows. *)
Record holds_table (rows : list table_row) (g : HierarchicalNSW) : Prop := {
  ht_index : index_ok build_M g;
  ht_rows : (fun e => (fst e, label_tid (snd e))) <$> points g = indexed_rows rows
}.

Lemma entries_rows rows :
  Forall row_ok rows -> (fun e => (fst e, label_tid (snd e))) <$> entries rows = indexed_rows rows.
Proof.
  induction 1 as [|r rows (Hb & Ho & _) _ IH]; [done|]. unfold indexed_rows in *.
  rewrite entries_cons, arrays_cons, positions_cons. destruct (r_array r); [|done].
  rewrite !fmap_cons, IH. cbn. by rewrite label_roundtrip_ok.
Qed.

Lemma all_length_skip d vs : d <> 0 -> all_length d vs = true -> skip_empty vs = vs.
Proof.
  intros Hd. destruct vs as [|[|x v] vs]; [done| |done]. cbn. change (zlen []) with 0.
  by destruct (Z.eqb_spec 0 d); [congruence|].
Qed.

Lemma skip_empty_head vs : match skip_empty vs with [] => True | v :: _ => zlen v <> 0 end.
Proof.
  induction vs as [|[|x v] vs IH]; [done|exact IH|]. cbn. rewrite zlen_cons. pose proof (zlen_nonneg v). lia.
Qed.

(** The first pass and the check of the second one accept a table exactly
    when all lengths agree. *)
Lemma two_pass_lengths vs :
  match scan_dimension 0 vs with
  | Some d => all_length d vs = same_length vs /\ (all_length d vs = false -> exists v ws, vs = v :: ws /\ zlen v <> d)
  | None => same_length vs = false
  end.
Proof.
  rewrite scan_dimension_0. pose proof (skip_empty_head vs) as Hh.
  destruct vs as [|[|x v] vs]; cbn [skip_empty] in *; [done| |].
  - assert (Hempty : skip_empty vs = [] -> all_length 0 vs = true).
    { clear. induction vs as [|[|y w] vs IH]; [done|exact IH|done]. }
    assert (Hne : skip_empty vs <> [] -> all_length 0 vs = false).
    { clear. induction vs as [|[|y w] vs IH]; [done|exact IH|]. intros _. cbn. rewrite zlen_cons.
      pose proof (zlen_nonneg w). by destruct (Z.eqb_spec (1 + zlen w) 0); [lia|]. }
    unfold same_length, all_length in *. cbn [forallb]. change (zlen []) with 0. change (0 =? 0) with true. cbn [andb].
    destruct (skip_empty vs) as [|w ws] eqn:Hs.
    + rewrite Hempty by done. done.
    + rewrite Hne by done. destruct (forallb _ (w :: ws)); [|done].
      destruct (Z.eqb_spec 0 (zlen w)) as [E|E]; [congruence|]. cbn. split; [done|]. intros _. by exists [], vs.
  - unfold same_length. destruct (all_length (zlen (x :: v)) ((x :: v) :: vs)) eqn:Hall; [|done]. by rewrite Hall.
Qed.

Lemma compute_dimension rows junk :
  Forall row_ok rows ->
  match scan_dimension 0 (arrays rows) with
  | Some d => table_index_build_scan HNSWComputeElementsCallback rows (mk_builder 0 junk) =
      Ok (mk_builder d (counted junk (length (arrays rows)))) /\ 0 <= d <= 134217727
  | None => table_index_build_scan HNSWComputeElementsCallback rows (mk_builder 0 junk) =
      Error "inconsistent array length"
  end.
Proof.
  intros Hr. pose proof (checked_scan HNSWComputeElementsCallback m_numDimension
    (fun _ _ d s => mk_builder d (double_add (m_indtuples s) double_one)) rows (mk_builder 0 junk) Hr) as Hc.
  cbn [m_numDimension] in Hc. specialize (Hc ltac:(lia) ltac:(done) ltac:(done)).
  destruct (scan_dimension 0 (arrays rows)) as [d|] eqn:Hd; [|done].
  destruct Hc as ([d' n] & Hs & Hd'). cbn in Hd'. subst d'. pose proof (compute_counts _ _ _ Hs) as Hn. cbn in Hn.
  split; [by rewrite Hs, Hn|].
  revert Hd. rewrite scan_dimension_0. destruct (skip_empty (arrays rows)) as [|v vs] eqn:Hsk; [intros [= <-]; lia|].
  destruct (all_length _ _); [|done]. intros [= <-]. pose proof (zlen_nonneg v).
  assert (Hin : v ∈ arrays rows).
  { clear -Hsk. induction (arrays rows) as [|[|x w] ws IH]; cbn in Hsk; [done|right; by apply IH|].
    injection Hsk as <- _. by left. }
  unfold arrays in Hin. apply list_elem_of_omap in Hin as (r & Hin & Ha).
  apply (proj1 (Forall_forall _ _) Hr) in Hin as (_ & _ & Hmax). specialize (Hmax v Ha). lia.
Qed.

Section build.
Context `{PQ : PriorityQueue} `{US : UnorderedSet}.
Variable fstdistfunc_ : list Z -> list Z -> Z.
Variable FLT_MAX : Z.
Variable levels : tableint -> Z.
Variable lists : tableint -> nat -> VisitedList.

Abbreviation build := (hnsw_build fstdistfunc_ FLT_MAX levels lists).

(** A dimension that only the first pass accepts fails on the first row of
    the second. *)
Lemma load_wrong_length dim rows g v vs :
  Forall row_ok rows -> 0 <= dim <= 134217727 -> arrays rows = v :: vs -> zlen v <> dim ->
  table_index_build_scan (HNSWLoadTupleCallback fstdistfunc_ FLT_MAX levels lists dim) rows g =
    Error "inconsistent array length".
Proof.
  intros Hr Hd Hv Hne. induction Hr as [|r rows _ _ IH]; [done|]. cbn [table_index_build_scan].
  rewrite arrays_cons in Hv. unfold HNSWLoadTupleCallback at 1. destruct (r_array r) as [a|].
  - injection Hv as -> _. rewrite wrong_length_ok by done. by destruct (Z.eqb_spec dim (zlen v)); [congruence|].
  - rewrite rbind_ret. by apply IH.
Qed.

Lemma hnsw_build_ok rows junk max :
  Forall row_ok rows -> NoDup ((fun r => (r_blkno r, r_offnum r)) <$> rows) ->
  double_to_size_t (counted junk (length (arrays rows))) = Ok max -> 0 <= max <= 4294967295 ->
  (forall id, 0 <= levels id) -> (forall id n, clean (new_index max) (lists id n)) ->
  if negb (same_length (arrays rows)) then build rows junk = Error "inconsistent array length"
  else if max <? zlen (arrays rows) then build rows junk = Error "The number of elements exceeds the specified limit"
  else exists g, build rows junk = Ok (g, counted junk (length (arrays rows))) /\ holds_table rows g.
Proof.
  intros Hr Hnd Hmax Hsz Hlev Hcl. unfold hnsw_build, ConstructInternalBuilder.
  pose proof (compute_dimension rows junk Hr) as Hc. pose proof (two_pass_lengths (arrays rows)) as Ht.
  destruct (scan_dimension 0 (arrays rows)) as [d|]; [|by rewrite Hc, Ht].
  destruct Hc as [-> Hd]. destruct Ht as [Ht Hf]. rewrite !rbind_ret. cbn [m_numDimension m_indtuples].
  rewrite Hmax, !rbind_ret. cbn [m_numDimension m_indtuples].
  destruct (same_length (arrays rows)); cbn [negb].
  2: { destruct (Hf Ht) as (v & vs & Hv & Hne). by rewrite (load_wrong_length d rows _ v vs Hr Hd Hv Hne). }
  pose proof (load_rows fstdistfunc_ FLT_MAX levels lists Hlev d rows
    (new_index max) Hr Hd Ht (new_index_ok build_M ltac:(by compute) _ Hsz) Hcl) as Hl.
  change (points (new_index max)) with (@nil (list Z * labeltype)) in Hl. cbn [app] in Hl.
  specialize (Hl (entries_nodup rows Hr Hnd)). change (cur_element_count (new_index max)) with 0 in Hl.
  cbn [max_elements_ new_index] in Hl. rewrite <- (entries_arrays rows), zlen_fmap, length_fmap in *.
  destruct (Z.leb_spec (0 + zlen (entries rows)) max), (Z.ltb_spec max (zlen (entries rows))); try lia.
  - destruct Hl as (g & -> & Hix & Hp). rewrite rbind_ret. exists g. split; [done|]. split; [done|].
    rewrite Hp. by apply entries_rows.
  - by rewrite Hl.
Qed.
End build.

(** ** The SPTAG data *)

Lemma vector_at_concat d (vs : list (list Z)) n i v :
  0 <= d -> all_length d vs = true -> zget vs i = Some v -> vector_at (mk_vset (mjoin vs) d n) i = v.
Proof.
  intros Hd. unfold vector_at. cbn [vs_dimension vs_data]. revert i.
  induction vs as [|w vs IH]; intros i Hall Hi; [by apply zget_bounds in Hi; unfold zlen in Hi; cbn in Hi; lia|].
  cbn in Hall. apply andb_true_iff in Hall as [Hw%Z.eqb_eq Hall]. cbn [mjoin list_join].
  pose proof (zget_bounds _ _ _ Hi) as Hb. destruct (Z.eq_dec i 0) as [-> |Hi0].
  - rewrite zget_0_cons in Hi. injection Hi as ->. cbn [Z.mul]. unfold zdrop. cbn [Z.to_nat drop]. rewrite <- Hw.
    apply ztake_app_all.
  - rewrite zget_cons_pos in Hi by lia. rewrite <- (IH (i - 1) Hall Hi). f_equal. unfold zdrop, zlen in *.
    rewrite drop_app_ge by nia. f_equal. nia.
Qed.

Lemma zlen_concat d vs : all_length d vs = true -> zlen (mjoin vs) = d * zlen vs.
Proof.
  induction vs as [|v vs IH].
  - intros _. change (zlen (mjoin (@nil (list Z)))) with 0. change (zlen (@nil (list Z))) with 0. lia.
  - intros [Hv%Z.eqb_eq Hall]%andb_true_iff. change (mjoin (v :: vs)) with (v ++ mjoin vs).
    rewrite zlen_app, zlen_cons, IH by done. lia.
Qed.

Lemma skip_empty_concat vs : mjoin vs = mjoin (skip_empty vs).
Proof. induction vs as [|[|x v] vs IH]; [done|exact IH|done]. Qed.

Lemma skip_empty_subseteq vs v : v ∈ skip_empty vs -> v ∈ vs.
Proof. induction vs as [|[|x w] vs IH]; cbn; [done|right; by apply IH|done]. Qed.

(** [i]-th vector and [i]-th metadata, as the scan reads the latter. *)
Record sptag_data (vectors : list (list Z)) (heap : list (Z * Z)) (out : VectorSet * list (list Z)) : Prop := {
  sd_count : vs_count (fst out) = zlen vectors;
  sd_vectors : forall i v, zget vectors i = Some v -> vector_at (fst out) i = v;
  sd_metadata : (fun meta => label_tid (le_number (take 8 meta))) <$> snd out =
    (fun p => ItemPointerSet (fst p) (snd p)) <$> heap
}.

Lemma metadata_ok heap :
  Forall (fun p => 0 <= fst p < 4294967296 /\ 0 <= snd p < 65536) heap ->
  (fun meta => label_tid (le_number (take 8 meta))) <$> ((fun p => le_bytes 8 (tuple_label (fst p) (snd p))) <$> heap) =
  (fun p => ItemPointerSet (fst p) (snd p)) <$> heap.
Proof.
  intros Hh. rewrite <- list_fmap_compose. induction Hh as [|[b o] heap [Hb Ho] _ IH]; [done|].
  rewrite !fmap_cons, IH. f_equal. cbn [compose fst snd].
  assert (Hl : label_tid (le_number (take 8 (le_bytes 8 (tuple_label b o)))) = ItemPointerSet b o).
  - rewrite take_ge by (rewrite length_le_bytes; lia). rewrite le_number_bytes; [by apply label_roundtrip_ok|].
    rewrite tuple_label_eq by done. cbn in Hb, Ho. change (256 ^ Z.of_nat 8) with 18446744073709551616. lia.
  - exact Hl.
Qed.

Lemma positions_ok rows :
  Forall row_ok rows -> Forall (fun p => 0 <= fst p < 4294967296 /\ 0 <= snd p < 65536) (positions rows).
Proof.
  induction 1 as [|r rows (Hb & Ho & _) _ IH]; [constructor|]. rewrite positions_cons.
  destruct (r_array r); [by constructor|done].
Qed.

Lemma sptag_build_ok rows :
  Forall row_ok rows ->
  match skip_empty (arrays rows) with
  | [] => sptag_build rows = Crash
  | v :: _ =>
    if all_length (zlen v) (skip_empty (arrays rows)) then
      exists out, sptag_build rows = Ok out /\ sptag_data (skip_empty (arrays rows)) (positions rows) out
    else sptag_build rows = Error "inconsistent array length"
  end.
Proof.
  intros Hr. unfold sptag_build.
  pose proof (checked_scan LoadTupleCallback ib_numDimension
    (fun r a d s => mk_ibuilder d (m_vectorData s ++ a) (m_metadata s ++ [(r_blkno r, r_offnum r)]))
    rows (mk_ibuilder 0 [] []) Hr) as Hc.
  cbn [ib_numDimension] in Hc. specialize (Hc ltac:(lia) ltac:(done) ltac:(done)).
  rewrite scan_dimension_0 in Hc. pose proof (skip_empty_head (arrays rows)) as Hh.
  destruct (skip_empty (arrays rows)) as [|v vs] eqn:Hsk.
  - destruct Hc as (s & -> & Hd). rewrite rbind_ret. unfold GetVectorSet, VectorCount. by rewrite Hd.
  - destruct (all_length (zlen v) (v :: vs)) eqn:Hall; [|by rewrite Hc].
    destruct Hc as (s & Hs & Hd). destruct (load_collects _ _ _ Hs) as [Hdata Hmeta]. cbn [m_vectorData m_metadata app] in *.
    rewrite Hs, rbind_ret. unfold GetVectorSet, GetMetadataSet, VectorCount. cbv zeta.
    assert (Hin : v ∈ arrays rows) by (apply skip_empty_subseteq; rewrite Hsk; by left).
    assert (Hv : zlen v <= 134217727).
    { unfold arrays in Hin. apply list_elem_of_omap in Hin as (r & Hin & Ha).
      apply (proj1 (Forall_forall _ _) Hr) in Hin as (_ & _ & Hmax). by apply Hmax. }
    pose proof (zlen_nonneg v) as Hnn. rewrite Hd, Hdata, Hmeta, skip_empty_concat, Hsk.
    assert (uint64 (zlen v) = zlen v) as -> by (unfold uint64; apply Z.mod_small; lia).
    destruct (Z.eqb_spec (zlen v) 0) as [|_]; [done|]. rewrite !rbind_ret. eexists. split; [reflexivity|].
    split; cbn [fst snd vs_count].
    + rewrite (zlen_concat (zlen v)) by done. rewrite Z.mul_comm. apply Z.div_mul. done.
    + intros i w Hi. by apply vector_at_concat.
    + by apply metadata_ok, positions_ok.
Qed.

(** ** Properties *)

(** C3. [CREATE INDEX ... USING hnsw], for rows with heap positions of their own.
    The counter of rows is a [double] that is never initialized; [max] is the
    capacity that its final value (the garbage [junk] plus one per array,
    rounded each time) is converted to, assumed to be defined and at most
    2^32 - 1.  The build fails with "inconsistent array length" exactly when two
    arrays of the table differ in length (also when empty arrays at the
    beginning slip through the first pass).  Otherwise, if the capacity is less
    than the number of arrays, it runs out of room; if not, it succeeds, and the
    index it builds satisfies the invariant of the graph and holds every row
    with an array once, in table order, under a label that the scan decodes to
    the heap position of that row. *)
Theorem hnsw_build_holds_table `{PriorityQueue} `{UnorderedSet} fstdistfunc_ FLT_MAX levels lists rows junk max :
  Forall row_ok rows -> NoDup ((fun r => (r_blkno r, r_offnum r)) <$> rows) ->
  double_to_size_t (counted junk (length (arrays rows))) = Ok max -> 0 <= max <= 4294967295 ->
  (forall id, 0 <= levels id) -> (forall id n, clean (new_index max) (lists id n)) ->
  if negb (same_length (arrays rows)) then
    hnsw_build fstdistfunc_ FLT_MAX levels lists rows junk = Error "inconsistent array length"
  else if max <? zlen (arrays rows) then
    hnsw_build fstdistfunc_ FLT_MAX levels lists rows junk =
      Error "The number of elements exceeds the specified limit"
  else exists g,
    hnsw_build fstdistfunc_ FLT_MAX levels lists rows junk = Ok (g, counted junk (length (arrays rows))) /\
    holds_table rows g.
Proof. apply hnsw_build_ok. Qed.

Definition demo_rows : list table_row :=
  [mk_trow 0 1 (Some [10]); mk_trow 0 2 None; mk_trow 0 3 (Some [30]); mk_trow 4294967294 1 (Some [20])].

Lemma demo_rows_ok : Forall row_ok demo_rows.
Proof. repeat constructor; cbn; try lia; intros a [= <-]; by compute. Qed.

Lemma hnsw_build_holds_table_witness : exists g,
  hnsw_build line_dist 1000 (fun id => Z.abs id) (fun _ _ => mk_vl 3 [0; 2; 1]) demo_rows double_zero =
    Ok (g, counted double_zero 3) /\
  holds_table demo_rows g.
Proof.
  apply (hnsw_build_holds_table line_dist 1000 (fun id => Z.abs id) (fun _ _ => mk_vl 3 [0; 2; 1]) demo_rows double_zero 3).
  - exact demo_rows_ok.
  - apply (bool_decide_unpack _). vm_compute. exact I.
  - apply (counted_zero 3). lia.
  - lia.
  - intros id. lia.
  - intros id n. split; [vm_compute; reflexivity|]. apply (bool_decide_unpack _). vm_compute. exact I.
Defined.

(** Garbage in the counter: minus a half leaves no room for the last row, a
    tiny negative number is rounded away, minus seven cannot be converted. *)
Example demo_build_garbage :
  (hnsw_build line_dist 1000 (fun _ => 0) (fun _ _ => mk_vl 3 [0; 2]) demo_rows
     (SpecFloat.S754_finite true 4503599627370496 (-53)) =
   Error "The number of elements exceeds the specified limit") /\
  (double_to_size_t (counted (SpecFloat.S754_finite true 6646139978924579 (-119)) 3) = Ok 3) /\
  hnsw_build line_dist 1000 (fun _ => 0) (fun _ _ => mk_vl 3 [0; 2]) demo_rows
    (SpecFloat.S754_finite true 7881299347898368 (-50)) = Crash.
Proof. vm_compute. done. Qed.



(** The vector of the second row is stored under the position of the first. *)
Example demo_sptag_shifted :
  (do! ' (set, meta) <- sptag_build [mk_trow 0 1 (Some []); mk_trow 0 2 (Some [5; 6])] ;;
   Ok (vector_at set 0, (fun m => label_tid (le_number m)) <$> head meta)) =
  Ok ([5; 6], Some (ItemPointerSet 0 1)).
Proof. vm_compute. reflexivity. Qed.
