(* ===== verification/HnswFile.v ===== *)
(** * thirdparty/hnsw/hnswlib/hnswalg.h: the index in memory and on disk

    [hnsw_build] saves the index it has built ([saveIndex]) and a scan loads
    it ([loadIndex]).  The index is an array of equally large blocks, one per
    element, with its base links, its vector and its label, and a separate
    allocation for the links on the upper levels; the file is a header and
    these bytes.  A byte is a number below 256. *)

From Stdlib Require Import ZArith Lia.
From stdpp Require Import base list sorting strings gmap fin_maps.
From S2P Require Import Prelude IndexAm HnswScan SptagScan HnswGraph HnswTraversal HnswInsert HnswInsertTheory HnswUpdate.

Local Open Scope Z_scope.
Set Warnings "-clear-no-such-hyp".

(** ** Memory *)

Definition bytes : Type := list Z.

(** [mult_] is a double, here its 64 bits. *)
Record hnsw_memory := mk_memory {
  offsetLevel0_ : Z;
  i_max_elements : Z;
  i_cur_element_count : Z;
  size_data_per_element_ : Z;
  label_offset_ : Z;
  offsetData_ : Z;
  i_maxlevel : Z;
  i_enterpoint_node : Z;
  i_maxM : Z;
  i_maxM0 : Z;
  i_M : Z;
  mult_ : Z;
  i_ef_construction : Z;
  data_level0_memory_ : bytes;
  element_levels_ : list Z;
  linkLists_ : list bytes;
  i_num_deleted : Z;
  i_label_lookup : gmap labeltype tableint
}.

Definition size_links_per_element_ (maxM : Z) : Z := maxM * 4 + 4.
Definition size_links_level0_ (maxM0 : Z) : Z := maxM0 * 4 + 4.

(** [get_linklist_at_level]: what the pointer returned points to. *)
Definition linklist_at (mm : hnsw_memory) (id level : Z) : bytes :=
  if level =? 0 then zdrop (id * size_data_per_element_ mm + offsetLevel0_ mm) (data_level0_memory_ mm)
  else zdrop ((level - 1) * size_links_per_element_ (i_maxM mm)) (default [] (zget (linkLists_ mm) id)).

(** An [unsigned short]. *)
Definition getListCount (ptr : bytes) : Z := le_number (ztake 2 ptr).

(** [n] numbers of four bytes. *)
Fixpoint words (n : nat) (bs : bytes) : list Z :=
  match n with O => [] | S n => le_number (ztake 4 bs) :: words n (zdrop 4 bs) end.

Definition links_in (ptr : bytes) : list tableint := words (Z.to_nat (getListCount ptr)) (zdrop 4 ptr).

(** The mark is the lowest bit of the third byte of the base links. *)
Definition marked_deleted (mm : hnsw_memory) (id : Z) : bool :=
  Z.testbit (nth 2 (linklist_at mm id 0) 0) 0.

Definition label_at (mm : hnsw_memory) (id : Z) : labeltype :=
  le_number (ztake 8 (zdrop (id * size_data_per_element_ mm + label_offset_ mm) (data_level0_memory_ mm))).

Definition data_at (mm : hnsw_memory) (dim : nat) (id : Z) : list Z :=
  words dim (zdrop (id * size_data_per_element_ mm + offsetData_ mm) (data_level0_memory_ mm)).

(** The index that a memory image represents, for vectors of [dim] floats. *)
Definition element_in (mm : hnsw_memory) (dim : nat) (id : Z) : element :=
  mk_element (data_at mm dim id) (label_at mm id) (marked_deleted mm id)
    ((fun level => links_in (linklist_at mm id level)) <$>
       seqZ 0 (default 0 (zget (element_levels_ mm) id) + 1)).

Definition index_in (mm : hnsw_memory) (dim : nat) : HierarchicalNSW :=
  mk_graph (i_max_elements mm) (i_num_deleted mm) (i_maxlevel mm) (i_enterpoint_node mm)
    (element_in mm dim <$> seqZ 0 (i_cur_element_count mm)) (i_label_lookup mm).

(** ** The file *)

(** The fields in the order they are written, with their sizes. *)
Definition header_fields (mm : hnsw_memory) : list (nat * Z) :=
  [(8%nat, offsetLevel0_ mm); (8%nat, i_max_elements mm); (8%nat, i_cur_element_count mm);
   (8%nat, size_data_per_element_ mm); (8%nat, label_offset_ mm); (8%nat, offsetData_ mm);
   (4%nat, uint32 (i_maxlevel mm)); (4%nat, i_enterpoint_node mm); (8%nat, i_maxM mm);
   (8%nat, i_maxM0 mm); (8%nat, i_M mm); (8%nat, mult_ mm); (8%nat, i_ef_construction mm)].

Definition writeBinaryPOD (f : nat * Z) : bytes := le_bytes (fst f) (snd f).
Definition header (mm : hnsw_memory) : bytes := mjoin (writeBinaryPOD <$> header_fields mm).

(** An [unsigned int]. *)
Definition linkListSize (mm : hnsw_memory) (id : Z) : Z :=
  let level := default 0 (zget (element_levels_ mm) id) in
  if level >? 0 then uint32 (size_links_per_element_ (i_maxM mm) * level) else 0.

Definition saved_list (mm : hnsw_memory) (id : Z) : bytes :=
  le_bytes 4 (linkListSize mm id) ++ ztake (linkListSize mm id) (default [] (zget (linkLists_ mm) id)).

Definition saveIndex (mm : hnsw_memory) : bytes :=
  header mm ++
  ztake (i_cur_element_count mm * size_data_per_element_ mm) (data_level0_memory_ mm) ++
  mjoin (saved_list mm <$> seqZ 0 (i_cur_element_count mm)).

Section load.
Variable file : bytes.
(** What [num_deleted_], which the constructor does not set, happens to
    hold, and the memory that is allocated. *)
Variable junk : Z.
Variable fresh : bytes.

Definition corrupted {A} : res A := Error "Index seems to be corrupted or unsupported".

(** A number of [n] bytes at a position; a stream that cannot deliver it
    fails, which the checks on the position notice. *)
Definition readBinaryPOD (pos n : Z) : res Z :=
  if pos + n <=? zlen file then Ok (le_number (ztake n (zdrop pos file))) else corrupted.

(** The walk over the sizes of the upper links that checks the file; [n]
    elements are left. *)
Fixpoint check_lists (n : nat) (pos : Z) : res unit :=
  match n with
  | O => if pos =? zlen file then Ok tt else corrupted
  | S n =>
    if (pos <? 0) || (pos >=? zlen file) then corrupted
    else do! size <- readBinaryPOD pos 4 ;; check_lists n (pos + 4 + size)
  end.

(** The second walk: the size and the links of each element. *)
Fixpoint load_lists (n : nat) (pos : Z) (maxM : Z) : res (list Z * list bytes) :=
  match n with
  | O => Ok ([], [])
  | S n =>
    do! size <- readBinaryPOD pos 4 ;;
    do! ' (levels, lists) <- load_lists n (pos + 4 + size) maxM ;;
    Ok ((if size =? 0 then 0 else size / size_links_per_element_ maxM) :: levels,
        ztake size (zdrop (pos + 4) file) :: lists)
  end.

(** The header, with nothing loaded yet. *)
Definition load_header : res hnsw_memory :=
  do! offsetLevel0 <- readBinaryPOD 0 8 ;;
  do! max_elements <- readBinaryPOD 8 8 ;;
  do! count <- readBinaryPOD 16 8 ;;
  do! size_data <- readBinaryPOD 24 8 ;;
  do! label_offset <- readBinaryPOD 32 8 ;;
  do! offsetData <- readBinaryPOD 40 8 ;;
  do! maxlevel <- readBinaryPOD 48 4 ;;
  do! enterpoint <- readBinaryPOD 52 4 ;;
  do! maxM <- readBinaryPOD 56 8 ;;
  do! maxM0 <- readBinaryPOD 64 8 ;;
  do! M <- readBinaryPOD 72 8 ;;
  do! mult <- readBinaryPOD 80 8 ;;
  do! ef_construction <- readBinaryPOD 88 8 ;;
  (* max_elements_i is 0 *)
  let max_elements := if 0 <? count then max_elements else 0 in
  Ok (mk_memory offsetLevel0 max_elements count size_data label_offset offsetData (int32 maxlevel) enterpoint
        maxM maxM0 M mult ef_construction [] [] [] 0 ∅).

(** What is loaded, with its labels and deletions still to be counted. *)
Definition with_loaded (h : hnsw_memory) (level0 : bytes) (levels : list Z) (lists : list bytes)
    (num_deleted : Z) (lookup : gmap labeltype tableint) : hnsw_memory :=
  mk_memory (offsetLevel0_ h) (i_max_elements h) (i_cur_element_count h) (size_data_per_element_ h) (label_offset_ h)
    (offsetData_ h) (i_maxlevel h) (i_enterpoint_node h) (i_maxM h) (i_maxM0 h) (i_M h) (mult_ h)
    (i_ef_construction h) level0 levels lists num_deleted lookup.

Definition load_elements (h : hnsw_memory) : res hnsw_memory :=
  let count := i_cur_element_count h in
  let level0_size := int64 (count * size_data_per_element_ h) in
  do! _ <- check_lists (Z.to_nat count) (96 + level0_size) ;;
  let level0 := ztake level0_size (zdrop 96 file) ++ fresh in
  do! ' (levels, lists) <- load_lists (Z.to_nat count) (96 + level0_size) (i_maxM h) ;;
  let mm := with_loaded h level0 levels lists 0 ∅ in
  let lookup := foldl (fun lk id => <[label_at mm id := id]> lk) ∅ (seqZ 0 count) in
  let deleted := zlen (filter (fun id => marked_deleted mm id = true) (seqZ 0 count)) in
  Ok (with_loaded h level0 levels lists (uint64 (junk + deleted)) lookup).

Definition loadIndex : res hnsw_memory :=
  do! h <- load_header ;; load_elements h.
End load.

(** ** Lists of bytes *)

Lemma zdrop_app_exact {A} (a b : list A) n : zlen a = n -> zdrop n (a ++ b) = b.
Proof. intros <-. unfold zdrop, zlen. rewrite Nat2Z.id. apply drop_app_length. Qed.

Lemma ztake_app_exact {A} (a b : list A) n : zlen a = n -> ztake n (a ++ b) = a.
Proof. intros <-. apply ztake_app_all. Qed.

Lemma zdrop_add {A} (l : list A) n m : 0 <= n -> 0 <= m -> zdrop (n + m) l = zdrop m (zdrop n l).
Proof. intros Hn Hm. unfold zdrop. rewrite drop_drop, Z2Nat.inj_add by done. done. Qed.

Lemma zlen_le_bytes n z : zlen (le_bytes n z) = Z.of_nat n.
Proof. unfold zlen. by rewrite length_le_bytes. Qed.

Lemma zlen_blocks {A} d (bs : list (list A)) : Forall (fun b => zlen b = d) bs -> zlen (mjoin bs) = zlen bs * d.
Proof.
  induction 1 as [|c l Hc _ IH]; [done|]. change (mjoin (c :: l)) with (c ++ mjoin l).
  rewrite zlen_app, zlen_cons, IH. lia.
Qed.

(** The block at a multiple of the block size. *)
Lemma zdrop_blocks {A} d (bs : list (list A)) rest i b :
  0 <= d -> Forall (fun b => zlen b = d) bs -> zget bs i = Some b ->
  exists tail, zdrop (i * d) (mjoin bs ++ rest) = b ++ tail.
Proof.
  intros Hd Hbs Hi. destruct (zget_split bs i b Hi) as (l1 & l2 & -> & Hl). apply Forall_app in Hbs as [H1 _].
  exists (mjoin l2 ++ rest). rewrite join_app. change (mjoin (b :: l2)) with (b ++ mjoin l2).
  rewrite <- !app_assoc. apply zdrop_app_exact. rewrite <- Hl. by apply zlen_blocks.
Qed.

Lemma words_written l rest :
  Forall (fun x => 0 <= x < 4294967296) l -> words (length l) (mjoin (le_bytes 4 <$> l) ++ rest) = l.
Proof.
  induction 1 as [|x l Hx _ IH]; [done|]. cbn [length words]. rewrite fmap_cons.
  change (mjoin (le_bytes 4 x :: (le_bytes 4 <$> l))) with (le_bytes 4 x ++ mjoin (le_bytes 4 <$> l)).
  rewrite <- app_assoc, (ztake_app_exact (le_bytes 4 x)), (zdrop_app_exact (le_bytes 4 x)), le_number_bytes by done.
  by rewrite IH.
Qed.

Lemma zlen_words l : zlen (mjoin (le_bytes 4 <$> l)) = zlen l * 4.
Proof.
  induction l as [|x l IH]; [done|]. rewrite fmap_cons.
  change (mjoin (le_bytes 4 x :: (le_bytes 4 <$> l))) with (le_bytes 4 x ++ mjoin (le_bytes 4 <$> l)).
  rewrite zlen_app, zlen_cons, IH, zlen_le_bytes. lia.
Qed.

(** ** How an index lies in memory *)

Section layout.
Variables (M_ ef_construction_ mult : Z) (dim : nat).
(** Entries of a link list beyond its count are left over from before. *)
Variable stale : tableint -> Z -> bytes.
Implicit Types (g : HierarchicalNSW) (x : element).

Abbreviation level0_size := (size_links_level0_ (maxM0_ M_)).
Abbreviation upper_size := (size_links_per_element_ (maxM_ M_)).
Abbreviation data_size := (level0_size + Z.of_nat dim * 4 + 8).

(** [setListCount], the deletion mark, the links, and what is left over. *)
Definition link_block (mark : bool) (l : list tableint) (pad : bytes) : bytes :=
  le_bytes 2 (zlen l) ++ [Z.b2z mark; 0] ++ mjoin (le_bytes 4 <$> l) ++ pad.

Definition level0_block (id : Z) x : bytes :=
  link_block (e_deleted x) (hd [] (e_links x)) (stale id 0) ++
  mjoin (le_bytes 4 <$> e_data x) ++ le_bytes 8 (e_label x).

Definition upper_blocks (id : Z) x : list bytes :=
  imap (fun i l => link_block false l (stale id (Z.of_nat i + 1))) (tl (e_links x)).

Definition memory_with (max num_deleted : Z) (lookup : gmap labeltype tableint) (unused : bytes) g : hnsw_memory :=
  mk_memory 0 max (cur_element_count g) data_size (level0_size + Z.of_nat dim * 4) level0_size (maxlevel_ g)
    (enterpoint_node_ g) (maxM_ M_) (maxM0_ M_) M_ mult ef_construction_
    (mjoin (imap (fun i x => level0_block (Z.of_nat i) x) (elements g)) ++ unused)
    ((fun x => zlen (e_links x) - 1) <$> elements g)
    (imap (fun i x => mjoin (upper_blocks (Z.of_nat i) x)) (elements g))
    num_deleted lookup.

(** Everything fits the widths of its fields. *)
Record element_fits (id : Z) x : Prop := {
  ef_data : zlen (e_data x) = Z.of_nat dim;
  ef_floats : Forall (fun y => 0 <= y < 4294967296) (e_data x);
  ef_label : 0 <= e_label x < 18446744073709551616;
  ef_base : e_links x <> [];
  ef_levels : upper_size * zlen (e_links x) < 4294967296;
  ef_links : forall level l, zget (e_links x) level = Some l ->
    zlen l < 65536 /\ Forall (fun y => 0 <= y < 4294967296) l /\
    zlen (stale id level) = (Mcurmax M_ level - zlen l) * 4
}.

Definition fits g : Prop := forall id x, zget (elements g) id = Some x -> element_fits id x.

Lemma zlen_link_block mark l pad :
  zlen (link_block mark l pad) = 4 + zlen l * 4 + zlen pad.
Proof.
  unfold link_block. rewrite !zlen_app, zlen_le_bytes, zlen_words. change (zlen [Z.b2z mark; 0]) with 2.
  unfold tableint. lia.
Qed.

Lemma links_in_block mark l pad tail :
  zlen l < 65536 -> Forall (fun y => 0 <= y < 4294967296) l -> links_in (link_block mark l pad ++ tail) = l.
Proof.
  intros Hl Hw. pose proof (zlen_nonneg l). unfold links_in, getListCount, link_block.
  assert (Hc : le_number (le_bytes 2 (zlen l)) = zlen l).
  { apply le_number_bytes. change (256 ^ Z.of_nat 2) with 65536. lia. }
  rewrite <- !app_assoc, (ztake_app_exact (le_bytes 2 (zlen l))), Hc by done.
  rewrite app_assoc, (zdrop_app_exact (le_bytes 2 (zlen l) ++ _)) by done.
  unfold zlen at 1. rewrite Nat2Z.id. by apply words_written.
Qed.

Lemma mark_in_block mark l pad tail : Z.testbit (nth 2 (link_block mark l pad ++ tail) 0) 0 = mark.
Proof. by destruct mark. Qed.

Lemma zlen_level0_block id x : element_fits id x -> zlen (level0_block id x) = data_size.
Proof.
  intros [Hd _ _ Hb _ Hl]. unfold level0_block. rewrite !zlen_app, zlen_link_block, zlen_words, zlen_le_bytes, Hd.
  destruct (e_links x) as [|l ls]; [done|]. destruct (Hl 0 l) as (_ & _ & Hs); [apply zget_0_cons|].
  cbn [hd]. rewrite Hs. unfold size_links_level0_, Mcurmax. cbn. lia.
Qed.

Lemma upper_blocks_size id x : element_fits id x -> Forall (fun b => zlen b = upper_size) (upper_blocks id x).
Proof.
  intros [_ _ _ Hb _ Hl]. apply Forall_lookup. intros i b Hi. unfold upper_blocks in Hi.
  rewrite list_lookup_imap in Hi. destruct (tl (e_links x) !! i) as [l|] eqn:Hli; [|done]. injection Hi as <-.
  destruct (Hl (Z.of_nat i + 1) l) as (_ & _ & Hs).
  { destruct (e_links x) as [|l0 ls]; [done|]. cbn in Hli. rewrite zget_cons_pos by lia.
    replace (Z.of_nat i + 1 - 1) with (Z.of_nat i) by lia. unfold zget.
    destruct (Z.leb_spec 0 (Z.of_nat i)); [|lia]. by rewrite Nat2Z.id. }
  rewrite zlen_link_block, Hs. unfold size_links_per_element_, Mcurmax. destruct (Z.eqb_spec (Z.of_nat i + 1) 0); lia.
Qed.

Lemma zget_imap {A B} (f : Z -> A -> B) (l : list A) i :
  zget (imap (fun k => f (Z.of_nat k)) l) i = f i <$> zget l i.
Proof.
  unfold zget. destruct (Z.leb_spec 0 i); [|done]. rewrite list_lookup_imap.
  destruct (l !! Z.to_nat i); [|done]. cbn. by rewrite Z2Nat.id.
Qed.

Lemma imap_blocks {A} (f : Z -> A -> bytes) (l : list A) d :
  (forall i y, zget l i = Some y -> zlen (f i y) = d) ->
  Forall (fun b => zlen b = d) (imap (fun k => f (Z.of_nat k)) l).
Proof.
  intros Hf. apply Forall_lookup. intros i b Hi. rewrite list_lookup_imap in Hi.
  destruct (l !! i) as [y|] eqn:Hy; [|done]. injection Hi as <-. apply Hf. unfold zget.
  destruct (Z.leb_spec 0 (Z.of_nat i)); [|lia]. by rewrite Nat2Z.id.
Qed.

Section memory.
Variables (max nd : Z) (lk : gmap labeltype tableint) (unused : bytes) (g : HierarchicalNSW).
Hypothesis HM : 1 <= M_.
Hypothesis Hfits : fits g.
Abbreviation mm := (memory_with max nd lk unused g).

(** What the memory holds from the start of an element's block on. *)
Lemma block_at id x :
  zget (elements g) id = Some x ->
  exists tail, zdrop (id * data_size) (data_level0_memory_ mm) = level0_block id x ++ tail.
Proof.
  intros Hx. cbn [data_level0_memory_ memory_with]. apply zdrop_blocks.
  - unfold size_links_level0_, maxM0_. lia.
  - apply imap_blocks. intros i y Hy. by apply zlen_level0_block, Hfits.
  - rewrite zget_imap, Hx. done.
Qed.

Lemma block_part id x a b c off :
  zget (elements g) id = Some x -> level0_block id x = a ++ b ++ c -> zlen a = off ->
  exists tail, zdrop (id * data_size + off) (data_level0_memory_ mm) = b ++ tail.
Proof.
  intros Hx Hb Hoff. destruct (block_at id x Hx) as [tail Ht]. apply zget_bounds in Hx.
  pose proof (zlen_nonneg a). rewrite zdrop_add, Ht, Hb, <- !app_assoc.
  - exists (c ++ tail). by apply zdrop_app_exact.
  - unfold size_links_level0_, maxM0_. nia.
  - lia.
Qed.

Lemma upper_links id x level l :
  zget (elements g) id = Some x -> 0 < level -> zget (e_links x) level = Some l ->
  links_in (linklist_at mm id level) = l.
Proof.
  intros Hx Hlv Hl. pose proof (Hfits _ _ Hx) as Hf. destruct (ef_links _ _ Hf level l Hl) as (H1 & H2 & _).
  unfold linklist_at. destruct (Z.eqb_spec level 0); [lia|]. cbn [linkLists_ memory_with i_maxM].
  rewrite (zget_imap (fun i x => mjoin (upper_blocks i x))), Hx. cbn [fmap option_fmap option_map default].
  assert (Hb : zget (upper_blocks id x) (level - 1) = Some (link_block false l (stale id level))).
  { unfold upper_blocks. rewrite (zget_imap (fun k l => link_block false l (stale id (k + 1)))).
    destruct (e_links x) as [|l0 ls]; [apply zget_bounds in Hl; unfold zlen in Hl; cbn in Hl; lia|].
    rewrite zget_cons_pos in Hl by lia. cbn [tl]. rewrite Hl. cbn.
    by rewrite Z.sub_add. }
  destruct (zdrop_blocks upper_size (upper_blocks id x) [] (level - 1) _ ltac:(unfold size_links_per_element_, maxM_; lia)
    (upper_blocks_size id x Hf) Hb) as [tail Ht]. rewrite app_nil_r in Ht.
  unfold Datatypes.id. rewrite Ht. by apply links_in_block.
Qed.

(** The memory image represents the index. *)
Lemma element_in_memory id x : zget (elements g) id = Some x -> element_in mm dim id = x.
Proof.
  intros Hx. pose proof (Hfits _ _ Hx) as [Hd Hfl Hlab Hb Hlv Hl].
  set (lb := link_block (e_deleted x) (hd [] (e_links x)) (stale id 0)).
  set (db := mjoin (le_bytes 4 <$> e_data x)). set (yb := le_bytes 8 (e_label x)).
  assert (Hblk : level0_block id x = lb ++ db ++ yb) by done.
  destruct (e_links x) as [|l0 ls] eqn:Els; [done|]. cbn [hd] in lb.
  destruct (Hl 0 l0 (zget_0_cons _ _)) as (H1 & H2 & H3).
  assert (Hlen : zlen lb = level0_size).
  { unfold lb. rewrite zlen_link_block, H3. unfold size_links_level0_, Mcurmax. cbn. lia. }
  destruct (block_part id x [] lb (db ++ yb) 0 Hx Hblk eq_refl) as [t1 E1].
  destruct (block_part id x lb db yb level0_size Hx Hblk Hlen) as [t2 E2].
  destruct (block_part id x (lb ++ db) yb [] (level0_size + Z.of_nat dim * 4) Hx) as [t3 E3].
  { by rewrite Hblk, app_nil_r, <- app_assoc. }
  { rewrite zlen_app, Hlen. unfold db. rewrite zlen_words, Hd. lia. }
  destruct x as [xd xl xdel xls]. cbn [e_data e_label e_deleted e_links] in *. subst xls. unfold element_in. f_equal.
  - unfold data_at. cbn [size_data_per_element_ offsetData_ memory_with]. rewrite E2.
    replace dim with (length xd) by (unfold zlen in Hd; lia). by apply words_written.
  - unfold label_at. cbn [size_data_per_element_ label_offset_ memory_with]. rewrite E3.
    rewrite (ztake_app_exact yb) by (unfold yb; apply zlen_le_bytes). by apply le_number_bytes.
  - unfold marked_deleted, linklist_at. cbn [size_data_per_element_ offsetLevel0_ memory_with Z.eqb]. rewrite E1.
    apply mark_in_block.
  - cbn [element_levels_ memory_with]. rewrite zget_fmap, Hx. cbn [fmap option_fmap option_map default e_links].
    unfold Datatypes.id. replace (zlen (l0 :: ls) - 1 + 1) with (zlen (l0 :: ls)) by lia.
    apply list_eq. intros i. rewrite list_lookup_fmap. destruct ((l0 :: ls) !! i) as [l|] eqn:Hi.
    + apply lookup_lt_Some in Hi as Hlt. rewrite lookup_seqZ_lt by (unfold zlen, tableint in *; lia). cbn [fmap option_fmap option_map].
      f_equal. replace (0 + Z.of_nat i) with (Z.of_nat i) by lia.
      assert (Hz : zget (l0 :: ls) (Z.of_nat i) = Some l).
      { unfold zget. destruct (Z.leb_spec 0 (Z.of_nat i)); [|lia]. by rewrite Nat2Z.id. }
      destruct (decide (i = 0%nat)) as [-> |Hne].
      * injection Hi as <-. unfold linklist_at. cbn [size_data_per_element_ offsetLevel0_ memory_with Z.eqb Z.of_nat].
        rewrite E1. by apply links_in_block.
      * by apply (upper_links id _ _ _ Hx); [lia|].
    + apply lookup_ge_None in Hi. rewrite lookup_seqZ_ge by (unfold zlen, tableint in *; lia). done.
Qed.

Lemma index_in_memory :
  index_in mm dim = mk_graph max nd (maxlevel_ g) (enterpoint_node_ g) (elements g) lk.
Proof.
  unfold index_in. cbn [i_max_elements i_num_deleted i_maxlevel i_enterpoint_node i_cur_element_count i_label_lookup memory_with].
  f_equal. apply list_eq. intros i. rewrite list_lookup_fmap. unfold cur_element_count.
  destruct (elements g !! i) as [x|] eqn:Hi.
  - apply lookup_lt_Some in Hi as Hlt. rewrite lookup_seqZ_lt, Z.add_0_l by (unfold zlen; lia). cbn [fmap option_fmap option_map].
    f_equal. apply element_in_memory. unfold zget. destruct (Z.leb_spec 0 (Z.of_nat i)); [|lia]. by rewrite Nat2Z.id.
  - apply lookup_ge_None in Hi. rewrite lookup_seqZ_ge by (unfold zlen; lia). done.
Qed.
End memory.
End layout.

(** ** Reading what was written *)

Section reading.
Implicit Types (file pre rest extra u : bytes) (ups : list bytes).

Abbreviation fields_size fs := (zlen (mjoin (writeBinaryPOD <$> fs))).

Lemma read_at pre b rest pos n :
  zlen pre = pos -> zlen b = n -> readBinaryPOD (pre ++ b ++ rest) pos n = Ok (le_number b).
Proof.
  intros Hp Hb. unfold readBinaryPOD. rewrite !zlen_app. pose proof (zlen_nonneg rest).
  destruct (Z.leb_spec (pos + n) (zlen pre + (zlen b + zlen rest))); [|lia].
  by rewrite (zdrop_app_exact pre), (ztake_app_exact b).
Qed.

Lemma read_field (fs : list (nat * Z)) rest k n v :
  fs !! k = Some (n, v) -> 0 <= v < 256 ^ Z.of_nat n ->
  readBinaryPOD (mjoin (writeBinaryPOD <$> fs) ++ rest) (fields_size (take k fs)) (Z.of_nat n) = Ok v.
Proof.
  intros Hk Hv.
  assert (Hm : mjoin (writeBinaryPOD <$> fs) =
    mjoin (writeBinaryPOD <$> take k fs) ++ le_bytes n v ++ mjoin (writeBinaryPOD <$> drop (S k) fs)).
  { transitivity (mjoin (writeBinaryPOD <$> (take k fs ++ (n, v) :: drop (S k) fs)));
      [by rewrite take_drop_middle|].
    rewrite fmap_app. exact (join_app (A := Z) _ _). }
  rewrite Hm, <- !app_assoc, read_at; [|done|apply zlen_le_bytes]. by rewrite le_number_bytes.
Qed.

(** Reading from a longer file. *)
Lemma read_prefix file k pos n :
  0 <= pos -> 0 <= n -> pos + n <= k -> readBinaryPOD (ztake k file) pos n = readBinaryPOD file pos n \/
    zlen file < k.
Proof.
  intros Hp Hn Hk. destruct (Z.le_gt_cases k (zlen file)) as [Hle|]; [|by right]. left.
  unfold readBinaryPOD. rewrite zlen_ztake by lia.
  destruct (Z.leb_spec (pos + n) k), (Z.leb_spec (pos + n) (zlen file)); try lia. do 2 f_equal.
  unfold ztake, zdrop. rewrite !take_drop_commute, take_take. do 2 f_equal. lia.
Qed.

(** The upper links of one element in the file. *)
Definition packed (u : bytes) : bytes := le_bytes 4 (zlen u) ++ u.

Lemma mjoin_packed u ups : mjoin (packed <$> u :: ups) = le_bytes 4 (zlen u) ++ u ++ mjoin (packed <$> ups).
Proof. rewrite fmap_cons. change (mjoin (packed u :: (packed <$> ups))) with (packed u ++ mjoin (packed <$> ups)).
  unfold packed at 1. by rewrite <- app_assoc. Qed.

Lemma read_size pre u rest :
  zlen u < 4294967296 -> readBinaryPOD (pre ++ le_bytes 4 (zlen u) ++ rest) (zlen pre) 4 = Ok (zlen u).
Proof.
  intros Hu. pose proof (zlen_nonneg u). rewrite read_at; [|done|apply zlen_le_bytes].
  rewrite le_number_bytes; [done|]. change (256 ^ Z.of_nat 4) with 4294967296. lia.
Qed.

Lemma check_lists_ok pre ups extra :
  Forall (fun u => zlen u < 4294967296) ups ->
  check_lists (pre ++ mjoin (packed <$> ups) ++ extra) (length ups) (zlen pre) =
    if zlen extra =? 0 then Ok tt else corrupted.
Proof.
  intros Hups. revert pre. induction Hups as [|u ups Hu _ IH]; intros pre; cbn [check_lists length].
  - cbn. rewrite zlen_app. destruct (Z.eqb_spec (zlen pre) (zlen pre + zlen extra)), (Z.eqb_spec (zlen extra) 0); done || lia.
  - rewrite mjoin_packed, <- !app_assoc. pose proof (zlen_nonneg pre) as Hp.
    destruct (Z.ltb_spec (zlen pre) 0); [lia|]. rewrite Z.geb_leb, !zlen_app, zlen_le_bytes.
    pose proof (zlen_nonneg u). pose proof (zlen_nonneg (mjoin (packed <$> ups))). pose proof (zlen_nonneg extra).
    destruct (Z.leb_spec (zlen pre + (Z.of_nat 4 + (zlen u + (zlen (mjoin (packed <$> ups)) + zlen extra)))) (zlen pre)); [lia|].
    cbn [orb]. rewrite read_size, rbind_ret by done.
    specialize (IH (pre ++ le_bytes 4 (zlen u) ++ u)). rewrite !zlen_app, zlen_le_bytes, <- !app_assoc in IH.
    replace (zlen pre + 4 + zlen u) with (zlen pre + (Z.of_nat 4 + zlen u)) by lia. exact IH.
Qed.

Lemma load_lists_ok pre ups maxM :
  Forall (fun u => zlen u < 4294967296) ups ->
  load_lists (pre ++ mjoin (packed <$> ups)) (length ups) (zlen pre) maxM =
    Ok ((fun u => if zlen u =? 0 then 0 else zlen u / size_links_per_element_ maxM) <$> ups, ups).
Proof.
  intros Hups. revert pre. induction Hups as [|u ups Hu _ IH]; intros pre; cbn [load_lists length]; [done|].
  rewrite mjoin_packed. rewrite read_size, rbind_ret by done.
  specialize (IH (pre ++ le_bytes 4 (zlen u) ++ u)). rewrite !zlen_app, zlen_le_bytes, <- !app_assoc in IH.
  replace (zlen pre + 4 + zlen u) with (zlen pre + (Z.of_nat 4 + zlen u)) by lia. rewrite IH, rbind_ret.
  rewrite fmap_cons. do 3 f_equal. rewrite (app_assoc pre (le_bytes 4 (zlen u))).
  rewrite (zdrop_app_exact (pre ++ _)) by (rewrite zlen_app, zlen_le_bytes; lia). by apply ztake_app_exact.
Qed.

(** A file that ends too early. *)
Lemma check_lists_short pre ups k :
  Forall (fun u => zlen u < 4294967296) ups -> 0 <= k < zlen (pre ++ mjoin (packed <$> ups)) ->
  check_lists (ztake k (pre ++ mjoin (packed <$> ups))) (length ups) (zlen pre) = corrupted.
Proof.
  intros Hups Hk. set (file := pre ++ mjoin (packed <$> ups)) in *.
  assert (Hlen : zlen (ztake k file) = k) by (apply zlen_ztake; lia).
  revert pre file Hk Hlen. induction Hups as [|u ups Hu _ IH]; intros pre file Hk Hlen; cbn [check_lists length]; rewrite Hlen.
  - assert (zlen file = zlen pre) by (unfold file; cbn; by rewrite app_nil_r).
    destruct (Z.eqb_spec (zlen pre) k); [lia|done].
  - pose proof (zlen_nonneg pre). pose proof (zlen_nonneg u). destruct (Z.ltb_spec (zlen pre) 0); [lia|]. cbn [orb].
    rewrite Z.geb_leb. destruct (Z.leb_spec k (zlen pre)); [done|].
    destruct (Z.le_gt_cases (zlen pre + 4) k) as [Hr|Hr].
    + destruct (read_prefix file k (zlen pre) 4 ltac:(lia) ltac:(lia) Hr) as [->|]; [|lia].
      unfold file at 1. rewrite mjoin_packed, read_size, rbind_ret by done.
      assert (Hfile : file = (pre ++ le_bytes 4 (zlen u) ++ u) ++ mjoin (packed <$> ups)).
      { unfold file. rewrite mjoin_packed. by rewrite <- !app_assoc. }
      specialize (IH (pre ++ le_bytes 4 (zlen u) ++ u)). cbn zeta in IH. rewrite <- Hfile in IH.
      rewrite !zlen_app, zlen_le_bytes in IH.
      replace (zlen pre + 4 + zlen u) with (zlen pre + (Z.of_nat 4 + zlen u)) by lia. by apply IH.
    + unfold readBinaryPOD. rewrite Hlen. by destruct (Z.leb_spec (zlen pre + 4) k); [lia|].
Qed.
End reading.

(** ** Saving and loading an index *)

Section roundtrip.
Variables (M_ ef_construction_ mult : Z) (dim : nat).
Variable stale : tableint -> Z -> bytes.
Variable g : HierarchicalNSW.
Hypothesis HM : 1 <= M_.
Hypothesis Hfits : fits M_ dim stale g.

Abbreviation upper_size := (size_links_per_element_ (maxM_ M_)).
Abbreviation data_size := (size_links_level0_ (maxM0_ M_) + Z.of_nat dim * 4 + 8).
Abbreviation memory := (memory_with M_ ef_construction_ mult dim stale).
Abbreviation blocks := (imap (fun i x => level0_block stale (Z.of_nat i) x) (elements g)).
Abbreviation uppers := (imap (fun i x => mjoin (upper_blocks stale (Z.of_nat i) x)) (elements g)).

(** The header's fields fit their widths, and the base layer a file offset. *)
Record header_fits (max : Z) : Prop := {
  hf_max : 0 <= max < 18446744073709551616;
  hf_level0 : cur_element_count g * data_size < 9223372036854775808;
  hf_size : data_size < 18446744073709551616;
  hf_maxlevel : -2147483648 <= maxlevel_ g < 2147483648;
  hf_entry : 0 <= enterpoint_node_ g < 4294967296;
  hf_mult : 0 <= mult < 18446744073709551616;
  hf_ef : 0 <= ef_construction_ < 18446744073709551616
}.

Lemma blocks_len : zlen (mjoin blocks) = cur_element_count g * data_size.
Proof.
  rewrite (zlen_blocks data_size).
  - unfold zlen, cur_element_count. by rewrite length_imap.
  - apply (imap_blocks (level0_block stale)). intros i x Hx. by eapply zlen_level0_block, Hfits.
Qed.

Lemma upper_len id x :
  zget (elements g) id = Some x -> zlen (mjoin (upper_blocks stale id x)) = upper_size * (zlen (e_links x) - 1).
Proof.
  intros Hx. pose proof (Hfits _ _ Hx) as Hf. rewrite (zlen_blocks upper_size) by (by eapply upper_blocks_size).
  unfold upper_blocks, zlen. rewrite length_imap. destruct (e_links x) as [|l ls] eqn:E; [by destruct (ef_base _ _ _ _ _ Hf)|].
  cbn [tl length]. lia.
Qed.

Lemma uppers_small : Forall (fun u => zlen u < 4294967296) uppers.
Proof.
  apply Forall_lookup. intros i u Hi. rewrite list_lookup_imap in Hi.
  destruct (elements g !! i) as [x|] eqn:Hx; [|done]. injection Hi as <-.
  assert (Hz : zget (elements g) (Z.of_nat i) = Some x).
  { unfold zget. destruct (Z.leb_spec 0 (Z.of_nat i)); [|lia]. by rewrite Nat2Z.id. }
  rewrite (upper_len _ _ Hz). pose proof (ef_levels _ _ _ _ _ (Hfits _ _ Hz)).
  unfold size_links_per_element_, maxM_ in *. lia.
Qed.

Section saved.
Variables (max nd : Z) (lk : gmap labeltype tableint) (unused : bytes).
Abbreviation mm := (memory max nd lk unused g).

Lemma saved_list_eq id x :
  zget (elements g) id = Some x -> saved_list mm id = packed (mjoin (upper_blocks stale id x)).
Proof.
  intros Hx. unfold saved_list, packed.
  assert (Hs : linkListSize mm id = zlen (mjoin (upper_blocks stale id x))).
  { rewrite (upper_len id x Hx). unfold linkListSize. cbn [element_levels_ memory_with i_maxM].
    rewrite zget_fmap, Hx. cbn [fmap option_fmap option_map default]. unfold Datatypes.id.
    pose proof (Hfits _ _ Hx) as Hf. pose proof (ef_levels _ _ _ _ _ Hf) as Hl. pose proof (zlen_nonneg (e_links x)).
    assert (Hpos : 1 <= zlen (e_links x)).
    { pose proof (ef_base _ _ _ _ _ Hf). destruct (e_links x) as [|l ls]; [done|]. rewrite zlen_cons. pose proof (zlen_nonneg ls). lia. }
    rewrite Z.gtb_ltb. destruct (Z.ltb_spec 0 (zlen (e_links x) - 1)) as [Hlt|Hge].
    - apply uint32_id. unfold size_links_per_element_, maxM_ in *. nia.
    - assert (zlen (e_links x) = 1) as -> by lia. lia. }
  rewrite Hs. cbn [linkLists_ memory_with].
  rewrite (zget_imap (fun i x => mjoin (upper_blocks stale i x))), Hx. cbn [fmap option_fmap option_map default].
  unfold Datatypes.id. by rewrite ztake_all.
Qed.

Lemma saveIndex_eq : saveIndex mm = header mm ++ mjoin blocks ++ mjoin (packed <$> uppers).
Proof.
  unfold saveIndex. f_equal. f_equal.
  - cbn [i_cur_element_count size_data_per_element_ data_level0_memory_ memory_with].
    apply ztake_app_exact, blocks_len.
  - f_equal. apply list_eq. intros i. rewrite !list_lookup_fmap. cbn [i_cur_element_count memory_with].
    rewrite list_lookup_imap. unfold cur_element_count. destruct (elements g !! i) as [x|] eqn:Hi.
    + apply lookup_lt_Some in Hi as Hlt. rewrite lookup_seqZ_lt, Z.add_0_l by (unfold zlen; lia).
      cbn [fmap option_fmap option_map]. f_equal. apply saved_list_eq. unfold zget.
      destruct (Z.leb_spec 0 (Z.of_nat i)); [|lia]. by rewrite Nat2Z.id.
    + apply lookup_ge_None in Hi. rewrite lookup_seqZ_ge by (unfold zlen; lia). done.
Qed.

Lemma header_len : zlen (header mm) = 96.
Proof. reflexivity. Qed.
End saved.

(** The header as it is read. *)
Definition read_head (max : Z) : hnsw_memory :=
  mk_memory 0 (if 0 <? cur_element_count g then max else 0) (cur_element_count g) data_size
    (size_links_level0_ (maxM0_ M_) + Z.of_nat dim * 4) (size_links_level0_ (maxM0_ M_)) (maxlevel_ g)
    (enterpoint_node_ g) (maxM_ M_) (maxM0_ M_) M_ mult ef_construction_ [] [] [] 0 ∅.

Lemma load_header_ok max nd lk unused rest :
  header_fits max -> load_header (header (memory max nd lk unused g) ++ rest) = Ok (read_head max).
Proof.
  intros [H1 H2 H3 H4 H5 H6 H7]. set (mm := memory max nd lk unused g). unfold header.
  pose proof (zlen_nonneg (elements g)) as Hc.
  assert (Hcount : 0 <= cur_element_count g < 18446744073709551616).
  { unfold cur_element_count in *. unfold size_links_level0_, maxM0_ in *. nia. }
  assert (Hu : 0 <= uint32 (maxlevel_ g) < 256 ^ Z.of_nat 4) by (apply Z.mod_pos_bound; done).
  assert (Hi : int32 (uint32 (maxlevel_ g)) = maxlevel_ g).
  { unfold int32, uint32. rewrite Z.add_mod_idemp_l by done. rewrite Z.mod_small; lia. }
  unfold size_links_level0_, maxM0_, maxM_ in *.
  assert (Hread : forall k n v, header_fields mm !! k = Some (n, v) -> 0 <= v < 256 ^ Z.of_nat n ->
    readBinaryPOD (mjoin (writeBinaryPOD <$> header_fields mm) ++ rest)
      (zlen (mjoin (writeBinaryPOD <$> take k (header_fields mm)))) (Z.of_nat n) = Ok v)
    by (intros; by apply read_field).
  change (256 ^ Z.of_nat 4) with 4294967296 in *. unfold load_header.
  assert (H8 : forall z, 0 <= z < 18446744073709551616 -> 0 <= z < 256 ^ Z.of_nat 8) by done.
  assert (Hsz : 0 <= size_data_per_element_ mm < 18446744073709551616) by (cbn; unfold size_links_level0_, maxM0_; lia).
  assert (Hlo : 0 <= label_offset_ mm < 18446744073709551616) by (cbn; unfold size_links_level0_, maxM0_; lia).
  assert (Hod : 0 <= offsetData_ mm < 18446744073709551616) by (cbn; unfold size_links_level0_, maxM0_; lia).
  assert (HM8 : 0 <= M_ < 18446744073709551616) by lia.
  assert (HM0 : 0 <= M_ * 2 < 18446744073709551616) by lia.
  rewrite (Hread 0%nat 8%nat 0 eq_refl (H8 0 ltac:(lia)) : readBinaryPOD _ 0 8 = _), rbind_ret.
  rewrite (Hread 1%nat 8%nat max eq_refl (H8 _ H1) : readBinaryPOD _ 8 8 = _), rbind_ret.
  rewrite (Hread 2%nat 8%nat (cur_element_count g) eq_refl (H8 _ Hcount) : readBinaryPOD _ 16 8 = _), rbind_ret.
  rewrite (Hread 3%nat 8%nat (size_data_per_element_ mm) eq_refl (H8 _ Hsz) : readBinaryPOD _ 24 8 = _), rbind_ret.
  rewrite (Hread 4%nat 8%nat (label_offset_ mm) eq_refl (H8 _ Hlo) : readBinaryPOD _ 32 8 = _), rbind_ret.
  rewrite (Hread 5%nat 8%nat (offsetData_ mm) eq_refl (H8 _ Hod) : readBinaryPOD _ 40 8 = _), rbind_ret.
  rewrite (Hread 6%nat 4%nat (uint32 (maxlevel_ g)) eq_refl Hu : readBinaryPOD _ 48 4 = _), rbind_ret.
  rewrite (Hread 7%nat 4%nat (enterpoint_node_ g) eq_refl H5 : readBinaryPOD _ 52 4 = _), rbind_ret.
  rewrite (Hread 8%nat 8%nat M_ eq_refl (H8 _ HM8) : readBinaryPOD _ 56 8 = _), rbind_ret.
  rewrite (Hread 9%nat 8%nat (M_ * 2) eq_refl (H8 _ HM0) : readBinaryPOD _ 64 8 = _), rbind_ret.
  rewrite (Hread 10%nat 8%nat M_ eq_refl (H8 _ HM8) : readBinaryPOD _ 72 8 = _), rbind_ret.
  rewrite (Hread 11%nat 8%nat mult eq_refl (H8 _ H6) : readBinaryPOD _ 80 8 = _), rbind_ret.
  rewrite (Hread 12%nat 8%nat ef_construction_ eq_refl (H8 _ H7) : readBinaryPOD _ 88 8 = _), rbind_ret.
  cbv zeta. by rewrite Hi.
Qed.

Lemma loaded_levels :
  (fun u : bytes => if zlen u =? 0 then 0 else zlen u / upper_size) <$> uppers =
  (fun x => zlen (e_links x) - 1) <$> elements g.
Proof.
  apply list_eq. intros i. rewrite !list_lookup_fmap, list_lookup_imap.
  destruct (elements g !! i) as [x|] eqn:Hi; [|done]. cbn [fmap option_fmap option_map]. f_equal.
  assert (Hz : zget (elements g) (Z.of_nat i) = Some x).
  { unfold zget. destruct (Z.leb_spec 0 (Z.of_nat i)); [|lia]. by rewrite Nat2Z.id. }
  rewrite (upper_len _ _ Hz). assert (Hu : 0 < upper_size) by (unfold size_links_per_element_, maxM_; lia).
  destruct (Z.eqb_spec (upper_size * (zlen (e_links x) - 1)) 0) as [E|E]; [nia|].
  rewrite Z.mul_comm. apply Z.div_mul. lia.
Qed.

(** The map of labels that loading builds. *)
Lemma fold_lookup (f : Z -> labeltype) ids label id :
  (forall i j, i ∈ ids -> j ∈ ids -> f i = f j -> i = j) ->
  foldl (fun lk i => <[f i := i]> lk) (∅ : gmap labeltype tableint) ids !! label = Some id <-> id ∈ ids /\ f id = label.
Proof.
  induction ids as [|k ids IH] using rev_ind; intros Hinj.
  - cbn. rewrite lookup_empty. set_solver.
  - rewrite foldl_app. cbn [foldl]. rewrite lookup_insert_Some, IH by set_solver.
    rewrite elem_of_app, list_elem_of_singleton. split.
    + intros [[<- <-]|(Hne & Hin & <-)]; [by auto|by auto].
    + intros [[Hin| ->] <-]; [|by left]. destruct (decide (f k = f id)) as [E|]; [left|by right].
      split; [done|]. apply Hinj; set_solver.
Qed.

Lemma loaded_lookup max unused :
  index_ok M_ g ->
  foldl (fun lk id => <[label_at (memory max 0 ∅ unused g) id := id]> lk) ∅ (seqZ 0 (cur_element_count g)) = label_lookup_ g.
Proof.
  intros Hix. set (m0 := memory max 0 ∅ unused g).
  assert (Hlab : forall id x, zget (elements g) id = Some x -> label_at m0 id = e_label x).
  { intros id x Hx. by rewrite <- (element_in_memory M_ ef_construction_ mult dim stale max 0 ∅ unused g HM Hfits id x Hx). }
  assert (Hget : forall id, id ∈ seqZ 0 (cur_element_count g) -> exists x, zget (elements g) id = Some x).
  { intros id Hid. apply elem_of_seqZ in Hid. apply zget_is_Some. unfold cur_element_count in Hid. lia. }
  assert (Hsome : forall id x, zget (elements g) id = Some x -> label_lookup_ g !! e_label x = Some id).
  { intros id x Hx. apply (io_labels _ _ Hix). by exists x. }
  apply map_eq. intros label. apply option_eq. intros id. rewrite fold_lookup.
  - rewrite (io_labels _ _ Hix). split.
    + intros [Hid <-]. destruct (Hget id Hid) as [x Hx]. exists x. by rewrite (Hlab _ _ Hx).
    + intros (x & Hx & <-). split; [|by apply Hlab]. apply elem_of_seqZ. apply zget_bounds in Hx. unfold cur_element_count. lia.
  - intros i j Hi Hj. destruct (Hget i Hi) as [x Hx], (Hget j Hj) as [y Hy]. rewrite (Hlab _ _ Hx), (Hlab _ _ Hy).
    intros E. pose proof (Hsome _ _ Hx) as H1. pose proof (Hsome _ _ Hy) as H2. rewrite E in H1. congruence.
Qed.

Variable junk : Z.
Variable fresh : bytes.

(** Everything after the header. *)
Lemma load_elements_ok max nd lk unused :
  header_fits max -> index_ok M_ g ->
  load_elements (saveIndex (memory max nd lk unused g)) junk fresh (read_head max) =
    Ok (memory (if 0 <? cur_element_count g then max else 0) (uint64 junk) (label_lookup_ g) fresh g).
Proof.
  intros Hh Hix. pose proof (zlen_nonneg (elements g)) as Hnn.
  assert (Hds : 0 <= data_size) by (unfold size_links_level0_, maxM0_; lia).
  rewrite saveIndex_eq. unfold load_elements. cbv zeta. cbn [i_cur_element_count size_data_per_element_ i_maxM read_head].
  rewrite int64_id by (pose proof (hf_level0 _ Hh); unfold is_int64, INT64_MIN, INT64_MAX, cur_element_count in *; nia).
  assert (Hn : Z.to_nat (cur_element_count g) = length uppers).
  { unfold cur_element_count, zlen. rewrite length_imap. lia. }
  rewrite Hn, (app_assoc (header _)).
  replace (96 + cur_element_count g * data_size) with (zlen (header (memory max nd lk unused g) ++ mjoin blocks))
    by (by rewrite zlen_app, blocks_len).
  pose proof (check_lists_ok (header (memory max nd lk unused g) ++ mjoin blocks) uppers [] uppers_small) as Hc.
  rewrite app_nil_r in Hc.
  match type of Hc with ?l = _ => match goal with |- context [check_lists ?f ?n ?p] => change (check_lists f n p) with l end end.
  rewrite Hc. change (zlen (@nil Z) =? 0) with true. cbv iota. rewrite rbind_ret.
  pose proof (load_lists_ok (header (memory max nd lk unused g) ++ mjoin blocks) uppers (maxM_ M_) uppers_small) as Hl.
  match type of Hl with ?l = _ => match goal with |- context [load_lists ?f ?n ?p ?q] => change (load_lists f n p q) with l end end.
  rewrite Hl, rbind_ret, loaded_levels.
  rewrite <- app_assoc, (zdrop_app_exact (header _) _ 96) by done.
  rewrite (ztake_app_exact (mjoin blocks)) by apply blocks_len. cbv zeta.
  change (with_loaded (read_head max) (mjoin blocks ++ fresh) ((fun x => zlen (e_links x) - 1) <$> elements g) uppers 0 ∅)
    with (memory (if 0 <? cur_element_count g then max else 0) 0 ∅ fresh g).
  set (m0 := memory _ 0 ∅ fresh g).
  assert (Hel : forall id x, zget (elements g) id = Some x -> element_in m0 dim id = x).
  { intros id x Hx. by apply element_in_memory. }
  assert (Hdel : filter (fun id => marked_deleted m0 id = true) (seqZ 0 (cur_element_count g)) = []).
  { apply elem_of_nil_inv. intros id [Hm Hid]%list_elem_of_filter. apply elem_of_seqZ in Hid.
    destruct (zget_is_Some (elements g) id ltac:(unfold cur_element_count in Hid; lia)) as [x Hx].
    pose proof (f_equal e_deleted (Hel id x Hx)) as Hd. cbn [element_in e_deleted] in Hd.
    rewrite (hw_deleted _ (lo_wf _ _ (io_links _ _ Hix)) (io_deleted _ _ Hix) _ _ Hx) in Hd. congruence. }
  rewrite Hdel. change (zlen (@nil Z)) with 0. rewrite Z.add_0_r.
  assert (Hlk : foldl (fun lk id => <[label_at m0 id := id]> lk) ∅ (seqZ 0 (cur_element_count g)) = label_lookup_ g).
  { by apply loaded_lookup. }
  by rewrite Hlk.
Qed.

(** The part of the check that sees the length of the file. *)
Lemma load_elements_length file max :
  header_fits max -> check_lists file (length uppers) (96 + cur_element_count g * data_size) = corrupted ->
  load_elements file junk fresh (read_head max) = corrupted.
Proof.
  intros Hh Hc. pose proof (zlen_nonneg (elements g)) as Hnn.
  assert (Hds : 0 <= data_size) by (unfold size_links_level0_, maxM0_; lia).
  unfold load_elements. cbv zeta. cbn [i_cur_element_count size_data_per_element_ i_maxM read_head].
  rewrite int64_id by (pose proof (hf_level0 _ Hh); unfold is_int64, INT64_MIN, INT64_MAX, cur_element_count in *; nia).
  assert (Hn : Z.to_nat (cur_element_count g) = length uppers).
  { unfold cur_element_count, zlen. rewrite length_imap. lia. }
  by rewrite Hn, Hc.
Qed.

Lemma load_header_short file : zlen file < 96 -> load_header file = corrupted.
Proof.
  intros Hs. assert (Hr : forall pos n, readBinaryPOD file pos n = corrupted \/ exists z, readBinaryPOD file pos n = Ok z).
  { intros pos n. unfold readBinaryPOD. destruct (pos + n <=? zlen file); eauto. }
  assert (Hlast : readBinaryPOD file 88 8 = corrupted).
  { unfold readBinaryPOD. by destruct (Z.leb_spec (88 + 8) (zlen file)); [lia|]. }
  unfold load_header.
  repeat match goal with |- (do! _ <- readBinaryPOD file ?p ?n ;; _) = _ =>
    first [rewrite Hlast; reflexivity | destruct (Hr p n) as [->|[? ->]]; [reflexivity|rewrite rbind_ret]] end.
Qed.

(** A file that was cut off or has grown is refused. *)
Lemma load_other_length max nd lk unused file :
  header_fits max ->
  (exists k, 0 <= k < zlen (saveIndex (memory max nd lk unused g)) /\ file = ztake k (saveIndex (memory max nd lk unused g))) \/
  (exists extra, extra <> [] /\ file = saveIndex (memory max nd lk unused g) ++ extra) ->
  loadIndex file junk fresh = corrupted.
Proof.
  intros Hh. rewrite !saveIndex_eq. set (mm := memory max nd lk unused g).
  assert (Hpre : 96 + cur_element_count g * data_size = zlen (header mm ++ mjoin blocks)) by (by rewrite zlen_app, blocks_len).
  intros [(k & Hk & ->)|(extra & Hne & ->)]; unfold loadIndex.
  - destruct (Z.lt_ge_cases k 96) as [Hs|Hs].
    + rewrite load_header_short; [done|]. rewrite zlen_ztake by lia. lia.
    + assert (Hsplit : exists rest, ztake k (header mm ++ mjoin blocks ++ mjoin (packed <$> uppers)) = header mm ++ rest).
      { exists (ztake (k - 96) (mjoin blocks ++ mjoin (packed <$> uppers))). unfold ztake. rewrite take_app.
        change (length (header mm)) with 96%nat. rewrite take_ge by (change (length (header mm)) with 96%nat; lia).
        do 2 f_equal. lia. }
      destruct Hsplit as [rest Hrest]. rewrite Hrest at 1. unfold mm at 1. rewrite load_header_ok, rbind_ret by done.
      apply load_elements_length; [done|]. rewrite Hpre, app_assoc.
      apply check_lists_short; [apply uppers_small|]. by rewrite <- app_assoc.
  - rewrite <- app_assoc. unfold mm at 1. rewrite load_header_ok, rbind_ret by done.
    apply load_elements_length; [done|]. rewrite Hpre, <- app_assoc, app_assoc.
    pose proof (check_lists_ok (header mm ++ mjoin blocks) uppers extra uppers_small) as Hc.
    destruct (Z.eqb_spec (zlen extra) 0) as [E|_]; [by apply Z.eq_le_incl, zlen_0_inv in E|]. exact Hc.
Qed.
End roundtrip.

(** An index whose elements have the widths of the format. *)
Record savable (M_ : Z) (dim : nat) (g : HierarchicalNSW) : Prop := {
  sv_M : 1 <= M_ <= 32767;
  sv_elements : Forall (fun x => zlen (e_data x) = Z.of_nat dim /\ Forall (fun y => 0 <= y < 4294967296) (e_data x) /\
    0 <= e_label x < 18446744073709551616 /\
    size_links_per_element_ (maxM_ M_) * zlen (e_links x) < 4294967296) (elements g)
}.

(** The rest follows from the invariant of the index. *)
Lemma index_fits M_ dim stale g :
  index_ok M_ g -> savable M_ dim g ->
  (forall id level, zlen (stale id level) = (Mcurmax M_ level - zlen (links_at g id level)) * 4) ->
  fits M_ dim stale g.
Proof.
  intros Hix [HM Hel] Hst id x Hx. pose proof (io_links _ _ Hix) as [Hwf Hdeg _ _].
  pose proof (zget_elem _ _ _ Hx) as Hin. apply (proj1 (Forall_forall _ _) Hel) in Hin as (H1 & H2 & H3 & H4).
  split; try done; [by eapply hw_base|]. intros level l Hl.
  assert (Hat : links_at g id level = l) by (unfold links_at; by rewrite Hx, Hl).
  split_and!.
  - specialize (Hdeg id level). rewrite Hat in Hdeg. unfold Mcurmax, maxM_, maxM0_ in Hdeg. destruct (level =? 0); lia.
  - apply Forall_forall. intros y Hy. rewrite <- Hat in Hy. apply (hw_links _ Hwf) in Hy. apply on_level_valid in Hy.
    pose proof (hw_capacity _ Hwf). pose proof (io_size _ _ Hix). lia.
  - by rewrite Hst, Hat.
Qed.

(** The index a scan finds when it loads the file. *)
Lemma loaded_index M_ ef_construction_ mult dim stale g unused fresh junk :
  index_ok M_ g -> savable M_ dim g -> header_fits M_ ef_construction_ mult dim g (max_elements_ g) ->
  (forall id level, zlen (stale id level) = (Mcurmax M_ level - zlen (links_at g id level)) * 4) ->
  exists mm, loadIndex (saveIndex (memory_with M_ ef_construction_ mult dim stale (max_elements_ g) (num_deleted_ g)
      (label_lookup_ g) unused g)) junk fresh = Ok mm /\
    index_in mm dim = mk_graph (if 0 <? cur_element_count g then max_elements_ g else 0) (uint64 junk)
      (maxlevel_ g) (enterpoint_node_ g) (elements g) (label_lookup_ g).
Proof.
  intros Hix Hsv Hh Hst. pose proof (index_fits M_ dim stale g Hix Hsv Hst) as Hf.
  pose proof (proj1 (sv_M _ _ _ Hsv)) as HM. eexists. split.
  - unfold loadIndex. rewrite saveIndex_eq at 1 by done. rewrite load_header_ok, rbind_ret by done.
    by apply load_elements_ok.
  - by rewrite index_in_memory.
Qed.

(** ** Properties *)

(** C5. A scan searches the index that was built.  The memory image of an index
    in which no element is marked deleted, and that fits the widths of the file
    format, represents it whatever is left over behind its link lists; loading the
    file [saveIndex] writes gives a memory image of the same graph: the same
    elements with their vectors, labels and links on every level, the same
    entry point and map of labels.  Two things are not kept: the capacity of
    an empty index becomes zero, and [num_deleted_], which the constructor
    does not initialize, starts from whatever the memory held.  A file that
    was cut off anywhere or has bytes added is refused with the error for a
    corrupted index. *)
Theorem hnsw_file_roundtrip M_ ef_construction_ mult dim stale g unused fresh junk :
  index_ok M_ g -> savable M_ dim g -> header_fits M_ ef_construction_ mult dim g (max_elements_ g) ->
  (forall id level, zlen (stale id level) = (Mcurmax M_ level - zlen (links_at g id level)) * 4) ->
  let memory := memory_with M_ ef_construction_ mult dim stale (max_elements_ g) (num_deleted_ g)
                  (label_lookup_ g) unused g in
  (index_in memory dim = g) /\
  (exists mm, (loadIndex (saveIndex memory) junk fresh = Ok mm) /\
    index_in mm dim = mk_graph (if 0 <? cur_element_count g then max_elements_ g else 0) (uint64 junk)
      (maxlevel_ g) (enterpoint_node_ g) (elements g) (label_lookup_ g)) /\
  (forall k, 0 <= k < zlen (saveIndex memory) -> loadIndex (ztake k (saveIndex memory)) junk fresh = corrupted) /\
  (forall extra, extra <> [] -> loadIndex (saveIndex memory ++ extra) junk fresh = corrupted).
Proof.
  intros Hix Hsv Hh Hst memory. pose proof (index_fits M_ dim stale g Hix Hsv Hst) as Hf.
  pose proof (proj1 (sv_M _ _ _ Hsv)) as HM. split_and!.
  - unfold memory. rewrite index_in_memory by done. by destruct g.
  - by apply loaded_index.
  - intros k Hk. eapply load_other_length; [exact HM|exact Hf|exact Hh|]. left. by exists k.
  - intros extra Hne. eapply load_other_length; [exact HM|exact Hf|exact Hh|]. right. by exists extra.
Qed.

(** What is left over behind the link lists of an index. *)
Definition demo_stale (g : HierarchicalNSW) (id : tableint) (level : Z) : bytes :=
  replicate (Z.to_nat ((Mcurmax 2 level - zlen (links_at g id level)) * 4)) 77.

Lemma hnsw_file_roundtrip_witness :
  let memory := memory_with 2 200 7 1 (demo_stale demo_two_points) (max_elements_ demo_two_points)
                  (num_deleted_ demo_two_points) (label_lookup_ demo_two_points) [1; 2; 3] demo_two_points in
  (index_in memory 1 = demo_two_points) /\
  (exists mm, (loadIndex (saveIndex memory) 5 [9] = Ok mm) /\
    index_in mm 1 = mk_graph 4 (uint64 5) (maxlevel_ demo_two_points) (enterpoint_node_ demo_two_points)
      (elements demo_two_points) (label_lookup_ demo_two_points)) /\
  (forall k, 0 <= k < zlen (saveIndex memory) -> loadIndex (ztake k (saveIndex memory)) 5 [9] = corrupted) /\
  (forall extra, extra <> [] -> loadIndex (saveIndex memory ++ extra) 5 [9] = corrupted).
Proof.
  apply (hnsw_file_roundtrip 2 200 7 1 (demo_stale demo_two_points) demo_two_points [1; 2; 3] [9] 5).
  - exact demo_two_points_ok.
  - split; [lia|]. apply (bool_decide_unpack _). vm_compute. exact I.
  - split; apply (bool_decide_unpack _); vm_compute; exact I.
  - intros id level. unfold demo_stale, zlen at 1. rewrite length_replicate.
    pose proof (lo_degree _ _ (io_links _ _ demo_two_points_ok) id level). lia.
Defined.

(** The size of that file: the header, two blocks of 32 bytes, and the upper
    links of the first element. *)
Example demo_file_size :
  zlen (saveIndex (memory_with 2 200 7 1 (demo_stale demo_two_points) 4 0 ∅ [] demo_two_points)) = 96 + 2 * 32 + 4 + 12 + 4.
Proof. vm_compute. reflexivity. Qed.
