(* ===== verification/PaseScan.v ===== *)
(** * vectordb/src/pase_hnswindex.cpp: the PASE baseline's scan

    The access method the paper compares with: one bounded search for 188
    results when the first row is fetched, handed out best first.  It
    allocates no ORDER BY values and writes neither [xs_orderbyvals] nor
    [xs_inorder]. *)

From Stdlib Require Import ZArith Lia.
From stdpp Require Import base list sorting strings gmap fin_maps.
From S2P Require Import Prelude SortSupport Executor IndexAm HnswScan HnswGraph HnswTraversal HnswKnn.

Local Open Scope Z_scope.

Section pase.
(** [searchKnn] of the index loaded for the relation. *)
Variable search : list Z -> Z -> res (list (Z * labeltype)).
(** [1 - distance], a rounding operation on floats. *)
Variable one_minus : Z -> Z.

Record PaseWorkSpace := mk_pws { array : list Z; result : list (Z * labeltype) }.

Record PASE_HNSWScanOpaqueData := mk_pase {
  first : bool;
  workSpace : option PaseWorkSpace;
  (* the scan keys, which live in the descriptor *)
  keyData : key_space (list Z);
  orderByData : key_space (list Z)
}.

Abbreviation desc := (IndexScanDescData PASE_HNSWScanOpaqueData).
Abbreviation scan_keys := (option (option (list Z)) * option (option (list Z)))%type.
Implicit Types (scan : desc) (st : PASE_HNSWScanOpaqueData).

Definition pase_set_opaque scan st : desc :=
  mk_scan (kill_prior_tuple scan) (xactStartedInRecovery scan) st (xs_heaptid_orig scan)
    (xs_heaptid scan) (xs_heap_continue scan) (xs_recheck scan) (xs_orderbyvals scan)
    (xs_recheckorderby scan) (xs_inorder scan).

(** [mem] is what [palloc] returned. *)
Definition pase_hnsw_begin_scan (nkeys norderbys : Z) (recovery : bool) (mem : desc) : desc :=
  let scan := RelationGetIndexScan (opaque mem) recovery mem in
  pase_set_opaque scan (mk_pase true None (key_workspace nkeys) (key_workspace norderbys)).

Definition pase_hnsw_rescan (keys : scan_keys) scan : res desc :=
  let st := opaque scan in
  Ok (pase_set_opaque scan
        (mk_pase true None (fill_keys (keyData st) (fst keys)) (fill_keys (orderByData st) (snd keys)))).

(** [while (max_result.size() > 0)]: top, pop, push. *)
Fixpoint refill (max_result : list (Z * labeltype)) (q : list (Z * labeltype))
    : list (Z * labeltype) :=
  match max_result with
  | [] => q
  | item :: max_result => refill max_result (pair_push (one_minus (fst item), snd item) q)
  end.

(** The first call of a scan; the flag says whether there is a query. *)
Definition pase_start scan : res (desc * bool) :=
  let st := opaque scan in
  match orderByData st with
  | NoKeys => Error "cannot scan sptag index without order"
  | Unfilled => Crash
  | Filled None =>
    Ok (pase_set_opaque scan
          (mk_pase (first st) (Some (mk_pws [] [])) (keyData st) (orderByData st)), false)
  | Filled (Some target) =>
    do! max_result <- search target 188 ;;
    Ok (pase_set_opaque scan
          (mk_pase false (Some (mk_pws target (refill max_result []))) (keyData st)
             (orderByData st)), true)
  end.

(** The next of the results that were found. *)
Definition pase_next scan : res (desc * bool) :=
  let st := opaque scan in
  match workSpace st with
  | None => Crash
  | Some ws =>
    match result ws with
    | [] => Ok (scan, false)
    | item :: rest =>
      let st := mk_pase (first st) (Some (mk_pws (array ws) rest)) (keyData st) (orderByData st) in
      Ok (mk_scan (kill_prior_tuple scan) (xactStartedInRecovery scan) st (xs_heaptid_orig scan)
            (label_tid (snd item)) (xs_heap_continue scan) (xs_recheck scan) (xs_orderbyvals scan)
            false (xs_inorder scan), true)
    end
  end.

Definition pase_hnsw_gettuple scan (dir : ScanDirection) : res (desc * bool) :=
  if first (opaque scan) then
    do! ' (scan, query) <- pase_start scan ;;
    if query then pase_next scan else Ok (scan, false)
  else pase_next scan.

(** [EndScan] is empty, and deleting a null pointer is allowed. *)
Definition pase_hnsw_endscan scan : res unit := Ok tt.

Definition pase_am : IndexAmRoutine PASE_HNSWScanOpaqueData scan_keys := {|
  ambeginscan := fun keys => pase_hnsw_begin_scan (num_keys (fst keys)) (num_keys (snd keys));
  amrescan := pase_hnsw_rescan;
  amgettuple := pase_hnsw_gettuple
|}.

(** ** What a scan delivers *)

Definition pase_entry (rc : bool) (vals : list (option Datum)) (inorder : bool) (x : Z * labeltype)
    : ientry :=
  mk_ientry (label_tid (snd x)) rc vals false inorder.

Lemma refill_perm l q :
  refill l q ≡ₚ ((fun x => (one_minus (fst x), snd x)) <$> l) ++ q.
Proof.
  revert q. induction l as [|x l IH]; intros q; cbn; [done|]. rewrite IH, pair_push_perm.
  by rewrite Permutation_middle.
Qed.

Lemma refill_sorted l q :
  StronglySorted (fun a b => fst b <= fst a) q ->
  StronglySorted (fun a b => fst b <= fst a) (refill l q).
Proof. revert q. induction l as [|x l IH]; intros q Hq; cbn; [done|]. by apply IH, pair_push_sorted. Qed.

Lemma pase_next_delivers scan out :
  first (opaque scan) = false -> (result <$> workSpace (opaque scan)) = Some out ->
  @am_delivers _ _ pase_am scan
    (pase_entry (xs_recheck scan) (xs_orderbyvals scan) (xs_inorder scan) <$> out).
Proof.
  intros Hf Hw. apply (am_delivers_inv (fun s l => exists out, first (opaque s) = false /\
    (result <$> workSpace (opaque s)) = Some out /\
    l = pase_entry (xs_recheck s) (xs_orderbyvals s) (xs_inorder s) <$> out)); [| |eauto].
  - intros s s' l (Ho & Hrc & Hv & _ & Hio) (o & H1 & H2 & ->). exists o. rewrite <- Ho.
    split_and!; [done|done|]. by rewrite Hrc, Hv, Hio.
  - intros s l (o & H1 & H2 & ->). cbn. unfold pase_hnsw_gettuple, pase_next. rewrite H1.
    destruct (workSpace (opaque s)) as [[a o']|]; [|done]. cbn in H2. injection H2 as ->. cbn [result].
    destruct o as [|x o]; cbn; [by eexists|]. eexists. split; [done|]. split; [done|].
    exists o. by repeat split.
Qed.

Lemma pase_begin_delivers scan target max_result :
  first (opaque scan) = true -> orderByData (opaque scan) = Filled (Some target) ->
  search target 188 = Ok max_result ->
  @am_delivers _ _ pase_am scan
    (pase_entry (xs_recheck scan) (xs_orderbyvals scan) (xs_inorder scan) <$> refill max_result []).
Proof.
  intros Hf Hob Hs. set (st := opaque scan) in *.
  set (scan1 := pase_set_opaque scan (mk_pase false (Some (mk_pws target (refill max_result [])))
    (keyData st) (orderByData st))).
  apply (am_delivers_start scan scan1).
  - intros s (Ho & H2 & H3 & H4 & H5).
    exists (pase_set_opaque s (mk_pase false (Some (mk_pws target (refill max_result []))) (keyData st) (orderByData st))).
    split; [by repeat split|]. cbn. unfold pase_hnsw_gettuple, pase_start. rewrite <- Ho. fold st.
    by rewrite Hf, Hob, Hs, !rbind_ret.
  - by apply (pase_next_delivers scan1).
Qed.

(** Handed out best first: later results are no closer, up to the rounding
    of [1 - distance]. *)
Lemma refill_order l :
  (forall a b, a <= b -> one_minus b <= one_minus a) ->
  exists res, res ≡ₚ l /\ refill l [] = (fun x => (one_minus (fst x), snd x)) <$> res /\
    forall a x b y c, res = a ++ x :: b ++ y :: c ->
      fst x <= fst y \/ one_minus (fst x) = one_minus (fst y).
Proof.
  intros Hanti. pose proof (refill_perm l []) as Hp. rewrite app_nil_r in Hp.
  pose proof (refill_sorted l [] ltac:(constructor)) as Hs.
  apply Permutation_map_inv in Hp as (res & Hmap & Hres). exists res.
  split; [by symmetry|]. split; [done|]. intros a x b y c ->. change (map ?f ?l) with (f <$> l) in Hmap.
  rewrite Hmap in Hs. rewrite fmap_app, fmap_cons, fmap_app, fmap_cons in Hs.
  apply StronglySorted_app in Hs as (_ & _ & Hs). apply StronglySorted_inv in Hs as [_ Hf].
  rewrite Forall_app, Forall_cons in Hf. destruct Hf as (_ & Hxy & _). cbn in Hxy.
  destruct (Z.le_gt_cases (fst x) (fst y)) as [|Hgt]; [by left|]. right.
  specialize (Hanti (fst y) (fst x) ltac:(lia)). lia.
Qed.
End pase.

(** ** Properties *)


Definition demo_pase_scan : IndexScanDescData PASE_HNSWScanOpaqueData :=
  mk_scan false false (mk_pase true None NoKeys (Filled (Some [28]))) 0 0 false false [] false true.

