(* ===== verification/TopkScan.v ===== *)
(** * vectordb/src/topk.cpp and multicol_topk.cpp: top-k over several indexes

    The SQL functions [topk] and [multicol_topk] run one index scan per ORDER
    BY expression, in turn, over the same table.  Every row that turns up for
    the first time is scored with the whole rank expression and kept if it is
    among the best; the functions stop when a scan ends, or when
    [term_cond] new rows in a row have not improved the kept ones.  Scores are
    floats of which only the order is used: an integer stands for a float. *)

From Stdlib Require Import ZArith Lia.
From stdpp Require Import base list sorting strings gmap.
From S2P Require Import Prelude SortSupport TuplesortCursor Executor IndexAm NodeIndexscan NodeSort HnswScan.

Local Open Scope Z_scope.
Set Warnings "-clear-no-such-hyp".

(** ** The containers of the C++ library *)

Record pq_item := mk_item { rank_of : Z; tuple_of_item : row }.

(** std::priority_queue with [pq_item_compare_lt]: the greatest score is on
    top; which of several equal ones is not said. *)
Class PriorityQueue (Q : Type) := {
  queue_empty : Q;
  queue_size : Q -> Z;
  queue_top : Q -> res pq_item;
  queue_pop : Q -> Q;
  queue_push : pq_item -> Q -> Q
}.

Class PriorityQueueOk (Q : Type) `{PriorityQueue Q} := {
  items : Q -> list pq_item;
  items_empty : items queue_empty = [];
  items_size : forall q, queue_size q = zlen (items q);
  items_push : forall x q, items (queue_push x q) ≡ₚ x :: items q;
  items_top : forall q, items q <> [] -> exists x, queue_top q = Ok x /\
    items q ≡ₚ x :: items (queue_pop q) /\ forall y, y ∈ items q -> rank_of y <= rank_of x
}.

(** ** The scans *)

Definition INT8OID : Z := 20.
Definition INT4OID : Z := 23.
Definition FLOAT8OID : Z := 701.

(** What the functions read off a scan besides the row: the heap position of
    the last index entry and its first ORDER BY value. *)
Class RankedScan (P : Type) := {
  scan_tid : P -> res ItemPointer;
  scan_orderbyval : P -> res Datum
}.

(** [castToUint64] packs the two halves of the block number and the offset. *)
Definition castToUint64 (tid : ItemPointer) : Z :=
  let bi_hi := tid / 4294967296 in
  let bi_lo := (tid / 65536) mod 65536 in
  let ip_posid := tid mod 65536 in
  Z.lor (Z.lor (uint64 (Z.shiftl bi_hi 32)) (uint64 (Z.shiftl bi_lo 16))) ip_posid.

(** A scan, the state and the memory context of its query, and the types of
    its result columns. *)
Record child (P : Type) := mk_child {
  c_node : P;
  c_estate : EState;
  c_cxt : Z;
  c_desc : list Z
}.
Arguments mk_child {P}.
Arguments c_node {P}.
Arguments c_estate {P}.
Arguments c_cxt {P}.
Arguments c_desc {P}.

(** [ef] is [topk] in multicol_topk.cpp, which has no such field. *)
Record FaginsState (P Q : Type) := mk_fagins {
  f_topk : Z;
  f_ef : Z;
  f_term_cond : Z;
  f_finish : bool;
  proc_pq : Q;
  seenSet : gset Z;
  result_stack : list pq_item;
  f_children : list (child P)
}.
Arguments mk_fagins {P Q}.
Arguments f_topk {P Q}.
Arguments f_ef {P Q}.
Arguments f_term_cond {P Q}.
Arguments f_finish {P Q}.
Arguments proc_pq {P Q}.
Arguments seenSet {P Q}.
Arguments result_stack {P Q}.
Arguments f_children {P Q}.

(** The variables of the loop: kept rows, rows seen, [consecutive_drops] and
    CurrentMemoryContext. *)
Record loop_vars (Q : Type) := mk_vars {
  v_pq : Q;
  v_seen : gset Z;
  v_drops : Z;
  v_cxt : Z
}.
Arguments mk_vars {Q}.
Arguments v_pq {Q}.
Arguments v_seen {Q}.
Arguments v_drops {Q}.
Arguments v_cxt {Q}.

Section topk.
Context {P Q : Type} `{PlanState P} `{RankedScan P} `{PriorityQueue Q}.
(** The conversions of the C++ compiler to [float]. *)
Variables float_of_int4 float_of_int8 float_of_float8 : Datum -> Z.
(** Unrolling limit of the loop over the rounds. *)
Variable fuel : nat.

Definition castAttrToFloat (desc : list Z) (slot : row) (attno : Z) : res Z :=
  let '(value, isNull) := heap_getattr slot attno in
  if isNull then Ok 0
  else
    do! atttypid <- aget desc (attno - 1) ;;
    if atttypid =? INT4OID then Ok (float_of_int4 value)
    else if atttypid =? INT8OID then Ok (float_of_int8 value)
    else if atttypid =? FLOAT8OID then Ok (float_of_float8 value)
    else Error "castFloat unsupported oid".

Definition rank_score (multi : bool) (c : child P) (p : P) (slot : row) : res Z :=
  if multi then castAttrToFloat (c_desc c) slot (zlen (c_desc c) - 1)
  else scan_orderbyval p.

(** A row that turns up for the first time. *)
Definition consider (cap : Z) (score : Z) (slot : row) (pq : Q) (drops : Z) : res (Q * Z) :=
  let drops := uint32 (drops + 1) in
  do! better <-
    (if queue_size pq <? cap then Ok true
     else do! top <- queue_top pq ;; Ok (rank_of top >? score)) ;;
  if better then
    let pq := if queue_size pq =? cap then queue_pop pq else pq in
    Ok (queue_push (mk_item score slot) pq, 0)
  else Ok (pq, drops).

(** One turn of every scan; the flag says that a scan has ended.  A row seen
    before leaves the memory context switched. *)
Fixpoint fagins_round (cap : Z) (multi : bool) (cs : list (child P)) (v : loop_vars Q)
    : res (list (child P) * loop_vars Q * bool) :=
  match cs with
  | [] => Ok ([], v, false)
  | c :: cs =>
    let oldcontext := v_cxt v in
    do! ' (p, e, slot) <- ExecProcNode (c_node c) (c_estate c) ;;
    let c' := mk_child p e (c_cxt c) (c_desc c) in
    match slot with
    | None => Ok (c' :: cs, mk_vars (v_pq v) (v_seen v) (v_drops v) oldcontext, true)
    | Some r =>
      do! score <- rank_score multi c p r ;;
      do! tid <- scan_tid p ;;
      let tid_uint := castToUint64 tid in
      do! v <-
        (if decide (tid_uint ∈ v_seen v)
         then Ok (mk_vars (v_pq v) (v_seen v) (v_drops v) (c_cxt c))
         else
           do! ' (pq, drops) <- consider cap score r (v_pq v) (v_drops v) ;;
           Ok (mk_vars pq ({[ tid_uint ]} ∪ v_seen v) drops oldcontext)) ;;
      do! ' (cs, v, ended) <- fagins_round cap multi cs v ;;
      Ok (c' :: cs, v, ended)
    end
  end.

Fixpoint fagins_loop (n : nat) (cap term_cond : Z) (multi : bool) (cs : list (child P))
    (v : loop_vars Q) : res (list (child P) * loop_vars Q) :=
  match n with
  | O => NoFuel
  | S n =>
    do! ' (cs, v, ended) <- fagins_round cap multi cs v ;;
    if ended || (v_drops v >=? term_cond) then Ok (cs, v)
    else fagins_loop n cap term_cond multi cs v
  end.

(** Put the kept rows on the stack, the greatest score first. *)
Fixpoint drain_pq (n : nat) (pq : Q) (stack : list pq_item) : res (Q * list pq_item) :=
  if queue_size pq =? 0 then Ok (pq, stack)
  else
    match n with
    | O => NoFuel
    | S n => do! x <- queue_top pq ;; drain_pq n (queue_pop pq) (x :: stack)
    end.

(** [cap] is the size of the queue; [cxt] is CurrentMemoryContext. *)
Definition exec_fagins (cap : Z) (st : FaginsState P Q) (cxt : Z)
    : res (FaginsState P Q * Z * option row) :=
  let multi := zlen (f_children st) >? 1 in
  do! ' (cs, v) <-
    (if f_finish st then Ok (f_children st, mk_vars (proc_pq st) (seenSet st) 0 cxt)
     else fagins_loop fuel cap (f_term_cond st) multi (f_children st)
            (mk_vars (proc_pq st) (seenSet st) 0 cxt)) ;;
  do! ' (pq, stack) <- drain_pq (Z.to_nat (queue_size (v_pq v))) (v_pq v) (result_stack st) ;;
  let st stack := mk_fagins (f_topk st) (f_ef st) (f_term_cond st) true pq (v_seen v) stack cs in
  match stack with
  | [] => Ok (st [], v_cxt v, None)
  | x :: stack => Ok (st stack, v_cxt v, Some (tuple_of_item x))
  end.

Definition execFagins (st : FaginsState P Q) (cxt : Z) := exec_fagins (f_ef st) st cxt.
Definition execFaginsM (st : FaginsState P Q) (cxt : Z) := exec_fagins (f_topk st) st cxt.

(** The result descriptor is taken from the first scan. *)
Definition InitFaginsState (k ef term_cond : Z) (scans : list (child P)) : res (FaginsState P Q) :=
  do! _ <- aget scans 0 ;;
  Ok (mk_fagins k ef term_cond false queue_empty ∅ [] scans).

(** The arguments: 0 stands for a default. *)
Definition topk_init (k ef termCond : Z) (scans : list (child P)) : res (FaginsState P Q) :=
  let ef := if ef =? 0 then 64 else ef in
  let ef := Z.max ef k in
  let termCond := if termCond =? 0 then 50 else termCond in
  InitFaginsState k ef termCond scans.

Definition multicol_topk_init (k termCond : Z) (scans : list (child P)) : res (FaginsState P Q) :=
  let termCond := if termCond =? 0 then 50 else termCond in
  InitFaginsState k k termCond scans.

(** The calls of a set-returning function: at most [max_calls], an [int]. *)
Fixpoint srf_calls (exec : FaginsState P Q -> Z -> res (FaginsState P Q * Z * option row))
    (n : nat) (call_cntr max_calls : Z) (st : FaginsState P Q) (cxt : Z) : res (list row) :=
  match n with
  | O => Ok []
  | S n =>
    if call_cntr <? int32 max_calls then
      do! ' (st, cxt, slot) <- exec st cxt ;;
      match slot with
      | None => Ok []
      | Some r =>
        do! rs <- srf_calls exec n (call_cntr + 1) max_calls st cxt ;;
        Ok (r :: rs)
      end
    else Ok []
  end.

Definition topk_rows (k ef termCond : Z) (scans : list (child P)) (cxt : Z) : res (list row) :=
  do! st <- topk_init k ef termCond scans ;;
  srf_calls execFagins (S (Z.to_nat k)) 0 (f_topk st) st cxt.

Definition multicol_topk_rows (k termCond : Z) (scans : list (child P)) (cxt : Z) : res (list row) :=
  do! st <- multicol_topk_init k termCond scans ;;
  srf_calls execFaginsM (S (Z.to_nat k)) 0 (f_topk st) st cxt.
End topk.

(** ** The rows kept *)

Definition item_cmp (a b : pq_item) : Z := rank_of a - rank_of b.

#[export] Instance item_comparator : Comparator item_cmp.
Proof. unfold item_cmp. split; intros; lia. Qed.

(** [K] are the [cap] best of [D]. *)
Definition kept (cap : Z) (D K : list pq_item) : Prop :=
  zlen K = Z.min cap (zlen D) /\ smallest_of item_cmp K D.

Lemma kept_perm cap D K K' : K ≡ₚ K' -> kept cap D K -> kept cap D K'.
Proof.
  intros Hp [Hl (rest & HD & Hle)]. split; [unfold zlen in *; by rewrite <- Hp|].
  exists rest. split; [by rewrite <- Hp|]. intros x y Hx. apply Hle. by rewrite Hp.
Qed.

Lemma kept_more cap D K x : zlen K < cap -> kept cap D K -> kept cap (D ++ [x]) (x :: K).
Proof.
  intros Hc [Hl (rest & HD & Hle)]. assert (Hz : zlen D = zlen K + zlen rest) by (unfold zlen; rewrite HD, length_app; lia).
  pose proof (zlen_nonneg rest). assert (rest = []) as -> by (apply zlen_0_inv; lia). rewrite app_nil_r in HD.
  split; [rewrite zlen_app, zlen_cons; change (zlen [x]) with 1; lia|].
  exists []. split; [rewrite HD; solve_Permutation|]. intros a b _ Hb. by apply not_elem_of_nil in Hb.
Qed.

Lemma kept_full cap D K : 0 <= cap -> kept cap D K -> cap <= zlen K -> zlen K = cap /\ cap <= zlen D.
Proof. intros Hc [Hl _] Hk. lia. Qed.

Lemma kept_swap cap D K t x :
  0 <= cap -> kept cap D (t :: K) -> cap <= zlen (t :: K) -> (forall y, y ∈ t :: K -> rank_of y <= rank_of t) ->
  rank_of x < rank_of t -> kept cap (D ++ [x]) (x :: K).
Proof.
  intros Hc Hk Hcap Hmax Hx. destruct (kept_full _ _ _ Hc Hk Hcap) as [Hlen HlD]. destruct Hk as [_ (rest & HD & Hle)].
  rewrite zlen_cons in Hlen. split; [rewrite zlen_app, zlen_cons; change (zlen [x]) with 1; lia|].
  exists (t :: rest). split; [rewrite HD; solve_Permutation|]. unfold cle, item_cmp in *.
  intros a b Ha Hb. assert (Hat : rank_of a <= rank_of t).
  { apply elem_of_cons in Ha as [-> | Ha]; [lia|]. apply Hmax. by right. }
  apply elem_of_cons in Hb as [-> | Hb]; [lia|]. specialize (Hle t b ltac:(by left) Hb). lia.
Qed.

Lemma kept_drop cap D K x :
  0 <= cap -> kept cap D K -> cap <= zlen K -> (forall y, y ∈ K -> rank_of y <= rank_of x) -> kept cap (D ++ [x]) K.
Proof.
  intros Hc Hk Hcap Hmax. destruct (kept_full _ _ _ Hc Hk Hcap) as [Hlen HlD]. destruct Hk as [_ (rest & HD & Hle)].
  split; [rewrite zlen_app; change (zlen [x]) with 1; lia|]. exists (rest ++ [x]). split; [by rewrite HD, app_assoc|].
  intros a b Ha [Hb|Hb]%elem_of_app; [by apply Hle|]. apply list_elem_of_singleton in Hb as ->.
  unfold cle, item_cmp. specialize (Hmax a Ha). lia.
Qed.

(** Everything kept is no worse than a row dropped. *)
Lemma kept_count cap D K x :
  kept cap D K -> zlen K = cap -> (forall y, y ∈ K -> rank_of y <= rank_of x) -> cap <= count_le item_cmp D x.
Proof.
  intros [_ (rest & HD & _)] Hlen Hmax. rewrite (count_le_perm item_cmp _ _ x HD), count_le_app.
  assert (Hall : count_le item_cmp K x = zlen K).
  { unfold count_le. f_equal. clear -Hmax. induction K as [|y K IH]; [done|].
    rewrite filter_cons_True by (unfold cle, item_cmp; specialize (Hmax y ltac:(by left)); lia). f_equal.
    apply IH. intros z Hz. apply Hmax. by right. }
  rewrite Hall, Hlen. unfold count_le, zlen. lia.
Qed.

(** ** What the scans deliver *)

Record hit := mk_hit { h_row : row; h_score : Z; h_tid : Z }.

Definition item_of (h : hit) : pq_item := mk_item (h_score h) (h_row h).

Definition tids (l : list hit) : gset Z := list_to_set (h_tid <$> l).

(** The hits that turn up for the first time. *)
Fixpoint distinct (seen : gset Z) (l : list hit) : list hit :=
  match l with
  | [] => []
  | h :: l =>
    if decide (h_tid h ∈ seen) then distinct seen l else h :: distinct ({[ h_tid h ]} ∪ seen) l
  end.

Lemma tids_app l l' : tids (l ++ l') = tids l ∪ tids l'.
Proof. unfold tids. by rewrite fmap_app, list_to_set_app_L. Qed.

Lemma elem_tids l t : t ∈ tids l <-> exists h, h ∈ l /\ h_tid h = t.
Proof. unfold tids. rewrite elem_of_list_to_set, list_elem_of_fmap. naive_solver. Qed.

Lemma distinct_app seen l l' : distinct seen (l ++ l') = distinct seen l ++ distinct (tids l ∪ seen) l'.
Proof.
  revert seen. induction l as [|h l IH]; intros seen; cbn [distinct app].
  - unfold tids. cbn. by rewrite (left_id_L ∅ (∪)).
  - assert (Ht : tids (h :: l) = {[ h_tid h ]} ∪ tids l) by done. rewrite Ht.
    destruct (decide (h_tid h ∈ seen)) as [Hin|Hin]; rewrite IH.
    + f_equal. f_equal. set_solver.
    + cbn [app]. do 3 f_equal. set_solver.
Qed.

Lemma elem_distinct seen l h : h ∈ distinct seen l -> h ∈ l /\ h_tid h ∉ seen.
Proof.
  revert seen. induction l as [|x l IH]; intros seen; cbn; [intros Hx; by apply not_elem_of_nil in Hx|].
  destruct (decide (h_tid x ∈ seen)) as [Hin|Hin].
  - intros [Hl Hs]%IH. split; [by right|done].
  - intros [-> | Hh]%elem_of_cons; [split; [by left|done]|]. apply IH in Hh as [Hl Hs]. split; [by right|set_solver].
Qed.

Lemma distinct_NoDup seen l : NoDup (h_tid <$> distinct seen l).
Proof.
  revert seen. induction l as [|x l IH]; intros seen; cbn; [constructor|].
  destruct (decide (h_tid x ∈ seen)); [apply IH|]. cbn. constructor; [|apply IH].
  intros (h & Ht & Hh)%list_elem_of_fmap. apply elem_distinct in Hh as [_ Hs]. set_solver.
Qed.

(** Every position that turns up has a first time. *)
Lemma distinct_covers seen l h : h ∈ l -> h_tid h ∉ seen -> exists h', h' ∈ distinct seen l /\ h_tid h' = h_tid h.
Proof.
  revert seen. induction l as [|x l IH]; intros seen Hh Hs; [by apply not_elem_of_nil in Hh|]. cbn.
  apply elem_of_cons in Hh as [-> | Hh].
  - destruct (decide (h_tid x ∈ seen)); [done|]. exists x. split; [by left|done].
  - destruct (decide (h_tid x ∈ seen)) as [Hx|Hx]; [by apply IH|].
    destruct (decide (h_tid h = h_tid x)) as [He|He]; [exists x; split; [by left|done]|].
    destruct (IH ({[ h_tid x ]} ∪ seen) Hh) as (h' & Hd & Ht); [set_solver|]. exists h'. split; [by right|done].
Qed.

Lemma castToUint64_id tid : 0 <= tid < 281474976710656 -> castToUint64 tid = tid.
Proof.
  intros Ht. assert (H1 : 0 <= tid / 4294967296 < 65536) by (split; [apply Z.div_pos; lia|apply Z.div_lt_upper_bound; lia]).
  pose proof (Z.mod_pos_bound (tid / 65536) 65536 ltac:(lia)) as H2. unfold castToUint64, uint64.
  rewrite !Z.mod_small by (rewrite Z.shiftl_mul_pow2 by lia; lia).
  replace (tid mod 65536) with (Z.land tid (Z.ones 16)) by (by rewrite Z.land_ones).
  replace ((tid / 65536) mod 65536) with (Z.land (Z.shiftr tid 16) (Z.ones 16)) by (by rewrite Z.land_ones, Z.shiftr_div_pow2).
  replace (tid / 4294967296) with (Z.shiftr tid 32) by (by rewrite Z.shiftr_div_pow2).
  assert (Hones : forall m, 0 <= m -> Z.testbit (Z.ones 16) m = (m <? 16)) by (intros m Hm; by apply Z.testbit_ones_nonneg).
  apply Z.bits_inj'. intros n Hn. rewrite !Z.lor_spec, !Z.shiftl_spec, !Z.land_spec, (Hones n) by lia.
  destruct (Z.lt_ge_cases n 16); [|destruct (Z.lt_ge_cases n 32)]; rewrite ?(Hones (n - 16)) by lia.
  - rewrite !(Z.testbit_neg_r _ (n - _)) by lia. cbn [andb orb]. destruct (Z.ltb_spec n 16); [|lia]. by rewrite andb_true_r.
  - rewrite (Z.testbit_neg_r _ (n - 32)), (Z.shiftr_spec tid 16) by lia. destruct (Z.ltb_spec (n - 16) 16); [|lia].
    destruct (Z.ltb_spec n 16); [lia|]. rewrite andb_true_r, andb_false_r, orb_false_r. cbn [orb]. f_equal. lia.
  - rewrite (Z.shiftr_spec tid 32) by lia. destruct (Z.ltb_spec (n - 16) 16); [lia|]. destruct (Z.ltb_spec n 16); [lia|].
    rewrite !andb_false_r, !orb_false_r. f_equal. lia.
Qed.

(** ** Reading in turn *)

(** The next hit of each list, up to the first list that has ended. *)
Fixpoint round_heads (ls : list (list hit)) : list hit * list (list hit) * bool :=
  match ls with
  | [] => ([], [], false)
  | [] :: ls => ([], [] :: ls, true)
  | (h :: l) :: ls => let '(hs, ls, ended) := round_heads ls in (h :: hs, l :: ls, ended)
  end.

(** The hits in the order of reading until a list ends. *)
Fixpoint rounds (n : nat) (ls : list (list hit)) : list hit :=
  match n with
  | O => []
  | S n => let '(hs, ls, ended) := round_heads ls in if ended then hs else hs ++ rounds n ls
  end.

(** The first list bounds the number of rounds. *)
Definition in_turn (ls : list (list hit)) : list hit := rounds (S (length (hd [] ls))) ls.

Lemma round_heads_next ls hs ls' :
  round_heads ls = (hs, ls', false) -> Forall2 (fun l l' => exists h, l = h :: l' /\ h ∈ hs) ls ls'.
Proof.
  revert hs ls'. induction ls as [|[|h l] ls IH]; intros hs ls'; cbn; [intros [= <- <-]; constructor|done|].
  destruct (round_heads ls) as [[hs0 ls0] e0]. intros [= <- <- ->]. constructor; [exists h; split; [done|by left]|].
  eapply Forall2_impl; [by apply IH|]. intros l1 l2 (h0 & -> & Hh). exists h0. split; [done|by right].
Qed.

Lemma round_heads_from ls hs ls' e h : round_heads ls = (hs, ls', e) -> h ∈ hs -> exists l, l ∈ ls /\ h ∈ l.
Proof.
  revert hs ls'. induction ls as [|[|h0 l] ls IH]; intros hs ls'; cbn; [intros [= <- <-] Hh; by apply not_elem_of_nil in Hh|
    intros [= <- <-] Hh; by apply not_elem_of_nil in Hh|].
  destruct (round_heads ls) as [[hs0 ls0] e0]. intros [= <- <- ->] [-> | Hh]%elem_of_cons; [exists (h0 :: l); split; by left|].
  destruct (IH hs0 ls0 eq_refl Hh) as (l1 & Hl1 & Hh1). exists l1. split; [by right|done].
Qed.

Lemma round_heads_end ls hs ls' : round_heads ls = (hs, ls', true) -> [] ∈ ls.
Proof.
  revert hs ls'. induction ls as [|[|h0 l] ls IH]; intros hs ls'; cbn; [done|intros _; by left|].
  destruct (round_heads ls) as [[hs0 ls0] e0]. intros [= <- <- ->]. right. by apply (IH hs0 ls0).
Qed.

Lemma rounds_from n ls h : h ∈ rounds n ls -> exists l, l ∈ ls /\ h ∈ l.
Proof.
  revert ls. induction n as [|n IH]; intros ls Hh; cbn [rounds] in Hh; [by apply not_elem_of_nil in Hh|].
  destruct (round_heads ls) as [[hs ls'] [|]] eqn:Hr; [by apply (round_heads_from _ _ _ _ _ Hr)|].
  apply elem_of_app in Hh as [Hh|Hh]; [by apply (round_heads_from _ _ _ _ _ Hr)|].
  destruct (IH ls' Hh) as (l' & Hl' & Hin). apply round_heads_next in Hr.
  destruct (proj1 (list_elem_of_lookup _ _) Hl') as [i Hi]. destruct (Forall2_lookup_r _ _ _ _ _ Hr Hi) as (l & Hl & h0 & -> & _).
  exists (h0 :: l'). split; [by apply (list_elem_of_lookup_2 _ i)|by right].
Qed.

(** Reading stops because some list has been read completely. *)
Lemma in_turn_complete ls : ls <> [] -> exists l, l ∈ ls /\ forall h, h ∈ l -> h ∈ in_turn ls.
Proof.
  unfold in_turn. remember (length (hd [] ls)) as m eqn:Hm. revert ls Hm.
  induction m as [|m IH]; intros ls Hm Hne; cbn [rounds]; destruct (round_heads ls) as [[hs ls'] [|]] eqn:Hr.
  1,3: exists []; split; [by apply (round_heads_end _ _ _ Hr)|intros h Hh; by apply not_elem_of_nil in Hh].
  - apply round_heads_next in Hr. destruct ls as [|l ls]; [done|]. inversion Hr as [|? l' ? ? (h & -> & _)]; subst. done.
  - pose proof (round_heads_next _ _ _ Hr) as Hn.
    destruct (IH ls') as (l' & Hl' & Hall).
    { destruct ls as [|l ls]; [done|]. inversion Hn as [|? l0 ? ls0 (h & -> & _)]; subst. cbn in Hm |- *. lia. }
    { intros ->. inversion Hn; subst. done. }
    destruct (proj1 (list_elem_of_lookup _ _) Hl') as [i Hi]. destruct (Forall2_lookup_r _ _ _ _ _ Hn Hi) as (l & Hl & h0 & -> & Hh0).
    exists (h0 :: l'). split; [by apply (list_elem_of_lookup_2 _ i)|].
    intros h [-> | Hh]%elem_of_cons; apply elem_of_app; [by left|right; by apply Hall].
Qed.

(** ** The loop *)

Section loop.
Context {P Q : Type} `{PlanState P} `{RankedScan P} `{PriorityQueue Q, !PriorityQueueOk Q}.
Context (fi4 fi8 ff8 : Datum -> Z).

(** The scan delivers the hits of the list, then the end. *)
Fixpoint scan_hits (multi : bool) (c : child P) (l : list hit) : Prop :=
  match l with
  | [] => exists p e, ExecProcNode (c_node c) (c_estate c) = Ok (p, e, None)
  | h :: l =>
    exists p e, ExecProcNode (c_node c) (c_estate c) = Ok (p, e, Some (h_row h)) /\
      rank_score fi4 fi8 ff8 multi c p (h_row h) = Ok (h_score h) /\
      scan_tid p = Ok (h_tid h) /\ 0 <= h_tid h < 281474976710656 /\
      scan_hits multi (mk_child p e (c_cxt c) (c_desc c)) l
  end.

(** The variables after reading [read]: the new rows are [distinct ∅ read]; the
    last [v_drops] of them were dropped. *)
Record loop_inv (cap : Z) (read : list hit) (v : loop_vars Q) : Prop := {
  li_seen : v_seen v = tids read;
  li_kept : kept cap (item_of <$> distinct ∅ read) (items (v_pq v));
  li_drops : exists D0 tail, distinct ∅ read = D0 ++ tail /\ zlen tail = v_drops v /\
    kept cap (item_of <$> D0) (items (v_pq v)) /\
    forall h, h ∈ tail -> cap <= count_le item_cmp (item_of <$> D0) (item_of h)
}.

Lemma consider_ok cap read v h :
  1 <= cap -> loop_inv cap read v -> v_drops v + 1 < 4294967296 -> h_tid h ∉ v_seen v ->
  exists pq drops, consider cap (h_score h) (h_row h) (v_pq v) (v_drops v) = Ok (pq, drops) /\
    (forall cxt, loop_inv cap (read ++ [h]) (mk_vars pq ({[ h_tid h ]} ∪ v_seen v) drops cxt)) /\
    0 <= drops <= v_drops v + 1.
Proof.
  intros Hcap [Hseen Hkept (D0 & tail & HD & Htail & Hk0 & Hdrop)] Hov Hnew. unfold consider.
  assert (HD' : distinct ∅ (read ++ [h]) = distinct ∅ read ++ [h]).
  { rewrite distinct_app, (right_id_L ∅ (∪)). cbn [distinct]. rewrite <- Hseen. by destruct (decide (h_tid h ∈ v_seen v)). }
  pose proof (zlen_nonneg tail) as Hz.
  assert (Hseen' : {[ h_tid h ]} ∪ v_seen v = tids (read ++ [h])).
  { rewrite tids_app, Hseen. unfold tids at 3. cbn. set_solver. }
  assert (Hpush : forall K pq, items pq ≡ₚ K -> kept cap (item_of <$> distinct ∅ (read ++ [h])) (item_of h :: K) ->
    forall cxt, loop_inv cap (read ++ [h]) (mk_vars (queue_push (item_of h) pq) ({[ h_tid h ]} ∪ v_seen v) 0 cxt)).
  { intros K pq HK Hk cxt. assert (Hk' : kept cap (item_of <$> distinct ∅ (read ++ [h])) (items (queue_push (item_of h) pq)))
      by (eapply kept_perm; [|exact Hk]; by rewrite items_push, HK).
    split; cbn; [done|done|]. exists (distinct ∅ (read ++ [h])), []. rewrite app_nil_r. do 3 (split; [done|]). intros x Hx. by apply not_elem_of_nil in Hx. }
  rewrite HD', fmap_app in Hpush. cbn [fmap list_fmap] in Hpush. rewrite items_size.
  destruct (Z.ltb_spec (zlen (items (v_pq v))) cap) as [Hlt|Hge].
  - rewrite rbind_ret. destruct (Z.eqb_spec (zlen (items (v_pq v))) cap); [lia|]. eexists _, 0. split; [reflexivity|]. split; [|lia].
    apply (Hpush _ _ (reflexivity _)). by apply kept_more.
  - destruct (kept_full cap _ _ ltac:(lia) Hkept Hge) as [Hlen _].
    destruct (items_top (v_pq v)) as (top & Htop & Hpop & Hmax).
    { intros Hnil. rewrite Hnil in Hge. change (zlen (@nil pq_item)) with 0 in Hge. lia. }
    rewrite Htop, rbind_ret, rbind_ret. destruct (Z.gtb_spec (rank_of top) (h_score h)) as [Hbt|Hbt].
    + rewrite Hlen, Z.eqb_refl. eexists _, 0. split; [reflexivity|]. split; [|lia].
      apply (Hpush _ _ (reflexivity _)). apply (kept_swap cap _ _ top); [lia|by apply (kept_perm _ _ _ _ Hpop)| | |cbn; lia].
      * assert (zlen (items (v_pq v)) = zlen (top :: items (queue_pop (v_pq v)))) by (unfold zlen; by rewrite Hpop). lia.
      * intros y Hy. apply Hmax. by rewrite Hpop.
    + rewrite uint32_id by lia. eexists _, _. split; [reflexivity|]. split; [|lia]. intros cxt.
      assert (Hall : forall y, y ∈ items (v_pq v) -> rank_of y <= rank_of (item_of h)) by (intros y Hy; specialize (Hmax y Hy); cbn; lia).
      split; cbn [v_seen v_pq v_drops]; [done| |].
      * rewrite HD', fmap_app. apply kept_drop; [lia|done|lia|done].
      * exists D0, (tail ++ [h]). rewrite HD', HD, app_assoc. split; [done|].
        split; [rewrite zlen_app; change (zlen [h]) with 1; lia|]. split; [done|]. intros x [Hx|Hx]%elem_of_app; [by apply Hdrop|].
        apply list_elem_of_singleton in Hx as ->. by apply (kept_count cap _ _ _ Hk0).
Qed.

Lemma round_ok cap multi cs ls read v :
  1 <= cap -> Forall2 (scan_hits multi) cs ls -> loop_inv cap read v -> v_drops v + zlen cs < 4294967296 ->
  exists cs' v', fagins_round fi4 fi8 ff8 cap multi cs v = Ok (cs', v', (round_heads ls).2) /\
    loop_inv cap (read ++ (round_heads ls).1.1) v' /\ 0 <= v_drops v' <= v_drops v + zlen cs /\
    ((round_heads ls).2 = false -> Forall2 (scan_hits multi) cs' (round_heads ls).1.2) /\ zlen cs' = zlen cs.
Proof.
  intros Hcap Hcs. revert read v. induction Hcs as [|c l cs ls Hc Hcs IH]; intros read v Hinv Hov.
  { exists [], v. cbn. rewrite app_nil_r. split; [done|]. split; [done|].
    destruct (li_drops _ _ _ Hinv) as (? & tail & _ & Ht & _). pose proof (zlen_nonneg tail). change (zlen (@nil (child P))) with 0. split; [lia|done]. }
  rewrite zlen_cons in *. pose proof (zlen_nonneg cs) as Hzc. cbn [fagins_round].
  assert (Hd0 : 0 <= v_drops v) by (destruct (li_drops _ _ _ Hinv) as (? & tail & _ & Ht & _); pose proof (zlen_nonneg tail); lia).
  destruct l as [|h l]; cbn [scan_hits] in Hc.
  { destruct Hc as (p & e & ->). rewrite rbind_ret. cbn [round_heads fst snd]. eexists _, _. split; [reflexivity|].
    rewrite app_nil_r. split; [by destruct Hinv|]. split; [cbn; lia|]. split; [done|by rewrite zlen_cons]. }
  destruct Hc as (p & e & -> & Hscore & Htid & Hrange & Hrest). rewrite rbind_ret, Hscore, rbind_ret, Htid, rbind_ret, castToUint64_id by done. cbv zeta.
  cbn [round_heads]. destruct (round_heads ls) as [[hs ls'] ended]. cbn [fst snd] in *.
  assert (Hstep : exists v1, (if decide (h_tid h ∈ v_seen v) then Ok (mk_vars (v_pq v) (v_seen v) (v_drops v) (c_cxt c))
      else do! ' (pq, drops) <- consider cap (h_score h) (h_row h) (v_pq v) (v_drops v) ;;
           Ok (mk_vars pq ({[ h_tid h ]} ∪ v_seen v) drops (v_cxt v))) = Ok v1 /\
      loop_inv cap (read ++ [h]) v1 /\ v_drops v1 <= v_drops v + 1).
  { destruct (decide (h_tid h ∈ v_seen v)) as [Hin|Hin].
    - eexists. split; [reflexivity|]. split; [|cbn; lia]. destruct Hinv as [Hs Hk Hd].
      assert (Hsame : distinct ∅ (read ++ [h]) = distinct ∅ read).
      { rewrite distinct_app, (right_id_L ∅ (∪)). cbn [distinct]. rewrite <- Hs. destruct (decide (h_tid h ∈ v_seen v)); [|done]. apply app_nil_r. }
      split; cbn [v_seen v_pq v_drops]; rewrite ?Hsame; [|done|done]. rewrite tids_app, Hs in *. unfold tids at 3. cbn. set_solver.
    - destruct (consider_ok cap read v h Hcap Hinv ltac:(lia) Hin) as (pq & drops & -> & Hi & Hd). rewrite rbind_ret.
      eexists. split; [reflexivity|]. split; [apply Hi|cbn; lia]. }
  destruct Hstep as (v1 & -> & Hinv1 & Hd1). rewrite rbind_ret.
  destruct (IH (read ++ [h]) v1 Hinv1 ltac:(lia)) as (cs' & v' & -> & Hinv' & Hd' & Hcs' & Hl'). rewrite rbind_ret.
  rewrite <- app_assoc in Hinv'. eexists _, v'. split; [reflexivity|]. split; [done|]. split; [lia|].
  split; [|rewrite zlen_cons; lia]. intros He. constructor; [done|by apply Hcs'].
Qed.

(** The loop reads a prefix of the hits in turn, and the rest of them only if
    [term_cond] new rows in a row have not been dropped. *)
Lemma loop_ok n cap term multi cs ls read v :
  1 <= cap -> ls <> [] -> Forall2 (scan_hits multi) cs ls -> loop_inv cap read v -> v_drops v < term ->
  term + zlen cs < 4294967296 -> (length (hd [] ls) < n)%nat ->
  exists cs' v' R rest, fagins_loop fi4 fi8 ff8 n cap term multi cs v = Ok (cs', v') /\
    in_turn ls = R ++ rest /\ loop_inv cap (read ++ R) v' /\ (rest = [] \/ term <= v_drops v').
Proof.
  intros Hcap. unfold in_turn. remember (length (hd [] ls)) as m eqn:Hm. revert n cs ls read v Hm.
  induction m as [|m IH]; intros n cs ls read v Hm Hne Hcs Hinv Hdr Hov Hn; (destruct n as [|n]; [lia|]); cbn [fagins_loop].
  all: destruct (round_ok cap multi cs ls read v Hcap Hcs Hinv ltac:(lia)) as (cs' & v' & -> & Hinv' & Hd' & Hcs' & Hl'); rewrite rbind_ret.
  all: destruct (round_heads ls) as [[hs ls'] ended] eqn:Hr; cbn [fst snd] in *.
  - assert (ended = true) as ->.
    { destruct ended; [done|]. apply round_heads_next in Hr. destruct ls as [|l ls]; [done|].
      inversion Hr as [|? l' ? ? (h & -> & _)]; subst. done. }
    cbn [orb rounds]. rewrite Hr. exists cs', v', hs, []. rewrite app_nil_r. split; [done|]. split; [done|]. split; [done|by left].
  - cbn [rounds]. rewrite Hr. destruct ended; cbn [orb].
    { exists cs', v', hs, []. rewrite app_nil_r. split; [done|]. split; [done|]. split; [done|by left]. }
    destruct (Z.geb_spec (v_drops v') term) as [Hge|Hlt].
    { exists cs', v', hs. eexists. split; [done|]. split; [reflexivity|]. split; [done|by right]. }
    pose proof (round_heads_next _ _ _ Hr) as Hnx.
    destruct (IH n cs' ls' (read ++ hs) v') as (cs2 & v2 & R & rest & -> & HR & Hinv2 & Hend).
    { destruct ls as [|l ls]; [done|]. inversion Hnx as [|? l0 ? ls0 (h & -> & _)]; subst. cbn in Hm |- *. lia. }
    { intros ->. inversion Hnx; subst. done. }
    { by apply Hcs'. }
    { done. }
    { done. }
    { lia. }
    { lia. }
    exists cs2, v2, (hs ++ R), rest. cbn [rounds] in HR |- *. rewrite HR, app_assoc. rewrite <- app_assoc in Hinv2. done.
Qed.

(** ** The result *)

Lemma drain_pq_ok n pq stack :
  zlen (items pq) <= Z.of_nat n -> StronglySorted (cle item_cmp) stack ->
  (forall x y, x ∈ items pq -> y ∈ stack -> cle item_cmp x y) ->
  exists pq' out, drain_pq n pq stack = Ok (pq', out) /\ items pq' = [] /\
    out ≡ₚ items pq ++ stack /\ StronglySorted (cle item_cmp) out.
Proof.
  revert pq stack. induction n as [|n IH]; intros pq stack Hn Hs Hle; cbn [drain_pq]; rewrite items_size;
    pose proof (zlen_nonneg (items pq)) as Hz; destruct (Z.eqb_spec (zlen (items pq)) 0) as [Hzero|Hzero].
  1,3: assert (Hnil : items pq = []) by (apply zlen_0_inv; lia); exists pq, stack; by rewrite Hnil.
  - lia.
  - destruct (items_top pq) as (x & -> & Hpop & Hmax); [intros Hnil; by rewrite Hnil in Hzero|]. rewrite rbind_ret.
    destruct (IH (queue_pop pq) (x :: stack)) as (pq' & out & Hrun & He & Hp & Hso).
    + assert (zlen (items pq) = zlen (items (queue_pop pq)) + 1) by (unfold zlen; rewrite Hpop; cbn; lia). lia.
    + constructor; [done|]. apply Forall_forall. intros y Hy. apply Hle; [rewrite Hpop; by left|done].
    + intros y z Hy Hz'. assert (Hyi : y ∈ items pq) by (rewrite Hpop; by right).
      apply elem_of_cons in Hz' as [-> | Hz']; [|by apply Hle]. specialize (Hmax y Hyi). unfold cle, item_cmp. lia.
    + exists pq', out. split; [done|]. split; [done|]. split; [|done]. rewrite Hp, Hpop. solve_Permutation.
Qed.

Context (fuel : nat).

(** Once the kept rows are on the stack, each call takes one off. *)
Lemma srf_rest (exec : FaginsState P Q -> Z -> res (FaginsState P Q * Z * option row)) cap k ef n c st cxt :
  (forall st cxt, f_topk st = k -> f_ef st = ef -> exec st cxt = exec_fagins fi4 fi8 ff8 fuel cap st cxt) ->
  f_topk st = k -> f_ef st = ef -> f_finish st = true -> items (proc_pq st) = [] ->
  0 <= c <= k -> k <= INT_MAX -> k - c < Z.of_nat n ->
  srf_calls exec n c k st cxt = Ok (tuple_of_item <$> ztake (k - c) (result_stack st)).
Proof.
  intros Hexec. revert c st cxt. induction n as [|n IH]; intros c st cxt Hk Hef Hfin Hpq Hc Hmax Hn; [lia|]. cbn [srf_calls].
  rewrite int32_id by (unfold is_int32, INT_MIN, INT_MAX in *; lia).
  destruct (Z.ltb_spec c k) as [Hlt|Hge]; [|by rewrite ztake_nonpos by lia].
  rewrite Hexec by done. unfold exec_fagins. rewrite Hfin, rbind_ret. cbn [v_pq].
  assert (Hsz : queue_size (proc_pq st) = 0) by (by rewrite items_size, Hpq).
  assert (Hdr : drain_pq (Z.to_nat (queue_size (proc_pq st))) (proc_pq st) (result_stack st) = Ok (proc_pq st, result_stack st)).
  { rewrite Hsz. change (Z.to_nat 0) with O. cbn [drain_pq]. by rewrite Hsz. }
  rewrite Hdr, rbind_ret. cbv zeta. destruct (result_stack st) as [|x stack]; rewrite rbind_ret; [by rewrite ztake_nil|].
  rewrite IH by (cbn; done || lia). rewrite rbind_ret. cbn [result_stack].
  replace (k - c) with (k - (c + 1) + 1) by lia. rewrite ztake_cons by lia. done.
Qed.

(** The state after start-up. *)
Definition started (k ef term : Z) (scans : list (child P)) : FaginsState P Q :=
  mk_fagins k ef term false queue_empty ∅ [] scans.

Lemma start_inv cap cxt : 0 <= cap -> loop_inv cap [] (mk_vars (queue_empty : Q) ∅ 0 cxt).
Proof.
  intros Hcap. assert (Hk : kept cap (item_of <$> []) (items (queue_empty : Q))).
  { rewrite items_empty. split; [change (0 = Z.min cap 0); lia|]. exists []. split; [done|].
    intros x y Hx. by apply not_elem_of_nil in Hx. }
  split; [done|done|]. exists [], []. do 3 (split; [done|]). intros h Hh. by apply not_elem_of_nil in Hh.
Qed.

(** What the calls return: the best of the hits read. *)
Lemma srf_answer (exec : FaginsState P Q -> Z -> res (FaginsState P Q * Z * option row)) cap k ef term scans ls cxt :
  (forall st cxt, f_topk st = k -> f_ef st = ef -> exec st cxt = exec_fagins fi4 fi8 ff8 fuel cap st cxt) ->
  1 <= k <= INT_MAX -> k <= cap -> 1 <= term -> term + zlen scans < 4294967296 -> scans <> [] ->
  Forall2 (scan_hits (zlen scans >? 1)) scans ls -> (length (hd [] ls) < fuel)%nat ->
  exists R rest v out, in_turn ls = R ++ rest /\ loop_inv cap R v /\ (rest = [] \/ term <= v_drops v) /\
    srf_calls exec (S (Z.to_nat k)) 0 k (started k ef term scans) cxt = Ok (tuple_of_item <$> ztake k out) /\
    out ≡ₚ items (v_pq v) /\ StronglySorted (cle item_cmp) out.
Proof.
  intros Hexec Hk Hcap Ht Hov Hne Hsc Hf.
  assert (Hls : ls <> []) by (intros ->; inversion Hsc; subst; done).
  destruct (loop_ok fuel cap term (zlen scans >? 1) scans ls [] (mk_vars queue_empty ∅ 0 cxt))
    as (cs' & v & R & rest & Hrun & HR & Hinv & Hend); try done; [lia|by apply start_inv; lia|cbn; lia|].
  destruct (drain_pq_ok (Z.to_nat (queue_size (v_pq v))) (v_pq v) []) as (pq' & out & Hdr & He & Hp & Hso).
  { rewrite items_size. pose proof (zlen_nonneg (items (v_pq v))). lia. }
  { constructor. }
  { intros x y _ Hy. by apply not_elem_of_nil in Hy. }
  rewrite app_nil_r in Hp. exists R, rest, v, out. do 3 (split; [done|]). split; [|done].
  cbn [srf_calls]. rewrite int32_id by (unfold is_int32, INT_MIN, INT_MAX in *; lia). destruct (Z.ltb_spec 0 k); [|lia].
  rewrite Hexec by done. unfold exec_fagins. cbn [started f_children f_finish f_term_cond proc_pq seenSet result_stack].
  rewrite Hrun, rbind_ret, Hdr, rbind_ret. cbv zeta. destruct out as [|x out]; rewrite rbind_ret; [by rewrite ztake_nil|].
  rewrite (srf_rest exec cap k ef) by (done || (cbn; done) || lia). rewrite rbind_ret. cbn [result_stack].
  replace k with (k - (0 + 1) + 1) at 2 by lia. rewrite ztake_cons by lia. done.
Qed.
End loop.

(** ** Answers as hits *)

Definition hit_cmp (a b : hit) : Z := h_score a - h_score b.

#[export] Instance hit_comparator : Comparator hit_cmp.
Proof. unfold hit_cmp. split; intros; lia. Qed.

(** Heap position and score of a hit; the row may depend on the scan. *)
Definition hit_key (h : hit) : Z * Z := (h_tid h, h_score h).
Definition key_cmp (a b : Z * Z) : Z := a.2 - b.2.

Lemma kept_hits cap F K out :
  kept cap (item_of <$> F) K -> out ≡ₚ K -> StronglySorted (cle item_cmp) out ->
  exists outh, out = item_of <$> outh /\ topn hit_cmp cap F outh.
Proof.
  intros Hk Hp Hs. apply (kept_perm _ _ _ out) in Hk as [Hl (rest & HD & Hle)]; [|done].
  symmetry in HD. apply Permutation_map_inv in HD as (l3 & Heq & HF). symmetry in Heq.
  apply map_eq_app in Heq as (outh & resth & -> & <- & <-). exists outh. split; [done|]. split; [|split].
  - clear -Hs. induction outh as [|h outh IH]; [constructor|]. cbn in Hs. apply StronglySorted_inv in Hs as [Hs Hall].
    constructor; [by apply IH|].
    clear -Hall. induction outh as [|y outh IH]; [constructor|]. inversion Hall; subst. constructor; [done|by apply IH].
  - unfold zlen in *. rewrite length_map in Hl. change (item_of <$> F) with (map item_of F) in Hl. by rewrite length_map in Hl.
  - exists resth. split; [done|]. intros x y Hx Hy.
    apply (Hle (item_of x) (item_of y)); apply list_elem_of_fmap; eauto.
Qed.

Lemma count_le_items l h : count_le item_cmp (item_of <$> l) (item_of h) = count_le hit_cmp l h.
Proof.
  unfold count_le, zlen. f_equal. induction l as [|x l IH]; [done|]. cbn [fmap list_fmap]. rewrite !filter_cons.
  change (cle item_cmp (item_of x) (item_of h)) with (cle hit_cmp x h).
  destruct (decide (cle item_cmp (item_of x) (item_of h))) as [Hd|Hd], (decide (cle hit_cmp x h)) as [Hd'|Hd']; try done; cbn; by rewrite IH.
Qed.

Lemma topn_fewer {A} (cmp : A -> A -> Z) `{!Comparator cmp} k n l out :
  0 <= k <= n -> topn cmp n l out -> topn cmp k l (ztake k out).
Proof.
  intros Hk (Hs & Hl & rest & Hp & Hle). rewrite <- (ztake_zdrop k out) in Hs. apply StronglySorted_app_inv_l in Hs as (H1 & _ & H12).
  split; [done|]. split; [rewrite zlen_ztake_min by lia; lia|]. exists (zdrop k out ++ rest).
  split; [by rewrite app_assoc, ztake_zdrop|]. intros x y Hx [Hy|Hy]%elem_of_app; [by apply H12|].
  apply Hle; [|done]. rewrite <- (ztake_zdrop k out). apply elem_of_app. by left.
Qed.

Lemma topn_fmap {A B} (f : A -> B) (cmp : B -> B -> Z) k l out :
  topn (fun a b => cmp (f a) (f b)) k l out -> topn cmp k (f <$> l) (f <$> out).
Proof.
  intros (Hs & Hl & rest & Hp & Hle). split; [|split].
  - clear -Hs. induction Hs as [|x l Hs IH Hall]; [constructor|]. cbn. constructor; [done|]. by apply Forall_fmap.
  - unfold zlen in *. by rewrite !length_fmap.
  - exists (f <$> rest). split; [by rewrite Hp, fmap_app|]. intros x y (a & -> & Ha)%list_elem_of_fmap (b & -> & Hb)%list_elem_of_fmap.
    by apply Hle.
Qed.

(** ** Relaxed monotonicity of several scans in turn

    Once [term] new rows in a row are no better than the [cap] best before
    them, no better row follows. *)
Definition settles (cap term : Z) (F : list hit) : Prop :=
  forall pre drops rest, F = pre ++ drops ++ rest -> term <= zlen drops ->
    (forall h, h ∈ drops -> cap <= count_le hit_cmp pre h) ->
    forall h, h ∈ rest -> cap <= count_le hit_cmp pre h.

Lemma keys_agree (T : list (Z * Z)) t a b : NoDup (T.*1) -> (t, a) ∈ T -> (t, b) ∈ T -> a = b.
Proof.
  intros HT (i & Hi)%list_elem_of_lookup (j & Hj)%list_elem_of_lookup.
  assert (i = j) as -> by (apply (NoDup_lookup (T.*1) i j t HT); by rewrite list_lookup_fmap, ?Hi, ?Hj).
  rewrite Hi in Hj. by injection Hj.
Qed.

(** The new rows of scans over one table are the table. *)
Lemma in_turn_table ls (T : list (Z * Z)) :
  ls <> [] -> NoDup (T.*1) -> Forall (fun l => hit_key <$> l ≡ₚ T) ls ->
  hit_key <$> distinct ∅ (in_turn ls) ≡ₚ T.
Proof.
  intros Hne HT Hls. rewrite Forall_forall in Hls.
  assert (HnT : NoDup T) by (by apply (NoDup_fmap_1 fst)).
  assert (HinT : forall h, h ∈ in_turn ls -> hit_key h ∈ T).
  { intros h Hh. destruct (rounds_from _ _ _ Hh) as (l & Hl & Hin). rewrite <- (Hls l Hl). by apply list_elem_of_fmap_2. }
  apply NoDup_Permutation; [|done|].
  - apply (NoDup_fmap_1 fst). rewrite <- list_fmap_compose. apply (distinct_NoDup ∅).
  - intros [t sc]. split.
    + intros (h & -> & Hh)%list_elem_of_fmap. apply HinT. by apply elem_distinct in Hh as [? _].
    + intros Ht. destruct (in_turn_complete ls Hne) as (l & Hl & Hall).
      assert (Hk : (t, sc) ∈ hit_key <$> l) by (by rewrite (Hls l Hl)). apply list_elem_of_fmap in Hk as (h & Hk & Hh).
      destruct (distinct_covers ∅ (in_turn ls) h) as (h' & Hd & Htid); [by apply Hall|set_solver|].
      apply list_elem_of_fmap. exists h'. split; [|done].
      assert (Hh' : hit_key h' ∈ T) by (apply HinT; by apply elem_distinct in Hd as [? _]).
      unfold hit_key in *. injection Hk as -> ->. rewrite Htid in *.
      f_equal. by apply (keys_agree T (h_tid h)).
Qed.

Section answers.
Context {P Q : Type} `{PlanState P} `{RankedScan P} `{PriorityQueue Q, !PriorityQueueOk Q}.
Context (fi4 fi8 ff8 : Datum -> Z) (fuel : nat).

(** The answer over the rows read, and why reading stopped. *)
Lemma srf_hits (exec : FaginsState P Q -> Z -> res (FaginsState P Q * Z * option row)) cap k ef term scans ls cxt :
  (forall st cxt, f_topk st = k -> f_ef st = ef -> exec st cxt = exec_fagins fi4 fi8 ff8 fuel cap st cxt) ->
  1 <= k <= INT_MAX -> k <= cap -> 1 <= term -> term + zlen scans < 4294967296 -> scans <> [] ->
  Forall2 (scan_hits fi4 fi8 ff8 (zlen scans >? 1)) scans ls -> (length (hd [] ls) < fuel)%nat ->
  exists R rest out, in_turn ls = R ++ rest /\
    srf_calls exec (S (Z.to_nat k)) 0 k (started k ef term scans) cxt = Ok (h_row <$> ztake k out) /\
    topn hit_cmp cap (distinct ∅ R) out /\
    (rest = [] \/ exists pre drops, distinct ∅ R = pre ++ drops /\ term <= zlen drops /\
       forall h, h ∈ drops -> cap <= count_le hit_cmp pre h).
Proof.
  intros Hexec Hk Hcap Ht Hov Hne Hsc Hf.
  destruct (srf_answer fi4 fi8 ff8 fuel exec cap k ef term scans ls cxt Hexec Hk Hcap Ht Hov Hne Hsc Hf)
    as (R & rest & v & out & HR & [_ Hkept (D0 & tail & HD & Htail & _ & Hdrop)] & Hend & Hrun & Hp & Hs).
  destruct (kept_hits cap _ _ out Hkept Hp Hs) as (outh & -> & Htop). exists R, rest, outh. split; [done|]. split; [|split; [done|]].
  - rewrite Hrun. do 2 f_equal. unfold ztake. rewrite <- fmap_take. by rewrite <- list_fmap_compose.
  - destruct Hend as [->|Hge]; [by left|]. right. exists D0, tail. split; [done|]. split; [lia|].
    intros h Hh. rewrite <- count_le_items. by apply Hdrop.
Qed.

(** If the scans settle, nothing unread matters. *)
Lemma settled_answer cap term R rest out :
  1 <= cap -> settles cap term (distinct ∅ (R ++ rest)) -> topn hit_cmp cap (distinct ∅ R) out ->
  (rest = [] \/ exists pre drops, distinct ∅ R = pre ++ drops /\ term <= zlen drops /\
     forall h, h ∈ drops -> cap <= count_le hit_cmp pre h) ->
  topn hit_cmp cap (distinct ∅ (R ++ rest)) out.
Proof.
  intros Hcap Hset Htop [->|(pre & drops & HD & Hlen & Hdr)]; [by rewrite app_nil_r|].
  rewrite distinct_app in *. set (later := distinct _ rest) in *. apply topn_seal; [apply _|lia|done|]. intros y Hy.
  rewrite HD, count_le_app. assert (Hpre : cap <= count_le hit_cmp pre y).
  { apply (Hset pre drops later); [by rewrite HD, app_assoc|done|done|done]. }
  unfold count_le, zlen in *. lia.
Qed.

(** C16. [multicol_topk] returns the [k] best of the rows it has read, each
    once, best first, and terminates without error; it has read every row up
    to the end of a scan, or it has stopped after [term_cond] new rows in a row
    none of which was better than the [k] best rows before them. *)
Theorem multicol_topk_best_of_read k termCond scans ls cxt :
  let term := if termCond =? 0 then 50 else termCond in
  1 <= k <= INT_MAX -> 0 <= termCond -> term + zlen scans < 4294967296 -> scans <> [] ->
  Forall2 (scan_hits fi4 fi8 ff8 (zlen scans >? 1)) scans ls -> (length (hd [] ls) < fuel)%nat ->
  exists R rest out, in_turn ls = R ++ rest /\
    multicol_topk_rows (Q := Q) fi4 fi8 ff8 fuel k termCond scans cxt = Ok (h_row <$> out) /\
    topn hit_cmp k (distinct ∅ R) out /\ NoDup (h_tid <$> out) /\
    (rest = [] \/ exists pre drops, distinct ∅ R = pre ++ drops /\ term <= zlen drops /\
       forall h, h ∈ drops -> k <= count_le hit_cmp pre h).
Proof.
  intros term Hk Htc Hov Hne Hsc Hf. assert (Ht : 1 <= term) by (subst term; destruct (Z.eqb_spec termCond 0); lia).
  destruct (srf_hits (execFaginsM fi4 fi8 ff8 fuel) k k k term scans ls cxt) as (R & rest & out & HR & Hrun & Htop & Hend); try done.
  { intros st cxt' Hs _. unfold execFaginsM. by rewrite Hs. }
  exists R, rest, out. split; [done|]. split; [|split; [done|split; [|done]]].
  - rewrite (topn_ztake hit_cmp k _ _ Htop) in Hrun. unfold multicol_topk_rows, multicol_topk_init, InitFaginsState. fold term.
    destruct (zget_is_Some scans 0) as [c Hc]; [destruct scans; [done|]; rewrite zlen_cons; pose proof (zlen_nonneg scans); lia|].
    rewrite (aget_Ok _ _ _ Hc), !rbind_ret. exact Hrun.
  - destruct Htop as (_ & _ & more & Hp & _). pose proof (distinct_NoDup ∅ R) as Hnd. rewrite Hp, fmap_app in Hnd.
    by apply NoDup_app in Hnd as [? _].
Qed.

(** The answer over scans that settle. *)
Lemma topk_exact_ok k ef termCond scans ls (T : list (Z * Z)) cxt :
  let cap := Z.max (if ef =? 0 then 64 else ef) k in
  let term := if termCond =? 0 then 50 else termCond in
  1 <= k <= INT_MAX -> 0 <= termCond -> term + zlen scans < 4294967296 -> scans <> [] ->
  Forall2 (scan_hits fi4 fi8 ff8 (zlen scans >? 1)) scans ls -> (length (hd [] ls) < fuel)%nat ->
  NoDup (T.*1) -> Forall (fun l => hit_key <$> l ≡ₚ T) ls ->
  settles cap term (distinct ∅ (in_turn ls)) ->
  exists out, topk_rows (Q := Q) fi4 fi8 ff8 fuel k ef termCond scans cxt = Ok (h_row <$> out) /\
    topn key_cmp k T (hit_key <$> out) /\ forall h, h ∈ out -> exists l, l ∈ ls /\ h ∈ l.
Proof.
  intros cap term Hk Htc Hov Hne Hsc Hf HT Hls Hset. assert (Ht : 1 <= term) by (subst term; destruct (Z.eqb_spec termCond 0); lia).
  destruct (srf_hits (execFagins fi4 fi8 ff8 fuel) cap k cap term scans ls cxt) as (R & rest & out & HR & Hrun & Htop & Hend); try done; [|lia|].
  { intros st cxt' _ Hs. unfold execFagins. by rewrite Hs. }
  assert (Hlsn : ls <> []) by (intros ->; inversion Hsc; subst; done). rewrite HR in Hset.
  pose proof (settled_answer cap term R rest out ltac:(lia) Hset Htop Hend) as Hall. rewrite <- HR in Hall.
  exists (ztake k out). split; [|split].
  - unfold topk_rows, topk_init, InitFaginsState. fold term. fold cap.
    destruct (zget_is_Some scans 0) as [c Hc]; [destruct scans; [done|]; rewrite zlen_cons; pose proof (zlen_nonneg scans); lia|].
    rewrite (aget_Ok _ _ _ Hc), !rbind_ret. exact Hrun.
  - eapply (topn_perm _ _ _ _ _ (in_turn_table ls T Hlsn HT Hls)). apply topn_fmap.
    apply (topn_fewer hit_cmp k cap); [lia|exact Hall].
  - intros h Hh. destruct Hall as (_ & _ & more & Hp & _).
    assert (Hd : h ∈ distinct ∅ (in_turn ls)).
    { rewrite Hp. apply elem_of_app. left. rewrite <- (ztake_zdrop k out). apply elem_of_app. by left. }
    apply elem_distinct in Hd as [Hd _]. by apply (rounds_from _ _ _ Hd).
Qed.

(** [topk] is exact over scans that settle: when every scan enumerates the
    table and, in the order in which the scans are read in turn, [term_cond]
    new rows that do not improve on the [ef] best are followed by no better
    row, the function returns the [k] rows of the table with the smallest
    scores. *)
Theorem topk_exact k ef termCond scans ls (T : list (Z * Z)) cxt :
  let cap := Z.max (if ef =? 0 then 64 else ef) k in
  let term := if termCond =? 0 then 50 else termCond in
  1 <= k <= INT_MAX -> 0 <= termCond -> term + zlen scans < 4294967296 -> scans <> [] ->
  Forall2 (scan_hits fi4 fi8 ff8 (zlen scans >? 1)) scans ls -> (length (hd [] ls) < fuel)%nat ->
  NoDup (T.*1) -> Forall (fun l => hit_key <$> l ≡ₚ T) ls ->
  settles cap term (distinct ∅ (in_turn ls)) ->
  exists out, topk_rows (Q := Q) fi4 fi8 ff8 fuel k ef termCond scans cxt = Ok (h_row <$> out) /\
    topn key_cmp k T (hit_key <$> out) /\ forall h, h ∈ out -> exists l, l ∈ ls /\ h ∈ l.
Proof. apply topk_exact_ok. Qed.
End answers.

(** [max_calls] is an [int]: for [k] beyond its range the functions are never
    executed and return no row. *)
Theorem topk_beyond_int_is_empty {P Q : Type} `{PlanState P} `{RankedScan P} `{PriorityQueue Q}
    fi4 fi8 ff8 fuel k ef termCond (scans : list (child P)) cxt :
  INT_MAX < k < 4294967296 -> scans <> [] ->
  topk_rows (Q := Q) fi4 fi8 ff8 fuel k ef termCond scans cxt = Ok [].
Proof.
  intros Hk Hne. unfold topk_rows, topk_init, InitFaginsState.
  destruct (zget_is_Some scans 0) as [c Hc]; [destruct scans; [done|]; rewrite zlen_cons; pose proof (zlen_nonneg scans); lia|].
  rewrite (aget_Ok _ _ _ Hc), !rbind_ret. cbn [srf_calls f_topk].
  assert (Hneg : int32 k < 0).
  { unfold int32, INT_MAX in *. replace (k + 2147483648) with (k - 2147483648 + 1 * 4294967296) by lia.
    rewrite Z.mod_add, Z.mod_small by lia. lia. }
  by destruct (Z.ltb_spec 0 (int32 k)); [lia|].
Qed.

(** ** A priority queue *)

(** A list; the greatest is searched when it is wanted. *)
Fixpoint take_max (x : pq_item) (l : list pq_item) : pq_item * list pq_item :=
  match l with
  | [] => (x, [])
  | y :: l => let '(m, r) := take_max y l in if rank_of m <? rank_of x then (x, m :: r) else (m, x :: r)
  end.

Record ListQueue := mk_queue { queued : list pq_item }.

#[export] Instance list_queue : PriorityQueue ListQueue := {|
  queue_empty := mk_queue [];
  queue_size := fun q => zlen (queued q);
  queue_top := fun q => match queued q with [] => Crash | x :: l => Ok (take_max x l).1 end;
  queue_pop := fun q => match queued q with [] => q | x :: l => mk_queue (take_max x l).2 end;
  queue_push := fun x q => mk_queue (x :: queued q)
|}.

Lemma take_max_ok x l :
  x :: l ≡ₚ (take_max x l).1 :: (take_max x l).2 /\ forall y, y ∈ x :: l -> rank_of y <= rank_of (take_max x l).1.
Proof.
  revert x. induction l as [|z l IH]; intros x; cbn.
  { split; [done|]. intros y Hy. apply list_elem_of_singleton in Hy as ->. lia. }
  destruct (IH z) as [Hp Hm]. destruct (take_max z l) as [m r]. cbn [fst snd] in *.
  destruct (Z.ltb_spec (rank_of m) (rank_of x)); cbn [fst snd].
  - split; [by rewrite Hp|]. intros y [-> | Hy]%elem_of_cons; [lia|]. specialize (Hm y Hy). lia.
  - split; [rewrite Hp; solve_Permutation|]. intros y [-> | Hy]%elem_of_cons; [lia|by apply Hm].
Qed.

#[export] Program Instance list_queue_ok : PriorityQueueOk ListQueue := {| items := queued |}.
Next Obligation. done. Qed.
Next Obligation. done. Qed.
Next Obligation. done. Qed.
Next Obligation.
  intros [[|x l]] Hne; [done|]. destruct (take_max_ok x l) as [Hp Hm]. eexists. split; [reflexivity|]. by split.
Qed.

(** ** Index scans as ranked scans *)

(** [null_value]: what an entry of [xs_orderbyvals] holds that is marked null;
    the functions do not look at the mark. *)
Definition index_ranked_scan {S K} (null_value : Datum) : RankedScan (IndexScanState S K) := {|
  scan_tid := fun node => match iss_ScanDesc node with Some scan => Ok (xs_heaptid_orig scan) | None => Crash end;
  scan_orderbyval := fun node =>
    match iss_ScanDesc node with
    | Some scan => do! v <- aget (xs_orderbyvals scan) 0 ;; Ok (default null_value v)
    | None => Crash
    end
|}.

(** ** Replaying a list of hits *)

Record HitPlan := mk_hits { last_hit : hit; next_hits : list hit }.

#[export] Instance hit_plan : PlanState HitPlan := {|
  ExecProcNode := fun p e =>
    match next_hits p with
    | [] => Ok (p, e, None)
    | h :: l => Ok (mk_hits h l, e, Some (h_row h))
    end;
  ExecReScan := fun p e => Ok (p, e);
  ExecSetTupleBound := fun _ p => p
|}.

#[export] Instance hit_plan_ranked : RankedScan HitPlan := {|
  scan_tid := fun p => Ok (h_tid (last_hit p));
  scan_orderbyval := fun p => Ok (h_score (last_hit p))
|}.

(** Rows of three columns, the second is the rank. *)
Definition demo_hit (junk : Z) (t : Z * Z) : hit := mk_hit (mk_mtup 48 [Some t.1; Some t.2; Some junk]) t.2 t.1.
Definition demo_table : list (Z * Z) := [(1, 50); (2, 10); (3, 40); (4, 20); (5, 30); (6, 60)].
Definition demo_orders : list (list hit) :=
  [demo_hit 7 <$> [(2, 10); (5, 30); (4, 20); (3, 40); (1, 50); (6, 60)];
   demo_hit 8 <$> [(4, 20); (2, 10); (1, 50); (5, 30); (6, 60); (3, 40)]].
Definition demo_scan (l : list hit) : child HitPlan :=
  mk_child (mk_hits (demo_hit 0 (0, 0)) l) forward_estate 1 [INT4OID; INT8OID; FLOAT8OID].

Lemma hit_plan_delivers (h : hit) (l : list hit) cxt :
  Forall (fun h => exists junk t, h = demo_hit junk t /\ 0 <= t.1 < 281474976710656) l ->
  scan_hits id id id true (mk_child (mk_hits h l) forward_estate cxt [INT4OID; INT8OID; FLOAT8OID]) l.
Proof.
  intros Hl. revert h. induction Hl as [|h0 l (junk & t & -> & Ht) _ IH]; intros h; cbn [scan_hits].
  - by eexists _, _.
  - eexists _, _. split; [reflexivity|]. split; [done|]. split; [done|]. split; [done|]. apply IH.
Qed.

Lemma demo_orders_deliver : Forall2 (scan_hits id id id true) (demo_scan <$> demo_orders) demo_orders.
Proof.
  repeat (constructor; [apply hit_plan_delivers; repeat (constructor; [eexists _, (_, _); split; [reflexivity|cbn; lia]|]); constructor|]).
  constructor.
Qed.

Lemma multicol_topk_best_of_read_witness :
  exists R rest out, in_turn demo_orders = R ++ rest /\
    multicol_topk_rows (Q := ListQueue) id id id 9 2 3 (demo_scan <$> demo_orders) 0 = Ok (h_row <$> out) /\
    topn hit_cmp 2 (distinct ∅ R) out /\ NoDup (h_tid <$> out) /\
    (rest = [] \/ exists pre drops, distinct ∅ R = pre ++ drops /\ 3 <= zlen drops /\
       forall h, h ∈ drops -> 2 <= count_le hit_cmp pre h).
Proof.
  apply (multicol_topk_best_of_read (Q := ListQueue) id id id 9 2 3 (demo_scan <$> demo_orders) demo_orders 0).
  - unfold INT_MAX. lia.
  - lia.
  - reflexivity.
  - discriminate.
  - apply demo_orders_deliver.
  - apply (bool_decide_unpack _). vm_compute. exact I.
Defined.

(** When the best rows come first, the scans settle. *)
Lemma settles_best_first cap term best later :
  0 < cap -> 1 <= term -> zlen best = cap -> (forall x y, x ∈ best -> y ∈ later -> h_score x <= h_score y) ->
  settles cap term (best ++ later).
Proof.
  intros Hc Ht Hlen Hle pre drops rest Heq Hd Hdr y Hy.
  assert (Hpre : cap <= zlen pre).
  { destruct drops as [|d drops]; [change (zlen (@nil hit)) with 0 in Hd; lia|]. specialize (Hdr d ltac:(by left)).
    pose proof (count_le_len hit_cmp pre d). lia. }
  assert (Hsplit : exists mid, pre = best ++ mid /\ later = mid ++ drops ++ rest).
  { apply app_eq_inv in Heq as [(l & Hb & Hl)|(l & Hp & Hl)].
    - apply (f_equal zlen) in Hb as Hbl. rewrite zlen_app in Hbl. pose proof (zlen_nonneg l).
      assert (l = []) as -> by (apply zlen_0_inv; lia). rewrite app_nil_r in Hb. exists []. rewrite app_nil_r. by split.
    - by exists l. }
  destruct Hsplit as (mid & -> & ->). rewrite count_le_app.
  assert (Hall : count_le hit_cmp best y = zlen best).
  { unfold count_le. f_equal. assert (Hby : forall x, x ∈ best -> h_score x <= h_score y).
    { intros x Hx. apply Hle; [done|]. rewrite !elem_of_app. auto. }
    clear -Hby. induction best as [|x best IH]; [done|].
    rewrite filter_cons_True by (unfold cle, hit_cmp; specialize (Hby x ltac:(by left)); lia). f_equal. apply IH.
    intros z Hz. apply Hby. by right. }
  pose proof (zlen_nonneg (filter (λ x, cle hit_cmp x y) mid)). unfold count_le at 2. lia.
Qed.

Lemma demo_orders_settle : settles 2 3 (distinct ∅ (in_turn demo_orders)).
Proof.
  change (distinct ∅ (in_turn demo_orders)) with
    ([demo_hit 7 (2, 10); demo_hit 8 (4, 20)] ++ [demo_hit 7 (5, 30); demo_hit 8 (1, 50); demo_hit 7 (3, 40); demo_hit 8 (6, 60)]).
  apply settles_best_first; [reflexivity|vm_compute; discriminate|reflexivity|]. intros x y Hx Hy.
  assert (Hb : Forall (fun x => h_score x <= 20) [demo_hit 7 (2, 10); demo_hit 8 (4, 20)]) by (repeat constructor; cbn; lia).
  assert (Hl : Forall (fun x => 20 <= h_score x) [demo_hit 7 (5, 30); demo_hit 8 (1, 50); demo_hit 7 (3, 40); demo_hit 8 (6, 60)])
    by (repeat constructor; cbn; lia).
  rewrite Forall_forall in Hb, Hl. specialize (Hb x Hx). specialize (Hl y Hy). lia.
Qed.

Lemma demo_orders_table : NoDup (demo_table.*1) /\ Forall (fun l => hit_key <$> l ≡ₚ demo_table) demo_orders.
Proof.
  split; [apply (bool_decide_unpack _); vm_compute; exact I|]. repeat constructor; apply (bool_decide_unpack _); vm_compute; exact I.
Qed.

Lemma topk_exact_witness :
  exists out, topk_rows (Q := ListQueue) id id id 9 2 2 3 (demo_scan <$> demo_orders) 0 = Ok (h_row <$> out) /\
    topn key_cmp 2 demo_table (hit_key <$> out) /\ forall h, h ∈ out -> exists l, l ∈ demo_orders /\ h ∈ l.
Proof.
  apply (topk_exact (Q := ListQueue) id id id 9 2 2 3 (demo_scan <$> demo_orders) demo_orders demo_table 0).
  - unfold INT_MAX. lia.
  - lia.
  - reflexivity.
  - discriminate.
  - apply demo_orders_deliver.
  - apply (bool_decide_unpack _). vm_compute. exact I.
  - apply demo_orders_table.
  - apply demo_orders_table.
  - apply demo_orders_settle.
Defined.

Lemma topk_beyond_int_is_empty_witness :
  topk_rows (Q := ListQueue) id id id 9 3000000000 0 0 (demo_scan <$> demo_orders) 0 = Ok [].
Proof. apply topk_beyond_int_is_empty; [unfold INT_MAX; lia|discriminate]. Defined.

(** A row met again leaves the memory context of its query current: the call
    that was made in context 0 returns in context 1. *)
Example seen_row_leaks_context :
  (do! st <- multicol_topk_init (Q := ListQueue) 1 1 (demo_scan <$> [demo_hit 7 <$> [(2, 10); (5, 30)]; demo_hit 8 <$> [(4, 20); (2, 10)]]) ;;
   do! ' (_, cxt, r) <- execFaginsM id id id 9 st 0 ;; Ok (cxt, r)) = Ok (0, Some (h_row (demo_hit 7 (2, 10)))) /\
  (do! st <- multicol_topk_init (Q := ListQueue) 1 2 (demo_scan <$> [demo_hit 7 <$> [(2, 10); (5, 30)]; demo_hit 8 <$> [(4, 20); (2, 10)]]) ;;
   do! ' (_, cxt, r) <- execFaginsM id id id 9 st 0 ;; Ok (cxt, r)) = Ok (1, Some (h_row (demo_hit 7 (2, 10)))).
Proof. split; vm_compute; reflexivity. Qed.

(** ** Over a scan that reorders

    [xs_heaptid_orig] and [xs_orderbyvals] describe the last index entry
    fetched; a row that comes out of the reorder queue is another one. *)

Definition reordering_scan : PlanState (IndexScanState (list ientry) unit) :=
  @index_scan_plan _ _ list_am NodeIndexscan.demo_table (fun _ => true) demo_orderby None None (fun k => k) false demo_mem 20.

(** Over a scan with a reorder queue the functions take rows for each other:
    of the six rows of the demonstration scan, which come in order, every
    second one carries the heap position of the row before it, is taken for
    seen and is lost, and since the scores are the lower bounds of the index
    the others come out of order. *)
Example topk_over_reordering_scan_loses_rows :
  (do! ' (_, _, rows) <- @pull _ reordering_scan 7 demo_iss forward_estate ;; Ok rows) = Ok (int_row <$> [3; 7; 12; 19; 21; 26]) /\
  @topk_rows _ ListQueue reordering_scan (index_ranked_scan 0) _ id id id 9 6 0 0 [mk_child demo_iss forward_estate 1 [INT4OID]] 0 =
    Ok (int_row <$> [3; 21; 12]).
Proof. split; vm_compute; reflexivity. Qed.
