(* ===== verification/Pipeline.v ===== *)
(** * Query plans: Limit over Sort over an index scan

    The components composed the way the planner composes them for
    [ORDER BY distance LIMIT k]. *)

From Stdlib Require Import ZArith Lia.
From stdpp Require Import base list sorting strings gmap fin_maps.
From S2P Require Import Prelude SortSupport TuplesortState TuplesortCursor Executor NodeSort NodeLimit PairingHeap IndexAm NodeIndexscan HnswScan.

Local Open Scope Z_scope.

Lemma ztake_zdrop_comm {A} off c (l : list A) :
  0 <= off -> 0 <= c -> ztake c (zdrop off l) = zdrop off (ztake (off + c) l).
Proof.
  intros Ho Hc. unfold ztake, zdrop. rewrite Z2Nat.inj_add by lia.
  by rewrite take_drop_commute, Nat.add_comm.
Qed.

Section plans.
Context {P : Type} `{PlanState P} (E : SortEnv) `{!SortEnvOk E}.

(** LIMIT over Sort. *)
Definition limit_sort_plan (eqf : row -> row -> bool) (fuel : nat)
    : PlanState (LimitState (SortState P)) :=
  @limit_plan _ (sort_plan E fuel) eqf fuel.

(** A Sort node that was not run; its bound is not known yet. *)
Record sort_idle (node : SortState P) (keys : list SortSupportData) (wm : Z) : Prop := {
  si_keys : sort_keys node = keys;
  si_mem : work_mem node = wm;
  si_done : sort_Done node = false;
  si_chg : outer_chgParam node = false
}.

(** LIMIT passes its bound to the Sort; the window is cut from the top of
    what the Sort has read when it stops. *)
Lemma limit_sort_read eqf fuel lnode e keys wm off c chunk rows n :
  limit_fresh lnode LIMIT_OPTION_COUNT off (Some c) -> 1 <= c ->
  sort_idle (limit_outer lnode) keys wm -> keys_wf keys ->
  topn_budget wm (off + c) chunk (rows.*1) ->
  delivers (sort_outer (limit_outer lnode)) rows ->
  (Z.to_nat (Z.max (off + c) (zlen rows)) < fuel)%nat ->
  es_direction e = ForwardScanDirection -> c < Z.of_nat n ->
  exists lnode' e' full,
    @pull _ (limit_sort_plan eqf fuel) n lnode e = Ok (lnode', e', zdrop off full) /\
    topn (tcmp keys) (off + c) (consumed (off + c) 0 rows) full.
Proof.
  intros Hlf Hc [Hk Hm Hd Hchg] Hwf Hbud Hdel Hf He Hn.
  pose proof (lf_offset_pos _ _ _ _ Hlf) as Hoff. pose proof (tb_bound _ _ _ _ Hbud) as Hb.
  set (b := off + c) in *.
  assert (Hneed : tuples_needed LIMIT_OPTION_COUNT off (Some c) = b).
  { cbn. rewrite int64_id by (unfold is_int64, INT64_MIN, INT64_MAX; lia). lia. }
  set (snode := sort_set_bound b (limit_outer lnode)).
  assert (Hsf : sort_fresh snode keys wm b).
  { unfold snode, sort_set_bound. destruct (Z.ltb_spec b 0); [lia|]. by split. }
  assert (Hso : sort_outer snode = sort_outer (limit_outer lnode)).
  { unfold snode, sort_set_bound. by destruct (b <? 0). }
  rewrite <- Hso in Hdel.
  destruct (sort_scrolls E fuel snode keys wm b chunk rows Hsf Hwf Hbud Hdel)
    as (out & R & Hsc & HR & Hs & Htop & Hlen); [unfold zlen in *; lia|].
  destruct (@limit_scrolls _ (sort_plan E fuel) eqf fuel lnode LIMIT_OPTION_COUNT off (Some c) out
    (sort_lim true b out) R Hlf Hsc) as (R' & HscL & HR').
  - by rewrite Hneed.
  - intros i Hi Hic. apply sort_lim_first. specialize (Hic c eq_refl eq_refl). lia.
  - unfold zlen in *. lia.
  - cbn [limit_window] in HscL. rewrite ztake_zdrop_comm in HscL by lia. fold b in HscL.
    destruct (@pull_scroll _ (limit_sort_plan eqf fuel) _ None R' n 0 lnode e HscL HR' He)
      as (l' & e' & Hp & _); [done|apply zlen_nonneg|].
    exists l', e', (ztake b out). split.
    + rewrite Hp. do 2 f_equal. change (zdrop 0 ?l) with l. apply ztake_all.
      unfold zdrop, ztake, zlen in *. rewrite length_drop, length_take. lia.
    + exact Htop.
Qed.

(** Over a child that keeps relaxed monotonicity it is the true answer. *)
Lemma limit_sort_pull eqf fuel lnode e keys wm off c chunk rows n :
  limit_fresh lnode LIMIT_OPTION_COUNT off (Some c) -> 1 <= c ->
  sort_idle (limit_outer lnode) keys wm -> keys_wf keys ->
  topn_budget wm (off + c) chunk (rows.*1) ->
  delivers (sort_outer (limit_outer lnode)) rows ->
  (Z.to_nat (Z.max (off + c) (zlen rows)) < fuel)%nat ->
  relaxed_monotone (tcmp keys) (off + c) rows ->
  es_direction e = ForwardScanDirection -> c < Z.of_nat n ->
  exists lnode' e' full,
    @pull _ (limit_sort_plan eqf fuel) n lnode e = Ok (lnode', e', zdrop off full) /\
    topn (tcmp keys) (off + c) (rows.*1) full.
Proof.
  intros Hlf Hc Hsi Hwf Hbud Hdel Hf Hmono He Hn. pose proof (lf_offset_pos _ _ _ _ Hlf) as Hoff.
  destruct (limit_sort_read eqf fuel lnode e keys wm off c chunk rows n)
    as (l' & e' & full & Hp & Htop); try done.
  exists l', e', full. split; [done|]. pose proof (tcmp_ok _ Hwf).
  apply consumed_topn; [done|lia|done|done].
Qed.
End plans.

(** ** The HNSW index scan *)

Section hnsw_plan.
Context {I V : Type} `{TA : TableAmRoutine}.
Variable Next : I -> res (I * option (Z * Z)).
Variable BeginScan : V -> I.
Variable BeginRangeScan : V -> res (Z * I).
Variable recovery : bool.
Variable mem : IndexScanDescData (@HNSWScanOpaqueData I V).
Variable fuel : nat.

Abbreviation hkeys := (option (option V) * option (option V))%type.
Abbreviation inode := (IndexScanState (@HNSWScanOpaqueData I V) hkeys).

Definition hnsw_scan_plan (qual : option (row -> bool)) : PlanState inode :=
  @index_scan_plan _ _ (hnsw_am Next BeginScan BeginRangeScan fuel) _
    (fun _ => true) [] qual None (fun k => k) recovery mem fuel.

(** A scan node of a query [ORDER BY column <-> v] before its first call. *)
Record hnsw_scan_fresh (node : inode) (v : V) : Prop := {
  hf_keys : iss_ScanKeys node = (None, Some (Some v));
  hf_runtime : iss_NumRuntimeKeys node = 0;
  hf_forward : indexorderdir node = ForwardScanDirection;
  hf_order : iss_SortSupport node <> [];
  hf_closed : iss_ScanDesc node = None;
  hf_end : iss_ReachedEnd node = false;
  hf_queue : iss_ReorderQueue node = pairingheap_allocate;
  hf_links : queue_links node = ∅;
  hf_tuples : queue_tuples node = ∅
}.

(** Every result of the traversal is a visible row at its distance. *)
Definition result_rows (dist_of : row -> Z) (results : list (Z * Z)) (rs : list row) : Prop :=
  Forall2 (fun x r => f_slot (index_fetch_tuple (label_tid (snd x)) false) = Some r /\
                      dist_of r = fst x) results rs.

Lemma result_rows_dist dist_of results rs :
  result_rows dist_of results rs -> fst <$> results = dist_of <$> rs.
Proof. induction 1 as [|x r xs rs [_ Hd] _ IH]; [done|]. cbn. by rewrite Hd, <- IH. Qed.

Lemma hnsw_visible dist_of rc seen up results rs :
  result_rows dist_of results rs ->
  passed (fun _ => true) (visible (hnsw_entries rc seen up results)) =
    zip rs (settled_flags seen up (dist_of <$> rs)).
Proof.
  intros Hr. revert seen up. induction Hr as [|[d lab] r results rs [Hrow Hd] _ IH];
    intros seen up; [done|].
  cbn [fst snd] in *. unfold hnsw_entries. rewrite !fmap_cons. cbn [settled_flags zip_with].
  rewrite visible_cons. unfold heap_row at 1. cbn [ie_tid snd result_entry]. rewrite Hrow.
  unfold passed. rewrite filter_cons_True by (unfold passes; apply orb_true_r).
  rewrite fmap_cons. cbn [fst snd ie_inorder]. rewrite Hd. f_equal. apply IH.
Qed.

Lemma hnsw_exact rc seen up results :
  Forall (fun x => ie_recheckorderby (fst x) = false) (visible (hnsw_entries rc seen up results)).
Proof.
  revert seen up. induction results as [|x results IH]; intros seen up; [constructor|].
  unfold hnsw_entries. rewrite fmap_cons. cbn [settled_flags zip_with]. rewrite visible_cons.
  destruct (heap_row _) as [r|]; [constructor; [done|apply IH]|apply IH].
Qed.

Lemma hnsw_scan_fresh_ok node v results :
  mvcc -> hnsw_scan_fresh node v -> iter_at Next (BeginScan v) results ->
  (length results + 1 < fuel)%nat ->
  @scan_fresh _ _ (hnsw_am Next BeginScan BeginRangeScan fuel) TA recovery mem fuel node
    (visible (hnsw_entries (xs_recheck mem) [] false results)).
Proof.
  intros Hm [Hk Hr Hfw _ Hc He Hq Hl Ht] Hit Hf. split; try done.
  unfold index_rescan, index_beginscan. cbn [ambeginscan amrescan hnsw_am]. unfold hnsw_rescan.
  cbn [opaque reset_fetch hnsw_begin_scan workSpace keyData orderByData]. rewrite rbind_ret, !fill_workspace, Hk.
  eexists. split; [done|]. exists (hnsw_entries (xs_recheck mem) [] false results).
  split; [|split; [done|split; [|done]]].
  - assert (Hf0 : (0 < fuel)%nat) by lia.
    match goal with |- am_delivers ?s _ =>
      apply (hnsw_begin_delivers Next BeginScan BeginRangeScan fuel Hf0 s v results) end; done.
  - unfold hnsw_entries.
    by rewrite length_zip_with, settled_flags_length, length_fmap, Nat.min_id.
Qed.

(** The rows of the traversal with the access method's flags. *)
Lemma hnsw_scan_stream node v qual dist_of results rs :
  mvcc -> hnsw_scan_fresh node v -> iter_at Next (BeginScan v) results ->
  result_rows dist_of results rs -> (length results + 1 < fuel)%nat ->
  stream (@ExecProcNode _ (hnsw_scan_plan qual)) node
    (selected_flags qual None (zip rs (settled_flags [] false (dist_of <$> rs)))).
Proof.
  intros Hm Hfr Hit Hrows Hf.
  rewrite <- (hnsw_visible dist_of (xs_recheck mem) [] false results rs Hrows).
  apply index_scan_stream; [by apply (hnsw_scan_fresh_ok node v)|apply Hfr|apply hnsw_exact].
Qed.
End hnsw_plan.

Lemma selected_flags_all (rows : list (row * bool)) : selected_flags None None rows = rows.
Proof.
  unfold selected_flags. induction rows as [|[r f] rows IH]; [done|].
  rewrite filter_cons_True by done. rewrite fmap_cons. by f_equal.
Qed.

(** The query path over any traversal that settles. *)
Lemma hnsw_topk_pull {I V} `{TableAmRoutine} E `{!SortEnvOk E} Next
    (BeginScan : V -> I) BeginRangeScan recovery mem eqf fuel (lnode : LimitState (SortState _)) e
    keys wm off c chunk v results rs dist_of n :
  mvcc -> limit_fresh lnode LIMIT_OPTION_COUNT off (Some c) -> 1 <= c -> off + c <= 86 ->
  sort_idle (limit_outer lnode) keys wm -> keys_wf keys ->
  hnsw_scan_fresh (sort_outer (limit_outer lnode)) v -> iter_at Next (BeginScan v) results ->
  result_rows dist_of results rs -> settles (fst <$> results) ->
  (forall r r', r ∈ rs -> r' ∈ rs -> cle (tcmp keys) r r' <-> dist_of r <= dist_of r') ->
  topn_budget wm (off + c) chunk rs ->
  (Z.to_nat (Z.max (off + c) (zlen rs + 1)) < fuel)%nat ->
  es_direction e = ForwardScanDirection -> c < Z.of_nat n ->
  exists lnode' e' full,
    @pull _ (@limit_sort_plan _ (hnsw_scan_plan Next BeginScan BeginRangeScan recovery mem fuel None)
               E eqf fuel) n lnode e = Ok (lnode', e', zdrop off full) /\
    topn (tcmp keys) (off + c) rs full.
Proof.
  intros Hm Hlf Hc Hk Hsi Hwf Hfr Hit Hrows Hset Hcmp Hbud Hf He Hn.
  pose proof (result_rows_dist dist_of results rs Hrows) as Hdist. rewrite Hdist in Hset.
  pose proof (f_equal length Hdist) as Hlen. rewrite !length_fmap in Hlen.
  set (rows := zip rs (settled_flags [] false (dist_of <$> rs))).
  assert (Hfl : length (settled_flags [] false (dist_of <$> rs)) = length rs).
  { by rewrite settled_flags_length, length_fmap. }
  assert (Hrs : rows.*1 = rs) by (apply fst_zip; lia).
  assert (Hzl : zlen rows = zlen rs) by (unfold rows, zlen; rewrite length_zip_with; lia).
  pose proof (hnsw_scan_stream Next BeginScan BeginRangeScan recovery mem fuel _ v None dist_of
    results rs Hm Hfr Hit Hrows ltac:(unfold zlen in *; lia)) as Hst.
  rewrite selected_flags_all in Hst. rewrite <- Hrs in Hbud |- *.
  eapply limit_sort_pull; eauto; [unfold zlen in *; lia|].
  apply (settled_relaxed_monotone (tcmp keys) dist_of rs (off + c)); auto.
Qed.

(** ** Properties *)

(** LIMIT over a bounded Sort over any scan that keeps relaxed
    monotonicity: the Sort may stop reading early, yet the rows that come out
    are the window of the true answer of ORDER BY ... OFFSET off LIMIT c, and
    the run ends without an error (the Sort is never asked for more rows than
    its bound). *)
Theorem limit_sort_topk {P} `{PlanState P} E `{!SortEnvOk E} eqf fuel
    (lnode : LimitState (SortState P)) e keys wm off c chunk rows n :
  limit_fresh lnode LIMIT_OPTION_COUNT off (Some c) -> 1 <= c ->
  sort_idle (limit_outer lnode) keys wm -> keys_wf keys ->
  topn_budget wm (off + c) chunk (rows.*1) ->
  delivers (sort_outer (limit_outer lnode)) rows ->
  (Z.to_nat (Z.max (off + c) (zlen rows)) < fuel)%nat ->
  relaxed_monotone (tcmp keys) (off + c) rows ->
  es_direction e = ForwardScanDirection -> c < Z.of_nat n ->
  exists lnode' e' full,
    @pull _ (limit_sort_plan E eqf fuel) n lnode e = Ok (lnode', e', zdrop off full) /\
    topn (tcmp keys) (off + c) (rows.*1) full.
Proof. intros. eapply limit_sort_pull; eauto. Qed.

(** LIMIT 2 OFFSET 1 over the rows 5 1 3 2 | 7 9 8 of [demo_rows]. *)
Definition demo_limit_sort : LimitState (SortState ListPlan) :=
  ExecInitLimit (Some (Some 1)) (Some (Some 1)) LIMIT_OPTION_COUNT
    (ExecInitSort [int_key] 4096 0 (demo_rows : ListPlan)).

Lemma limit_sort_topk_witness :
  exists lnode' e' full,
    @pull _ (limit_sort_plan merge_env row_eqb 20) 5 demo_limit_sort forward_estate =
      Ok (lnode', e', zdrop 1 full) /\
    topn (tcmp [int_key]) 2 (demo_rows.*1) full.
Proof.
  apply (limit_sort_topk merge_env row_eqb 20 demo_limit_sort forward_estate [int_key] 4096 1 1 48
           demo_rows 5).
  - split; try reflexivity; [lia| |discriminate]. intros c [= <-]. lia.
  - lia.
  - by split.
  - apply int_key_wf.
  - apply demo_budget.
  - apply list_plan_delivers.
  - vm_compute. lia.
  - apply relaxed_monotone_b_ok. vm_compute. reflexivity.
  - reflexivity.
  - lia.
Defined.

(** The VBASE query path end to end.  [ORDER BY column <-> v OFFSET off
    LIMIT c] over an HNSW index, with [off + c] at most the 86 distances the
    access method keeps: if the graph traversal settles (once a result lies
    beyond 86 earlier ones, so do all later ones), Limit over Sort over the
    index scan returns exactly the nearest rows of everything the traversal
    reaches, although it stops long before the traversal ends. *)
Theorem vbase_topk_exact {I V} `{TableAmRoutine} E `{!SortEnvOk E} Next
    (BeginScan : V -> I) BeginRangeScan recovery mem eqf fuel (lnode : LimitState (SortState _)) e
    keys wm off c chunk v results rs dist_of n :
  mvcc -> limit_fresh lnode LIMIT_OPTION_COUNT off (Some c) -> 1 <= c -> off + c <= 86 ->
  sort_idle (limit_outer lnode) keys wm -> keys_wf keys ->
  hnsw_scan_fresh (sort_outer (limit_outer lnode)) v -> iter_at Next (BeginScan v) results ->
  result_rows dist_of results rs -> settles (fst <$> results) ->
  (forall r r', r ∈ rs -> r' ∈ rs -> cle (tcmp keys) r r' <-> dist_of r <= dist_of r') ->
  topn_budget wm (off + c) chunk rs ->
  (Z.to_nat (Z.max (off + c) (zlen rs + 1)) < fuel)%nat ->
  es_direction e = ForwardScanDirection -> c < Z.of_nat n ->
  exists lnode' e' full,
    @pull _ (@limit_sort_plan _ (hnsw_scan_plan Next BeginScan BeginRangeScan recovery mem fuel None)
               E eqf fuel) n lnode e = Ok (lnode', e', zdrop off full) /\
    topn (tcmp keys) (off + c) rs full.
Proof. intros. eapply hnsw_topk_pull; eauto. Qed.

(** ** A concrete HNSW scan *)

(** A traversal given as a list of distances; tuple [d] is at distance [d]. *)
Lemma demo_iter_at (results : list (Z * Z)) : iter_at demo_next results results.
Proof. induction results as [|r results IH]; cbn; eauto. Qed.

Definition distance_table : TableAmRoutine := {|
  index_fetch_tuple := fun tid _ => mk_fetch (Some (int_row tid)) tid false false
|}.

Definition demo_results (ds : list Z) : list (Z * Z) := (fun d => (d, tuple_label 0 d)) <$> ds.
Definition row_distance (r : row) : Z := fst (heap_getattr r 1).

Abbreviation demo_opaque := (@HNSWScanOpaqueData (list (Z * Z)) unit).
Abbreviation demo_keys := (option (option unit) * option (option unit))%type.

Definition demo_hnsw_mem : IndexScanDescData demo_opaque :=
  mk_scan false false (mk_hnsw false false false 0 None NoKeys NoKeys) 0 0 false false [] false true.

Definition demo_hnsw_scan : IndexScanState demo_opaque demo_keys :=
  mk_iss ForwardScanDirection (None, Some (Some tt)) 0 false None [int_key] [] false
    pairingheap_allocate ∅ ∅.

Definition demo_query (off c : Z) : LimitState (SortState (IndexScanState demo_opaque demo_keys)) :=
  ExecInitLimit (Some (Some off)) (Some (Some c)) LIMIT_OPTION_COUNT
    (ExecInitSort [int_key] 4096 0 demo_hnsw_scan).

(** Run the query over a traversal. *)
Definition demo_plan (ds : list Z) (qual : option (row -> bool))
    : PlanState (LimitState (SortState (IndexScanState demo_opaque demo_keys))) :=
  @limit_sort_plan _
    (@hnsw_scan_plan _ _ distance_table demo_next (fun _ => demo_results ds)
       (fun _ => Ok (0, demo_results ds)) false demo_hnsw_mem 200 qual)
    merge_env row_eqb 200.

Definition demo_run (ds : list Z) (qual : option (row -> bool)) (off c : Z) (n : nat)
    : res (list row) :=
  do! ' (_, _, rows) <- @pull _ (demo_plan ds qual) n (demo_query off c) forward_estate ;; Ok rows.

(** Decide whether a traversal settles. *)
Fixpoint settles_b (pre dists : list Z) : bool :=
  match dists with
  | [] => true
  | d :: rest =>
    ((count_closer pre d <? 86) ||
     forallb (fun y => 86 <=? zlen (filter (fun x => x <= y) pre)) rest) &&
    settles_b (pre ++ [d]) rest
  end.

Lemma settles_b_ok dists : settles_b [] dists = true -> settles dists.
Proof.
  assert (Hgen : forall dists seen pre d rest y, settles_b seen dists = true ->
    dists = pre ++ d :: rest -> 86 <= count_closer (seen ++ pre) d -> y ∈ rest ->
    86 <= zlen (filter (fun x => x <= y) (seen ++ pre))).
  { clear. induction dists as [|d0 dists IH]; intros seen pre d rest y Hb Heq Hc Hy;
      [by destruct pre|]. cbn in Hb. apply andb_true_iff in Hb as [H1 H2].
    destruct pre as [|p pre]; cbn in Heq; injection Heq as -> ->.
    - rewrite app_nil_r in *. apply orb_true_iff in H1 as [H1%Z.ltb_lt|H1]; [lia|].
      rewrite forallb_forall in H1. apply Z.leb_le, H1. by apply list_elem_of_In.
    - rewrite cons_middle, app_assoc in Hc |- *. by apply (IH _ pre d rest). }
  intros Hb pre d rest Heq Hc y Hy. by apply (Hgen dists [] pre d rest y).
Qed.

Lemma int_row_cle a b :
  cle (tcmp [int_key]) (int_row a) (int_row b) <->
  row_distance (int_row a) <= row_distance (int_row b).
Proof.
  change (row_distance (int_row a)) with a. change (row_distance (int_row b)) with b.
  unfold cle. change (tcmp [int_key] (int_row a) (int_row b)) with (if a - b =? 0 then 0 else a - b).
  destruct (Z.eqb_spec (a - b) 0); lia.
Qed.

Lemma small_label d : 0 <= d < 65536 -> label_tid (tuple_label 0 d) = d.
Proof.
  intros Hd. unfold label_tid, tuple_label.
  rewrite (int32_id d) by (unfold is_int32, INT_MIN, INT_MAX; lia).
  change (Z.shiftl (uint64 (int32 0)) 32) with 0. rewrite Z.add_0_l.
  unfold uint64. rewrite (Z.mod_small d) by lia. rewrite Z.shiftr_div_pow2 by lia.
  rewrite Z.div_small by lia. unfold ItemPointerSet, uint16, uint32.
  rewrite (Z.mod_small d 4294967296), (Z.mod_small d 65536) by lia.
  change (0 mod 4294967296) with 0. lia.
Qed.

Lemma demo_result_rows ds :
  Forall (fun d => 0 <= d < 65536) ds ->
  @result_rows distance_table row_distance (demo_results ds) (int_row <$> ds).
Proof.
  induction 1 as [|d ds Hd Hds IH]; constructor; [|exact IH].
  cbn [fst snd index_fetch_tuple distance_table f_slot]. by rewrite small_label.
Qed.

(** 90 results, nearly in order at the end. *)
Definition demo_dists : list Z := [5; 1; 300; 3; 2; 4] ++ (Z.of_nat <$> seq 6 82) ++ [200; 150].

Lemma vbase_topk_exact_witness :
  exists lnode' e' full,
    @pull _ (demo_plan demo_dists None) 10 (demo_query 1 3) forward_estate =
      Ok (lnode', e', zdrop 1 full) /\
    topn (tcmp [int_key]) 4 (int_row <$> demo_dists) full.
Proof.
  apply (@vbase_topk_exact _ _ distance_table merge_env _ demo_next (fun _ => demo_results demo_dists)
           (fun _ => Ok (0, demo_results demo_dists)) false demo_hnsw_mem row_eqb 200 (demo_query 1 3)
           forward_estate [int_key] 4096 1 3 48 tt (demo_results demo_dists) (int_row <$> demo_dists)
           row_distance 10).
  - intros tid c. reflexivity.
  - split; try reflexivity; [lia| |discriminate]. intros c [= <-]. lia.
  - lia.
  - lia.
  - by split.
  - apply int_key_wf.
  - split; try reflexivity. discriminate.
  - apply demo_iter_at.
  - apply demo_result_rows. apply (bool_decide_eq_true_1 _). vm_compute. reflexivity.
  - apply settles_b_ok. vm_compute. reflexivity.
  - intros r r' (a & -> & _)%list_elem_of_fmap (b & -> & _)%list_elem_of_fmap. apply int_row_cle.
  - split; [lia| |vm_compute; discriminate].
    apply Forall_fmap, Forall_true. intros d. vm_compute. discriminate.
  - vm_compute. lia.
  - reflexivity.
  - lia.
Defined.

(** ** Where the early stop goes wrong *)

(** The access method counts 86 distances whatever the LIMIT is.  Over a
    traversal that settles, and is even sorted from the moment the flag goes
    up, LIMIT 88 returns the row at distance 1000, met on the way in, and
    misses the one at distance 101. *)
Theorem hnsw_limit_beyond_queue :
  let ds := [1000] ++ (Z.of_nat <$> seq 1 86) ++ [100; 101; 102] in
  settles ds /\
  demo_run ds None 0 88 100 = Ok (int_row <$> ((Z.of_nat <$> seq 1 86) ++ [100; 1000])).
Proof.
  cbv zeta. split; [apply settles_b_ok|]; vm_compute; reflexivity.
Qed.

(** The flag counts results before the filter.  With a WHERE clause the
    rows met on the way in may be the only ones in the heap when the index
    says it is in order: LIMIT 2 returns the rows at 100 and 1000 although
    the row at 101 qualifies and the traversal settles. *)
Example hnsw_filter_stops_early :
  let ds := [1000] ++ (Z.of_nat <$> seq 1 86) ++ [100; 101; 102] in
  let where_clause := fun r => 100 <=? row_distance r in
  settles ds /\
  demo_run ds (Some where_clause) 0 2 10 = Ok (int_row <$> [100; 1000]).
Proof.
  cbv zeta. split; [apply settles_b_ok|]; vm_compute; reflexivity.
Qed.

(** An access method that replays entries and, like btree or GiST, never
    writes [xs_inorder]. *)
Definition plain_am : IndexAmRoutine (list ientry) unit := {|
  ambeginscan := fun _ recovery mem => RelationGetIndexScan (opaque mem) recovery mem;
  amrescan := fun _ scan => Ok scan;
  amgettuple := fun scan _ =>
    match opaque scan with
    | [] => Ok (scan, false)
    | e :: l =>
      Ok (mk_scan (kill_prior_tuple scan) (xactStartedInRecovery scan) l (xs_heaptid_orig scan)
            (ie_tid e) (xs_heap_continue scan) (ie_recheck e) (ie_vals e) (ie_recheckorderby e)
            (xs_inorder scan), true)
    end
|}.

(** [ORDER BY column LIMIT 1] over an index scan in index order 3 1 2, the
    scan descriptor allocated in memory whose flag byte is [junk]. *)
Definition junk_run (junk : bool) : res (list row) :=
  let entries := (fun t => mk_ientry t false [] false false) <$> [3; 1; 2] in
  let mem := mk_scan false false entries 0 0 false false [] false junk in
  let scan : IndexScanState (list ientry) unit :=
    mk_iss ForwardScanDirection tt 0 false None [] [] false pairingheap_allocate ∅ ∅ in
  let query := ExecInitLimit None (Some (Some 1)) LIMIT_OPTION_COUNT
                 (ExecInitSort [int_key] 4096 0 scan) in
  do! ' (_, _, rows) <-
    @pull _ (@limit_sort_plan _
               (@index_scan_plan _ _ plain_am distance_table (fun _ => true) [] None None
                  (fun k => k) false mem 20)
               merge_env row_eqb 20) 5 query forward_estate ;;
  Ok rows.

(** [RelationGetIndexScan] does not initialize [xs_inorder] and only the
    HNSW access method writes it, yet every index scan copies it to the
    executor.  Over any other index the answer of a bounded Sort depends on
    what the allocation held: the least row if the byte was false, the first
    row of the index if it was true. *)
Theorem uninitialized_inorder_flag :
  junk_run false = Ok [int_row 1] /\ junk_run true = Ok [int_row 3].
Proof. split; vm_compute; reflexivity. Qed.

(** The bound a Sort runs with. *)
Definition sort_bound {P} (node : SortState P) : option Z :=
  if ss_bounded node then Some (ss_bound node) else None.

(** The bound a LIMIT passes to the Sort below it: OFFSET plus COUNT
    when the sum fits 64 bits; otherwise the sum wraps to a negative number
    and the Sort runs unbounded, never with a bound too small. *)
Theorem limit_bound_passed {P} `{PlanState P} E fuel (lnode : LimitState (SortState P)) off c :
  limit_fresh lnode LIMIT_OPTION_COUNT off (Some c) -> off <= INT64_MAX -> c <= INT64_MAX ->
  exists lnode', @recompute_limits _ (sort_plan E fuel) lnode = Ok lnode' /\
    sort_bound (limit_outer lnode') = if off + c <=? INT64_MAX then Some (off + c) else None.
Proof.
  intros Hfr Ho Hc.
  destruct (@recompute_limits_ok _ (sort_plan E fuel) lnode _ _ _ Hfr)
    as (lnode' & Hre & _ & _ & _ & Hout). exists lnode'. split; [done|].
  pose proof (lf_offset_pos _ _ _ _ Hfr). pose proof (lf_count_pos _ _ _ _ Hfr c eq_refl).
  rewrite Hout. cbn [ExecSetTupleBound sort_plan tuples_needed]. unfold sort_set_bound.
  unfold sort_bound, INT64_MAX in *. destruct (Z.leb_spec (off + c) 9223372036854775807) as [Hs|Hs].
  - rewrite int64_id by (unfold is_int64, INT64_MIN, INT64_MAX; lia).
    destruct (Z.ltb_spec (c + off) 0); [lia|]. cbn. f_equal. lia.
  - assert (int64 (c + off) < 0) as Hneg.
    { unfold int64. replace ((c + off + 9223372036854775808) mod 18446744073709551616)
        with (c + off + 9223372036854775808 - 18446744073709551616); [lia|].
      apply Z.mod_unique with 1; lia. }
    by destruct (Z.ltb_spec (int64 (c + off)) 0); [|lia].
Qed.

Lemma limit_bound_passed_witness :
  exists lnode',
    @recompute_limits _ (sort_plan merge_env 20)
      (ExecInitLimit (Some (Some 2)) (Some (Some 9223372036854775807)) LIMIT_OPTION_COUNT
         (ExecInitSort [int_key] 4096 0 (demo_rows : ListPlan))) = Ok lnode' /\
    sort_bound (limit_outer lnode') = None.
Proof.
  apply (limit_bound_passed merge_env 20 _ 2 9223372036854775807).
  - split; try reflexivity; [lia| |discriminate]. intros c [= <-]. lia.
  - unfold INT64_MAX. lia.
  - unfold INT64_MAX. lia.
Defined.
