(* ===== verification/RangeQuery.v ===== *)
(** * Range queries through the executor

    An index scan node without ORDER BY over an access method that answers
    range queries.  What the access methods promise is a class; the HNSW and
    SPTAG scans are its instances, and the rows a query returns are derived
    from the class alone. *)

From Stdlib Require Import ZArith Lia.
From stdpp Require Import base list sorting strings gmap fin_maps.
From S2P Require Import Prelude SortSupport PairingHeap TuplesortCursor Executor IndexAm NodeIndexscan RangeSpec SptagScan HnswScan HnswRange Pipeline.

Local Open Scope Z_scope.

(** ** The plain path of the node *)

Section plain.
Context {S K : Type} `{AM : IndexAmRoutine S K} `{TA : TableAmRoutine}.
Variable indexqualorig : row -> bool.
Variable indexorderbyorig : list (row -> option Datum).
Variables (qual : option (row -> bool)) (projInfo : option (row -> row)).
Variable eval_runtime_keys : K -> K.
Variables (recovery : bool) (mem : IndexScanDescData S) (fuel : nat).

Abbreviation plan := (index_scan_plan indexqualorig indexorderbyorig qual projInfo
  eval_runtime_keys recovery mem fuel).
Abbreviation index_next := (IndexNext indexqualorig recovery mem fuel).
Implicit Types (node : IndexScanState S K) (vl : list (ientry * row)).

(** Entries that survive the recheck pass straight through. *)
Lemma plain_entries_open node scan vl :
  mvcc -> indexorderdir node = ForwardScanDirection ->
  iss_ScanDesc node = Some scan -> scan_at fuel scan vl ->
  entries_of index_next node (passing indexqualorig vl).
Proof.
  intros Hm. remember (length vl) as m eqn:Hl. assert (Hle : (length vl <= m)%nat) by lia. clear Hl.
  revert node scan vl Hle. induction m as [m IH] using lt_wf_ind.
  intros node scan vl Hle Hdir Hs Hsc. pose proof (scan_at_length fuel scan vl Hsc) as Hlen.
  apply entries_of_intro. intros e He. unfold IndexNext. rewrite Hdir, He.
  change (ScanDirectionIsBackward ForwardScanDirection) with false. cbv iota zeta.
  rewrite (begin_scan_open recovery mem node scan Hs), rbind_ret.
  destruct (next_indextuple_ok indexqualorig [] fuel [] Hm fuel scan e vl Hsc ltac:(lia))
    as (s2 & e2 & slot & -> & Hd2 & [[-> Hnil]|(dr & x & rest & -> & Hdr & Hpass & -> & Hs2 & Hv2 & Hro2 & Htid & Hin)]);
    rewrite rbind_ret.
  - rewrite (passing_nil _ [] [] _ Hnil). eexists _, e2. split; [done|]. congruence.
  - rewrite (passing_cons _ [] [] dr x rest) by done. eexists _, s2. split.
    { do 2 f_equal. destruct e2, e. cbn in *. by subst. }
    split; [done|]. split; [done|]. split; [done|].
    rewrite length_app in Hle. cbn in Hle. eapply (IH (length rest)); [lia|done|done|done|done].
Qed.

Lemma index_next_keeps node e node' e' slot :
  index_next node e = Ok (node', e', slot) -> keeps node node'.
Proof.
  unfold IndexNext. intros ([n1 scan] & Hb & Hl)%rbind_Ok.
  apply (begin_scan_keeps recovery mem) in Hb.
  apply rbind_Ok in Hl as ([[s2 e2] [r|]] & _ & Hl); by injection Hl as <- _ _.
Qed.

Lemma plain_proc node e :
  iss_NumRuntimeKeys node = 0 -> iss_SortSupport node = [] ->
  @ExecProcNode _ plan node e = ExecScan qual projInfo fuel index_next node e.
Proof.
  intros Hr Hk. cbn. unfold ExecIndexScan. rewrite Hr. cbn [negb Z.eqb andb].
  rewrite rbind_ret. by rewrite Hk.
Qed.

Lemma plain_plan_entries node xs :
  iss_NumRuntimeKeys node = 0 -> iss_SortSupport node = [] ->
  entries_of (ExecScan qual projInfo fuel index_next) node xs ->
  entries_of (@ExecProcNode _ plan) node xs.
Proof.
  revert node. induction xs as [|x xs IH]; intros node Hr Hk Hs e He;
    rewrite plain_proc by done; [by apply Hs|].
  destruct (Hs e He) as (n' & scan & Heq & Hsd & Ht & Hv & Hst). exists n', scan. split_and!; try done.
  apply ExecScan_keeps in Heq as [Hr' Hk']; [|intros *; apply index_next_keeps].
  apply IH; [congruence|congruence|done].
Qed.

(** The entries of a scan without ORDER BY. *)
Lemma plain_scan_entries node vl :
  scan_fresh recovery mem fuel node vl -> iss_SortSupport node = [] ->
  entries_of (@ExecProcNode _ plan) node
    (selected_entries qual projInfo (passing indexqualorig vl)).
Proof.
  intros Hfr Hk. destruct (begin_scan_fresh recovery mem fuel node vl Hfr) as (scan & Hat & Hb).
  pose proof (scan_at_length fuel scan vl Hat) as Hlen.
  apply plain_plan_entries; [apply Hfr|done|]. apply ExecScan_entries.
  - pose proof (plain_entries_open (set_scan (Some scan) node) scan vl (sf_mvcc _ _ _ _ _ Hfr)
      (sf_forward _ _ _ _ _ Hfr) eq_refl Hat) as Hst.
    assert (Hopen : forall e, index_next node e = index_next (set_scan (Some scan) node) e).
    { intros e. unfold IndexNext. by rewrite Hb. }
    destruct (passing indexqualorig vl) as [|x xs]; cbn in Hst |- *; intros e He;
      setoid_rewrite Hopen; by apply Hst.
  - unfold passing. pose proof (length_filter (fun x => passes indexqualorig x = true) vl). lia.
Qed.
End plain.

(** ** What an access method promises a range query *)

(** The keys of a query [Q]; the traversal it starts, with its range and its
    results; and the rule by which the scan stops. *)
Class RangeAm {S K : Type} (Q : Type) (AM : IndexAmRoutine S K) (fuel : nat) := {
  ra_keys : Q -> K;
  ra_traversal : Q -> Z -> list result -> Prop;
  ra_giveup : list Z -> Z -> bool;
  ra_limit : Z;
  ra_limit_pos : 1 <= ra_limit;
  ra_answers : forall recovery mem q rng results,
    ra_traversal q rng results -> (length results + 1 < fuel)%nat ->
    exists scan inorder,
      index_rescan (index_beginscan (ra_keys q) recovery mem) (ra_keys q) = Ok scan /\
      xs_heap_continue scan = false /\
      am_delivers scan
        (result_entry (xs_recheck mem) inorder <$> range_hits ra_giveup ra_limit rng [] results)
}.

Section instances.
Context {I : Type}.

(** HNSW: a restarted scan. *)
#[export] Instance hnsw_range_am {V} (Next : I -> res (I * option (Z * Z))) (BeginScan : V -> I)
    BeginRangeScan fuel : RangeAm V (hnsw_am Next BeginScan BeginRangeScan fuel) fuel.
Proof.
  refine {|
    ra_keys := fun v => (Some (Some v), None);
    ra_traversal := fun v rng results => exists it, BeginRangeScan v = Ok (rng, it) /\ iter_at Next it results;
    ra_giveup := hnsw_giveup;
    ra_limit := distanceThreshold |}; [done|].
  intros recovery mem v rng results (it & Hv & Hit) Hf. eexists _, false. split; [reflexivity|].
  split; [done|]. match goal with |- am_delivers ?s _ =>
    apply (range_begin_delivers Next BeginScan BeginRangeScan fuel s v rng it results) end; try done. lia.
Defined.

(** SPTAG: the range is the first element of the array. *)
#[export] Instance sptag_range_am (Next : I -> res (I * option (Z * list Z))) GetIterator fuel
    : RangeAm (Z * list Z) (sptag_am Next GetIterator fuel) fuel.
Proof.
  refine {|
    ra_keys := fun q => (Some (Some (fst q :: snd q)), None);
    ra_traversal := fun q rng results => fst q = rng /\ iter_at (decoded Next) (GetIterator (snd q)) results;
    ra_giveup := fun _ _ => false;
    ra_limit := threshold |}; [done|].
  intros recovery mem [rng v] rng' results [<- Hit] Hf. eexists _, (xs_inorder mem). split; [reflexivity|].
  split; [done|]. match goal with |- am_delivers ?s _ =>
    apply (sptag_range_delivers Next GetIterator fuel s rng v results) end; try done. cbn in *; lia.
Defined.
End instances.

(** ** The answer of a range query *)

Section answer.
Context {S K Q : Type} `{AM : IndexAmRoutine S K} `{TA : TableAmRoutine}.
Variables (recovery : bool) (mem : IndexScanDescData S) (fuel : nat).
Context `{RA : !RangeAm Q AM fuel}.

(** A scan node of a range query before its first call. *)
Record range_scan_fresh (node : IndexScanState S K) (q : Q) : Prop := {
  rf_keys : iss_ScanKeys node = ra_keys q;
  rf_runtime : iss_NumRuntimeKeys node = 0;
  rf_forward : indexorderdir node = ForwardScanDirection;
  rf_order : iss_SortSupport node = [];
  rf_closed : iss_ScanDesc node = None;
  rf_end : iss_ReachedEnd node = false;
  rf_queue : iss_ReorderQueue node = pairingheap_allocate;
  rf_links : queue_links node = ∅;
  rf_tuples : queue_tuples node = ∅
}.

(** The visible rows of a traversal, and that they lie at the distances it
    reports. *)
Definition visible_rows (results : list result) : list row :=
  omap (fun x => f_slot (index_fetch_tuple (label_tid (snd x)) false)) results.
Definition at_distances (dist_of : row -> Z) (results : list result) : Prop :=
  forall x r, x ∈ results -> f_slot (index_fetch_tuple (label_tid (snd x)) false) = Some r ->
    dist_of r = fst x.

(** The index condition that is rechecked is [distance < range]; without the
    recheck the scan's own test, [distance <= range], decides. *)
Definition range_qual (dist_of : row -> Z) (rng : Z) (r : row) : bool := dist_of r <? rng.
Definition within (rc : bool) (rng d : Z) : bool := if rc then d <? rng else d <=? rng.

Abbreviation range_plan dist_of rng :=
  (index_scan_plan (range_qual dist_of rng) [] None None (fun k => k) recovery mem fuel).

(** The recheck on the entries of hits. *)
Lemma passing_within dist_of rng io l :
  at_distances dist_of l -> Forall (fun x => fst x <= rng) l ->
  snd <$> passing (range_qual dist_of rng) (visible (result_entry (xs_recheck mem) io <$> l)) =
    filter (fun r => within (xs_recheck mem) rng (dist_of r) = true) (visible_rows l).
Proof.
  intros Hd Hr. induction l as [|x l IH]; [done|]. apply Forall_cons in Hr as [Hx Hr].
  specialize (IH (fun y r Hy => Hd y r (list_elem_of_further _ _ _ Hy)) Hr).
  rewrite fmap_cons, visible_cons. unfold heap_row, visible_rows. cbn [ie_tid result_entry omap list_omap].
  specialize (Hd x) as Hdx. destruct (f_slot _) as [r|]; [|exact IH].
  specialize (Hdx r ltac:(by left) eq_refl).
  assert (Hw : passes (range_qual dist_of rng) (result_entry (xs_recheck mem) io x, r) =
    within (xs_recheck mem) rng (dist_of r)).
  { unfold passes, within, range_qual. cbn. destruct (xs_recheck mem); [done|]. cbn. symmetry.
    apply Z.leb_le. lia. }
  unfold passing in *. destruct (within (xs_recheck mem) rng (dist_of r)) eqn:Hv.
  - rewrite !filter_cons_True by done. rewrite fmap_cons. f_equal. exact IH.
  - rewrite !filter_cons_False by congruence. exact IH.
Qed.

Lemma sublist_omap_mono {A B} (f : A -> option B) (l l' : list A) :
  l `sublist_of` l' -> omap f l `sublist_of` omap f l'.
Proof.
  induction 1 as [|x l l' _ IH|x l l' _ IH]; cbn; [constructor|by destruct (f x); [constructor|]|].
  by destruct (f x); [constructor|].
Qed.

Lemma filter_visible_hits dist_of rng results :
  at_distances dist_of results ->
  filter (fun r => within (xs_recheck mem) rng (dist_of r) = true) (visible_rows (hits rng results)) =
    filter (fun r => within (xs_recheck mem) rng (dist_of r) = true) (visible_rows results).
Proof.
  intros Hd. induction results as [|x l IH]; [done|].
  specialize (IH (fun y r Hy => Hd y r (list_elem_of_further _ _ _ Hy))).
  specialize (Hd x) as Hdx. unfold hits in *. destruct (Z.le_gt_cases (fst x) rng) as [Hin|Hout].
  - rewrite filter_cons_True by (by apply Z.leb_le). unfold visible_rows. cbn [omap list_omap].
    destruct (f_slot _) as [r|]; [|exact IH]. rewrite !filter_cons. destruct (decide _); [|exact IH].
    f_equal. exact IH.
  - rewrite filter_cons_False by (unfold in_range; rewrite Z.leb_le; lia). unfold visible_rows at 2. cbn [omap list_omap].
    destruct (f_slot _) as [r|]; [|exact IH]. specialize (Hdx r ltac:(by left) eq_refl).
    rewrite filter_cons_False; [exact IH|]. rewrite Hdx. unfold within.
    destruct (xs_recheck mem); [destruct (Z.ltb_spec (fst x) rng)|destruct (Z.leb_spec (fst x) rng)]; [lia|done|lia|done].
Qed.

Lemma selected_entries_all xs : selected_entries None None xs = xs.
Proof.
  unfold selected_entries. induction xs as [|[e r] xs IH]; [done|].
  rewrite filter_cons_True by done. rewrite fmap_cons. by f_equal.
Qed.

Lemma range_query_ok node e q rng results dist_of n :
  mvcc -> range_scan_fresh node q -> ra_traversal q rng results ->
  (length results + 1 < fuel)%nat -> at_distances dist_of results ->
  es_direction e = ForwardScanDirection -> (length results < n)%nat ->
  exists node' e' out,
    @pull _ (range_plan dist_of rng) n node e = Ok (node', e', out) /\
    out `sublist_of` visible_rows results /\
    Forall (fun r => within (xs_recheck mem) rng (dist_of r) = true) out /\
    (focused ra_giveup ra_limit rng results ->
     out = filter (fun r => within (xs_recheck mem) rng (dist_of r) = true) (visible_rows results)).
Proof.
  intros Hm [Hk Hr Hfw Ho Hc He Hq Hl Ht] Htr Hf Hd Hdir Hn.
  destruct (ra_answers recovery mem q rng results Htr Hf) as (scan & io & Hsc & Hcont & Hdel).
  set (out := range_hits ra_giveup ra_limit rng [] results) in *.
  destruct (range_hits_sound ra_giveup ra_limit rng [] results) as [Hsub Hin]. fold out in Hsub, Hin.
  assert (Hfr : scan_fresh recovery mem fuel node (visible (result_entry (xs_recheck mem) io <$> out))).
  { split; try done. exists scan. rewrite Hk. split; [done|]. eexists. split; [exact Hdel|].
    split; [done|]. rewrite length_fmap. apply sublist_length in Hsub. split; [lia|done]. }
  pose proof (plain_scan_entries (range_qual dist_of rng) [] None None (fun k => k) recovery mem fuel
    node _ Hfr Ho) as Hst. rewrite selected_entries_all in Hst. apply entries_stream in Hst.
  apply (stream_yields _ _ e) in Hst; [|done].
  assert (Hd' : at_distances dist_of out).
  { intros x r Hx. apply Hd. by eapply elem_of_sublist. }
  assert (Hrows : forall xs : list (ientry * row), ((fun x => (snd x, ie_inorder (fst x))) <$> xs).*1 = snd <$> xs).
  { intros xs. by rewrite <- list_fmap_compose. }
  rewrite Hrows, (passing_within dist_of rng io out Hd' Hin) in Hst.
  set (P := fun r => within (xs_recheck mem) rng (dist_of r) = true) in *.
  assert (Hvis : visible_rows out `sublist_of` visible_rows results) by (by apply sublist_omap_mono).
  assert (Hlen : (length (visible_rows results) <= length results)%nat).
  { unfold visible_rows. clear. induction results as [|x l IH]; cbn; [lia|]. destruct (f_slot _); cbn; lia. }
  destruct (pull_yields (H := range_plan dist_of rng) n node _ e Hst) as (node' & e' & Hp).
  - pose proof (length_filter P (visible_rows out)). apply sublist_length in Hvis. lia.
  - exists node', e', (filter P (visible_rows out)). split; [done|].
    split; [etrans; [apply sublist_filter|done]|]. split; [apply Forall_forall; intros r Hr'; by apply list_elem_of_filter in Hr' as [? _]|].
    intros Hfoc. unfold out. rewrite range_hits_complete by (done || apply ra_limit_pos).
    by apply filter_visible_hits.
Qed.
End answer.

(** ** Properties *)

(** C26. A range query over an HNSW index, through the executor.  The scan node
    returns only visible rows of the traversal that lie in range, each as
    often as the traversal meets it, and ends without an error; if the
    traversal is focused (it keeps getting closer until the first hit, and of
    any three results in a row after a hit one is in range) it returns all of
    them.  Whether a row at exactly the range counts is decided by
    [xs_recheck], which no call assigns: the stale memory of the descriptor. *)
Theorem hnsw_range_query {I V} `{TableAmRoutine} Next (BeginScan : V -> I) BeginRangeScan
    recovery mem fuel node e v rng it results dist_of n :
  mvcc ->
  range_scan_fresh (RA := hnsw_range_am Next BeginScan BeginRangeScan fuel) fuel node v ->
  BeginRangeScan v = Ok (rng, it) -> iter_at Next it results ->
  (length results + 1 < fuel)%nat -> at_distances dist_of results ->
  es_direction e = ForwardScanDirection -> (length results < n)%nat ->
  exists node' e' out,
    @pull _ (@index_scan_plan _ _ (hnsw_am Next BeginScan BeginRangeScan fuel) _
               (range_qual dist_of rng) [] None None (fun k => k) recovery mem fuel) n node e =
      Ok (node', e', out) /\
    out `sublist_of` visible_rows results /\
    Forall (fun r => within (xs_recheck mem) rng (dist_of r) = true) out /\
    (focused hnsw_giveup distanceThreshold rng results ->
     out = filter (fun r => within (xs_recheck mem) rng (dist_of r) = true) (visible_rows results)).
Proof.
  intros Hm Hfr Hv Hit Hf Hd He Hn.
  apply (range_query_ok recovery mem fuel (RA := hnsw_range_am Next BeginScan BeginRangeScan fuel)
    node e v rng results dist_of n); try done. by exists it.
Qed.

(** The rows at 30 20 9 5 40 7, and three misses before the one at 1. *)
Definition demo_range_dists : list Z := [30; 20; 9; 5; 40; 7; 50; 60; 70; 1].

Definition demo_range_scan : IndexScanState demo_opaque demo_keys :=
  mk_iss ForwardScanDirection (Some (Some tt), None) 0 false None [] [] false
    pairingheap_allocate ∅ ∅.

Definition demo_range_am : IndexAmRoutine demo_opaque demo_keys :=
  hnsw_am demo_next (fun _ : unit => []) (fun _ => Ok (9, demo_results demo_range_dists)) 20.

Lemma demo_at_distances ds :
  Forall (fun d => 0 <= d < 65536) ds ->
  @at_distances distance_table row_distance (demo_results ds).
Proof.
  intros Hd x r (d & -> & Hin)%list_elem_of_fmap. cbn. intros [= <-].
  rewrite small_label; [done|]. by eapply (proj1 (Forall_forall _ _) Hd).
Qed.

Lemma hnsw_range_query_witness :
  exists node' e' out,
    @pull _ (@index_scan_plan _ _ demo_range_am distance_table
               (range_qual row_distance 9) [] None None (fun k => k) false demo_hnsw_mem 20) 15
      demo_range_scan forward_estate = Ok (node', e', out) /\
    out `sublist_of` @visible_rows distance_table (demo_results demo_range_dists) /\
    Forall (fun r => within false 9 (row_distance r) = true) out /\
    (focused hnsw_giveup distanceThreshold 9 (demo_results demo_range_dists) ->
     out = filter (fun r => within false 9 (row_distance r) = true)
             (@visible_rows distance_table (demo_results demo_range_dists))).
Proof.
  apply (@hnsw_range_query _ _ distance_table demo_next (fun _ : unit => [])
    (fun _ => Ok (9, demo_results demo_range_dists)) false demo_hnsw_mem 20 demo_range_scan forward_estate
    tt 9 (demo_results demo_range_dists) (demo_results demo_range_dists) row_distance 15).
  - intros tid c. reflexivity.
  - by split.
  - reflexivity.
  - apply demo_iter_at.
  - cbn. lia.
  - apply demo_at_distances. apply (bool_decide_unpack _). vm_compute. exact I.
  - reflexivity.
  - cbn. lia.
Defined.

(** The model's rows: the third miss in a row ends the scan. *)
Example demo_range_rows :
  (do! ' (_, _, rows) <-
     @pull _ (@index_scan_plan _ _ demo_range_am distance_table
                (range_qual row_distance 9) [] None None (fun k => k) false demo_hnsw_mem 20) 15
       demo_range_scan forward_estate ;; Ok rows) = Ok (int_row <$> [9; 5; 7]).
Proof. vm_compute. reflexivity. Qed.

(** C27. The same over an SPTAG index: five misses in a row end the scan, and
    it never gives up before the first hit. *)
Theorem sptag_range_query {I} `{TableAmRoutine} Next (GetIterator : list Z -> I)
    recovery mem fuel node e v rng results dist_of n :
  mvcc ->
  range_scan_fresh (RA := sptag_range_am Next GetIterator fuel) fuel node (rng, v) ->
  iter_at (decoded Next) (GetIterator v) results ->
  (length results + 1 < fuel)%nat -> at_distances dist_of results ->
  es_direction e = ForwardScanDirection -> (length results < n)%nat ->
  exists node' e' out,
    @pull _ (@index_scan_plan _ _ (sptag_am Next GetIterator fuel) _
               (range_qual dist_of rng) [] None None (fun k => k) recovery mem fuel) n node e =
      Ok (node', e', out) /\
    out `sublist_of` visible_rows results /\
    Forall (fun r => within (xs_recheck mem) rng (dist_of r) = true) out /\
    (focused (fun _ _ => false) threshold rng results ->
     out = filter (fun r => within (xs_recheck mem) rng (dist_of r) = true) (visible_rows results)).
Proof.
  intros Hm Hfr Hit Hf Hd He Hn.
  by apply (range_query_ok recovery mem fuel (RA := sptag_range_am Next GetIterator fuel)
    node e (rng, v) rng results dist_of n).
Qed.

Definition demo_sptag_scan : IndexScanState (@SPTAGScanOpaqueData (list (Z * list Z)))
    (option (option (list Z)) * option (option (list Z))) :=
  mk_iss ForwardScanDirection (Some (Some [5; 0; 0]), None) 0 false None [] [] false
    pairingheap_allocate ∅ ∅.
(** Stale memory: the recheck flag is up. *)
Definition demo_sptag_mem : IndexScanDescData (@SPTAGScanOpaqueData (list (Z * list Z))) :=
  mk_scan false false (mk_sptag true false false 0 None None NoKeys NoKeys) 0 0 false true [] false true.

Lemma demo_sptag_iter : iter_at (decoded demo_sptag_next) demo_sptag_results demo_sptag_labels.
Proof. cbn. repeat (eexists; split; [vm_compute; reflexivity|]). eexists. reflexivity. Qed.

Lemma sptag_range_query_witness :
  exists node' e' out,
    @pull _ (@index_scan_plan _ _ (sptag_am demo_sptag_next (fun _ => demo_sptag_results) 20) distance_table
               (range_qual row_distance 5) [] None None (fun k => k) false demo_sptag_mem 20) 15
      demo_sptag_scan forward_estate = Ok (node', e', out) /\
    out `sublist_of` @visible_rows distance_table demo_sptag_labels /\
    Forall (fun r => within true 5 (row_distance r) = true) out /\
    (focused (fun _ _ => false) threshold 5 demo_sptag_labels ->
     out = filter (fun r => within true 5 (row_distance r) = true)
             (@visible_rows distance_table demo_sptag_labels)).
Proof.
  apply (@sptag_range_query _ distance_table demo_sptag_next (fun _ => demo_sptag_results) false
    demo_sptag_mem 20 demo_sptag_scan forward_estate [0; 0] 5 demo_sptag_labels row_distance 15).
  - intros tid c. reflexivity.
  - by split.
  - apply demo_sptag_iter.
  - cbn. lia.
  - assert (H : @at_distances distance_table row_distance demo_sptag_labels); [|exact H].
    intros x r (d & -> & Hin)%list_elem_of_fmap. cbn. intros [= <-]. revert d Hin.
    apply Forall_forall. apply (bool_decide_unpack _). vm_compute. exact I.
  - reflexivity.
  - cbn. lia.
Defined.
