(* ===== verification/SptagQuery.v ===== *)
(** * ORDER BY queries over an SPTAG index

    [ORDER BY column <-> v LIMIT k] planned over the SPTAG access method,
    which hands out its traversal without ever writing [xs_inorder]: the scan
    node copies the flag of the descriptor's stale memory to the executor and
    the Sort above believes it. *)

From Stdlib Require Import ZArith Lia.
From stdpp Require Import base list sorting strings gmap fin_maps.
From S2P Require Import Prelude SortSupport TuplesortState TuplesortCursor Executor NodeSort NodeLimit PairingHeap IndexAm NodeIndexscan RangeSpec HnswScan SptagScan Pipeline.

Local Open Scope Z_scope.

(** What a bounded Sort reads when the flag never changes. *)
Lemma consumed_const b n f (rs : list row) :
  1 <= b - n ->
  consumed b n ((fun r => (r, f)) <$> rs) = if (f : bool) then ztake (b - n) rs else rs.
Proof.
  revert n. induction rs as [|r rs IH]; intros n Hb; cbn.
  - destruct f; [|done]. unfold ztake. by rewrite take_nil.
  - destruct (Z.geb_spec (n + 1) b) as [Hfull|Hmore].
    + destruct f; cbn [andb].
      * unfold ztake. replace (b - n) with 1 by lia. by destruct rs.
      * f_equal. clear IH. generalize (n + 1). induction rs as [|r' rs IH]; intros m; [done|].
        cbn. by rewrite IH.
    + rewrite andb_false_r, IH by lia. destruct f; [|done].
      unfold ztake. replace (Z.to_nat (b - n)) with (S (Z.to_nat (b - (n + 1)))) by lia. done.
Qed.

Section sptag_plan.
Context {I : Type} `{TA : TableAmRoutine}.
Variable Next : I -> res (I * option (Z * list Z)).
Variable GetIterator : list Z -> I.
Variable recovery : bool.
Variable mem : IndexScanDescData (@SPTAGScanOpaqueData I).
Variable fuel : nat.

Abbreviation skeys := (option (option (list Z)) * option (option (list Z)))%type.
Abbreviation inode := (IndexScanState (@SPTAGScanOpaqueData I) skeys).

Definition sptag_scan_plan : PlanState inode :=
  @index_scan_plan _ _ (sptag_am Next GetIterator fuel) _
    (fun _ => true) [] None None (fun k => k) recovery mem fuel.

(** A scan node of a query [ORDER BY column <-> v] before its first call. *)
Record sptag_scan_fresh (node : inode) (v : list Z) : Prop := {
  st_keys : iss_ScanKeys node = (None, Some (Some v));
  st_runtime : iss_NumRuntimeKeys node = 0;
  st_forward : indexorderdir node = ForwardScanDirection;
  st_order : iss_SortSupport node <> [];
  st_closed : iss_ScanDesc node = None;
  st_end : iss_ReachedEnd node = false;
  st_queue : iss_ReorderQueue node = pairingheap_allocate;
  st_links : queue_links node = ∅;
  st_tuples : queue_tuples node = ∅
}.

Lemma sptag_passed rc f dist_of results rs :
  result_rows dist_of results rs ->
  passed (fun _ => true) (visible (result_entry rc f <$> results)) = (fun r => (r, f)) <$> rs.
Proof.
  induction 1 as [|x r results rs [Hrow Hd] _ IH]; [done|]. rewrite !fmap_cons, visible_cons.
  unfold heap_row. cbn [ie_tid result_entry]. rewrite Hrow. unfold passed.
  rewrite filter_cons_True by (unfold passes; apply orb_true_r). rewrite fmap_cons. by f_equal.
Qed.

Lemma result_entries_exact rc f results :
  Forall (fun x => ie_recheckorderby (fst x) = false) (visible (result_entry rc f <$> results)).
Proof.
  induction results as [|x results IH]; [constructor|]. rewrite fmap_cons, visible_cons.
  destruct (heap_row _) as [r|]; [by constructor|done].
Qed.

(** The rows of the traversal, each with the stale flag. *)
Lemma sptag_scan_stream node v dist_of results rs :
  mvcc -> sptag_scan_fresh node v -> iter_at (decoded Next) (GetIterator v) results ->
  result_rows dist_of results rs -> (length results + 1 < fuel)%nat ->
  stream (@ExecProcNode _ sptag_scan_plan) node ((fun r => (r, xs_inorder mem)) <$> rs).
Proof.
  intros Hm [Hk Hr Hfw Ho Hc He Hq Hl Ht] Hit Hrows Hf.
  rewrite <- (selected_flags_all ((fun r => (r, xs_inorder mem)) <$> rs)).
  rewrite <- (sptag_passed (xs_recheck mem) (xs_inorder mem) dist_of results rs Hrows).
  apply index_scan_stream; [|done|apply result_entries_exact].
  split; try done. rewrite Hk. eexists. split; [reflexivity|].
  exists (result_entry (xs_recheck mem) (xs_inorder mem) <$> results).
  split; [|split; [done|split; [by rewrite length_fmap|done]]].
  match goal with |- am_delivers ?s _ =>
    apply (sptag_order_delivers Next GetIterator fuel s v results) end; try done. lia.
Qed.
End sptag_plan.

(** ** Properties *)

(** C31. The answer of [ORDER BY column <-> v OFFSET off LIMIT c] over an SPTAG
    index whose every result is a visible row, with [off + c] at most 510 and
    memory for as many rows.  If the byte of [xs_inorder] in the allocated descriptor happened
    to be zero, the Sort reads the whole traversal and the answer is exact,
    whatever the order of the traversal; if not, the Sort stops as soon as it
    has [off + c] rows and the answer is the sorted window of the first
    [off + c] rows the traversal met, no matter how far they are. *)
Theorem sptag_topk_answer {I} `{TableAmRoutine} E `{!SortEnvOk E} Next (GetIterator : list Z -> I)
    recovery mem eqf fuel (lnode : LimitState (SortState _)) e keys wm off c chunk v results rs
    dist_of n :
  mvcc -> limit_fresh lnode LIMIT_OPTION_COUNT off (Some c) -> 1 <= c ->
  sort_idle (limit_outer lnode) keys wm -> keys_wf keys ->
  sptag_scan_fresh (sort_outer (limit_outer lnode)) v ->
  iter_at (decoded Next) (GetIterator v) results -> result_rows dist_of results rs ->
  topn_budget wm (off + c) chunk rs ->
  (Z.to_nat (Z.max (off + c) (zlen rs + 1)) < fuel)%nat ->
  es_direction e = ForwardScanDirection -> c < Z.of_nat n ->
  exists lnode' e' full,
    @pull _ (@limit_sort_plan _ (sptag_scan_plan Next GetIterator recovery mem fuel)
               E eqf fuel) n lnode e = Ok (lnode', e', zdrop off full) /\
    topn (tcmp keys) (off + c) (if xs_inorder mem then ztake (off + c) rs else rs) full.
Proof.
  intros Hm Hlf Hc Hsi Hwf Hfr Hit Hrows Hbud Hf He Hn.
  pose proof (f_equal length (result_rows_dist dist_of results rs Hrows)) as Hlen.
  rewrite !length_fmap in Hlen. pose proof (lf_offset_pos _ _ _ _ Hlf) as Hoff.
  set (rows := (fun r => (r, xs_inorder mem)) <$> rs).
  assert (Hrs : rows.*1 = rs).
  { unfold rows. rewrite <- list_fmap_compose. apply list_fmap_id. }
  assert (Hzl : zlen rows = zlen rs) by (unfold rows, zlen; by rewrite length_fmap).
  pose proof (sptag_scan_stream Next GetIterator recovery mem fuel _ v dist_of
    results rs Hm Hfr Hit Hrows ltac:(unfold zlen in *; lia)) as Hst. rewrite <- Hrs in Hbud.
  destruct (@limit_sort_read _ (sptag_scan_plan Next GetIterator recovery mem fuel) E _ eqf fuel lnode e
    keys wm off c chunk rows n) as (l' & e' & full & Hp & Htop); try done; [lia|].
  exists l', e', full. split; [done|]. unfold rows in Htop.
  rewrite consumed_const, Z.sub_0_r in Htop by lia. exact Htop.
Qed.

(** A traversal that meets the rows 30 10 20 in this order, over stale memory. *)
Definition demo_sptag_order (ds : list Z) : list (Z * list Z) :=
  (fun d => (d, le_bytes 8 (tuple_label 0 d))) <$> ds.
Abbreviation demo_sptag_opaque := (@SPTAGScanOpaqueData (list (Z * list Z))).
Abbreviation demo_sptag_keys := (option (option (list Z)) * option (option (list Z)))%type.
Definition demo_stale_mem (junk : bool) : IndexScanDescData demo_sptag_opaque :=
  mk_scan false false (mk_sptag true false false 0 None None NoKeys NoKeys) 0 0 false false [] false junk.
Definition demo_sptag_query (off c : Z)
    : LimitState (SortState (IndexScanState demo_sptag_opaque demo_sptag_keys)) :=
  ExecInitLimit (Some (Some off)) (Some (Some c)) LIMIT_OPTION_COUNT
    (ExecInitSort [int_key] 4096 0
       (mk_iss ForwardScanDirection (None, Some (Some [0; 0])) 0 false None [int_key] [] false
          pairingheap_allocate ∅ ∅)).
Definition demo_sptag_plan (ds : list Z) (junk : bool)
    : PlanState (LimitState (SortState (IndexScanState demo_sptag_opaque demo_sptag_keys))) :=
  @limit_sort_plan _
    (@sptag_scan_plan _ distance_table demo_sptag_next (fun _ => demo_sptag_order ds) false
       (demo_stale_mem junk) 20) merge_env row_eqb 20.

Lemma sptag_topk_answer_witness :
  exists lnode' e' full,
    @pull _ (demo_sptag_plan [30; 10; 20] true) 5 (demo_sptag_query 1 1) forward_estate =
      Ok (lnode', e', zdrop 1 full) /\
    topn (tcmp [int_key]) 2 (ztake 2 (int_row <$> [30; 10; 20])) full.
Proof.
  apply (@sptag_topk_answer _ distance_table merge_env _ demo_sptag_next
    (fun _ => demo_sptag_order [30; 10; 20]) false (demo_stale_mem true) row_eqb 20
    (demo_sptag_query 1 1) forward_estate [int_key] 4096 1 1 48 [0; 0]
    ((fun d => (d, d)) <$> [30; 10; 20]) (int_row <$> [30; 10; 20]) row_distance 5).
  - intros tid c. reflexivity.
  - split; try reflexivity; [lia| |discriminate]. intros c [= <-]. lia.
  - lia.
  - by split.
  - apply int_key_wf.
  - split; try reflexivity. discriminate.
  - cbn. repeat (eexists; split; [vm_compute; reflexivity|]). eexists. reflexivity.
  - repeat constructor.
  - split; [lia| |vm_compute; discriminate].
    apply Forall_fmap, Forall_true. intros d. vm_compute. discriminate.
  - vm_compute. lia.
  - reflexivity.
  - lia.
Defined.

(** The rows that come out: the first one met with the stale flag up, the
    nearest one with it down. *)
Example demo_stale_answers :
  (fun junk =>
     do! ' (_, _, rows) <-
       @pull _ (demo_sptag_plan [30; 10; 20] junk) 5 (demo_sptag_query 0 1) forward_estate ;;
     Ok rows) <$> [true; false] = [Ok [int_row 30]; Ok [int_row 10]].
Proof. vm_compute. reflexivity. Qed.
