(* ===== verification/HnswQuery.v ===== *)
(** * Top-k queries over the HNSW graph itself

    The query path of [Pipeline] with the library's iterator in place of an
    abstract traversal: Limit over Sort over the index scan over the HNSW
    access method over the best-first search of the graph. *)

From Stdlib Require Import ZArith Lia.
From stdpp Require Import base list sorting strings gmap fin_maps.
From S2P Require Import Prelude SortSupport TuplesortState TuplesortCursor Executor NodeSort NodeLimit PairingHeap IndexAm NodeIndexscan HnswScan Pipeline HnswGraph HnswTraversal.

Local Open Scope Z_scope.

(** The elements that are not deleted. *)
Definition live (g : HierarchicalNSW) : list tableint :=
  filter (fun id => is_live g id = true) (seqZ 0 (cur_element_count g)).

(** Every live element is a visible row at its distance. *)
Definition rows_at `{TableAmRoutine} (fstdistfunc_ : list Z -> list Z -> Z) (g : HierarchicalNSW)
    (query : list Z) (row_of : tableint -> row) (row_dist : row -> Z) : Prop :=
  forall id x, zget (elements g) id = Some x -> e_deleted x = false ->
    f_slot (index_fetch_tuple (label_tid (e_label x)) false) = Some (row_of id) /\
    row_dist (row_of id) = dist_of fstdistfunc_ g query id.

(** The traversal reaches every element. *)
Definition connected (fstdistfunc_ : list Z -> list Z -> Z) (g : HierarchicalNSW) (query : list Z) : Prop :=
  forall ep, search_entry fstdistfunc_ g query = Ok ep ->
    forall id, 0 <= id < cur_element_count g -> reachable g 0 ep id.

Section graph_query.
Context `{TA : TableAmRoutine} `{PQ : PriorityQueue}.
Variable fstdistfunc_ : list Z -> list Z -> Z.
Variables (g : HierarchicalNSW) (query : list Z).
Hypothesis Hwf : hnsw_wf g.

(** The rows of the results are those of the live nodes. *)
Lemma node_results_rows row_of row_dist order :
  rows_at fstdistfunc_ g query row_of row_dist ->
  result_rows row_dist (omap (node_result fstdistfunc_ g query) order)
    (row_of <$> filter (fun id => is_live g id = true) order).
Proof.
  intros Hr. induction order as [|id order IH]; [constructor|]. cbn [omap list_omap].
  unfold node_result. destruct (zget (elements g) id) as [x|] eqn:Hx.
  - destruct (e_deleted x) eqn:Hd.
    + rewrite filter_cons_False; [exact IH|]. unfold is_live. by rewrite Hx, Hd.
    + rewrite filter_cons_True by (unfold is_live; by rewrite Hx, Hd).
      rewrite fmap_cons. constructor; [|exact IH]. cbn. by apply Hr.
  - rewrite filter_cons_False; [exact IH|]. unfold is_live. by rewrite Hx.
Qed.

(** A complete traversal visits every live element once. *)
Lemma order_live ep order :
  connected fstdistfunc_ g query -> search_entry fstdistfunc_ g query = Ok ep ->
  best_first fstdistfunc_ g query ep order ->
  Forall (fun id => 0 <= id < cur_element_count g) order ->
  filter (fun id => is_live g id = true) order ≡ₚ live g.
Proof.
  intros Hcon Hep [Hnd Hre _] Hval. unfold live.
  assert (Hp : order ≡ₚ seqZ 0 (cur_element_count g)); [|by rewrite Hp].
  apply NoDup_Permutation; [done|apply NoDup_seqZ|]. intros id. rewrite elem_of_seqZ. split.
  - intros Hid. apply (proj1 (Forall_forall _ _) Hval) in Hid. lia.
  - intros Hid. apply Hre, (Hcon ep Hep). lia.
Qed.

Lemma reachable_valid ep id :
  0 <= ep < cur_element_count g -> reachable g 0 ep id -> 0 <= id < cur_element_count g.
Proof.
  intros Hep. induction 1 as [|x y _ _ Hy]; [done|]. eapply on_level_valid, hw_links; eauto.
Qed.
End graph_query.

(** The traversal of the graph reaches every element and settles. *)
Record searchable `{PriorityQueue} (fstdistfunc_ : list Z -> list Z -> Z) (g : HierarchicalNSW) (query : list Z)
    : Prop := {
  se_connected : connected fstdistfunc_ g query;
  se_settles : forall ep order, search_entry fstdistfunc_ g query = Ok ep ->
    best_first fstdistfunc_ g query ep order ->
    settles (fst <$> omap (node_result fstdistfunc_ g query) order)
}.

(** Fewer than 86 results settle. *)
Lemma small_settles ds : zlen ds <= 86 -> settles ds.
Proof.
  intros Hl pre d rest -> Hc. exfalso. unfold count_closer in Hc.
  pose proof (length_filter (fun x => x < d) pre). rewrite zlen_app, zlen_cons in Hl.
  pose proof (zlen_nonneg rest). unfold zlen in *. lia.
Qed.

Lemma omap_length_le {A B} (f : A -> option B) (l : list A) : (length (omap f l) <= length l)%nat.
Proof. induction l as [|x l IH]; cbn; [lia|]. destruct (f x); cbn; lia. Qed.

(** In an index of at most 86 elements every traversal settles. *)
Lemma small_searchable `{PQ : PriorityQueue} fstdistfunc_ g query :
  hnsw_wf g -> elements g <> [] -> cur_element_count g <= 86 -> connected fstdistfunc_ g query ->
  searchable fstdistfunc_ g query.
Proof.
  intros Hwf Hne Hsmall Hcon. split; [done|]. intros ep order Hep Hbf. apply small_settles.
  unfold zlen. rewrite length_fmap. etrans; [apply Nat2Z.inj_le; apply omap_length_le|].
  destruct (search_entry_ok fstdistfunc_ g query Hwf Hne) as (ep' & Hep' & Hlev & _).
  assert (ep' = ep) as -> by congruence. apply on_level_valid in Hlev.
  assert (Hsub : order ⊆ seqZ 0 (cur_element_count g)).
  { intros id Hid. apply (bf_reach _ _ _ _ _ Hbf) in Hid. apply (reachable_valid g Hwf ep id Hlev) in Hid.
    rewrite elem_of_seqZ. lia. }
  pose proof (submseteq_length _ _ (NoDup_submseteq _ _ (bf_nodup _ _ _ _ _ Hbf) Hsub)) as Hl.
  rewrite length_seqZ in Hl. lia.
Qed.

(** The plan over the graph, for the properties. *)
Lemma graph_topk `{TableAmRoutine} `{PriorityQueue} E `{!SortEnvOk E} fstdistfunc_ g v0
    BeginRangeScan recovery mem eqf fuel (lnode : LimitState (SortState _)) e
    keys wm off c chunk query row_of row_dist n :
  hnsw_wf g -> elements g <> [] -> clean g v0 -> searchable fstdistfunc_ g query ->
  rows_at fstdistfunc_ g query row_of row_dist ->
  mvcc -> limit_fresh lnode LIMIT_OPTION_COUNT off (Some c) -> 1 <= c -> off + c <= 86 ->
  sort_idle (limit_outer lnode) keys wm -> keys_wf keys ->
  hnsw_scan_fresh (sort_outer (limit_outer lnode)) query ->
  (forall i j, i ∈ live g -> j ∈ live g ->
     cle (tcmp keys) (row_of i) (row_of j) <-> row_dist (row_of i) <= row_dist (row_of j)) ->
  topn_budget wm (off + c) chunk (row_of <$> live g) ->
  (Z.to_nat (Z.max (off + c) (cur_element_count g + 1)) < fuel)%nat ->
  es_direction e = ForwardScanDirection -> c < Z.of_nat n ->
  exists lnode' e' full,
    @pull _ (@limit_sort_plan _
               (hnsw_scan_plan (iterator_next fstdistfunc_) (fun q => new_ResultIterator g q v0)
                  BeginRangeScan recovery mem fuel None) E eqf fuel) n lnode e =
      Ok (lnode', e', zdrop off full) /\
    topn (tcmp keys) (off + c) (row_of <$> live g) full.
Proof.
  intros Hwf Hne Hclean [Hcon Hset] Hrows Hm Hlf Hc Hk Hsi Hwk Hfr Hcmp Hbud Hf He Hn.
  destruct (iterator_best_first fstdistfunc_ g query Hwf v0 Hclean Hne) as (ep & order & Hep & Hbf & Hit).
  destruct (search_entry_ok fstdistfunc_ g query Hwf Hne) as (ep' & Hep' & Hlev & _).
  assert (ep' = ep) as -> by congruence. apply on_level_valid in Hlev.
  set (rs := row_of <$> filter (fun id => is_live g id = true) order).
  assert (Hval : Forall (fun id => 0 <= id < cur_element_count g) order).
  { apply Forall_forall. intros id Hid. apply (bf_reach _ _ _ _ _ Hbf) in Hid. by eapply reachable_valid. }
  pose proof (order_live fstdistfunc_ g query ep order Hcon Hep Hbf Hval) as Hlive.
  assert (Hrs : rs ≡ₚ row_of <$> live g) by (unfold rs; by rewrite Hlive).
  destruct (@hnsw_topk_pull _ _ _ E _ (iterator_next fstdistfunc_) (fun q => new_ResultIterator g q v0)
    BeginRangeScan recovery mem eqf fuel lnode e keys wm off c chunk query
    (omap (node_result fstdistfunc_ g query) order) rs row_dist n) as (l' & e' & full & Hp & Htop); try done.
  - by apply node_results_rows.
  - by apply (Hset ep).
  - intros r r' Hr Hr'. rewrite Hrs in Hr, Hr'. apply list_elem_of_fmap in Hr as (i & -> & Hi).
    apply list_elem_of_fmap in Hr' as (j & -> & Hj). by apply Hcmp.
  - destruct Hbud as [H1 H2 H3]. split; [done| |done]. by rewrite Hrs.
  - assert (Hlen : zlen rs <= cur_element_count g).
    { unfold zlen. rewrite Hrs, length_fmap. unfold live.
      etrans; [apply Nat2Z.inj_le, length_filter|]. rewrite length_seqZ.
      unfold cur_element_count. pose proof (zlen_nonneg (elements g)). lia. }
    lia.
  - exists l', e', full. split; [done|]. by eapply topn_perm.
Qed.


(** ** Properties *)


(** The elements at 10 and 30 of [demo_graph]; the one at 20 is deleted. *)
Definition demo_vector_table : TableAmRoutine := {|
  index_fetch_tuple := fun tid _ => mk_fetch (Some (int_row (if tid =? 100 then 18 else 2))) tid false false
|}.
Definition demo_row_of (id : tableint) : row := int_row (if id =? 0 then 18 else 2).

Definition demo_graph_query : LimitState (SortState (IndexScanState (@HNSWScanOpaqueData ResultIterator (list Z))
    (option (option (list Z)) * option (option (list Z))))) :=
  ExecInitLimit (Some (Some 1)) (Some (Some 1)) LIMIT_OPTION_COUNT
    (ExecInitSort [int_key] 4096 0
       (mk_iss ForwardScanDirection (None, Some (Some [28])) 0 false None [int_key] [] false
          pairingheap_allocate ∅ ∅)).
Definition demo_graph_mem : IndexScanDescData (@HNSWScanOpaqueData ResultIterator (list Z)) :=
  mk_scan false false (mk_hnsw false false false 0 None NoKeys NoKeys) 0 0 false false [] false true.

Lemma demo_connected query : connected line_dist demo_graph query.
Proof.
  intros ep Hep id Hid. unfold cur_element_count in Hid. cbn in Hid. unfold zlen in Hid. cbn in Hid.
  assert (ep = 0) as ->.
  { unfold search_entry in Hep. cbn in Hep. by injection Hep. }
  assert (H0 : reachable demo_graph 0 0 0) by constructor.
  assert (H1 : reachable demo_graph 0 0 1) by (eapply reach_link; [exact H0|by left]).
  assert (H2 : reachable demo_graph 0 0 2) by (eapply reach_link; [exact H1|by left]).
  by assert (id = 0 \/ id = 1 \/ id = 2) as [-> |[-> | ->]] by lia.
Qed.

