(* ===== verification/VectorSearch.v ===== *)
(** * From CREATE INDEX to the answer of a query

    The whole life of a vector index in one statement: the table is scanned
    and its rows inserted into the graph, the graph is written to a file, a
    scan loads the file, and Limit over Sort over the index scan asks the
    graph's iterator for the nearest rows. *)

From Stdlib Require Import ZArith Lia.
From stdpp Require Import base list sorting strings gmap fin_maps.
From S2P Require Import Prelude SortSupport TuplesortState TuplesortCursor Executor NodeSort NodeLimit PairingHeap IndexAm NodeIndexscan HnswScan SptagScan Pipeline HnswGraph HnswTraversal HnswKnn HnswQuery HnswInsert HnswInsertTheory Double IndexBuild HnswFile.

Local Open Scope Z_scope.
Set Warnings "-clear-no-such-hyp".

(** The rows of the table that are in the index. *)
Definition vector_rows (rows : list table_row) : list table_row := filter (fun r => is_Some (r_array r)) rows.

(** A table that can be indexed: positions of their own, arrays of one
    length, at least one. *)
Record indexable (rows : list table_row) : Prop := {
  ix_rows : Forall row_ok rows;
  ix_positions : NoDup ((fun r => (r_blkno r, r_offnum r)) <$> rows);
  ix_length : same_length (arrays rows) = true;
  ix_nonempty : arrays rows <> []
}.

(** The heap holds the rows, at their distance from the query. *)
Definition heap_holds `{TableAmRoutine} (fstdistfunc_ : list Z -> list Z -> Z) (query : list Z)
    (rows : list table_row) (slot : table_row -> row) (row_dist : row -> Z) : Prop :=
  forall r a, r ∈ rows -> r_array r = Some a ->
    f_slot (index_fetch_tuple (ItemPointerSet (r_blkno r) (r_offnum r)) false) = Some (slot r) /\
    row_dist (slot r) = fstdistfunc_ query a.

Lemma vector_rows_cons r rows :
  vector_rows (r :: rows) = match r_array r with Some _ => r :: vector_rows rows | None => vector_rows rows end.
Proof.
  unfold vector_rows. rewrite filter_cons. case_decide as Hs; destruct (r_array r); try done; by destruct Hs.
Qed.

Lemma indexed_vector_rows rows :
  indexed_rows rows =
  (fun r => (default [] (r_array r), ItemPointerSet (r_blkno r) (r_offnum r))) <$> vector_rows rows.
Proof.
  induction rows as [|r rows IH]; [done|]. unfold indexed_rows in *.
  rewrite arrays_cons, positions_cons, vector_rows_cons. destruct (r_array r) as [a|] eqn:Ha; [|done].
  rewrite !fmap_cons, Ha, <- IH. done.
Qed.

Section loaded.
Context `{TA : TableAmRoutine}.
Variable fstdistfunc_ : list Z -> list Z -> Z.
Variables (rows : list table_row) (g h : HierarchicalNSW).
Hypothesis Hheld : holds_table rows g.
Hypothesis Hsame : elements h = elements g.

(** The row of an element. *)
Definition row_at (slot : table_row -> row) (id : tableint) : row :=
  slot (default (mk_trow 0 0 None) (zget (vector_rows rows) id)).

Lemma element_row id x :
  zget (elements h) id = Some x -> exists r a,
    zget (vector_rows rows) id = Some r /\ r_array r = Some a /\ e_data x = a /\
    label_tid (e_label x) = ItemPointerSet (r_blkno r) (r_offnum r).
Proof.
  rewrite Hsame. intros Hx. pose proof (ht_rows _ _ Hheld) as Hr. rewrite indexed_vector_rows in Hr.
  apply (f_equal (fun l => zget l id)) in Hr. unfold points in Hr. rewrite !zget_fmap, Hx in Hr. cbn in Hr.
  destruct (zget (vector_rows rows) id) as [r|] eqn:Hz; [|done]. cbn in Hr. injection Hr as H1 H2.
  pose proof (zget_elem _ _ _ Hz) as Hin. apply list_elem_of_filter in Hin as [[a Ha] _].
  exists r, a. rewrite Ha in H1. done.
Qed.

Lemma table_rows_at query slot row_dist :
  heap_holds fstdistfunc_ query rows slot row_dist ->
  rows_at fstdistfunc_ h query (row_at slot) row_dist.
Proof.
  intros Hheap id x Hx _. destruct (element_row id x Hx) as (r & a & Hz & Ha & Hd & Hl).
  pose proof (zget_elem _ _ _ Hz) as Hin. apply list_elem_of_filter in Hin as [_ Hin].
  destruct (Hheap r a Hin Ha) as [Hf Hdist]. unfold row_at. rewrite Hz, Hl. cbn [default]. split; [done|].
  unfold Datatypes.id. rewrite Hdist. unfold dist_of. by rewrite Hx, Hd.
Qed.

Lemma held_count : cur_element_count h = zlen (vector_rows rows).
Proof.
  pose proof (ht_rows _ _ Hheld) as Hr. rewrite indexed_vector_rows in Hr. apply (f_equal zlen) in Hr.
  rewrite !zlen_fmap in Hr. unfold points in Hr. rewrite zlen_fmap in Hr. unfold cur_element_count. by rewrite Hsame.
Qed.

Lemma held_live : live h = seqZ 0 (cur_element_count h).
Proof.
  unfold live. apply (filter_all (is_live h)). intros id Hid. apply elem_of_seqZ in Hid.
  destruct (zget_is_Some (elements h) id ltac:(unfold cur_element_count in Hid; lia)) as [x Hx].
  unfold is_live. rewrite Hx. rewrite Hsame in Hx. pose proof (ht_index _ _ Hheld) as Hix.
  by rewrite (hw_deleted _ (lo_wf _ _ (io_links _ _ Hix)) (io_deleted _ _ Hix) _ _ Hx).
Qed.

Lemma live_row slot id : id ∈ live h -> exists r, r ∈ vector_rows rows /\ row_at slot id = slot r.
Proof.
  rewrite held_live, held_count, elem_of_seqZ. intros Hid.
  destruct (zget_is_Some (vector_rows rows) id ltac:(lia)) as [r Hz]. exists r.
  split; [by eapply zget_elem|]. unfold row_at. by rewrite Hz.
Qed.

Lemma held_rows slot : row_at slot <$> live h = slot <$> vector_rows rows.
Proof.
  rewrite held_live, held_count. apply list_eq. intros i. rewrite !list_lookup_fmap.
  destruct (vector_rows rows !! i) as [r|] eqn:Hi.
  - apply lookup_lt_Some in Hi as Hlt. rewrite lookup_seqZ_lt, Z.add_0_l by (unfold zlen; lia). cbn.
    unfold row_at, zget. destruct (Z.leb_spec 0 (Z.of_nat i)); [|lia]. by rewrite Nat2Z.id, Hi.
  - apply lookup_ge_None in Hi. rewrite lookup_seqZ_ge by (unfold zlen; lia). done.
Qed.
End loaded.

Lemma zlen_vector_rows rows : zlen (vector_rows rows) = zlen (arrays rows).
Proof.
  induction rows as [|r rows IH]; [done|]. rewrite vector_rows_cons, arrays_cons.
  destruct (r_array r); [by rewrite !zlen_cons, IH|done].
Qed.

(** Whatever [num_deleted_] says, an index without deletions is well-formed. *)
Lemma loaded_wf M_ g nd :
  index_ok M_ g ->
  hnsw_wf (mk_graph (max_elements_ g) nd (maxlevel_ g) (enterpoint_node_ g) (elements g) (label_lookup_ g)).
Proof.
  intros Hix. destruct (io_links _ _ Hix) as [[H1 H2 H3 H4 H5] _ _ _]. pose proof (H5 (io_deleted _ _ Hix)). by split.
Qed.

(** ** Properties *)


(** A table with vectors at 10, 30 and 20 and a row without one; the query is
    at 28.  The index is built with the square of the distance. *)
Definition square_dist (a b : list Z) : Z := line_dist a b * line_dist a b.
Definition demo_slot (r : table_row) : row := int_row (line_dist [28] (default [] (r_array r))).
Definition demo_heap : TableAmRoutine := {|
  index_fetch_tuple := fun tid _ =>
    mk_fetch (Some (int_row (if tid =? ItemPointerSet 0 1 then 18 else if tid =? ItemPointerSet 0 3 then 2 else 8)))
      tid false false
|}.
Abbreviation demo_table := IndexBuild.demo_rows.
Abbreviation demo_build :=
  (hnsw_build square_dist 1000 (fun id => Z.abs id) (fun _ _ => mk_vl 3 [0; 2; 1]) demo_table double_zero).

Definition demo_built : HierarchicalNSW := match demo_build with Ok (g, _) => g | _ => new_index 0 end.

Definition demo_left_over (id : tableint) (level : Z) : bytes :=
  replicate (Z.to_nat ((Mcurmax 16 level - zlen (links_at demo_built id level)) * 4)) 77.

Abbreviation demo_load :=
  (loadIndex (saveIndex (memory_with build_M build_ef_construction 7 1 demo_left_over (max_elements_ demo_built)
     (num_deleted_ demo_built) (label_lookup_ demo_built) [1] demo_built)) 5 [9]).

Definition demo_loaded : HierarchicalNSW := match demo_load with Ok mm => index_in mm 1 | _ => new_index 0 end.

Lemma demo_table_ok : indexable demo_table.
Proof.
  split; [exact demo_rows_ok| |reflexivity|discriminate]. apply (bool_decide_unpack _). vm_compute. exact I.
Qed.

Lemma demo_built_held : demo_build = Ok (demo_built, counted double_zero 3) /\ holds_table demo_table demo_built.
Proof.
  pose proof (hnsw_build_ok square_dist 1000 (fun id => Z.abs id) (fun _ _ => mk_vl 3 [0; 2; 1]) demo_table double_zero 3
    demo_rows_ok (ix_positions _ demo_table_ok) (counted_zero 3 ltac:(lia)) ltac:(lia) ltac:(intros; lia)) as Hb.
  destruct Hb as (g & Hg & Hh).
  { intros id n. split; [vm_compute; reflexivity|]. apply (bool_decide_unpack _). vm_compute. exact I. }
  assert (demo_built = g) as -> by (unfold demo_built; by rewrite Hg).
  split; [rewrite Hg; reflexivity|exact Hh].
Qed.

(** Its links on the base layer. *)
Example demo_loaded_links :
  (fun x => (e_data x, head (e_links x))) <$> elements demo_loaded = [([10], Some [1; 2]); ([30], Some [0; 2]); ([20], Some [1; 0])].
Proof. vm_compute. reflexivity. Qed.

Lemma demo_savable : savable build_M 1 demo_built.
Proof. split; [vm_compute; split; discriminate|]. apply (bool_decide_unpack _). vm_compute. exact I. Qed.

Lemma demo_header : header_fits build_M build_ef_construction 7 1 demo_built (max_elements_ demo_built).
Proof. split; apply (bool_decide_unpack _); vm_compute; exact I. Qed.

Lemma demo_left_over_len id level :
  zlen (demo_left_over id level) = (Mcurmax build_M level - zlen (links_at demo_built id level)) * 4.
Proof.
  unfold demo_left_over, zlen at 1. rewrite length_replicate.
  pose proof (lo_degree _ _ (io_links _ _ (ht_index _ _ (proj2 demo_built_held))) id level).
  change build_M with 16 in *. lia.
Qed.

Lemma demo_loaded_eq :
  exists mm, demo_load = Ok mm /\ index_in mm 1 = demo_loaded /\ hnsw_wf demo_loaded /\ max_elements_ demo_loaded = 3 /\
    cur_element_count demo_loaded = 3.
Proof.
  destruct demo_built_held as [_ Hh]. pose proof (ht_index _ _ Hh) as Hix.
  destruct (loaded_index build_M build_ef_construction 7 1 demo_left_over demo_built [1] [9] 5 Hix
    demo_savable demo_header demo_left_over_len) as (mm & Hmm & Hidx).
  assert (Hl : demo_loaded = index_in mm 1) by (unfold demo_loaded; by rewrite Hmm).
  exists mm. split; [done|]. split; [done|]. split; [|split; vm_compute; reflexivity].
  rewrite Hl, Hidx. change (0 <? cur_element_count demo_built) with true. apply (loaded_wf build_M). exact Hix.
Qed.

Lemma demo_loaded_connected : connected line_dist demo_loaded [28].
Proof.
  intros ep Hep id Hid. assert (ep = 1) as ->.
  { vm_compute in Hep. by injection Hep. }
  change (cur_element_count demo_loaded) with 3 in Hid.
  assert (id = 1 \/ id = 0 \/ id = 2) as [-> |[-> | ->]] by lia; [constructor| |];
    (eapply reach_link; [constructor|]; apply (bool_decide_unpack _); vm_compute; exact I).
Qed.


(** The second nearest row, at distance 8. *)
Example demo_search_answer :
  (do! ' (_, _, rows) <-
     @pull _ (@limit_sort_plan _
                (@hnsw_scan_plan _ _ demo_heap (iterator_next line_dist)
                   (fun q => new_ResultIterator demo_loaded q (mk_vl 3 [0; 2; 1]))
                   (fun q => Ok (0, new_ResultIterator demo_loaded q (mk_vl 3 [0; 2; 1]))) false demo_graph_mem 20 None)
                merge_env row_eqb 20) 5 demo_graph_query forward_estate ;; Ok rows) = Ok [int_row 8].
Proof. vm_compute. reflexivity. Qed.
