(* ===== verification/TopkHnsw.v ===== *)
(** * The top-k functions over HNSW indexes

    [topk] runs one query per ORDER BY expression; each has a plan of its own,
    an index scan with the filter and the projection of that query.  Over HNSW
    indexes the scans keep the contract the loop of the functions relies on:
    after every call the scan descriptor describes the row just returned. *)

From Stdlib Require Import ZArith Lia.
From stdpp Require Import base list sorting strings gmap.
From S2P Require Import Prelude SortSupport TuplesortCursor PairingHeap Executor IndexAm NodeIndexscan NodeSort HnswScan Pipeline TopkScan.

Local Open Scope Z_scope.
Set Warnings "-clear-no-such-hyp".

Section topk_hnsw.
Context {I V Q : Type} `{TA : TableAmRoutine} `{PriorityQueue Q, !PriorityQueueOk Q}.
Variable Next : I -> res (I * option (Z * Z)).
Variable BeginScan : V -> I.
Variable BeginRangeScan : V -> res (Z * I).
Variable recovery : bool.
Variable mem : IndexScanDescData (@HNSWScanOpaqueData I V).
Variables float_of_int4 float_of_int8 float_of_float8 : Datum -> Z.
(** What the value of an ORDER BY expression marked null holds. *)
Variable null_value : Datum.
Variable fuel : nat.

Abbreviation hkeys := (option (option V) * option (option V))%type.
Abbreviation inode := (IndexScanState (@HNSWScanOpaqueData I V) hkeys).
Abbreviation cast := (castAttrToFloat float_of_int4 float_of_int8 float_of_float8).

(** The index scan of one of the queries, with its filter and projection. *)
Record TopkQuery := mk_query { q_qual : option (row -> bool); q_proj : option (row -> row); q_node : inode }.

Definition query_plan (q : TopkQuery) : PlanState inode :=
  @index_scan_plan _ _ (hnsw_am Next BeginScan BeginRangeScan fuel) _
    (fun _ => true) [] (q_qual q) (q_proj q) (fun k => k) recovery mem fuel.

#[local] Instance topk_query_plan : PlanState TopkQuery := {|
  ExecProcNode := fun q e =>
    do! ' (node, e, slot) <- @ExecProcNode _ (query_plan q) (q_node q) e ;;
    Ok (mk_query (q_qual q) (q_proj q) node, e, slot);
  ExecReScan := fun q e =>
    do! ' (node, e) <- @ExecReScan _ (query_plan q) (q_node q) e ;;
    Ok (mk_query (q_qual q) (q_proj q) node, e);
  ExecSetTupleBound := fun _ q => q
|}.

#[local] Instance topk_query_ranked : RankedScan TopkQuery := {|
  scan_tid := fun q => @scan_tid _ (index_ranked_scan null_value) (q_node q);
  scan_orderbyval := fun q => @scan_orderbyval _ (index_ranked_scan null_value) (q_node q)
|}.

Lemma query_step q e :
  @ExecProcNode _ topk_query_plan q e =
    (do! ' (node, e, slot) <- @ExecProcNode _ (query_plan q) (q_node q) e ;; Ok (mk_query (q_qual q) (q_proj q) node, e, slot)).
Proof. reflexivity. Qed.

(** ** What the loop reads off an index entry *)

Definition entry_hit (multi : bool) (desc : list Z) (x : ientry * row) (h : hit) : Prop :=
  h_row h = snd x /\ h_tid h = ie_tid (fst x) /\ 0 <= h_tid h < 281474976710656 /\
  (if multi then cast desc (snd x) (zlen desc - 1) = Ok (h_score h)
   else head (ie_vals (fst x)) = Some (Some (h_score h))).

Lemma query_scan_hits multi q e cxt desc xs l :
  entries_of (@ExecProcNode _ (query_plan q)) (q_node q) xs -> es_direction e = ForwardScanDirection ->
  Forall2 (entry_hit multi desc) xs l ->
  scan_hits float_of_int4 float_of_int8 float_of_float8 multi (mk_child q e cxt desc) l.
Proof.
  intros Hen He Hl. revert q e He Hen. induction Hl as [|x h xs l (Hr & Ht & Hb & Hs) _ IH]; intros q e He Hen; cbn [scan_hits c_node c_estate].
  - destruct (Hen e He) as (node' & e' & Hstep & _). eexists _, _. by rewrite query_step, Hstep, rbind_ret.
  - destruct (Hen e He) as (node' & scan & Hstep & Hsd & Htid & Hv & Hrest).
    exists (mk_query (q_qual q) (q_proj q) node'), (set_inorder (ie_inorder (fst x)) e). split; [by rewrite query_step, Hstep, rbind_ret, Hr|].
    split; [|split; [cbn; by rewrite Hsd, Htid, Ht|split; [done|]]].
    + unfold rank_score. cbn [c_desc]. destruct multi; [by rewrite Hr|]. cbn. rewrite Hsd, Hv.
      destruct (ie_vals (fst x)) as [|v vs]; [done|]. by injection Hs as ->.
    + apply IH; [done|]. exact Hrest.
Qed.

(** ** The hits of a traversal *)

Definition rank_of_row (desc : list Z) (r : row) : Z :=
  match cast desc r (zlen desc - 1) with Ok z => z | _ => 0 end.

(** A result whose row is visible and satisfies the filter of the query. *)
Definition result_hit (multi : bool) (c : child TopkQuery) (x : Z * Z) : option hit :=
  match f_slot (index_fetch_tuple (label_tid (snd x)) false) with
  | Some r =>
    if satisfies (q_qual (c_node c)) r then
      let r := project (q_proj (c_node c)) r in
      Some (mk_hit r (if multi then rank_of_row (c_desc c) r else fst x) (label_tid (snd x)))
    else None
  | None => None
  end.

Definition traversal_hits (multi : bool) (c : child TopkQuery) (results : list (Z * Z)) : list hit :=
  omap (result_hit multi c) results.

(** A query that has not been run yet, the traversal of its index, and rows
    whose rank column has a numeric type. *)
Record hnsw_child (multi : bool) (c : child TopkQuery) (results : list (Z * Z)) : Prop := {
  hc_fresh : exists v, hnsw_scan_fresh (q_node (c_node c)) v /\ iter_at Next (BeginScan v) results;
  hc_forward : es_direction (c_estate c) = ForwardScanDirection;
  hc_fuel : (length results + 1 < fuel)%nat;
  hc_ranked : multi = true -> forall x h, x ∈ results -> result_hit multi c x = Some h ->
    exists z, cast (c_desc c) (h_row h) (zlen (c_desc c) - 1) = Ok z
}.

Lemma label_tid_range lab : 0 <= label_tid lab < 281474976710656.
Proof.
  unfold label_tid, ItemPointerSet, uint32, uint16.
  pose proof (Z.mod_pos_bound (Z.shiftr lab 32) 4294967296 ltac:(lia)).
  pose proof (Z.mod_pos_bound (lab mod 4294967296) 65536 ltac:(lia)). lia.
Qed.

Lemma hnsw_entries_hits multi c rc seen up results :
  (multi = true -> forall x h, x ∈ results -> result_hit multi c x = Some h ->
    exists z, cast (c_desc c) (h_row h) (zlen (c_desc c) - 1) = Ok z) ->
  Forall2 (entry_hit multi (c_desc c))
    (selected_entries (q_qual (c_node c)) (q_proj (c_node c))
       (passing (fun _ => true) (visible (hnsw_entries rc seen up results))))
    (traversal_hits multi c results).
Proof.
  revert seen up. induction results as [|[d lab] results IH]; intros seen up Hrk; [constructor|].
  unfold hnsw_entries. rewrite fmap_cons. cbn [settled_flags zip_with]. rewrite visible_cons. unfold heap_row at 1. cbn [ie_tid snd result_entry].
  unfold traversal_hits. cbn [omap list_omap]. fold (traversal_hits multi c results).
  pose proof (Hrk) as Hrk1. unfold result_hit at 1. cbn [fst snd].
  assert (Hrest : forall seen up, Forall2 (entry_hit multi (c_desc c))
    (selected_entries (q_qual (c_node c)) (q_proj (c_node c)) (passing (fun _ => true) (visible (hnsw_entries rc seen up results))))
    (traversal_hits multi c results)).
  { intros seen' up'. apply IH. intros Hm x h Hx. apply Hrk; [done|by right]. }
  destruct (f_slot _) as [r|] eqn:Hslot; [|apply Hrest].
  unfold passing. rewrite filter_cons_True by (unfold passes; apply orb_true_r). unfold selected_entries. rewrite filter_cons. cbn [snd].
  destruct (satisfies (q_qual (c_node c)) r) eqn:Hsat; [|rewrite decide_False by congruence; apply Hrest].
  rewrite decide_True by done. rewrite fmap_cons. constructor; [|apply Hrest]. split; [done|]. split; [done|].
  split; [apply label_tid_range|]. cbn [snd fst h_score ie_vals].
  destruct multi; [|done]. destruct (Hrk eq_refl (d, lab) (mk_hit (project (q_proj (c_node c)) r) (rank_of_row (c_desc c) (project (q_proj (c_node c)) r)) (label_tid lab))) as [z Hz].
  - by left.
  - unfold result_hit. cbn [snd]. by rewrite Hslot, Hsat.
  - cbn [h_row] in Hz. unfold rank_of_row. by rewrite Hz.
Qed.

Lemma hnsw_child_hits multi c results : mvcc -> hnsw_child multi c results ->
  scan_hits float_of_int4 float_of_int8 float_of_float8 multi c (traversal_hits multi c results).
Proof.
  intros Hm [(v & Hfr & Hit) Hdir Hf Hrk]. destruct c as [q e cxt desc]. cbn [c_node c_estate c_desc] in *.
  eapply query_scan_hits; [|done|exact (hnsw_entries_hits multi (mk_child q e cxt desc) (xs_recheck mem) [] false results Hrk)].
  apply index_scan_entries; [by apply (hnsw_scan_fresh_ok Next BeginScan BeginRangeScan recovery mem fuel (q_node q) v)|apply Hfr|apply hnsw_exact].
Qed.

Lemma hnsw_children_hits multi cs traversals : mvcc -> Forall2 (hnsw_child multi) cs traversals ->
  Forall2 (scan_hits float_of_int4 float_of_int8 float_of_float8 multi) cs (zip_with (traversal_hits multi) cs traversals).
Proof. intros Hm. induction 1 as [|c rs cs ts Hc _ IH]; cbn; constructor; [by apply hnsw_child_hits|done]. Qed.

Lemma length_traversal_hits multi c results : (length (traversal_hits multi c results) <= length results)%nat.
Proof. unfold traversal_hits. induction results as [|x results IH]; cbn; [lia|]. destruct (result_hit multi c x); cbn; lia. Qed.

Lemma first_traversal_fuel multi cs traversals : cs <> [] -> Forall2 (hnsw_child multi) cs traversals ->
  (length (hd [] (zip_with (traversal_hits multi) cs traversals)) < fuel)%nat.
Proof.
  intros Hne Hcs. destruct Hcs as [|c rs cs ts Hc _]; [done|]. cbn. pose proof (length_traversal_hits multi c rs).
  pose proof (hc_fuel _ _ _ Hc). lia.
Qed.

(** C15. [topk] over HNSW indexes end to end.  Every query is an index scan of
    its own, with a filter and a projection; rows that are not visible or do
    not satisfy the filter are passed over.  If every traversal reaches the
    rows of the table once, and in the order in which the loop reads them
    [term_cond] new rows that do not improve on the [ef] best are followed by
    no better row, the function returns the [k] rows with the smallest scores. *)
Theorem topk_hnsw_exact k ef termCond (cs : list (child TopkQuery)) (traversals : list (list (Z * Z))) (T : list (Z * Z)) cxt :
  let multi := zlen cs >? 1 in
  let cap := Z.max (if ef =? 0 then 64 else ef) k in
  let term := if termCond =? 0 then 50 else termCond in
  let ls := zip_with (traversal_hits multi) cs traversals in
  mvcc -> 1 <= k <= INT_MAX -> 0 <= termCond -> term + zlen cs < 4294967296 -> cs <> [] ->
  Forall2 (hnsw_child multi) cs traversals ->
  NoDup (T.*1) -> Forall (fun l => hit_key <$> l ≡ₚ T) ls ->
  TopkScan.settles cap term (distinct ∅ (in_turn ls)) ->
  exists out, topk_rows (Q := Q) float_of_int4 float_of_int8 float_of_float8 fuel k ef termCond cs cxt = Ok (h_row <$> out) /\
    topn key_cmp k T (hit_key <$> out) /\ forall h, h ∈ out -> exists l, l ∈ ls /\ h ∈ l.
Proof.
  intros multi cap term ls Hm Hk Htc Hov Hne Hcs HT Hls Hset.
  pose proof (hnsw_children_hits multi cs traversals Hm Hcs) as Hsc. fold ls in Hsc.
  apply (topk_exact_ok float_of_int4 float_of_int8 float_of_float8 fuel k ef termCond cs ls T cxt); try done.
  by apply first_traversal_fuel.
Qed.
End topk_hnsw.

(** ** Two indexes over one table *)

(** Rows 1 to 8 with their ranks; row 8 is not visible. *)
Definition rank_table : TableAmRoutine := {|
  index_fetch_tuple := fun tid _ =>
    let rank := default 0 (zget [0; 50; 10; 40; 20; 30; 60; 5; 1] tid) in
    mk_fetch (if tid =? 8 then None else Some (mk_mtup 48 [Some tid; Some rank])) tid false false
|}.

(** The two traversals; row 7 does not satisfy the filter. *)
Definition traversal (column : bool) : list (Z * Z) :=
  (fun d => (d, tuple_label 0 d)) <$> (if column then [2; 7; 5; 4; 3; 1; 6] else [4; 8; 2; 1; 5; 6; 3]).

Definition demo_column_query (column : bool) : child (TopkQuery (I := list (Z * Z)) (V := bool)) :=
  mk_child (mk_query (Some (fun r => negb ((heap_getattr r 1).1 =? 7)))
              (Some (fun r => mk_mtup 48 (t_attrs r ++ [Some (if column then 7 else 8)])))
              (mk_iss ForwardScanDirection (None, Some (Some column)) 0 false None [int_key] [] false pairingheap_allocate ∅ ∅))
    forward_estate 1 [INT4OID; INT8OID; FLOAT8OID].

Definition two_columns_mem : IndexScanDescData (@HNSWScanOpaqueData (list (Z * Z)) bool) :=
  mk_scan false false (mk_hnsw false false false 0 None NoKeys NoKeys) 0 0 false false [] false true.

Definition two_columns : list (child (TopkQuery (I := list (Z * Z)) (V := bool))) := demo_column_query <$> [true; false].

Lemma two_columns_hits :
  zip_with (@traversal_hits _ _ rank_table id id id true) two_columns (traversal <$> [true; false]) = demo_orders.
Proof. vm_compute. reflexivity. Qed.

Lemma rank_column tid rank junk :
  castAttrToFloat id id id [INT4OID; INT8OID; FLOAT8OID] (mk_mtup 48 ([Some tid; Some rank] ++ [Some junk])) (3 - 1) = Ok rank.
Proof. reflexivity. Qed.

Lemma two_columns_run column :
  @hnsw_child _ _ rank_table demo_next traversal id id id 20 true (demo_column_query column) (traversal column).
Proof.
  split.
  - exists column. split; [by split|apply demo_iter_at].
  - reflexivity.
  - destruct column; vm_compute; lia.
  - intros _ x h _ Hx. unfold result_hit in Hx. cbn [index_fetch_tuple rank_table f_slot] in Hx.
    destruct (label_tid x.2 =? 8); [done|]. destruct (satisfies _ _) in Hx; [|done]. apply (inj Some) in Hx. subst h.
    eexists. apply rank_column.
Qed.

Lemma topk_hnsw_exact_witness :
  exists out,
    @topk_rows _ ListQueue (@topk_query_plan _ _ rank_table demo_next traversal (fun c => Ok (0, traversal c)) false two_columns_mem 20)
      (topk_query_ranked 0) _ id id id 20 2 2 3 two_columns 0 = Ok (h_row <$> out) /\
    topn key_cmp 2 demo_table (hit_key <$> out) /\ forall h, h ∈ out -> exists l, l ∈ demo_orders /\ h ∈ l.
Proof.
  destruct demo_orders_table as [HT Hperm].
  pose proof (@topk_hnsw_exact _ _ ListQueue rank_table _ _ demo_next traversal (fun c => Ok (0, traversal c)) false two_columns_mem
    id id id 0 20 2 2 3 two_columns (traversal <$> [true; false]) demo_table 0) as Hw.
  cbv zeta in Hw. change (zlen two_columns >? 1) with true in Hw. rewrite two_columns_hits in Hw. apply Hw.
  - intros tid c. reflexivity.
  - unfold INT_MAX. lia.
  - lia.
  - reflexivity.
  - discriminate.
  - repeat (constructor; [apply two_columns_run|]). constructor.
  - exact HT.
  - exact Hperm.
  - exact demo_orders_settle.
Defined.
